(* ===== verification/_CoqProject ===== *)
-Q . S2P
Prelude.v
GoStd.v
Endpoint.v
Domain.v
Frame.v
Envelope.v
Enrollment.v
Session.v
Probe.v
StrictJson.v
Stun.v
PortRegistry.v
Budget.v
Activation.v
Gateway.v
Pcp.v
Natpmp.v
Bolt.v
Journal.v
JournalProofs.v
JournalProps.v
Applied.v
AppliedProofs.v
ProbeRows.v
LocalStore.v
LocalWitness.v
AppliedProps.v
ProbeRowProps.v
Lifecycle.v
Decommission.v
DecommissionProps.v
Sql.v
Control.v
ControlProofs.v
ControlCleanup.v
ControlProps.v
ControlOwners.v
ControlWitness.v
Hub.v
HubProofs.v
HubProps.v
HubLive.v
CtlDb.v
EnrollStore.v
CtlLifecycle.v
Forwards.v
ProbeStore.v
ProbeLookup.v
CtlRun.v
ProbeLife.v
EnrollProps.v
RotationProps.v
RestoreProps.v
ForwardProps.v
ProbeProps.v
CtlProps.v
CtlWitness.v
ProbeWitness.v
Float64.v
HookText.v
ScriptSyntax.v
ScriptParse.v
ScriptEval.v
ScriptProps.v
HookNet.v
HookStore.v
HookProofs.v
HookRun.v
HookBroker.v
HookProps.v
HookSignProps.v
HookLive.v
HookWitness.v
