(* ===== verification/Prelude.v ===== *)
(** * AntiNAT: a verification development

    AntiNAT is a Controller that publishes ports of hosts behind NAT, and the Agents on those
    hosts.  This library models the parts of [src/] whose logic decides whether that is done
    correctly: wire formats and signatures, durable state on both sides and the protocols over
    it, gateway protocols, and the webhooks with their script runner.  A definition keeps the
    name of the Go function, type or constant it translates; a part of a function that has no
    name in the source is named after what it does, and its comment says where it is.

    ** How the code is rendered

    A function returning [(T, error)] returns a [result E T] ([let*] and [fail_if] below are
    [if err != nil { return err }] and [if b { return err }]).  Integers are [Z] within the
    bounds of their width, with the wrap-around written out ([u8], [wrap_i64]).  Bytes are
    [list byte]; Go strings are [string].  A method that changes state takes and returns it.  Panics are values
    ([EPanic], [None]) that a theorem excludes or an example exhibits.  What is not under [src/] is a class
    whose laws are documented behaviour:
    - [Crypto] ([crypto/ed25519], [crypto/sha256]), [Hmac] (HMAC-SHA1);
    - [Bolt] (a bbolt bucket), [JsonRow], [JournalEnv], [AppliedEnv], [ProbeEnv],
      [DecommissionEnv] (the row encodings and random ids of the Agent's store);
    - [HubJson], [CtlJson], [ProbeJson] (the payload encodings at the Controller), [Sink] (what
      the hub calls when it has stored a frame);
    - [UnicodeCase], [ScriptLib], [ScriptWorld] (case mapping, number syntax and formatting,
      sorting; clock, random bytes, cancellation and map order of one run);
    - [HookJson], [HookLib] (policy and parameter JSON, base64, URL parsing, HMAC, AES-GCM).
    Every theorem over such a class is applied to a concrete instance by its witness.

    Concurrency.  A critical section or transaction is one step.  Executions are lists of
    operations, and the theorems quantify over all lists.  Where one operation is several
    transactions, what others do in between is explicit: the agent hub carries a queue of
    interfering commands ([Hub.v]); the operations of the Controller's store take the databases
    their earlier reads saw as arguments ([seen]); the hook store takes what came [later] and the
    broker a [view] per read; the paged lookup reads a different database for every page.  An
    argument ranges over all databases, so stale reads need no further modelling.  A durable
    write of the Agent's lifecycle may fail or be the last before the process stops.

    ** Shared files

    [Prelude.v] (this file: results, bytes, integers, tactics, hint databases), [GoStd.v]
    ([net], [strconv], [strings], [hex] functions), [Bolt.v] (buckets and JSON rows),
    [Sql.v] (tables, statements, transactions, and [moves], the proof rule that a committed
    transaction follows a preorder if each of its writes does), [Float64.v] (binary64).

    ** Protocol ([src/internal/protocol], [src/internal/security])

    [Endpoint.v] is [endpoint.go] (classification against a CIDR table); [Domain.v] [domain.go] (validators, frozen
    automata); [Frame.v] [framecrypto.go]; [Envelope.v] [envelope.go]; [Enrollment.v]
    [enrollment.go]; [Session.v] [challenge.go]; [StrictJson.v] [strictjson.go]; [Probe.v] [probe.go] with the
    Agent's probe table.  The theorems: a parser accepts exactly the canonical encoding,
    parsing inverts building, a signature covers every field, a probe is answered at most once.
    [walk_fuel n = 2n+2] for [n] tokens is enough because each descent or step of the walker
    consumes a token ([decodeStrict_terminates]).

    ** Agent ([src/internal/agent])

    [Activation.v] is [reconcile/activation.go] and [state_machine.go].  The local store is
    [Journal.v] ([journal.go], [forward_delete.go], [tombstone.go], [pins.go]), [Applied.v]
    ([applied.go]), [ProbeRows.v] ([probe.go], [activation.go]); [LocalStore.v] puts their transactions
    into one command type.  [Lifecycle.v] is the latch, the marker files and recovery, and
    [Decommission.v] the decommissioner and the command handler of [app.go].  [JournalProofs.v],
    [JournalProps.v], [AppliedProofs.v], [AppliedProps.v], [ProbeRowProps.v],
    [DecommissionProps.v] show: the outbox refines a delivery automaton, operations and deletion
    fences move only forward, a deleted Forward stays deleted, an applied revision never
    decreases, a consumed probe stays consumed, and a decommission interrupted anywhere
    completes when it is issued again.  [LocalWitness.v] runs them.

    ** Traversal and forwarding ([src/internal/traversal], [src/internal/forward])

    [Gateway.v] is the transaction loop of the two gateway clients (bounded by its attempts and
    by the datagrams of the environment), [Pcp.v] and [Natpmp.v] the protocols over it, [Stun.v]
    [stun/message.go], [PortRegistry.v] [portregistry.go] with its release as three interleaved
    steps, [Budget.v] [budget.go].

    ** Controller ([src/internal/controller])

    [Control.v] is the control store ([control.go], [outbox.go], [nodes.go]); [ControlProofs.v],
    [ControlCleanup.v], [ControlOwners.v], [ControlProps.v] its automata, cleanup cycle, owner
    fencing and invariants.  [Hub.v] is [agenthub/session.go] over it; [HubProofs.v] lifts a
    relation from transactions to handlers, [HubProps.v] and [HubLive.v] give the refinement and
    the convergence.  [CtlDb.v] adds the other tables: [EnrollStore.v], [CtlLifecycle.v] (key
    rotation, restore, node deletion), [Forwards.v], [ProbeStore.v] and [ProbeLookup.v]
    ([store/probe.go]).  [CtlRun.v] is any sequence of all these transactions, and
    [ProbeLife.v], [EnrollProps.v], [RotationProps.v], [RestoreProps.v],
    [ForwardProps.v], [ProbeProps.v], [CtlProps.v] state over it what a token, a key, a
    restore, a Forward and a verified probe are worth.  [lookup_fuel] is the page bound of the
    code itself; running out of it is the code's own answer.

    ** Webhooks ([src/internal/hook])

    Scripts: [ScriptSyntax.v] and [ScriptEval.v] are [runner_eval.go] and [runner.go].
    [parse_fuel] is twelve per token, one for each grammar level between two consumed tokens
    ([script_parse_total]); [script_fuel] is [MaxSteps + 2], because every loop turn, call and
    statement consumes a step of the run's own budget ([script_run_total]).  The memory of the
    process is a parameter: no budget bounds it, and a run that exceeds it ends the process.
    Text: [HookText.v].  Addresses: [HookNet.v].  The store:
    [HookStore.v] ([crud.go], [binding.go], [queue.go]), where every write of the queue may fail
    to commit ([HookDisk]), executions in
    [HookRun.v] over the lemmas of [HookProofs.v].  [HookBroker.v] is [broker.go], [secrets.go],
    [preparer.go], [dispatcher.go] and [service.go].  [HookProps.v], [HookSignProps.v] and
    [HookLive.v] show: deliveries move along their life cycle and are never lost in silence, an
    enqueue answers truly, signatures stay in their budget and are bound to the hook's endpoint
    and secret, and the queue drains.  [HookWitness.v] runs them.

    ** Not modelled

    - [src/internal/agent/app.go] (but the decommission handler), [reconcile/probe.go], [supervisor.go] and
      [control/session.go]: supervision of goroutines, timers and a WebSocket around the modelled stores.
    - [src/internal/controller/probe], [agenthub]'s handshake and registration, [api], [web] and [auth]: HTTP
      handlers and workers over the modelled store; [store/traffic.go], [store/users.go].
    - [src/internal/traversal]: detection, strategy and manager, UPnP, the STUN transport and the
      adapters, which open sockets or call third-party parsers.
    - [src/internal/forward/tcp], [udp]: copying between sockets; the limiter is a token bucket on clocks.
    - [src/internal/hook/sandbox*.go] and the transport of [client.go]: processes, seccomp, sockets.
    - [src/internal/install], [config], [metrics], [src/cmd]: files and processes. *)

From Stdlib Require Import ZArith Lia Strings.Byte.
From stdpp Require Import base tactics list gmap strings option.

(** ** Results of fallible Go functions

    A Go function returning [(T, error)] is a [result E T]; the error
    sentinels of each package are an inductive type [E] of that component. *)

Inductive result (E A : Type) : Type :=
  | Ok (a : A)
  | Err (e : E).
Arguments Ok {E A} a.
Arguments Err {E A} e.

Definition is_ok {E A} (r : result E A) : bool :=
  match r with Ok _ => true | Err _ => false end.

Definition ok_or {E A} (d : A) (r : result E A) : A :=
  match r with Ok a => a | Err _ => d end.

Definition map_err {E F A} (f : E → F) (r : result E A) : result F A :=
  match r with Ok a => Ok a | Err e => Err (f e) end.

Definition of_option {E A} (e : E) (o : option A) : result E A :=
  match o with Some a => Ok a | None => Err e end.

Declare Scope go_scope.
Delimit Scope go_scope with go.

(** [let* x := c in k] is Go's [x, err := c; if err != nil { return err }; k];
    [fail_if b with e ;; k] is [if b { return e }; k]. *)
Notation "'let*' x ':=' c 'in' k" :=
  (match c with Ok x => k | Err e => Err e end)
  (at level 10, x pattern, k at level 200) : go_scope.
Notation "'fail_if' b 'with' e ';;' k" :=
  (if b then Err e else k)
  (at level 10, b at level 99, e at level 99,
   k at level 200) : go_scope.

Open Scope go_scope.
Open Scope Z_scope.

(** ** Bytes and machine integers

    A Go [byte] is [Init.Byte.byte]; [uint16], [uint32], [uint64] and
    [int] values are [Z] within the bounds of their width.  [u8] is the Go
    conversion [byte(v)], which keeps the low eight bits. *)

Abbreviation byte := Init.Byte.byte.
Abbreviation bytes := (list Init.Byte.byte).

Definition b2z (b : byte) : Z := Z.of_N (Byte.to_N b).

Definition u8 (z : Z) : byte :=
  match Byte.of_N (Z.to_N (z mod 256)) with
  | Some b => b
  | None => Byte.x00
  end.

Definition in_u16 (v : Z) : Prop := 0 ≤ v < 2 ^ 16.
Definition in_u32 (v : Z) : Prop := 0 ≤ v < 2 ^ 32.
Definition in_u64 (v : Z) : Prop := 0 ≤ v < 2 ^ 64.

(** The value an [int] or [int64] computation keeps: two's complement wrap-around. *)
Definition wrap_i64 (v : Z) : Z := (v + 2 ^ 63) mod 2 ^ 64 - 2 ^ 63.
Definition in_i64 (v : Z) : Prop := - 2 ^ 63 ≤ v < 2 ^ 63.

(** [len(x)] of a slice, as a machine integer. *)
Definition zlen {A} (l : list A) : Z := Z.of_nat (length l).

(** Go string <-> byte-slice conversions. *)
Definition bytes_of (s : string) : bytes := String.list_byte_of_string s.
Definition string_of (b : bytes) : string := String.string_of_list_byte b.

(** [binary.BigEndian.PutUintN] into an [n]-byte array and
    [binary.BigEndian.UintN] of an [n]-byte slice. *)
Fixpoint be_put (n : nat) (v : Z) : bytes :=
  match n with
  | O => []
  | S n' => u8 (v / 256 ^ Z.of_nat n') :: be_put n' v
  end.

Fixpoint be_get (l : bytes) : Z :=
  match l with
  | [] => 0
  | b :: l' => b2z b * 256 ^ zlen l' + be_get l'
  end.

(** The Go slice expression [l[i:j]] for in-range bounds. *)
Definition slice {A} (l : list A) (i j : nat) : list A := take (j - i) (drop i l).

#[global] Arguments zlen : simpl never.
#[global] Arguments bytes_of : simpl never.
#[global] Arguments string_of : simpl never.
#[global] Arguments firstn {A} !n !l : simpl nomatch.
#[global] Arguments skipn {A} !n !l : simpl nomatch.

#[export] Instance byte_eq_decision : EqDecision byte.
Proof. exact Byte.byte_eq_dec. Defined.

#[export] Instance byte_inhabited : Inhabited byte := populate Byte.x00.

#[export] Instance byte_countable : Countable byte.
Proof.
  refine (inj_countable Byte.to_N Byte.of_N _).
  intros b. apply Byte.of_to_N.
Defined.

(** Boolean equality of byte strings ([bytes.Equal] and array [==]). *)
Definition bytes_eqb (a b : bytes) : bool := bool_decide (a = b).

(** ** Hint databases and tactics *)

Create HintDb go_len.
Create Rewrite HintDb go_rw.

(** [go_inv H] walks through the guards of a Go function body in [H]. *)
Ltac go_inv H :=
  repeat (try (cbv beta iota in H); simplify_eq;
    match type of H with
    | context [match ?x with _ => _ end] =>
        match x with
        | context [match _ with _ => _ end] => fail 1
        | _ => let E := fresh "E" in destruct x eqn:E
        end
    end); try (cbv beta iota in H); simplify_eq.

(** Step over the leading [fail_if] guards of an accepted call. *)
Ltac guards H :=
  repeat match type of H with
  | (if ?b then _ else _) = _ => let E := fresh "E" in destruct b eqn:E; [discriminate H|]
  end.

(** Case analysis on the innermost scrutinees of the goal. *)
Ltac go_cases :=
  repeat match goal with
  | |- context [match ?x with _ => _ end] =>
      match x with
      | context [match _ with _ => _ end] => fail 1
      | _ => let E := fresh "E" in destruct x eqn:E
      end
  end.

Ltac bool_prop :=
  repeat match goal with
  | H : _ && _ = true |- _ => apply andb_true_iff in H as [? ?]
  | H : _ || _ = false |- _ => apply orb_false_iff in H as [? ?]
  | H : negb _ = true |- _ => apply negb_true_iff in H
  | H : negb _ = false |- _ => apply negb_false_iff in H
  | H : bool_decide _ = true |- _ => apply bool_decide_eq_true in H
  | H : bool_decide _ = false |- _ => apply bool_decide_eq_false in H
  | H : bytes_eqb _ _ = _ |- _ => unfold bytes_eqb in H
  | H : (_ =? _)%string = true |- _ => apply String.eqb_eq in H
  | H : (_ =? _)%string = false |- _ => apply String.eqb_neq in H
  | H : (_ =? _)%Z = true |- _ => apply Z.eqb_eq in H
  | H : (_ =? _)%Z = false |- _ => apply Z.eqb_neq in H
  | H : (_ <? _)%Z = true |- _ => apply Z.ltb_lt in H
  | H : (_ <? _)%Z = false |- _ => apply Z.ltb_ge in H
  | H : (_ <=? _)%Z = true |- _ => apply Z.leb_le in H
  | H : (_ <=? _)%Z = false |- _ => apply Z.leb_gt in H
  end.

(** ** Bytes *)

Lemma b2z_range (b : byte) : 0 ≤ b2z b < 256.
Proof. unfold b2z. pose proof (Byte.to_N_bounded b). lia. Qed.

Lemma b2z_u8 (z : Z) : b2z (u8 z) = z mod 256.
Proof.
  unfold b2z, u8. pose proof (Z.mod_pos_bound z 256 ltac:(lia)) as Hb.
  destruct (Byte.of_N (Z.to_N (z mod 256))) as [b|] eqn:E.
  - apply Byte.to_of_N in E. rewrite E. lia.
  - apply Byte.of_N_None_iff in E. lia.
Qed.

Lemma b2z_inj (a b : byte) : b2z a = b2z b → a = b.
Proof.
  unfold b2z. intros H%N2Z.inj.
  pose proof (Byte.of_to_N a) as Ha. rewrite H, Byte.of_to_N in Ha. congruence.
Qed.

Lemma u8_b2z (b : byte) : u8 (b2z b) = b.
Proof. apply b2z_inj. rewrite b2z_u8. apply Z.mod_small, b2z_range. Qed.

Lemma u8_inj_range (x y : Z) : 0 ≤ x < 256 → 0 ≤ y < 256 → u8 x = u8 y → x = y.
Proof.
  intros Hx Hy H. apply (f_equal b2z) in H. rewrite !b2z_u8 in H.
  by rewrite !Z.mod_small in H by lia.
Qed.

#[export] Hint Rewrite b2z_u8 u8_b2z : go_rw.

(** ** Strings *)

Lemma string_of_bytes_of (s : string) : string_of (bytes_of s) = s.
Proof. apply String.string_of_list_byte_of_string. Qed.

Lemma bytes_of_string_of (b : bytes) : bytes_of (string_of b) = b.
Proof. apply String.list_byte_of_string_of_list_byte. Qed.

Lemma bytes_of_inj (s t : string) : bytes_of s = bytes_of t → s = t.
Proof. intros H. by rewrite <- (string_of_bytes_of s), H, string_of_bytes_of. Qed.

Lemma string_of_inj (a b : bytes) : string_of a = string_of b → a = b.
Proof. intros H. by rewrite <- (bytes_of_string_of a), H, bytes_of_string_of. Qed.

Lemma length_bytes_of (s : string) : length (bytes_of s) = String.length s.
Proof.
  unfold bytes_of, String.list_byte_of_string. rewrite length_map.
  induction s; simpl; congruence.
Qed.

#[export] Hint Rewrite string_of_bytes_of bytes_of_string_of : go_rw.

Lemma wrap_i64_small (v : Z) : in_i64 v → wrap_i64 v = v.
Proof. unfold wrap_i64, in_i64. intros H. rewrite Z.mod_small; lia. Qed.

(** ** Lengths and slices *)

Lemma zlen_nonneg {A} (l : list A) : 0 ≤ zlen l.
Proof. unfold zlen. lia. Qed.

Lemma zlen_app {A} (l k : list A) : zlen (l ++ k) = zlen l + zlen k.
Proof. unfold zlen. rewrite length_app. lia. Qed.

Lemma zlen_cons {A} (x : A) (l : list A) : zlen (x :: l) = 1 + zlen l.
Proof. unfold zlen. simpl. lia. Qed.

Lemma zlen_nil {A} : zlen (@nil A) = 0.
Proof. done. Qed.

Lemma to_nat_zlen {A} (l : list A) : Z.to_nat (zlen l) = length l.
Proof. unfold zlen. lia. Qed.

Lemma zlen_0_inv {A} (l : list A) : zlen l = 0 → l = [].
Proof. unfold zlen. destruct l; simpl; [done|lia]. Qed.

#[export] Hint Rewrite @zlen_app @zlen_cons @zlen_nil @to_nat_zlen : go_rw.

Lemma take_exact {A} (l k : list A) (n : nat) : length l = n → take n (l ++ k) = l.
Proof. intros <-. apply take_app_length. Qed.

Lemma drop_exact {A} (l k : list A) (n : nat) : length l = n → drop n (l ++ k) = k.
Proof. intros <-. apply drop_app_length. Qed.

Lemma slice_head {A} (l k : list A) (j : nat) : length l = j → slice (l ++ k) 0 j = l.
Proof. intros H. unfold slice. rewrite drop_0, Nat.sub_0_r. by apply take_exact. Qed.

Lemma slice_skip {A} (l k : list A) (i j : nat) :
  (length l ≤ i)%nat → slice (l ++ k) i j = slice k (i - length l) (j - length l).
Proof.
  intros H. unfold slice. rewrite drop_app_ge by done. f_equal. lia.
Qed.

Lemma length_slice {A} (l : list A) (i j : nat) :
  (i ≤ j ≤ length l)%nat → length (slice l i j) = (j - i)%nat.
Proof. intros H. unfold slice. rewrite length_take, length_drop. lia. Qed.

Lemma slice_drop {A} (l : list A) (i j : nat) :
  (i ≤ j)%nat → drop i l = slice l i j ++ drop j l.
Proof.
  intros H. unfold slice. rewrite <- (take_drop (j - i) (drop i l)) at 1.
  f_equal. rewrite drop_drop. f_equal. lia.
Qed.

Lemma slice_0_drop {A} (l : list A) (j : nat) : l = slice l 0 j ++ drop j l.
Proof. rewrite <- slice_drop by lia. by rewrite drop_0. Qed.

Lemma slice_of_drop {A} (l : list A) (n i j : nat) : slice (drop n l) i j = slice l (n + i) (n + j).
Proof. unfold slice. rewrite drop_drop. f_equal. lia. Qed.

Lemma slice_of_slice {A} (l : list A) (a b i j : nat) :
  (j ≤ b - a)%nat → slice (slice l a b) i j = slice l (a + i) (a + j).
Proof.
  intros H. unfold slice. rewrite skipn_firstn_comm, drop_drop, firstn_firstn. f_equal. lia.
Qed.

Lemma slice_within {A} (l k : list A) (i j : nat) :
  (i ≤ j ≤ length l)%nat → slice (l ++ k) i j = slice l i j.
Proof.
  intros H. unfold slice. rewrite skipn_app. rewrite take_app_le by (rewrite length_drop; lia). done.
Qed.

Lemma slice_here {A} (l k : list A) (i j : nat) : i = O → j = length l → slice (l ++ k) i j = l.
Proof. intros -> ->. by apply slice_head. Qed.

Lemma slice_all {A} (l : list A) (i j : nat) : i = O → j = length l → slice l i j = l.
Proof. intros -> ->. unfold slice. rewrite drop_0, Nat.sub_0_r. apply firstn_all. Qed.

Lemma slice_mid {A} (a b c : list A) (i j : nat) :
  i = length a → j = (length a + length b)%nat → slice (a ++ b ++ c) i j = b.
Proof.
  intros -> ->. rewrite slice_skip by lia. rewrite Nat.sub_diag. apply slice_head. lia.
Qed.

(** Two byte strings split at the same length agree part by part. *)
Lemma app_split {A} (a b c d : list A) :
  length a = length c → a ++ b = c ++ d → a = c ∧ b = d.
Proof. intros Hl He. by apply app_inj_1 in He. Qed.

(** ** Big-endian integers *)

Lemma length_be_put (n : nat) (v : Z) : length (be_put n v) = n.
Proof. induction n; simpl; congruence. Qed.

(** Find the field of a concatenation at given offsets: skip the fields before it. *)
Ltac slice_field :=
  repeat rewrite slice_skip by (rewrite ?length_be_put; lia);
  first [ rewrite slice_here by (rewrite ?length_be_put; lia)
        | rewrite slice_all by (rewrite ?length_be_put; lia) ].

Lemma zlen_be_put (n : nat) (v : Z) : zlen (be_put n v) = Z.of_nat n.
Proof. unfold zlen. by rewrite length_be_put. Qed.

#[export] Hint Rewrite length_be_put zlen_be_put : go_rw.

Lemma be_get_range (l : bytes) : 0 ≤ be_get l < 256 ^ zlen l.
Proof.
  induction l as [|b l IH]; [done|]. cbn [be_get].
  pose proof (b2z_range b). rewrite zlen_cons, Z.pow_add_r by (pose proof (zlen_nonneg l); lia).
  change (256 ^ 1) with 256. nia.
Qed.

Lemma be_get_put (n : nat) (v : Z) : be_get (be_put n v) = v mod 256 ^ Z.of_nat n.
Proof.
  induction n as [|n IH]; [by rewrite Z.mod_1_r|].
  cbn [be_put be_get]. rewrite IH, b2z_u8, zlen_be_put.
  rewrite Nat2Z.inj_succ, Z.pow_succ_r by lia.
  rewrite (Z.mul_comm 256), Z.rem_mul_r by lia. lia.
Qed.

Lemma be_get_put_small (n : nat) (v : Z) :
  0 ≤ v < 256 ^ Z.of_nat n → be_get (be_put n v) = v.
Proof. intros H. rewrite be_get_put. by apply Z.mod_small. Qed.

Lemma be_get_put_mod (n k : nat) (v : Z) : (n ≤ k)%nat →
  be_put n (v mod 256 ^ Z.of_nat k) = be_put n v.
Proof.
  intros Hk. induction n as [|n IH]; [done|]. cbn [be_put]. rewrite IH by lia.
  f_equal. apply b2z_inj. rewrite !b2z_u8.
  replace (Z.of_nat k) with (Z.of_nat n + (1 + (Z.of_nat k - Z.of_nat n - 1))) by lia.
  rewrite Z.pow_add_r, Z.pow_add_r by lia. change (256 ^ 1) with 256.
  rewrite Z.rem_mul_r by lia.
  rewrite (Z.mul_comm (256 ^ Z.of_nat n)), Z.div_add by lia.
  rewrite (Z.div_small (v mod _)) by (apply Z.mod_pos_bound; lia).
  rewrite Z.add_0_l, Z.rem_mul_r by lia.
  rewrite Z.mul_comm, Z_mod_plus_full, Zmod_mod. done.
Qed.

Lemma be_put_get (l : bytes) : be_put (length l) (be_get l) = l.
Proof.
  induction l as [|b l IH]; [done|]. cbn [length be_put be_get]. fold (zlen l).
  pose proof (be_get_range l) as Hr. pose proof (zlen_nonneg l).
  f_equal.
  - rewrite Z.add_comm, Z.div_add by lia. rewrite Z.div_small by done.
    rewrite Z.add_0_l. apply u8_b2z.
  - rewrite <- (be_get_put_mod _ (length l)) by done. fold (zlen l).
    rewrite Z.add_comm, Z_mod_plus_full, Z.mod_small by done. exact IH.
Qed.

Lemma be_put_get_len (n : nat) (l : bytes) : length l = n → be_put n (be_get l) = l.
Proof. intros <-. apply be_put_get. Qed.

Lemma be_put_inj (n : nat) (v w : Z) :
  0 ≤ v < 256 ^ Z.of_nat n → 0 ≤ w < 256 ^ Z.of_nat n → be_put n v = be_put n w → v = w.
Proof.
  intros Hv Hw H. apply (f_equal be_get) in H.
  by rewrite !be_get_put_small in H.
Qed.

(** The three widths the wire formats use. *)
Lemma be_get_u16 (v : Z) : in_u16 v → be_get (be_put 2 v) = v.
Proof. apply (be_get_put_small 2). Qed.
Lemma be_get_u32 (v : Z) : in_u32 v → be_get (be_put 4 v) = v.
Proof. apply (be_get_put_small 4). Qed.
Lemma be_get_u64 (v : Z) : in_u64 v → be_get (be_put 8 v) = v.
Proof. apply (be_get_put_small 8). Qed.

Lemma be_get_one (b : byte) : be_get [b] = b2z b.
Proof. cbn [be_get]. rewrite zlen_nil. lia. Qed.

#[global] Arguments be_put : simpl never.
#[global] Arguments be_get : simpl never.
#[global] Opaque be_put be_get.

Lemma forallb_elem {A} (p : A → bool) (l : list A) (x : A) : forallb p l = true → x ∈ l → p x = true.
Proof. intros H Hx. apply list_elem_of_In in Hx. exact (proj1 (List.forallb_forall p l) H x Hx). Qed.
