(* ===== verification/GoStd.v ===== *)
(** * The Go standard-library functions the sources call on text

    [net.SplitHostPort], [net.JoinHostPort] for IPv4 hosts, the IPv4 half of
    [netip.ParseAddr], [strconv.Atoi] and [hex.DecodeString], written as the
    Go 1.2x library writes them, over the bytes of the string.  The sources
    only ask [netip.ParseAddr] whether the text is an IPv4 address
    ([err != nil || !ip.Is4()]); the IPv6 parser therefore only contributes
    "no". *)

From Stdlib Require Import ZArith Lia Strings.Byte.
From stdpp Require Import base tactics list sets strings option.
From S2P Require Import Prelude.

(** ** Byte search *)

Fixpoint index_byte (c : byte) (s : bytes) : option nat :=
  match s with
  | [] => None
  | b :: s' => if bool_decide (b = c) then Some O else S <$> index_byte c s'
  end.

Fixpoint last_index_byte (c : byte) (s : bytes) : option nat :=
  match s with
  | [] => None
  | b :: s' =>
      match last_index_byte c s' with
      | Some i => Some (S i)
      | None => if bool_decide (b = c) then Some O else None
      end
  end.

Definition contains_byte (c : byte) (s : bytes) : bool :=
  match index_byte c s with Some _ => true | None => false end.

Definition ch (a : Z) : byte := u8 a.
Definition colon : byte := "058"%byte.
Definition lbracket : byte := "091"%byte.
Definition rbracket : byte := "093"%byte.
Definition dot : byte := "046"%byte.
Definition percent : byte := "037"%byte.
Definition plus_sign : byte := "043"%byte.
Definition minus_sign : byte := "045"%byte.

(** ** [net.SplitHostPort] *)

Definition SplitHostPort (hostport : bytes) : option (bytes * bytes) :=
  match last_index_byte colon hostport with
  | None => None (* missing port *)
  | Some i =>
      let finish (host : bytes) (j k : nat) :=
        if contains_byte lbracket (drop j hostport) then None
        else if contains_byte rbracket (drop k hostport) then None
        else Some (host, drop (S i) hostport) in
      match hostport with
      | b0 :: _ =>
          if bool_decide (b0 = lbracket) then
            match index_byte rbracket hostport with
            | None => None
            | Some e =>
                if bool_decide (S e = length hostport) then None
                else if bool_decide (S e = i)
                     then finish (slice hostport 1 e) 1%nat (S e)
                     else None
            end
          else
            let host := take i hostport in
            if contains_byte colon host then None else finish host O O
      | [] => None
      end
  end.

(** ** Decimal digits *)

Definition digit_val (b : byte) : option Z :=
  let v := b2z b - 48 in
  if (0 <=? v) && (v <=? 9) then Some v else None.

(** ** [netip.ParseAddr], IPv4 *)

(** [netip.parseIPv4Fields]: [acc] are the octets already closed by a dot,
    [val] and [digLen] the value and digit count of the current octet. *)
Fixpoint parse_ipv4_fields (acc : list byte) (val : Z) (digLen : nat) (s : bytes)
    : option (list byte) :=
  match s with
  | [] => if bool_decide (length acc = 3%nat) then Some (acc ++ [u8 val]) else None
  | b :: s' =>
      match digit_val b with
      | Some d =>
          if bool_decide (digLen = 1%nat) && (val =? 0) then None
          else if 255 <? val * 10 + d then None
          else parse_ipv4_fields acc (val * 10 + d) (S digLen) s'
      | None =>
          if bool_decide (b = dot) then
            if bool_decide (digLen = O) || bool_decide (s' = []) then None
            else if bool_decide (length acc = 3%nat) then None
            else parse_ipv4_fields (acc ++ [u8 val]) 0 O s'
          else None
      end
  end.

(** The first of ['.'], [':'], ['%'] decides which parser runs. *)
Fixpoint first_addr_sep (s : bytes) : option byte :=
  match s with
  | [] => None
  | b :: s' =>
      if bool_decide (b = dot) || bool_decide (b = colon) || bool_decide (b = percent)
      then Some b else first_addr_sep s'
  end.

(** [netip.ParseAddr(s)] followed by the test [Is4]: the four octets. *)
Definition ParseAddr4 (s : bytes) : option (list byte) :=
  match first_addr_sep s with
  | Some b => if bool_decide (b = dot) then parse_ipv4_fields [] 0 O s else None
  | None => None
  end.

(** ** [strconv.Atoi] (64-bit [int]) *)

Fixpoint parse_digits (n : Z) (s : bytes) : option Z :=
  match s with
  | [] => Some n
  | b :: s' =>
      match digit_val b with
      | Some d => parse_digits (n * 10 + d) s'
      | None => None
      end
  end.

Definition Atoi (s : bytes) : option Z :=
  let '(neg, body) :=
    match s with
    | b :: s' =>
        if bool_decide (b = minus_sign) then (true, s')
        else if bool_decide (b = plus_sign) then (false, s')
        else (false, s)
    | [] => (false, [])
    end in
  match body with
  | [] => None
  | _ =>
      match parse_digits 0 body with
      | None => None
      | Some n =>
          let v := if (neg : bool) then - n else n in
          if (- 2 ^ 63 <=? v) && (v <? 2 ^ 63) then Some v else None
      end
  end.

(** ** [hex.DecodeString] success test *)

Definition is_hex_digit (b : byte) : bool :=
  let v := b2z b in
  ((48 <=? v) && (v <=? 57)) || ((97 <=? v) && (v <=? 102)) || ((65 <=? v) && (v <=? 70)).

Definition hex_decodes (s : bytes) : bool :=
  Nat.even (length s) && forallb is_hex_digit s.

(** ** Canonical decimal text, used to build concrete endpoints *)

Fixpoint dec_digits (fuel : nat) (n : Z) : bytes :=
  match fuel with
  | O => []
  | S f => if n <? 10 then [u8 (48 + n)] else dec_digits f (n / 10) ++ [u8 (48 + n mod 10)]
  end.

(** [strconv.Itoa] of a non-negative number below [10^20]. *)
Definition Itoa (n : Z) : bytes := dec_digits 20 n.

(** ** Lemmas *)

Lemma digit_val_u8 (d : Z) : 0 ≤ d ≤ 9 → digit_val (u8 (48 + d)) = Some d.
Proof.
  intros H. unfold digit_val. rewrite b2z_u8, Z.mod_small by lia.
  replace (48 + d - 48) with d by lia.
  by rewrite (proj2 (Z.leb_le 0 d)), (proj2 (Z.leb_le d 9)) by lia.
Qed.

Lemma digit_val_range (b : byte) (d : Z) : digit_val b = Some d → 0 ≤ d ≤ 9 ∧ b = u8 (48 + d).
Proof.
  unfold digit_val. intros H. go_inv H. bool_prop. split; [lia|].
  rewrite <- (u8_b2z b) at 1. f_equal. lia.
Qed.

Lemma index_byte_None (c : byte) (s : bytes) : index_byte c s = None ↔ c ∉ s.
Proof.
  induction s as [|b s IH]; simpl; [split; [set_solver|done]|].
  case_bool_decide as Hb.
  - split; [done|set_solver].
  - destruct (index_byte c s) eqn:E; simpl; split; intros H; try done.
    + exfalso. destruct IH as [_ IH]. discriminate IH. set_solver.
    + set_solver.
Qed.

Lemma contains_byte_true (c : byte) (s : bytes) : contains_byte c s = true ↔ c ∈ s.
Proof.
  unfold contains_byte. destruct (index_byte c s) eqn:E.
  - split; [|done]. intros _. destruct (decide (c ∈ s)) as [?|Hn]; [done|].
    apply index_byte_None in Hn. congruence.
  - apply index_byte_None in E. split; [done|]. intros ?. done.
Qed.

Lemma contains_byte_false (c : byte) (s : bytes) : contains_byte c s = false ↔ c ∉ s.
Proof. rewrite <- not_true_iff_false. by rewrite contains_byte_true. Qed.

Lemma last_index_byte_None (c : byte) (s : bytes) : c ∉ s → last_index_byte c s = None.
Proof.
  induction s as [|b s IH]; simpl; [done|]. intros H.
  rewrite IH by set_solver. rewrite bool_decide_eq_false_2; [done|]. set_solver.
Qed.

Lemma last_index_byte_app (c : byte) (a b : bytes) :
  c ∉ b → last_index_byte c (a ++ c :: b) = Some (length a).
Proof.
  intros Hb. induction a as [|x a IH]; simpl.
  - rewrite last_index_byte_None by done. by rewrite bool_decide_eq_true_2.
  - by rewrite IH.
Qed.

Lemma drop_past {A} (a : list A) (c : A) (b : list A) : drop (S (length a)) (a ++ c :: b) = b.
Proof. induction a; [done|]. exact IHa. Qed.

Lemma not_in_join (c x : byte) (a b : bytes) : c ≠ x → c ∉ a → c ∉ b → c ∉ a ++ x :: b.
Proof. intros ? ? ?. rewrite not_elem_of_app, not_elem_of_cons. done. Qed.

(** A host without separators and a port without separators split back. *)
Lemma SplitHostPort_join (host port : bytes) :
  host ≠ [] → colon ∉ host → lbracket ∉ host → rbracket ∉ host →
  colon ∉ port → lbracket ∉ port → rbracket ∉ port →
  SplitHostPort (host ++ colon :: port) = Some (host, port).
Proof.
  intros Hne Hc Hl Hr Hpc Hpl Hpr. unfold SplitHostPort.
  rewrite last_index_byte_app by done.
  destruct host as [|b0 host]; [done|]. cbn [app].
  rewrite bool_decide_eq_false_2 by set_solver.
  assert (Ht : take (length (b0 :: host)) (b0 :: host ++ colon :: port) = b0 :: host).
  { change (b0 :: host ++ colon :: port) with ((b0 :: host) ++ colon :: port).
    by apply take_exact. }
  rewrite Ht, (proj2 (contains_byte_false _ _) Hc), !drop_0.
  assert (Hlb : lbracket ∉ b0 :: host ++ colon :: port).
  { by apply (not_in_join _ _ (b0 :: host)). }
  assert (Hrb : rbracket ∉ b0 :: host ++ colon :: port).
  { by apply (not_in_join _ _ (b0 :: host)). }
  rewrite (proj2 (contains_byte_false _ _) Hlb), (proj2 (contains_byte_false _ _) Hrb).
  pose proof (drop_past (b0 :: host) colon port) as D. cbn in D |- *. by rewrite D.
Qed.

(** ** Decimal round trips *)

Definition digit (b : byte) : Prop := is_Some (digit_val b).

Lemma digit_not_sep (b : byte) : digit b →
  b ≠ colon ∧ b ≠ dot ∧ b ≠ percent ∧ b ≠ lbracket ∧ b ≠ rbracket ∧
  b ≠ plus_sign ∧ b ≠ minus_sign.
Proof.
  intros [d Hd]. repeat split; intros ->; vm_compute in Hd; discriminate.
Qed.

Lemma dec_digits_digit (f : nat) (n : Z) : 0 ≤ n → Forall digit (dec_digits f n).
Proof.
  revert n; induction f as [|f IH]; intros n Hn; simpl; [done|].
  destruct (Z.ltb_spec n 10).
  - constructor; [|done]. exists n. apply digit_val_u8. lia.
  - apply Forall_app. split; [apply IH; apply Z.div_pos; lia|].
    constructor; [|done]. eexists. apply digit_val_u8.
    pose proof (Z.mod_pos_bound n 10). lia.
Qed.

Lemma digits_no_sep (s : bytes) : Forall digit s →
  colon ∉ s ∧ dot ∉ s ∧ lbracket ∉ s ∧ rbracket ∉ s.
Proof.
  intros H. rewrite list.Forall_forall in H.
  repeat split; intros Hin; apply H, digit_not_sep in Hin; naive_solver.
Qed.

Lemma parse_digits_app (a b : bytes) (n : Z) :
  parse_digits n (a ++ b) = parse_digits n a ≫= λ m, parse_digits m b.
Proof.
  revert n; induction a as [|x a IH]; intros n; simpl; [done|].
  destruct (digit_val x); [apply IH|done].
Qed.

Lemma parse_dec_digits (f : nat) (n : Z) :
  0 ≤ n < 10 ^ Z.of_nat f → parse_digits 0 (dec_digits f n) = Some n.
Proof.
  revert n; induction f as [|f IH]; intros n Hn; [simpl in *; f_equal; lia|].
  cbn [dec_digits]. rewrite Nat2Z.inj_succ, Z.pow_succ_r in Hn by lia.
  destruct (Z.ltb_spec n 10).
  - cbn [parse_digits]. rewrite digit_val_u8 by lia. done.
  - rewrite parse_digits_app, IH by (Z.div_mod_to_equations; lia).
    cbn [mbind option_bind parse_digits].
    rewrite digit_val_u8 by (Z.div_mod_to_equations; lia).
    f_equal. Z.div_mod_to_equations; lia.
Qed.

Lemma dec_digits_nonempty (f : nat) (n : Z) : dec_digits (S f) n ≠ [].
Proof. cbn [dec_digits]. destruct (n <? 10); [done|]. by destruct (dec_digits f (n / 10)). Qed.

Lemma Atoi_Itoa (n : Z) : 0 ≤ n < 2 ^ 63 → Atoi (Itoa n) = Some n.
Proof.
  intros Hn. unfold Atoi, Itoa.
  pose proof (dec_digits_digit 20 n ltac:(lia)) as Hd.
  pose proof (dec_digits_nonempty 19 n) as Hne.
  pose proof (parse_dec_digits 20 n ltac:(lia)) as Hp.
  destruct (dec_digits 20 n) as [|b s]; [done|].
  apply Forall_inv, digit_not_sep in Hd as Hb.
  rewrite !bool_decide_eq_false_2 by naive_solver.
  rewrite Hp. rewrite (proj2 (Z.leb_le _ _)), (proj2 (Z.ltb_lt _ _)) by lia. done.
Qed.

Lemma first_addr_sep_dot (s t : bytes) : Forall digit s →
  first_addr_sep (s ++ dot :: t) = Some dot.
Proof.
  induction 1 as [|b s Hb _ IH]; simpl; [done|].
  apply digit_not_sep in Hb. rewrite !bool_decide_eq_false_2 by naive_solver. done.
Qed.

(** The decimal text of an octet, read by the IPv4 parser. *)
Lemma parse_ipv4_octet (acc : list byte) (b : byte) (rest : bytes) :
  ∃ n, (1 ≤ n)%nat ∧
  parse_ipv4_fields acc 0 O (Itoa (b2z b) ++ rest) = parse_ipv4_fields acc (b2z b) n rest.
Proof.
  destruct (decide (b2z b < 10)) as [H1|H1];
  [exists 1%nat|destruct (decide (b2z b < 100)) as [H2|H2]; [exists 2%nat|exists 3%nat]];
  (split; [lia|]); revert H1; try revert H2; destruct b; intros;
  first [reflexivity | exfalso; vm_compute in *; congruence].
Qed.

Definition render_ipv4 (o : bytes) : bytes :=
  match o with
  | [a; b; c; d] =>
      Itoa (b2z a) ++ dot :: Itoa (b2z b) ++ dot :: Itoa (b2z c) ++ dot :: Itoa (b2z d)
  | _ => []
  end.

Lemma Itoa_octet_nonempty (b : byte) : Itoa (b2z b) ≠ [].
Proof. apply dec_digits_nonempty. Qed.

Lemma ParseAddr4_render (o : bytes) : length o = 4%nat → ParseAddr4 (render_ipv4 o) = Some o.
Proof.
  intros Hl. destruct o as [|a [|b [|c [|d [|? ?]]]]]; try discriminate.
  unfold ParseAddr4, render_ipv4.
  assert (Hd : Forall digit (Itoa (b2z a))) by (apply dec_digits_digit; apply b2z_range).
  rewrite first_addr_sep_dot by done. rewrite bool_decide_eq_true_2 by done.
  assert (step : ∀ acc x rest, length acc ≠ 3%nat → rest ≠ [] →
    parse_ipv4_fields acc 0 O (Itoa (b2z x) ++ dot :: rest)
    = parse_ipv4_fields (acc ++ [x]) 0 O rest).
  { intros acc x rest Hacc Hr. destruct (parse_ipv4_octet acc x (dot :: rest)) as (n&Hn&->).
    cbn [parse_ipv4_fields]. change (digit_val dot) with (@None Z). cbv iota.
    rewrite bool_decide_eq_true_2 by done.
    rewrite !bool_decide_eq_false_2 by (done || lia). cbn. by rewrite u8_b2z. }
  assert (Hne : ∀ x t, Itoa (b2z x) ++ t ≠ []).
  { intros x t H. apply app_eq_nil in H as [H _]. by apply Itoa_octet_nonempty in H. }
  rewrite !step by (done || apply Hne || apply Itoa_octet_nonempty). cbn [app].
  rewrite <- (app_nil_r (Itoa (b2z d))).
  destruct (parse_ipv4_octet [a; b; c] d []) as (n&_&->). cbn. by rewrite u8_b2z.
Qed.

Lemma render_ipv4_no_sep (o : bytes) : length o = 4%nat →
  render_ipv4 o ≠ [] ∧ colon ∉ render_ipv4 o ∧ lbracket ∉ render_ipv4 o ∧ rbracket ∉ render_ipv4 o.
Proof.
  intros Hl. destruct o as [|a [|b [|c [|d [|? ?]]]]]; try discriminate.
  assert (Hd : ∀ x : byte, colon ∉ Itoa (b2z x) ∧ lbracket ∉ Itoa (b2z x) ∧ rbracket ∉ Itoa (b2z x)).
  { intros x. destruct (digits_no_sep (Itoa (b2z x))); [|naive_solver].
    apply dec_digits_digit, b2z_range. }
  unfold render_ipv4. split.
  { intros H. apply app_eq_nil in H as [H _]. by apply Itoa_octet_nonempty in H. }
  repeat split; repeat (apply not_in_join; [done|apply Hd|]); apply Hd.
Qed.

(** [netip.AddrPort.String] of an IPv4 address and port. *)
Definition render_addrport (o : bytes) (port : Z) : bytes := render_ipv4 o ++ colon :: Itoa port.

Lemma SplitHostPort_render (o : bytes) (port : Z) : length o = 4%nat → 0 ≤ port →
  SplitHostPort (render_addrport o port) = Some (render_ipv4 o, Itoa port).
Proof.
  intros Hl Hp. destruct (render_ipv4_no_sep o Hl) as (Hne&Hc&Hlb&Hrb).
  destruct (digits_no_sep (Itoa port)) as (?&?&?&?); [by apply dec_digits_digit|].
  by apply SplitHostPort_join.
Qed.

Lemma parse_ipv4_fields_length (s : bytes) : ∀ acc val dl o,
  parse_ipv4_fields acc val dl s = Some o → length o = 4%nat.
Proof.
  induction s as [|b s IH]; intros acc val dl o H; cbn [parse_ipv4_fields] in H.
  - case_bool_decide as Hl; [|done]. simplify_eq. rewrite length_app. simpl. lia.
  - go_inv H; eauto.
Qed.

Lemma ParseAddr4_length (s o : bytes) : ParseAddr4 s = Some o → length o = 4%nat.
Proof. unfold ParseAddr4. intros H. go_inv H. by eapply parse_ipv4_fields_length. Qed.

(** * Hexadecimal text ([encoding/hex]) *)

(** [hex.EncodeToString], and [fmt.Sprintf] with the verb x on a byte slice. *)
Definition hex_digit (v : Z) : byte := u8 (if v <? 10 then 48 + v else 87 + v).
Definition hex_of (b : bytes) : string :=
  string_of (flat_map (λ x, [hex_digit (Z.shiftr (b2z x) 4); hex_digit (Z.land (b2z x) 15)]) b).

(** [hex.DecodeString]: pairs of digits of either case. *)
Definition hex_val (b : byte) : option Z :=
  let v := b2z b in
  if (48 <=? v) && (v <=? 57) then Some (v - 48)
  else if (97 <=? v) && (v <=? 102) then Some (v - 87)
  else if (65 <=? v) && (v <=? 70) then Some (v - 55)
  else None.

Fixpoint hex_pairs (l : bytes) : option bytes :=
  match l with
  | [] => Some []
  | [_] => None
  | a :: b :: l' =>
      match hex_val a, hex_val b, hex_pairs l' with
      | Some x, Some y, Some rest => Some (u8 (x * 16 + y) :: rest)
      | _, _, _ => None
      end
  end.
Definition hex_decode (s : string) : option bytes := hex_pairs (bytes_of s).

Lemma hex_val_digit (v : Z) : 0 ≤ v < 16 → hex_val (hex_digit v) = Some v.
Proof.
  intros Hv. unfold hex_digit, hex_val. destruct (Z.ltb_spec v 10); rewrite b2z_u8, Z.mod_small by lia;
    repeat match goal with |- context [(?a <=? ?b)] => destruct (Z.leb_spec a b); try lia end; cbn; f_equal; lia.
Qed.

Lemma byte_nibbles (x : byte) : Z.shiftr (b2z x) 4 * 16 + Z.land (b2z x) 15 = b2z x ∧ 0 ≤ Z.shiftr (b2z x) 4 < 16 ∧ 0 ≤ Z.land (b2z x) 15 < 16.
Proof.
  change 15 with (Z.ones 4). rewrite Z.land_ones, Z.shiftr_div_pow2 by lia. pose proof (b2z_range x). change (2 ^ 4) with 16.
  pose proof (Z.div_mod (b2z x) 16). pose proof (Z.mod_pos_bound (b2z x) 16). lia.
Qed.

Lemma hex_decode_of (b : bytes) : hex_decode (hex_of b) = Some b.
Proof.
  unfold hex_decode, hex_of. rewrite bytes_of_string_of. induction b as [|x b IH]; [done|]. cbn [flat_map app hex_pairs].
  destruct (byte_nibbles x) as (Hx & H1 & H2). by rewrite !hex_val_digit, IH, Hx, u8_b2z by done.
Qed.

Lemma hex_of_inj (a b : bytes) : hex_of a = hex_of b → a = b.
Proof. intros H. apply (f_equal hex_decode) in H. rewrite !hex_decode_of in H. by injection H. Qed.

#[global] Arguments hex_of : simpl never.
