(* ===== verification/Endpoint.v ===== *)
(** * Endpoint classification ([src/internal/protocol/endpoint.go])

    The address classes, the octet-level IPv4 classifier and the validators
    of concrete global IPv4:port literals.  [cidr_table] is the specification:
    the special-purpose blocks as prefixes, looked up on the 32-bit address. *)

From Stdlib Require Import ZArith Lia Strings.Byte.
From stdpp Require Import base tactics list sets strings option.
From S2P Require Import Prelude GoStd.

(** ** Data *)

Inductive EndpointClass : Type :=
  | ClassUnspecified | ClassLoopback | ClassRFC1918 | ClassCGNAT | ClassLinkLocal
  | ClassBenchmark | ClassDocumentation | ClassMulticast | ClassReserved
  | ClassGlobalUnicast | ClassIPv4MappedIPv6.

#[export] Instance EndpointClass_eq_dec : EqDecision EndpointClass.
Proof. solve_decision. Defined.

(** [netip.Addr]: the zero value, an IPv4 address (4 octets) or an IPv6
    address (16 octets). *)
Inductive Addr : Type :=
  | AddrZero
  | Addr4 (o : bytes)
  | Addr6 (o : bytes).

(** [a[i]] of an octet array, as a number. *)
Definition oct (o : bytes) (i : nat) : Z := b2z (nth i o Byte.x00).

Definition Is4 (ip : Addr) : bool := match ip with Addr4 _ => true | _ => false end.

Definition Is4In6 (ip : Addr) : bool :=
  match ip with
  | Addr6 o => bytes_eqb (take 12 o) (repeat Byte.x00 10 ++ [Byte.xff; Byte.xff])
  | _ => false
  end.

Definition IsUnspecified (ip : Addr) : bool :=
  match ip with
  | AddrZero => false
  | Addr4 o => bytes_eqb o (repeat Byte.x00 4)
  | Addr6 o => bytes_eqb o (repeat Byte.x00 16)
  end.

Definition IsLoopback (ip : Addr) : bool :=
  match ip with
  | AddrZero => false
  | Addr4 o => oct o 0 =? 127
  | Addr6 o => bytes_eqb o (repeat Byte.x00 15 ++ [Byte.x01])
  end.

Definition IsLinkLocalUnicast (ip : Addr) : bool :=
  match ip with
  | AddrZero => false
  | Addr4 o => (oct o 0 =? 169) && (oct o 1 =? 254)
  | Addr6 o => (oct o 0 =? 254) && (Z.land (oct o 1) 192 =? 128)
  end.

Definition IsMulticast (ip : Addr) : bool :=
  match ip with
  | AddrZero => false
  | Addr4 o => Z.land (oct o 0) 240 =? 224
  | Addr6 o => oct o 0 =? 255
  end.

Inductive EndpointError : Type :=
  | ErrEmptyEndpoint | ErrNotHostPort | ErrNotIPv4 | ErrNotGlobal
  | ErrPortNotInteger | ErrPortRange (port : Z).

(** ** Operations *)

Definition className (c : EndpointClass) : string :=
  match c with
  | ClassUnspecified => "unspecified"
  | ClassLoopback => "loopback"
  | ClassRFC1918 => "rfc1918"
  | ClassCGNAT => "cgnat"
  | ClassLinkLocal => "link-local"
  | ClassBenchmark => "benchmark"
  | ClassDocumentation => "documentation"
  | ClassMulticast => "multicast"
  | ClassReserved => "reserved"
  | ClassGlobalUnicast => "global-unicast"
  | ClassIPv4MappedIPv6 => "ipv4-mapped-ipv6"
  end.

Definition classifyIPv4 (o : bytes) : EndpointClass :=
  let b0 := oct o 0 in let b1 := oct o 1 in let b2 := oct o 2 in
  if b0 =? 10 then ClassRFC1918
  else if (b0 =? 172) && (16 <=? b1) && (b1 <=? 31) then ClassRFC1918
  else if (b0 =? 192) && (b1 =? 168) then ClassRFC1918
  else if (b0 =? 100) && (64 <=? b1) && (b1 <=? 127) then ClassCGNAT
  else if (b0 =? 169) && (b1 =? 254) then ClassLinkLocal
  else if (b0 =? 198) && (18 <=? b1) && (b1 <=? 19) then ClassBenchmark
  else if (b0 =? 192) && (b1 =? 0) && (b2 =? 2) then ClassDocumentation
  else if (b0 =? 198) && (b1 =? 51) && (b2 =? 100) then ClassDocumentation
  else if (b0 =? 203) && (b1 =? 0) && (b2 =? 113) then ClassDocumentation
  else if (b0 =? 192) && (b1 =? 0) && (b2 =? 0) then ClassReserved
  else if (b0 =? 192) && (b1 =? 31) && (b2 =? 196) then ClassReserved
  else if (b0 =? 192) && (b1 =? 52) && (b2 =? 193) then ClassReserved
  else if (b0 =? 192) && (b1 =? 88) && (b2 =? 99) then ClassReserved
  else if (b0 =? 192) && (b1 =? 175) && (b2 =? 48) then ClassReserved
  else if (224 <=? b0) && (b0 <=? 239) then ClassMulticast
  else if b0 =? 0 then ClassReserved
  else if 240 <=? b0 then ClassReserved
  else ClassGlobalUnicast.

Definition ClassifyIP (ip : Addr) : EndpointClass :=
  match ip with
  | AddrZero => ClassUnspecified
  | _ =>
      if Is4In6 ip then ClassIPv4MappedIPv6
      else if IsUnspecified ip then ClassUnspecified
      else if IsLoopback ip then ClassLoopback
      else match ip with
      | Addr4 o => classifyIPv4 o
      | Addr6 o =>
          if IsLinkLocalUnicast ip then ClassLinkLocal
          else if IsMulticast ip then ClassMulticast
          else if Z.land (oct o 0) 254 =? 252 then ClassRFC1918
          else if (oct o 0 =? 32) && (oct o 1 =? 1) && (oct o 2 =? 13) && (oct o 3 =? 184)
               then ClassDocumentation
          else ClassGlobalUnicast
      | AddrZero => ClassUnspecified
      end
  end.

Definition IsGlobalEndpoint (ip : Addr) : bool :=
  if negb (Is4 ip) then false
  else match ClassifyIP ip with
  | ClassDocumentation | ClassGlobalUnicast => true
  | _ => false
  end.

(** [protocol.ValidatePort] *)
Definition ValidatePort (port : Z) : result EndpointError unit :=
  fail_if (port <? 1) || (65535 <? port) with ErrPortRange port ;; Ok tt.

(** [protocol.ValidateEndpoint]; the result is the [netip.AddrPort]. *)
Definition ValidateEndpoint (endpoint : string) : result EndpointError (bytes * Z) :=
  fail_if String.eqb endpoint "" with ErrEmptyEndpoint ;;
  match SplitHostPort (bytes_of endpoint) with
  | None | Some ([], _) => Err ErrNotHostPort
  | Some (host, portText) =>
      match ParseAddr4 host with
      | None => Err ErrNotIPv4
      | Some ip =>
          fail_if negb (IsGlobalEndpoint (Addr4 ip)) with ErrNotGlobal ;;
          match Atoi portText with
          | None => Err ErrPortNotInteger
          | Some port =>
              let* _ := ValidatePort port in
              Ok (ip, port mod 2 ^ 16)
          end
      end
  end.

(** ** Specification: special-purpose blocks as CIDR prefixes *)

Definition ip32 (o : bytes) : Z :=
  oct o 0 * 2 ^ 24 + oct o 1 * 2 ^ 16 + oct o 2 * 2 ^ 8 + oct o 3.

(** [(a, b, c, d, len, class)]: the block [a.b.c.d/len]. *)
Record cidr := Cidr { cidr_base : Z; cidr_len : Z; cidr_class : EndpointClass }.

Definition block (a b c d len : Z) (cl : EndpointClass) : cidr :=
  Cidr (a * 2 ^ 24 + b * 2 ^ 16 + c * 2 ^ 8 + d) len cl.

Definition cidr_has (k : cidr) (x : Z) : bool :=
  x / 2 ^ (32 - cidr_len k) =? cidr_base k / 2 ^ (32 - cidr_len k).

Definition cidr_table : list cidr :=
  [ block 0 0 0 0 32 ClassUnspecified;
    block 127 0 0 0 8 ClassLoopback;
    block 10 0 0 0 8 ClassRFC1918;
    block 172 16 0 0 12 ClassRFC1918;
    block 192 168 0 0 16 ClassRFC1918;
    block 100 64 0 0 10 ClassCGNAT;
    block 169 254 0 0 16 ClassLinkLocal;
    block 198 18 0 0 15 ClassBenchmark;
    block 192 0 2 0 24 ClassDocumentation;
    block 198 51 100 0 24 ClassDocumentation;
    block 203 0 113 0 24 ClassDocumentation;
    block 192 0 0 0 24 ClassReserved;
    block 192 31 196 0 24 ClassReserved;
    block 192 52 193 0 24 ClassReserved;
    block 192 88 99 0 24 ClassReserved;
    block 192 175 48 0 24 ClassReserved;
    block 224 0 0 0 4 ClassMulticast;
    block 0 0 0 0 8 ClassReserved;
    block 240 0 0 0 4 ClassReserved ].

Fixpoint cidr_lookup (t : list cidr) (x : Z) : EndpointClass :=
  match t with
  | [] => ClassGlobalUnicast
  | k :: t' => if cidr_has k x then cidr_class k else cidr_lookup t' x
  end.

(** ** Lemmas *)

Lemma oct_range (o : bytes) (i : nat) : 0 ≤ oct o i < 256.
Proof. apply b2z_range. Qed.

Lemma oct_all_zero (o : bytes) :
  length o = 4%nat → bytes_eqb o (repeat Byte.x00 4) = (ip32 o =? 0).
Proof.
  intros Hl. destruct o as [|a [|b [|c [|d [|? ?]]]]]; try discriminate.
  unfold ip32, oct, bytes_eqb. cbn [nth].
  pose proof (b2z_range a). pose proof (b2z_range b).
  pose proof (b2z_range c). pose proof (b2z_range d).
  case_bool_decide as E; symmetry.
  - inversion E; subst. done.
  - apply Z.eqb_neq. intros Hz. apply E.
    assert (b2z a = 0 ∧ b2z b = 0 ∧ b2z c = 0 ∧ b2z d = 0) as (Ha&Hb&Hc&Hd) by lia.
    cbn. repeat f_equal; apply b2z_inj; done.
Qed.

(** A prefix test as a condition on octets. *)
Ltac cidr_octets :=
  intros; apply eq_true_iff_eq; unfold cidr_has, block, ip32; cbn [cidr_base cidr_len];
  rewrite ?andb_true_iff, ?Z.eqb_eq, ?Z.leb_le;
  repeat match goal with
  | |- context [oct ?o ?i] => pose proof (oct_range o i); generalize dependent (oct o i); intros
  end;
  cbn [Z.pow Z.pow_pos Pos.iter Z.sub Z.add Z.opp Z.pos_sub Pos.pred_double Z.mul Pos.mul];
  Z.div_mod_to_equations; lia.

Lemma has_octet (o : bytes) (a : Z) (cl : EndpointClass) :
  cidr_has (block a 0 0 0 8 cl) (ip32 o) = (oct o 0 =? a).
Proof. cidr_octets. Qed.

Lemma has_two (o : bytes) (a b : Z) (cl : EndpointClass) : 0 ≤ b < 256 →
  cidr_has (block a b 0 0 16 cl) (ip32 o) = (oct o 0 =? a) && (oct o 1 =? b).
Proof. cidr_octets. Qed.

Lemma has_three (o : bytes) (a b c : Z) (cl : EndpointClass) : 0 ≤ b < 256 → 0 ≤ c < 256 →
  cidr_has (block a b c 0 24 cl) (ip32 o) = (oct o 0 =? a) && (oct o 1 =? b) && (oct o 2 =? c).
Proof. cidr_octets. Qed.

Lemma has_172_16_12 (o : bytes) (cl : EndpointClass) :
  cidr_has (block 172 16 0 0 12 cl) (ip32 o) = (oct o 0 =? 172) && (16 <=? oct o 1) && (oct o 1 <=? 31).
Proof. cidr_octets. Qed.

Lemma has_100_64_10 (o : bytes) (cl : EndpointClass) :
  cidr_has (block 100 64 0 0 10 cl) (ip32 o) = (oct o 0 =? 100) && (64 <=? oct o 1) && (oct o 1 <=? 127).
Proof. cidr_octets. Qed.

Lemma has_198_18_15 (o : bytes) (cl : EndpointClass) :
  cidr_has (block 198 18 0 0 15 cl) (ip32 o) = (oct o 0 =? 198) && (18 <=? oct o 1) && (oct o 1 <=? 19).
Proof. cidr_octets. Qed.

Lemma has_224_4 (o : bytes) (cl : EndpointClass) :
  cidr_has (block 224 0 0 0 4 cl) (ip32 o) = (224 <=? oct o 0) && (oct o 0 <=? 239).
Proof. cidr_octets. Qed.

Lemma has_240_4 (o : bytes) (cl : EndpointClass) :
  cidr_has (block 240 0 0 0 4 cl) (ip32 o) = (240 <=? oct o 0).
Proof. cidr_octets. Qed.

Lemma has_zero (o : bytes) (cl : EndpointClass) :
  cidr_has (block 0 0 0 0 32 cl) (ip32 o) = (ip32 o =? 0).
Proof.
  unfold cidr_has, block. cbn [cidr_base cidr_len]. rewrite Z.sub_diag, !Z.div_1_r. done.
Qed.

Create Rewrite HintDb cidr.
#[export] Hint Rewrite has_zero has_octet has_172_16_12 has_100_64_10 has_198_18_15
  has_224_4 has_240_4 : cidr.
#[export] Hint Rewrite has_two has_three using lia : cidr.

Lemma ClassifyIP_cidr (o : bytes) : length o = 4%nat →
  ClassifyIP (Addr4 o) = cidr_lookup cidr_table (ip32 o).
Proof.
  intros Hl. unfold ClassifyIP, cidr_table. cbn [Is4In6 IsUnspecified IsLoopback cidr_lookup].
  autorewrite with cidr. rewrite oct_all_zero by done. cbn [cidr_class block]. reflexivity.
Qed.

Lemma global_class (o : bytes) : length o = 4%nat →
  IsGlobalEndpoint (Addr4 o) =
  match cidr_lookup cidr_table (ip32 o) with
  | ClassDocumentation | ClassGlobalUnicast => true
  | _ => false
  end.
Proof. intros Hl. unfold IsGlobalEndpoint. cbn [Is4 negb]. by rewrite ClassifyIP_cidr. Qed.

Lemma ValidatePort_ok (p : Z) : 1 ≤ p ≤ 65535 → ValidatePort p = Ok tt.
Proof.
  intros H. unfold ValidatePort.
  rewrite (proj2 (Z.ltb_ge p 1)), (proj2 (Z.ltb_ge 65535 p)) by lia. done.
Qed.

Lemma ValidatePort_range (p : Z) (u : unit) : ValidatePort p = Ok u → 1 ≤ p ≤ 65535.
Proof. unfold ValidatePort. intros H. go_inv H. bool_prop. lia. Qed.

(** The port conversion [uint16(port)] never truncates a validated port. *)
Lemma ValidateEndpoint_inv (e : string) (o : bytes) (p : Z) :
  ValidateEndpoint e = Ok (o, p) →
  ∃ host portText, host ≠ [] ∧ SplitHostPort (bytes_of e) = Some (host, portText) ∧
    ParseAddr4 host = Some o ∧ IsGlobalEndpoint (Addr4 o) = true ∧
    Atoi portText = Some p ∧ 1 ≤ p ≤ 65535.
Proof.
  unfold ValidateEndpoint. intros H. go_inv H.
  match goal with E : ValidatePort _ = Ok _ |- _ => apply ValidatePort_range in E end.
  bool_prop. rewrite Z.mod_small by lia. naive_solver.
Qed.

Lemma render_endpoint_nonempty (o : bytes) (p : Z) : string_of (render_addrport o p) ≠ EmptyString.
Proof.
  intros H. apply (f_equal bytes_of) in H. rewrite bytes_of_string_of in H.
  unfold render_addrport in H. by destruct (render_ipv4 o).
Qed.

(** ** Properties *)

(** The octet-by-octet classifier of IPv4 addresses computes exactly the
    first-match lookup of the 32-bit address in the table of special-purpose
    CIDR blocks, [ClassGlobalUnicast] when no block matches. *)
Theorem ClassifyIP_table (o : bytes) : length o = 4%nat →
  ClassifyIP (Addr4 o) = cidr_lookup cidr_table (ip32 o).
Proof. apply ClassifyIP_cidr. Qed.

Lemma ClassifyIP_table_witness :
  ClassifyIP (Addr4 (map u8 [100; 64; 0; 1]))
  = cidr_lookup cidr_table (ip32 (map u8 [100; 64; 0; 1])).
Proof. apply (ClassifyIP_table (map u8 [100; 64; 0; 1])). reflexivity. Defined.

(** An accepted endpoint is a four-octet address outside every private,
    shared, loopback, link-local, benchmark, multicast, reserved or
    unspecified block, with a port in 1..65535 that the [uint16] conversion
    leaves unchanged. *)
Theorem ValidateEndpoint_sound (e : string) (o : bytes) (p : Z) :
  ValidateEndpoint e = Ok (o, p) →
  length o = 4%nat ∧ 1 ≤ p ≤ 65535 ∧
  cidr_lookup cidr_table (ip32 o) ∈ [ClassDocumentation; ClassGlobalUnicast].
Proof.
  intros (host&pt&_&_&Hp&Hg&_&Hr)%ValidateEndpoint_inv.
  apply ParseAddr4_length in Hp as Hl. rewrite global_class in Hg by done.
  split_and!; [done|lia|lia|]. by destruct (cidr_lookup _ _); set_solver.
Qed.

Lemma ValidateEndpoint_sound_witness :
  length (map u8 [203; 0; 113; 7]) = 4%nat ∧ 1 ≤ 443 ≤ 65535 ∧
  cidr_lookup cidr_table (ip32 (map u8 [203; 0; 113; 7]))
    ∈ [ClassDocumentation; ClassGlobalUnicast].
Proof. apply (ValidateEndpoint_sound "203.0.113.7:443"). vm_compute. reflexivity. Defined.

(** The canonical text of a global IPv4 address and a port in 1..65535
    validates, and parses back to exactly that address and port. *)
Theorem ValidateEndpoint_render (o : bytes) (p : Z) :
  length o = 4%nat → IsGlobalEndpoint (Addr4 o) = true → 1 ≤ p ≤ 65535 →
  ValidateEndpoint (string_of (render_addrport o p)) = Ok (o, p).
Proof.
  intros Hl Hg Hp. unfold ValidateEndpoint.
  rewrite (proj2 (String.eqb_neq _ _)) by apply render_endpoint_nonempty.
  rewrite bytes_of_string_of, SplitHostPort_render by (done || lia).
  pose proof (proj1 (render_ipv4_no_sep o Hl)).
  pose proof (ParseAddr4_render o Hl) as Hpa.
  destruct (render_ipv4 o) as [|b0 h]; [done|].
  rewrite Hpa, Hg. cbn [negb]. rewrite Atoi_Itoa by lia.
  rewrite ValidatePort_ok by done. rewrite Z.mod_small by lia. done.
Qed.

Lemma ValidateEndpoint_render_witness :
  ValidateEndpoint (string_of (render_addrport (map u8 [8; 8; 4; 4]) 53))
  = Ok (map u8 [8; 8; 4; 4], 53).
Proof. apply ValidateEndpoint_render; [reflexivity|vm_compute; reflexivity|lia]. Defined.
