(* ===== verification/Domain.v ===== *)
(** * Domain model and frozen validators ([src/internal/protocol/domain.go])

    Desired Forward records, the orthogonal activation axes and their truth
    relations, the durable control FSMs and the result enums.  Go string
    enums stay strings, so the validators see every value the wire can
    carry. *)

From Stdlib Require Import ZArith Lia Strings.Byte.
From stdpp Require Import base tactics list gmap sets strings option relations.
From S2P Require Import Prelude GoStd Endpoint.

Open Scope string_scope.
Open Scope Z_scope.

(** ** Errors *)

Inductive DomainError : Type :=
  | EForwardIDEmpty | EUnknownProtocol (p : string) | ETargetNotHostPort
  | ETargetNotIPv4 | ETargetPortNotInteger | ETargetPort (e : EndpointError)
  | EUnknownStrategy (s : string) | EUnknownPublishScheme (s : string)
  | EUnknownPresence (s : string) | EAbsentWithoutOperation | EPresentWithOperation
  | ENodeIDEmpty | EForward (id : string) (e : DomainError) | EDuplicateForward (id : string)
  | EActivationIDEmpty
  | ESnapshotAxes (n : nat) | EAxisMissing (axis : string) | EAxisIllegal (axis value : string)
  | EVerifiedNeedsOpen | EVerifiedNeedsReturnPath | EUnverifiedClaimsOpen
  | EFirstHopVerified | EVerifiedOnFirstHop
  | EPublishedWithoutEndpoint | ECandidateNotEndpoint | ECandidateNotIPv4 | ECandidateNotGlobal
  | ERevisionOrder | EBindTuple | EAppliedAt
  | EUnknownFSM (fsm : string) | ENoState (fsm state : string) | EIllegalTransition (fsm from to : string)
  | EUnknownOutcome (s : string) | EUnknownCapability (s : string).

(** Membership in a frozen list of names (the Go [map[string]bool] sets and
    the linear scans over a list). *)
Definition mem (x : string) (l : list string) : bool := existsb (String.eqb x) l.
Arguments mem : simpl never.

(** ** Enums *)

Definition Protocol_Valid (p : string) : bool := String.eqb p "tcp" || String.eqb p "udp".

Definition ValidStrategies : list string :=
  ["direct-v4"; "manual-static-v4"; "explicit-gateway"; "stun-only"; "auto"].

Definition Strategy_Valid (s : string) : bool := mem s ValidStrategies.

Definition ParseStrategy (s : string) : result DomainError string :=
  fail_if negb (Strategy_Valid s) with EUnknownStrategy s ;; Ok s.

Definition PresencePresent : string := "PRESENT".
Definition PresenceAbsent : string := "ABSENT".

Definition Presence_Valid (p : string) : bool :=
  String.eqb p PresencePresent || String.eqb p PresenceAbsent.

(** ** Desired Forwards *)

Record ForwardSpec : Type := mkForwardSpec {
  fs_ForwardID : string;
  fs_Name : string;
  fs_Protocol : string;
  fs_Target : string;
  fs_Strategy : string;
  fs_SourceInterface : string;
  fs_RequestedLocalPort : Z;
  fs_RequestedPublicPort : Z;
  fs_ManualExpectedEndpoint : string;
  fs_RateLimitBPS : Z;
  fs_DetailedStats : bool;
  fs_PublishScheme : string;
  fs_PublishedHost : string;
  fs_CustomURITemplate : string;
  fs_DesiredRevision : Z;
  fs_Presence : string;
  fs_DeletionOperationID : string
}.

#[export] Instance ForwardSpec_eq_dec : EqDecision ForwardSpec.
Proof. solve_decision. Defined.

Definition validateIPv4Target (target : string) : result DomainError unit :=
  match SplitHostPort (bytes_of target) with
  | None | Some ([], _) => Err ETargetNotHostPort
  | Some (host, portText) =>
      match ParseAddr4 host with
      | None => Err ETargetNotIPv4
      | Some _ =>
          match Atoi portText with
          | None => Err ETargetPortNotInteger
          | Some port => map_err ETargetPort (ValidatePort port)
          end
      end
  end.

Definition ForwardSpec_Validate (s : ForwardSpec) : result DomainError unit :=
  fail_if String.eqb (fs_ForwardID s) "" with EForwardIDEmpty ;;
  fail_if negb (Protocol_Valid (fs_Protocol s)) with EUnknownProtocol (fs_Protocol s) ;;
  let* _ := validateIPv4Target (fs_Target s) in
  fail_if negb (Strategy_Valid (fs_Strategy s)) with EUnknownStrategy (fs_Strategy s) ;;
  fail_if negb (String.eqb (fs_PublishScheme s) "") && negb (String.eqb (fs_PublishScheme s) "http")
          && negb (String.eqb (fs_PublishScheme s) "https")
    with EUnknownPublishScheme (fs_PublishScheme s) ;;
  fail_if negb (Presence_Valid (fs_Presence s)) with EUnknownPresence (fs_Presence s) ;;
  if String.eqb (fs_Presence s) PresenceAbsent then
    fail_if String.eqb (fs_DeletionOperationID s) "" with EAbsentWithoutOperation ;; Ok tt
  else if String.eqb (fs_Presence s) PresencePresent then
    fail_if negb (String.eqb (fs_DeletionOperationID s) "") with EPresentWithOperation ;; Ok tt
  else Ok tt.

Record DesiredState : Type := mkDesiredState {
  ds_NodeID : string;
  ds_Forwards : list ForwardSpec
}.

#[export] Instance DesiredState_eq_dec : EqDecision DesiredState.
Proof. solve_decision. Defined.

(** The validation loop; [seen] are the forward ids already met. *)
Fixpoint validate_forwards (seen : list string) (l : list ForwardSpec) : result DomainError unit :=
  match l with
  | [] => Ok tt
  | f :: l' =>
      let* _ := map_err (EForward (fs_ForwardID f)) (ForwardSpec_Validate f) in
      fail_if mem (fs_ForwardID f) seen with EDuplicateForward (fs_ForwardID f) ;;
      validate_forwards (fs_ForwardID f :: seen) l'
  end.

Definition DesiredState_Validate (d : DesiredState) : result DomainError unit :=
  fail_if String.eqb (ds_NodeID d) "" with ENodeIDEmpty ;;
  validate_forwards [] (ds_Forwards d).

Record ForwardActivation : Type := mkForwardActivation {
  fa_ActivationID : string;
  fa_Generation : Z;
  fa_SpecRevision : Z;
  fa_ForwardID : string
}.

Definition ForwardActivation_Validate (a : ForwardActivation) : result DomainError unit :=
  fail_if String.eqb (fa_ActivationID a) "" with EActivationIDEmpty ;;
  fail_if String.eqb (fa_ForwardID a) "" with EForwardIDEmpty ;; Ok tt.

(** ** Orthogonal activation axes *)

Record stateAxis : Type := axis { axis_name : string; axis_states : list string }.

Definition activationAxes : list stateAxis :=
  [ axis "control_state" ["ONLINE"; "OFFLINE"];
    axis "listener_state" ["STOPPED"; "STARTING"; "READY"; "ERROR"];
    axis "mapping_state" ["NOT_REQUIRED"; "ACQUIRING"; "FIRST_HOP_MAPPED"; "PUBLIC_CANDIDATE"; "LOST"; "ERROR"];
    axis "keepalive_state" ["NOT_REQUIRED"; "HEALTHY"; "DEGRADED"; "LOST"];
    axis "wan_reachability_state" ["NOT_TESTED"; "PROBING"; "OPEN_FROM_VANTAGE"; "REJECTED"; "TIMEOUT";
      "NO_INDEPENDENT_VANTAGE"; "PROBE_INFRA_UNAVAILABLE"; "UNKNOWN"];
    axis "return_path_state" ["NOT_TESTED"; "VERIFIED"; "FAILED"; "UNKNOWN"];
    axis "target_health_state" ["PASS"; "FAIL"; "SKIPPED"; "UNSUPPORTED"; "UNKNOWN"];
    axis "publication_state" ["NONE"; "PUBLISHED_VERIFIED"; "PUBLISHED_UNVERIFIED"; "STALE"; "UNPUBLISHED"];
    axis "data_plane_state" ["STOPPED"; "READY"; "DEGRADED"; "ERROR"] ].

Definition ValidAxisValue (axisName value : string) : bool :=
  match List.find (λ a, String.eqb (axis_name a) axisName) activationAxes with
  | Some a => mem value (axis_states a)
  | None => false
  end.

Fixpoint snapshot_axes (l : list stateAxis) (s : gmap string string) : result DomainError unit :=
  match l with
  | [] => Ok tt
  | a :: l' =>
      match s !! axis_name a with
      | None => Err (EAxisMissing (axis_name a))
      | Some v =>
          fail_if negb (mem v (axis_states a)) with EAxisIllegal (axis_name a) v ;;
          snapshot_axes l' s
      end
  end.

Definition ValidActivationSnapshot (s : gmap string string) : result DomainError unit :=
  fail_if negb (bool_decide (size s = length activationAxes)) with ESnapshotAxes (size s) ;;
  snapshot_axes activationAxes s.

Record ActivationStates : Type := mkActivationStates {
  as_ControlState : string;
  as_ListenerState : string;
  as_MappingState : string;
  as_KeepaliveState : string;
  as_WanReachabilityState : string;
  as_ReturnPathState : string;
  as_TargetHealthState : string;
  as_PublicationState : string;
  as_DataPlaneState : string
}.

#[export] Instance ActivationStates_eq_dec : EqDecision ActivationStates.
Proof. solve_decision. Defined.

Definition ValidatePublication (pubState wanReach returnPath : string) : result DomainError unit :=
  if String.eqb pubState "PUBLISHED_VERIFIED" then
    fail_if negb (String.eqb wanReach "OPEN_FROM_VANTAGE") with EVerifiedNeedsOpen ;;
    fail_if negb (String.eqb returnPath "VERIFIED") with EVerifiedNeedsReturnPath ;; Ok tt
  else if String.eqb pubState "PUBLISHED_UNVERIFIED" then
    fail_if String.eqb wanReach "OPEN_FROM_VANTAGE" with EUnverifiedClaimsOpen ;; Ok tt
  else Ok tt.

Definition ValidateAxisRelations (mappingState wanReach returnPath pubState : string)
    : result DomainError unit :=
  fail_if String.eqb mappingState "FIRST_HOP_MAPPED" && String.eqb returnPath "VERIFIED"
    with EFirstHopVerified ;;
  let* _ := ValidatePublication pubState wanReach returnPath in
  fail_if String.eqb pubState "PUBLISHED_VERIFIED" && String.eqb mappingState "FIRST_HOP_MAPPED"
    with EVerifiedOnFirstHop ;;
  Ok tt.

Definition snapshot_of (s : ActivationStates) : gmap string string :=
  list_to_map
    [ ("control_state", as_ControlState s);
      ("listener_state", as_ListenerState s);
      ("mapping_state", as_MappingState s);
      ("keepalive_state", as_KeepaliveState s);
      ("wan_reachability_state", as_WanReachabilityState s);
      ("return_path_state", as_ReturnPathState s);
      ("target_health_state", as_TargetHealthState s);
      ("publication_state", as_PublicationState s);
      ("data_plane_state", as_DataPlaneState s) ].

Definition ActivationStates_Validate (s : ActivationStates) : result DomainError unit :=
  let* _ := ValidActivationSnapshot (snapshot_of s) in
  ValidateAxisRelations (as_MappingState s) (as_WanReachabilityState s)
    (as_ReturnPathState s) (as_PublicationState s).

Definition ValidatePublicationCandidate (pubState candidate : string) : result DomainError unit :=
  if negb (String.eqb pubState "PUBLISHED_VERIFIED") && negb (String.eqb pubState "PUBLISHED_UNVERIFIED")
  then Ok tt
  else
    fail_if String.eqb candidate "" with EPublishedWithoutEndpoint ;;
    match SplitHostPort (bytes_of candidate) with
    | None => Err ECandidateNotEndpoint
    | Some (host, _) =>
        match ParseAddr4 host with
        | None => Err ECandidateNotIPv4
        | Some ip =>
            fail_if negb (IsGlobalEndpoint (Addr4 ip)) with ECandidateNotGlobal ;; Ok tt
        end
    end.

(** ** Applied Forward state *)

Record AppliedForwardState : Type := mkAppliedForwardState {
  af_ForwardID : string;
  af_SpecRevision : Z;
  af_DesiredRevision : Z;
  af_ActualBindHost : string;
  af_ActualBindPort : Z;
  af_AssignedGatewayPort : Z;
  af_PublicPort : Z;
  af_Strategy : string;
  af_LayerVersion : Z;
  af_ActivationRecovery : string;
  af_MappingJournalRef : string;
  af_HookDefinitionVersion : Z;
  af_HookSecretVersion : Z;
  af_AppliedAtUnix : Z
}.

#[export] Instance AppliedForwardState_eq_dec : EqDecision AppliedForwardState.
Proof. solve_decision. Defined.

Definition validStrategies : list string :=
  ["direct-v4"; "manual-static-v4"; "explicit-gateway"; "stun-only"; "auto"].

Definition AppliedForwardState_Validate (a : AppliedForwardState) : result DomainError unit :=
  fail_if String.eqb (af_ForwardID a) "" with EForwardIDEmpty ;;
  fail_if af_DesiredRevision a <? af_SpecRevision a with ERevisionOrder ;;
  fail_if String.eqb (af_ActualBindHost a) "" || (af_ActualBindPort a =? 0) with EBindTuple ;;
  fail_if negb (mem (af_Strategy a) validStrategies) with EUnknownStrategy (af_Strategy a) ;;
  fail_if af_AppliedAtUnix a <=? 0 with EAppliedAt ;;
  Ok tt.

(** ** Durable control FSMs *)

Definition transitionTable := list (string * string).

Definition frozenFSMs : list (string * transitionTable) :=
  [ ("outbox",
      [("PENDING", "CLAIMED"); ("CLAIMED", "SENT"); ("SENT", "SEMANTIC_ACKED");
       ("SEMANTIC_ACKED", "RECEIPTED"); ("RECEIPTED", "GC")]);
    ("inbox",
      [("RECEIVED", "INTENT_PERSISTED"); ("INTENT_PERSISTED", "APPLYING");
       ("APPLYING", "APPLIED"); ("APPLYING", "NACKED")]);
    ("key_rotation",
      [("PREPARED", "ANNOUNCED"); ("ANNOUNCED", "ACKED"); ("ACKED", "ACTIVE"); ("ACTIVE", "RETIRED")]);
    ("decommission",
      [("ACTIVE", "DECOMMISSIONING"); ("DECOMMISSIONING", "DECOMMISSIONED");
       ("DECOMMISSIONED", "CLEANUP_ONLY")]);
    ("restore",
      [("RESTORED", "RECOVERY_QUARANTINE"); ("RECOVERY_QUARANTINE", "RECONCILING");
       ("RECONCILING", "AUTHORIZED")]) ].

Definition frozenFSMStates : list (string * list string) :=
  [ ("outbox", ["PENDING"; "CLAIMED"; "SENT"; "SEMANTIC_ACKED"; "RECEIPTED"; "GC"]);
    ("inbox", ["RECEIVED"; "INTENT_PERSISTED"; "APPLYING"; "APPLIED"; "NACKED"]);
    ("key_rotation", ["PREPARED"; "ANNOUNCED"; "ACKED"; "ACTIVE"; "RETIRED"]);
    ("decommission", ["ACTIVE"; "DECOMMISSIONING"; "DECOMMISSIONED"; "CLEANUP_ONLY"]);
    ("restore", ["RESTORED"; "RECOVERY_QUARANTINE"; "RECONCILING"; "AUTHORIZED"]) ].

Definition FSMNames : list string := ["outbox"; "inbox"; "key_rotation"; "decommission"; "restore"].

(** Lookup in a Go map literal; a missing key gives [None]. *)
Definition assoc {A} (k : string) (l : list (string * A)) : option A :=
  snd <$> List.find (λ p, String.eqb (fst p) k) l.

Definition ValidFSMState (fsm state : string) : bool :=
  match assoc fsm frozenFSMStates with Some l => mem state l | None => false end.

Definition has_transition (t : transitionTable) (from to : string) : bool :=
  existsb (λ p, String.eqb (fst p) from && String.eqb (snd p) to) t.

Definition ValidateFSMTransition (fsm from to : string) : result DomainError unit :=
  match assoc fsm frozenFSMs with
  | None => Err (EUnknownFSM fsm)
  | Some table =>
      fail_if negb (ValidFSMState fsm from) with ENoState fsm from ;;
      fail_if negb (ValidFSMState fsm to) with ENoState fsm to ;;
      fail_if negb (has_transition table from to) with EIllegalTransition fsm from to ;;
      Ok tt
  end.

(** ** Result enums *)

Definition OperationKinds : list string :=
  ["forward_deletion"; "node_deletion"; "node_decommission"; "force_cutover"; "retry"; "detection"].

Definition OperationKind_Valid (k : string) : bool := mem k OperationKinds.

Definition OutcomeOpenFromVantage : string := "OPEN_FROM_VANTAGE".

Definition probeOutcomes : list string :=
  ["ARMED"; "ACCEPTED"; "REJECTED"; "DROPPED"; OutcomeOpenFromVantage; "TIMEOUT";
   "NO_INDEPENDENT_VANTAGE"; "PROBE_INFRA_UNAVAILABLE"; "UNKNOWN"].

Definition ParseProbeOutcome (s : string) : result DomainError string :=
  fail_if negb (mem s probeOutcomes) with EUnknownOutcome s ;; Ok s.

Definition MayDriveVerifiedPublication (o : string) : bool := String.eqb o OutcomeOpenFromVantage.

Definition capabilityResults : list string := ["PASS"; "SUPPORTED_WITH_LIMITS"; "NO_GO"; "UNKNOWN"].

Definition ParseCapabilityResult (s : string) : result DomainError string :=
  fail_if negb (mem s capabilityResults) with EUnknownCapability s ;; Ok s.

(** ** Lemmas: frozen lists *)

Lemma mem_true (x : string) (l : list string) : mem x l = true ↔ x ∈ l.
Proof.
  unfold mem. rewrite existsb_exists, list_elem_of_In. split.
  - intros (y&Hy&->%String.eqb_eq). done.
  - intros H. exists x. split; [done|apply String.eqb_refl].
Qed.

Lemma mem_false (x : string) (l : list string) : mem x l = false ↔ x ∉ l.
Proof. rewrite <- not_true_iff_false. by rewrite mem_true. Qed.

(** ** Lemmas: desired state *)

(** The wire-level facts of a valid Forward record. *)
Record spec_valid (s : ForwardSpec) : Prop := {
  sv_id : fs_ForwardID s ≠ "";
  sv_protocol : fs_Protocol s ∈ ["tcp"; "udp"];
  sv_target : validateIPv4Target (fs_Target s) = Ok tt;
  sv_strategy : fs_Strategy s ∈ ValidStrategies;
  sv_scheme : fs_PublishScheme s ∈ [""; "http"; "https"];
  sv_presence :
    (fs_Presence s = PresencePresent ∧ fs_DeletionOperationID s = "") ∨
    (fs_Presence s = PresenceAbsent ∧ fs_DeletionOperationID s ≠ "")
}.

Lemma ForwardSpec_Validate_iff (s : ForwardSpec) :
  ForwardSpec_Validate s = Ok tt ↔ spec_valid s.
Proof.
  unfold ForwardSpec_Validate, Protocol_Valid, Strategy_Valid, Presence_Valid. split.
  - intros H. go_inv H; bool_prop;
      repeat match goal with
      | H : _ || _ = true |- _ => apply orb_true_iff in H as [H|H]
      | H : _ && _ = false |- _ => apply andb_false_iff in H as [H|H]
      | H : mem _ _ = true |- _ => apply mem_true in H
      | a : unit |- _ => destruct a
      end; bool_prop; constructor; try done; rewrite ?elem_of_cons; try (by eauto 10);
      try congruence.
  - intros [Hid Hp Ht Hs Hsch Hpr].
    rewrite (proj2 (String.eqb_neq _ _) Hid), Ht, (proj2 (mem_true _ _) Hs).
    assert (Hpv : (fs_Protocol s =? "tcp")%string || (fs_Protocol s =? "udp")%string = true).
    { rewrite orb_true_iff, !String.eqb_eq. set_solver. }
    rewrite Hpv. cbn [negb].
    assert (Hsv : negb (fs_PublishScheme s =? "")%string && negb (fs_PublishScheme s =? "http")%string
                  && negb (fs_PublishScheme s =? "https")%string = false).
    { repeat (apply elem_of_cons in Hsch as [->|Hsch]; [done|]). by apply elem_of_nil in Hsch. }
    rewrite Hsv. destruct Hpr as [[-> ->]|[-> Hd]]; [done|].
    cbn. by rewrite (proj2 (String.eqb_neq _ _) Hd).
Qed.

Lemma validate_forwards_iff (l : list ForwardSpec) : ∀ seen,
  validate_forwards seen l = Ok tt ↔
  Forall spec_valid l ∧ NoDup (fs_ForwardID <$> l) ∧ ∀ f, f ∈ l → fs_ForwardID f ∉ seen.
Proof.
  induction l as [|f l IH]; intros seen; cbn [validate_forwards].
  { split; [|done]. intros _. split_and!; [constructor|constructor|set_solver]. }
  rewrite Forall_cons, fmap_cons, NoDup_cons.
  destruct (ForwardSpec_Validate f) as [[]|e] eqn:Ev; cbn [map_err].
  2:{ split; [done|]. intros ([Hv _]&_). apply ForwardSpec_Validate_iff in Hv. congruence. }
  apply ForwardSpec_Validate_iff in Ev.
  destruct (mem (fs_ForwardID f) seen) eqn:Em.
  { apply mem_true in Em. split; [done|]. intros (_&_&Hn). exfalso. apply (Hn f); set_solver. }
  apply mem_false in Em. rewrite IH. split.
  - intros (Hf&Hnd&Hn). split_and!; try done.
    + rewrite list_elem_of_fmap. intros (g&Hg&Hin). apply (Hn g) in Hin. set_solver.
    + intros g [->|Hg]%elem_of_cons; [done|]. apply Hn in Hg. set_solver.
  - intros ([_ Hf]&[Hni Hnd]&Hn). split_and!; try done.
    intros g Hg [Heq|Hs]%elem_of_cons.
    + apply Hni. rewrite list_elem_of_fmap. by exists g.
    + apply (Hn g); set_solver.
Qed.

(** ** Lemmas: activation snapshots *)

Lemma snapshot_axes_iff (l : list stateAxis) (s : gmap string string) :
  snapshot_axes l s = Ok tt ↔
  ∀ a, a ∈ l → ∃ v, s !! axis_name a = Some v ∧ v ∈ axis_states a.
Proof.
  induction l as [|a l IH]; cbn [snapshot_axes]; [set_solver|].
  destruct (s !! axis_name a) as [v|] eqn:Es.
  - destruct (mem v (axis_states a)) eqn:Em; cbn [negb].
    + apply mem_true in Em. rewrite IH. setoid_rewrite elem_of_cons. naive_solver.
    + apply mem_false in Em. split; [done|]. intros H.
      destruct (H a) as (w&Hw&Hin); [set_solver|]. congruence.
  - split; [done|]. intros H. destruct (H a) as (w&Hw&_); [set_solver|]. congruence.
Qed.

Definition axis_names : gset string := list_to_set (axis_name <$> activationAxes).

Lemma size_axis_names : size axis_names = length activationAxes.
Proof. vm_compute. reflexivity. Qed.

Lemma elem_of_axis_names (n : string) :
  n ∈ axis_names ↔ ∃ a, a ∈ activationAxes ∧ n = axis_name a.
Proof. unfold axis_names. rewrite elem_of_list_to_set, list_elem_of_fmap. naive_solver. Qed.

(** Every axis holds a legal value. *)
Definition axes_legal (s : ActivationStates) : Prop :=
  ValidAxisValue "control_state" (as_ControlState s) = true ∧
  ValidAxisValue "listener_state" (as_ListenerState s) = true ∧
  ValidAxisValue "mapping_state" (as_MappingState s) = true ∧
  ValidAxisValue "keepalive_state" (as_KeepaliveState s) = true ∧
  ValidAxisValue "wan_reachability_state" (as_WanReachabilityState s) = true ∧
  ValidAxisValue "return_path_state" (as_ReturnPathState s) = true ∧
  ValidAxisValue "target_health_state" (as_TargetHealthState s) = true ∧
  ValidAxisValue "publication_state" (as_PublicationState s) = true ∧
  ValidAxisValue "data_plane_state" (as_DataPlaneState s) = true.

(** The cross-axis truth relations: what a publication state may claim. *)
Definition truth_relations (s : ActivationStates) : Prop :=
  (as_MappingState s = "FIRST_HOP_MAPPED" → as_ReturnPathState s ≠ "VERIFIED") ∧
  (as_PublicationState s = "PUBLISHED_VERIFIED" →
     as_WanReachabilityState s = "OPEN_FROM_VANTAGE" ∧ as_ReturnPathState s = "VERIFIED" ∧
     as_MappingState s ≠ "FIRST_HOP_MAPPED") ∧
  (as_PublicationState s = "PUBLISHED_UNVERIFIED" →
     as_WanReachabilityState s ≠ "OPEN_FROM_VANTAGE").

Lemma lookup_legal (o : option string) (x : string) (l : list string) :
  o = Some x → (∃ v, o = Some v ∧ v ∈ l) ↔ mem x l = true.
Proof. intros ->. rewrite mem_true. naive_solver. Qed.

Lemma snapshot_lookup (s : ActivationStates) :
  (∀ a, a ∈ activationAxes → ∃ v, snapshot_of s !! axis_name a = Some v ∧ v ∈ axis_states a) ↔
  axes_legal s.
Proof.
  rewrite <- list.Forall_forall. unfold activationAxes at 1.
  rewrite !Forall_cons, Forall_nil. cbn [axis_name axis_states].
  rewrite (lookup_legal (snapshot_of s !! "control_state") (as_ControlState s)) by reflexivity.
  rewrite (lookup_legal (snapshot_of s !! "listener_state") (as_ListenerState s)) by reflexivity.
  rewrite (lookup_legal (snapshot_of s !! "mapping_state") (as_MappingState s)) by reflexivity.
  rewrite (lookup_legal (snapshot_of s !! "keepalive_state") (as_KeepaliveState s)) by reflexivity.
  rewrite (lookup_legal (snapshot_of s !! "wan_reachability_state") (as_WanReachabilityState s)) by reflexivity.
  rewrite (lookup_legal (snapshot_of s !! "return_path_state") (as_ReturnPathState s)) by reflexivity.
  rewrite (lookup_legal (snapshot_of s !! "target_health_state") (as_TargetHealthState s)) by reflexivity.
  rewrite (lookup_legal (snapshot_of s !! "publication_state") (as_PublicationState s)) by reflexivity.
  rewrite (lookup_legal (snapshot_of s !! "data_plane_state") (as_DataPlaneState s)) by reflexivity.
  unfold axes_legal, ValidAxisValue. cbn. tauto.
Qed.

Lemma snapshot_size (s : ActivationStates) : size (snapshot_of s) = length activationAxes.
Proof. vm_compute. reflexivity. Qed.

Lemma axis_relations_iff (s : ActivationStates) :
  ValidateAxisRelations (as_MappingState s) (as_WanReachabilityState s)
    (as_ReturnPathState s) (as_PublicationState s) = Ok tt ↔ truth_relations s.
Proof.
  unfold ValidateAxisRelations, ValidatePublication, truth_relations.
  destruct (String.eqb_spec (as_MappingState s) "FIRST_HOP_MAPPED") as [->|?];
  destruct (String.eqb_spec (as_ReturnPathState s) "VERIFIED") as [->|?];
  destruct (String.eqb_spec (as_WanReachabilityState s) "OPEN_FROM_VANTAGE") as [->|?];
  destruct (String.eqb_spec (as_PublicationState s) "PUBLISHED_VERIFIED") as [->|?];
  cbn; try (destruct (String.eqb_spec (as_PublicationState s) "PUBLISHED_UNVERIFIED") as [->|?]);
  cbn; split; naive_solver.
Qed.

Lemma ActivationStates_valid_iff (s : ActivationStates) :
  ActivationStates_Validate s = Ok tt ↔ axes_legal s ∧ truth_relations s.
Proof.
  unfold ActivationStates_Validate, ValidActivationSnapshot.
  rewrite bool_decide_eq_true_2 by apply snapshot_size. cbn [negb].
  rewrite <- axis_relations_iff, <- snapshot_lookup, <- snapshot_axes_iff.
  destruct (snapshot_axes activationAxes (snapshot_of s)) as [[]|]; naive_solver.
Qed.

(** ** Lemmas: FSMs *)

Definition all_transitions : list (string * (string * string)) :=
  frozenFSMs ≫= λ p, pair (fst p) <$> snd p.

Lemma assoc_elem {A} (k : string) (l : list (string * A)) (v : A) :
  assoc k l = Some v → (k, v) ∈ l.
Proof.
  unfold assoc. destruct (List.find _ l) as [[k' v']|] eqn:E; [|done]. cbn. intros ?; simplify_eq.
  apply List.find_some in E as [Hin He]. cbn in He. apply String.eqb_eq in He as ->.
  by apply list_elem_of_In.
Qed.

Lemma has_transition_elem (t : transitionTable) (a b : string) :
  has_transition t a b = true → (a, b) ∈ t.
Proof.
  unfold has_transition. rewrite existsb_exists. intros ([x y]&Hin&He). cbn in He. bool_prop. subst.
  by apply list_elem_of_In.
Qed.

(** The frozen tables as one step relation per FSM. *)
Definition fsm_step (fsm a b : string) : Prop := ValidateFSMTransition fsm a b = Ok tt.

Lemma fsm_step_elem (fsm a b : string) : fsm_step fsm a b → (fsm, (a, b)) ∈ all_transitions.
Proof.
  unfold fsm_step, ValidateFSMTransition. intros H. go_inv H. bool_prop.
  match goal with E : assoc fsm frozenFSMs = Some _ |- _ => apply assoc_elem in E as Ht end.
  match goal with E : has_transition _ _ _ = true |- _ => apply has_transition_elem in E as Hin end.
  unfold all_transitions. rewrite list_elem_of_bind. eexists (fsm, _).
  split; [|exact Ht]. by apply list_elem_of_fmap_2.
Qed.

(** The number of steps from the initial state. *)
Definition fsm_rank (fsm s : string) : nat :=
  if String.eqb s "NACKED" then 3%nat
  else match assoc fsm frozenFSMStates with
  | Some l => match list_find (eq s) l with Some (i, _) => i | None => O end
  | None => O
  end.

Definition fsm_rank_ok (p : string * (string * string)) : bool :=
  let '(f, (a, b)) := p in
  bool_decide (fsm_rank f b = S (fsm_rank f a)) && bool_decide (fsm_rank f b ≤ 5)%nat.

Lemma fsm_step_rank (fsm a b : string) :
  fsm_step fsm a b → fsm_rank fsm b = S (fsm_rank fsm a) ∧ (fsm_rank fsm b ≤ 5)%nat.
Proof.
  intros H%fsm_step_elem.
  assert (Hall : forallb fsm_rank_ok all_transitions = true) by (vm_compute; reflexivity).
  rewrite forallb_forall in Hall. apply list_elem_of_In, Hall in H.
  unfold fsm_rank_ok in H. bool_prop. done.
Qed.

Definition pred_unique (p q : string * (string * string)) : bool :=
  let '(f, (a, c)) := p in let '(g, (b, d)) := q in
  implb (String.eqb f g && String.eqb c d) (String.eqb a b).

Lemma fsm_step_pred (fsm a b c : string) : fsm_step fsm a c → fsm_step fsm b c → a = b.
Proof.
  intros Ha%fsm_step_elem Hb%fsm_step_elem.
  assert (Hall : forallb (λ p, forallb (pred_unique p) all_transitions) all_transitions = true)
    by (vm_compute; reflexivity).
  rewrite forallb_forall in Hall. apply list_elem_of_In, Hall in Ha.
  rewrite forallb_forall in Ha. apply list_elem_of_In, Ha in Hb.
  unfold pred_unique in Hb. rewrite !String.eqb_refl in Hb. cbn in Hb. by apply String.eqb_eq.
Qed.

Lemma fsm_steps_rank (fsm a b : string) (n : nat) :
  nsteps (fsm_step fsm) n a b → fsm_rank fsm b = (fsm_rank fsm a + n)%nat.
Proof.
  induction 1 as [x|n x y z Hs _ IH]; [lia|]. apply fsm_step_rank in Hs as [Hr _]. lia.
Qed.

Lemma fsm_rank_bound (fsm a b : string) (n : nat) :
  nsteps (fsm_step fsm) (S n) a b → (fsm_rank fsm b ≤ 5)%nat.
Proof.
  intros (y&_&Hs)%nsteps_inv_r. by apply fsm_step_rank in Hs as [_ ?].
Qed.

(** ** Properties *)

(** A desired snapshot validates exactly when it names a node, every
    Forward record is well formed (known protocol, strategy and scheme,
    IPv4:port target, a deletion operation exactly when ABSENT) and no
    forward id occurs twice. *)
Theorem DesiredState_Validate_iff (d : DesiredState) :
  DesiredState_Validate d = Ok tt ↔
  ds_NodeID d ≠ "" ∧ Forall spec_valid (ds_Forwards d) ∧ NoDup (fs_ForwardID <$> ds_Forwards d).
Proof.
  unfold DesiredState_Validate. destruct (String.eqb_spec (ds_NodeID d) "") as [->|Hn].
  - naive_solver.
  - rewrite validate_forwards_iff. set_solver.
Qed.

(** A typed activation snapshot validates exactly when every axis holds
    one of its frozen values and the truth relations hold: a verified
    publication rests on OPEN_FROM_VANTAGE with a verified return path and
    not on a first-hop mapping, an unverified one never claims
    OPEN_FROM_VANTAGE. *)
Theorem ActivationStates_Validate_iff (s : ActivationStates) :
  ActivationStates_Validate s = Ok tt ↔ axes_legal s ∧ truth_relations s.
Proof. apply ActivationStates_valid_iff. Qed.

(** An untyped snapshot map validates exactly when its keys are the nine
    axes, no more and no fewer, each with a legal value. *)
Theorem ValidActivationSnapshot_iff (m : gmap string string) :
  ValidActivationSnapshot m = Ok tt ↔
  dom m = axis_names ∧
  ∀ a, a ∈ activationAxes → ∃ v, m !! axis_name a = Some v ∧ v ∈ axis_states a.
Proof.
  unfold ValidActivationSnapshot. split.
  - case_bool_decide as Hsz; cbn [negb]; [|done]. rewrite snapshot_axes_iff. intros H. split; [|done].
    assert (Hsub : axis_names ⊆ dom m).
    { intros n (a&Ha&->)%elem_of_axis_names. apply H in Ha as (v&Hv&_). by apply elem_of_dom. }
    symmetry. apply set_subseteq_size_eq; [done|]. rewrite size_dom, size_axis_names. lia.
  - intros [Hd Ha]. rewrite bool_decide_eq_true_2 by (by rewrite <- size_dom, Hd, size_axis_names).
    by apply snapshot_axes_iff.
Qed.

(** In each frozen control FSM a state has exactly one possible
    predecessor, no trace returns to a state it left, and every trace stops
    after at most five steps. *)
Theorem fsm_exact_predecessor_and_progress (fsm : string) :
  (∀ a b c, fsm_step fsm a c → fsm_step fsm b c → a = b) ∧
  (∀ n a b, nsteps (fsm_step fsm) (S n) a b → a ≠ b ∧ (S n ≤ 5)%nat).
Proof.
  split; [intros a b c; apply fsm_step_pred|]. intros n a b H.
  pose proof (fsm_steps_rank _ _ _ _ H) as Hr. pose proof (fsm_rank_bound _ _ _ _ H) as Hb.
  split; [intros ->|]; lia.
Qed.
