(* ===== verification/Frame.v ===== *)
(** * Signing primitives and length-prefixed fields

    [src/internal/security/framecrypto/framecrypto.go] over an interface of
    the Go [crypto/ed25519] and [crypto/sha256] packages, and the
    length-prefixed field codec that the control envelope and the enrollment
    transcript share. *)

From Stdlib Require Import ZArith Lia Strings.Byte.
From stdpp Require Import base tactics list sets strings option.
From S2P Require Import Prelude.

(** ** The crypto packages

    [Crypto] lists the functions the sources call, [CryptoLaws] the documented
    facts they rely on: sizes, and that a signature made with a private key
    verifies under its public key. *)

Class Crypto := {
  sha256 : bytes → bytes;
  ed25519_sign : bytes → bytes → bytes;
  ed25519_verify : bytes → bytes → bytes → bool;
  ed25519_public : bytes → bytes
}.

Class CryptoLaws `{Crypto} : Prop := {
  sha256_length m : length (sha256 m) = 32%nat;
  sign_length k m : length k = 64%nat → length (ed25519_sign k m) = 64%nat;
  public_length k : length k = 64%nat → length (ed25519_public k) = 32%nat;
  verify_sign k m : length k = 64%nat → ed25519_verify (ed25519_public k) m (ed25519_sign k m) = true
}.

Definition PublicKeySize : nat := 32.
Definition PrivateKeySize : nat := 64.
Definition SignatureSize : nat := 64.

Inductive FrameCryptoError : Type := ErrInvalidKeySize.

Section framecrypto.
Context `{Crypto}.

Definition Sign (priv message : bytes) : result FrameCryptoError bytes :=
  fail_if negb (bool_decide (length priv = PrivateKeySize)) with ErrInvalidKeySize ;;
  Ok (ed25519_sign priv message).

Definition Verify (pub message sig : bytes) : bool :=
  if negb (bool_decide (length pub = PublicKeySize)) || negb (bool_decide (length sig = SignatureSize))
  then false
  else ed25519_verify pub message sig.

Definition EnvelopeSignatureInput (domain protectedHeader payloadSHA256 : bytes) : bytes :=
  domain ++ protectedHeader ++ payloadSHA256.

Definition SignEnvelope (priv domain protectedHeader payloadSHA256 : bytes)
    : result FrameCryptoError bytes :=
  Sign priv (EnvelopeSignatureInput domain protectedHeader payloadSHA256).

Definition VerifyEnvelope (pub domain protectedHeader payloadSHA256 sig : bytes) : bool :=
  if negb (bool_decide (length sig = SignatureSize)) then false
  else Verify pub (EnvelopeSignatureInput domain protectedHeader payloadSHA256) sig.

Definition DomainSeparatedMessage (domain : string) (canonical : bytes) : bytes :=
  bytes_of domain ++ canonical.

(** [security.MessageID]: the deterministic id of an operation's message. *)
Definition MessageID (operationID messageType : string) : bytes :=
  take 16 (sha256 (bytes_of "antinat-msgid-v1" ++ Byte.x00 :: bytes_of operationID ++ Byte.x00 :: bytes_of messageType)).

End framecrypto.

(** ** A concrete instance

    A checksum stands for the hash and a keyed checksum for the signature; it
    satisfies the laws and evaluates, which is all a concrete run needs. *)

Definition checksum (m : bytes) : Z := fold_left (λ acc b, (acc * 257 + b2z b + 1) mod 2 ^ 256) m 7.

Definition toy_sign (pub m : bytes) : bytes := take 32 (pub ++ repeat Byte.x00 32) ++ be_put 32 (checksum (pub ++ m)).

Definition toy_crypto : Crypto := {|
  sha256 m := be_put 32 (checksum m);
  ed25519_sign k m := toy_sign (drop 32 k) m;
  ed25519_verify pub m sig := bytes_eqb sig (toy_sign pub m);
  ed25519_public k := drop 32 k
|}.

Lemma toy_crypto_laws : @CryptoLaws toy_crypto.
Proof.
  split; intros; cbn [sha256 ed25519_sign ed25519_verify ed25519_public toy_crypto].
  - apply length_be_put.
  - unfold toy_sign. rewrite length_app, length_be_put, length_take, length_app, length_drop, repeat_length. lia.
  - rewrite length_drop. lia.
  - unfold bytes_eqb. by apply bool_decide_eq_true.
Qed.

(** ** Length-prefixed fields *)

(** [uint32(len(f))] in big-endian order, then the bytes. *)
Definition put_field (f : bytes) : bytes := be_put 4 (zlen f) ++ f.

Definition put_fields (fs : list bytes) : bytes := concat (put_field <$> fs).

(** One field off the front: the length prefix must be present and must not
    exceed what is left. *)
Definition read_field (b : bytes) : option (bytes * bytes) :=
  if zlen b <? 4 then None
  else
    let l := be_get (take 4 b) in
    let rest := drop 4 b in
    if zlen rest <? l then None
    else Some (take (Z.to_nat l) rest, drop (Z.to_nat l) rest).

Fixpoint read_fields (count : nat) (b : bytes) : option (list bytes * bytes) :=
  match count with
  | O => Some ([], b)
  | S n =>
      match read_field b with
      | None => None
      | Some (f, rest) =>
          match read_fields n rest with
          | None => None
          | Some (fs, rest') => Some (f :: fs, rest')
          end
      end
  end.

(** Every field fits its 32-bit length prefix. *)
Definition fits32 (f : bytes) : Prop := zlen f < 2 ^ 32.

Lemma read_field_put (f rest : bytes) : fits32 f → read_field (put_field f ++ rest) = Some (f, rest).
Proof.
  intros Hf. unfold read_field, put_field. unfold fits32 in Hf. pose proof (zlen_nonneg f).
  rewrite <- app_assoc.
  rewrite (proj2 (Z.ltb_ge _ 4)) by (rewrite zlen_app, zlen_be_put; pose proof (zlen_nonneg (f ++ rest)); lia).
  rewrite take_exact, drop_exact by apply length_be_put.
  rewrite be_get_put_small by (change (256 ^ Z.of_nat 4) with (2 ^ 32); lia).
  rewrite (proj2 (Z.ltb_ge _ _)) by (rewrite zlen_app; pose proof (zlen_nonneg rest); lia).
  rewrite to_nat_zlen, take_exact, drop_exact by done. done.
Qed.

Lemma read_field_inv (b f rest : bytes) :
  read_field b = Some (f, rest) → b = put_field f ++ rest ∧ fits32 f.
Proof.
  unfold read_field. intros H. go_inv H. bool_prop.
  unfold fits32, put_field. pose proof (be_get_range (take 4 b)) as Hr.
  assert (Hl4 : length (take 4 b) = 4%nat) by (rewrite length_take; unfold zlen in *; lia).
  assert (Hz : zlen (take (Z.to_nat (be_get (take 4 b))) (drop 4 b)) = be_get (take 4 b)).
  { unfold zlen in *. rewrite length_take. lia. }
  rewrite Hz. split.
  - rewrite be_put_get_len by done. rewrite <- app_assoc, take_drop, take_drop. done.
  - unfold zlen in Hr. rewrite Hl4 in Hr. apply Hr.
Qed.

Lemma put_fields_cons (f : bytes) (fs : list bytes) : put_fields (f :: fs) = put_field f ++ put_fields fs.
Proof. done. Qed.

Lemma read_fields_put (fs : list bytes) (rest : bytes) :
  Forall fits32 fs → read_fields (length fs) (put_fields fs ++ rest) = Some (fs, rest).
Proof.
  induction 1 as [|f fs Hf _ IH]; [done|]. cbn [length read_fields].
  rewrite put_fields_cons, <- app_assoc, read_field_put by done. by rewrite IH.
Qed.

Lemma read_fields_inv (n : nat) (b rest : bytes) (fs : list bytes) :
  read_fields n b = Some (fs, rest) → b = put_fields fs ++ rest ∧ length fs = n ∧ Forall fits32 fs.
Proof.
  revert b fs; induction n as [|n IH]; intros b fs H; cbn [read_fields] in H.
  { simplify_eq. done. }
  go_inv H.
  match goal with E : read_field _ = Some _ |- _ => apply read_field_inv in E as [-> Hf] end.
  match goal with E : read_fields _ _ = Some _ |- _ => apply IH in E as (->&<-&Hfs) end.
  rewrite put_fields_cons, <- app_assoc. split_and!; [done|done|by constructor].
Qed.

(** The concatenation of length-prefixed fields is uniquely decodable. *)
Lemma put_fields_inj (fs gs : list bytes) (a b : bytes) :
  length fs = length gs → Forall fits32 fs → Forall fits32 gs →
  put_fields fs ++ a = put_fields gs ++ b → fs = gs ∧ a = b.
Proof.
  intros Hl Hf Hg He. apply (f_equal (read_fields (length fs))) in He.
  rewrite read_fields_put, Hl, read_fields_put in He by done. by simplify_eq.
Qed.

Lemma length_put_field (f : bytes) : length (put_field f) = (4 + length f)%nat.
Proof. unfold put_field. by rewrite length_app, length_be_put. Qed.

Lemma zlen_put_field (f : bytes) : zlen (put_field f) = 4 + zlen f.
Proof. unfold put_field. by rewrite zlen_app, zlen_be_put. Qed.

#[export] Hint Rewrite zlen_put_field : go_rw.

Lemma Verify_sizes `{Crypto} (pub m sig : bytes) :
  Verify pub m sig = true →
  length pub = PublicKeySize ∧ length sig = SignatureSize ∧ ed25519_verify pub m sig = true.
Proof. unfold Verify. intros Hv. go_inv Hv. bool_prop. done. Qed.

Lemma Verify_Sign `{CryptoLaws} (priv m sig : bytes) :
  Sign priv m = Ok sig → Verify (ed25519_public priv) m sig = true ∧ length sig = SignatureSize.
Proof.
  unfold Sign, Verify. intros Hs. go_inv Hs. bool_prop. unfold PrivateKeySize in *.
  rewrite public_length, sign_length by done. cbn.
  split; [by apply verify_sign|done].
Qed.

(** Messages signed under different domains never coincide. *)
Lemma domain_separated (d1 d2 : string) (m1 m2 : bytes) :
  take (min (String.length d1) (String.length d2)) (bytes_of d1) ≠
  take (min (String.length d1) (String.length d2)) (bytes_of d2) →
  DomainSeparatedMessage d1 m1 ≠ DomainSeparatedMessage d2 m2.
Proof.
  intros Hne He. apply Hne. unfold DomainSeparatedMessage in He.
  apply (f_equal (take (min (String.length d1) (String.length d2)))) in He.
  rewrite !take_app_le in He by (rewrite length_bytes_of; lia). done.
Qed.

#[global] Opaque put_field.
