(* ===== verification/Envelope.v ===== *)
(** * The signed control envelope ([src/internal/protocol/envelope.go])

    Frame layout: ["ANAT" || version || u32 header length || u32 payload
    length || header || payload || signature], the header being fourteen
    length-prefixed fields.  The payload bytes are carried, never decoded. *)

From Stdlib Require Import ZArith Lia Strings.Byte.
From stdpp Require Import base tactics list sets strings option.
From S2P Require Import Prelude Frame.

Open Scope Z_scope.

(** ** Constants *)

Definition ProtocolDomain : string := "AntiNAT-Control-v1".
Definition EnvelopeMagic : string := "ANAT".
Definition WireVersion : Z := 1.
Definition MaxHeaderBytes : Z := 4096.
Definition MaxPayloadBytes : Z := 65536.
Definition MaxJSONDepth : Z := 16.
Definition DirectionC2A : byte := Byte.x01.
Definition DirectionA2C : byte := Byte.x02.
Definition MaxHeaderStringField : Z := 255.
Definition EnvelopeSigLen : nat := 64.
Definition EnvelopeHeaderFieldCount : nat := 14.

(** ** Data *)

Inductive Stage : Type :=
  | StageOK | StageFraming | StageHeader | StageConsistency | StageSignature | StagePayloadJSON.

Inductive EnvelopeError : Type :=
  | EControllerKeyID | ESessionID | EMessageType | EFieldTooLarge
  | ETruncatedPrefix | ETrailingBytes | EFieldWidth (field : nat)
  | EHeaderTooLarge | EPayloadTooLarge | EKeySize
  | EShortFrame | EBadMagic | EBadVersion (v : Z) | EHeaderLength | EPayloadLength | EFrameLength
  | EDomain | EPayloadLengthField | EPayloadHash | EDirection | ECredentialVersion | EPeerKeySize
  | ESignature.

Record ProtectedHeader : Type := mkHeader {
  ph_ProtocolDomain : string;
  ph_ControllerInstanceID : bytes;
  ph_NodeID : bytes;
  ph_ControllerKeyID : string;
  ph_AgentCredentialVer : Z;
  ph_ConnectionEpoch : Z;
  ph_SessionID : string;
  ph_Direction : byte;
  ph_Sequence : Z;
  ph_MessageID : bytes;
  ph_MessageType : string;
  ph_SchemaVersion : Z;
  ph_PayloadLength : Z;
  ph_PayloadSHA256 : bytes
}.

Record Envelope : Type := mkEnvelope {
  env_HeaderLen : Z;
  env_PayloadLen : Z;
  env_Header : ProtectedHeader;
  env_HeaderBytes : bytes;
  env_Payload : bytes;
  env_Signature : bytes
}.

(** The Go types of the header fields: array sizes and integer widths. *)
Record header_typed (h : ProtectedHeader) : Prop := {
  ht_instance : length (ph_ControllerInstanceID h) = 16%nat;
  ht_node : length (ph_NodeID h) = 16%nat;
  ht_message : length (ph_MessageID h) = 16%nat;
  ht_sha : length (ph_PayloadSHA256 h) = 32%nat;
  ht_cred : in_u32 (ph_AgentCredentialVer h);
  ht_epoch : in_u64 (ph_ConnectionEpoch h);
  ht_seq : in_u64 (ph_Sequence h);
  ht_schema : in_u32 (ph_SchemaVersion h);
  ht_plen : in_u64 (ph_PayloadLength h)
}.

(** ** Operations *)

(** [len(s)] of a Go string. *)
Definition slen (s : string) : Z := zlen (bytes_of s).

Definition validateHeaderStringFields (h : ProtectedHeader) : result EnvelopeError unit :=
  fail_if (slen (ph_ControllerKeyID h) =? 0) || (MaxHeaderStringField <? slen (ph_ControllerKeyID h))
    with EControllerKeyID ;;
  fail_if (slen (ph_SessionID h) =? 0) || (MaxHeaderStringField <? slen (ph_SessionID h))
    with ESessionID ;;
  fail_if (slen (ph_MessageType h) =? 0) || (MaxHeaderStringField <? slen (ph_MessageType h))
    with EMessageType ;;
  Ok tt.

Definition encodeU32 (v : Z) : bytes := be_put 4 v.
Definition encodeU64 (v : Z) : bytes := be_put 8 v.

Definition header_fields (h : ProtectedHeader) : list bytes :=
  [ bytes_of (ph_ProtocolDomain h);
    ph_ControllerInstanceID h;
    ph_NodeID h;
    bytes_of (ph_ControllerKeyID h);
    encodeU32 (ph_AgentCredentialVer h);
    encodeU64 (ph_ConnectionEpoch h);
    bytes_of (ph_SessionID h);
    [ph_Direction h];
    encodeU64 (ph_Sequence h);
    ph_MessageID h;
    bytes_of (ph_MessageType h);
    encodeU32 (ph_SchemaVersion h);
    encodeU64 (ph_PayloadLength h);
    ph_PayloadSHA256 h ].

(** [putField] over the field list, appending to the buffer. *)
Fixpoint put_checked (fields : list bytes) : result EnvelopeError bytes :=
  match fields with
  | [] => Ok []
  | f :: fields' =>
      fail_if 2 ^ 32 - 1 <? zlen f with EFieldTooLarge ;;
      let* rest := put_checked fields' in
      Ok (put_field f ++ rest)
  end.

Definition EncodeProtectedHeader (h : ProtectedHeader) : result EnvelopeError bytes :=
  let* _ := validateHeaderStringFields h in
  put_checked (header_fields h).

Definition decodeProtectedHeader (b : bytes) : result EnvelopeError ProtectedHeader :=
  match read_fields EnvelopeHeaderFieldCount b with
  | None => Err ETruncatedPrefix
  | Some ([p0; p1; p2; p3; p4; p5; p6; p7; p8; p9; p10; p11; p12; p13], rest) =>
      fail_if negb (bool_decide (rest = [])) with ETrailingBytes ;;
      fail_if negb (bool_decide (length p1 = 16%nat)) with EFieldWidth 1 ;;
      fail_if negb (bool_decide (length p2 = 16%nat)) with EFieldWidth 2 ;;
      fail_if negb (bool_decide (length p4 = 4%nat)) with EFieldWidth 4 ;;
      fail_if negb (bool_decide (length p5 = 8%nat)) with EFieldWidth 5 ;;
      match p7 with
      | [dir] =>
          fail_if negb (bool_decide (length p8 = 8%nat)) with EFieldWidth 8 ;;
          fail_if negb (bool_decide (length p9 = 16%nat)) with EFieldWidth 9 ;;
          fail_if negb (bool_decide (length p11 = 4%nat)) with EFieldWidth 11 ;;
          fail_if negb (bool_decide (length p12 = 8%nat)) with EFieldWidth 12 ;;
          fail_if negb (bool_decide (length p13 = 32%nat)) with EFieldWidth 13 ;;
          let h := mkHeader (string_of p0) p1 p2 (string_of p3) (be_get p4) (be_get p5)
                     (string_of p6) dir (be_get p8) p9 (string_of p10) (be_get p11) (be_get p12) p13 in
          let* _ := validateHeaderStringFields h in
          Ok h
      | _ => Err (EFieldWidth 7)
      end
  | Some _ => Err ETruncatedPrefix
  end.

Section Envelope.
Context `{Crypto}.

(** [payload_length] and [payload_sha256] filled in by the sender. *)
Definition fill_payload (h : ProtectedHeader) (payload : bytes) : ProtectedHeader :=
  mkHeader (ph_ProtocolDomain h) (ph_ControllerInstanceID h) (ph_NodeID h) (ph_ControllerKeyID h)
    (ph_AgentCredentialVer h) (ph_ConnectionEpoch h) (ph_SessionID h) (ph_Direction h)
    (ph_Sequence h) (ph_MessageID h) (ph_MessageType h) (ph_SchemaVersion h)
    (zlen payload) (sha256 payload).

(** The frame layout. *)
Definition assemble (headerBytes payload sig : bytes) : bytes :=
  bytes_of EnvelopeMagic ++ [u8 WireVersion] ++ encodeU32 (zlen headerBytes)
  ++ encodeU32 (zlen payload) ++ headerBytes ++ payload ++ sig.

Definition BuildEnvelope (priv : bytes) (h0 : ProtectedHeader) (payload : bytes)
    : result EnvelopeError bytes :=
  let h := fill_payload h0 payload in
  let* headerBytes := EncodeProtectedHeader h in
  fail_if MaxHeaderBytes <? zlen headerBytes with EHeaderTooLarge ;;
  fail_if MaxPayloadBytes <? zlen payload with EPayloadTooLarge ;;
  fail_if negb (bool_decide (length priv = PrivateKeySize)) with EKeySize ;;
  let* sig := map_err (λ _, EKeySize)
                (SignEnvelope priv (bytes_of (ph_ProtocolDomain h)) headerBytes (ph_PayloadSHA256 h)) in
  Ok (assemble headerBytes payload sig).

Definition ParseEnvelope (frame peer : bytes) : result (Stage * EnvelopeError) Envelope :=
  fail_if zlen frame <? 13 + Z.of_nat EnvelopeSigLen with (StageFraming, EShortFrame) ;;
  fail_if negb (bytes_eqb (take 4 frame) (bytes_of EnvelopeMagic)) with (StageFraming, EBadMagic) ;;
  let version := be_get (slice frame 4 5) in
  fail_if negb (version =? WireVersion) with (StageFraming, EBadVersion version) ;;
  let headerLen := be_get (slice frame 5 9) in
  let payloadLen := be_get (slice frame 9 13) in
  fail_if (headerLen =? 0) || (MaxHeaderBytes <? headerLen) with (StageFraming, EHeaderLength) ;;
  fail_if MaxPayloadBytes <? payloadLen with (StageFraming, EPayloadLength) ;;
  fail_if negb (zlen frame =? 13 + headerLen + payloadLen + Z.of_nat EnvelopeSigLen)
    with (StageFraming, EFrameLength) ;;
  let hl := Z.to_nat headerLen in
  let pl := Z.to_nat payloadLen in
  let headerBytes := slice frame 13 (13 + hl) in
  let payload := slice frame (13 + hl) (13 + hl + pl) in
  let sig := drop (13 + hl + pl) frame in
  let* header := map_err (λ e, (StageHeader, e)) (decodeProtectedHeader headerBytes) in
  fail_if negb (String.eqb (ph_ProtocolDomain header) ProtocolDomain) with (StageConsistency, EDomain) ;;
  fail_if negb (ph_PayloadLength header =? payloadLen) with (StageConsistency, EPayloadLengthField) ;;
  fail_if negb (bytes_eqb (sha256 payload) (ph_PayloadSHA256 header)) with (StageConsistency, EPayloadHash) ;;
  fail_if negb (bool_decide (ph_Direction header = DirectionC2A))
          && negb (bool_decide (ph_Direction header = DirectionA2C)) with (StageConsistency, EDirection) ;;
  fail_if ph_AgentCredentialVer header =? 0 with (StageConsistency, ECredentialVersion) ;;
  fail_if negb (bool_decide (length peer = PublicKeySize)) with (StageConsistency, EPeerKeySize) ;;
  fail_if negb (VerifyEnvelope peer (bytes_of (ph_ProtocolDomain header)) headerBytes
                  (ph_PayloadSHA256 header) sig) with (StageSignature, ESignature) ;;
  Ok (mkEnvelope headerLen payloadLen header headerBytes payload sig).

End Envelope.

(** ** Lemmas: header codec *)

Definition strings_ok (h : ProtectedHeader) : Prop :=
  1 ≤ slen (ph_ControllerKeyID h) ≤ 255 ∧ 1 ≤ slen (ph_SessionID h) ≤ 255 ∧
  1 ≤ slen (ph_MessageType h) ≤ 255.

Lemma validateHeaderStringFields_iff (h : ProtectedHeader) :
  validateHeaderStringFields h = Ok tt ↔ strings_ok h.
Proof.
  unfold validateHeaderStringFields, strings_ok, MaxHeaderStringField, slen.
  pose proof (zlen_nonneg (bytes_of (ph_ControllerKeyID h))).
  pose proof (zlen_nonneg (bytes_of (ph_SessionID h))).
  pose proof (zlen_nonneg (bytes_of (ph_MessageType h))).
  split.
  - intros Hv. go_inv Hv. bool_prop. lia.
  - intros (?&?&?).
    do 3 (rewrite (proj2 (Z.eqb_neq _ 0)), (proj2 (Z.ltb_ge 255 _)) by lia; cbn [orb]). done.
Qed.

Lemma put_checked_ok (fs : list bytes) : Forall fits32 fs → put_checked fs = Ok (put_fields fs).
Proof.
  induction 1 as [|f fs Hf _ IH]; [done|]. unfold fits32 in Hf. cbn [put_checked].
  rewrite (proj2 (Z.ltb_ge _ _)) by lia. by rewrite IH.
Qed.

Lemma put_checked_inv (fs : list bytes) (b : bytes) :
  put_checked fs = Ok b → b = put_fields fs ∧ Forall fits32 fs.
Proof.
  revert b; induction fs as [|f fs IH]; intros b Hb; cbn [put_checked] in Hb.
  { simplify_eq. done. }
  go_inv Hb. bool_prop.
  destruct (IH _ eq_refl) as [-> Hfs].
  split; [done|]. constructor; [unfold fits32; lia|done].
Qed.

Lemma fits32_short (f : bytes) (n : nat) : length f = n → (n ≤ 1000)%nat → fits32 f.
Proof. unfold fits32, zlen. lia. Qed.

Lemma header_fields_fit (h : ProtectedHeader) :
  header_typed h → strings_ok h → slen (ph_ProtocolDomain h) < 2 ^ 32 → Forall fits32 (header_fields h).
Proof.
  intros [] (?&?&?) Hd. unfold header_fields, encodeU32, encodeU64, slen in *.
  repeat apply List.Forall_cons; try apply List.Forall_nil; try done;
    try (eapply fits32_short; [eassumption || apply length_be_put || done|lia]); unfold fits32; lia.
Qed.

Lemma decode_header_fields (h : ProtectedHeader) :
  header_typed h → strings_ok h → slen (ph_ProtocolDomain h) < 2 ^ 32 →
  decodeProtectedHeader (put_fields (header_fields h)) = Ok h.
Proof.
  intros Ht Hs Hd. unfold decodeProtectedHeader.
  rewrite <- (app_nil_r (put_fields _)).
  change EnvelopeHeaderFieldCount with (length (header_fields h)).
  rewrite read_fields_put by (by apply header_fields_fit). unfold header_fields. cbv beta iota.
  destruct Ht. unfold encodeU32, encodeU64, in_u32, in_u64 in *.
  rewrite !string_of_bytes_of.
  rewrite !length_be_put.
  repeat (rewrite be_get_put_small by (assumption || lia)).
  repeat (rewrite bool_decide_eq_true_2 by done). cbn [negb].
  replace (mkHeader _ _ _ _ _ _ _ _ _ _ _ _ _ _) with h by (by destruct h).
  by rewrite (proj2 (validateHeaderStringFields_iff h) Hs).
Qed.

(** A decoded header is typed, and re-encoding it gives the bytes back. *)
Lemma decode_header_inv (b : bytes) (h : ProtectedHeader) :
  decodeProtectedHeader b = Ok h →
  b = put_fields (header_fields h) ∧ header_typed h ∧ strings_ok h ∧ Forall fits32 (header_fields h).
Proof.
  unfold decodeProtectedHeader. intros Hd. go_inv Hd. bool_prop. subst.
  match goal with E : read_fields _ _ = Some _ |- _ => apply read_fields_inv in E as (->&_&Hf) end.
  match goal with E : validateHeaderStringFields _ = Ok ?u |- _ =>
    destruct u; apply validateHeaderStringFields_iff in E end.
  rewrite app_nil_r. unfold header_fields. cbn [ph_ProtocolDomain ph_ControllerInstanceID ph_NodeID
    ph_ControllerKeyID ph_AgentCredentialVer ph_ConnectionEpoch ph_SessionID ph_Direction ph_Sequence
    ph_MessageID ph_MessageType ph_SchemaVersion ph_PayloadLength ph_PayloadSHA256].
  unfold encodeU32, encodeU64. rewrite !bytes_of_string_of.
  rewrite !be_put_get_len by done.
  split_and!; try done.
  split; try done; unfold in_u32, in_u64; cbn;
    match goal with |- 0 ≤ be_get ?p < _ =>
      pose proof (be_get_range p) as Hr; unfold zlen in Hr;
      match goal with Hl : length p = _ |- _ => rewrite Hl in Hr end; exact Hr
    end.
Qed.

(** ** Lemmas: frame layout *)

Lemma assemble_layout (hb p sig : bytes) :
  let f := assemble hb p sig in
  let hl := length hb in let pl := length p in
  take 4 f = bytes_of EnvelopeMagic ∧ slice f 4 5 = [u8 WireVersion] ∧
  slice f 5 9 = encodeU32 (zlen hb) ∧ slice f 9 13 = encodeU32 (zlen p) ∧
  slice f 13 (13 + hl) = hb ∧ slice f (13 + hl) (13 + hl + pl) = p ∧
  drop (13 + hl + pl) f = sig ∧ zlen f = 13 + zlen hb + zlen p + zlen sig.
Proof.
  cbv zeta. unfold assemble, encodeU32.
  set (m := bytes_of EnvelopeMagic). assert (Hm : length m = 4%nat) by done.
  assert (Hv : length [u8 WireVersion] = 1%nat) by done.
  set (v := [u8 WireVersion]) in *. clearbody m v.
  set (a := be_put 4 (zlen hb)). assert (Ha : length a = 4%nat) by apply length_be_put.
  set (b := be_put 4 (zlen p)). assert (Hb : length b = 4%nat) by apply length_be_put.
  clearbody a b. split_and!.
  - by apply take_exact.
  - apply slice_mid; lia.
  - rewrite (app_assoc m). apply slice_mid; rewrite length_app; lia.
  - rewrite (app_assoc m), (app_assoc (m ++ v)). apply slice_mid; rewrite !length_app; lia.
  - rewrite (app_assoc m), (app_assoc (m ++ v)), (app_assoc ((m ++ v) ++ a)).
    apply slice_mid; rewrite !length_app; lia.
  - rewrite (app_assoc m), (app_assoc (m ++ v)), (app_assoc ((m ++ v) ++ a)), (app_assoc (((m ++ v) ++ a) ++ b)).
    apply slice_mid; rewrite !length_app; lia.
  - rewrite (app_assoc m), (app_assoc (m ++ v)), (app_assoc ((m ++ v) ++ a)),
      (app_assoc (((m ++ v) ++ a) ++ b)), (app_assoc ((((m ++ v) ++ a) ++ b) ++ hb)).
    apply drop_exact. rewrite !length_app. lia.
  - rewrite !zlen_app. unfold zlen. lia.
Qed.

(** A frame long enough for its declared lengths is its own layout. *)
Lemma frame_split (f : bytes) (hl pl : nat) :
  (13 + hl + pl ≤ length f)%nat →
  f = take 4 f ++ slice f 4 5 ++ slice f 5 9 ++ slice f 9 13 ++ slice f 13 (13 + hl)
      ++ slice f (13 + hl) (13 + hl + pl) ++ drop (13 + hl + pl) f.
Proof.
  intros Hl. rewrite <- (slice_drop f (13 + hl)) by lia.
  rewrite <- (slice_drop f 13) by lia. rewrite <- (slice_drop f 9) by lia.
  rewrite <- (slice_drop f 5) by lia. rewrite <- (slice_drop f 4) by lia.
  by rewrite take_drop.
Qed.

Lemma header_bytes_bound (h : ProtectedHeader) :
  header_typed h → strings_ok h → ph_ProtocolDomain h = ProtocolDomain →
  0 < zlen (put_fields (header_fields h)) ≤ MaxHeaderBytes.
Proof.
  intros [] (?&?&?) Hd. unfold header_fields, slen, MaxHeaderBytes, encodeU32, encodeU64 in *.
  rewrite Hd. do 14 rewrite put_fields_cons. change (put_fields []) with (@nil byte).
  rewrite app_nil_r. repeat rewrite zlen_app. rewrite !zlen_put_field. repeat rewrite zlen_be_put.
  assert (zlen (bytes_of ProtocolDomain) = 18) as -> by done.
  assert (zlen [ph_Direction h] = 1) as -> by done.
  unfold zlen in *. lia.
Qed.

Lemma slice_one (f : bytes) (i : nat) : (S i ≤ length f)%nat →
  ∃ b, slice f i (S i) = [b].
Proof.
  intros Hl. pose proof (length_slice f i (S i)) as Hs.
  destruct (slice f i (S i)) as [|b [|c l]]; cbn in Hs; try lia. by exists b.
Qed.

(** ** Properties *)

(** What a header must satisfy for [BuildEnvelope] to frame it for this protocol. *)
Record buildable (h : ProtectedHeader) : Prop := {
  bd_typed : header_typed h;
  bd_strings : strings_ok h;
  bd_domain : ph_ProtocolDomain h = ProtocolDomain;
  bd_direction : ph_Direction h = DirectionC2A ∨ ph_Direction h = DirectionA2C;
  bd_cred : ph_AgentCredentialVer h ≠ 0
}.

Lemma header_typed_fill `{CryptoLaws} (h : ProtectedHeader) (payload : bytes) :
  header_typed h → zlen payload ≤ MaxPayloadBytes → header_typed (fill_payload h payload).
Proof.
  intros [] Hp. unfold MaxPayloadBytes in *. pose proof (zlen_nonneg payload).
  split; try done; cbn; [apply sha256_length|unfold in_u64; lia].
Qed.

Lemma BuildEnvelope_ok `{CryptoLaws} (priv payload : bytes) (h : ProtectedHeader) :
  header_typed h → strings_ok h → ph_ProtocolDomain h = ProtocolDomain →
  zlen payload ≤ MaxPayloadBytes → length priv = PrivateKeySize →
  let h' := fill_payload h payload in
  let hb := put_fields (header_fields h') in
  let m := EnvelopeSignatureInput (bytes_of ProtocolDomain) hb (sha256 payload) in
  BuildEnvelope priv h payload = Ok (assemble hb payload (ed25519_sign priv m)).
Proof.
  intros Ht Hs Hd Hp Hk. cbv zeta. unfold BuildEnvelope, EncodeProtectedHeader.
  assert (Ht' := header_typed_fill h payload Ht Hp).
  assert (Hs' : strings_ok (fill_payload h payload)) by exact Hs.
  rewrite (proj2 (validateHeaderStringFields_iff _) Hs').
  rewrite put_checked_ok.
  2: { apply header_fields_fit; [done..|]. cbn [ph_ProtocolDomain fill_payload]. by rewrite Hd. }
  pose proof (header_bytes_bound _ Ht' Hs' Hd).
  rewrite (proj2 (Z.ltb_ge _ _)) by lia. rewrite (proj2 (Z.ltb_ge _ _)) by lia.
  rewrite bool_decide_eq_true_2 by done. cbn [negb].
  unfold SignEnvelope, Sign. rewrite bool_decide_eq_true_2 by done. cbn [negb map_err].
  cbn [ph_ProtocolDomain ph_PayloadSHA256 fill_payload]. by rewrite Hd.
Qed.

(** The envelope a frame [assemble hb payload sig] of a header [h] parses to. *)
Lemma ParseEnvelope_assemble `{CryptoLaws} (peer payload sig : bytes) (h : ProtectedHeader) :
  buildable h → ph_PayloadLength h = zlen payload → ph_PayloadSHA256 h = sha256 payload →
  zlen payload ≤ MaxPayloadBytes → length peer = PublicKeySize → length sig = SignatureSize →
  let hb := put_fields (header_fields h) in
  VerifyEnvelope peer (bytes_of ProtocolDomain) hb (sha256 payload) sig = true →
  ParseEnvelope (assemble hb payload sig) peer =
    Ok (mkEnvelope (zlen hb) (zlen payload) h hb payload sig).
Proof.
  intros [Ht Hs Hd Hdir Hc] Hpl Hsha Hp Hk Hsig hb Hver.
  pose proof (header_bytes_bound h Ht Hs Hd) as Hb. fold hb in Hb.
  pose proof (zlen_nonneg payload) as Hp0.
  assert (Hdec : decodeProtectedHeader hb = Ok h) by (apply decode_header_fields; [done..|by rewrite Hd]).
  destruct (assemble_layout hb payload sig) as (L1&L2&L3&L4&L5&L6&L7&L8).
  unfold MaxPayloadBytes, MaxHeaderBytes in *.
  assert (Hz : zlen sig = 64) by (unfold zlen; by rewrite Hsig).
  unfold ParseEnvelope. rewrite L1, L2, L3, L4, L8, be_get_one, b2z_u8.
  unfold encodeU32. rewrite !be_get_u32 by (unfold in_u32; lia).
  rewrite !to_nat_zlen, L5, L6, L7, Hdec, Hz.
  change (Z.of_nat EnvelopeSigLen) with 64. unfold MaxHeaderBytes, MaxPayloadBytes.
  rewrite (proj2 (Z.ltb_ge _ _)) by lia. unfold bytes_eqb at 1. rewrite bool_decide_eq_true_2 by done.
  change (WireVersion mod 256 =? WireVersion) with true. cbn [negb].
  rewrite (proj2 (Z.eqb_neq (zlen hb) 0)), (proj2 (Z.ltb_ge 4096 _)), (proj2 (Z.ltb_ge 65536 _)) by lia.
  rewrite Z.eqb_refl. cbn [orb negb map_err].
  rewrite Hd, Hpl, Hsha, String.eqb_refl, Z.eqb_refl. unfold bytes_eqb.
  rewrite (bool_decide_eq_true_2 (sha256 payload = _)) by done. cbn [negb].
  rewrite (proj2 (Z.eqb_neq _ 0)) by done. rewrite (bool_decide_eq_true_2 (length peer = _)) by done.
  rewrite Hver. cbn [negb]. by destruct Hdir as [-> | ->].
Qed.

(** C36: for every well-typed header with non-empty string fields of at most 255
    bytes, the protocol's domain, a legal direction and a credential version,
    and every payload within the limit, [BuildEnvelope] succeeds, and
    [ParseEnvelope] of the frame under the matching public key accepts it and
    returns the header (with the payload length and hash filled in) and the
    payload. *)
Theorem Parse_Build_roundtrip `{CryptoLaws} (priv payload : bytes) (h : ProtectedHeader) :
  buildable h → zlen payload ≤ MaxPayloadBytes → length priv = PrivateKeySize →
  ∃ frame e, BuildEnvelope priv h payload = Ok frame ∧
    ParseEnvelope frame (ed25519_public priv) = Ok e ∧
    env_Header e = fill_payload h payload ∧ env_Payload e = payload.
Proof.
  intros [Ht Hs Hd Hdir Hc] Hp Hk. pose proof (header_typed_fill h payload Ht Hp) as Ht'.
  eexists _, _. split; [by apply BuildEnvelope_ok|].
  rewrite ParseEnvelope_assemble; [done|done|done..|by apply public_length|by apply sign_length|].
  unfold VerifyEnvelope, Verify.
  rewrite sign_length, public_length by done. cbn. by apply verify_sign.
Qed.

Lemma ParseEnvelope_inv `{Crypto} (frame peer : bytes) (e : Envelope) :
  ParseEnvelope frame peer = Ok e →
  frame = assemble (put_fields (header_fields (env_Header e))) (env_Payload e) (env_Signature e) ∧
  buildable (env_Header e) ∧
  env_HeaderBytes e = put_fields (header_fields (env_Header e)) ∧
  Forall fits32 (header_fields (env_Header e)) ∧
  ph_PayloadLength (env_Header e) = zlen (env_Payload e) ∧ zlen (env_Payload e) ≤ MaxPayloadBytes ∧
  ph_PayloadSHA256 (env_Header e) = sha256 (env_Payload e) ∧
  VerifyEnvelope peer (bytes_of ProtocolDomain) (env_HeaderBytes e)
    (sha256 (env_Payload e)) (env_Signature e) = true.
Proof.
  unfold ParseEnvelope, map_err. cbv zeta.
  pose proof (be_get_range (slice frame 5 9)) as R1. pose proof (be_get_range (slice frame 9 13)) as R2.
  set (hl := Z.to_nat (be_get (slice frame 5 9))). set (pl := Z.to_nat (be_get (slice frame 9 13))).
  set (i := (13 + hl)%nat). set (j := (i + pl)%nat).
  assert (Hij : (i ≤ 13 + hl ≤ i ∧ j ≤ i + pl ≤ j)%nat) by lia. clearbody i j.
  intros Hp. go_inv Hp. bool_prop. change (Z.of_nat EnvelopeSigLen) with 64 in *.
  cbn [env_Header env_Payload env_Signature env_HeaderBytes].
  match goal with E : decodeProtectedHeader _ = Ok _ |- _ =>
    apply decode_header_inv in E as (Hhb&Ht&Hs&Hfit) end.
  assert (Hlen : (j ≤ length frame)%nat) by (unfold zlen in *; lia).
  assert (Hpl : zlen (slice frame i j) = be_get (slice frame 9 13))
    by (unfold zlen; rewrite length_slice by lia; lia).
  assert (Hhl : zlen (slice frame 13 i) = be_get (slice frame 5 9))
    by (unfold zlen; rewrite length_slice by lia; lia).
  rewrite <- Hhb, <- E6. split_and!; try done; try congruence.
  - unfold assemble, encodeU32. rewrite Hpl, Hhl.
    rewrite !be_put_get_len by (rewrite length_slice by lia; lia). rewrite <- E0.
    destruct (slice_one frame 4 ltac:(lia)) as [v Hv]. rewrite Hv, be_get_one in E1.
    rewrite <- E1, u8_b2z, <- Hv.
    replace j with (13 + hl + pl)%nat by lia. replace i with (13 + hl)%nat by lia.
    apply frame_split. lia.
  - split; try done. apply andb_false_iff in E9 as [E9|E9]; bool_prop; auto.
Qed.

(** C15: an accepted frame is exactly the canonical frame of the header,
    payload and signature it parses to: nothing in it is unaccounted for.  The
    payload length and hash bind the payload, the header satisfies every field
    rule, and the signature verifies over the header and hash under the peer
    key, so an accepted frame has one parse and one encoding. *)
Theorem ParseEnvelope_accepts_canonical `{Crypto} (frame peer : bytes) (e : Envelope) :
  ParseEnvelope frame peer = Ok e →
  frame = assemble (put_fields (header_fields (env_Header e))) (env_Payload e) (env_Signature e) ∧
  buildable (env_Header e) ∧
  ph_PayloadLength (env_Header e) = zlen (env_Payload e) ∧
  ph_PayloadSHA256 (env_Header e) = sha256 (env_Payload e) ∧
  ed25519_verify peer (EnvelopeSignatureInput (bytes_of ProtocolDomain)
    (put_fields (header_fields (env_Header e))) (sha256 (env_Payload e))) (env_Signature e) = true.
Proof.
  intros Hp. apply ParseEnvelope_inv in Hp as (?&?&Hb&?&?&?&?&Hv). rewrite Hb in Hv.
  split_and!; try done. unfold VerifyEnvelope in Hv. go_inv Hv. by apply Verify_sizes.
Qed.

(** The signed input determines the message: two headers accepted by the
    field rules whose signature inputs coincide are equal, whatever the payload
    hashes are, so a signature never covers two different headers (another
    sequence number, node, session or payload hash). *)
Theorem signature_input_binds_header (d h1 h2 s1 s2 : bytes) (a b : ProtectedHeader) :
  decodeProtectedHeader h1 = Ok a → decodeProtectedHeader h2 = Ok b →
  EnvelopeSignatureInput d h1 s1 = EnvelopeSignatureInput d h2 s2 → a = b ∧ h1 = h2 ∧ s1 = s2.
Proof.
  intros Ha Hb He. pose proof Ha as Ha'. pose proof Hb as Hb'.
  apply decode_header_inv in Ha as (->&_&_&Fa). apply decode_header_inv in Hb as (->&_&_&Fb).
  unfold EnvelopeSignatureInput in He. apply app_inv_head in He.
  apply put_fields_inj in He as [He ->]; [|done..]. rewrite <- He in Hb'. rewrite Ha' in Hb'. injection Hb' as ->. split_and!; congruence.
Qed.


(** ** A concrete message *)

Definition sample_key : bytes := repeat Byte.x07 64.
Definition sample_header : ProtectedHeader :=
  mkHeader ProtocolDomain (repeat Byte.x01 16) (repeat Byte.x02 16) "key-1" 1 7 "session-1"
    DirectionC2A 42 (repeat Byte.x03 16) "desired-state" 1 0 (repeat Byte.x00 32).
Definition sample_payload : bytes := bytes_of "hello".
Definition sample_frame : bytes :=
  ok_or [] (@BuildEnvelope toy_crypto sample_key sample_header sample_payload).

Lemma sample_buildable : buildable sample_header.
Proof.
  split; [split; try done; unfold in_u32, in_u64; cbn; lia| |done|by left|done].
  unfold strings_ok. change (1 ≤ 5 ≤ 255 ∧ 1 ≤ 9 ≤ 255 ∧ 1 ≤ 13 ≤ 255). lia.
Qed.

Lemma Parse_Build_roundtrip_witness :
  ∃ frame e, @BuildEnvelope toy_crypto sample_key sample_header sample_payload = Ok frame ∧
    @ParseEnvelope toy_crypto frame (drop 32 sample_key) = Ok e ∧
    env_Header e = @fill_payload toy_crypto sample_header sample_payload ∧ env_Payload e = sample_payload.
Proof.
  apply (@Parse_Build_roundtrip toy_crypto toy_crypto_laws sample_key sample_payload sample_header);
    [apply sample_buildable|vm_compute; congruence|reflexivity].
Defined.

Definition sample_envelope : Envelope :=
  ok_or (mkEnvelope 0 0 sample_header [] [] []) (@ParseEnvelope toy_crypto sample_frame (drop 32 sample_key)).

Lemma ParseEnvelope_accepts_canonical_witness :
  sample_frame = assemble (put_fields (header_fields (env_Header sample_envelope)))
                   (env_Payload sample_envelope) (env_Signature sample_envelope).
Proof.
  refine (proj1 (@ParseEnvelope_accepts_canonical toy_crypto sample_frame (drop 32 sample_key)
    sample_envelope _)).
  vm_compute. reflexivity.
Defined.

Lemma signature_input_binds_header_witness :
  let hb := put_fields (header_fields sample_header) in sample_header = sample_header ∧ hb = hb ∧ hb = hb.
Proof.
  apply (signature_input_binds_header [] _ _ (put_fields (header_fields sample_header))
    (put_fields (header_fields sample_header))); [vm_compute; reflexivity..|reflexivity].
Defined.
