(* ===== verification/Enrollment.v ===== *)
(** * The enrollment transcript ([src/internal/protocol/enrollment.go])

    Challenge (Controller to Agent), request (Agent to Controller) and result
    (Controller to Agent): length-prefixed fields followed by an Ed25519
    signature over the domain and the fields.  [enrollEncode] panics on a field
    over 2^32-1 bytes; the panic is the value [None]. *)

From Stdlib Require Import ZArith Lia Strings.Byte.
From stdpp Require Import base tactics list sets strings option.
From S2P Require Import Prelude Frame Envelope.

Open Scope Z_scope.

Definition EnrollDomain : string := "AntiNAT-Enroll-v1".
Definition EnrollVersion : string := "1".
Definition MaxTokenBytes : Z := 256.
Definition EnrollNonceSize : nat := 32.
Definition EnrollKeySize : nat := 32.
Definition EnrollHashSize : nat := 32.
Definition EnrollIDSize : nat := 16.
Definition EnrollSigLen : nat := 64.
Definition EnrollChallengeMax : Z := 6 * 4 + 16 + 255 + 16 + 32 + 1 + 8 + 64.
Definition EnrollRequestMax : Z := 6 * 4 + 32 + 32 + 32 + 4 + MaxTokenBytes + 32 + 64.
Definition EnrollResultMax : Z := 7 * 4 + 16 + 255 + 16 + 32 + 4 + 16 + 8 + 64.

Inductive EnrollError : Type :=
  | ErrEnrollSignature | ErrEnrollDomain | ErrEnrollChallenge | ErrEnrollMalformed | ErrEnrollDirection
  | EnrollPanic.

(** ** Codec *)

Fixpoint enrollEncode (fields : list bytes) : option bytes :=
  match fields with
  | [] => Some []
  | f :: fields' =>
      if 2 ^ 32 - 1 <? zlen f then None
      else match enrollEncode fields' with
           | Some rest => Some (put_field f ++ rest)
           | None => None
           end
  end.

Definition enrollU32 (v : Z) : bytes := be_put 4 v.
Definition enrollU64 (v : Z) : bytes := be_put 8 v.

Definition enrollSignatureInput (domain : string) (fields : bytes) : bytes :=
  DomainSeparatedMessage domain fields.

Definition enrollSplit (raw : bytes) : result EnrollError (bytes * bytes) :=
  fail_if bool_decide (length raw < EnrollSigLen)%nat with ErrEnrollMalformed ;;
  let sig := drop (length raw - EnrollSigLen) raw in
  let fields := take (length raw - EnrollSigLen) raw in
  fail_if bool_decide (length fields = 0%nat) with ErrEnrollMalformed ;;
  Ok (fields, sig).

Definition enrollReadFields (b : bytes) (count : nat) : result EnrollError (list bytes) :=
  match read_fields count b with
  | None => Err ErrEnrollMalformed
  | Some (parts, rest) =>
      fail_if negb (bool_decide (rest = [])) with ErrEnrollMalformed ;;
      Ok parts
  end.

(** ** Messages *)

Record EnrollChallenge : Type := mkChallenge {
  ec_ControllerInstanceID : bytes;
  ec_ControllerKeyID : string;
  ec_NodeID : bytes;
  ec_ServerNonce : bytes;
  ec_ProtocolVersions : string;
  ec_ExpiryUnix : Z
}.

Record EnrollRequest : Type := mkRequest {
  er_ChallengeHash : bytes;
  er_AgentNonce : bytes;
  er_AgentPublicKey : bytes;
  er_AgentCredentialVersion : Z;
  er_Token : string;
  er_CapabilityHash : bytes
}.

Record EnrollResult : Type := mkEResult {
  es_ControllerInstanceID : bytes;
  es_ControllerKeyID : string;
  es_NodeID : bytes;
  es_AgentPublicKeyHash : bytes;
  es_AgentCredentialVersion : Z;
  es_EnrollmentResultID : bytes;
  es_ExpiryUnix : Z
}.

Definition challenge_fields (c : EnrollChallenge) : list bytes :=
  [ ec_ControllerInstanceID c; bytes_of (ec_ControllerKeyID c); ec_NodeID c; ec_ServerNonce c;
    bytes_of (ec_ProtocolVersions c); enrollU64 (ec_ExpiryUnix c) ].

Definition request_fields (r : EnrollRequest) : list bytes :=
  [ er_ChallengeHash r; er_AgentNonce r; er_AgentPublicKey r;
    enrollU32 (er_AgentCredentialVersion r); bytes_of (er_Token r); er_CapabilityHash r ].

Definition result_fields (r : EnrollResult) : list bytes :=
  [ es_ControllerInstanceID r; bytes_of (es_ControllerKeyID r); es_NodeID r; es_AgentPublicKeyHash r;
    enrollU32 (es_AgentCredentialVersion r); es_EnrollmentResultID r; enrollU64 (es_ExpiryUnix r) ].

Definition challenge_Canonical (c : EnrollChallenge) : option bytes := enrollEncode (challenge_fields c).
Definition request_Canonical (r : EnrollRequest) : option bytes := enrollEncode (request_fields r).
Definition result_Canonical (r : EnrollResult) : option bytes := enrollEncode (result_fields r).

Definition challenge_SigningBytes (c : EnrollChallenge) : option bytes :=
  enrollSignatureInput EnrollDomain <$> challenge_Canonical c.
Definition request_SigningBytes (r : EnrollRequest) : option bytes :=
  enrollSignatureInput EnrollDomain <$> request_Canonical r.
Definition result_SigningBytes (r : EnrollResult) : option bytes :=
  enrollSignatureInput EnrollDomain <$> result_Canonical r.

Definition request_PublicKey (r : EnrollRequest) : bytes := er_AgentPublicKey r.

(** Length of a part, as the code's width checks write it. *)
Definition width (p : bytes) (n : nat) : bool := bool_decide (length p = n).

Section Parsers.
Context `{Crypto}.

(** [framecrypto.Verify(pub, m.SigningBytes(), sig)], the panic of the encoder
    propagated. *)
Definition check_signature (pub : bytes) (signing : option bytes) (sig : bytes) : result EnrollError unit :=
  match signing with
  | None => Err EnrollPanic
  | Some m => fail_if negb (Verify pub m sig) with ErrEnrollSignature ;; Ok tt
  end.

Definition ParseEnrollChallenge (raw controllerPub : bytes) : result EnrollError EnrollChallenge :=
  fail_if EnrollChallengeMax <? zlen raw with ErrEnrollMalformed ;;
  let* (fields, sig) := enrollSplit raw in
  let* parts := enrollReadFields fields 6 in
  match parts with
  | [p0; p1; p2; p3; p4; p5] =>
      fail_if negb (width p0 EnrollIDSize) || negb (width p2 EnrollIDSize)
              || negb (width p3 EnrollNonceSize) || negb (width p5 8) with ErrEnrollMalformed ;;
      fail_if width p1 0 with ErrEnrollMalformed ;;
      fail_if negb (String.eqb (string_of p4) EnrollVersion) with ErrEnrollMalformed ;;
      let c := mkChallenge p0 (string_of p1) p2 p3 (string_of p4) (be_get p5) in
      let* _ := check_signature controllerPub (challenge_SigningBytes c) sig in
      Ok c
  | _ => Err ErrEnrollMalformed
  end.

Definition ParseEnrollRequest (raw challengeHash : bytes) : result EnrollError EnrollRequest :=
  fail_if EnrollRequestMax <? zlen raw with ErrEnrollMalformed ;;
  let* (fields, sig) := enrollSplit raw in
  let* parts := enrollReadFields fields 6 in
  match parts with
  | [p0; p1; p2; p3; p4; p5] =>
      fail_if negb (width p0 EnrollHashSize) || negb (width p1 EnrollNonceSize)
              || negb (width p2 EnrollKeySize) || negb (width p3 4)
              || negb (width p5 EnrollHashSize) with ErrEnrollMalformed ;;
      fail_if width p4 0 || (MaxTokenBytes <? zlen p4) with ErrEnrollMalformed ;;
      let r := mkRequest p0 p1 p2 (be_get p3) (string_of p4) p5 in
      fail_if er_AgentCredentialVersion r =? 0 with ErrEnrollMalformed ;;
      fail_if negb (bytes_eqb (er_ChallengeHash r) challengeHash) with ErrEnrollChallenge ;;
      let* _ := check_signature (request_PublicKey r) (request_SigningBytes r) sig in
      Ok r
  | _ => Err ErrEnrollMalformed
  end.

Definition ParseEnrollResult (raw controllerPub : bytes) : result EnrollError EnrollResult :=
  fail_if EnrollResultMax <? zlen raw with ErrEnrollMalformed ;;
  let* (fields, sig) := enrollSplit raw in
  let* parts := enrollReadFields fields 7 in
  match parts with
  | [p0; p1; p2; p3; p4; p5; p6] =>
      fail_if negb (width p0 EnrollIDSize) || negb (width p2 EnrollIDSize)
              || negb (width p3 EnrollHashSize) || negb (width p4 4)
              || negb (width p5 EnrollIDSize) || negb (width p6 8) with ErrEnrollMalformed ;;
      fail_if width p1 0 with ErrEnrollMalformed ;;
      let r := mkEResult p0 (string_of p1) p2 p3 (be_get p4) p5 (be_get p6) in
      fail_if es_AgentCredentialVersion r =? 0 with ErrEnrollMalformed ;;
      let* _ := check_signature controllerPub (result_SigningBytes r) sig in
      Ok r
  | _ => Err ErrEnrollMalformed
  end.

End Parsers.

(** ** Specification: well-formed messages *)

Definition challenge_ok (c : EnrollChallenge) : Prop :=
  length (ec_ControllerInstanceID c) = 16%nat ∧ length (ec_NodeID c) = 16%nat ∧
  length (ec_ServerNonce c) = 32%nat ∧ 1 ≤ slen (ec_ControllerKeyID c) ≤ 255 ∧
  ec_ProtocolVersions c = EnrollVersion ∧ in_u64 (ec_ExpiryUnix c).

Definition request_ok (r : EnrollRequest) : Prop :=
  length (er_ChallengeHash r) = 32%nat ∧ length (er_AgentNonce r) = 32%nat ∧
  length (er_AgentPublicKey r) = 32%nat ∧ length (er_CapabilityHash r) = 32%nat ∧
  1 ≤ slen (er_Token r) ≤ 256 ∧ in_u32 (er_AgentCredentialVersion r) ∧ er_AgentCredentialVersion r ≠ 0.

Definition result_ok (r : EnrollResult) : Prop :=
  length (es_ControllerInstanceID r) = 16%nat ∧ length (es_NodeID r) = 16%nat ∧
  length (es_AgentPublicKeyHash r) = 32%nat ∧ length (es_EnrollmentResultID r) = 16%nat ∧
  1 ≤ slen (es_ControllerKeyID r) ≤ 255 ∧ in_u32 (es_AgentCredentialVersion r) ∧
  es_AgentCredentialVersion r ≠ 0 ∧ in_u64 (es_ExpiryUnix r).

(** [raw] is the canonical encoding of [fields] followed by a signature by
    [pub] over the domain and the fields. *)
Definition signed_frame `{Crypto} (pub : bytes) (fields : list bytes) (raw : bytes) : Prop :=
  ∃ sig, raw = put_fields fields ++ sig ∧ Verify pub (bytes_of EnrollDomain ++ put_fields fields) sig = true.

(** ** Lemmas *)

Lemma enrollEncode_ok (fs : list bytes) : Forall fits32 fs → enrollEncode fs = Some (put_fields fs).
Proof.
  induction 1 as [|f fs Hf _ IH]; [done|]. unfold fits32 in Hf. cbn [enrollEncode].
  rewrite (proj2 (Z.ltb_ge _ _)) by lia. by rewrite IH.
Qed.

Lemma check_signature_ok `{Crypto} (pub sig : bytes) (fs : list bytes) :
  Forall fits32 fs →
  check_signature pub (enrollSignatureInput EnrollDomain <$> enrollEncode fs) sig =
    if Verify pub (bytes_of EnrollDomain ++ put_fields fs) sig then Ok tt else Err ErrEnrollSignature.
Proof. intros Hf. rewrite enrollEncode_ok by done. cbn. by destruct (Verify _ _ _). Qed.

Lemma enrollSplit_app (f s : bytes) :
  length s = 64%nat → f ≠ [] → enrollSplit (f ++ s) = Ok (f, s).
Proof.
  intros Hs Hf. unfold enrollSplit, EnrollSigLen. rewrite length_app, Hs.
  rewrite bool_decide_eq_false_2 by lia. replace (length f + 64 - 64)%nat with (length f) by lia.
  rewrite take_app_length, drop_app_length, bool_decide_eq_false_2; [done|].
  destruct f; cbn; [done|lia].
Qed.

Lemma enrollSplit_inv (raw f s : bytes) :
  enrollSplit raw = Ok (f, s) → raw = f ++ s ∧ length s = 64%nat.
Proof.
  unfold enrollSplit, EnrollSigLen. intros Hs. go_inv Hs. bool_prop.
  rewrite take_drop, length_drop. split; [done|lia].
Qed.

Lemma enrollReadFields_iff (b : bytes) (n : nat) (parts : list bytes) :
  enrollReadFields b n = Ok parts ↔ b = put_fields parts ∧ length parts = n ∧ Forall fits32 parts.
Proof.
  unfold enrollReadFields. split.
  - intros Hr. go_inv Hr. bool_prop. subst. rewrite <- (app_nil_r (put_fields _)). by apply read_fields_inv.
  - intros (->&<-&Hf). rewrite <- (app_nil_r (put_fields _)), read_fields_put by done. done.
Qed.

Lemma put_fields_nonempty (fs : list bytes) : fs ≠ [] → put_fields fs ≠ [].
Proof.
  destruct fs as [|f fs]; [done|]. intros _ He. rewrite put_fields_cons in He.
  apply (f_equal length) in He. rewrite length_app, length_put_field in He. cbn in He. lia.
Qed.

(** Total length of an encoding. *)
Lemma zlen_put_fields (fs : list bytes) : zlen (put_fields fs) = foldr (λ f n, 4 + zlen f + n) 0 fs.
Proof.
  induction fs as [|f fs IH]; [done|]. rewrite put_fields_cons, zlen_app, zlen_put_field, IH. done.
Qed.

Ltac fits := unfold enrollU32, enrollU64, slen in *; repeat apply List.Forall_cons; try apply List.Forall_nil;
  unfold fits32; rewrite ?zlen_be_put; unfold zlen in *; lia.

Lemma challenge_fits (c : EnrollChallenge) : challenge_ok c → Forall fits32 (challenge_fields c).
Proof. intros (?&?&?&?&Hv&?). unfold challenge_fields. rewrite Hv. assert (zlen (bytes_of EnrollVersion) = 1) by done. fits. Qed.

Lemma request_fits (r : EnrollRequest) : request_ok r → Forall fits32 (request_fields r).
Proof. intros (?&?&?&?&?&?&?). unfold request_fields. fits. Qed.

Lemma result_fits (r : EnrollResult) : result_ok r → Forall fits32 (result_fields r).
Proof. intros (?&?&?&?&?&?&?&?). unfold result_fields. fits. Qed.

Lemma bytes_of_len1 (s : string) : 1 ≤ slen s → width (bytes_of s) 0 = false.
Proof. unfold slen, zlen, width. intros ?. apply bool_decide_eq_false_2. lia. Qed.

Ltac widths :=
  repeat match goal with
  | |- context [width ?p ?n] =>
      rewrite (bool_decide_eq_true_2 (length p = n) : _ → width p n = true)
        by (unfold enrollU32, enrollU64; rewrite ?length_be_put; done)
  end.

Lemma be_get_u32_range (p : bytes) : length p = 4%nat → in_u32 (be_get p).
Proof. intros Hl. pose proof (be_get_range p) as Hr. unfold zlen in Hr. by rewrite Hl in Hr. Qed.

Lemma be_get_u64_range (p : bytes) : length p = 8%nat → in_u64 (be_get p).
Proof. intros Hl. pose proof (be_get_range p) as Hr. unfold zlen in Hr. by rewrite Hl in Hr. Qed.

#[export] Hint Resolve be_get_u32_range be_get_u64_range : go_len.

Section ParserLemmas.
Context `{Crypto}.

Lemma check_signature_inv (pub sig : bytes) (fs : list bytes) (u : unit) :
  Forall fits32 fs →
  check_signature pub (enrollSignatureInput EnrollDomain <$> enrollEncode fs) sig = Ok u →
  Verify pub (bytes_of EnrollDomain ++ put_fields fs) sig = true.
Proof. intros Hf. rewrite check_signature_ok by done. by destruct (Verify _ _ _). Qed.

(** Peel an accepted parse: the frame, its fields, its signature, its length. *)
Ltac parse_inv Hp :=
  go_inv Hp; bool_prop; unfold width in *; bool_prop;
  match goal with E : enrollSplit _ = Ok _ |- _ => apply enrollSplit_inv in E as [-> ?] end;
  match goal with E : enrollReadFields _ _ = Ok _ |- _ => apply enrollReadFields_iff in E as (->&_&?) end;
  unfold challenge_SigningBytes, challenge_Canonical, request_SigningBytes, request_Canonical,
    result_SigningBytes, result_Canonical, challenge_fields, request_fields, result_fields,
    enrollU32, enrollU64 in *;
  cbn [ec_ControllerInstanceID ec_ControllerKeyID ec_NodeID ec_ServerNonce ec_ProtocolVersions ec_ExpiryUnix
    er_ChallengeHash er_AgentNonce er_AgentPublicKey er_AgentCredentialVersion er_Token er_CapabilityHash
    es_ControllerInstanceID es_ControllerKeyID es_NodeID es_AgentPublicKeyHash es_AgentCredentialVersion
    es_EnrollmentResultID es_ExpiryUnix] in *;
  rewrite ?bytes_of_string_of in *;
  repeat match goal with
  | E : length ?p = ?n |- _ => rewrite (be_put_get_len _ p E : be_put n (be_get p) = p) in *
  end;
  match goal with E : check_signature _ _ _ = Ok _ |- _ => apply check_signature_inv in E; [|done] end;
  match goal with E : zlen _ ≤ _ |- _ => rewrite zlen_app, zlen_put_fields in E; cbn [foldr] in E end;
  (split; [|by eexists]).

Ltac message_ok :=
  unfold slen, zlen, EnrollIDSize, EnrollNonceSize, EnrollHashSize, EnrollKeySize, EnrollChallengeMax,
    EnrollRequestMax, EnrollResultMax, MaxTokenBytes in *;
  rewrite ?bytes_of_string_of in *;
  split_and!; try done; try lia; auto with go_len.

Lemma ParseEnrollChallenge_sound (raw pub : bytes) (c : EnrollChallenge) :
  ParseEnrollChallenge raw pub = Ok c →
  challenge_ok c ∧ signed_frame pub (challenge_fields c) raw.
Proof.
  intros Hp. unfold ParseEnrollChallenge in Hp. parse_inv Hp.
  match goal with E : string_of ?p = EnrollVersion |- _ =>
    assert (zlen p = 1) by (rewrite <- (bytes_of_string_of p), E; done) end.
  unfold challenge_ok. cbn. message_ok.
Qed.

Lemma ParseEnrollRequest_sound (raw hash : bytes) (r : EnrollRequest) :
  ParseEnrollRequest raw hash = Ok r →
  request_ok r ∧ er_ChallengeHash r = hash ∧
  signed_frame (er_AgentPublicKey r) (request_fields r) raw.
Proof.
  intros Hp. cut (request_ok r ∧ signed_frame (er_AgentPublicKey r) (request_fields r) raw).
  { intros [? ?]. split_and!; try done. unfold ParseEnrollRequest in Hp. go_inv Hp. by bool_prop. }
  unfold ParseEnrollRequest in Hp. parse_inv Hp. unfold request_ok. cbn. message_ok.
Qed.

Lemma ParseEnrollResult_sound (raw pub : bytes) (r : EnrollResult) :
  ParseEnrollResult raw pub = Ok r →
  result_ok r ∧ signed_frame pub (result_fields r) raw.
Proof.
  intros Hp. unfold ParseEnrollResult in Hp. parse_inv Hp. unfold result_ok. cbn. message_ok.
Qed.

End ParserLemmas.

(** ** Completeness: every canonical signed frame of a well-formed message is accepted *)

Section Completeness.
Context `{Crypto}.

Lemma signed_frame_inv (pub raw : bytes) (fs : list bytes) :
  signed_frame pub fs raw → ∃ sig, raw = put_fields fs ++ sig ∧ length sig = 64%nat ∧
    Verify pub (bytes_of EnrollDomain ++ put_fields fs) sig = true.
Proof. intros (sig&->&Hv). exists sig. apply Verify_sizes in Hv as Hs. destruct Hs as (_&?&_). done. Qed.

(** What [enrollSplit], [enrollReadFields] and the signature check do on such a frame. *)
Lemma frame_accept (pub sig : bytes) (fs : list bytes) :
  fs ≠ [] → Forall fits32 fs → length sig = 64%nat →
  Verify pub (bytes_of EnrollDomain ++ put_fields fs) sig = true →
  enrollSplit (put_fields fs ++ sig) = Ok (put_fields fs, sig) ∧
  enrollReadFields (put_fields fs) (length fs) = Ok fs ∧
  check_signature pub (enrollSignatureInput EnrollDomain <$> enrollEncode fs) sig = Ok tt ∧
  zlen (put_fields fs ++ sig) = foldr (λ f n, 4 + zlen f + n) 64 fs.
Proof.
  intros Hn Hf Hs Hv. split_and!.
  - apply enrollSplit_app; [done|]. by apply put_fields_nonempty.
  - by apply enrollReadFields_iff.
  - rewrite check_signature_ok by done. by rewrite Hv.
  - rewrite zlen_app, zlen_put_fields. unfold zlen at 2. rewrite Hs.
    clear. induction fs as [|f fs IH]; cbn [foldr]; lia.
Qed.

Ltac accept_frame fits F3 :=
  match goal with Hf : signed_frame _ ?fs _ |- _ =>
    let sig := fresh "sig" in let Hsl := fresh "Hsl" in let Hv := fresh "Hv" in
    let F1 := fresh "F" in let F2 := fresh "F" in let F4 := fresh "F" in
    apply signed_frame_inv in Hf as (sig&->&Hsl&Hv);
    destruct (frame_accept _ sig fs ltac:(done) fits Hsl Hv) as (F1&F2&F3&F4);
    rewrite F4, F1; cbv beta iota;
    let n := eval cbv in (length fs) in change (length fs) with n in F2; rewrite F2
  end.

Lemma ParseEnrollChallenge_complete (raw pub : bytes) (c : EnrollChallenge) :
  challenge_ok c → signed_frame pub (challenge_fields c) raw → ParseEnrollChallenge raw pub = Ok c.
Proof.
  intros Hok Hf. unfold ParseEnrollChallenge. accept_frame (challenge_fits c Hok) F3.
  destruct Hok as (H1&H2&H3&H4&H5&H6).
  rewrite (proj2 (Z.ltb_ge _ _)).
  2: { cbn [foldr challenge_fields]. unfold enrollU64. rewrite zlen_be_put, H5. unfold EnrollChallengeMax.
       change (zlen (bytes_of EnrollVersion)) with 1. unfold zlen, slen, zlen in *. lia. }
  unfold challenge_fields. rewrite bytes_of_len1 by lia. widths. cbn [negb orb].
  rewrite !string_of_bytes_of, H5. cbn [String.eqb negb]. unfold enrollU64. rewrite be_get_u64 by done.
  rewrite <- H5. replace (mkChallenge _ _ _ _ _ _) with c by (by destruct c).
  unfold challenge_SigningBytes, challenge_Canonical. by rewrite F3, H5.
Qed.

Lemma ParseEnrollRequest_complete (raw hash : bytes) (r : EnrollRequest) :
  request_ok r → er_ChallengeHash r = hash → signed_frame (er_AgentPublicKey r) (request_fields r) raw →
  ParseEnrollRequest raw hash = Ok r.
Proof.
  intros Hok Hh Hf. unfold ParseEnrollRequest. accept_frame (request_fits r Hok) F3.
  destruct Hok as (H1&H2&H3&H4&H5&H6&H7).
  rewrite (proj2 (Z.ltb_ge _ _)).
  2: { cbn [foldr request_fields]. unfold enrollU32. rewrite zlen_be_put. unfold EnrollRequestMax, MaxTokenBytes.
       unfold zlen, slen, zlen in *. lia. }
  unfold request_fields. rewrite bytes_of_len1 by lia. widths. cbn [negb orb].
  rewrite (proj2 (Z.ltb_ge _ _)) by (unfold MaxTokenBytes; unfold slen in *; lia).
  rewrite string_of_bytes_of. unfold enrollU32. rewrite be_get_u32 by done.
  replace (mkRequest _ _ _ _ _ _) with r by (by destruct r).
  rewrite (proj2 (Z.eqb_neq _ _)) by done. unfold bytes_eqb. rewrite bool_decide_eq_true_2 by done.
  cbn [negb]. unfold request_PublicKey, request_SigningBytes, request_Canonical. by rewrite F3.
Qed.

Lemma ParseEnrollResult_complete (raw pub : bytes) (r : EnrollResult) :
  result_ok r → signed_frame pub (result_fields r) raw → ParseEnrollResult raw pub = Ok r.
Proof.
  intros Hok Hf. unfold ParseEnrollResult. accept_frame (result_fits r Hok) F3.
  destruct Hok as (H1&H2&H3&H4&H5&H6&H7&H8).
  rewrite (proj2 (Z.ltb_ge _ _)).
  2: { cbn [foldr result_fields]. unfold enrollU32, enrollU64. rewrite !zlen_be_put. unfold EnrollResultMax.
       unfold zlen, slen, zlen in *. lia. }
  unfold result_fields. rewrite bytes_of_len1 by lia. widths. cbn [negb orb].
  rewrite string_of_bytes_of. unfold enrollU32, enrollU64. rewrite be_get_u32, be_get_u64 by done.
  replace (mkEResult _ _ _ _ _ _ _) with r by (by destruct r).
  rewrite (proj2 (Z.eqb_neq _ _)) by done.
  cbn [negb]. unfold result_SigningBytes, result_Canonical. by rewrite F3.
Qed.

End Completeness.

(** ** Properties *)

(** The three parsers accept exactly the canonical frames: [Parse raw] is
    [m] if and only if [m] is well formed (fixed widths, non-empty key id of at
    most 255 bytes, token of 1 to 256 bytes, credential version not zero,
    version string "1") and [raw] is its length-prefixed encoding followed by a
    signature over the domain and the fields by the expected key: the
    Controller's for challenge and result, the presented agent key (and the
    issued challenge hash) for the request. *)
Theorem enroll_parse_exact `{Crypto} (raw pub hash : bytes) :
  (∀ c, ParseEnrollChallenge raw pub = Ok c ↔
     challenge_ok c ∧ signed_frame pub (challenge_fields c) raw) ∧
  (∀ r, ParseEnrollRequest raw hash = Ok r ↔
     request_ok r ∧ er_ChallengeHash r = hash ∧ signed_frame (er_AgentPublicKey r) (request_fields r) raw) ∧
  (∀ r, ParseEnrollResult raw pub = Ok r ↔
     result_ok r ∧ signed_frame pub (result_fields r) raw).
Proof.
  split_and!; intros m; split.
  - apply ParseEnrollChallenge_sound.
  - intros [? ?]. by apply ParseEnrollChallenge_complete.
  - apply ParseEnrollRequest_sound.
  - intros (?&?&?). by apply ParseEnrollRequest_complete.
  - apply ParseEnrollResult_sound.
  - intros [? ?]. by apply ParseEnrollResult_complete.
Qed.

Inductive enroll_message : Type :=
  | MChallenge (c : EnrollChallenge) | MRequest (r : EnrollRequest) | MResult (r : EnrollResult).

Definition message_ok (m : enroll_message) : Prop :=
  match m with MChallenge c => challenge_ok c | MRequest r => request_ok r | MResult r => result_ok r end.

Definition message_fields (m : enroll_message) : list bytes :=
  match m with
  | MChallenge c => challenge_fields c | MRequest r => request_fields r | MResult r => result_fields r
  end.

Definition message_signing (m : enroll_message) : option bytes :=
  match m with
  | MChallenge c => challenge_SigningBytes c
  | MRequest r => request_SigningBytes r
  | MResult r => result_SigningBytes r
  end.

Lemma message_fits (m : enroll_message) : message_ok m → Forall fits32 (message_fields m).
Proof. destruct m; [apply challenge_fits|apply request_fits|apply result_fits]. Qed.

Lemma message_signing_ok (m : enroll_message) : message_ok m →
  message_signing m = Some (bytes_of EnrollDomain ++ put_fields (message_fields m)).
Proof.
  intros Hm%message_fits.
  destruct m; cbn [message_signing message_fields] in *;
    unfold challenge_SigningBytes, challenge_Canonical, request_SigningBytes, request_Canonical,
      result_SigningBytes, result_Canonical; by rewrite enrollEncode_ok.
Qed.

Lemma put_fields_app (fs gs : list bytes) : put_fields (fs ++ gs) = put_fields fs ++ put_fields gs.
Proof.
  induction fs as [|f fs IH]; [done|]. cbn [app]. rewrite !put_fields_cons, IH. by rewrite app_assoc.
Qed.

Lemma put_fields_prefix (n : nat) (fs gs : list bytes) :
  (n ≤ length fs)%nat → (n ≤ length gs)%nat → Forall fits32 fs → Forall fits32 gs →
  put_fields fs = put_fields gs → take n fs = take n gs.
Proof.
  intros Hf Hg Ff Fg He. rewrite <- (take_drop n fs), <- (take_drop n gs), !put_fields_app in He.
  apply put_fields_inj in He as [He _]; try done; [|by apply Forall_take..].
  rewrite !length_take. lia.
Qed.

(** Each field list determines its message. *)
Definition decode_as (m : enroll_message) (l : list bytes) : enroll_message :=
  let p := λ i, nth i l [] in
  match m with
  | MChallenge _ => MChallenge (mkChallenge (p 0) (string_of (p 1)) (p 2) (p 3) (string_of (p 4)) (be_get (p 5)))
  | MRequest _ => MRequest (mkRequest (p 0) (p 1) (p 2) (be_get (p 3)) (string_of (p 4)) (p 5))
  | MResult _ => MResult (mkEResult (p 0) (string_of (p 1)) (p 2) (p 3) (be_get (p 4)) (p 5) (be_get (p 6)))
  end%nat.

Lemma decode_as_fields (m : enroll_message) : message_ok m → decode_as m (message_fields m) = m.
Proof.
  destruct m as [[]|[]|[]]; cbn; unfold enrollU32, enrollU64; intros Hm; destruct Hm; destruct_and?;
    cbn in *; rewrite ?string_of_bytes_of, ?be_get_u32, ?be_get_u64 by (unfold in_u32, in_u64 in *; lia); done.
Qed.

(** Field widths tell the three kinds apart. *)
Definition field_width (m : enroll_message) (i : nat) : nat := length (nth i (message_fields m) []).

Lemma message_widths (m : enroll_message) : message_ok m →
  match m with
  | MChallenge _ => field_width m 0 = 16 ∧ field_width m 4 = 1
  | MRequest _ => field_width m 0 = 32
  | MResult _ => field_width m 0 = 16 ∧ field_width m 4 = 4
  end%nat.
Proof.
  destruct m as [c|r|r]; unfold field_width; cbn; intros Hm; destruct Hm; destruct_and?; try done.
  - match goal with E : _ = EnrollVersion |- _ => rewrite E end. done.
Qed.

Lemma message_fields_inj (m1 m2 : enroll_message) :
  message_ok m1 → message_ok m2 → take 5 (message_fields m1) = take 5 (message_fields m2) →
  (∀ l, decode_as m1 l = decode_as m2 l) ∧ length (message_fields m1) = length (message_fields m2).
Proof.
  intros H1%message_widths H2%message_widths He.
  assert (W : ∀ i, (i < 5)%nat → field_width m1 i = field_width m2 i).
  { intros i Hi. unfold field_width. f_equal.
    rewrite <- (take_drop 5 (message_fields m1)), <- (take_drop 5 (message_fields m2)), He.
    rewrite !app_nth1; [done|rewrite length_take; destruct m2; cbn; lia..]. }
  pose proof (W 0%nat ltac:(lia)). pose proof (W 4%nat ltac:(lia)).
  destruct m1, m2; destruct_and?; try done; exfalso; lia.
Qed.

Lemma message_encoding_inj (m1 m2 : enroll_message) :
  message_ok m1 → message_ok m2 → put_fields (message_fields m1) = put_fields (message_fields m2) → m1 = m2.
Proof.
  intros H1 H2 He.
  assert (P : take 5 (message_fields m1) = take 5 (message_fields m2)).
  { apply put_fields_prefix; auto using message_fits; destruct m1, m2; cbn; lia. }
  apply message_fields_inj in P as [Hd Hl]; [|done..].
  rewrite <- (app_nil_r (put_fields (message_fields m1))), <- (app_nil_r (put_fields (message_fields m2))) in He.
  apply put_fields_inj in He as [He _]; auto using message_fits.
  by rewrite <- (decode_as_fields m1 H1), <- (decode_as_fields m2 H2), Hd, He.
Qed.

(** No signature can be reused for another message.  Two well-formed
    enrollment messages of any kind with the same signing bytes are the same
    message (a challenge is never a request or a result), and the signing bytes
    of an enrollment message never equal the signature input of a control
    envelope. *)
Theorem enroll_signing_injective (m1 m2 : enroll_message) (headerBytes payloadHash : bytes) :
  message_ok m1 → message_ok m2 →
  (message_signing m1 = message_signing m2 → m1 = m2) ∧
  message_signing m1 ≠ Some (EnvelopeSignatureInput (bytes_of ProtocolDomain) headerBytes payloadHash).
Proof.
  intros H1 H2. rewrite !message_signing_ok by done. split.
  - intros He. apply (inj Some) in He. apply message_encoding_inj; [done..|]. by apply app_inv_head in He.
  - intros He. apply (inj Some) in He. apply (f_equal (take 9)) in He. done.
Qed.

(** An honest exchange completes.  For well-formed messages, a Controller
    key and an agent key whose public half is the one presented, signing the
    signing bytes succeeds (the encoder does not panic), and the receiver of
    each frame parses back the very message sent. *)
Theorem enroll_handshake_completes `{CryptoLaws} (kc ka : bytes)
    (c : EnrollChallenge) (r : EnrollRequest) (s : EnrollResult) :
  length kc = PrivateKeySize → length ka = PrivateKeySize →
  challenge_ok c → request_ok r → result_ok s → er_AgentPublicKey r = ed25519_public ka →
  ∃ mc mr ms cc cr cs, challenge_SigningBytes c = Some mc ∧ request_SigningBytes r = Some mr ∧
    result_SigningBytes s = Some ms ∧ challenge_Canonical c = Some cc ∧ request_Canonical r = Some cr ∧
    result_Canonical s = Some cs ∧
    ParseEnrollChallenge (cc ++ ed25519_sign kc mc) (ed25519_public kc) = Ok c ∧
    ParseEnrollRequest (cr ++ ed25519_sign ka mr) (er_ChallengeHash r) = Ok r ∧
    ParseEnrollResult (cs ++ ed25519_sign kc ms) (ed25519_public kc) = Ok s.
Proof.
  intros Hkc Hka Hc Hr Hs Hpub.
  pose proof (message_signing_ok (MChallenge c) Hc) as Mc. pose proof (message_signing_ok (MRequest r) Hr) as Mr.
  pose proof (message_signing_ok (MResult s) Hs) as Ms.
  assert (Fr : ∀ k fs, length k = PrivateKeySize →
    signed_frame (ed25519_public k) fs (put_fields fs ++ ed25519_sign k (bytes_of EnrollDomain ++ put_fields fs))).
  { intros k fs Hk. eexists; split; [done|]. apply Verify_Sign. unfold Sign. by rewrite Hk. }
  eexists _, _, _, _, _, _. split_and!; [exact Mc|exact Mr|exact Ms|..].
  1-3: by apply enrollEncode_ok, (message_fits (MChallenge _)) || by apply enrollEncode_ok, (message_fits (MRequest _))
    || by apply enrollEncode_ok, (message_fits (MResult _)).
  - apply ParseEnrollChallenge_complete; [done|]. by apply Fr.
  - apply ParseEnrollRequest_complete; [done..|]. rewrite Hpub. by apply Fr.
  - apply ParseEnrollResult_complete; [done|]. by apply Fr.
Qed.

(** ** A concrete exchange *)

Definition sample_challenge : EnrollChallenge :=
  mkChallenge (repeat Byte.x01 16) "ctl-key" (repeat Byte.x02 16) (repeat Byte.x05 32) "1" 1700000000.
Definition sample_request : EnrollRequest :=
  mkRequest (repeat Byte.x06 32) (repeat Byte.x09 32) (drop 32 sample_key) 1 "token" (repeat Byte.x0a 32).
Definition sample_result : EnrollResult :=
  mkEResult (repeat Byte.x01 16) "ctl-key" (repeat Byte.x02 16) (repeat Byte.x0b 32) 1
    (repeat Byte.x0c 16) 1700000000.

Lemma sample_challenge_ok : challenge_ok sample_challenge.
Proof. unfold challenge_ok. split_and!; try done; vm_compute; congruence. Qed.
Lemma sample_request_ok : request_ok sample_request.
Proof. unfold request_ok. split_and!; try done; vm_compute; congruence. Qed.
Lemma sample_result_ok : result_ok sample_result.
Proof. unfold result_ok. split_and!; try done; vm_compute; congruence. Qed.

Lemma enroll_signing_injective_witness :
  message_signing (MChallenge sample_challenge) ≠
    Some (EnvelopeSignatureInput (bytes_of ProtocolDomain) [] []).
Proof.
  refine (proj2 (enroll_signing_injective (MChallenge sample_challenge) (MRequest sample_request) [] [] _ _)).
  - apply sample_challenge_ok.
  - apply sample_request_ok.
Defined.

Lemma enroll_handshake_completes_witness :
  ∃ mc mr ms cc cr cs, challenge_SigningBytes sample_challenge = Some mc ∧
    request_SigningBytes sample_request = Some mr ∧ result_SigningBytes sample_result = Some ms ∧
    challenge_Canonical sample_challenge = Some cc ∧ request_Canonical sample_request = Some cr ∧
    result_Canonical sample_result = Some cs ∧
    @ParseEnrollChallenge toy_crypto (cc ++ @ed25519_sign toy_crypto sample_key mc)
      (@ed25519_public toy_crypto sample_key) = Ok sample_challenge ∧
    @ParseEnrollRequest toy_crypto (cr ++ @ed25519_sign toy_crypto sample_key mr)
      (er_ChallengeHash sample_request) = Ok sample_request ∧
    @ParseEnrollResult toy_crypto (cs ++ @ed25519_sign toy_crypto sample_key ms)
      (@ed25519_public toy_crypto sample_key) = Ok sample_result.
Proof.
  refine (@enroll_handshake_completes toy_crypto toy_crypto_laws sample_key sample_key
    sample_challenge sample_request sample_result _ _ _ _ _ _); try reflexivity.
  - apply sample_challenge_ok.
  - apply sample_request_ok.
  - apply sample_result_ok.
Defined.
