(* ===== verification/Session.v ===== *)
(** * Enrollment challenges and the session handshake transcript

    [src/internal/security/challenge.go]: the Controller's bounded cache of issued
    enrollment challenges, and the three signed messages that establish a control
    session. *)

From Stdlib Require Import ZArith Lia Strings.Byte.
From stdpp Require Import base tactics list sets strings option gmap.
From S2P Require Import Prelude GoStd Frame Enrollment.

Open Scope Z_scope.

(** ** The transcript *)

Definition SessionDomain : string := "AntiNAT-Session-v1".
Definition SessionNonceSize : nat := 32.
Definition SessionHelloMax : Z := 7 * 4 + 16 + 16 + 4 + 32 + 32 + 8 + 1 + 64.
Definition SessionWelcomeMax : Z := 8 * 4 + 16 + 255 + 16 + 32 + 32 + 8 + 255 + 8 + 64.
Definition SessionFinalMax : Z := 5 * 4 + 16 + 16 + 32 + 8 + 255 + 64.

Inductive SessionError : Type :=
  | SesTooLarge | SesShort | SesEmpty | SesFields | SesMalformed | SesZeroCredential | SesEmptyID | SesSignature.

Record SessionHello : Type := mkHello {
  sh_ControllerInstanceID : bytes; sh_NodeID : bytes; sh_AgentCredentialVer : Z; sh_AgentPublicKey : bytes; sh_AgentNonce : bytes;
  sh_AgentMaxEpoch : Z; sh_ProtocolVersions : string
}.
Record SessionWelcome : Type := mkWelcome {
  sw_ControllerInstanceID : bytes; sw_ControllerKeyID : string; sw_NodeID : bytes; sw_AgentNonce : bytes; sw_ServerNonce : bytes;
  sw_ConnectionEpoch : Z; sw_SessionID : string; sw_ExpiryUnix : Z
}.
Record SessionFinal : Type := mkFinal {
  sf_ControllerInstanceID : bytes; sf_NodeID : bytes; sf_ServerNonce : bytes; sf_ConnectionEpoch : Z; sf_SessionID : string
}.

(** [strings.TrimRight(string(h.NodeID[:]), "\x00")] *)
Fixpoint trim_nul (b : bytes) : bytes :=
  match b with
  | [] => []
  | c :: b' => match trim_nul b' with [] => if bool_decide (c = Byte.x00) then [] else [c] | t => c :: t end
  end.
Definition NodeIDString (h : SessionHello) : string := string_of (trim_nul (sh_NodeID h)).

(** [sessionEncode] writes [uint32(len(f))] before each field. *)
Definition sessionEncode (fields : list bytes) : bytes := put_fields fields.
Definition sessionU32 (v : Z) : bytes := be_put 4 v.
Definition sessionU64 (v : Z) : bytes := be_put 8 v.

Definition hello_fields (h : SessionHello) : list bytes :=
  [sh_ControllerInstanceID h; sh_NodeID h; sessionU32 (sh_AgentCredentialVer h); sh_AgentPublicKey h; sh_AgentNonce h;
   sessionU64 (sh_AgentMaxEpoch h); bytes_of (sh_ProtocolVersions h)].
Definition welcome_fields (w : SessionWelcome) : list bytes :=
  [sw_ControllerInstanceID w; bytes_of (sw_ControllerKeyID w); sw_NodeID w; sw_AgentNonce w; sw_ServerNonce w;
   sessionU64 (sw_ConnectionEpoch w); bytes_of (sw_SessionID w); sessionU64 (sw_ExpiryUnix w)].
Definition final_fields (f : SessionFinal) : list bytes :=
  [sf_ControllerInstanceID f; sf_NodeID f; sf_ServerNonce f; sessionU64 (sf_ConnectionEpoch f); bytes_of (sf_SessionID f)].

Definition hello_Canonical (h : SessionHello) : bytes := sessionEncode (hello_fields h).
Definition welcome_Canonical (w : SessionWelcome) : bytes := sessionEncode (welcome_fields w).
Definition final_Canonical (f : SessionFinal) : bytes := sessionEncode (final_fields f).

Definition splitFields (raw : bytes) : result SessionError (bytes * bytes) :=
  fail_if bool_decide (length raw < 64)%nat with SesShort ;;
  let sig := drop (length raw - 64) raw in
  let fields := take (length raw - 64) raw in
  fail_if bool_decide (length fields = 0%nat) with SesEmpty ;;
  Ok (fields, sig).

Definition readFields (b : bytes) (count : nat) : result SessionError (list bytes) :=
  match read_fields count b with
  | None => Err SesFields
  | Some (parts, rest) => fail_if negb (bool_decide (rest = [])) with SesFields ;; Ok parts
  end.

Section Transcript.
Context `{Crypto}.

Definition sessionSign (priv : bytes) (domain : string) (fields : bytes) : result FrameCryptoError bytes := Sign priv (bytes_of domain ++ fields).
Definition sessionVerify (pub : bytes) (domain : string) (fields sig : bytes) : bool := Verify pub (bytes_of domain ++ fields) sig.

Definition hello_Sign (h : SessionHello) (priv : bytes) := sessionSign priv SessionDomain (hello_Canonical h).
Definition welcome_Sign (w : SessionWelcome) (priv : bytes) := sessionSign priv SessionDomain (welcome_Canonical w).
Definition final_Sign (f : SessionFinal) (priv : bytes) := sessionSign priv SessionDomain (final_Canonical f).

Definition ParseSessionHello (raw : bytes) : result SessionError SessionHello :=
  fail_if SessionHelloMax <? zlen raw with SesTooLarge ;;
  let* (fields, sig) := splitFields raw in
  let* parts := readFields fields 7 in
  match parts with
  | [p0; p1; p2; p3; p4; p5; p6] =>
      fail_if negb (width p0 16) || negb (width p1 16) || negb (width p2 4) || negb (width p3 32) || negb (width p4 SessionNonceSize) || negb (width p5 8)
        with SesMalformed ;;
      let h := mkHello p0 p1 (be_get p2) p3 p4 (be_get p5) (string_of p6) in
      fail_if sh_AgentCredentialVer h =? 0 with SesZeroCredential ;;
      fail_if negb (sessionVerify (sh_AgentPublicKey h) SessionDomain (hello_Canonical h) sig) with SesSignature ;;
      Ok h
  | _ => Err SesFields
  end.

Definition ParseSessionWelcome (raw controllerPub : bytes) : result SessionError SessionWelcome :=
  fail_if SessionWelcomeMax <? zlen raw with SesTooLarge ;;
  let* (fields, sig) := splitFields raw in
  let* parts := readFields fields 8 in
  match parts with
  | [p0; p1; p2; p3; p4; p5; p6; p7] =>
      fail_if negb (width p0 16) || negb (width p2 16) || negb (width p3 SessionNonceSize) || negb (width p4 SessionNonceSize) || negb (width p5 8)
        || negb (width p7 8) with SesMalformed ;;
      let w := mkWelcome p0 (string_of p1) p2 p3 p4 (be_get p5) (string_of p6) (be_get p7) in
      fail_if String.eqb (sw_ControllerKeyID w) "" || String.eqb (sw_SessionID w) "" with SesEmptyID ;;
      fail_if negb (sessionVerify controllerPub SessionDomain (welcome_Canonical w) sig) with SesSignature ;;
      Ok w
  | _ => Err SesFields
  end.

Definition ParseSessionFinal (raw agentPub : bytes) : result SessionError SessionFinal :=
  fail_if SessionFinalMax <? zlen raw with SesTooLarge ;;
  let* (fields, sig) := splitFields raw in
  let* parts := readFields fields 5 in
  match parts with
  | [p0; p1; p2; p3; p4] =>
      fail_if negb (width p0 16) || negb (width p1 16) || negb (width p2 SessionNonceSize) || negb (width p3 8) with SesMalformed ;;
      let f := mkFinal p0 p1 p2 (be_get p3) (string_of p4) in
      fail_if String.eqb (sf_SessionID f) "" with SesEmptyID ;;
      fail_if negb (sessionVerify agentPub SessionDomain (final_Canonical f) sig) with SesSignature ;;
      Ok f
  | _ => Err SesFields
  end.
End Transcript.

(** ** Well-formed messages *)

Definition hello_ok (h : SessionHello) : Prop :=
  length (sh_ControllerInstanceID h) = 16%nat ∧ length (sh_NodeID h) = 16%nat ∧ in_u32 (sh_AgentCredentialVer h) ∧ sh_AgentCredentialVer h ≠ 0 ∧
  length (sh_AgentPublicKey h) = 32%nat ∧ length (sh_AgentNonce h) = 32%nat ∧ in_u64 (sh_AgentMaxEpoch h) ∧
  zlen (put_fields (hello_fields h)) + 64 ≤ SessionHelloMax.
Definition welcome_ok (w : SessionWelcome) : Prop :=
  length (sw_ControllerInstanceID w) = 16%nat ∧ sw_ControllerKeyID w ≠ ""%string ∧ length (sw_NodeID w) = 16%nat ∧ length (sw_AgentNonce w) = 32%nat ∧
  length (sw_ServerNonce w) = 32%nat ∧ in_u64 (sw_ConnectionEpoch w) ∧ sw_SessionID w ≠ ""%string ∧ in_u64 (sw_ExpiryUnix w) ∧
  zlen (put_fields (welcome_fields w)) + 64 ≤ SessionWelcomeMax.
Definition final_ok (f : SessionFinal) : Prop :=
  length (sf_ControllerInstanceID f) = 16%nat ∧ length (sf_NodeID f) = 16%nat ∧ length (sf_ServerNonce f) = 32%nat ∧ in_u64 (sf_ConnectionEpoch f) ∧
  sf_SessionID f ≠ ""%string ∧ zlen (put_fields (final_fields f)) + 64 ≤ SessionFinalMax.

(** A frame of the transcript: the fields, then a signature of [pub]. *)
Definition session_frame `{Crypto} (pub : bytes) (fields : list bytes) (raw : bytes) : Prop :=
  ∃ sig, raw = put_fields fields ++ sig ∧ Verify pub (bytes_of SessionDomain ++ put_fields fields) sig = true.

(** ** Lemmas *)

Lemma splitFields_iff (raw f s : bytes) : splitFields raw = Ok (f, s) ↔ raw = f ++ s ∧ length s = 64%nat ∧ f ≠ [].
Proof.
  unfold splitFields. split.
  - intros Hs. go_inv Hs. bool_prop. rewrite take_drop, length_drop. split_and!; [done|lia|]. intros Hnil. rewrite Hnil in *. done.
  - intros (-> & Hs & Hf). rewrite length_app, Hs. rewrite bool_decide_eq_false_2 by lia. replace (length f + 64 - 64)%nat with (length f) by lia.
    rewrite take_app_length, drop_app_length, bool_decide_eq_false_2; [done|]. destruct f; cbn; [done|lia].
Qed.

Lemma readFields_iff (b : bytes) (n : nat) (parts : list bytes) :
  readFields b n = Ok parts ↔ b = put_fields parts ∧ length parts = n ∧ Forall fits32 parts.
Proof.
  unfold readFields. split.
  - intros Hr. go_inv Hr. bool_prop. subst. rewrite <- (app_nil_r (put_fields _)). by apply read_fields_inv.
  - intros (->&<-&Hf). rewrite <- (app_nil_r (put_fields _)), read_fields_put by done. done.
Qed.

Section TranscriptLemmas.
Context `{Crypto}.

Ltac session_inv Hp :=
  go_inv Hp; bool_prop; unfold width in *; bool_prop;
  match goal with E : splitFields _ = Ok _ |- _ => apply splitFields_iff in E as (-> & ? & _) end;
  match goal with E : readFields _ _ = Ok _ |- _ => apply readFields_iff in E as (->&_&?) end;
  unfold hello_Canonical, welcome_Canonical, final_Canonical, sessionEncode, hello_fields, welcome_fields, final_fields, sessionVerify,
    sessionU32, sessionU64 in *;
  cbn [sh_ControllerInstanceID sh_NodeID sh_AgentCredentialVer sh_AgentPublicKey sh_AgentNonce sh_AgentMaxEpoch sh_ProtocolVersions
    sw_ControllerInstanceID sw_ControllerKeyID sw_NodeID sw_AgentNonce sw_ServerNonce sw_ConnectionEpoch sw_SessionID sw_ExpiryUnix
    sf_ControllerInstanceID sf_NodeID sf_ServerNonce sf_ConnectionEpoch sf_SessionID] in *;
  rewrite ?bytes_of_string_of in *;
  repeat match goal with
  | E : length ?p = ?n |- _ => rewrite (be_put_get_len _ p E : be_put n (be_get p) = p) in *
  end;
  match goal with E : zlen (_ ++ ?s) ≤ _, E2 : length ?s = 64%nat |- _ => rewrite zlen_app in E; unfold zlen in E at 2; rewrite E2 in E end.

Ltac session_ok :=
  unfold hello_ok, welcome_ok, final_ok, hello_fields, welcome_fields, final_fields, sessionU32, sessionU64; cbn;
  rewrite ?bytes_of_string_of in *;
  repeat match goal with E : length ?p = ?n |- _ => rewrite (be_put_get_len _ p E : be_put n (be_get p) = p) in * end;
  split_and!; auto with go_len; try lia; by apply String.eqb_neq.

Lemma ParseSessionHello_sound (raw : bytes) (h : SessionHello) :
  ParseSessionHello raw = Ok h → hello_ok h ∧ session_frame (sh_AgentPublicKey h) (hello_fields h) raw.
Proof. intros Hp. unfold ParseSessionHello in Hp. session_inv Hp. split; [|by eexists]. session_ok. Qed.

Lemma ParseSessionWelcome_sound (raw pub : bytes) (w : SessionWelcome) :
  ParseSessionWelcome raw pub = Ok w → welcome_ok w ∧ session_frame pub (welcome_fields w) raw.
Proof. intros Hp. unfold ParseSessionWelcome in Hp. session_inv Hp. split; [|by eexists]. session_ok. Qed.

Lemma ParseSessionFinal_sound (raw pub : bytes) (f : SessionFinal) :
  ParseSessionFinal raw pub = Ok f → final_ok f ∧ session_frame pub (final_fields f) raw.
Proof. intros Hp. unfold ParseSessionFinal in Hp. session_inv Hp. split; [|by eexists]. session_ok. Qed.
End TranscriptLemmas.

Section TranscriptComplete.
Context `{Crypto}.

Lemma session_fits (fs : list bytes) (n : Z) : zlen (put_fields fs) + 64 ≤ n → n ≤ 2 ^ 32 → Forall fits32 fs.
Proof.
  intros Hl Hn. assert (H0 : zlen (put_fields fs) < 2 ^ 32) by lia. clear Hl Hn. induction fs as [|f fs IH]; [done|].
  rewrite zlen_put_fields in *. cbn [foldr] in H0. assert (0 ≤ foldr (λ f n, 4 + zlen f + n) 0 fs).
  { clear. induction fs as [|g fs IH]; cbn; [lia|]. pose proof (zlen_nonneg g). lia. }
  pose proof (zlen_nonneg f). constructor; [unfold fits32; lia|]. apply IH. rewrite ?zlen_put_fields. lia.
Qed.

(** What the parsers' common part does on a frame of the transcript. *)
Lemma session_accept (pub raw : bytes) (fs : list bytes) (max : Z) :
  fs ≠ [] → session_frame pub fs raw → zlen (put_fields fs) + 64 ≤ max → max ≤ 2 ^ 32 →
  ∃ sig, (max <? zlen raw) = false ∧ splitFields raw = Ok (put_fields fs, sig) ∧ readFields (put_fields fs) (length fs) = Ok fs ∧
    Verify pub (bytes_of SessionDomain ++ put_fields fs) sig = true.
Proof.
  intros Hne (sig & -> & Hv) Hl Hmax. pose proof (Verify_sizes _ _ _ Hv) as (_ & Hs & _). exists sig. split_and!; [|..|done].
  - apply Z.ltb_ge. rewrite zlen_app. unfold zlen at 2. rewrite Hs. exact Hl.
  - apply splitFields_iff. split_and!; [done|done|by apply put_fields_nonempty].
  - apply readFields_iff. split_and!; [done|done|]. by eapply session_fits.
Qed.

Ltac session_complete fs max :=
  match goal with Hf : session_frame _ _ _ |- _ =>
    destruct (session_accept _ _ fs max ltac:(done) Hf ltac:(done) ltac:(vm_compute; discriminate)) as (sig & -> & -> & Hr & Hv);
    cbv beta iota zeta; let n := eval cbv in (length fs) in change (length fs) with n in Hr; rewrite Hr; cbv beta iota zeta end.

Lemma ParseSessionHello_complete (raw : bytes) (h : SessionHello) :
  hello_ok h → session_frame (sh_AgentPublicKey h) (hello_fields h) raw → ParseSessionHello raw = Ok h.
Proof.
  intros (H1 & H2 & H3 & H4 & H5 & H6 & H7 & H8) Hf. unfold ParseSessionHello. session_complete (hello_fields h) SessionHelloMax.
  unfold hello_fields, width, sessionU32, sessionU64. rewrite !bool_decide_eq_true_2 by (rewrite ?length_be_put; done). cbn [negb orb].
  rewrite string_of_bytes_of, be_get_u32, be_get_u64 by done. replace (mkHello _ _ _ _ _ _ _) with h by by destruct h.
  rewrite (proj2 (Z.eqb_neq _ _)) by done. unfold sessionVerify, hello_Canonical, sessionEncode. by rewrite Hv.
Qed.

Lemma ParseSessionWelcome_complete (raw pub : bytes) (w : SessionWelcome) :
  welcome_ok w → session_frame pub (welcome_fields w) raw → ParseSessionWelcome raw pub = Ok w.
Proof.
  intros (H1 & H2 & H3 & H4 & H5 & H6 & H7 & H8 & H9) Hf. unfold ParseSessionWelcome. session_complete (welcome_fields w) SessionWelcomeMax.
  unfold welcome_fields, width, sessionU64. rewrite !bool_decide_eq_true_2 by (rewrite ?length_be_put; done). cbn [negb orb].
  rewrite !string_of_bytes_of, !be_get_u64 by done. replace (mkWelcome _ _ _ _ _ _ _ _) with w by by destruct w.
  rewrite (proj2 (String.eqb_neq _ _)) by done. rewrite (proj2 (String.eqb_neq _ _)) by done. cbn [orb].
  unfold sessionVerify, welcome_Canonical, sessionEncode. by rewrite Hv.
Qed.

Lemma ParseSessionFinal_complete (raw pub : bytes) (f : SessionFinal) :
  final_ok f → session_frame pub (final_fields f) raw → ParseSessionFinal raw pub = Ok f.
Proof.
  intros (H1 & H2 & H3 & H4 & H5 & H6) Hf. unfold ParseSessionFinal. session_complete (final_fields f) SessionFinalMax.
  unfold final_fields, width, sessionU64. rewrite !bool_decide_eq_true_2 by (rewrite ?length_be_put; done). cbn [negb orb].
  rewrite !string_of_bytes_of, be_get_u64 by done. replace (mkFinal _ _ _ _ _) with f by by destruct f.
  rewrite (proj2 (String.eqb_neq _ _)) by done. unfold sessionVerify, final_Canonical, sessionEncode. by rewrite Hv.
Qed.

(** The three parsers of the session transcript accept exactly the canonical
    frames: a parse yields [m] if and only if [m] is well formed and the bytes are its
    field encoding followed by a signature over the session domain and the fields, by
    the presented agent key (hello), the pinned Controller key (welcome) or the agent
    key (final). *)
Theorem session_parse_exact (raw pub : bytes) :
  (∀ h, ParseSessionHello raw = Ok h ↔ hello_ok h ∧ session_frame (sh_AgentPublicKey h) (hello_fields h) raw) ∧
  (∀ w, ParseSessionWelcome raw pub = Ok w ↔ welcome_ok w ∧ session_frame pub (welcome_fields w) raw) ∧
  (∀ f, ParseSessionFinal raw pub = Ok f ↔ final_ok f ∧ session_frame pub (final_fields f) raw).
Proof.
  split_and!; intros m; split.
  - apply ParseSessionHello_sound.
  - intros []. by apply ParseSessionHello_complete.
  - apply ParseSessionWelcome_sound.
  - intros []. by apply ParseSessionWelcome_complete.
  - apply ParseSessionFinal_sound.
  - intros []. by apply ParseSessionFinal_complete.
Qed.
End TranscriptComplete.

(** ** The challenge cache *)

Inductive ChallengeError : Type :=
  | ErrChallengeUnknown | ErrChallengeExpired | ErrChallengeReplayed | ErrChallengeCacheFull | ErrChallengeNodeID | ErrChallengeSign | ChallengePanic.

Record challengeEntry : Type := mkEntry { ce_nodeID : string; ce_instance : bytes; ce_expiry : Z; ce_used : bool }.

(** Times are instants in nanoseconds. *)
Record ChallengeManager : Type := mkManager { cm_ttl : Z; cm_max : Z; cm_cache : gmap bytes challengeEntry }.

Definition nodeIDBytes16 (nodeID : string) : result ChallengeError bytes :=
  let b := bytes_of nodeID in
  fail_if 16 <? zlen b with ErrChallengeNodeID ;; Ok (b ++ repeat Byte.x00 (16 - length b)).

Section Challenges.
Context `{Crypto}.

Definition with_cache (m : ChallengeManager) (c : gmap bytes challengeEntry) : ChallengeManager := mkManager (cm_ttl m) (cm_max m) c.

(** The eviction at [now], when the cache is bounded. *)
Definition evict (now : Z) (m : ChallengeManager) : gmap bytes challengeEntry := filter (λ x, now < ce_expiry x.2) (cm_cache m).

(** [t1], [t2], [t3] are the clock's successive readings and [nonce] the random bytes;
    [signer] may fail. *)
Definition Issue (signer : bytes → option bytes) (t1 t2 t3 : Z) (nonce instance : bytes) (keyID nodeID : string) (m : ChallengeManager)
    : result ChallengeError (EnrollChallenge * bytes) * ChallengeManager :=
  match nodeIDBytes16 nodeID with
  | Err e => (Err e, m)
  | Ok node =>
      let m1 := if 0 <? cm_max m then with_cache m (evict t1 m) else m in
      if (0 <? cm_max m) && (cm_max m <=? Z.of_nat (size (cm_cache m1))) then (Err ErrChallengeCacheFull, m1)
      else
        let ch := mkChallenge instance keyID node nonce EnrollVersion (((t2 + cm_ttl m) / 1000000000) mod 2 ^ 64) in
        match challenge_Canonical ch, challenge_SigningBytes ch with
        | Some canonical, Some signing =>
            let hash := sha256 canonical in
            let m2 := with_cache m1 (<[hash := mkEntry nodeID instance (t3 + cm_ttl m) false]> (cm_cache m1)) in
            match signer signing with
            | None => (Err ErrChallengeSign, with_cache m2 (delete hash (cm_cache m2)))
            | Some sig => (Ok (ch, canonical ++ sig), m2)
            end
        | _, _ => (Err ChallengePanic, m1)
        end
  end.

Definition ValidateAndConsume (now : Z) (hash : bytes) (m : ChallengeManager) : result ChallengeError string * ChallengeManager :=
  match cm_cache m !! hash with
  | None => (Err ErrChallengeUnknown, m)
  | Some entry =>
      if negb (now <? ce_expiry entry) then (Err ErrChallengeExpired, with_cache m (delete hash (cm_cache m)))
      else if ce_used entry then (Err ErrChallengeReplayed, m)
      else (Ok (ce_nodeID entry),
            with_cache m (<[hash := mkEntry (ce_nodeID entry) (ce_instance entry) (ce_expiry entry) true]> (cm_cache m)))
  end.

Inductive chop : Type :=
  | ChIssue (signer : bytes → option bytes) (t1 t2 t3 : Z) (nonce instance : bytes) (keyID nodeID : string)
  | ChConsume (now : Z) (hash : bytes).
Definition chstep (m : ChallengeManager) (o : chop) : ChallengeManager :=
  match o with
  | ChIssue signer t1 t2 t3 nonce instance keyID nodeID => (Issue signer t1 t2 t3 nonce instance keyID nodeID m).2
  | ChConsume now hash => (ValidateAndConsume now hash m).2
  end.
Definition chrun (ops : list chop) (m : ChallengeManager) : ChallengeManager := foldl chstep m ops.

(** The operation issues the challenge with this hash. *)
Definition issues (hash : bytes) (m : ChallengeManager) (o : chop) : Prop :=
  match o with
  | ChIssue signer t1 t2 t3 nonce instance keyID nodeID =>
      ∃ ch raw canonical, (Issue signer t1 t2 t3 nonce instance keyID nodeID m).1 = Ok (ch, raw) ∧ challenge_Canonical ch = Some canonical ∧ sha256 canonical = hash
  | ChConsume _ _ => False
  end.

(** A hash that cannot be consumed: unknown or used. *)
Definition spent (hash : bytes) (m : ChallengeManager) : Prop := ∀ e, cm_cache m !! hash = Some e → ce_used e = true.

Lemma spent_evict hash t m : spent hash m → spent hash (with_cache m (evict t m)).
Proof. intros Hs e. cbn. unfold evict. rewrite map_lookup_filter_Some. intros [He _]. by apply Hs. Qed.

Lemma chstep_spent hash m o : spent hash m → ¬ issues hash m o → spent hash (chstep m o).
Proof.
  intros Hs Hn. destruct o as [signer t1 t2 t3 nonce instance keyID nodeID|now h]; cbn [chstep issues] in *.
  - unfold Issue in *. destruct (nodeIDBytes16 nodeID) as [node|e]; [|done]. set (m1 := if 0 <? cm_max m then _ else m) in *.
    assert (Hs1 : spent hash m1) by (unfold m1; destruct (0 <? cm_max m); [by apply spent_evict|done]).
    destruct (_ && _); [done|]. cbv zeta in *. destruct (challenge_Canonical _) as [c|] eqn:Ec; [|done]. destruct (challenge_SigningBytes _) as [sg|]; [|done].
    destruct (signer sg) as [sig|] eqn:Esig; cbn [fst snd] in *.
    + intros e. cbn. destruct (decide (sha256 c = hash)) as [<-|Hne]; [|rewrite lookup_insert_ne by done; apply Hs1].
      exfalso. apply Hn. eexists _, _, c. split; [done|]. by split.
    + intros e. cbn. rewrite delete_insert_eq. intros [_ He]%lookup_delete_Some. by apply Hs1.
  - unfold ValidateAndConsume. destruct (cm_cache m !! h) as [en|] eqn:E; [|done]. destruct (negb _); [|destruct (ce_used en) eqn:Eu; [done|]].
    + intros e. cbn. intros [_ He]%lookup_delete_Some. by apply Hs.
    + intros e. cbn. destruct (decide (h = hash)) as [->|Hne]; [|rewrite lookup_insert_ne by done; apply Hs].
      rewrite lookup_insert. case_decide; [|done]. by intros [= <-].
Qed.

(** Operations that do not issue [hash] again. *)
Fixpoint no_reissue (hash : bytes) (ops : list chop) (m : ChallengeManager) : Prop :=
  match ops with [] => True | o :: ops' => ¬ issues hash m o ∧ no_reissue hash ops' (chstep m o) end.

(** An enrollment challenge is consumed at most once.  Once a hash was consumed,
    and whatever is issued and consumed afterwards, short of a new challenge with the
    very same canonical form, no later attempt on that hash succeeds. *)
Theorem challenge_single_use (m m1 : ChallengeManager) (ops : list chop) (now now' : Z) (hash : bytes) (node : string) :
  ValidateAndConsume now hash m = (Ok node, m1) → no_reissue hash ops m1 →
  is_ok (ValidateAndConsume now' hash (chrun ops m1)).1 = false.
Proof.
  intros Hc Hn. assert (Hs : spent hash m1).
  { unfold ValidateAndConsume in Hc. destruct (cm_cache m !! hash) as [en|]; [|done]. destruct (negb _); [done|]. destruct (ce_used en); [done|].
    injection Hc as _ <-. intros e. cbn. rewrite lookup_insert. case_decide; [|done]. by intros [= <-]. }
  clear Hc. revert m1 Hs Hn. induction ops as [|o ops IH]; intros m1 Hs Hn; cbn [chrun foldl].
  - unfold ValidateAndConsume. destruct (cm_cache m1 !! hash) as [e|] eqn:E; [|done]. destruct (negb _); [done|]. by rewrite (Hs e E).
  - destruct Hn as [H1 H2]. apply (IH (chstep m1 o)); [by apply chstep_spent|done].
Qed.

(** The cache of a bounded manager never holds more challenges than its bound,
    whatever is issued and consumed. *)
Theorem challenge_cache_bounded (m : ChallengeManager) (ops : list chop) :
  0 < cm_max m → Z.of_nat (size (cm_cache m)) ≤ cm_max m → Z.of_nat (size (cm_cache (chrun ops m))) ≤ cm_max m.
Proof.
  intros Hmax. revert m Hmax. induction ops as [|o ops IH]; intros m Hmax Hsz; [done|]. cbn [chrun foldl].
  assert (Hstep : cm_max (chstep m o) = cm_max m ∧ Z.of_nat (size (cm_cache (chstep m o))) ≤ cm_max m).
  { destruct o as [signer t1 t2 t3 nonce instance keyID nodeID|now h]; cbn [chstep].
    - unfold Issue. destruct (nodeIDBytes16 nodeID) as [node|e]; [|done]. rewrite (proj2 (Z.ltb_lt _ _) Hmax). cbn [andb].
      set (m1 := with_cache m (evict t1 m)). assert (Hm1 : Z.of_nat (size (cm_cache m1)) ≤ cm_max m).
      { etrans; [|exact Hsz]. apply inj_le. apply map_subseteq_size, map_filter_subseteq. }
      destruct (cm_max m <=? Z.of_nat (size (cm_cache m1))) eqn:Efull; [done|]. apply Z.leb_gt in Efull. cbv zeta.
      destruct (challenge_Canonical _) as [c|]; [|done]. destruct (challenge_SigningBytes _) as [sg|]; [|done].
      assert (Hins : ∀ e, (size (<[sha256 c := e]> (cm_cache m1)) ≤ S (size (cm_cache m1)))%nat) by (intros e; rewrite map_size_insert; case_match; unfold id; lia).
      destruct (signer sg) as [sig|]; cbn [snd with_cache cm_cache cm_max]; (split; [done|]).
      + specialize (Hins (mkEntry nodeID instance (t3 + cm_ttl m) false)). lia.
      + rewrite delete_insert_eq. etrans; [|exact Hm1]. apply inj_le. apply map_subseteq_size, delete_subseteq.
    - unfold ValidateAndConsume. destruct (cm_cache m !! h) as [en|] eqn:E; [|done]. destruct (negb _); [|destruct (ce_used en); [done|]]; cbn; (split; [done|]).
      + etrans; [|exact Hsz]. apply inj_le, map_subseteq_size, delete_subseteq.
      + rewrite map_size_insert_Some by by eexists. done. }
  destruct Hstep as [H1 H2]. rewrite <- H1. apply IH; rewrite H1; done.
Qed.
End Challenges.

(** ** Witnesses *)

Section ChallengeWitness.
#[local] Existing Instance toy_crypto.

Definition ch_issue (nonce : byte) : chop := ChIssue (λ b, Some (take 64 b)) 5 5 5 (repeat nonce 32) (repeat Byte.x01 16) "key-1" "node-1".
Definition ch_start : ChallengeManager := mkManager 60000000000 4 ∅.
Definition ch_issued : ChallengeManager := chstep ch_start (ch_issue Byte.x07).
Definition ch_hash : bytes :=
  match (Issue (λ b, Some (take 64 b)) 5 5 5 (repeat Byte.x07 32) (repeat Byte.x01 16) "key-1" "node-1" ch_start).1 with
  | Ok (ch, _) => sha256 (default [] (challenge_Canonical ch)) | Err _ => [] end.

Lemma challenge_single_use_witness :
  is_ok (ValidateAndConsume 7 ch_hash ch_issued).1 = true ∧
  is_ok (ValidateAndConsume 9 ch_hash (chrun [ch_issue Byte.x08; ChConsume 8 ch_hash] (ValidateAndConsume 7 ch_hash ch_issued).2)).1 = false.
Proof.
  split; [by vm_compute|].
  refine (challenge_single_use ch_issued _ _ 7 9 ch_hash "node-1" _ _); [by vm_compute|]. split; [|split; [|done]].
  - intros (ch & raw & c & H1 & H2 & H3). vm_compute in H1. injection H1 as <- <-. vm_compute in H2. injection H2 as <-. by vm_compute in H3.
  - intros [].
Defined.

Lemma challenge_cache_bounded_witness :
  Z.of_nat (size (cm_cache (chrun (map ch_issue [Byte.x01; Byte.x02; Byte.x03; Byte.x04; Byte.x05]) ch_start))) ≤ 4.
Proof. refine (challenge_cache_bounded ch_start _ _ _); by vm_compute. Defined.
End ChallengeWitness.
