(* ===== verification/Probe.v ===== *)
(** * Probe frames and the probe agent ([src/internal/protocol/probe.go],
    [src/internal/protocol/probe_adapter.go])

    The five fixed binary frames (ARM1, RDY1, WAN1, ACK1, RCT1), the endpoint
    rule, the agent's in-memory operation table with its replay cache, and the
    Controller-side join.  [time.Time] is a number of nanoseconds; the maps
    keyed by probe identifiers are [gmap]s. *)

From Stdlib Require Import ZArith Lia Strings.Byte.
From stdpp Require Import base tactics list sets strings option gmap.
From S2P Require Import Prelude GoStd Endpoint Frame Envelope.

Open Scope Z_scope.

Definition ProbeMagicArm : string := "ARM1".
Definition ProbeMagicArmed : string := "RDY1".
Definition ProbeMagicWAN : string := "WAN1".
Definition ProbeMagicACK : string := "ACK1".
Definition ProbeMagicReceipt : string := "RCT1".
Definition ProbeIDLen : nat := 16.
Definition ProbeProviderIDLen : nat := 16.
Definition ProbeActivationLen : nat := 16.
Definition ProbeNonceLen : nat := 32.
Definition ProbeOpaqueLen : nat := 16.
Definition ProbeDigestLen : nat := 32.
Definition ProbeEndpointMax : Z := 255.

(** Durations in nanoseconds. *)
Definition Millisecond : Z := 1000000.
Definition Minute : Z := 60 * 1000 * Millisecond.
Definition ProbeReplayWindow : Z := 5 * Minute.
Definition ProbeTTLMax : Z := 24 * 60 * Minute.
Definition ProbeOpMax : nat := 1024.
Definition probeFrameMax : Z := 4 + 32 + 16 + 16 + 16 + 1 + ProbeEndpointMax + 16 + 32 + 64.

Inductive ProbeError : Type :=
  | ErrProbeMalformed | ErrProbeSignature | ErrProbeReplay | ErrProbeIDConflict
  | ErrProbeStateFull | ErrProbeChallenge | ErrProbeEndpoint.

(** ** Frames *)

Record ProbeArm : Type := mkArm {
  pa_ProbeID : bytes;
  pa_ProviderID : bytes;
  pa_ProviderPublicKey : bytes;
  pa_ExpectedSourceIP : bytes;
  pa_Activation : bytes;
  pa_Endpoint : string;
  pa_TTLMS : Z;
  pa_ExpiryOpaque : bytes
}.

Record ProbeArmed : Type := mkArmed { pd_ArmDigest : bytes; pd_Signature : bytes }.

Record ProviderFrame : Type := mkProvider {
  pf_ArmDigest : bytes;
  pf_ProbeID : bytes;
  pf_ProviderID : bytes;
  pf_Activation : bytes;
  pf_Endpoint : string;
  pf_ExpiryOpaque : bytes;
  pf_Challenge : bytes;
  pf_Signature : bytes
}.

Record ProbeACK : Type := mkACK { ak_ArmDigest : bytes; ak_ChallengeHash : bytes; ak_Signature : bytes }.

Record ProbeReceipt : Type := mkReceipt {
  rc_ArmDigest : bytes; rc_ChallengeHash : bytes; rc_ProviderID : bytes; rc_Signature : bytes
}.

Definition arm_Canonical (arm : ProbeArm) : bytes :=
  bytes_of ProbeMagicArm ++ pa_ProbeID arm ++ pa_ProviderID arm ++ pa_ProviderPublicKey arm
  ++ pa_ExpectedSourceIP arm ++ pa_Activation arm
  ++ [u8 (slen (pa_Endpoint arm))] ++ bytes_of (pa_Endpoint arm)
  ++ be_put 8 (pa_TTLMS arm) ++ pa_ExpiryOpaque arm.

Definition armed_SigningBytes (a : ProbeArmed) : bytes := bytes_of ProbeMagicArmed ++ pd_ArmDigest a.

Definition provider_Canonical (f : ProviderFrame) : bytes :=
  bytes_of ProbeMagicWAN ++ pf_ArmDigest f ++ pf_ProbeID f ++ pf_ProviderID f ++ pf_Activation f
  ++ [u8 (slen (pf_Endpoint f))] ++ bytes_of (pf_Endpoint f)
  ++ pf_ExpiryOpaque f ++ pf_Challenge f.

Definition provider_SigningBytes (f : ProviderFrame) : bytes := provider_Canonical f.

Definition ack_SigningBytes (a : ProbeACK) : bytes :=
  bytes_of ProbeMagicACK ++ ak_ArmDigest a ++ ak_ChallengeHash a.

Definition receipt_SigningBytes (r : ProbeReceipt) : bytes :=
  bytes_of ProbeMagicReceipt ++ rc_ArmDigest r ++ rc_ChallengeHash r ++ rc_ProviderID r.

Definition ValidateProbeEndpoint (endpoint : string) : result ProbeError unit :=
  fail_if String.eqb endpoint "" || (ProbeEndpointMax <? slen endpoint) with ErrProbeEndpoint ;;
  match SplitHostPort (bytes_of endpoint) with
  | None | Some ([], _) => Err ErrProbeEndpoint
  | Some (host, portText) =>
      match ParseAddr4 host with
      | None => Err ErrProbeEndpoint
      | Some ip =>
          fail_if negb (IsGlobalEndpoint (Addr4 ip)) with ErrProbeEndpoint ;;
          match Atoi portText with
          | None => Err ErrProbeEndpoint
          | Some port =>
              fail_if (port <=? 0) || (65535 <? port) with ErrProbeEndpoint ;;
              Ok tt
          end
      end
  end.

Definition zero16 : bytes := repeat Byte.x00 16.

Definition arm_Validate (arm : ProbeArm) : result ProbeError unit :=
  fail_if bytes_eqb (pa_ProviderID arm) zero16 || bytes_eqb (pa_ProbeID arm) zero16
    with ErrProbeMalformed ;;
  fail_if (pa_TTLMS arm =? 0) || (ProbeTTLMax / Millisecond <? pa_TTLMS arm) with ErrProbeMalformed ;;
  fail_if (slen (pa_Endpoint arm) =? 0) || (ProbeEndpointMax <? slen (pa_Endpoint arm))
    with ErrProbeMalformed ;;
  ValidateProbeEndpoint (pa_Endpoint arm).

Definition has_magic (raw : bytes) (magic : string) : bool := bytes_eqb (take 4 raw) (bytes_of magic).

Definition ParseProbeArm (raw : bytes) : result ProbeError ProbeArm :=
  let fixed := 89%nat in
  fail_if (zlen raw <? Z.of_nat fixed) || (probeFrameMax <? zlen raw) || negb (has_magic raw ProbeMagicArm)
    with ErrProbeMalformed ;;
  let endpointLen := Z.to_nat (be_get (slice raw (fixed - 1) fixed)) in
  fail_if bool_decide (endpointLen = 0%nat)
          || negb (bool_decide (length raw = fixed + endpointLen + 8 + ProbeOpaqueLen)%nat)
    with ErrProbeMalformed ;;
  let arm := mkArm (slice raw 4 20) (slice raw 20 36) (slice raw 36 68) (slice raw 68 72) (slice raw 72 88)
               (string_of (slice raw fixed (fixed + endpointLen)))
               (be_get (slice raw (fixed + endpointLen) (fixed + endpointLen + 8)))
               (drop (fixed + endpointLen + 8) raw) in
  let* _ := arm_Validate arm in
  Ok arm.

Definition ParseProviderFrame (raw : bytes) : result ProbeError ProviderFrame :=
  let fixed := 85%nat in
  fail_if (zlen raw <? Z.of_nat fixed) || (probeFrameMax <? zlen raw) || negb (has_magic raw ProbeMagicWAN)
    with ErrProbeMalformed ;;
  let endpointLen := Z.to_nat (be_get (slice raw (fixed - 1) fixed)) in
  fail_if bool_decide (endpointLen = 0%nat)
          || negb (bool_decide (length raw = fixed + endpointLen + (ProbeOpaqueLen + ProbeNonceLen + 64))%nat)
    with ErrProbeMalformed ;;
  let endpoint := string_of (slice raw fixed (fixed + endpointLen)) in
  let* _ := ValidateProbeEndpoint endpoint in
  let trailerStart := (fixed + endpointLen)%nat in
  Ok (mkProvider (slice raw 4 36) (slice raw 36 52) (slice raw 52 68) (slice raw 68 84) endpoint
        (slice raw trailerStart (trailerStart + 16)) (slice raw (trailerStart + 16) (trailerStart + 16 + 32))
        (drop (trailerStart + 16 + 32) raw)).

Section ProbeCrypto.
Context `{Crypto}.

Definition arm_Digest (arm : ProbeArm) : bytes := sha256 (arm_Canonical arm).
Definition arm_ProviderKey (arm : ProbeArm) : bytes := pa_ProviderPublicKey arm.
Definition provider_ChallengeHash (f : ProviderFrame) : bytes := sha256 (pf_Challenge f).

Definition ParseProbeArmed (raw nodePub wantDigest : bytes) : result ProbeError ProbeArmed :=
  let fixed := 36%nat in
  fail_if negb (bool_decide (length raw = fixed + 64)%nat) || negb (has_magic raw ProbeMagicArmed)
    with ErrProbeMalformed ;;
  let a := mkArmed (slice raw 4 fixed) (drop fixed raw) in
  fail_if negb (bytes_eqb (pd_ArmDigest a) wantDigest) with ErrProbeMalformed ;;
  fail_if negb (Verify nodePub (armed_SigningBytes a) (pd_Signature a)) with ErrProbeSignature ;;
  Ok a.

Definition ParseProbeACK (raw nodePub : bytes) : result ProbeError ProbeACK :=
  let fixed := 68%nat in
  fail_if negb (bool_decide (length raw = fixed + 64)%nat) || negb (has_magic raw ProbeMagicACK)
    with ErrProbeMalformed ;;
  let a := mkACK (slice raw 4 36) (slice raw 36 fixed) (drop fixed raw) in
  fail_if negb (Verify nodePub (ack_SigningBytes a) (ak_Signature a)) with ErrProbeSignature ;;
  Ok a.

Definition ParseProbeReceipt (raw nodePub : bytes) : result ProbeError ProbeReceipt :=
  let fixed := 84%nat in
  fail_if negb (bool_decide (length raw = fixed + 64)%nat) || negb (has_magic raw ProbeMagicReceipt)
    with ErrProbeMalformed ;;
  let r := mkReceipt (slice raw 4 36) (slice raw 36 68) (slice raw 68 fixed) (drop fixed raw) in
  fail_if negb (Verify nodePub (receipt_SigningBytes r) (rc_Signature r)) with ErrProbeSignature ;;
  Ok r.

(** [ActivationID] of probe_adapter.go. *)
Definition activation_preimage (forwardID : string) (specRevision : Z) : bytes :=
  bytes_of "antinat-activation-v1" ++ [Byte.x00] ++ bytes_of forwardID ++ [Byte.x00] ++ be_put 8 specRevision.

Definition ActivationID (forwardID : string) (specRevision : Z) : bytes :=
  take 16 (sha256 (activation_preimage forwardID specRevision)).

(** ** The agent *)

Record armedProbeState : Type := mkArmedState {
  as_arm : ProbeArm;
  as_digest : bytes;
  as_deadline : Z;
  as_used : bool
}.

Record ProbeAgent : Type := mkAgent {
  ag_nodeKey : bytes;
  ag_ops : gmap bytes armedProbeState;
  ag_replay : gmap bytes Z
}.

Definition NewProbeAgent (nodeKey : bytes) : ProbeAgent := mkAgent nodeKey ∅ ∅.

Definition sweep (s : ProbeAgent) (now : Z) : ProbeAgent :=
  mkAgent (ag_nodeKey s)
    (filter (λ kv, ¬ as_deadline kv.2 < now) (ag_ops s))
    (filter (λ kv, now < kv.2) (ag_replay s)).

Definition signArmed (s : ProbeAgent) (digest : bytes) : ProbeArmed :=
  match Sign (ag_nodeKey s) (armed_SigningBytes (mkArmed digest [])) with
  | Ok sig => mkArmed digest sig
  | Err _ => mkArmed digest []
  end.

(** What happens after the replay lookup found no live entry. *)
Definition arm_unreplayed (s : ProbeAgent) (arm : ProbeArm) (now : Z) : ProbeAgent * result ProbeError ProbeArmed :=
  let digest := arm_Digest arm in
  match ag_ops s !! pa_ProbeID arm with
  | Some old =>
      if negb (bytes_eqb (as_digest old) digest) then (s, Err ErrProbeIDConflict)
      else (s, Ok (signArmed s digest))
  | None =>
      if bool_decide (ProbeOpMax ≤ size (ag_ops s))%nat then (s, Err ErrProbeStateFull)
      else (mkAgent (ag_nodeKey s)
              (<[pa_ProbeID arm := mkArmedState arm digest (now + pa_TTLMS arm * Millisecond) false]> (ag_ops s))
              (ag_replay s),
            Ok (signArmed s digest))
  end.

Definition ArmProbe (s0 : ProbeAgent) (arm : ProbeArm) (now : Z) : ProbeAgent * result ProbeError ProbeArmed :=
  match arm_Validate arm with
  | Err e => (s0, Err e)
  | Ok _ =>
      let s := sweep s0 now in
      match ag_replay s !! pa_ProbeID arm with
      | Some expire =>
          if now <? expire then
            match ag_ops s !! pa_ProbeID arm with
            | Some old => if bytes_eqb (as_digest old) (arm_Digest arm) then (s, Err ErrProbeReplay)
                          else (s, Err ErrProbeIDConflict)
            | None => (s, Err ErrProbeIDConflict)
            end
          else arm_unreplayed (mkAgent (ag_nodeKey s) (ag_ops s) (delete (pa_ProbeID arm) (ag_replay s))) arm now
      | None => arm_unreplayed s arm now
      end
  end.

(** The frame's bindings to the armed operation. *)
Definition frame_bound (op : armedProbeState) (frame : ProviderFrame) (sourceIP : bytes) : bool :=
  bytes_eqb sourceIP (pa_ExpectedSourceIP (as_arm op)) &&
  bytes_eqb (pf_ArmDigest frame) (as_digest op) &&
  bytes_eqb (pf_ProviderID frame) (pa_ProviderID (as_arm op)) &&
  bytes_eqb (pf_Activation frame) (pa_Activation (as_arm op)) &&
  String.eqb (pf_Endpoint frame) (pa_Endpoint (as_arm op)) &&
  bytes_eqb (pf_ExpiryOpaque frame) (pa_ExpiryOpaque (as_arm op)) &&
  Verify (arm_ProviderKey (as_arm op)) (provider_SigningBytes frame) (pf_Signature frame).

Definition HandleProbeIngress (s : ProbeAgent) (frame : ProviderFrame) (sourceIP : bytes) (now : Z)
    : ProbeAgent * bool :=
  match ag_ops s !! pf_ProbeID frame with
  | None => (s, false)
  | Some op =>
      if as_used op || (as_deadline op <? now) then (s, false)
      else if negb (frame_bound op frame sourceIP) then (s, false)
      else (mkAgent (ag_nodeKey s)
              (<[pf_ProbeID frame := mkArmedState (as_arm op) (as_digest op) (as_deadline op) true]> (ag_ops s))
              (<[pf_ProbeID frame := now + ProbeReplayWindow]> (ag_replay s)),
            true)
  end.

Definition VerifyProbeJoin (arm : ProbeArm) (frame : ProviderFrame) (ack : ProbeACK) (receipt : ProbeReceipt)
    (nodePub : bytes) : bool :=
  if negb (is_ok (arm_Validate arm)) then false
  else
    let digest := arm_Digest arm in
    if negb (bytes_eqb (pf_ArmDigest frame) digest) || negb (bytes_eqb (ak_ArmDigest ack) digest)
       || negb (bytes_eqb (rc_ArmDigest receipt) digest) then false
    else if negb (bytes_eqb (pf_ProbeID frame) (pa_ProbeID arm))
       || negb (bytes_eqb (pf_ProviderID frame) (pa_ProviderID arm))
       || negb (bytes_eqb (pf_Activation frame) (pa_Activation arm))
       || negb (String.eqb (pf_Endpoint frame) (pa_Endpoint arm))
       || negb (bytes_eqb (pf_ExpiryOpaque frame) (pa_ExpiryOpaque arm)) then false
    else if negb (bytes_eqb (rc_ProviderID receipt) (pa_ProviderID arm)) then false
    else if negb (Verify (arm_ProviderKey arm) (provider_SigningBytes frame) (pf_Signature frame)) then false
    else
      let ch := provider_ChallengeHash frame in
      if negb (bytes_eqb (ak_ChallengeHash ack) ch) || negb (bytes_eqb (rc_ChallengeHash receipt) ch) then false
      else if negb (Verify nodePub (ack_SigningBytes ack) (ak_Signature ack))
           || negb (Verify nodePub (receipt_SigningBytes receipt) (rc_Signature receipt)) then false
      else true.

End ProbeCrypto.

(** ** Lemmas: frame codecs *)

Record arm_typed (a : ProbeArm) : Prop := {
  at_id : length (pa_ProbeID a) = 16%nat;
  at_provider : length (pa_ProviderID a) = 16%nat;
  at_key : length (pa_ProviderPublicKey a) = 32%nat;
  at_ip : length (pa_ExpectedSourceIP a) = 4%nat;
  at_act : length (pa_Activation a) = 16%nat;
  at_opaque : length (pa_ExpiryOpaque a) = 16%nat;
  at_ttl : in_u64 (pa_TTLMS a)
}.

Record provider_typed (f : ProviderFrame) : Prop := {
  pt_digest : length (pf_ArmDigest f) = 32%nat;
  pt_id : length (pf_ProbeID f) = 16%nat;
  pt_provider : length (pf_ProviderID f) = 16%nat;
  pt_act : length (pf_Activation f) = 16%nat;
  pt_opaque : length (pf_ExpiryOpaque f) = 16%nat;
  pt_challenge : length (pf_Challenge f) = 32%nat;
  pt_sig : length (pf_Signature f) = 64%nat
}.

(** Cutting a frame into consecutive sections at increasing offsets. *)
Fixpoint cut (raw : bytes) (from : nat) (offsets : list nat) : list bytes :=
  match offsets with
  | [] => [drop from raw]
  | o :: offsets' => slice raw from o :: cut raw o offsets'
  end.

Fixpoint ascending (from : nat) (offsets : list nat) : Prop :=
  match offsets with [] => True | o :: offsets' => (from ≤ o)%nat ∧ ascending o offsets' end.

Lemma cut_concat (raw : bytes) (offsets : list nat) (from : nat) :
  ascending from offsets → concat (cut raw from offsets) = drop from raw.
Proof.
  revert from; induction offsets as [|o os IH]; intros from Ha; cbn [cut concat].
  { apply app_nil_r. }
  destruct Ha as [Hle Ha]. rewrite IH by done. by rewrite <- slice_drop.
Qed.

(** Reading the sections of a concatenation back. *)
Fixpoint ends (from : nat) (parts : list bytes) : list nat :=
  match parts with
  | [] | [_] => []
  | p :: parts' => (from + length p)%nat :: ends (from + length p) parts'
  end.

Lemma cut_ends (pre : bytes) (parts : list bytes) : parts ≠ [] →
  cut (pre ++ concat parts) (length pre) (ends (length pre) parts) = parts.
Proof.
  revert pre; induction parts as [|p parts IH]; intros pre Hne; [done|].
  destruct parts as [|q parts]; cbn [ends cut].
  { cbn. rewrite app_nil_r, drop_exact by done. done. }
  cbn [concat]. rewrite slice_mid by lia. f_equal.
  specialize (IH (pre ++ p) ltac:(done)). rewrite length_app, <- app_assoc in IH. exact IH.
Qed.

Lemma cut_parts (raw : bytes) (parts : list bytes) (offsets : list nat) :
  parts ≠ [] → raw = concat parts → ends 0 parts = offsets → cut raw 0 offsets = parts.
Proof. intros Hn -> <-. exact (cut_ends [] parts Hn). Qed.

Lemma endpoint_byte (e : string) : 1 ≤ slen e ≤ 255 → Z.to_nat (b2z (u8 (slen e))) = String.length e.
Proof.
  intros He. rewrite b2z_u8, Z.mod_small by lia. unfold slen. by rewrite to_nat_zlen, length_bytes_of.
Qed.

Lemma slen_length (e : string) : slen e = Z.of_nat (String.length e).
Proof. unfold slen, zlen. by rewrite length_bytes_of. Qed.

Lemma ValidateProbeEndpoint_length (e : string) (u : unit) :
  ValidateProbeEndpoint e = Ok u → 1 ≤ slen e ≤ 255.
Proof.
  unfold ValidateProbeEndpoint. intros Hv. go_inv Hv; bool_prop. unfold ProbeEndpointMax in *.
  rewrite slen_length in *. destruct e; cbn in *; [done|lia].
Qed.

Lemma arm_Validate_endpoint (a : ProbeArm) (u : unit) : arm_Validate a = Ok u → 1 ≤ slen (pa_Endpoint a) ≤ 255.
Proof. unfold arm_Validate. intros Hv. go_inv Hv. by apply ValidateProbeEndpoint_length in Hv. Qed.

Definition arm_parts (a : ProbeArm) : list bytes :=
  [bytes_of ProbeMagicArm; pa_ProbeID a; pa_ProviderID a; pa_ProviderPublicKey a; pa_ExpectedSourceIP a;
   pa_Activation a; [u8 (slen (pa_Endpoint a))]; bytes_of (pa_Endpoint a); be_put 8 (pa_TTLMS a);
   pa_ExpiryOpaque a].

Lemma arm_Canonical_parts (a : ProbeArm) : arm_Canonical a = concat (arm_parts a).
Proof. unfold arm_Canonical, arm_parts. cbn [concat]. by rewrite app_nil_r. Qed.

Definition provider_parts (f : ProviderFrame) : list bytes :=
  [bytes_of ProbeMagicWAN; pf_ArmDigest f; pf_ProbeID f; pf_ProviderID f; pf_Activation f;
   [u8 (slen (pf_Endpoint f))]; bytes_of (pf_Endpoint f); pf_ExpiryOpaque f; pf_Challenge f; pf_Signature f].

Lemma provider_parts_concat (f : ProviderFrame) :
  provider_Canonical f ++ pf_Signature f = concat (provider_parts f).
Proof. unfold provider_Canonical, provider_parts. cbn [concat]. rewrite <- !app_assoc. by rewrite app_nil_r. Qed.

(** A section of a frame whose cut is known. *)
Ltac section i Hcut := exact (f_equal (λ l, nth i l []) Hcut).

Lemma endpoint_section (raw : bytes) (i : nat) :
  (S i ≤ length raw)%nat → let n := Z.to_nat (be_get (slice raw i (S i))) in
  (S i + n ≤ length raw)%nat →
  [u8 (slen (string_of (slice raw (S i) (S i + n))))] = slice raw i (S i).
Proof.
  intros Hl n Hn. destruct (slice_one raw i Hl) as [b Hb]. unfold n in *. clear n.
  rewrite Hb, be_get_one in *. f_equal. unfold slen. rewrite bytes_of_string_of.
  pose proof (b2z_range b). unfold zlen. rewrite length_slice by lia.
  replace (Z.of_nat (S i + Z.to_nat (b2z b) - S i)) with (b2z b) by lia. apply u8_b2z.
Qed.

Lemma ParseProbeArm_Canonical (a : ProbeArm) :
  arm_typed a → arm_Validate a = Ok tt → ParseProbeArm (arm_Canonical a) = Ok a.
Proof.
  intros [] Hv. pose proof (arm_Validate_endpoint _ _ Hv) as He.
  set (n := String.length (pa_Endpoint a)). assert (Hn : slen (pa_Endpoint a) = Z.of_nat n) by apply slen_length.
  set (raw := arm_Canonical a).
  assert (Hcut : cut raw 0 [4;20;36;68;72;88;89;89+n;89+n+8]%nat = arm_parts a).
  { apply cut_parts; [done|apply arm_Canonical_parts|]. unfold arm_parts. cbn [ends].
    rewrite length_be_put, !length_bytes_of. fold n. change (String.length ProbeMagicArm) with 4%nat.
    cbn [length]. repeat (apply f_equal2; [lia|]). done. }
  cbn [cut] in Hcut.
  assert (Hlen : length raw = (89 + n + 8 + 16)%nat).
  { unfold raw, arm_Canonical. rewrite !length_app, length_be_put, !length_bytes_of. fold n. cbn. lia. }
  assert (S0 : slice raw 0 4 = bytes_of ProbeMagicArm) by section 0%nat Hcut.
  assert (S6 : slice raw 88 89 = [u8 (slen (pa_Endpoint a))]) by section 6%nat Hcut.
  assert (S7 : slice raw 89 (89 + n) = bytes_of (pa_Endpoint a)) by section 7%nat Hcut.
  assert (S8 : slice raw (89 + n) (89 + n + 8) = be_put 8 (pa_TTLMS a)) by section 8%nat Hcut.
  unfold ParseProbeArm, has_magic. cbv zeta. change (take 4 raw) with (slice raw 0 4).
  change (slice raw (89 - 1) 89) with (slice raw 88 89).
  rewrite S0, S6, be_get_one, endpoint_byte by lia. fold n.
  rewrite S7, S8, string_of_bytes_of, be_get_u64 by done.
  replace (mkArm _ _ _ _ _ _ _ _) with a.
  2: { destruct a; cbn in *. f_equal; symmetry;
       [section 1%nat Hcut|section 2%nat Hcut|section 3%nat Hcut|section 4%nat Hcut|section 5%nat Hcut|section 9%nat Hcut]. }
  rewrite Hv. unfold zlen, bytes_eqb. rewrite Hlen.
  rewrite (proj2 (Z.ltb_ge _ _)) by lia. rewrite (proj2 (Z.ltb_ge _ _)) by (unfold probeFrameMax, ProbeEndpointMax; lia).
  rewrite (bool_decide_eq_true_2 (_ = bytes_of _)) by done. rewrite (bool_decide_eq_false_2 (n = 0%nat)) by lia.
  rewrite bool_decide_eq_true_2 by (unfold ProbeOpaqueLen; lia). done.
Qed.

Lemma ParseProbeArm_inv (raw : bytes) (a : ProbeArm) :
  ParseProbeArm raw = Ok a → raw = arm_Canonical a ∧ arm_typed a ∧ arm_Validate a = Ok tt.
Proof.
  unfold ParseProbeArm. cbv zeta.
  set (n := Z.to_nat (be_get (slice raw (89 - 1) 89))). set (k := (89 + n)%nat).
  assert (Hk : (k ≤ 89 + n ≤ k)%nat) by lia. clearbody k. intros Hp.
  guards Hp.
  match type of Hp with (match arm_Validate ?x with _ => _ end) = _ => set (arm := x) in Hp end.
  destruct (arm_Validate arm) as [[]|] eqn:Ev; [|done]. injection Hp as <-. bool_prop. unfold ProbeOpaqueLen in *.
  assert (Hk' : k = (89 + n)%nat) by lia.
  split_and!; [|split; unfold arm; cbn [pa_ProbeID pa_ProviderID pa_ProviderPublicKey pa_ExpectedSourceIP
    pa_Activation pa_ExpiryOpaque pa_TTLMS]; rewrite ?length_slice, ?length_drop by lia; try lia|done].
  - rewrite arm_Canonical_parts. rewrite <- (drop_0 raw) at 1.
    rewrite <- (cut_concat raw [4;20;36;68;72;88;89;k;k+8]%nat) by (cbn; lia). cbn [cut].
    unfold arm_parts, arm. cbn [pa_ProbeID pa_ProviderID pa_ProviderPublicKey pa_ExpectedSourceIP
      pa_Activation pa_ExpiryOpaque pa_TTLMS pa_Endpoint].
    rewrite be_put_get_len by (rewrite length_slice; lia). rewrite bytes_of_string_of.
    pose proof (endpoint_section raw 88 ltac:(lia)) as Hs. change (slice raw 88 89) with (slice raw (89 - 1) 89) in Hs.
    cbv zeta in Hs. fold n in Hs. rewrite <- Hk' in Hs. rewrite Hs by lia.
    unfold has_magic in *. bool_prop. repeat f_equal. done.
  - pose proof (be_get_range (slice raw k (k + 8))) as Hr. unfold zlen in Hr. rewrite length_slice in Hr by lia.
    replace (k + 8 - k)%nat with 8%nat in Hr by lia. exact Hr.
Qed.

Lemma ParseProviderFrame_Canonical (f : ProviderFrame) :
  provider_typed f → ValidateProbeEndpoint (pf_Endpoint f) = Ok tt →
  ParseProviderFrame (provider_Canonical f ++ pf_Signature f) = Ok f.
Proof.
  intros [] Hv. pose proof (ValidateProbeEndpoint_length _ _ Hv) as He.
  set (n := String.length (pf_Endpoint f)). assert (Hn : slen (pf_Endpoint f) = Z.of_nat n) by apply slen_length.
  set (raw := provider_Canonical f ++ pf_Signature f).
  assert (Hcut : cut raw 0 [4;36;52;68;84;85;85+n;85+n+16;85+n+16+32]%nat = provider_parts f).
  { apply cut_parts; [done|apply provider_parts_concat|]. unfold provider_parts. cbn [ends].
    rewrite !length_bytes_of. fold n. change (String.length ProbeMagicWAN) with 4%nat.
    cbn [length]. repeat (apply f_equal2; [lia|]). done. }
  cbn [cut] in Hcut.
  assert (Hlen : length raw = (85 + n + (16 + 32 + 64))%nat).
  { unfold raw, provider_Canonical. rewrite !length_app, !length_bytes_of. fold n. cbn. lia. }
  assert (S0 : slice raw 0 4 = bytes_of ProbeMagicWAN) by section 0%nat Hcut.
  assert (S5 : slice raw 84 85 = [u8 (slen (pf_Endpoint f))]) by section 5%nat Hcut.
  assert (S6 : slice raw 85 (85 + n) = bytes_of (pf_Endpoint f)) by section 6%nat Hcut.
  unfold ParseProviderFrame, has_magic. cbv zeta. change (take 4 raw) with (slice raw 0 4).
  change (slice raw (85 - 1) 85) with (slice raw 84 85).
  rewrite S0, S5, be_get_one, endpoint_byte by lia. fold n. rewrite S6, string_of_bytes_of, Hv.
  replace (mkProvider _ _ _ _ _ _ _ _) with f.
  2: { destruct f; cbn in *. f_equal; symmetry;
       [section 1%nat Hcut|section 2%nat Hcut|section 3%nat Hcut|section 4%nat Hcut|section 7%nat Hcut
       |section 8%nat Hcut|section 9%nat Hcut]. }
  unfold zlen, bytes_eqb. rewrite Hlen.
  rewrite (proj2 (Z.ltb_ge _ _)) by lia. rewrite (proj2 (Z.ltb_ge _ _)) by (unfold probeFrameMax, ProbeEndpointMax; lia).
  rewrite (bool_decide_eq_true_2 (_ = bytes_of _)) by done. rewrite (bool_decide_eq_false_2 (n = 0%nat)) by lia.
  rewrite bool_decide_eq_true_2 by (unfold ProbeOpaqueLen, ProbeNonceLen; lia). done.
Qed.

Lemma ParseProviderFrame_inv (raw : bytes) (f : ProviderFrame) :
  ParseProviderFrame raw = Ok f →
  raw = provider_Canonical f ++ pf_Signature f ∧ provider_typed f ∧ ValidateProbeEndpoint (pf_Endpoint f) = Ok tt.
Proof.
  unfold ParseProviderFrame. cbv zeta.
  set (n := Z.to_nat (be_get (slice raw (85 - 1) 85))). set (k := (85 + n)%nat).
  assert (Hk : (k ≤ 85 + n ≤ k)%nat) by lia. clearbody k. intros Hp. guards Hp.
  destruct (ValidateProbeEndpoint _) as [[]|] eqn:Ev; [|done].
  match type of Hp with Ok ?x = _ => set (y := x) in Hp end. injection Hp as <-. bool_prop.
  unfold ProbeOpaqueLen, ProbeNonceLen in *. assert (Hk' : k = (85 + n)%nat) by lia.
  split_and!; [|split; unfold y; cbn [pf_ArmDigest pf_ProbeID pf_ProviderID pf_Activation pf_ExpiryOpaque
    pf_Challenge pf_Signature]; rewrite ?length_slice, ?length_drop by lia; lia|done].
  rewrite provider_parts_concat. rewrite <- (drop_0 raw) at 1.
  rewrite <- (cut_concat raw [4;36;52;68;84;85;k;k+16;k+16+32]%nat) by (cbn; lia). cbn [cut].
  unfold provider_parts, y. cbn [pf_ArmDigest pf_ProbeID pf_ProviderID pf_Activation pf_ExpiryOpaque
    pf_Challenge pf_Signature pf_Endpoint].
  pose proof (endpoint_section raw 84 ltac:(lia)) as Hs. change (slice raw 84 85) with (slice raw (85 - 1) 85) in Hs.
  cbv zeta in Hs. fold n in Hs. rewrite <- Hk' in Hs. rewrite Hs by lia. rewrite bytes_of_string_of.
  unfold has_magic in *. bool_prop. repeat f_equal. done.
Qed.

(** The three fixed-size frames: [magic ++ parts ++ signature]. *)
Lemma fixed_frame_sections (magic : string) (parts : list bytes) (sig raw : bytes) (offsets : list nat) :
  String.length magic = 4%nat → raw = bytes_of magic ++ concat parts ++ sig →
  ends 4 (parts ++ [sig]) = offsets → parts ≠ [] →
  take 4 raw = bytes_of magic ∧ cut raw 4 offsets = parts ++ [sig].
Proof.
  intros Hm -> <- Hp. assert (Hl : length (bytes_of magic) = 4%nat) by (by rewrite length_bytes_of).
  split; [by apply take_exact|].
  pose proof (cut_ends (bytes_of magic) (parts ++ [sig])) as Hc. rewrite Hl, concat_app in Hc.
  cbn [concat] in Hc. rewrite app_nil_r in Hc. apply Hc. by destruct parts.
Qed.

Lemma fixed_frame_concat (raw : bytes) (magic : string) (offsets : list nat) :
  has_magic raw magic = true → ascending 4 offsets →
  raw = bytes_of magic ++ concat (cut raw 4 offsets).
Proof.
  intros Hm Ha. unfold has_magic in Hm. bool_prop. rewrite cut_concat by done.
  by rewrite <- Hm, take_drop.
Qed.

Section FixedFrames.
Context `{Crypto}.

Ltac fixed_inv Hp :=
  guards Hp; injection Hp as <-; bool_prop;
  match goal with E : Verify _ _ _ = true |- _ => pose proof E as Hv; apply Verify_sizes in Hv as (_&Hs&_) end.

Lemma ParseProbeArmed_iff (raw pub want : bytes) (a : ProbeArmed) :
  ParseProbeArmed raw pub want = Ok a ↔
  raw = armed_SigningBytes a ++ pd_Signature a ∧ length (pd_ArmDigest a) = 32%nat ∧ pd_ArmDigest a = want ∧
  Verify pub (armed_SigningBytes a) (pd_Signature a) = true.
Proof.
  unfold ParseProbeArmed, armed_SigningBytes. cbv zeta. split.
  - intros Hp. fixed_inv Hp. cbn [pd_ArmDigest pd_Signature] in *. split_and!; try done.
    + rewrite <- app_assoc. rewrite (fixed_frame_concat raw ProbeMagicArmed [36%nat]) at 1 by (done || cbn; lia).
      cbn [cut concat]. by rewrite app_nil_r.
    + rewrite length_slice; lia.
  - intros (Hr&Hd&Hw&Hv). pose proof (Verify_sizes _ _ _ Hv) as (_&Hs&_). unfold SignatureSize in Hs.
    destruct (fixed_frame_sections ProbeMagicArmed [pd_ArmDigest a] (pd_Signature a) raw [36%nat]) as [H0 Hc];
      [done|rewrite Hr; cbn [concat]; by rewrite app_nil_r, <- app_assoc|cbn [ends app]; by rewrite Hd|done|].
    cbn [cut app] in Hc.
    assert (S1 : slice raw 4 36 = pd_ArmDigest a) by section 0%nat Hc.
    assert (S2 : drop 36 raw = pd_Signature a) by section 1%nat Hc.
    unfold has_magic. rewrite H0, S1, S2. cbn [pd_ArmDigest pd_Signature].
    rewrite Hv, Hw. unfold bytes_eqb.
    rewrite bool_decide_eq_true_2 by (rewrite Hr, !length_app, length_bytes_of, Hd, Hs; done).
    rewrite !bool_decide_eq_true_2 by done. cbn. f_equal. destruct a; cbn in *; congruence.
Qed.

Lemma ParseProbeACK_iff (raw pub : bytes) (a : ProbeACK) :
  ParseProbeACK raw pub = Ok a ↔
  raw = ack_SigningBytes a ++ ak_Signature a ∧ length (ak_ArmDigest a) = 32%nat ∧
  length (ak_ChallengeHash a) = 32%nat ∧ Verify pub (ack_SigningBytes a) (ak_Signature a) = true.
Proof.
  unfold ParseProbeACK, ack_SigningBytes. cbv zeta. split.
  - intros Hp. fixed_inv Hp. cbn [ak_ArmDigest ak_ChallengeHash ak_Signature] in *. split_and!; try done.
    + rewrite <- !app_assoc. rewrite (fixed_frame_concat raw ProbeMagicACK [36;68]%nat) at 1 by (done || cbn; lia).
      cbn [cut concat]. by rewrite app_nil_r.
    + rewrite length_slice; lia.
    + rewrite length_slice; lia.
  - intros (Hr&Hd&Hc&Hv). pose proof (Verify_sizes _ _ _ Hv) as (_&Hs&_). unfold SignatureSize in Hs.
    destruct (fixed_frame_sections ProbeMagicACK [ak_ArmDigest a; ak_ChallengeHash a] (ak_Signature a) raw [36;68]%nat)
      as [H0 Hcut];
      [done|rewrite Hr; cbn [concat]; by rewrite app_nil_r, <- !app_assoc|cbn [ends app]; by rewrite Hd, Hc|done|].
    cbn [cut app] in Hcut.
    assert (S1 : slice raw 4 36 = ak_ArmDigest a) by section 0%nat Hcut.
    assert (S2 : slice raw 36 68 = ak_ChallengeHash a) by section 1%nat Hcut.
    assert (S3 : drop 68 raw = ak_Signature a) by section 2%nat Hcut.
    unfold has_magic. rewrite H0, S1, S2, S3. cbn [ak_ArmDigest ak_ChallengeHash ak_Signature].
    rewrite Hv. unfold bytes_eqb. rewrite bool_decide_eq_true_2 by (rewrite Hr, !length_app, length_bytes_of, Hd, Hc, Hs; done).
    rewrite bool_decide_eq_true_2 by done. cbn. by destruct a.
Qed.

Lemma ParseProbeReceipt_iff (raw pub : bytes) (r : ProbeReceipt) :
  ParseProbeReceipt raw pub = Ok r ↔
  raw = receipt_SigningBytes r ++ rc_Signature r ∧ length (rc_ArmDigest r) = 32%nat ∧
  length (rc_ChallengeHash r) = 32%nat ∧ length (rc_ProviderID r) = 16%nat ∧
  Verify pub (receipt_SigningBytes r) (rc_Signature r) = true.
Proof.
  unfold ParseProbeReceipt, receipt_SigningBytes. cbv zeta. split.
  - intros Hp. fixed_inv Hp. cbn [rc_ArmDigest rc_ChallengeHash rc_ProviderID rc_Signature] in *.
    split_and!; try done; try (rewrite length_slice; lia).
    rewrite <- !app_assoc. rewrite (fixed_frame_concat raw ProbeMagicReceipt [36;68;84]%nat) at 1 by (done || cbn; lia).
    cbn [cut concat]. by rewrite app_nil_r.
  - intros (Hr&Hd&Hc&Hp&Hv). pose proof (Verify_sizes _ _ _ Hv) as (_&Hs&_). unfold SignatureSize in Hs.
    destruct (fixed_frame_sections ProbeMagicReceipt [rc_ArmDigest r; rc_ChallengeHash r; rc_ProviderID r]
      (rc_Signature r) raw [36;68;84]%nat) as [H0 Hcut];
      [done|rewrite Hr; cbn [concat]; by rewrite app_nil_r, <- !app_assoc|cbn [ends app]; by rewrite Hd, Hc, Hp|done|].
    cbn [cut app] in Hcut.
    assert (S1 : slice raw 4 36 = rc_ArmDigest r) by section 0%nat Hcut.
    assert (S2 : slice raw 36 68 = rc_ChallengeHash r) by section 1%nat Hcut.
    assert (S3 : slice raw 68 84 = rc_ProviderID r) by section 2%nat Hcut.
    assert (S4 : drop 84 raw = rc_Signature r) by section 3%nat Hcut.
    unfold has_magic. rewrite H0, S1, S2, S3, S4. cbn [rc_ArmDigest rc_ChallengeHash rc_ProviderID rc_Signature].
    rewrite Hv. unfold bytes_eqb.
    rewrite bool_decide_eq_true_2 by (rewrite Hr, !length_app, length_bytes_of, Hd, Hc, Hp, Hs; done).
    rewrite bool_decide_eq_true_2 by done. cbn. by destruct r.
Qed.

End FixedFrames.

(** The five frame parsers accept exactly the canonical encodings: a parse
    succeeds with a frame [x] if and only if the input is [x]'s encoding
    (followed by its signature), every field has its fixed width, the endpoint
    is a concrete global IPv4:port of at most 255 bytes, and, for RDY1, ACK1 and
    RCT1, the signature verifies under the node key. *)
Theorem probe_parse_exact `{Crypto} (raw pub want : bytes) :
  (∀ a, ParseProbeArm raw = Ok a ↔ raw = arm_Canonical a ∧ arm_typed a ∧ arm_Validate a = Ok tt) ∧
  (∀ f, ParseProviderFrame raw = Ok f ↔ raw = provider_Canonical f ++ pf_Signature f ∧ provider_typed f ∧
     ValidateProbeEndpoint (pf_Endpoint f) = Ok tt) ∧
  (∀ a, ParseProbeArmed raw pub want = Ok a ↔
     raw = armed_SigningBytes a ++ pd_Signature a ∧ length (pd_ArmDigest a) = 32%nat ∧ pd_ArmDigest a = want ∧
     Verify pub (armed_SigningBytes a) (pd_Signature a) = true) ∧
  (∀ a, ParseProbeACK raw pub = Ok a ↔
     raw = ack_SigningBytes a ++ ak_Signature a ∧ length (ak_ArmDigest a) = 32%nat ∧
     length (ak_ChallengeHash a) = 32%nat ∧ Verify pub (ack_SigningBytes a) (ak_Signature a) = true) ∧
  (∀ r, ParseProbeReceipt raw pub = Ok r ↔
     raw = receipt_SigningBytes r ++ rc_Signature r ∧ length (rc_ArmDigest r) = 32%nat ∧
     length (rc_ChallengeHash r) = 32%nat ∧ length (rc_ProviderID r) = 16%nat ∧
     Verify pub (receipt_SigningBytes r) (rc_Signature r) = true).
Proof.
  split_and!; intros x.
  - split; [apply ParseProbeArm_inv|]. intros (->&?&?). by apply ParseProbeArm_Canonical.
  - split; [apply ParseProviderFrame_inv|]. intros (->&?&?). by apply ParseProviderFrame_Canonical.
  - apply ParseProbeArmed_iff.
  - apply ParseProbeACK_iff.
  - apply ParseProbeReceipt_iff.
Qed.

(** The probe endpoint rule is the publication endpoint rule plus the
    one-byte length bound. *)
Theorem ValidateProbeEndpoint_agrees (e : string) :
  ValidateProbeEndpoint e = Ok tt ↔ slen e ≤ 255 ∧ is_ok (ValidateEndpoint e) = true.
Proof.
  unfold ValidateProbeEndpoint, ValidateEndpoint, ProbeEndpointMax. split.
  - intros Hv. go_inv Hv. apply orb_false_iff in E as [-> Hl]. bool_prop. split; [lia|].
    rewrite ValidatePort_ok by lia. done.
  - intros [Hl Hv]. rewrite (proj2 (Z.ltb_ge _ _)) by lia. rewrite orb_false_r.
    unfold is_ok in Hv. go_inv Hv.
    match goal with E : ValidatePort _ = Ok _ |- _ => apply ValidatePort_range in E end.
    rewrite (proj2 (Z.leb_gt _ _)), (proj2 (Z.ltb_ge _ _)) by lia. done.
Qed.

(** ** Lemmas: the agent *)

Section Agent.
Context `{Crypto}.

Inductive probe_event : Type :=
  | EvArm (arm : ProbeArm)
  | EvIngress (frame : ProviderFrame) (sourceIP : bytes).

Definition agent_step (s : ProbeAgent) (te : Z * probe_event) : ProbeAgent :=
  match te.2 with
  | EvArm arm => (ArmProbe s arm te.1).1
  | EvIngress frame ip => (HandleProbeIngress s frame ip te.1).1
  end.

Definition agent_run (s : ProbeAgent) (tr : list (Z * probe_event)) : ProbeAgent := fold_left agent_step tr s.

(** Clock readings along a trace never decrease, from [t] on. *)
Fixpoint monotone (t : Z) (tr : list (Z * probe_event)) : Prop :=
  match tr with [] => True | te :: tr' => t ≤ te.1 ∧ monotone te.1 tr' end.

(** The last clock reading of a trace that starts at [t]. *)
Fixpoint end_time (t : Z) (tr : list (Z * probe_event)) : Z :=
  match tr with [] => t | te :: tr' => end_time te.1 tr' end.

Record agent_wf (s : ProbeAgent) : Prop := {
  wf_bound : (size (ag_ops s) ≤ ProbeOpMax)%nat;
  wf_ops id op : ag_ops s !! id = Some op →
    pa_ProbeID (as_arm op) = id ∧ as_digest op = arm_Digest (as_arm op) ∧ arm_Validate (as_arm op) = Ok tt
}.

Lemma size_filter_le {A} (P : bytes * A → Prop) `{∀ x, Decision (P x)} (m : gmap bytes A) :
  (size (filter P m) ≤ size m)%nat.
Proof.
  rewrite <- !size_dom. apply subseteq_size. apply dom_filter_subseteq.
Qed.

Lemma sweep_wf (s : ProbeAgent) (now : Z) : agent_wf s → agent_wf (sweep s now).
Proof.
  intros [Hb Ho]. split; cbn [sweep ag_ops].
  - pose proof (size_filter_le (λ kv, ¬ as_deadline kv.2 < now) (ag_ops s)). lia.
  - intros id op Hop. apply map_lookup_filter_Some in Hop as [Hop _]. by apply Ho.
Qed.

(** Arming either rejects (the table is only swept), repeats the armed
    response of an identical live operation, or inserts a fresh operation. *)
Inductive arm_outcome (s : ProbeAgent) (arm : ProbeArm) (now : Z) : ProbeAgent → result ProbeError ProbeArmed → Prop :=
  | arm_invalid e : arm_Validate arm = Err e → arm_outcome s arm now s (Err e)
  | arm_rejected e : arm_Validate arm = Ok tt → arm_outcome s arm now (sweep s now) (Err e)
  | arm_repeated op : arm_Validate arm = Ok tt → ag_replay (sweep s now) !! pa_ProbeID arm = None →
      ag_ops (sweep s now) !! pa_ProbeID arm = Some op → as_digest op = arm_Digest arm →
      arm_outcome s arm now (sweep s now) (Ok (signArmed s (arm_Digest arm)))
  | arm_inserted : arm_Validate arm = Ok tt → ag_replay (sweep s now) !! pa_ProbeID arm = None →
      ag_ops (sweep s now) !! pa_ProbeID arm = None → (size (ag_ops (sweep s now)) < ProbeOpMax)%nat →
      arm_outcome s arm now
        (mkAgent (ag_nodeKey s)
          (<[pa_ProbeID arm :=
             mkArmedState arm (arm_Digest arm) (now + pa_TTLMS arm * Millisecond) false]> (ag_ops (sweep s now)))
          (ag_replay (sweep s now)))
        (Ok (signArmed s (arm_Digest arm))).

Lemma ArmProbe_outcome (s : ProbeAgent) (arm : ProbeArm) (now : Z) :
  arm_outcome s arm now (ArmProbe s arm now).1 (ArmProbe s arm now).2.
Proof.
  unfold ArmProbe. destruct (arm_Validate arm) as [[]|e] eqn:Ev; [|by constructor].
  destruct (ag_replay (sweep s now) !! pa_ProbeID arm) as [ex|] eqn:Er.
  { pose proof Er as Er'. cbn [sweep ag_replay] in Er'. apply map_lookup_filter_Some in Er' as [_ Hlt]. cbn in Hlt.
    rewrite (proj2 (Z.ltb_lt _ _)) by done.
    destruct (ag_ops (sweep s now) !! pa_ProbeID arm); [destruct (bytes_eqb _ _)|]; by constructor. }
  unfold arm_unreplayed. change (signArmed (sweep s now)) with (signArmed s).
  change (ag_nodeKey (sweep s now)) with (ag_nodeKey s).
  destruct (ag_ops (sweep s now) !! pa_ProbeID arm) as [op|] eqn:Eo.
  - destruct (bytes_eqb _ _) eqn:Ed; cbn [negb fst snd]; [|by constructor].
    bool_prop. by apply (arm_repeated s arm now op).
  - case_bool_decide as Hsz; cbn [fst snd]; [by constructor|]. apply arm_inserted; try done. lia.
Qed.

Lemma agent_step_wf (s : ProbeAgent) (te : Z * probe_event) : agent_wf s → agent_wf (agent_step s te).
Proof.
  intros Hwf. pose proof (sweep_wf s te.1 Hwf) as Hsw. destruct te as [now [arm|f ip]]; unfold agent_step; cbn [fst snd].
  - destruct (ArmProbe_outcome s arm now) as [e|e|op|Hv _ Hno Hsz]; try done.
    destruct Hsw as [Hb Ho]. cbn [fst] in *. split; cbn [ag_ops].
    + rewrite map_size_insert_None by done. lia.
    + intros id op Hop. apply lookup_insert_Some in Hop as [[<- <-]|[_ Hop]]; [done|]. by apply Ho.
  - unfold HandleProbeIngress. destruct (ag_ops s !! pf_ProbeID f) as [op|] eqn:Eop; [|done].
    destruct (_ || _); [done|]. destruct (negb _); [done|]. destruct Hwf as [Hb Ho].
    split; cbn [fst ag_ops].
    + rewrite map_size_insert_Some by done. done.
    + intros id op' Hop. apply lookup_insert_Some in Hop as [[<- <-]|[_ Hop]]; [|by apply Ho].
      by apply (Ho _ op).
Qed.

Lemma agent_run_wf (s : ProbeAgent) (tr : list (Z * probe_event)) : agent_wf s → agent_wf (agent_run s tr).
Proof. revert s; induction tr as [|te tr IH]; intros s Hs; [done|]. by apply IH, agent_step_wf. Qed.

Lemma NewProbeAgent_wf (k : bytes) : agent_wf (NewProbeAgent k).
Proof. split; cbn; [rewrite map_size_empty; unfold ProbeOpMax; lia|]. intros id op Hop. by rewrite lookup_empty in Hop. Qed.

(** After an acceptance of [id] with replay end [e] and deadline [d]: an
    unused operation under [id] appears only once both have passed. *)
Record spent (id : bytes) (e d now : Z) (s : ProbeAgent) : Prop := {
  sp_unused op : ag_ops s !! id = Some op → as_used op = false → e ≤ now ∧ d < now;
  sp_replay : now < e → ∃ e', ag_replay s !! id = Some e' ∧ e ≤ e';
  sp_live : now ≤ d → ∃ op, ag_ops s !! id = Some op ∧ as_used op = true ∧ as_deadline op = d
}.

Lemma spent_later (id : bytes) (e d now now' : Z) (s : ProbeAgent) :
  now ≤ now' → spent id e d now s → spent id e d now' s.
Proof.
  intros Hle [H1 H2 H3]. split.
  - intros op Hop Hu. destruct (H1 op Hop Hu). lia.
  - intros Hlt. apply H2. lia.
  - intros Hlt. apply H3. lia.
Qed.

Lemma spent_sweep (id : bytes) (e d now : Z) (s : ProbeAgent) : spent id e d now s → spent id e d now (sweep s now).
Proof.
  intros [H1 H2 H3]. split; cbn [sweep ag_ops ag_replay].
  - intros op Hop Hu. apply map_lookup_filter_Some in Hop as [Hop _]. by apply (H1 op).
  - intros Hlt. destruct (H2 Hlt) as (e'&He'&Hle). exists e'. split; [|done].
    apply map_lookup_filter_Some. split; [done|cbn; lia].
  - intros Hlt. destruct (H3 Hlt) as (op&Hop&Hu&Hd). exists op. split_and!; try done.
    apply map_lookup_filter_Some. split; [done|cbn; lia].
Qed.

Lemma spent_step (id : bytes) (e d : Z) (s : ProbeAgent) (te : Z * probe_event) :
  spent id e d te.1 s → spent id e d te.1 (agent_step s te).
Proof.
  intros Hsp. pose proof (spent_sweep _ _ _ _ _ Hsp) as Hsw.
  destruct te as [now [arm|f ip]]; unfold agent_step; cbn [fst snd] in *.
  - destruct (ArmProbe_outcome s arm now) as [e0|e0|op|Hv Hnr Hno Hsz]; try done.
    destruct (decide (pa_ProbeID arm = id)) as [<-|Hne].
    + destruct Hsw as [_ H2 H3].
      assert (e ≤ now) by (apply Z.nlt_ge; intros (?&?&_)%H2; congruence).
      assert (d < now) by (apply Z.nle_gt; intros (?&?&_)%H3; congruence).
      split; [done|lia|lia].
    + destruct Hsw as [H1 H2 H3]. split; cbn [ag_ops ag_replay]; try done.
      * intros op. rewrite lookup_insert_ne by done. apply H1.
      * intros Hlt. rewrite lookup_insert_ne by done. by apply H3.
  - unfold HandleProbeIngress. destruct (ag_ops s !! pf_ProbeID f) as [op|] eqn:Eop; [|done].
    destruct (_ || _) eqn:Eu; [done|]. destruct (negb _); [done|]. bool_prop.
    destruct Hsp as [I1 I2 I3]. destruct (decide (pf_ProbeID f = id)) as [<-|Hne].
    + destruct (I1 op Eop ltac:(done)). split; cbn [fst ag_ops ag_replay]; [|lia|lia].
      intros op'. rewrite lookup_insert_eq. intros [= <-]. done.
    + split; cbn [fst ag_ops ag_replay].
      * intros op'. rewrite lookup_insert_ne by done. apply I1.
      * rewrite lookup_insert_ne by done. done.
      * rewrite lookup_insert_ne by done. done.
Qed.

Lemma spent_run (id : bytes) (e d t : Z) (tr : list (Z * probe_event)) (s : ProbeAgent) :
  monotone t tr → spent id e d t s → spent id e d (end_time t tr) (agent_run s tr).
Proof.
  revert t s; induction tr as [|te tr IH]; intros t s Hm Hs; [done|].
  destruct Hm as [Hle Hm]. cbn [agent_run fold_left end_time].
  apply IH; [done|]. apply spent_step. by eapply spent_later.
Qed.

(** What an accepted ingress found and what it leaves. *)
Lemma ingress_accepted (s : ProbeAgent) (f : ProviderFrame) (ip : bytes) (now : Z) :
  (HandleProbeIngress s f ip now).2 = true ↔
  ∃ op, ag_ops s !! pf_ProbeID f = Some op ∧ as_used op = false ∧ now ≤ as_deadline op ∧
    frame_bound op f ip = true.
Proof.
  unfold HandleProbeIngress. split.
  - intros Ha. destruct (ag_ops s !! pf_ProbeID f) as [op|] eqn:Eop; [|done].
    exists op. go_inv Ha; cbn in Ha; try done. bool_prop. split_and!; (done || lia).
  - intros (op&->&->&Hd&->). cbn. rewrite (proj2 (Z.ltb_ge _ _)) by lia. done.
Qed.

Lemma ingress_spent (s : ProbeAgent) (f : ProviderFrame) (ip : bytes) (now : Z) (op : armedProbeState) :
  (HandleProbeIngress s f ip now).2 = true → ag_ops s !! pf_ProbeID f = Some op →
  spent (pf_ProbeID f) (now + ProbeReplayWindow) (as_deadline op) now (HandleProbeIngress s f ip now).1.
Proof.
  unfold HandleProbeIngress. intros Ha Hop. rewrite Hop in *.
  destruct (_ || _); [done|]. destruct (negb _); [done|]. split; cbn [fst ag_ops ag_replay].
  - intros op'. rewrite lookup_insert_eq. by intros [= <-].
  - intros _. eexists. rewrite lookup_insert_eq. split; [done|lia].
  - intros _. eexists. by rewrite lookup_insert_eq.
Qed.

End Agent.

(** ** Properties of the agent *)

(** C6: a probe identifier is consumed at most once per replay window.  In
    any run of arms and ingress frames with a non-decreasing clock, if a frame
    for an identifier is accepted at [t1] and a later frame for the same
    identifier at [t2], then [t2] is at least five minutes after [t1] and past
    the deadline of the operation consumed first. *)
Theorem probe_at_most_once `{Crypto} (s : ProbeAgent) (tr : list (Z * probe_event))
    (f1 f2 : ProviderFrame) (ip1 ip2 : bytes) (t1 t2 : Z) :
  let s1 := (HandleProbeIngress s f1 ip1 t1).1 in
  (HandleProbeIngress s f1 ip1 t1).2 = true →
  monotone t1 tr → end_time t1 tr ≤ t2 →
  (HandleProbeIngress (agent_run s1 tr) f2 ip2 t2).2 = true →
  pf_ProbeID f2 = pf_ProbeID f1 →
  t1 + ProbeReplayWindow ≤ t2 ∧
  ∃ op, ag_ops s !! pf_ProbeID f1 = Some op ∧ as_deadline op < t2.
Proof.
  intros s1 Ha1 Hm Hlast Ha2 Hid.
  pose proof (proj1 (ingress_accepted s f1 ip1 t1) Ha1) as (op&Hop&_).
  pose proof (spent_run _ _ _ _ tr _ Hm (ingress_spent s f1 ip1 t1 op Ha1 Hop)) as Hsp.
  apply (spent_later _ _ _ _ t2) in Hsp; [|done].
  apply ingress_accepted in Ha2 as (op2&Hop2&Hu2&_). rewrite Hid in Hop2.
  destruct (sp_unused _ _ _ _ _ Hsp op2 Hop2 Hu2) as [Hw Hd].
  split; [done|]. exists op. done.
Qed.

(** In every state reachable from [NewProbeAgent] by any sequence of arms
    and ingress frames at any clock readings, at most 1024 operations are held,
    and every operation is stored under its own identifier, with the digest of
    its arm, the arm being valid. *)
Theorem probe_agent_invariant `{Crypto} (nodeKey : bytes) (tr : list (Z * probe_event)) :
  agent_wf (agent_run (NewProbeAgent nodeKey) tr).
Proof. apply agent_run_wf, NewProbeAgent_wf. Qed.

(** The exact behaviour of ingress.  A frame is accepted if and only if
    its identifier is armed, unused and not past its deadline, the source
    address, digest, provider, activation, endpoint and expiry opaque equal the
    arm's and the provider signature verifies; a rejected frame leaves the agent
    unchanged; an accepted one marks that operation used and records the replay
    entry, touching no other identifier. *)
Theorem probe_ingress_exact `{Crypto} (s s' : ProbeAgent) (f : ProviderFrame) (ip : bytes) (now : Z) (b : bool) :
  HandleProbeIngress s f ip now = (s', b) →
  (b = true ↔ ∃ op, ag_ops s !! pf_ProbeID f = Some op ∧ as_used op = false ∧ now ≤ as_deadline op ∧
     ip = pa_ExpectedSourceIP (as_arm op) ∧ pf_ArmDigest f = as_digest op ∧
     pf_ProviderID f = pa_ProviderID (as_arm op) ∧ pf_Activation f = pa_Activation (as_arm op) ∧
     pf_Endpoint f = pa_Endpoint (as_arm op) ∧ pf_ExpiryOpaque f = pa_ExpiryOpaque (as_arm op) ∧
     Verify (pa_ProviderPublicKey (as_arm op)) (provider_SigningBytes f) (pf_Signature f) = true) ∧
  (b = false → s' = s) ∧
  (b = true → (∃ op', ag_ops s' !! pf_ProbeID f = Some op' ∧ as_used op' = true) ∧
     ag_replay s' !! pf_ProbeID f = Some (now + ProbeReplayWindow) ∧
     ∀ id, id ≠ pf_ProbeID f → ag_ops s' !! id = ag_ops s !! id ∧ ag_replay s' !! id = ag_replay s !! id).
Proof.
  intros Hh. assert (Hb : b = (HandleProbeIngress s f ip now).2) by (by rewrite Hh).
  split_and!.
  - rewrite Hb, ingress_accepted. unfold frame_bound, arm_ProviderKey.
    setoid_rewrite andb_true_iff. repeat setoid_rewrite andb_true_iff.
    unfold bytes_eqb. setoid_rewrite bool_decide_eq_true. setoid_rewrite String.eqb_eq. naive_solver.
  - intros ->. unfold HandleProbeIngress in Hh. go_inv Hh; done.
  - intros ->. unfold HandleProbeIngress in Hh. go_inv Hh. cbn [ag_ops ag_replay].
    rewrite !lookup_insert_eq. split_and!; [by eexists|done|]. intros id Hid. by rewrite !lookup_insert_ne.
Qed.

(** The agent's replies for an accepted frame, signed with the node key. *)
Definition reply_ack `{Crypto} (key : bytes) (arm : ProbeArm) (f : ProviderFrame) : ProbeACK :=
  let a := mkACK (arm_Digest arm) (provider_ChallengeHash f) [] in
  mkACK (ak_ArmDigest a) (ak_ChallengeHash a) (ed25519_sign key (ack_SigningBytes a)).

Definition reply_receipt `{Crypto} (key : bytes) (arm : ProbeArm) (f : ProviderFrame) : ProbeReceipt :=
  let r := mkReceipt (arm_Digest arm) (provider_ChallengeHash f) (pa_ProviderID arm) [] in
  mkReceipt (rc_ArmDigest r) (rc_ChallengeHash r) (rc_ProviderID r) (ed25519_sign key (receipt_SigningBytes r)).

(** The frame an honest provider with key [kp] sends for an arm. *)
Definition provider_frame `{Crypto} (kp : bytes) (arm : ProbeArm) (challenge : bytes) : ProviderFrame :=
  let f := mkProvider (arm_Digest arm) (pa_ProbeID arm) (pa_ProviderID arm) (pa_Activation arm)
             (pa_Endpoint arm) (pa_ExpiryOpaque arm) challenge [] in
  mkProvider (pf_ArmDigest f) (pf_ProbeID f) (pf_ProviderID f) (pf_Activation f) (pf_Endpoint f)
    (pf_ExpiryOpaque f) challenge (ed25519_sign kp (provider_SigningBytes f)).

Lemma Verify_made `{CryptoLaws} (k m : bytes) :
  length k = PrivateKeySize → Verify (ed25519_public k) m (ed25519_sign k m) = true.
Proof. intros Hk. apply Verify_Sign. unfold Sign. by rewrite Hk. Qed.

Lemma ArmProbe_fresh `{Crypto} (s : ProbeAgent) (arm : ProbeArm) (now : Z) :
  arm_Validate arm = Ok tt → ag_ops s !! pa_ProbeID arm = None → ag_replay s !! pa_ProbeID arm = None →
  (size (ag_ops s) < ProbeOpMax)%nat →
  ∃ s', ArmProbe s arm now = (s', Ok (signArmed s (arm_Digest arm))) ∧ ag_nodeKey s' = ag_nodeKey s ∧
    ag_ops s' !! pa_ProbeID arm = Some (mkArmedState arm (arm_Digest arm) (now + pa_TTLMS arm * Millisecond) false).
Proof.
  intros Hv Ho Hr Hsz. unfold ArmProbe, arm_unreplayed. rewrite Hv. cbn [sweep ag_replay ag_ops ag_nodeKey].
  rewrite (map_lookup_filter_None_2 _ _ _ (or_introl Hr)), (map_lookup_filter_None_2 _ _ _ (or_introl Ho)).
  rewrite bool_decide_eq_false_2.
  2: { pose proof (size_filter_le (λ kv, ¬ as_deadline kv.2 < now) (ag_ops s)). lia. }
  eexists. split; [done|]. cbn [ag_nodeKey ag_ops]. split; [done|]. apply lookup_insert_eq.
Qed.

(** An honest probe succeeds end to end.  For a valid arm whose identifier
    is neither armed nor in the replay cache, with room in the table: arming
    succeeds and the RDY1 response parses under the node's public key; the WAN1
    frame of the pinned provider from the expected source within the TTL is
    accepted; and the Controller's join verifies for the node's ACK1 and RCT1
    replies. *)
Theorem probe_end_to_end `{CryptoLaws} (s : ProbeAgent) (arm : ProbeArm) (kp challenge : bytes) (now t : Z) :
  length (ag_nodeKey s) = PrivateKeySize → length kp = PrivateKeySize →
  arm_Validate arm = Ok tt → pa_ProviderPublicKey arm = ed25519_public kp →
  ag_ops s !! pa_ProbeID arm = None → ag_replay s !! pa_ProbeID arm = None →
  (size (ag_ops s) < ProbeOpMax)%nat → now ≤ t ≤ now + pa_TTLMS arm * Millisecond →
  let f := provider_frame kp arm challenge in
  let nodePub := ed25519_public (ag_nodeKey s) in
  ∃ s1 armed, ArmProbe s arm now = (s1, Ok armed) ∧
    ParseProbeArmed (armed_SigningBytes armed ++ pd_Signature armed) nodePub (arm_Digest arm) = Ok armed ∧
    (HandleProbeIngress s1 f (pa_ExpectedSourceIP arm) t).2 = true ∧
    VerifyProbeJoin arm f (reply_ack (ag_nodeKey s) arm f) (reply_receipt (ag_nodeKey s) arm f) nodePub = true.
Proof.
  intros Hnk Hkp Hv Hpk Ho Hr Hsz Ht f nodePub.
  destruct (ArmProbe_fresh s arm now Hv Ho Hr Hsz) as (s1&Harm&Hk1&Hop).
  exists s1, (signArmed s (arm_Digest arm)). split; [done|].
  assert (Hf : Verify (arm_ProviderKey arm) (provider_SigningBytes f) (pf_Signature f) = true).
  { unfold arm_ProviderKey. rewrite Hpk. by apply (Verify_made kp (provider_SigningBytes f)). }
  split_and!.
  - apply ParseProbeArmed_iff. unfold signArmed, Sign. rewrite Hnk. cbn [PrivateKeySize bool_decide negb].
    rewrite bool_decide_eq_true_2 by done. cbn [pd_ArmDigest pd_Signature negb].
    split_and!; [done|apply sha256_length|done|]. by apply (Verify_made (ag_nodeKey s)).
  - apply ingress_accepted. eexists. split; [exact Hop|]. cbn [as_used as_deadline]. split_and!; [done|lia|].
    unfold frame_bound. cbn [as_arm as_digest]. rewrite Hf. unfold bytes_eqb.
    cbn [f provider_frame pf_ArmDigest pf_ProviderID pf_Activation pf_Endpoint pf_ExpiryOpaque].
    rewrite !bool_decide_eq_true_2, String.eqb_refl by done. done.
  - unfold VerifyProbeJoin. rewrite Hv, Hf. cbn [is_ok negb reply_ack reply_receipt f provider_frame pf_ArmDigest pf_ProbeID
      pf_ProviderID pf_Activation pf_Endpoint pf_ExpiryOpaque ak_ArmDigest ak_ChallengeHash ak_Signature rc_ArmDigest
      rc_ChallengeHash rc_ProviderID rc_Signature].
    unfold bytes_eqb. rewrite !bool_decide_eq_true_2, String.eqb_refl by done. cbn [negb orb].
    unfold ack_SigningBytes, receipt_SigningBytes, nodePub.
    rewrite !Verify_made by done. done.
Qed.

(** The Controller's join accepts only evidence that binds one operation:
    the arm is valid; frame, ACK and receipt carry its digest; the frame repeats
    its identifiers, activation, endpoint and expiry opaque and is signed by the
    pinned provider; ACK and receipt carry the hash of the frame's challenge, and
    each is signed by the node over exactly that digest and hash. *)
Theorem probe_join_sound `{Crypto} (arm : ProbeArm) (f : ProviderFrame) (ack : ProbeACK) (rc : ProbeReceipt)
    (nodePub : bytes) :
  VerifyProbeJoin arm f ack rc nodePub = true →
  arm_Validate arm = Ok tt ∧
  (pf_ProbeID f, pf_ProviderID f, pf_Activation f, pf_Endpoint f, pf_ExpiryOpaque f) =
    (pa_ProbeID arm, pa_ProviderID arm, pa_Activation arm, pa_Endpoint arm, pa_ExpiryOpaque arm) ∧
  pf_ArmDigest f = arm_Digest arm ∧ rc_ProviderID rc = pa_ProviderID arm ∧
  ed25519_verify (pa_ProviderPublicKey arm) (provider_Canonical f) (pf_Signature f) = true ∧
  ed25519_verify nodePub (bytes_of ProbeMagicACK ++ arm_Digest arm ++ sha256 (pf_Challenge f)) (ak_Signature ack) = true ∧
  ed25519_verify nodePub (bytes_of ProbeMagicReceipt ++ arm_Digest arm ++ sha256 (pf_Challenge f) ++ pa_ProviderID arm)
    (rc_Signature rc) = true.
Proof.
  unfold VerifyProbeJoin. intros Hj. go_inv Hj. bool_prop.
  unfold ack_SigningBytes, receipt_SigningBytes, provider_ChallengeHash, arm_ProviderKey, provider_SigningBytes in *.
  repeat match goal with E : Verify _ _ _ = true |- _ => apply Verify_sizes in E as (_&_&E) end.
  split_and!; try congruence. by destruct (arm_Validate arm) as [[]|].
Qed.

(** ** Concrete runs *)

Definition sample_arm (ttl : Z) : ProbeArm :=
  mkArm (repeat Byte.x01 16) (repeat Byte.x02 16) (drop 32 sample_key) (map u8 [9; 9; 9; 9]) (repeat Byte.x03 16)
    "8.8.8.8:443" ttl (repeat Byte.x04 16).
Definition sample_agent : ProbeAgent := NewProbeAgent sample_key.
Definition sample_wan (ttl : Z) : ProviderFrame :=
  @provider_frame toy_crypto sample_key (sample_arm ttl) (repeat Byte.x05 32).
Definition sample_ip : bytes := map u8 [9; 9; 9; 9].
Definition armed_agent (ttl : Z) : ProbeAgent := (@ArmProbe toy_crypto sample_agent (sample_arm ttl) 0).1.
Definition used_agent (ttl : Z) : ProbeAgent :=
  (@HandleProbeIngress toy_crypto (armed_agent ttl) (sample_wan ttl) sample_ip 5).1.

Lemma probe_at_most_once_witness : 5 + ProbeReplayWindow ≤ ProbeReplayWindow + 7.
Proof.
  refine (proj1 (@probe_at_most_once toy_crypto (armed_agent 1) [(ProbeReplayWindow + 6, EvArm (sample_arm 1))]
    (sample_wan 1) (sample_wan 1) sample_ip sample_ip 5 (ProbeReplayWindow + 7) _ _ _ _ _)).
  - vm_compute. reflexivity.
  - cbn. unfold ProbeReplayWindow, Minute, Millisecond. lia.
  - cbn. lia.
  - vm_compute. reflexivity.
  - reflexivity.
Defined.

Lemma probe_ingress_exact_witness :
  (@HandleProbeIngress toy_crypto (armed_agent 1000) (sample_wan 1000) sample_ip 5).1 = used_agent 1000 ∧
  ag_replay (used_agent 1000) !! pf_ProbeID (sample_wan 1000) = Some (5 + ProbeReplayWindow).
Proof.
  split; [reflexivity|].
  refine (proj1 (proj2 (proj2 (proj2 (@probe_ingress_exact toy_crypto (armed_agent 1000) (used_agent 1000)
    (sample_wan 1000) sample_ip 5 true _)) _))); vm_compute; reflexivity.
Defined.

Lemma probe_end_to_end_witness :
  ∃ s1 armed, @ArmProbe toy_crypto sample_agent (sample_arm 1000) 0 = (s1, Ok armed) ∧
    @ParseProbeArmed toy_crypto (armed_SigningBytes armed ++ pd_Signature armed) (drop 32 sample_key)
      (@arm_Digest toy_crypto (sample_arm 1000)) = Ok armed ∧
    (@HandleProbeIngress toy_crypto s1 (sample_wan 1000) sample_ip 5).2 = true ∧
    @VerifyProbeJoin toy_crypto (sample_arm 1000) (sample_wan 1000)
      (@reply_ack toy_crypto sample_key (sample_arm 1000) (sample_wan 1000))
      (@reply_receipt toy_crypto sample_key (sample_arm 1000) (sample_wan 1000)) (drop 32 sample_key) = true.
Proof.
  refine (@probe_end_to_end toy_crypto toy_crypto_laws sample_agent (sample_arm 1000) sample_key (repeat Byte.x05 32)
    0 5 _ _ _ _ _ _ _ _); try (vm_compute; reflexivity).
  - vm_compute. lia.
  - cbn. unfold Millisecond. lia.
Defined.

Lemma probe_join_sound_witness :
  pf_ArmDigest (sample_wan 1000) = @arm_Digest toy_crypto (sample_arm 1000).
Proof.
  refine (proj1 (proj2 (proj2 (@probe_join_sound toy_crypto (sample_arm 1000) (sample_wan 1000)
    (@reply_ack toy_crypto sample_key (sample_arm 1000) (sample_wan 1000))
    (@reply_receipt toy_crypto sample_key (sample_arm 1000) (sample_wan 1000)) (drop 32 sample_key) _)))).
  vm_compute. reflexivity.
Defined.

(** A consumed operation with a TTL longer than the replay window: once the
    window has passed, re-arming it still answers with a signed RDY1, although
    every frame for it is rejected until its deadline. *)
Example rearm_of_consumed_operation :
  let s := used_agent 3600000 in
  let t := ProbeReplayWindow + 10 in
  is_ok (@ArmProbe toy_crypto s (sample_arm 3600000) t).2 = true ∧
  (@HandleProbeIngress toy_crypto (@ArmProbe toy_crypto s (sample_arm 3600000) t).1 (sample_wan 3600000) sample_ip t).2 = false.
Proof. vm_compute. split; reflexivity. Qed.

(** A consumed operation whose deadline has passed is swept, and re-arming the
    identical arm within the replay window reports an identifier conflict. *)
Example rearm_after_sweep_conflicts :
  (@ArmProbe toy_crypto (used_agent 1) (sample_arm 1) (2 * Millisecond)).2 = Err ErrProbeIDConflict.
Proof. vm_compute. reflexivity. Qed.
