(* ===== verification/StrictJson.v ===== *)
(** * Strict JSON payloads ([src/internal/protocol/strictjson.go])

    The token pass: duplicate keys, unknown fields, depth, number range, kinds
    and trailing content.  [json.Decoder] is the stream of tokens its [Token]
    method yields, ended by [io.EOF] or by a syntax error; the lexer from bytes
    to that stream belongs to [encoding/json] and is a parameter of
    [decodeStrict].  The reflective second pass ([DecodeStrictJSONInto]) is not
    modelled. *)

From Stdlib Require Import ZArith Lia Strings.Byte.
From stdpp Require Import base tactics list sets strings option.
From S2P Require Import Prelude GoStd Frame Envelope.

Open Scope Z_scope.

(** ** Tokens and the decoder *)

Inductive token : Type :=
  | TObjOpen | TObjClose | TArrOpen | TArrClose
  | TString (s : string) | TNumber (s : bytes) | TBool (b : bool) | TNull.

Inductive stream_end : Type := StreamEOF | StreamSyntaxError.

Record decoder : Type := mkDecoder { d_tokens : list token; d_end : stream_end }.

Definition Token (d : decoder) : option (token * decoder) :=
  match d_tokens d with
  | [] => None
  | t :: ts => Some (t, mkDecoder ts (d_end d))
  end.

Inductive json_code : Type :=
  | CodeDuplicateKey (field : string) | CodeUnknownField (field : string) | CodeTooDeep | CodeNumberOverflow
  | CodeTrailingGarbage | CodeMalformed | CodeNotObject | CodeEmpty | CodeKindMismatch | CodeUnexpectedToken
  | CodePayloadTooLarge | OutOfFuel.

Inductive FieldKind : Type :=
  | KindString | KindInt | KindBool | KindHex | KindStringArray | KindObject | KindAny.

#[export] Instance FieldKind_eq_dec : EqDecision FieldKind.
Proof. solve_decision. Defined.

(** Decoded values ([any] in Go); a Go map is the list of its bindings. *)
Inductive jval : Type :=
  | VString (s : string) | VInt (z : Z) | VBool (b : bool) | VNull
  | VArr (l : list jval) | VObj (kvs : list (string * jval)).

(** ** Numbers and scalars *)

(** Go's [<=] on strings. *)
Fixpoint bytes_leb (a b : bytes) : bool :=
  match a, b with
  | [], _ => true
  | _ :: _, [] => false
  | x :: a', y :: b' =>
      if b2z x <? b2z y then true else if b2z y <? b2z x then false else bytes_leb a' b'
  end.

Definition maxI64 : bytes := bytes_of "9223372036854775807".

Definition IsBoundedJSONNumber (n : bytes) : bool :=
  if existsb (λ b, bool_decide (b = dot) || bool_decide (b = "e"%byte) || bool_decide (b = "E"%byte)) n then false
  else
    let '(negative, s) :=
      match n with
      | b :: s' => if bool_decide (b = minus_sign) then (true, s') else (false, n)
      | [] => (false, n)
      end in
    if zlen s =? 0 then false
    else if (zlen s <? zlen maxI64) || ((zlen s =? zlen maxI64) && bytes_leb s maxI64)
    then negb ((negative : bool) && (zlen s =? zlen maxI64 + 1) && bytes_eqb s (bytes_of "9223372036854775808"))
    else false.

Definition kind_is (k : FieldKind) (l : list FieldKind) : bool := bool_decide (k ∈ l).

Definition checkScalarKind (kind : FieldKind) (value : string) : result json_code unit :=
  match kind with
  | KindAny | KindString => Ok tt
  | KindHex => fail_if negb (hex_decodes (bytes_of value)) with CodeKindMismatch ;; Ok tt
  | _ => Err CodeKindMismatch
  end.

(** The scalar cases shared by [walkValue] and [walkTokenValue]. *)
Definition walkScalar (tok : token) (kind : FieldKind) : result json_code jval :=
  match tok with
  | TString s => let* _ := checkScalarKind kind s in Ok (VString s)
  | TNumber n =>
      fail_if negb (kind_is kind [KindAny; KindInt]) with CodeKindMismatch ;;
      fail_if negb (IsBoundedJSONNumber n) with CodeNumberOverflow ;;
      of_option CodeNumberOverflow (VInt <$> Atoi n)
  | TBool b => fail_if negb (kind_is kind [KindAny; KindBool]) with CodeKindMismatch ;; Ok (VBool b)
  | TNull => Ok VNull
  | _ => Err CodeUnexpectedToken
  end.

(** [if kind == KindStringArray { return KindString }; return KindAny] *)
Definition item_kind (kind : FieldKind) : FieldKind :=
  match kind with KindStringArray => KindString | _ => KindAny end.

(** ** The walkers

    [walkItems] is the array loop of both value walkers. *)

Fixpoint walkObject (fuel : nat) (d : decoder) (schema : option (list (string * FieldKind))) (depth : Z)
    (seen : list string) (out : list (string * jval)) {struct fuel} : result json_code (list (string * jval) * decoder) :=
  match fuel with
  | O => Err OutOfFuel
  | S fuel' =>
      match Token d with
      | None => Err CodeMalformed
      | Some (TObjClose, d') => Ok (out, d')
      | Some (TString key, d') =>
          fail_if existsb (String.eqb key) seen with CodeDuplicateKey key ;;
          let* kind :=
            match schema with
            | None => Ok KindAny
            | Some fields =>
                match List.find (λ f, String.eqb (fst f) key) fields with
                | Some (_, k) => Ok k
                | None => Err (CodeUnknownField key)
                end
            end in
          let* (value, d'') := walkValue fuel' d' kind (depth + 1) in
          walkObject fuel' d'' schema depth (key :: seen) (out ++ [(key, value)])
      | Some _ => Err CodeUnexpectedToken
      end
  end

with walkValue (fuel : nat) (d : decoder) (kind : FieldKind) (depth : Z) {struct fuel}
    : result json_code (jval * decoder) :=
  match fuel with
  | O => Err OutOfFuel
  | S fuel' =>
      fail_if MaxJSONDepth <? depth with CodeTooDeep ;;
      match Token d with
      | None => Err CodeMalformed
      | Some (TObjOpen, d') =>
          fail_if negb (kind_is kind [KindAny; KindObject]) with CodeKindMismatch ;;
          fail_if MaxJSONDepth <? depth with CodeTooDeep ;;
          let* (obj, d'') := walkObject fuel' d' None depth [] [] in
          Ok (VObj obj, d'')
      | Some (TArrOpen, d') =>
          fail_if negb (kind_is kind [KindAny; KindStringArray]) with CodeKindMismatch ;;
          let* (arr, d'') := walkItems fuel' d' (item_kind kind) (depth + 1) [] in
          Ok (VArr arr, d'')
      | Some (tok, d') => let* v := walkScalar tok kind in Ok (v, d')
      end
  end

with walkTokenValue (fuel : nat) (d : decoder) (tok : token) (kind : FieldKind) (depth : Z) {struct fuel}
    : result json_code (jval * decoder) :=
  match fuel with
  | O => Err OutOfFuel
  | S fuel' =>
      fail_if MaxJSONDepth <? depth with CodeTooDeep ;;
      match tok with
      | TObjOpen =>
          fail_if negb (kind_is kind [KindAny; KindObject]) with CodeKindMismatch ;;
          fail_if MaxJSONDepth <? depth with CodeTooDeep ;;
          let* (obj, d') := walkObject fuel' d None depth [] [] in
          Ok (VObj obj, d')
      | TArrOpen =>
          fail_if negb (kind_is kind [KindAny]) with CodeKindMismatch ;;
          let* (arr, d') := walkItems fuel' d KindAny (depth + 1) [] in
          Ok (VArr arr, d')
      | _ => let* v := walkScalar tok kind in Ok (v, d)
      end
  end

with walkItems (fuel : nat) (d : decoder) (kind : FieldKind) (depth : Z) (arr : list jval) {struct fuel}
    : result json_code (list jval * decoder) :=
  match fuel with
  | O => Err OutOfFuel
  | S fuel' =>
      match Token d with
      | None => Err CodeMalformed
      | Some (TArrClose, d') => Ok (arr, d')
      | Some (tok, d') =>
          let* (item, d'') := walkTokenValue fuel' d' tok kind depth in
          walkItems fuel' d'' kind depth (arr ++ [item])
      end
  end.

(** Fuel for a stream of [n] tokens. *)
Definition walk_fuel (n : nat) : nat := 2 * n + 2.

Section Decode.
Variable lexer : bytes → decoder.

Definition decodeStrict (payload : bytes) (schema : option (list (string * FieldKind)))
    : result json_code (list (string * jval)) :=
  fail_if zlen payload =? 0 with CodeEmpty ;;
  fail_if MaxPayloadBytes <? zlen payload with CodePayloadTooLarge ;;
  match Token (lexer payload) with
  | None => Err CodeMalformed
  | Some (TObjOpen, d) =>
      let* (out, d') := walkObject (walk_fuel (length (d_tokens d))) d schema 0 [] [] in
      match Token d', d_end d' with
      | None, StreamEOF => Ok out
      | _, _ => Err CodeTrailingGarbage
      end
  | Some _ => Err CodeNotObject
  end.

Definition ValidateStrictJSON (payload : bytes) (schema : option (list (string * FieldKind)))
    : result json_code unit :=
  let* _ := decodeStrict payload schema in Ok tt.

End Decode.

(** ** Specification: JSON documents *)

Inductive json : Type :=
  | JNull | JBool (b : bool) | JNum (n : bytes) | JStr (s : string)
  | JArr (l : list json) | JObj (kvs : list (string * json)).

(** Induction over documents, through arrays and objects. *)
Fixpoint json_ind' (P : json → Prop) (h1 : P JNull) (h2 : ∀ b, P (JBool b)) (h3 : ∀ n, P (JNum n))
    (h4 : ∀ s, P (JStr s)) (h5 : ∀ l, Forall P l → P (JArr l))
    (h6 : ∀ kvs, Forall (λ kv, P (snd kv)) kvs → P (JObj kvs)) (j : json) : P j :=
  match j with
  | JNull => h1 | JBool b => h2 b | JNum n => h3 n | JStr s => h4 s
  | JArr l => h5 l ((fix go (l : list json) : Forall P l :=
      match l with
      | [] => List.Forall_nil _
      | x :: l' => List.Forall_cons _ _ _ (json_ind' P h1 h2 h3 h4 h5 h6 x) (go l')
      end) l)
  | JObj kvs => h6 kvs ((fix go (l : list (string * json)) : Forall (λ kv, P (snd kv)) l :=
      match l with
      | [] => List.Forall_nil _
      | kv :: l' => List.Forall_cons _ _ _ (json_ind' P h1 h2 h3 h4 h5 h6 (snd kv)) (go l')
      end) kvs)
  end.

(** The tokens of a document. *)
Fixpoint tokens (j : json) : list token :=
  match j with
  | JNull => [TNull] | JBool b => [TBool b] | JNum n => [TNumber n] | JStr s => [TString s]
  | JArr l => TArrOpen :: concat (map tokens l) ++ [TArrClose]
  | JObj kvs => TObjOpen :: concat (map (λ kv, TString (fst kv) :: tokens (snd kv)) kvs) ++ [TObjClose]
  end.

(** The value of a document ([0] for a number out of range, which no accepted
    document holds). *)
Fixpoint value (j : json) : jval :=
  match j with
  | JNull => VNull | JBool b => VBool b | JNum n => VInt (default 0 (Atoi n)) | JStr s => VString s
  | JArr l => VArr (map value l)
  | JObj kvs => VObj (map (λ kv, (fst kv, value (snd kv))) kvs)
  end.

Definition scalar_ok (tok : token) (kind : FieldKind) : bool := is_ok (walkScalar tok kind).

Definition unique_keys {A} (kvs : list (string * A)) : bool := bool_decide (NoDup (fst <$> kvs)).

(** The strictness rules on documents: depth at most 16, no repeated key in any
    object, numbers in range, kinds respected. *)
Fixpoint conforms (kind : FieldKind) (depth : Z) (j : json) : bool :=
  (depth <=? MaxJSONDepth) &&
  match j with
  | JNull => true
  | JBool b => kind_is kind [KindAny; KindBool]
  | JNum n => kind_is kind [KindAny; KindInt] && IsBoundedJSONNumber n && bool_decide (is_Some (Atoi n))
  | JStr s => is_ok (checkScalarKind kind s)
  | JArr l => kind_is kind [KindAny; KindStringArray] && forallb (conforms (item_kind kind) (depth + 1)) l
  | JObj kvs => kind_is kind [KindAny; KindObject] && unique_keys kvs
                && forallb (λ kv, conforms KindAny (depth + 1) (snd kv)) kvs
  end.

(** A field of an object at [depth] against the schema; [None] allows every field. *)
Definition field_conforms (schema : option (list (string * FieldKind))) (depth : Z) (kv : string * json) : bool :=
  match schema with
  | None => conforms KindAny depth (snd kv)
  | Some fields =>
      match List.find (λ f, String.eqb (fst f) (fst kv)) fields with
      | Some (_, k) => conforms k depth (snd kv)
      | None => false
      end
  end.

Definition document_ok (schema : option (list (string * FieldKind))) (kvs : list (string * json)) : bool :=
  unique_keys kvs && forallb (field_conforms schema 1) kvs.

(** ** Lemmas: the walkers compute the rules *)

(** A walker's result against its specification: the value when the rules hold,
    an error other than running out of fuel when they do not. *)
Definition agrees {A} (r : result json_code A) (holds : bool) (v : A) : Prop :=
  if holds then r = Ok v else ∃ e, r = Err e ∧ e ≠ OutOfFuel.

Lemma agrees_err {A} (e : json_code) (v : A) : e ≠ OutOfFuel → agrees (Err e) false v.
Proof. intros He. by exists e. Qed.

Lemma tokens_nonempty (j : json) : ∃ t ts, tokens j = t :: ts ∧ t ≠ TObjClose ∧ t ≠ TArrClose.
Proof. destruct j; cbn [tokens]; eauto 10. Qed.

Lemma length_tokens_pos (j : json) : (1 ≤ length (tokens j))%nat.
Proof. destruct (tokens_nonempty j) as (t&ts&->&_). cbn. lia. Qed.

Lemma walkValue_token (fuel : nat) (tok : token) (ts : list token) (e : stream_end) (kind : FieldKind) (depth : Z) :
  kind ≠ KindStringArray →
  walkTokenValue fuel (mkDecoder ts e) tok kind depth = walkValue fuel (mkDecoder (tok :: ts) e) kind depth.
Proof.
  intros Hk. destruct fuel as [|fuel]; [done|]. cbn [walkTokenValue walkValue Token d_tokens d_end].
  destruct (MaxJSONDepth <? depth); [done|]. destruct tok, kind; try done.
Qed.

Lemma walkScalar_agrees (tok : token) (kind : FieldKind) :
  match tok with TObjOpen | TObjClose | TArrOpen | TArrClose => False | _ => True end →
  match walkScalar tok kind with Ok _ => True | Err e => e ≠ OutOfFuel end.
Proof.
  destruct tok; try done; cbn [walkScalar]; intros _; unfold checkScalarKind, of_option.
  - go_cases; (done || congruence).
  - go_cases; (done || congruence).
  - go_cases; (done || congruence).
Qed.

Definition walks (j : json) : Prop :=
  ∀ fuel kind depth rest e, (2 * length (tokens j) ≤ fuel)%nat →
    agrees (walkValue fuel (mkDecoder (tokens j ++ rest) e) kind depth) (conforms kind depth j)
      (value j, mkDecoder rest e).

Lemma agrees_false_l {A} (e : json_code) (b : bool) (v : A) : e ≠ OutOfFuel → b = false → agrees (Err e) b v.
Proof. intros He ->. by apply agrees_err. Qed.

Lemma item_kind_not_array (k : FieldKind) : item_kind k ≠ KindStringArray.
Proof. by destruct k. Qed.

Lemma walkItems_agrees (l : list json) (kind : FieldKind) (depth : Z) (rest : list token) (e : stream_end) :
  Forall walks l → kind ≠ KindStringArray → ∀ fuel acc,
  (2 * length (concat (map tokens l)) + 1 ≤ fuel)%nat →
  agrees (walkItems fuel (mkDecoder (concat (map tokens l) ++ TArrClose :: rest) e) kind depth acc)
    (forallb (conforms kind depth) l) (acc ++ map value l, mkDecoder rest e).
Proof.
  intros Hl Hk. induction Hl as [|j l Hj _ IH]; intros fuel acc Hf.
  { destruct fuel as [|fuel]; [cbn in Hf; lia|]. cbn. by rewrite app_nil_r. }
  cbn [map concat forallb] in *. rewrite length_app in Hf. pose proof (length_tokens_pos j).
  destruct fuel as [|fuel]; [lia|].
  destruct (tokens_nonempty j) as (t&ts&Ht&_&Hc). rewrite <- app_assoc.
  specialize (Hj fuel kind depth (concat (map tokens l) ++ TArrClose :: rest) e ltac:(lia)).
  rewrite Ht in *. cbn [app] in *. rewrite <- walkValue_token in Hj by done.
  replace (walkItems (S fuel) _ kind depth acc) with
    (let* (item, d'') := walkTokenValue fuel (mkDecoder (ts ++ concat (map tokens l) ++ TArrClose :: rest) e) t kind depth in
     walkItems fuel d'' kind depth (acc ++ [item])) by (by destruct t).
  destruct (conforms kind depth j); cbn [andb agrees] in Hj |- *.
  - rewrite Hj. specialize (IH fuel (acc ++ [value j]) ltac:(lia)). by rewrite <- app_assoc in IH.
  - destruct Hj as (e'&->&He'). by apply agrees_err.
Qed.

(** The keys are new and distinct. *)
Fixpoint fresh_keys (seen : list string) (keys : list string) : bool :=
  match keys with
  | [] => true
  | k :: keys' => negb (existsb (String.eqb k) seen) && fresh_keys (k :: seen) keys'
  end.

Definition entry_tokens (kv : string * json) : list token := TString (fst kv) :: tokens (snd kv).
Definition entry_value (kv : string * json) : string * jval := (fst kv, value (snd kv)).

Lemma walkObject_agrees (kvs : list (string * json)) (schema : option (list (string * FieldKind))) (depth : Z)
    (rest : list token) (e : stream_end) :
  Forall (λ kv, walks (snd kv)) kvs → ∀ fuel seen out,
  (2 * length (concat (map entry_tokens kvs)) + 1 ≤ fuel)%nat →
  agrees (walkObject fuel (mkDecoder (concat (map entry_tokens kvs) ++ TObjClose :: rest) e) schema depth seen out)
    (fresh_keys seen (map fst kvs) && forallb (field_conforms schema (depth + 1)) kvs)
    (out ++ map entry_value kvs, mkDecoder rest e).
Proof.
  intros Hkvs. induction Hkvs as [|[k j] kvs Hj _ IH]; intros fuel seen out Hf.
  { destruct fuel as [|fuel]; [cbn in Hf; lia|]. cbn. by rewrite app_nil_r. }
  cbn [map concat forallb fresh_keys fst snd] in *. change (entry_tokens (k, j)) with (TString k :: tokens j) in *.
  change (entry_value (k, j)) with (k, value j). cbn [app length] in Hf. rewrite length_app in Hf.
  destruct fuel as [|fuel]; [lia|].
  cbn [walkObject Token d_tokens d_end app].
  destruct (existsb (String.eqb k) seen); cbn [negb andb]; [by apply agrees_err|].
  rewrite <- app_assoc.
  assert (Hval : ∀ kind, agrees (let* (v, d'') := walkValue fuel
      (mkDecoder (tokens j ++ concat (map entry_tokens kvs) ++ TObjClose :: rest) e) kind (depth + 1) in
      walkObject fuel d'' schema depth (k :: seen) (out ++ [(k, v)]))
    (fresh_keys (k :: seen) (map fst kvs) &&
     (conforms kind (depth + 1) j && forallb (field_conforms schema (depth + 1)) kvs))
    (out ++ (k, value j) :: map entry_value kvs, mkDecoder rest e)).
  { intros kind. specialize (Hj fuel kind (depth + 1) (concat (map entry_tokens kvs) ++ TObjClose :: rest) e ltac:(lia)).
    destruct (conforms kind (depth + 1) j); cbn [andb agrees] in Hj |- *.
    - rewrite Hj. specialize (IH fuel (k :: seen) (out ++ [(k, value j)]) ltac:(lia)). by rewrite <- app_assoc in IH.
    - destruct Hj as (e'&->&He'). rewrite andb_false_r. by apply agrees_err. }
  unfold field_conforms at 1. cbn [fst snd]. destruct schema as [fields|]; [|apply Hval].
  destruct (List.find _ fields) as [[k' kind]|]; [apply Hval|].
  cbn [andb]. rewrite andb_false_r. by apply agrees_err.
Qed.

Lemma fresh_keys_iff (keys seen : list string) :
  fresh_keys seen keys = true ↔ NoDup keys ∧ ∀ k, k ∈ keys → k ∉ seen.
Proof.
  revert seen; induction keys as [|k keys IH]; intros seen; cbn [fresh_keys].
  { split; [|done]. intros _. split; [apply NoDup_nil_2|]. intros k Hk. by apply not_elem_of_nil in Hk. }
  rewrite andb_true_iff, IH.
  assert (Hs : negb (existsb (String.eqb k) seen) = true ↔ k ∉ seen).
  { rewrite negb_true_iff, <- not_true_iff_false, existsb_exists. setoid_rewrite String.eqb_eq.
    setoid_rewrite <- list_elem_of_In. naive_solver. }
  rewrite Hs, list.NoDup_cons. set_solver.
Qed.

Lemma fresh_keys_unique {A} (kvs : list (string * A)) : fresh_keys [] (map fst kvs) = unique_keys kvs.
Proof.
  unfold unique_keys. apply eq_true_iff_eq. rewrite fresh_keys_iff, bool_decide_eq_true. change (map fst kvs) with (fst <$> kvs).
  set_solver.
Qed.

Lemma walks_all (j : json) : walks j.
Proof.
  induction j as [|b|n|s|l IH|kvs IH] using json_ind'; intros fuel kind depth rest e Hf;
    (destruct fuel as [|fuel]; [cbn in Hf; lia|]); cbn [tokens app walkValue Token d_tokens d_end conforms value];
    rewrite Z.leb_antisym; destruct (MaxJSONDepth <? depth) eqn:Ed; cbn [negb andb];
    try (by apply agrees_err).
  - done.
  - cbn [walkScalar]. destruct (kind_is kind _); cbn [negb]; [done|by apply agrees_err].
  - cbn [walkScalar]. destruct (kind_is kind _); cbn [negb andb]; [|by apply agrees_err].
    destruct (IsBoundedJSONNumber n); cbn [negb andb]; [|by apply agrees_err].
    destruct (Atoi n) as [z|]; cbn [negb]; [done|by apply agrees_err].
  - cbn [walkScalar]. destruct kind; cbn [checkScalarKind is_ok]; try done; try (by apply agrees_err).
    destruct (hex_decodes _); cbn [negb]; [done|by apply agrees_err].
  - destruct (kind_is kind _); cbn [negb andb]; [|by apply agrees_err].
    rewrite <- app_assoc. cbn [app].
    pose proof (walkItems_agrees l (item_kind kind) (depth + 1) rest e IH (item_kind_not_array kind) fuel []) as Hi.
    cbn [tokens length] in Hf. rewrite length_app in Hf. specialize (Hi ltac:(cbn [length] in Hf; lia)).
    destruct (forallb _ l); cbn [agrees app] in *; [by rewrite Hi|]. destruct Hi as (e'&->&?). by exists e'.
  - destruct (kind_is kind _); cbn [negb andb]; [|by apply agrees_err].
    rewrite <- app_assoc. cbn [app]. change (λ kv, TString kv.1 :: tokens kv.2) with entry_tokens.
    pose proof (walkObject_agrees kvs None depth rest e IH fuel [] []) as Ho.
    cbn [tokens length] in Hf. rewrite length_app in Hf. change (λ kv, TString kv.1 :: tokens kv.2) with entry_tokens in Hf.
    specialize (Ho ltac:(cbn [length] in Hf; lia)).
    rewrite fresh_keys_unique in Ho. change (λ kv, conforms KindAny (depth + 1) kv.2) with (field_conforms None (depth + 1)).
    destruct (unique_keys kvs && _); cbn [agrees app] in *; [by rewrite Ho|]. destruct Ho as (e'&->&?). by exists e'.
Qed.

(** ** Lemmas: fuel *)

(** No walker runs out of fuel, and each consumes the tokens it reads. *)
Lemma walkers_enough_fuel (fuel : nat) :
  (∀ d schema depth seen out, (2 * length (d_tokens d) + 1 ≤ fuel)%nat →
    match walkObject fuel d schema depth seen out with
    | Ok (_, d') => (length (d_tokens d') < length (d_tokens d))%nat | Err e => e ≠ OutOfFuel end) ∧
  (∀ d kind depth, (2 * length (d_tokens d) + 1 ≤ fuel)%nat →
    match walkValue fuel d kind depth with
    | Ok (_, d') => (length (d_tokens d') < length (d_tokens d))%nat | Err e => e ≠ OutOfFuel end) ∧
  (∀ d tok kind depth, (2 * length (d_tokens d) + 2 ≤ fuel)%nat →
    match walkTokenValue fuel d tok kind depth with
    | Ok (_, d') => (length (d_tokens d') ≤ length (d_tokens d))%nat | Err e => e ≠ OutOfFuel end) ∧
  (∀ d kind depth arr, (2 * length (d_tokens d) + 1 ≤ fuel)%nat →
    match walkItems fuel d kind depth arr with
    | Ok (_, d') => (length (d_tokens d') < length (d_tokens d))%nat | Err e => e ≠ OutOfFuel end).
Proof.
  induction fuel as [|fuel (IHo&IHv&IHt&IHi)]; [split_and!; intros; lia|].
  split_and!.
  - intros [ts e] schema depth seen out Hf. cbn [walkObject Token d_tokens d_end] in *.
    destruct ts as [|t ts]; [done|]. cbn [length] in Hf. cbn [Token d_tokens d_end].
    destruct t as [| | | |key| | |]; try done; [cbn; lia|]. destruct (existsb _ seen); [done|].
    set (k := match schema with Some _ => _ | None => _ end).
    assert (Hk : k ≠ Err OutOfFuel) by (unfold k; destruct schema as [fs|]; [destruct (List.find _ fs) as [[]|]|]; done).
    destruct k as [kind|]; [|congruence].
    specialize (IHv (mkDecoder ts e) kind (depth + 1) ltac:(cbn; lia)).
    destruct (walkValue _ _ _ _) as [[v d'']|]; [|done]. cbn in IHv.
    specialize (IHo d'' schema depth (key :: seen) (out ++ [(key, v)]) ltac:(lia)).
    destruct (walkObject _ _ _ _ _ _) as [[]|]; [cbn; lia|done].
  - intros [ts e] kind depth Hf. cbn [walkValue Token d_tokens d_end] in *.
    destruct (MaxJSONDepth <? depth); [done|]. destruct ts as [|t ts]; [done|]. cbn [length] in Hf. cbn [Token d_tokens d_end].
    assert (Hs : match walkScalar t kind with Ok _ => True | Err e => e ≠ OutOfFuel end)
      by (destruct t; try done; by apply walkScalar_agrees).
    destruct t; try (destruct (walkScalar _ kind); [cbn; lia|done]).
    + destruct (negb _); [done|]. specialize (IHo (mkDecoder ts e) None depth [] [] ltac:(cbn; lia)).
      destruct (walkObject _ _ _ _ _ _) as [[]|]; [cbn in *; lia|done].
    + destruct (negb _); [done|]. specialize (IHi (mkDecoder ts e) (item_kind kind) (depth + 1) [] ltac:(cbn; lia)).
      destruct (walkItems _ _ _ _ _) as [[]|]; [cbn in *; lia|done].
  - intros d tok kind depth Hf. cbn [walkTokenValue].
    destruct (MaxJSONDepth <? depth); [done|].
    assert (Hs : match walkScalar tok kind with Ok _ => True | Err e => e ≠ OutOfFuel end)
      by (destruct tok; try done; by apply walkScalar_agrees).
    destruct tok; try (destruct (walkScalar _ kind); [done|done]).
    + destruct (negb _); [done|]. specialize (IHo d None depth [] [] ltac:(lia)).
      destruct (walkObject _ _ _ _ _ _) as [[]|]; [lia|done].
    + destruct (negb _); [done|]. specialize (IHi d KindAny (depth + 1) [] ltac:(lia)).
      destruct (walkItems _ _ _ _ _) as [[]|]; [lia|done].
  - intros [ts e] kind depth arr Hf. cbn [walkItems Token d_tokens d_end] in *.
    destruct ts as [|t ts]; [done|]. cbn [length] in Hf. cbn [Token d_tokens d_end].
    specialize (IHt (mkDecoder ts e) t kind depth ltac:(cbn; lia)).
    destruct t; try (destruct (walkTokenValue _ _ _ _ _) as [[v d'']|]; [cbn in IHt|done];
      specialize (IHi d'' kind depth (arr ++ [v]) ltac:(lia));
      destruct (walkItems _ _ _ _ _) as [[]|]; [cbn; lia|done]).
    cbn. lia.
Qed.

(** ** Lemmas: numbers *)

Definition digit_of (b : byte) : Z := b2z b - 48.

Fixpoint decimal (s : bytes) : Z :=
  match s with [] => 0 | b :: s' => digit_of b * 10 ^ zlen s' + decimal s' end.

Lemma digit_spec (b : byte) : digit b → digit_val b = Some (digit_of b) ∧ 0 ≤ digit_of b ≤ 9.
Proof.
  intros [d Hd]. pose proof Hd as Hd'. apply digit_val_range in Hd' as [Hr Hb].
  assert (digit_of b = d) as -> by (unfold digit_of; rewrite Hb, b2z_u8, Z.mod_small; lia). done.
Qed.

Lemma decimal_range (s : bytes) : Forall digit s → 0 ≤ decimal s < 10 ^ zlen s.
Proof.
  induction 1 as [|b s Hb _ IH]; [done|]. cbn [decimal]. rewrite zlen_cons.
  apply digit_spec in Hb as [_ Hb]. pose proof (zlen_nonneg s). rewrite Z.pow_add_r by lia.
  change (10 ^ 1) with 10. nia.
Qed.

Lemma parse_digits_decimal (s : bytes) (n : Z) : Forall digit s →
  parse_digits n s = Some (n * 10 ^ zlen s + decimal s).
Proof.
  intros Hs. revert n; induction Hs as [|b s Hb _ IH]; intros n; cbn [parse_digits decimal].
  { rewrite zlen_nil. f_equal. lia. }
  apply digit_spec in Hb as [-> _]. rewrite IH, zlen_cons. pose proof (zlen_nonneg s).
  rewrite Z.pow_add_r by lia. f_equal. lia.
Qed.

Lemma bytes_leb_decimal (a b : bytes) : Forall digit a → Forall digit b → zlen a = zlen b →
  bytes_leb a b = (decimal a <=? decimal b).
Proof.
  intros Ha. revert b; induction Ha as [|x a Hx Ha IH]; intros b Hb Hl.
  { destruct Hb; [done|]. rewrite zlen_cons, zlen_nil in Hl. pose proof (zlen_nonneg l). lia. }
  destruct Hb as [|y b Hy Hb]; [rewrite zlen_cons, zlen_nil in Hl; pose proof (zlen_nonneg a); lia|].
  rewrite !zlen_cons in Hl. assert (Hl' : zlen a = zlen b) by lia.
  cbn [bytes_leb decimal]. rewrite Hl', (IH b Hb Hl').
  pose proof (decimal_range a Ha) as Ra. pose proof (decimal_range b Hb) as Rb. rewrite Hl' in Ra.
  apply digit_spec in Hx as [_ Hx]. apply digit_spec in Hy as [_ Hy]. unfold digit_of in *.
  destruct (Z.ltb_spec (b2z x) (b2z y)).
  - symmetry. apply Z.leb_le. nia.
  - destruct (Z.ltb_spec (b2z y) (b2z x)).
    + symmetry. apply Z.leb_gt. nia.
    + replace (b2z x) with (b2z y) by lia. lia.
Qed.

(** The integer literals of JSON: an optional minus, then "0" or digits that do
    not start with "0". *)
Definition json_digits (s : bytes) : Prop :=
  Forall digit s ∧ s ≠ [] ∧ (head s = Some "0"%byte → s = ["0"%byte]).

Definition json_int_literal (n : bytes) : Prop :=
  json_digits n ∨ ∃ s, n = minus_sign :: s ∧ json_digits s.

Lemma json_digits_lower (s : bytes) : json_digits s → 1 < zlen s → 10 ^ (zlen s - 1) ≤ decimal s.
Proof.
  intros (Hd&Hne&H0) Hl. destruct Hd as [|b s Hb Hs]; [done|]. rewrite zlen_cons in *. cbn [decimal].
  apply digit_spec in Hb as [Hv Hb]. pose proof (decimal_range s Hs).
  assert (digit_of b ≠ 0).
  { intros Hz. assert (b = "0"%byte) as -> by (apply b2z_inj; unfold digit_of in Hz; change (b2z "0") with 48; lia).
    specialize (H0 eq_refl). injection H0 as ->. rewrite zlen_nil in Hl. lia. }
  replace (1 + zlen s - 1) with (zlen s) by lia. nia.
Qed.

Definition max_int64 : Z := 2 ^ 63 - 1.

Lemma maxI64_digits : Forall digit maxI64.
Proof.
  let l := eval vm_compute in maxI64 in change maxI64 with l.
  repeat (apply List.Forall_cons; [by eexists|]). apply List.Forall_nil.
Qed.

(** The magnitude test on a digit string. *)
Lemma bounded_digits (s : bytes) : json_digits s →
  (zlen s <? zlen maxI64) || ((zlen s =? zlen maxI64) && bytes_leb s maxI64) = (decimal s <=? max_int64).
Proof.
  intros Hj. pose proof Hj as (Hd&Hne&_). change (zlen maxI64) with 19.
  pose proof (decimal_range s Hd) as Hr.
  assert (0 < zlen s) by (destruct s; [done|rewrite zlen_cons; pose proof (zlen_nonneg s); lia]).
  destruct (Z.ltb_spec (zlen s) 19) as [Hlt|Hge]; cbn [orb].
  { symmetry. apply Z.leb_le. assert (10 ^ zlen s ≤ 10 ^ 18) by (apply Z.pow_le_mono_r; lia).
    unfold max_int64. lia. }
  destruct (Z.eqb_spec (zlen s) 19) as [Heq|Hne']; cbn [andb].
  - rewrite bytes_leb_decimal; [|done|apply maxI64_digits|done].
    done.
  - symmetry. apply Z.leb_gt. pose proof (json_digits_lower s Hj ltac:(lia)).
    assert (10 ^ 19 ≤ 10 ^ (zlen s - 1)) by (apply Z.pow_le_mono_r; lia). unfold max_int64. lia.
Qed.

(** ** Properties *)

Lemma digits_not_special (s : bytes) : Forall digit s →
  existsb (λ b, bool_decide (b = dot) || bool_decide (b = "e"%byte) || bool_decide (b = "E"%byte)) s = false.
Proof.
  intros Hs. induction Hs as [|b s Hb _ IH]; [done|]. cbn [existsb]. rewrite IH, orb_false_r.
  destruct Hb as [d Hd]. repeat case_bool_decide; subst; done.
Qed.

(** On every JSON integer literal, the textual range test accepts exactly
    the integers of magnitude at most 2^63-1 (so the int64 minimum is excluded),
    and then the int64 conversion succeeds. *)
Theorem IsBoundedJSONNumber_iff (n : bytes) : json_int_literal n →
  IsBoundedJSONNumber n = true ↔ ∃ z, Atoi n = Some z ∧ - max_int64 ≤ z ≤ max_int64.
Proof.
  intros Hn. unfold IsBoundedJSONNumber. destruct Hn as [Hj|(s&->&Hj)]; pose proof Hj as (Hd&Hne&_).
  - rewrite digits_not_special by done. destruct n as [|b s]; [done|].
    assert (Hb : b ≠ minus_sign ∧ b ≠ plus_sign).
    { inversion Hd as [|? ? [d Hb]]; subst. split; intros ->; done. }
    rewrite bool_decide_eq_false_2 by apply Hb. rewrite (proj2 (Z.eqb_neq _ 0)) by (rewrite zlen_cons; pose proof (zlen_nonneg s); lia).
    rewrite bounded_digits by done. cbn [andb negb].
    unfold Atoi. rewrite !bool_decide_eq_false_2 by apply Hb. rewrite parse_digits_decimal by done.
    pose proof (decimal_range _ Hd). rewrite Z.mul_0_l, Z.add_0_l. unfold max_int64.
    destruct (Z.leb_spec (decimal (b :: s)) (2 ^ 63 - 1)).
    + split; [|done]. intros _. exists (decimal (b :: s)).
      rewrite (proj2 (Z.leb_le _ _)), (proj2 (Z.ltb_lt _ _)) by lia. split; [done|lia].
    + split; [done|]. intros (z&Hz&Hr). rewrite (proj2 (Z.leb_le _ _)) in Hz by lia.
      rewrite (proj2 (Z.ltb_ge _ _)) in Hz by lia. done.
  - cbn [existsb]. rewrite digits_not_special by done.
    change (bool_decide (minus_sign = dot) || bool_decide (minus_sign = "e"%byte) || bool_decide (minus_sign = "E"%byte) || false) with false.
    cbv iota. rewrite bool_decide_eq_true_2 by done. destruct s as [|b s]; [done|].
    assert (H0 : 0 < zlen (b :: s)) by (rewrite zlen_cons; pose proof (zlen_nonneg s); lia).
    rewrite (proj2 (Z.eqb_neq _ 0)) by lia. rewrite bounded_digits by done.
    unfold Atoi. rewrite bool_decide_eq_true_2 by done. rewrite parse_digits_decimal by done.
    pose proof (decimal_range _ Hd). rewrite Z.mul_0_l, Z.add_0_l. change (zlen maxI64) with 19.
    destruct (Z.leb_spec (decimal (b :: s)) max_int64) as [Hle|Hgt]; unfold max_int64 in *.
    + rewrite (proj2 (Z.leb_le _ _)), (proj2 (Z.ltb_lt _ _)) by lia. cbn [andb].
      assert (Hl : zlen (b :: s) ≤ 19).
      { apply Z.nlt_ge. intros Hlt. pose proof (json_digits_lower _ Hj ltac:(lia)).
        assert (10 ^ 19 ≤ 10 ^ (zlen (b :: s) - 1)) by (apply Z.pow_le_mono_r; lia). lia. }
      rewrite (proj2 (Z.eqb_neq _ _)) by lia. cbn. split; [|done]. intros _.
      exists (- decimal (b :: s)). split; [done|lia].
    + split; [done|]. intros (z&Hz&Hr). go_inv Hz. lia.
Qed.

(** The strict decoder decides the document rules.  On a payload of 1 to
    65536 bytes that lexes to the tokens of an object followed by [rest], it
    returns [out] exactly when nothing follows the object, no object at any level
    repeats a key, nesting is at most 16, every number is an integer in range,
    every field is in the schema (when there is one) with its kind, and [out] is
    the object's value; otherwise it fails with a strict error. *)
Theorem decodeStrict_exact (lexer : bytes → decoder) (payload : bytes) (schema : option (list (string * FieldKind)))
    (kvs : list (string * json)) (rest : list token) (e : stream_end) (out : list (string * jval)) :
  0 < zlen payload ≤ MaxPayloadBytes → lexer payload = mkDecoder (tokens (JObj kvs) ++ rest) e →
  decodeStrict lexer payload schema = Ok out ↔
  document_ok schema kvs = true ∧ rest = [] ∧ e = StreamEOF ∧ out = map entry_value kvs.
Proof.
  intros Hp Hl. unfold decodeStrict. rewrite (proj2 (Z.eqb_neq _ 0)), (proj2 (Z.ltb_ge _ _)) by lia.
  rewrite Hl. cbn [tokens app Token d_tokens d_end]. rewrite <- app_assoc. cbn [app].
  change (λ kv, TString kv.1 :: tokens kv.2) with entry_tokens.
  pose proof (walkObject_agrees kvs schema 0 rest e
    (proj2 (list.Forall_forall _ _) (λ kv _, walks_all (snd kv)))
    (walk_fuel (length (concat (map entry_tokens kvs) ++ TObjClose :: rest))) [] []) as Hw.
  unfold walk_fuel in *. specialize (Hw ltac:(rewrite length_app; lia)). rewrite fresh_keys_unique in Hw.
  unfold document_ok. destruct (unique_keys kvs && _); cbn [agrees app] in Hw.
  - rewrite Hw. cbn. destruct rest as [|t rest], e; cbn; naive_solver.
  - destruct Hw as (e'&->&_). naive_solver.
Qed.

(** The token pass terminates on every token stream, well formed or not:
    the fuel of [decodeStrict], two units per token, is never exhausted. *)
Theorem decodeStrict_terminates (lexer : bytes → decoder) (payload : bytes) (schema : option (list (string * FieldKind))) :
  decodeStrict lexer payload schema ≠ Err OutOfFuel.
Proof.
  unfold decodeStrict. destruct (zlen payload =? 0); [done|]. destruct (MaxPayloadBytes <? zlen payload); [done|].
  destruct (Token (lexer payload)) as [[t d]|]; [|done]. destruct t; try done.
  destruct (walkers_enough_fuel (walk_fuel (length (d_tokens d)))) as [Hw _].
  specialize (Hw d schema 0 [] [] ltac:(unfold walk_fuel; lia)).
  destruct (walkObject _ _ _ _ _ _) as [[out d']|]; [|congruence].
  by destruct (Token d'), (d_end d').
Qed.

(** ** Concrete payloads *)

Definition sample_fields : list (string * json) := [("id"%string, JStr "a"); ("n"%string, JNum (bytes_of "-42"))].
Definition sample_lexer (_ : bytes) : decoder := mkDecoder (tokens (JObj sample_fields)) StreamEOF.

Lemma IsBoundedJSONNumber_iff_witness :
  IsBoundedJSONNumber maxI64 = true ↔ ∃ z, Atoi maxI64 = Some z ∧ - max_int64 ≤ z ≤ max_int64.
Proof.
  apply (IsBoundedJSONNumber_iff maxI64). left. split; [apply maxI64_digits|split; [discriminate|discriminate]].
Defined.

Lemma decodeStrict_exact_witness :
  decodeStrict sample_lexer [Byte.x7b] (Some [("id"%string, KindString); ("n"%string, KindInt)]) =
    Ok [("id"%string, VString "a"); ("n"%string, VInt (-42))].
Proof.
  apply (decodeStrict_exact sample_lexer [Byte.x7b] _ sample_fields [] StreamEOF).
  - vm_compute. split; [reflexivity|discriminate].
  - reflexivity.
  - vm_compute. split_and!; reflexivity.
Defined.
