(* ===== verification/Stun.v ===== *)
(** * STUN messages ([src/internal/traversal/stun/message.go])

    The RFC 8489 codec: message types, attributes, parsing and marshalling, the
    address attributes, ERROR-CODE, UNKNOWN-ATTRIBUTES, MESSAGE-INTEGRITY and
    FINGERPRINT.  HMAC-SHA1 is the interface [Hmac]; CRC-32 is computed.  A slice
    expression out of range would panic; the parser's only one is the value
    [EPanic], which is shown unreachable. *)

From Stdlib Require Import Btauto ZArith Lia Strings.Byte.
From stdpp Require Import base tactics list sets strings option.
From S2P Require Import Prelude Endpoint.

Open Scope Z_scope.

Definition MagicCookie : Z := 0x2112A442.
Definition HeaderSize : nat := 20.
Definition MaxMessageSize : Z := 65535.
Definition fingerprintXor : Z := 0x5354554E.
Definition integrityLength : Z := 20.

Inductive StunError : Type :=
  | ErrTruncated | ErrMalformed | ErrBadCookie | ErrOversize | ErrNoIntegrity | ErrNoFingerprint
  | ErrIntegrityMismatch | ErrFingerprintMismatch | ErrUnknownFamily | ErrDuplicateAddressAttr
  | EAlreadyIntegrity | EAlreadyFingerprint | EErrorCodeRange | EPanic | EFuel.

(** HMAC-SHA1 of [crypto/hmac] and [crypto/sha1]: key, message, 20-byte tag. *)
Class Hmac := { hmac_sha1 : bytes → bytes → bytes }.
Class HmacLaws `{Hmac} : Prop := { hmac_length k m : length (hmac_sha1 k m) = 20%nat }.

(** ** Message types *)

Definition MethodOf (t : Z) : Z :=
  Z.lor (Z.lor (Z.land t 0x000F) (Z.land (Z.shiftr t 1) 0x0070)) (Z.land (Z.shiftr t 2) 0x0F80).

Definition ClassOf (t : Z) : Z := Z.lor (Z.land (Z.shiftr t 7) 0x2) (Z.land (Z.shiftr t 4) 0x1).

(** [uint16] shifts: the result is truncated to sixteen bits. *)
Definition shl16 (x n : Z) : Z := Z.shiftl x n mod 2 ^ 16.

Definition NewMessageType (method class : Z) : Z :=
  Z.lor (Z.lor (Z.lor (Z.lor (Z.land method 0x000F) (shl16 (Z.land method 0x0070) 1))
    (shl16 (Z.land method 0x0F80) 2)) (shl16 (Z.land class 0x2) 7)) (shl16 (Z.land class 0x1) 4).

Definition MessageTypeBindingRequest : Z := 0x0001.
Definition MessageTypeBindingError : Z := 0x0111.

(** ** Attributes and messages *)

Definition AttrMappedAddress : Z := 0x0001.
Definition AttrUsername : Z := 0x0006.
Definition AttrMessageIntegrity : Z := 0x0008.
Definition AttrErrorCode : Z := 0x0009.
Definition AttrUnknownAttributes : Z := 0x000A.
Definition AttrXORMappedAddress : Z := 0x0020.
Definition AttrAlternateServer : Z := 0x0023.
Definition AttrPriority : Z := 0x0024.
Definition AttrSoftware : Z := 0x8022.
Definition AttrIceControlled : Z := 0x8029.
Definition AttrFingerprint : Z := 0x8028.

Definition comprehensionRequired (t : Z) : bool := Z.land t 0x8000 =? 0.

Definition known (t : Z) : bool :=
  existsb (Z.eqb t) [AttrMappedAddress; AttrUsername; AttrMessageIntegrity; AttrErrorCode; AttrUnknownAttributes;
    AttrXORMappedAddress; AttrAlternateServer; AttrPriority; AttrSoftware; AttrIceControlled; AttrFingerprint].

Record Attribute : Type := mkAttr { at_Type : Z; at_Value : bytes }.

Record Message : Type := mkMessage {
  m_Type : Z;
  m_TransactionID : bytes;
  m_Attributes : list Attribute;
  m_raw : bytes
}.

Definition NewBindingRequest (txid : bytes) : Message := mkMessage MessageTypeBindingRequest txid [] [].

Definition Add (m : Message) (t : Z) (value : bytes) : Message :=
  mkMessage (m_Type m) (m_TransactionID m) (m_Attributes m ++ [mkAttr t value]) (m_raw m).

Definition Get (m : Message) (t : Z) : option bytes :=
  at_Value <$> List.find (λ a, at_Type a =? t) (m_Attributes m).

Definition Count (m : Message) (t : Z) : nat := length (List.filter (λ a, at_Type a =? t) (m_Attributes m)).

Fixpoint unknown_required (seen : list Z) (l : list Attribute) : list Z :=
  match l with
  | [] => []
  | a :: l' =>
      if comprehensionRequired (at_Type a) && negb (known (at_Type a)) && negb (existsb (Z.eqb (at_Type a)) seen)
      then at_Type a :: unknown_required (at_Type a :: seen) l'
      else unknown_required seen l'
  end.

Definition UnknownComprehensionRequired (m : Message) : list Z := unknown_required [] (m_Attributes m).

(** ** Parsing *)

(** [(n + 3) &^ 3] *)
Definition align4 (n : Z) : Z := Z.ldiff (n + 3) 3.

(** The attribute loop of [ParseMessage]. *)
Fixpoint parse_attrs (fuel : nat) (rest : bytes) (acc : list Attribute) : result StunError (list Attribute) :=
  match rest with
  | [] => Ok acc
  | _ =>
      match fuel with
      | O => Err EFuel
      | S fuel' =>
          fail_if zlen rest <? 4 with ErrMalformed ;;
          let attrType := be_get (slice rest 0 2) in
          let attrLen := be_get (slice rest 2 4) in
          fail_if zlen rest - 4 <? attrLen with ErrTruncated ;;
          let value := slice rest 4 (4 + Z.to_nat attrLen) in
          let padded := align4 (4 + attrLen) in
          fail_if zlen rest <? padded with EPanic ;;
          parse_attrs fuel' (drop (Z.to_nat padded) rest) (acc ++ [mkAttr attrType value])
      end
  end.

Definition last_is_fingerprint (l : list Attribute) : bool :=
  match list.last l with Some a => at_Type a =? AttrFingerprint | None => false end.

Definition ParseMessage (data : bytes) : result StunError Message :=
  fail_if bool_decide (length data < HeaderSize)%nat with ErrTruncated ;;
  fail_if negb (be_get (slice data 4 8) =? MagicCookie) with ErrBadCookie ;;
  let declared := be_get (slice data 2 4) in
  fail_if MaxMessageSize <? declared with ErrOversize ;;
  fail_if negb (declared mod 4 =? 0) with ErrMalformed ;;
  fail_if zlen data - Z.of_nat HeaderSize <? declared with ErrTruncated ;;
  let n := (HeaderSize + Z.to_nat declared)%nat in
  let* attrs := parse_attrs (length data) (slice data HeaderSize n) [] in
  let msg := mkMessage (be_get (slice data 0 2)) (slice data 8 20) attrs (take n data) in
  fail_if bool_decide (0 < Count msg AttrFingerprint)%nat && negb (last_is_fingerprint attrs) with ErrMalformed ;;
  Ok msg.

(** ** Marshalling *)

Definition attr_size (a : Attribute) : Z := 4 + align4 (zlen (at_Value a)).

Definition attributeSectionLength (attrs : list Attribute) : Z := foldr (λ a n, attr_size a + n) 0 attrs.

(** One attribute written into the zeroed buffer at its offset. *)
Definition encode_attr (a : Attribute) : bytes :=
  be_put 2 (at_Type a) ++ be_put 2 (zlen (at_Value a)) ++ at_Value a
  ++ repeat Byte.x00 (Z.to_nat (align4 (zlen (at_Value a)) - zlen (at_Value a))).

Definition encode_attrs (attrs : list Attribute) : bytes := concat (map encode_attr attrs).

Definition encode_header (t len : Z) (txid : bytes) : bytes :=
  be_put 2 t ++ be_put 2 len ++ be_put 4 MagicCookie ++ txid.

Definition Marshal (m : Message) : result StunError bytes :=
  let section := attributeSectionLength (m_Attributes m) in
  fail_if MaxMessageSize <? section with ErrOversize ;;
  Ok (encode_header (m_Type m) section (m_TransactionID m) ++ encode_attrs (m_Attributes m)).

(** ** Address attributes *)

Definition xor_byte (a b : byte) : byte := u8 (Z.lxor (b2z a) (b2z b)).
Definition xor_bytes (a b : bytes) : bytes := zip_with xor_byte a b.
Definition cookie_bytes : bytes := be_put 4 MagicCookie.
Definition xor_port (port : Z) : Z := Z.lxor port (Z.shiftr MagicCookie 16).

(** [netip.AddrPort]: the address octets and the port. *)
Definition AddXORMappedAddress (m : Message) (addr : Addr) (port : Z) : result StunError Message :=
  fail_if bool_decide (0 < Count m AttrXORMappedAddress)%nat with ErrDuplicateAddressAttr ;;
  match addr with
  | Addr4 ip4 =>
      Ok (Add m AttrXORMappedAddress
            ([Byte.x00; Byte.x01] ++ be_put 2 (xor_port port) ++ xor_bytes ip4 cookie_bytes))
  | Addr6 ip16 =>
      if Is4In6 addr then Err ErrUnknownFamily
      else Ok (Add m AttrXORMappedAddress
            ([Byte.x00; Byte.x02] ++ be_put 2 (xor_port port)
             ++ xor_bytes ip16 (cookie_bytes ++ m_TransactionID m)))
  | AddrZero => Err ErrUnknownFamily
  end.

Definition AddAlternateServer (m : Message) (addr : Addr) (port : Z) : result StunError Message :=
  match addr with
  | Addr4 ip4 => Ok (Add m AttrAlternateServer ([Byte.x00; Byte.x01] ++ be_put 2 port ++ ip4))
  | Addr6 ip16 =>
      if Is4In6 addr then Err ErrUnknownFamily
      else Ok (Add m AttrAlternateServer ([Byte.x00; Byte.x02] ++ be_put 2 port ++ ip16))
  | AddrZero => Err ErrUnknownFamily
  end.

Definition decodeAddressAttribute (value txid : bytes) (xor : bool) : result StunError (Addr * Z) :=
  fail_if zlen value <? 4 with ErrMalformed ;;
  let port0 := be_get (slice value 2 4) in
  let port := if xor then xor_port port0 else port0 in
  let family := be_get (slice value 1 2) in
  if family =? 1 then
    fail_if zlen value <? 8 with ErrMalformed ;;
    let ip4 := slice value 4 8 in
    Ok (Addr4 (if xor then xor_bytes ip4 cookie_bytes else ip4), port)
  else if family =? 2 then
    fail_if zlen value <? 20 with ErrMalformed ;;
    let ip16 := slice value 4 20 in
    Ok (Addr6 (if xor then xor_bytes ip16 (cookie_bytes ++ txid) else ip16), port)
  else Err ErrUnknownFamily.

Definition XORMappedAddress (m : Message) : result StunError (Addr * Z) :=
  match Get m AttrXORMappedAddress with
  | None => Err ErrUnknownFamily
  | Some value =>
      fail_if bool_decide (1 < Count m AttrXORMappedAddress)%nat with ErrDuplicateAddressAttr ;;
      decodeAddressAttribute value (m_TransactionID m) true
  end.

Definition AlternateServer (m : Message) : result StunError (Addr * Z) :=
  match Get m AttrAlternateServer with
  | None => Err ErrUnknownFamily
  | Some value =>
      fail_if bool_decide (1 < Count m AttrAlternateServer)%nat with ErrDuplicateAddressAttr ;;
      decodeAddressAttribute value (m_TransactionID m) false
  end.

(** ** ERROR-CODE and UNKNOWN-ATTRIBUTES *)

Definition SetErrorCode (m : Message) (code : Z) (reason : string) : result StunError Message :=
  fail_if (code <? 300) || (699 <? code) with EErrorCodeRange ;;
  Ok (Add m AttrErrorCode ([Byte.x00; Byte.x00; u8 (code / 100); u8 (code mod 100)] ++ bytes_of reason)).

(** [_ = msg.SetErrorCode(code, reason)]: a failure leaves the message as it is. *)
Definition NewErrorResponse (txid : bytes) (code : Z) (reason : string) : Message :=
  let msg := mkMessage MessageTypeBindingError txid [] [] in
  ok_or msg (SetErrorCode msg code reason).

Definition ErrorCode (m : Message) : result StunError (Z * string) :=
  match Get m AttrErrorCode with
  | None => Err ErrMalformed
  | Some value =>
      fail_if bool_decide (1 < Count m AttrErrorCode)%nat || (zlen value <? 4) with ErrMalformed ;;
      let code := be_get (slice value 2 3) * 100 + be_get (slice value 3 4) in
      fail_if (code <? 300) || (699 <? code) with ErrMalformed ;;
      Ok (code, string_of (drop 4 value))
  end.

Definition AddUnknownAttributes (m : Message) (types : list Z) : Message :=
  Add m AttrUnknownAttributes (concat (map (be_put 2) types)).

Fixpoint read_u16s (n : nat) (value : bytes) : list Z :=
  match n with
  | O => []
  | S n' => be_get (take 2 value) :: read_u16s n' (drop 2 value)
  end.

Definition UnknownAttributes (m : Message) : result StunError (list Z) :=
  match Get m AttrUnknownAttributes with
  | None => Ok []
  | Some value =>
      fail_if negb (zlen value mod 2 =? 0) with ErrMalformed ;;
      Ok (read_u16s (length value / 2) value)
  end.

(** ** Integrity and fingerprint *)

(** The rebuilt prefix: a header with the given length field and the attributes. *)
Definition wire_prefix (m : Message) (len : Z) (attrs : list Attribute) : bytes :=
  encode_header (m_Type m) len (m_TransactionID m) ++ encode_attrs attrs.

(** [binary.BigEndian.PutUint16(raw[2:4], len)] *)
Definition patch_length (raw : bytes) (len : Z) : bytes := take 2 raw ++ be_put 2 len ++ drop 4 raw.

Definition integrityInput (m : Message) (idx : nat) : result StunError bytes :=
  let before := take idx (m_Attributes m) in
  let section := attributeSectionLength before in
  let len := section + 4 + integrityLength in
  let wire := wire_prefix m len before in
  let n := Z.to_nat (Z.of_nat HeaderSize + section) in
  if bool_decide (m_raw m = []) then Ok wire
  else if bool_decide (length wire ≤ length (m_raw m))%nat && bytes_eqb (take (length wire) (m_raw m)) wire
  then Ok (take (length wire) (m_raw m))
  else if bool_decide (n ≤ length (m_raw m))%nat then Ok (patch_length (take n (m_raw m)) len)
  else Err ErrTruncated.

Fixpoint find_index (t : Z) (l : list Attribute) : option nat :=
  match l with
  | [] => None
  | a :: l' => if at_Type a =? t then Some O else S <$> find_index t l'
  end.

Section Integrity.
Context `{Hmac}.

Definition AddMessageIntegrity (m : Message) (key : bytes) : result StunError Message :=
  fail_if bool_decide (0 < Count m AttrMessageIntegrity)%nat with EAlreadyIntegrity ;;
  let section := attributeSectionLength (m_Attributes m) in
  fail_if MaxMessageSize <? section + 4 + integrityLength with ErrOversize ;;
  let wire := wire_prefix m (section + 4 + integrityLength) (m_Attributes m) in
  Ok (Add m AttrMessageIntegrity (hmac_sha1 key wire)).

Definition VerifyMessageIntegrity (m : Message) (key : bytes) : result StunError bool :=
  match find_index AttrMessageIntegrity (m_Attributes m) with
  | None => Err ErrNoIntegrity
  | Some idx =>
      fail_if bool_decide (1 < Count m AttrMessageIntegrity)%nat with ErrMalformed ;;
      let stored := match m_Attributes m !! idx with Some a => at_Value a | None => [] end in
      fail_if negb (zlen stored =? integrityLength) with ErrMalformed ;;
      let* wire := integrityInput m idx in
      Ok (bytes_eqb (hmac_sha1 key wire) stored)
  end.

End Integrity.

(** [crc32.ChecksumIEEE] *)
Definition crc_bit (c : Z) : Z :=
  if Z.odd c then Z.lxor (Z.shiftr c 1) 0xEDB88320 else Z.shiftr c 1.
Definition crc_byte (c : Z) (b : byte) : Z := Nat.iter 8 crc_bit (Z.lxor c (b2z b)).
Definition crc32 (m : bytes) : Z := Z.lxor (fold_left crc_byte m 0xFFFFFFFF) 0xFFFFFFFF.

Definition AddFingerprint (m : Message) : result StunError Message :=
  fail_if bool_decide (0 < Count m AttrFingerprint)%nat with EAlreadyFingerprint ;;
  let section := attributeSectionLength (m_Attributes m) in
  fail_if MaxMessageSize <? section + 8 with ErrOversize ;;
  let wire := wire_prefix m (section + 8) (m_Attributes m) in
  Ok (Add m AttrFingerprint (be_put 4 (Z.lxor (crc32 wire) fingerprintXor))).

Definition VerifyFingerprint (m : Message) : result StunError bool :=
  fail_if bool_decide (Count m AttrFingerprint = 0)%nat with ErrNoFingerprint ;;
  match list.last (m_Attributes m) with
  | None => Err EPanic
  | Some lst =>
      fail_if negb (at_Type lst =? AttrFingerprint) with ErrMalformed ;;
      fail_if negb (zlen (at_Value lst) =? 4) with ErrMalformed ;;
      let before := take (length (m_Attributes m) - 1) (m_Attributes m) in
      let section := attributeSectionLength before in
      let n := Z.to_nat (Z.of_nat HeaderSize + section) in
      let* wire :=
        (if bool_decide (n ≤ length (m_raw m))%nat then Ok (take n (m_raw m))
         else if negb (bool_decide (m_raw m = [])) then Err ErrTruncated
         else Ok (wire_prefix m (section + 8) before)) in
      Ok (be_get (at_Value lst) =? Z.lxor (crc32 wire) fingerprintXor)
  end.

(** The CRC-32 check value of the nine digits. *)
Example crc32_check : crc32 (bytes_of "123456789") = 0xCBF43926.
Proof. vm_compute. reflexivity. Qed.

(** ** Lemmas: alignment and lengths *)

Lemma align4_eq (n : Z) : align4 n = 4 * ((n + 3) / 4).
Proof.
  unfold align4. change 3 with (Z.ones 2) at 2. rewrite Z.ldiff_ones_r by lia.
  rewrite Z.shiftl_mul_pow2, Z.shiftr_div_pow2 by lia. change (2 ^ 2) with 4. lia.
Qed.

Lemma align4_bounds (n : Z) : n ≤ align4 n < n + 4 ∧ align4 n mod 4 = 0.
Proof. rewrite align4_eq. rewrite Z.mul_comm, Z_mod_mult. Z.div_mod_to_equations. lia. Qed.

Lemma align4_plus4 (n : Z) : align4 (4 + n) = 4 + align4 n.
Proof. rewrite !align4_eq. replace (4 + n + 3) with ((n + 3) + 1 * 4) by lia. rewrite Z.div_add by lia. lia. Qed.

#[global] Opaque align4.

Definition attr_typed (a : Attribute) : Prop := in_u16 (at_Type a) ∧ zlen (at_Value a) ≤ 65535.

Lemma length_encode_attr (a : Attribute) : zlen (encode_attr a) = attr_size a.
Proof.
  unfold encode_attr, attr_size. rewrite !zlen_app, !zlen_be_put. unfold zlen at 2. rewrite repeat_length.
  pose proof (align4_bounds (zlen (at_Value a))). lia.
Qed.

Lemma attr_size_pos (a : Attribute) : 4 ≤ attr_size a ∧ attr_size a mod 4 = 0.
Proof.
  unfold attr_size. pose proof (align4_bounds (zlen (at_Value a))). pose proof (zlen_nonneg (at_Value a)).
  split; [lia|]. rewrite Z.add_mod, (proj2 H) by lia. done.
Qed.

Lemma zlen_encode_attrs (l : list Attribute) : zlen (encode_attrs l) = attributeSectionLength l.
Proof.
  unfold encode_attrs. induction l as [|a l IH]; [done|]. cbn [map concat attributeSectionLength foldr].
  rewrite zlen_app, length_encode_attr, IH. done.
Qed.

Lemma section_cons (a : Attribute) (l : list Attribute) :
  attributeSectionLength (a :: l) = attr_size a + attributeSectionLength l.
Proof. done. Qed.

Lemma section_app (l k : list Attribute) :
  attributeSectionLength (l ++ k) = attributeSectionLength l + attributeSectionLength k.
Proof. induction l as [|a l IH]; [done|]. cbn [app]. rewrite !section_cons, IH. lia. Qed.

Lemma section_nonneg (l : list Attribute) : 0 ≤ attributeSectionLength l ∧ attributeSectionLength l mod 4 = 0.
Proof.
  induction l as [|a l [IH1 IH2]]; [done|]. cbn [attributeSectionLength foldr].
  change (foldr _ 0 l) with (attributeSectionLength l). pose proof (attr_size_pos a) as [? H4].
  split; [lia|]. rewrite Z.add_mod, IH2, H4 by lia. done.
Qed.

Lemma encode_attr_length_nat (a : Attribute) : length (encode_attr a) = Z.to_nat (attr_size a).
Proof. rewrite <- length_encode_attr. unfold zlen. lia. Qed.

Lemma parse_attrs_encode (l : list Attribute) (fuel : nat) (acc : list Attribute) :
  Forall attr_typed l → (length l ≤ fuel)%nat →
  parse_attrs fuel (encode_attrs l) acc = Ok (acc ++ l).
Proof.
  intros Hl. revert fuel acc; induction Hl as [|a l [Ht Hv] _ IH]; intros fuel acc Hf.
  { destruct fuel; cbn; by rewrite app_nil_r. }
  destruct fuel as [|fuel]; [cbn in Hf; lia|]. cbn [length] in Hf.
  unfold encode_attrs. cbn [map concat]. fold (encode_attrs l).
  pose proof (align4_bounds (zlen (at_Value a))) as [Hb _]. pose proof (zlen_nonneg (at_Value a)).
  pose proof (zlen_nonneg (encode_attrs l)). pose proof (attr_size_pos a) as [Hs _].
  assert (Hlen : zlen (encode_attr a ++ encode_attrs l) = attr_size a + zlen (encode_attrs l))
    by (by rewrite zlen_app, length_encode_attr).
  assert (Hu : in_u16 (zlen (at_Value a))) by (unfold in_u16; lia).
  assert (D : drop (Z.to_nat (attr_size a)) (encode_attr a ++ encode_attrs l) = encode_attrs l)
    by (apply drop_exact; apply encode_attr_length_nat).
  set (rest := encode_attr a ++ encode_attrs l) in *.
  assert (R : rest = be_put 2 (at_Type a) ++ be_put 2 (zlen (at_Value a)) ++ at_Value a ++
    (repeat Byte.x00 (Z.to_nat (align4 (zlen (at_Value a)) - zlen (at_Value a))) ++ encode_attrs l))
    by (unfold rest, encode_attr; by rewrite <- !app_assoc).
  assert (S1 : slice rest 0 2 = be_put 2 (at_Type a)) by (rewrite R; apply slice_head, length_be_put).
  assert (S2 : slice rest 2 4 = be_put 2 (zlen (at_Value a)))
    by (rewrite R; apply slice_mid; rewrite !length_be_put; done).
  assert (S3 : slice rest 4 (4 + Z.to_nat (zlen (at_Value a))) = at_Value a).
  { rewrite R, app_assoc. apply slice_mid; rewrite length_app, !length_be_put; [done|]. unfold zlen. lia. }
  assert (Hne : rest ≠ []) by (intros ->; rewrite zlen_nil in Hlen; lia).
  clearbody rest. cbn [parse_attrs]. destruct rest as [|b0 rest0]; [done|].
  rewrite S1, S2, !be_get_u16, S3, align4_plus4 by done. change (4 + align4 (zlen (at_Value a))) with (attr_size a).
  unfold attr_size in Hlen. rewrite (proj2 (Z.ltb_ge _ _)), (proj2 (Z.ltb_ge _ _)), (proj2 (Z.ltb_ge _ _)) by (unfold attr_size; lia).
  rewrite D, IH by lia. rewrite <- app_assoc. destruct a; done.
Qed.

(** On a section whose length is a multiple of four the loop never slices out
    of range, and what it returns occupies exactly the section. *)
Lemma parse_attrs_safe (fuel : nat) (rest : bytes) (acc : list Attribute) :
  zlen rest mod 4 = 0 → (length rest ≤ fuel)%nat →
  match parse_attrs fuel rest acc with
  | Ok l => ∃ l', l = acc ++ l' ∧ Forall attr_typed l' ∧ attributeSectionLength l' = zlen rest
  | Err e => e = ErrTruncated ∨ e = ErrMalformed
  end.
Proof.
  revert rest acc; induction fuel as [|fuel IH]; intros rest acc H4 Hf.
  { destruct rest; [|cbn in Hf; lia]. cbn. exists []. by rewrite app_nil_r. }
  destruct rest as [|b0 rest0]; [cbn; exists []; by rewrite app_nil_r|].
  set (rest := b0 :: rest0) in *. cbn [parse_attrs]. change (match rest with [] => _ | _ => ?x end) with x.
  destruct (Z.ltb_spec (zlen rest) 4) as [Hlt|Hge]; [by right|].
  set (attrLen := be_get (slice rest 2 4)). set (attrType := be_get (slice rest 0 2)).
  assert (R2 : in_u16 attrLen).
  { pose proof (be_get_range (slice rest 2 4)) as Hr. unfold zlen in Hr, Hge. rewrite length_slice in Hr by lia. exact Hr. }
  assert (R1 : in_u16 attrType).
  { pose proof (be_get_range (slice rest 0 2)) as Hr. unfold zlen in Hr, Hge. rewrite length_slice in Hr by lia. exact Hr. }
  unfold in_u16 in *.
  destruct (Z.ltb_spec (zlen rest - 4) attrLen) as [Hlt|Hle]; [by left|].
  rewrite align4_plus4. pose proof (align4_bounds attrLen) as [Hb Hm].
  destruct (Z.ltb_spec (zlen rest) (4 + align4 attrLen)) as [Hlt|Hpad].
  { exfalso. Z.div_mod_to_equations. lia. }
  assert (Hv : zlen (slice rest 4 (4 + Z.to_nat attrLen)) = attrLen).
  { unfold zlen in *. rewrite length_slice by lia. lia. }
  assert (Hd : zlen (drop (Z.to_nat (4 + align4 attrLen)) rest) = zlen rest - (4 + align4 attrLen)).
  { unfold zlen in *. rewrite length_drop. lia. }
  specialize (IH (drop (Z.to_nat (4 + align4 attrLen)) rest) (acc ++ [mkAttr attrType (slice rest 4 (4 + Z.to_nat attrLen))])).
  destruct (parse_attrs fuel _ _) as [l|e].
  - destruct IH as (l'&->&Ht&Hs).
    { rewrite Hd, Zminus_mod, H4, Z.add_mod, Hm by lia. done. }
    { unfold zlen in *. lia. }
    eexists. rewrite <- app_assoc. split; [done|]. split.
    + constructor; [split; cbn [at_Type at_Value]; [unfold in_u16; lia|rewrite Hv; lia]|done].
    + cbn [app]. rewrite section_cons.
      rewrite Hs, Hd. unfold attr_size. cbn [at_Value]. rewrite Hv. lia.
  - apply IH; [|unfold zlen in *; lia]. rewrite Hd, Zminus_mod, H4, Z.add_mod, Hm by lia. done.
Qed.

Lemma ParseMessage_inv (data : bytes) (m : Message) :
  ParseMessage data = Ok m →
  ∃ declared, declared = be_get (slice data 2 4) ∧ declared mod 4 = 0 ∧ 0 ≤ declared ≤ 65535 ∧
    (20 + Z.to_nat declared ≤ length data)%nat ∧ be_get (slice data 4 8) = MagicCookie ∧
    m_raw m = take (20 + Z.to_nat declared) data ∧ in_u16 (m_Type m) ∧ length (m_TransactionID m) = 12%nat ∧
    Forall attr_typed (m_Attributes m) ∧ attributeSectionLength (m_Attributes m) = declared ∧
    ((0 < Count m AttrFingerprint)%nat → last_is_fingerprint (m_Attributes m) = true).
Proof.
  unfold ParseMessage. cbv zeta. set (declared := be_get (slice data 2 4)). intros Hp. guards Hp.
  set (n := (HeaderSize + Z.to_nat declared)%nat) in *. bool_prop. unfold HeaderSize in *. change (Z.of_nat 20) with 20 in *.
  assert (R2 : 0 ≤ declared) by (apply be_get_range).
  assert (Hn : (20 + Z.to_nat declared ≤ length data)%nat) by (unfold zlen in *; lia).
  pose proof (parse_attrs_safe (length data) (slice data 20 n) []) as Hs.
  assert (Hz : zlen (slice data 20 n) = declared) by (unfold zlen, n; rewrite length_slice; lia).
  rewrite Hz in Hs. specialize (Hs ltac:(done) ltac:(unfold zlen in Hz; lia)).
  destruct (parse_attrs _ _ _) as [attrs|]; [|done]. guards Hp. injection Hp as <-.
  destruct Hs as (l'&->&Ht&Hsec). cbn [app] in *. exists declared. cbn [m_raw m_Type m_TransactionID m_Attributes].
  assert (R0 : in_u16 (be_get (slice data 0 2))).
  { pose proof (be_get_range (slice data 0 2)) as Hr. unfold zlen in Hr. rewrite length_slice in Hr by lia. exact Hr. }
  unfold MaxMessageSize in *. split_and!; try done; try lia.
  - rewrite length_slice; lia.
  - intros Hc. destruct (last_is_fingerprint l'); [done|]. exfalso.
    match goal with G : bool_decide _ && negb false = false |- _ => rewrite andb_true_r in G; apply bool_decide_eq_false in G; done end.
Qed.

Definition message_typed (m : Message) : Prop :=
  in_u16 (m_Type m) ∧ length (m_TransactionID m) = 12%nat ∧ Forall attr_typed (m_Attributes m).

Definition fingerprint_last (m : Message) : Prop :=
  (0 < Count m AttrFingerprint)%nat → last_is_fingerprint (m_Attributes m) = true.

Lemma length_encode_header (t len : Z) (txid : bytes) : length txid = 12%nat → length (encode_header t len txid) = 20%nat.
Proof. intros Ht. unfold encode_header. rewrite !length_app, !length_be_put, Ht. done. Qed.

Lemma encode_header_slices (t len : Z) (txid tail : bytes) : length txid = 12%nat →
  let d := encode_header t len txid ++ tail in
  slice d 0 2 = be_put 2 t ∧ slice d 2 4 = be_put 2 len ∧ slice d 4 8 = be_put 4 MagicCookie ∧ slice d 8 20 = txid.
Proof.
  intros Ht d. unfold d, encode_header. rewrite <- !app_assoc. split_and!.
  - apply slice_head, length_be_put.
  - apply slice_mid; rewrite !length_be_put; done.
  - rewrite (app_assoc (be_put 2 t)). apply slice_mid; rewrite length_app, !length_be_put; done.
  - rewrite (app_assoc (be_put 2 t)), (app_assoc (be_put 2 t ++ be_put 2 len)).
    apply slice_mid; rewrite !length_app, !length_be_put, ?Ht; done.
Qed.

Lemma ParseMessage_frame (m : Message) (tail : bytes) :
  message_typed m → fingerprint_last m → attributeSectionLength (m_Attributes m) ≤ 65535 →
  let b := wire_prefix m (attributeSectionLength (m_Attributes m)) (m_Attributes m) in
  ParseMessage (b ++ tail) = Ok (mkMessage (m_Type m) (m_TransactionID m) (m_Attributes m) b).
Proof.
  intros (Ht&Hx&Ha) Hfp Hsec b. set (section := attributeSectionLength (m_Attributes m)) in *.
  pose proof (section_nonneg (m_Attributes m)) as [Hn H4]. fold section in Hn, H4.
  destruct (encode_header_slices (m_Type m) section (m_TransactionID m) (encode_attrs (m_Attributes m) ++ tail) Hx) as (S1&S2&S3&S4).
  rewrite app_assoc in S1, S2, S3, S4. change (encode_header (m_Type m) section (m_TransactionID m) ++ encode_attrs (m_Attributes m)) with b in *.
  assert (Hea : length (encode_attrs (m_Attributes m)) = Z.to_nat section).
  { pose proof (zlen_encode_attrs (m_Attributes m)) as He. unfold zlen in He. fold section in He. lia. }
  assert (Hb : length b = (20 + Z.to_nat section)%nat).
  { unfold b, wire_prefix. rewrite length_app, length_encode_header, Hea by done. done. }
  assert (S5 : slice (b ++ tail) 20 (20 + Z.to_nat section) = encode_attrs (m_Attributes m)).
  { unfold b, wire_prefix. rewrite <- app_assoc. apply slice_mid; rewrite length_encode_header by done; lia. }
  unfold ParseMessage. cbv zeta. rewrite S1, S2, S3, S4. rewrite !be_get_u16 by (unfold in_u16; lia || done).
  rewrite be_get_u32 by (unfold in_u32, MagicCookie; lia). change HeaderSize with 20%nat. rewrite S5.
  rewrite bool_decide_eq_false_2 by (rewrite length_app; lia). change (MagicCookie =? MagicCookie) with true.
  unfold MaxMessageSize. cbn [negb]. rewrite (proj2 (Z.ltb_ge _ _)) by lia. rewrite (proj2 (Z.eqb_eq _ _)) by done.
  rewrite (proj2 (Z.ltb_ge _ _)) by (rewrite zlen_app; unfold zlen; rewrite Hb; lia).
  rewrite parse_attrs_encode; [|done|].
  2: { rewrite length_app. assert (length (m_Attributes m) ≤ Z.to_nat section)%nat; [|lia].
       unfold section. clear. induction (m_Attributes m) as [|a l IH]; [done|].
       cbn [length]. rewrite section_cons.
       pose proof (attr_size_pos a). pose proof (section_nonneg l). lia. }
  cbn [app negb]. rewrite (take_exact b tail) by done.
  case_bool_decide as Hc; cbn [andb]; [|done]. unfold fingerprint_last, Count in *. rewrite (Hfp Hc). done.
Qed.

(** ** Lemmas: integrity and fingerprint *)

Lemma patch_length_header (t len len' : Z) (txid tail : bytes) :
  patch_length (encode_header t len txid ++ tail) len' = encode_header t len' txid ++ tail.
Proof.
  unfold patch_length, encode_header. rewrite <- !app_assoc.
  rewrite take_exact by apply length_be_put. f_equal.
Qed.

Lemma length_wire_prefix (m : Message) (len : Z) (attrs : list Attribute) :
  length (m_TransactionID m) = 12%nat →
  length (wire_prefix m len attrs) = Z.to_nat (20 + attributeSectionLength attrs).
Proof.
  intros Hx. unfold wire_prefix. rewrite length_app, length_encode_header by done.
  pose proof (zlen_encode_attrs attrs) as He. unfold zlen in He. pose proof (section_nonneg attrs). lia.
Qed.

(** Whatever branch it takes, the HMAC input of a parsed message is the original
    wire up to MESSAGE-INTEGRITY with the length field adjusted. *)
Lemma integrityInput_raw (m : Message) (idx : nat) :
  length (m_TransactionID m) = 12%nat → m_raw m ≠ [] →
  let section := attributeSectionLength (take idx (m_Attributes m)) in
  (Z.to_nat (20 + section) ≤ length (m_raw m))%nat →
  integrityInput m idx = Ok (patch_length (take (Z.to_nat (20 + section)) (m_raw m)) (section + 24)).
Proof.
  intros Hx Hraw section Hn. unfold integrityInput. fold section. cbv zeta.
  change (section + 4 + integrityLength) with (section + 4 + 20). replace (section + 4 + 20) with (section + 24) by lia.
  set (wire := wire_prefix m (section + 24) (take idx (m_Attributes m))).
  assert (Hl : length wire = Z.to_nat (20 + section)) by (by apply length_wire_prefix).
  rewrite bool_decide_eq_false_2 by done. rewrite Hl. change (Z.of_nat HeaderSize) with 20.
  rewrite (bool_decide_eq_true_2 (Z.to_nat (20 + section) ≤ length (m_raw m))%nat) by done. cbn [andb].
  destruct (bytes_eqb _ wire) eqn:E; [|done]. bool_prop. f_equal. rewrite E. unfold wire, wire_prefix.
  by rewrite patch_length_header.
Qed.

Lemma find_index_None (t : Z) (l : list Attribute) : find_index t l = None ↔ Forall (λ a, at_Type a ≠ t) l.
Proof.
  induction l as [|a l IH]; cbn [find_index]; [by split|]. rewrite list.Forall_cons.
  destruct (Z.eqb_spec (at_Type a) t) as [He|Hne]; [naive_solver|].
  rewrite <- IH. destruct (find_index t l); naive_solver.
Qed.

Lemma find_index_app (t : Z) (l k : list Attribute) :
  Forall (λ a, at_Type a ≠ t) l → find_index t (l ++ k) = (λ i, (length l + i)%nat) <$> find_index t k.
Proof.
  induction 1 as [|a l Ha _ IH]; cbn [app find_index length].
  { by destruct (find_index t k). }
  rewrite (proj2 (Z.eqb_neq _ _)) by done. rewrite IH. by destruct (find_index t k).
Qed.

Definition count_type (t : Z) (l : list Attribute) : nat := length (List.filter (λ a, at_Type a =? t) l).

Lemma count_type_app (t : Z) (l k : list Attribute) : count_type t (l ++ k) = (count_type t l + count_type t k)%nat.
Proof. unfold count_type. by rewrite List.filter_app, length_app. Qed.

Lemma count_type_0 (t : Z) (l : list Attribute) : count_type t l = 0%nat ↔ Forall (λ a, at_Type a ≠ t) l.
Proof.
  unfold count_type. induction l as [|a l IH]; cbn [List.filter]; [by split|]. rewrite list.Forall_cons.
  destruct (Z.eqb_spec (at_Type a) t); cbn [length]; [split; [lia|naive_solver]|]. rewrite IH. naive_solver.
Qed.

Lemma lxor_bits (n a b : Z) : 0 ≤ a < 2 ^ n → 0 ≤ b < 2 ^ n → 0 ≤ Z.lxor a b < 2 ^ n.
Proof.
  intros Ha Hb. assert (0 ≤ n) by (destruct (Z.le_gt_cases 0 n); [done|rewrite Z.pow_neg_r in Ha by lia; lia]).
  assert (0 ≤ Z.lxor a b) by (apply Z.lxor_nonneg; lia). split; [done|].
  destruct (Z.eq_dec (Z.lxor a b) 0) as [->|Hne]; [lia|].
  destruct (Z.eq_dec a 0) as [->|Ha0]; [rewrite Z.lxor_0_l; lia|].
  destruct (Z.eq_dec b 0) as [->|Hb0]; [rewrite Z.lxor_0_r; lia|].
  apply Z.log2_lt_pow2; [lia|]. pose proof (Z.log2_lxor a b ltac:(lia) ltac:(lia)).
  assert (Z.log2 a < n) by (apply Z.log2_lt_pow2; lia). assert (Z.log2 b < n) by (apply Z.log2_lt_pow2; lia). lia.
Qed.

Lemma lxor_u32 (a b : Z) : in_u32 a → in_u32 b → in_u32 (Z.lxor a b).
Proof. apply lxor_bits. Qed.

Lemma lxor_cancel (a b : Z) : Z.lxor (Z.lxor a b) b = a.
Proof. by rewrite Z.lxor_assoc, Z.lxor_nilpotent, Z.lxor_0_r. Qed.

Lemma crc_bit_range (c : Z) : in_u32 c → in_u32 (crc_bit c).
Proof.
  intros Hc. assert (Hs : in_u32 (Z.shiftr c 1)).
  { unfold in_u32 in *. rewrite Z.shiftr_div_pow2 by lia. change (2 ^ 1) with 2. Z.div_mod_to_equations. lia. }
  unfold crc_bit. destruct (Z.odd c); [|done]. apply lxor_u32; [done|]. unfold in_u32. lia.
Qed.

Lemma crc32_range (m : bytes) : in_u32 (crc32 m).
Proof.
  unfold crc32. apply lxor_u32; [|unfold in_u32; lia].
  assert (Hgo : ∀ m c, in_u32 c → in_u32 (fold_left crc_byte m c)).
  { clear m. induction m as [|b m IH]; intros c Hc; [done|]. apply IH. unfold crc_byte.
    assert (Hx : in_u32 (Z.lxor c (b2z b))) by (apply lxor_u32; [done|]; pose proof (b2z_range b); unfold in_u32; lia).
    generalize dependent (Z.lxor c (b2z b)). intros x Hx. cbn [Nat.iter nat_rect].
    repeat apply crc_bit_range. done. }
  apply Hgo. unfold in_u32. lia.
Qed.

Lemma fingerprint_range (m : bytes) : in_u32 (Z.lxor (crc32 m) fingerprintXor).
Proof. apply lxor_u32; [apply crc32_range|]. unfold in_u32, fingerprintXor. lia. Qed.

(** ** Properties *)

(** ** Bits of the message type *)

Lemma testbit_above (n c i : Z) : 0 ≤ c < 2 ^ n → n ≤ i → Z.testbit c i = false.
Proof.
  intros Hc Hi. destruct (decide (c = 0)) as [->|]; [apply Z.bits_0|]. apply Z.bits_above_log2; [lia|].
  assert (Z.log2 c < n); [|lia]. apply Z.log2_lt_pow2; lia.
Qed.

Lemma below_by_bits (n a : Z) : 0 ≤ n → (∀ i, n ≤ i → Z.testbit a i = false) → 0 ≤ a < 2 ^ n.
Proof.
  intros Hn H. assert (a = a mod 2 ^ n) as ->; [|apply Z.mod_pos_bound; lia].
  apply Z.bits_inj'. intros i Hi. destruct (decide (i < n)); [by rewrite Z.mod_pow2_bits_low by lia|].
  rewrite Z.mod_pow2_bits_high, H by lia. done.
Qed.

Lemma shl16_bits (x n i : Z) : 0 ≤ n → 0 ≤ i → Z.testbit (shl16 x n) i = (i <? 16) && (n <=? i) && Z.testbit x (i - n).
Proof.
  intros Hn Hi. unfold shl16. destruct (Z.ltb_spec i 16); [|by rewrite Z.mod_pow2_bits_high by lia].
  rewrite Z.mod_pow2_bits_low by lia. destruct (Z.leb_spec n i); [by rewrite Z.shiftl_spec_high by lia|]. by rewrite Z.shiftl_spec_low by lia.
Qed.


Lemma below_induction (P : Z → Prop) (n : nat) : Forall P (Z.of_nat <$> seq 0 n) → ∀ i, 0 ≤ i < Z.of_nat n → P i.
Proof. intros H i Hi. rewrite list.Forall_forall in H. apply H, list_elem_of_fmap. exists (Z.to_nat i). rewrite elem_of_seq. split; lia. Qed.

Lemma method_bits (t i : Z) : 0 ≤ i →
  Z.testbit (MethodOf t) i = (Z.testbit 0xF i && Z.testbit t i || Z.testbit 0x70 i && Z.testbit t (i + 1)) || Z.testbit 0xF80 i && Z.testbit t (i + 2).
Proof. intros Hi. unfold MethodOf. rewrite !Z.lor_spec, !Z.land_spec, !Z.shiftr_spec by lia. btauto. Qed.

Lemma class_bits (t i : Z) : 0 ≤ i → Z.testbit (ClassOf t) i = Z.testbit 2 i && Z.testbit t (i + 7) || Z.testbit 1 i && Z.testbit t (i + 4).
Proof. intros Hi. unfold ClassOf. rewrite !Z.lor_spec, !Z.land_spec, !Z.shiftr_spec by lia. btauto. Qed.

Lemma type_bits (m c i : Z) : 0 ≤ i → Z.testbit (NewMessageType m c) i =
  (((Z.testbit 0xF i && Z.testbit m i || (i <? 16) && (1 <=? i) && (Z.testbit 0x70 (i - 1) && Z.testbit m (i - 1)))
    || (i <? 16) && (2 <=? i) && (Z.testbit 0xF80 (i - 2) && Z.testbit m (i - 2)))
   || (i <? 16) && (7 <=? i) && (Z.testbit 2 (i - 7) && Z.testbit c (i - 7)))
  || (i <? 16) && (4 <=? i) && (Z.testbit 1 (i - 4) && Z.testbit c (i - 4)).
Proof. intros Hi. unfold NewMessageType. rewrite !Z.lor_spec, !shl16_bits, !Z.land_spec by lia. btauto. Qed.

Ltac bits_low :=
  cbn [seq fmap list_fmap]; repeat apply List.Forall_cons; [..|apply List.Forall_nil];
  repeat match goal with |- context [Z.of_nat ?k] => let z := eval vm_compute in (Z.of_nat k) in change (Z.of_nat k) with z end;
  repeat (cbn -[Z.testbit]; first [rewrite type_bits by lia | rewrite method_bits by lia | rewrite class_bits by lia]);
  cbn; rewrite ?orb_false_r, ?andb_true_r; reflexivity.

(** The bit-interleaved message type is a bijection between the pairs of a
    12-bit method and a 2-bit class and the 14-bit wire types. *)
Theorem message_type_bijection :
  (∀ method class, 0 ≤ method < 4096 → 0 ≤ class < 4 →
     MethodOf (NewMessageType method class) = method ∧ ClassOf (NewMessageType method class) = class ∧
     0 ≤ NewMessageType method class < 16384) ∧
  (∀ t, 0 ≤ t < 16384 → NewMessageType (MethodOf t) (ClassOf t) = t ∧ 0 ≤ MethodOf t < 4096 ∧ 0 ≤ ClassOf t < 4).
Proof.
  assert (Hm : ∀ t, 0 ≤ MethodOf t < 2 ^ 12).
  { intros t. apply below_by_bits; [lia|]. intros i Hi. rewrite method_bits by lia. by rewrite (testbit_above 12 0xF), (testbit_above 12 0x70), (testbit_above 12 0xF80) by lia. }
  assert (Hc : ∀ t, 0 ≤ ClassOf t < 2 ^ 2).
  { intros t. apply below_by_bits; [lia|]. intros i Hi. rewrite class_bits by lia. by rewrite (testbit_above 2 2), (testbit_above 2 1) by lia. }
  assert (Ht : ∀ m c, 0 ≤ NewMessageType m c < 2 ^ 14).
  { intros m c. apply below_by_bits; [lia|]. intros i Hi. rewrite type_bits by lia.
    rewrite (testbit_above 4 15 i), (testbit_above 7 0x70), (testbit_above 12 0xF80), (testbit_above 2 2), (testbit_above 1 1) by lia.
    by rewrite !andb_false_r. }
  assert (Heq : ∀ n a b, 0 ≤ a < 2 ^ Z.of_nat n → 0 ≤ b < 2 ^ Z.of_nat n → Forall (λ i, Z.testbit a i = Z.testbit b i) (Z.of_nat <$> seq 0 n) → a = b).
  { intros n a b Ha Hb H. apply Z.bits_inj'. intros i Hi. destruct (decide (i < Z.of_nat n)).
    - by apply (below_induction (λ i, Z.testbit a i = Z.testbit b i) n H).
    - by rewrite !(testbit_above (Z.of_nat n)) by lia. }
  split.
  - intros method class Hm' Hc'. split_and!; [apply (Heq 12%nat); [apply Hm|done|]|apply (Heq 2%nat); [apply Hc|done|]|apply Ht..]; bits_low.
  - intros t Ht'. split_and!; [apply (Heq 14%nat); [apply Ht|done|]|apply Hm..|apply Hc|apply Hc]; bits_low.
Qed.

(** What is marshalled parses back.  For a well-typed message whose
    FINGERPRINT (if any) is last, [Marshal] succeeds exactly when the padded
    attributes fit in 65535 bytes, and parsing the bytes, whatever follows them
    in the datagram, returns the type, transaction and attributes, with those
    bytes as the retained wire. *)
Theorem stun_marshal_parse (m : Message) (tail : bytes) :
  message_typed m → fingerprint_last m →
  (is_ok (Marshal m) = true ↔ attributeSectionLength (m_Attributes m) ≤ 65535) ∧
  (∀ b, Marshal m = Ok b →
     ParseMessage (b ++ tail) = Ok (mkMessage (m_Type m) (m_TransactionID m) (m_Attributes m) b)).
Proof.
  intros Ht Hf. unfold Marshal, MaxMessageSize. split.
  - destruct (Z.ltb_spec 65535 (attributeSectionLength (m_Attributes m))); cbn; split; (done || lia).
  - intros b Hb. guards Hb. injection Hb as <-. bool_prop. by apply ParseMessage_frame.
Qed.

(** The parser is safe on every input: it never slices out of range and its
    loop always ends; and an accepted message is well typed, its attributes fill
    the declared section exactly, so it marshals again, to the same length, and
    the result parses to the same attributes. *)
Theorem stun_parse_safe (data : bytes) :
  match ParseMessage data with
  | Ok m => ∃ b, Marshal m = Ok b ∧ length b = length (m_raw m) ∧ m_raw m = take (length b) data ∧
      ParseMessage b = Ok (mkMessage (m_Type m) (m_TransactionID m) (m_Attributes m) b)
  | Err e => e ≠ EPanic ∧ e ≠ EFuel
  end.
Proof.
  destruct (ParseMessage data) as [m|e] eqn:Hp.
  - apply ParseMessage_inv in Hp as (declared&Hd&H4&Hr&Hn&_&Hraw&Ht&Hx&Ha&Hs&Hfp).
    exists (wire_prefix m declared (m_Attributes m)). unfold Marshal, MaxMessageSize. rewrite Hs.
    rewrite (proj2 (Z.ltb_ge _ _)) by lia. split; [done|].
    assert (Hl : length (wire_prefix m declared (m_Attributes m)) = (20 + Z.to_nat declared)%nat)
      by (rewrite length_wire_prefix, Hs by done; lia).
    rewrite Hl. split_and!.
    + rewrite Hraw, length_take. lia.
    + done.
    + rewrite <- (app_nil_r (wire_prefix _ _ _)) at 1. subst declared. rewrite <- Hs. apply ParseMessage_frame; [done|done|rewrite Hs; lia].
  - unfold ParseMessage in Hp. cbv zeta in Hp.
    repeat match type of Hp with (if ?b then _ else _) = _ => destruct b eqn:?; [injection Hp as <-; split; discriminate|] end.
    bool_prop. pose proof (be_get_range (slice data 2 4)).
    pose proof (parse_attrs_safe (length data) (slice data HeaderSize (HeaderSize + Z.to_nat (be_get (slice data 2 4)))) []) as Hs.
    assert (Hz : zlen (slice data HeaderSize (HeaderSize + Z.to_nat (be_get (slice data 2 4)))) = be_get (slice data 2 4)).
    { unfold zlen, HeaderSize in *. rewrite length_slice; lia. }
    rewrite Hz in Hs. specialize (Hs ltac:(done) ltac:(unfold zlen, HeaderSize in *; lia)).
    destruct (parse_attrs _ _ _) as [attrs|e'].
    + destruct (_ && _); [injection Hp as <-; split; discriminate|done].
    + injection Hp as <-. destruct Hs as [-> | ->]; split; discriminate.
Qed.

Lemma xor_byte_cancel (a b : byte) : xor_byte (xor_byte a b) b = a.
Proof.
  unfold xor_byte. pose proof (b2z_range a). pose proof (b2z_range b).
  rewrite b2z_u8, Z.mod_small by (apply (lxor_bits 8); lia). rewrite lxor_cancel. apply u8_b2z.
Qed.

Lemma xor_bytes_cancel (a k : bytes) : (length a ≤ length k)%nat → xor_bytes (xor_bytes a k) k = a.
Proof.
  unfold xor_bytes. revert k; induction a as [|x a IH]; intros k Hk; [by destruct k|].
  destruct k as [|y k]; [cbn in Hk; lia|]. cbn. rewrite xor_byte_cancel. f_equal. apply IH. cbn in Hk. lia.
Qed.

Lemma length_xor_bytes (a k : bytes) : (length a ≤ length k)%nat → length (xor_bytes a k) = length a.
Proof. intros Hk. unfold xor_bytes. rewrite length_zip_with. lia. Qed.

Lemma xor_port_cancel (p : Z) : xor_port (xor_port p) = p.
Proof. apply lxor_cancel. Qed.

Lemma xor_port_range (p : Z) : in_u16 p → in_u16 (xor_port p).
Proof. intros Hp. apply lxor_bits; [done|]. vm_compute. split; [discriminate|reflexivity]. Qed.

Lemma Get_Add (m : Message) (t : Z) (v : bytes) : Count m t = 0%nat →
  Get (Add m t v) t = Some v ∧ Count (Add m t v) t = 1%nat.
Proof.
  intros Hc. change (Count m t) with (count_type t (m_Attributes m)) in Hc. split.
  - apply count_type_0 in Hc. unfold Get, Add. cbn [m_Attributes].
    induction Hc as [|a l Ha _ IH]; cbn; [by rewrite Z.eqb_refl|]. by rewrite (proj2 (Z.eqb_neq _ _)).
  - unfold Add. change (Count _ t) with (count_type t (m_Attributes m ++ [mkAttr t v])).
    rewrite count_type_app, Hc. unfold count_type. cbn. by rewrite Z.eqb_refl.
Qed.

(** An address the attributes can carry. *)
Definition addr_ok (a : Addr) : Prop :=
  match a with
  | Addr4 o => length o = 4%nat
  | Addr6 o => length o = 16%nat ∧ Is4In6 a = false
  | AddrZero => False
  end.

Lemma decode_address (value txid : bytes) (fam : byte) (port : Z) (o : bytes) (xor : bool) :
  value = [Byte.x00; fam] ++ be_put 2 port ++ o → in_u16 port →
  (fam = Byte.x01 ∧ length o = 4%nat ∨ fam = Byte.x02 ∧ length o = 16%nat) →
  decodeAddressAttribute value txid xor =
    Ok (if bool_decide (fam = Byte.x01) then Addr4 (if xor then xor_bytes o cookie_bytes else o)
        else Addr6 (if xor then xor_bytes o (cookie_bytes ++ txid) else o),
        if xor then xor_port port else port).
Proof.
  intros Hv Hp Hf. assert (Hz : zlen value = 4 + zlen o) by (rewrite Hv, !zlen_app, zlen_be_put; change (zlen [Byte.x00; fam]) with 2; lia).
  assert (S1 : slice value 1 2 = [fam]) by (rewrite Hv; done).
  assert (S2 : slice value 2 4 = be_put 2 port) by (rewrite Hv; apply slice_mid; [done|by rewrite length_be_put]).
  assert (S3 : ∀ k, k = (4 + length o)%nat → slice value 4 k = o).
  { intros k ->. replace value with (([Byte.x00; fam] ++ be_put 2 port) ++ o ++ []) by (by rewrite app_nil_r, Hv, app_assoc).
    apply slice_mid; rewrite length_app, length_be_put; done. }
  pose proof (zlen_nonneg o). unfold decodeAddressAttribute. rewrite S1, S2, be_get_one, be_get_u16 by done.
  rewrite (proj2 (Z.ltb_ge _ _)) by lia.
  destruct Hf as [[-> Ho]|[-> Ho]].
  - change (b2z Byte.x01 =? 1) with true. rewrite (proj2 (Z.ltb_ge _ _)) by (unfold zlen in *; lia).
    rewrite S3 by lia. rewrite bool_decide_eq_true_2 by done. done.
  - change (b2z Byte.x02 =? 1) with false. change (b2z Byte.x02 =? 2) with true. cbv iota.
    rewrite (proj2 (Z.ltb_ge _ _)) by (unfold zlen in *; lia).
    rewrite S3 by lia. rewrite bool_decide_eq_false_2 by done. done.
Qed.

(** Address attributes round trip.  For an IPv4 or (not IPv4-mapped) IPv6
    address, a 16-bit port and a 96-bit transaction, adding XOR-MAPPED-ADDRESS or
    ALTERNATE-SERVER to a message that has none succeeds, and decoding the
    attribute returns the address and port. *)
Theorem stun_address_roundtrip (m : Message) (a : Addr) (port : Z) :
  addr_ok a → in_u16 port → length (m_TransactionID m) = 12%nat →
  (Count m AttrXORMappedAddress = 0%nat →
     ∃ m', AddXORMappedAddress m a port = Ok m' ∧ XORMappedAddress m' = Ok (a, port)) ∧
  (Count m AttrAlternateServer = 0%nat →
     ∃ m', AddAlternateServer m a port = Ok m' ∧ AlternateServer m' = Ok (a, port)).
Proof.
  intros Ha Hp Hx. assert (Hck : length cookie_bytes = 4%nat) by apply length_be_put.
  split; intros Hc.
  - unfold AddXORMappedAddress, XORMappedAddress. rewrite Hc. rewrite bool_decide_eq_false_2 by lia.
    destruct a as [|o|o]; cbn [addr_ok] in Ha; [done| |destruct Ha as [Ho ->]];
      (eexists; split; [done|]); match goal with |- context [Add m _ ?v] => destruct (Get_Add m AttrXORMappedAddress v Hc) as [-> ->] end;
      rewrite bool_decide_eq_false_2 by lia; cbn [m_TransactionID Add].
    + rewrite (decode_address _ _ Byte.x01 (xor_port port) (xor_bytes o cookie_bytes)); [|done|by apply xor_port_range|].
      * rewrite bool_decide_eq_true_2, xor_port_cancel, xor_bytes_cancel by (done || lia). done.
      * left. rewrite length_xor_bytes by lia. done.
    + rewrite (decode_address _ _ Byte.x02 (xor_port port) (xor_bytes o (cookie_bytes ++ m_TransactionID m)));
        [|done|by apply xor_port_range|].
      * rewrite bool_decide_eq_false_2, xor_port_cancel, xor_bytes_cancel by (done || rewrite length_app; lia). done.
      * right. rewrite length_xor_bytes by (rewrite length_app; lia). done.
  - unfold AddAlternateServer, AlternateServer.
    destruct a as [|o|o]; cbn [addr_ok] in Ha; [done| |destruct Ha as [Ho ->]];
      (eexists; split; [done|]); match goal with |- context [Add m _ ?v] => destruct (Get_Add m AttrAlternateServer v Hc) as [-> ->] end;
      rewrite bool_decide_eq_false_2 by lia; cbn [m_TransactionID Add].
    + rewrite (decode_address _ _ Byte.x01 port o) by (done || by left). done.
    + rewrite (decode_address _ _ Byte.x02 port o) by (done || by right). done.
Qed.

(** C33: what MESSAGE-INTEGRITY verification covers.  For a parsed message,
    verification reports [true] exactly when there is one MESSAGE-INTEGRITY
    attribute, of 20 bytes, equal to the HMAC under the key of the received
    bytes before it with the header length set to end at it; the attributes
    after it and the received length field play no part. *)
Theorem integrity_covers_wire `{Hmac} (data key : bytes) (m : Message) :
  ParseMessage data = Ok m →
  VerifyMessageIntegrity m key = Ok true ↔
  ∃ idx a, find_index AttrMessageIntegrity (m_Attributes m) = Some idx ∧ m_Attributes m !! idx = Some a ∧
    (Count m AttrMessageIntegrity ≤ 1)%nat ∧ zlen (at_Value a) = 20 ∧
    let section := attributeSectionLength (take idx (m_Attributes m)) in
    at_Value a = hmac_sha1 key (patch_length (take (Z.to_nat (20 + section)) data) (section + 24)).
Proof.
  intros Hp. apply ParseMessage_inv in Hp as (declared&Hd&H4&Hr&Hn&_&Hraw&Ht&Hx&Ha&Hs&_).
  assert (Hne : m_raw m ≠ []).
  { rewrite Hraw. intros He. apply (f_equal length) in He. rewrite length_take in He. change (length (@nil byte)) with 0%nat in He. lia. }
  assert (Hin : ∀ idx, integrityInput m idx = Ok (patch_length
    (take (Z.to_nat (20 + attributeSectionLength (take idx (m_Attributes m)))) data)
    (attributeSectionLength (take idx (m_Attributes m)) + 24))).
  { intros idx. set (sec := attributeSectionLength (take idx (m_Attributes m))).
    assert (0 ≤ sec ≤ declared).
    { rewrite <- Hs, <- (take_drop idx (m_Attributes m)) at 1. rewrite section_app.
      pose proof (section_nonneg (drop idx (m_Attributes m))). pose proof (section_nonneg (take idx (m_Attributes m))). unfold sec. lia. }
    rewrite integrityInput_raw; [|done|done|rewrite Hraw, length_take; fold sec; lia].
    fold sec. do 2 f_equal. rewrite Hraw, take_take. f_equal. lia. }
  unfold VerifyMessageIntegrity. destruct (find_index AttrMessageIntegrity (m_Attributes m)) as [idx|] eqn:Ef; [|naive_solver].
  rewrite Hin. assert (Hlt : ∃ a, m_Attributes m !! idx = Some a).
  { clear -Ef. revert idx Ef. induction (m_Attributes m) as [|a l IH]; intros idx Ef; [done|]. cbn in Ef.
    destruct (at_Type a =? _); [injection Ef as <-; by eexists|].
    destruct (find_index _ l) as [i|]; [|done]. injection Ef as <-. cbn. by apply IH. }
  destruct Hlt as [a Hl]. rewrite Hl. unfold integrityLength. split.
  - intros Hv. guards Hv. bool_prop. injection Hv as Hv. bool_prop. exists idx, a. split_and!; try done; try lia.
  - intros (idx'&a'&Hi&Hl'&Hc&Hz&He). simplify_eq. rewrite bool_decide_eq_false_2 by lia.
    rewrite Hz. cbn [Z.eqb negb]. rewrite Pos.eqb_refl. cbn [negb]. f_equal. unfold bytes_eqb. by apply bool_decide_eq_true.
Qed.

Lemma last_snoc_attr (l : list Attribute) (a : Attribute) : list.last (l ++ [a]) = Some a.
Proof. apply last_snoc. Qed.

Lemma Count_Add (m : Message) (t u : Z) (v : bytes) :
  Count (Add m t v) u = (Count m u + if (t =? u)%Z then 1 else 0)%nat.
Proof.
  unfold Add. change (Count _ u) with (count_type u (m_Attributes m ++ [mkAttr t v])) at 1.
  rewrite count_type_app. unfold count_type at 2. cbn. by destruct (t =? u).
Qed.

Lemma VerifyFingerprint_made (m : Message) : length (m_TransactionID m) = 12%nat → Count m AttrFingerprint = 0%nat →
  let section := attributeSectionLength (m_Attributes m) in
  let crc := be_put 4 (Z.lxor (crc32 (wire_prefix m (section + 8) (m_Attributes m))) fingerprintXor) in
  let m2 := Add m AttrFingerprint crc in
  VerifyFingerprint (mkMessage (m_Type m2) (m_TransactionID m2) (m_Attributes m2)
    (wire_prefix m2 (attributeSectionLength (m_Attributes m2)) (m_Attributes m2))) = Ok true.
Proof.
  intros Hx Hc section crc m2.
  assert (Hcnt : Count m2 AttrFingerprint = 1%nat) by (unfold m2; rewrite Count_Add, Hc; done).
  assert (Hlast : list.last (m_Attributes m2) = Some (mkAttr AttrFingerprint crc)) by apply last_snoc.
  assert (Hzc : zlen crc = 4) by apply zlen_be_put.
  assert (Hb : take (length (m_Attributes m2) - 1) (m_Attributes m2) = m_Attributes m).
  { unfold m2. cbn [Add m_Attributes]. rewrite length_app. cbn [length]. apply take_exact. lia. }
  assert (Hs2 : attributeSectionLength (m_Attributes m2) = section + 8).
  { unfold m2. cbn [Add m_Attributes]. rewrite section_app. unfold crc. cbn [attributeSectionLength foldr attr_size at_Value].
    unfold attr_size. cbn [at_Value]. rewrite zlen_be_put. done. }
  pose proof (section_nonneg (m_Attributes m)) as [Hsn _]. fold section in Hsn.
  assert (Hw : ∃ t, wire_prefix m2 (section + 8) (m_Attributes m2) = wire_prefix m (section + 8) (m_Attributes m) ++ t).
  { eexists. unfold wire_prefix, m2. cbn [Add m_Type m_TransactionID m_Attributes]. unfold encode_attrs.
    rewrite map_app, concat_app, app_assoc. done. }
  destruct Hw as [t Hw]. rewrite Hs2, Hw.
  unfold VerifyFingerprint. cbv zeta. cbn [m_Attributes m_raw m_TransactionID m_Type].
  change (Count _ AttrFingerprint) with (Count m2 AttrFingerprint). rewrite Hcnt, Hlast, Hb. fold section.
  cbn [at_Type at_Value]. rewrite Hzc. rewrite bool_decide_eq_false_2 by done.
  change (AttrFingerprint =? AttrFingerprint) with true. change (4 =? 4) with true. cbn [negb].
  pose proof (length_wire_prefix m (section + 8) (m_Attributes m) Hx) as Hl. fold section in Hl.
  change (Z.of_nat HeaderSize) with 20. rewrite bool_decide_eq_true_2 by (rewrite length_app, Hl; lia).
  rewrite (take_exact _ t) by (by rewrite Hl). unfold crc. rewrite be_get_u32 by apply fingerprint_range. by rewrite Z.eqb_refl.
Qed.

Lemma attr_typed_mac `{HmacLaws} (key w : bytes) : attr_typed (mkAttr AttrMessageIntegrity (hmac_sha1 key w)).
Proof. split; cbn [at_Type at_Value]; [unfold in_u16, AttrMessageIntegrity; lia|]. unfold zlen. rewrite hmac_length. lia. Qed.

Lemma attr_typed_fp (c : Z) : attr_typed (mkAttr AttrFingerprint (be_put 4 c)).
Proof. split; cbn [at_Type at_Value]; [unfold in_u16, AttrFingerprint; lia|]. rewrite zlen_be_put. lia. Qed.

Lemma attr_size_value (t : Z) (v : bytes) (n : Z) : zlen v = n → attr_size (mkAttr t v) = 4 + align4 n.
Proof. intros Hv. unfold attr_size. cbn [at_Value]. by rewrite Hv. Qed.

(** An authenticated message survives the wire.  For a well-typed message
    with neither attribute and room for both, adding MESSAGE-INTEGRITY and then
    FINGERPRINT succeeds, the result marshals and parses, and on the parsed
    message both verifications report [true] under the same key. *)
Theorem stun_authenticated_roundtrip `{HmacLaws} (m : Message) (key tail : bytes) :
  message_typed m → Count m AttrMessageIntegrity = 0%nat → Count m AttrFingerprint = 0%nat →
  attributeSectionLength (m_Attributes m) + 32 ≤ 65535 →
  ∃ m1 m2 b p, AddMessageIntegrity m key = Ok m1 ∧ AddFingerprint m1 = Ok m2 ∧ Marshal m2 = Ok b ∧
    ParseMessage (b ++ tail) = Ok p ∧ m_Attributes p = m_Attributes m2 ∧
    VerifyMessageIntegrity p key = Ok true ∧ VerifyFingerprint p = Ok true.
Proof.
  intros (Ht&Hx&Ha) Hmi Hfp Hsec. set (section := attributeSectionLength (m_Attributes m)) in *.
  set (mac := hmac_sha1 key (wire_prefix m (section + 4 + integrityLength) (m_Attributes m))).
  set (m1 := Add m AttrMessageIntegrity mac).
  set (crc := be_put 4 (Z.lxor (crc32 (wire_prefix m1 (attributeSectionLength (m_Attributes m1) + 8) (m_Attributes m1))) fingerprintXor)).
  set (m2 := Add m1 AttrFingerprint crc).
  assert (Hmac : zlen mac = 20) by (unfold zlen, mac; rewrite hmac_length; done).
  assert (Hs1 : attributeSectionLength (m_Attributes m1) = section + 24).
  { unfold m1. cbn [Add m_Attributes]. rewrite section_app, section_cons, (attr_size_value _ _ 20) by done. done. }
  assert (Hs2 : attributeSectionLength (m_Attributes m2) = section + 32).
  { unfold m2. cbn [Add m_Attributes]. rewrite section_app, Hs1, section_cons, (attr_size_value _ _ 4) by apply zlen_be_put.
    change (align4 4) with 4. change (attributeSectionLength []) with 0. lia. }
  assert (Hf1 : Count m1 AttrFingerprint = 0%nat) by (unfold m1; rewrite Count_Add, Hfp; done).
  assert (Htyped : message_typed m2).
  { split_and!; try done. unfold m2, m1. cbn [Add m_Attributes].
    repeat apply Forall_app_2; try done; (constructor; [|constructor]); [apply attr_typed_mac|apply attr_typed_fp]. }
  assert (Hlast : fingerprint_last m2).
  { intros _. unfold last_is_fingerprint, m2. cbn [Add m_Attributes]. by rewrite last_snoc. }
  exists m1, m2, (wire_prefix m2 (section + 32) (m_Attributes m2)).
  exists (mkMessage (m_Type m2) (m_TransactionID m2) (m_Attributes m2) (wire_prefix m2 (section + 32) (m_Attributes m2))).
  assert (Hparse : ParseMessage (wire_prefix m2 (section + 32) (m_Attributes m2) ++ tail) = Ok (mkMessage (m_Type m2)
    (m_TransactionID m2) (m_Attributes m2) (wire_prefix m2 (section + 32) (m_Attributes m2)))).
  { rewrite <- Hs2. apply ParseMessage_frame; [done|done|lia]. }
  split_and!; try done.
  - unfold AddMessageIntegrity. rewrite Hmi. fold section. rewrite bool_decide_eq_false_2 by lia.
    unfold MaxMessageSize, integrityLength. rewrite (proj2 (Z.ltb_ge _ _)) by lia. done.
  - unfold AddFingerprint. rewrite Hf1, bool_decide_eq_false_2 by lia. rewrite Hs1. unfold MaxMessageSize.
    rewrite (proj2 (Z.ltb_ge _ _)) by lia. unfold m2, crc. by rewrite Hs1.
  - unfold Marshal. rewrite Hs2. unfold MaxMessageSize. rewrite (proj2 (Z.ltb_ge _ _)) by lia. done.
  - apply count_type_0 in Hmi.
    set (p := mkMessage _ _ _ _). pose proof (section_nonneg (m_Attributes m)) as [Hsn _]. fold section in Hsn.
    assert (Hat : m_Attributes p = m_Attributes m ++ [mkAttr AttrMessageIntegrity mac; mkAttr AttrFingerprint crc]).
    { unfold p, m2, m1. cbn [Add m_Attributes]. by rewrite <- app_assoc. }
    unfold VerifyMessageIntegrity. rewrite Hat, find_index_app by done. cbn [find_index at_Type].
    change (AttrMessageIntegrity =? AttrMessageIntegrity) with true. cbn [fmap option_fmap option_map].
    rewrite Nat.add_0_r, list_lookup_middle by done. cbn [at_Value].
    change (Count p AttrMessageIntegrity) with (count_type AttrMessageIntegrity (m_Attributes p)).
    rewrite Hat, count_type_app, (proj2 (count_type_0 _ _) Hmi). rewrite bool_decide_eq_false_2 by (cbn; lia).
    rewrite Hmac. change (20 =? integrityLength) with true. cbn [negb].
    assert (Htake : take (length (m_Attributes m)) (m_Attributes p) = m_Attributes m) by (rewrite Hat; by apply take_exact).
    rewrite integrityInput_raw; [|done| |]; rewrite ?Htake; fold section.
    + assert (Hw : ∃ w, m_raw p = encode_header (m_Type m) (section + 32) (m_TransactionID m) ++ encode_attrs (m_Attributes m) ++ w).
      { eexists. change (m_raw p) with (wire_prefix m2 (section + 32) (m_Attributes p)). rewrite Hat. unfold wire_prefix, encode_attrs.
        rewrite map_app, concat_app. done. }
      destruct Hw as [w ->]. rewrite app_assoc, take_exact, patch_length_header.
      * f_equal. unfold bytes_eqb. apply bool_decide_eq_true. unfold mac, wire_prefix, integrityLength. do 3 f_equal. lia.
      * apply (length_wire_prefix m (section + 32) (m_Attributes m)). done.
    + unfold p. cbn [m_raw]. intros He. apply (f_equal length) in He. rewrite length_wire_prefix, Hs2 in He by done. cbn in He. lia.
    + unfold p. cbn [m_raw]. rewrite length_wire_prefix, Hs2 by done. lia.
  - pose proof (VerifyFingerprint_made m1 Hx Hf1) as Hv. cbv zeta in Hv. fold crc m2 in Hv. rewrite Hs2 in Hv. exact Hv.
Qed.

(** ERROR-CODE and UNKNOWN-ATTRIBUTES round trip.  On a message without
    the attribute, a code in 300..699 with any reason reads back, any other code
    is refused, and a list of 16-bit types reads back in order. *)
Theorem stun_error_roundtrip (m : Message) (code : Z) (reason : string) (types : list Z) :
  (Count m AttrErrorCode = 0%nat →
     if bool_decide (300 ≤ code ≤ 699)
     then ∃ m', SetErrorCode m code reason = Ok m' ∧ ErrorCode m' = Ok (code, reason)
     else SetErrorCode m code reason = Err EErrorCodeRange) ∧
  (Count m AttrUnknownAttributes = 0%nat → Forall in_u16 types →
     UnknownAttributes (AddUnknownAttributes m types) = Ok types).
Proof.
  split.
  - intros Hc. unfold SetErrorCode, ErrorCode. case_bool_decide as Hr.
    + rewrite (proj2 (Z.ltb_ge _ _)), (proj2 (Z.ltb_ge _ _)) by lia. eexists; split; [done|].
      destruct (Get_Add m AttrErrorCode ([Byte.x00; Byte.x00; u8 (code / 100); u8 (code mod 100)] ++ bytes_of reason) Hc) as [-> ->].
      rewrite bool_decide_eq_false_2 by lia. cbn [orb].
      change (slice _ 2 3) with [u8 (code / 100)]. change (slice _ 3 4) with [u8 (code mod 100)].
      rewrite !be_get_one, !b2z_u8. rewrite (Z.mod_small (code / 100)), (Z.mod_small (code mod 100)) by (Z.div_mod_to_equations; lia).
      replace (code / 100 * 100 + code mod 100) with code by (Z.div_mod_to_equations; lia).
      rewrite (proj2 (Z.ltb_ge _ 4)) by (rewrite zlen_app; pose proof (zlen_nonneg (bytes_of reason)); change (zlen [_;_;_;_]) with 4; lia).
      rewrite (proj2 (Z.ltb_ge _ 300)), (proj2 (Z.ltb_ge 699 _)) by lia. cbn [orb].
      change (drop 4 _) with (bytes_of reason). by rewrite string_of_bytes_of.
    + destruct (Z.ltb_spec code 300), (Z.ltb_spec 699 code); cbn; (done || lia).
  - intros Hc Ht. unfold UnknownAttributes, AddUnknownAttributes.
    destruct (Get_Add m AttrUnknownAttributes (concat (map (be_put 2) types)) Hc) as [-> _].
    assert (Hl : length (concat (map (be_put 2) types)) = (2 * length types)%nat).
    { clear. induction types as [|t l IH]; [done|]. cbn [map concat length]. rewrite length_app, length_be_put, IH. lia. }
    unfold zlen. rewrite Hl. replace (Z.of_nat (2 * length types)) with (Z.of_nat (length types) * 2) by lia.
    rewrite Z_mod_mult. cbn [Z.eqb negb]. f_equal.
    replace (2 * length types / 2)%nat with (length types) by (rewrite Nat.mul_comm, Nat.div_mul; lia).
    clear Hl Hc. induction Ht as [|t l Ht _ IH]; [done|]. cbn [length read_u16s map concat].
    rewrite take_exact, drop_exact by apply length_be_put. rewrite be_get_u16 by done. by rewrite IH.
Qed.

(** ** Concrete messages *)

Definition toy_hmac : Hmac := {| hmac_sha1 k m := be_put 20 (fold_left (λ c b, (c * 31 + b2z b + 1) mod 2 ^ 160) (k ++ m) 5) |}.

Lemma toy_hmac_laws : @HmacLaws toy_hmac.
Proof. split. intros. apply length_be_put. Qed.

Definition sample_txid : bytes := map u8 [1;2;3;4;5;6;7;8;9;10;11;12].
Definition sample_message : Message := Add (NewBindingRequest sample_txid) AttrSoftware (bytes_of "antinat").

Lemma sample_typed : message_typed sample_message.
Proof.
  split_and!; [split; vm_compute; congruence|done|constructor; [|constructor]].
  split; [split; vm_compute; congruence|vm_compute; congruence].
Qed.

Lemma stun_marshal_parse_witness :
  is_ok (Marshal sample_message) = true ↔ attributeSectionLength (m_Attributes sample_message) ≤ 65535.
Proof.
  refine (proj1 (stun_marshal_parse sample_message [] _ _)); [apply sample_typed|].
  intros Hc. exfalso. vm_compute in Hc. lia.
Defined.

Lemma stun_address_roundtrip_witness :
  ∃ m', AddXORMappedAddress sample_message (Addr4 (map u8 [203; 0; 113; 7])) 40000 = Ok m' ∧
    XORMappedAddress m' = Ok (Addr4 (map u8 [203; 0; 113; 7]), 40000).
Proof.
  refine (proj1 (stun_address_roundtrip sample_message (Addr4 (map u8 [203; 0; 113; 7])) 40000 _ _ _) _); try reflexivity.
  unfold in_u16. lia.
Defined.

Definition sample_signed : Message :=
  ok_or sample_message (@AddMessageIntegrity toy_hmac sample_message (bytes_of "secret")).
Definition sample_parsed : Message := ok_or sample_message (ParseMessage (ok_or [] (Marshal sample_signed))).

Lemma integrity_covers_wire_witness :
  @VerifyMessageIntegrity toy_hmac sample_parsed (bytes_of "secret") = Ok true ↔
  ∃ idx a, find_index AttrMessageIntegrity (m_Attributes sample_parsed) = Some idx ∧
    m_Attributes sample_parsed !! idx = Some a ∧
    (Count sample_parsed AttrMessageIntegrity ≤ 1)%nat ∧ zlen (at_Value a) = 20 ∧
    let section := attributeSectionLength (take idx (m_Attributes sample_parsed)) in
    at_Value a = @hmac_sha1 toy_hmac (bytes_of "secret")
      (patch_length (take (Z.to_nat (20 + section)) (ok_or [] (Marshal sample_signed))) (section + 24)).
Proof.
  refine (@integrity_covers_wire toy_hmac (ok_or [] (Marshal sample_signed)) (bytes_of "secret") sample_parsed _).
  vm_compute. reflexivity.
Defined.

Lemma stun_authenticated_roundtrip_witness :
  ∃ m1 m2 b p, @AddMessageIntegrity toy_hmac sample_message (bytes_of "secret") = Ok m1 ∧ AddFingerprint m1 = Ok m2 ∧
    Marshal m2 = Ok b ∧ ParseMessage (b ++ []) = Ok p ∧ m_Attributes p = m_Attributes m2 ∧
    @VerifyMessageIntegrity toy_hmac p (bytes_of "secret") = Ok true ∧ VerifyFingerprint p = Ok true.
Proof.
  refine (@stun_authenticated_roundtrip toy_hmac toy_hmac_laws sample_message (bytes_of "secret") [] _ _ _ _).
  - apply sample_typed.
  - reflexivity.
  - reflexivity.
  - vm_compute. discriminate.
Defined.

Lemma stun_error_roundtrip_witness :
  UnknownAttributes (AddUnknownAttributes sample_message [32; 9]) = Ok [32; 9].
Proof.
  refine (proj2 (stun_error_roundtrip sample_message 420 "x" [32; 9]) _ _); [reflexivity|].
  repeat constructor; unfold in_u16; lia.
Defined.

(** Bytes after the declared attribute section are accepted and ignored. *)
Example trailing_bytes_accepted :
  is_ok (ParseMessage (ok_or [] (Marshal sample_message) ++ [Byte.xff])) = true.
Proof. vm_compute. reflexivity. Qed.
