(* ===== verification/PortRegistry.v ===== *)
(** * The socket-owning port registry ([src/internal/traversal/portregistry.go])

    One registry of (family, protocol, address, port) tuples shared by all
    forwards.  [Acquire] and [AcquireUDP] run in one critical section; [release] checks the
    entry, drops the lock to close the socket, and checks again before deleting,
    so its three parts are separate steps that interleave with anything.  The
    operating system is the outcome of [Listen] (an error or the bound port) and
    of [Close], given by the step; [rs_open] records which sockets are open. *)

From Stdlib Require Import ZArith Lia.
From stdpp Require Import base tactics list sets strings option gmap.
From S2P Require Import Prelude.

Open Scope string_scope.
Open Scope Z_scope.

Inductive RegistryError : Type :=
  | ErrTupleOverlap | ErrStaleLease | ErrUnsupportedTuple | ErrOwnerRequired | ErrListen | ErrClose.

Record TupleKey : Type := mkKey { k_Family : string; k_Protocol : string; k_Address : string; k_Port : Z }.

#[export] Instance TupleKey_eq_dec : EqDecision TupleKey.
Proof. solve_decision. Defined.

#[export] Instance TupleKey_countable : Countable TupleKey.
Proof.
  refine (inj_countable' (λ k, (k_Family k, k_Protocol k, k_Address k, k_Port k))
    (λ t, let '(f, p, a, n) := t in mkKey f p a n) _).
  by intros [].
Defined.

Definition wildcard : string := "0.0.0.0".

Definition normalize (k : TupleKey) : TupleKey :=
  if String.eqb (k_Address k) "" || String.eqb (k_Address k) "::" || String.eqb (k_Address k) wildcard
  then mkKey (k_Family k) (k_Protocol k) wildcard (k_Port k)
  else k.

Definition overlaps (k other : TupleKey) : bool :=
  if negb (String.eqb (k_Family k) (k_Family other)) || negb (String.eqb (k_Protocol k) (k_Protocol other))
     || negb (k_Port k =? k_Port other) then false
  else if String.eqb (k_Address k) (k_Address other) || String.eqb (k_Address k) wildcard
     || String.eqb (k_Address other) wildcard then true
  else false.

(** A lease; [l_id] is the identity of the Go pointer. *)
Record Lease : Type := mkLease { l_id : nat; l_Actual : TupleKey; l_owner : string; l_generation : Z }.

#[export] Instance Lease_eq_dec : EqDecision Lease.
Proof. solve_decision. Defined.

Record leaseEntry : Type := mkEntry { e_owner : string; e_generation : Z; e_lease : nat }.

#[export] Instance leaseEntry_eq_dec : EqDecision leaseEntry.
Proof. solve_decision. Defined.

Record PortRegistry : Type := mkRegistry { r_entries : gmap TupleKey leaseEntry; r_generation : Z }.

Definition NewPortRegistry : PortRegistry := mkRegistry ∅ 0.

Definition overlapsLocked (r : PortRegistry) (candidate : TupleKey) : bool :=
  existsb (λ existing, overlaps existing candidate) (fst <$> map_to_list (r_entries r)).

Definition validateAcquireLocked (r : PortRegistry) (owner : string) (key : TupleKey) (protocol : string)
    : result RegistryError unit :=
  fail_if String.eqb owner "" with ErrOwnerRequired ;;
  fail_if negb (String.eqb (k_Family key) "ipv4") || negb (String.eqb (k_Protocol key) protocol)
    with ErrUnsupportedTuple ;;
  fail_if negb (k_Port key =? 0) && overlapsLocked r (normalize key) with ErrTupleOverlap ;;
  Ok tt.

(** The common body of [Acquire] and [AcquireUDP]; [listen] is the port the socket is bound to, or
    [None] when listening failed, and [id] the identity of the new lease.  A
    socket opened and found overlapping is closed again. *)
Definition acquireLocked (r : PortRegistry) (owner : string) (key0 : TupleKey) (protocol : string)
    (listen : option Z) (id : nat) : PortRegistry * result RegistryError Lease :=
  match validateAcquireLocked r owner key0 protocol with
  | Err e => (r, Err e)
  | Ok _ =>
      let key := normalize key0 in
      match listen with
      | None => (r, Err ErrListen)
      | Some port =>
          let actual := mkKey (k_Family key) (k_Protocol key) (k_Address key) (port mod 2 ^ 16) in
          if overlapsLocked r actual then (r, Err ErrTupleOverlap)
          else
            let generation := (r_generation r + 1) mod 2 ^ 64 in
            (mkRegistry (<[actual := mkEntry owner generation id]> (r_entries r)) generation,
             Ok (mkLease id actual owner generation))
      end
  end.

Definition Acquire (r : PortRegistry) (owner : string) (key : TupleKey) (listen : option Z) (id : nat)
    : PortRegistry * result RegistryError Lease := acquireLocked r owner key "tcp" listen id.

Definition AcquireUDP (r : PortRegistry) (owner : string) (key : TupleKey) (listen : option Z) (id : nat)
    : PortRegistry * result RegistryError Lease := acquireLocked r owner key "udp" listen id.

(** The check both critical sections of [release] make. *)
Definition entry_matches (r : PortRegistry) (l : Lease) : bool :=
  match r_entries r !! l_Actual l with
  | Some e => String.eqb (e_owner e) (l_owner l) && (e_generation e =? l_generation l)
              && bool_decide (e_lease e = l_id l)
  | None => false
  end.

Inductive close_outcome : Type := CloseOk | CloseAlreadyClosed | CloseFailed.

(** The second critical section. *)
Definition release_finish (r : PortRegistry) (l : Lease) : PortRegistry * result RegistryError unit :=
  if entry_matches r l
  then (mkRegistry (delete (l_Actual l) (r_entries r)) (r_generation r), Ok tt)
  else (r, Err ErrStaleLease).

(** [release] without interference. *)
Definition release (r : PortRegistry) (l : Lease) (close : close_outcome) : PortRegistry * result RegistryError unit :=
  if entry_matches r l then
    match close with
    | CloseFailed => (r, Err ErrClose)
    | CloseOk | CloseAlreadyClosed => release_finish r l
    end
  else (r, Err ErrStaleLease).

Definition Has (r : PortRegistry) (key : TupleKey) : bool := bool_decide (is_Some (r_entries r !! normalize key)).
Definition Len (r : PortRegistry) : nat := size (r_entries r).

(** ** Interleaved executions

    Each release in progress is a flight: it has passed its first check, and
    then possibly closed its socket. *)

Inductive flight_phase : Type := Checked | Closed.

Record system : Type := mkSystem {
  rs_registry : PortRegistry;
  rs_open : gmap nat Lease;
  rs_flights : gmap nat (Lease * flight_phase);
  rs_next : nat
}.

Definition initial_system : system := mkSystem NewPortRegistry ∅ ∅ 0.

Inductive registry_step : Type :=
  | SAcquire (owner : string) (key : TupleKey) (listen : option Z)
  | SAcquireUDP (owner : string) (key : TupleKey) (listen : option Z)
  | SReleaseStart (thread : nat) (l : Lease)
  | SReleaseClose (thread : nat) (outcome : close_outcome)
  | SReleaseFinish (thread : nat).

(** The outcome of an acquisition: on success the new socket is open. *)
Definition publish (s : system) (o : PortRegistry * result RegistryError Lease) : system :=
  match o with
  | (r, Ok l) => mkSystem r (<[l_id l := l]> (rs_open s)) (rs_flights s) (S (rs_next s))
  | (r, Err _) => mkSystem r (rs_open s) (rs_flights s) (rs_next s)
  end.

Definition sys_step (s : system) (st : registry_step) : system :=
  match st with
  | SAcquire owner key listen => publish s (Acquire (rs_registry s) owner key listen (rs_next s))
  | SAcquireUDP owner key listen => publish s (AcquireUDP (rs_registry s) owner key listen (rs_next s))
  | SReleaseStart thread l =>
      if entry_matches (rs_registry s) l && bool_decide (rs_flights s !! thread = None)
      then mkSystem (rs_registry s) (rs_open s) (<[thread := (l, Checked)]> (rs_flights s)) (rs_next s)
      else s
  | SReleaseClose thread outcome =>
      match rs_flights s !! thread with
      | Some (l, Checked) =>
          match outcome with
          | CloseFailed => mkSystem (rs_registry s) (rs_open s) (delete thread (rs_flights s)) (rs_next s)
          | CloseOk | CloseAlreadyClosed =>
              mkSystem (rs_registry s) (delete (l_id l) (rs_open s))
                (<[thread := (l, Closed)]> (rs_flights s)) (rs_next s)
          end
      | _ => s
      end
  | SReleaseFinish thread =>
      match rs_flights s !! thread with
      | Some (l, Closed) =>
          mkSystem (release_finish (rs_registry s) l).1 (rs_open s) (delete thread (rs_flights s)) (rs_next s)
      | _ => s
      end
  end.

Definition sys_run (s : system) (sts : list registry_step) : system := fold_left sys_step sts s.

(** ** Lemmas *)

Lemma overlaps_spec (a b : TupleKey) :
  overlaps a b = true ↔ k_Family a = k_Family b ∧ k_Protocol a = k_Protocol b ∧ k_Port a = k_Port b ∧
    (k_Address a = k_Address b ∨ k_Address a = wildcard ∨ k_Address b = wildcard).
Proof.
  unfold overlaps.
  destruct (String.eqb_spec (k_Family a) (k_Family b)), (String.eqb_spec (k_Protocol a) (k_Protocol b)),
    (Z.eqb_spec (k_Port a) (k_Port b)); cbn [negb orb]; try naive_solver.
  destruct (String.eqb_spec (k_Address a) (k_Address b)), (String.eqb_spec (k_Address a) wildcard),
    (String.eqb_spec (k_Address b) wildcard); cbn [orb]; naive_solver.
Qed.

Lemma overlaps_refl (k : TupleKey) : overlaps k k = true.
Proof. apply overlaps_spec. auto. Qed.

Lemma overlaps_sym (a b : TupleKey) : overlaps a b = true → overlaps b a = true.
Proof. rewrite !overlaps_spec. naive_solver. Qed.

Lemma overlapsLocked_false (r : PortRegistry) (c : TupleKey) :
  overlapsLocked r c = false → ∀ k e, r_entries r !! k = Some e → overlaps k c = false ∧ overlaps c k = false.
Proof.
  intros Hf k e Hk. assert (Ho : overlaps k c = false).
  { apply not_true_iff_false. intros Ht. apply not_true_iff_false in Hf. apply Hf. apply existsb_exists.
    exists k. split; [|done]. apply list_elem_of_In, list_elem_of_fmap. exists (k, e). split; [done|].
    by apply elem_of_map_to_list. }
  split; [done|]. apply not_true_iff_false. intros Ht. apply overlaps_sym in Ht. congruence.
Qed.

Record sys_ok (s : system) : Prop := {
  ok_ids k e : r_entries (rs_registry s) !! k = Some e → (e_lease e < rs_next s)%nat;
  ok_disjoint k1 k2 e1 e2 : r_entries (rs_registry s) !! k1 = Some e1 → r_entries (rs_registry s) !! k2 = Some e2 →
    overlaps k1 k2 = true → k1 = k2;
  ok_open id l : rs_open s !! id = Some l → l_id l = id ∧
    r_entries (rs_registry s) !! l_Actual l = Some (mkEntry (l_owner l) (l_generation l) (l_id l));
  ok_flights t l ph : rs_flights s !! t = Some (l, ph) → (l_id l < rs_next s)%nat ∧
    (ph = Closed → rs_open s !! l_id l = None)
}.

Lemma initial_ok : sys_ok initial_system.
Proof. split; intros *; cbn; rewrite ?lookup_empty; done. Qed.

(** What a successful acquisition did. *)
Lemma Acquire_inv (r r' : PortRegistry) (owner protocol : string) (key : TupleKey) (listen : option Z) (id : nat) (l : Lease) :
  acquireLocked r owner key protocol listen id = (r', Ok l) →
  overlapsLocked r (l_Actual l) = false ∧ l_id l = id ∧ l_owner l = owner ∧
  r_entries r' = <[l_Actual l := mkEntry (l_owner l) (l_generation l) (l_id l)]> (r_entries r).
Proof.
  unfold acquireLocked. intros Ha. destruct (validateAcquireLocked _ _ _ _); [|done].
  destruct listen as [port|]; [|done]. destruct (overlapsLocked _ _) eqn:E; [done|]. by injection Ha as <- <-.
Qed.

Lemma Acquire_err (r r' : PortRegistry) (owner protocol : string) (key : TupleKey) (listen : option Z) (id : nat) (e : RegistryError) :
  acquireLocked r owner key protocol listen id = (r', Err e) → r' = r.
Proof.
  unfold acquireLocked. intros Ha. destruct (validateAcquireLocked _ _ _ _); [|by injection Ha as <-].
  destruct listen as [port|]; [|by injection Ha as <-]. destruct (overlapsLocked _ _); by injection Ha as <-.
Qed.

Lemma overlapsLocked_absent (r : PortRegistry) (c : TupleKey) : overlapsLocked r c = false → r_entries r !! c = None.
Proof.
  intros Hf. destruct (r_entries r !! c) as [e|] eqn:E; [|done].
  destruct (overlapsLocked_false r c Hf c e E) as [Ho _]. by rewrite overlaps_refl in Ho.
Qed.

Lemma entry_matches_iff (r : PortRegistry) (l : Lease) :
  entry_matches r l = true ↔ r_entries r !! l_Actual l = Some (mkEntry (l_owner l) (l_generation l) (l_id l)).
Proof.
  unfold entry_matches. destruct (r_entries r !! l_Actual l) as [[o g i]|]; [|done]. cbn. split.
  - intros Hm. bool_prop. by subst.
  - intros [= -> -> ->]. by rewrite String.eqb_refl, Z.eqb_refl, bool_decide_eq_true_2.
Qed.

Lemma sys_step_acquire (s : system) (owner protocol : string) (key : TupleKey) (listen : option Z) :
  sys_ok s → sys_ok (publish s (acquireLocked (rs_registry s) owner key protocol listen (rs_next s))).
Proof.
  intros [H1 H2 H3 H4]. unfold publish. destruct (acquireLocked _ _ _ _ _ _) as [r' [l|e]] eqn:Ha.
  2: { apply Acquire_err in Ha as ->. by split. }
  apply Acquire_inv in Ha as (Hno&Hid&_&He).
  pose proof (overlapsLocked_absent _ _ Hno) as Habs. pose proof (overlapsLocked_false _ _ Hno) as Hdis.
  split; cbn [rs_registry rs_open rs_flights rs_next]; rewrite ?He.
  - intros k e. rewrite lookup_insert_Some. intros [[_ <-]|[_ Hk]]; [cbn; lia|]. specialize (H1 k e Hk). lia.
  - intros k1 k2 e1 e2. rewrite !lookup_insert_Some. intros [[<- _]|[_ K1]] [[<- _]|[_ K2]] Ho; try done.
    + destruct (Hdis k2 e2 K2). congruence.
    + destruct (Hdis k1 e1 K1). congruence.
    + by apply (H2 k1 k2 e1 e2).
  - intros id l'. rewrite lookup_insert_Some. intros [[<- <-]|[Hne Hl]].
    + split; [done|]. by rewrite lookup_insert_eq.
    + destruct (H3 id l' Hl) as [Hi Hk]. split; [done|]. rewrite lookup_insert_ne; [done|]. intros He'. rewrite He' in Habs. congruence.
  - intros t l' ph Hf. destruct (H4 t l' ph Hf) as [Hlt Hcl]. split; [lia|]. intros Hp.
    rewrite lookup_insert_ne by lia. by apply Hcl.
Qed.

Lemma sys_step_ok (s : system) (st : registry_step) : sys_ok s → sys_ok (sys_step s st).
Proof.
  intros Hok. destruct st as [owner key listen|owner key listen|t l|t o|t];
    [by apply (sys_step_acquire s owner "tcp")|by apply (sys_step_acquire s owner "udp")|..].
  all: pose proof Hok as [H1 H2 H3 H4]; cbn [sys_step].
  - destruct (entry_matches _ l) eqn:Em; [|done]. cbn [andb]. case_bool_decide; [|done].
    apply entry_matches_iff in Em. split; cbn [rs_registry rs_open rs_flights rs_next]; try done.
    intros t' l' ph. rewrite lookup_insert_Some. intros [[<- [= <- <-]]|[_ Hf]]; [|by apply (H4 t')].
    split; [|done]. by apply (H1 _ _ Em).
  - destruct (rs_flights s !! t) as [[l ph]|] eqn:Ef; [|done]. destruct ph; [|done].
    assert (Hcase : sys_ok (mkSystem (rs_registry s) (delete (l_id l) (rs_open s)) (<[t := (l, Closed)]> (rs_flights s)) (rs_next s))).
    { split; cbn [rs_registry rs_open rs_flights rs_next]; try done.
      - intros id l'. rewrite lookup_delete_Some. intros [_ Hl]. by apply H3.
      - intros t' l' ph. rewrite lookup_insert_Some. intros [[<- [= <- <-]]|[_ Hf]].
        + destruct (H4 t l Checked Ef) as [Hlt _]. split; [done|]. intros _. by rewrite lookup_delete_eq.
        + destruct (H4 t' l' ph Hf) as [Hlt Hcl]. split; [done|]. intros Hp. rewrite lookup_delete_None. right. by apply Hcl. }
    destruct o; try done. split; cbn [rs_registry rs_open rs_flights rs_next]; try done.
    intros t' l' ph. rewrite lookup_delete_Some. intros [_ Hf]. by apply (H4 t').
  - destruct (rs_flights s !! t) as [[l ph]|] eqn:Ef; [|done]. destruct ph; [done|].
    destruct (H4 t l Closed Ef) as [Hlt Hcl]. specialize (Hcl eq_refl). unfold release_finish.
    destruct (entry_matches (rs_registry s) l) eqn:Em; cbn [fst].
    + apply entry_matches_iff in Em. split; cbn [rs_registry r_entries rs_open rs_flights rs_next].
      * intros k e. rewrite lookup_delete_Some. intros [_ Hk]. by apply (H1 k e).
      * intros k1 k2 e1 e2. rewrite !lookup_delete_Some. intros [_ K1] [_ K2]. by apply (H2 k1 k2 e1 e2).
      * intros id l' Hl. destruct (H3 id l' Hl) as [Hi Hk]. split; [done|]. rewrite lookup_delete_ne; [done|].
        intros He. rewrite He in Em. rewrite Em in Hk. injection Hk as _ _ Hid. congruence.
      * intros t' l' ph. rewrite lookup_delete_Some. intros [_ Hf]. by apply (H4 t').
    + split; cbn [rs_registry rs_open rs_flights rs_next]; try done.
      intros t' l' ph. rewrite lookup_delete_Some. intros [_ Hf]. by apply (H4 t').
Qed.

Lemma sys_run_ok (sts : list registry_step) (s : system) : sys_ok s → sys_ok (sys_run s sts).
Proof. revert s; induction sts as [|st sts IH]; intros s Hs; [done|]. by apply IH, sys_step_ok. Qed.

(** ** Properties *)

(** C16: exclusive ownership under every interleaving.  Whatever acquisitions
    and (possibly concurrent, repeated or failing) releases have run, no two
    registered tuples overlap, every open socket is registered under its own
    tuple with its owner and generation, and two different open sockets never
    overlap. *)
Theorem registry_exclusive (sts : list registry_step) :
  let s := sys_run initial_system sts in
  (∀ k1 k2 e1 e2, r_entries (rs_registry s) !! k1 = Some e1 → r_entries (rs_registry s) !! k2 = Some e2 →
     k1 ≠ k2 → overlaps k1 k2 = false) ∧
  (∀ id l, rs_open s !! id = Some l →
     r_entries (rs_registry s) !! l_Actual l = Some (mkEntry (l_owner l) (l_generation l) id)) ∧
  (∀ i j l1 l2, rs_open s !! i = Some l1 → rs_open s !! j = Some l2 → i ≠ j →
     overlaps (l_Actual l1) (l_Actual l2) = false).
Proof.
  intros s. destruct (sys_run_ok sts _ initial_ok) as [_ H2 H3 _]. fold s in H2, H3. split_and!.
  - intros k1 k2 e1 e2 K1 K2 Hne. apply not_true_iff_false. intros Ho. by apply Hne, (H2 k1 k2 e1 e2).
  - intros id l Hl. destruct (H3 id l Hl) as [<- Hk]. done.
  - intros i j l1 l2 L1 L2 Hij. destruct (H3 i l1 L1) as [<- K1], (H3 j l2 L2) as [<- K2].
    apply not_true_iff_false. intros Ho. pose proof (H2 _ _ _ _ K1 K2 Ho) as He. rewrite He, K2 in K1. congruence.
Qed.

Lemma publish_entries (s : system) (owner protocol : string) (key : TupleKey) (listen : option Z) (k : TupleKey) (e : leaseEntry) :
  r_entries (rs_registry s) !! k = Some e →
  r_entries (rs_registry (publish s (acquireLocked (rs_registry s) owner key protocol listen (rs_next s)))) !! k = Some e.
Proof.
  intros Hk. unfold publish. destruct (acquireLocked _ _ _ _ _ _) as [r' [l|e']] eqn:Ha; cbn [rs_registry].
  - apply Acquire_inv in Ha as (Hno&_&_&He). apply overlapsLocked_absent in Hno. rewrite He.
    rewrite lookup_insert_ne; congruence.
  - by apply Acquire_err in Ha as ->.
Qed.

Lemma publish_open (s : system) (o : PortRegistry * result RegistryError Lease) (id : nat) :
  rs_open (publish s o) !! id = None → rs_open s !! id = None.
Proof.
  destruct o as [r' [l|e]]; cbn; [|done]. rewrite lookup_insert_None. by intros [? _].
Qed.

(** A stale release is harmless.  No step replaces a registered entry; the
    only step that removes one is the end of a release whose own lease is still
    registered there, after that release closed its socket; and the only step that
    closes a socket is the release of the lease that owns it. *)
Theorem release_touches_own_lease (s : system) (st : registry_step) :
  (∀ k e, r_entries (rs_registry s) !! k = Some e → r_entries (rs_registry (sys_step s st)) !! k ≠ Some e →
     ∃ t l, st = SReleaseFinish t ∧ rs_flights s !! t = Some (l, Closed) ∧ l_Actual l = k ∧
       e = mkEntry (l_owner l) (l_generation l) (l_id l)) ∧
  (∀ id l, rs_open s !! id = Some l → rs_open (sys_step s st) !! id = None →
     ∃ t o l', st = SReleaseClose t o ∧ rs_flights s !! t = Some (l', Checked) ∧ l_id l' = id).
Proof.
  split.
  - intros k e Hk Hne. destruct st as [owner key listen|owner key listen|t l|t o|t]; cbn [sys_step] in Hne.
    + exfalso. by apply Hne, (publish_entries s owner "tcp" key listen k e).
    + exfalso. by apply Hne, (publish_entries s owner "udp" key listen k e).
    + exfalso. destruct (_ && _); done.
    + exfalso. destruct (rs_flights s !! t) as [[l ph]|]; [|done]. destruct ph; [destruct o|]; done.
    + destruct (rs_flights s !! t) as [[l ph]|] eqn:Ef; [|done]. destruct ph; [done|]. cbn in Hne.
      unfold release_finish in Hne. destruct (entry_matches _ l) eqn:Em; [|done]. apply entry_matches_iff in Em. cbn in Hne.
      exists t, l. destruct (decide (l_Actual l = k)) as [<-|Hk']; [|by rewrite lookup_delete_ne in Hne].
      rewrite Hk in Em. injection Em as ->. done.
  - intros id l Hl Hn. destruct st as [owner key listen|owner key listen|t l'|t o|t]; cbn [sys_step] in Hn.
    + exfalso. apply publish_open in Hn. congruence.
    + exfalso. apply publish_open in Hn. congruence.
    + exfalso. destruct (_ && _); cbn in Hn; congruence.
    + destruct (rs_flights s !! t) as [[l' ph]|] eqn:Ef; [|congruence]. destruct ph; [|congruence].
      exists t, o, l'. split; [done|]. split; [done|]. destruct o; cbn in Hn; try congruence;
        rewrite lookup_delete_None in Hn; destruct Hn; congruence.
    + exfalso. destruct (rs_flights s !! t) as [[l' ph]|]; [destruct ph|]; cbn in Hn; congruence.
Qed.

(** The life of a lease.  An acquisition (TCP or UDP) succeeds exactly when the owner is named,
    the tuple is IPv4 of the right protocol, listening succeeded and neither the
    requested nor the bound tuple overlaps; releasing the lease restores the
    registered tuples; a second release is stale and changes nothing; and a failed
    close keeps the entry. *)
Theorem lease_lifecycle (r : PortRegistry) (owner protocol : string) (key : TupleKey) (listen : option Z) (id : nat) :
  (is_ok (acquireLocked r owner key protocol listen id).2 = true ↔
     owner ≠ "" ∧ k_Family key = "ipv4" ∧ k_Protocol key = protocol ∧
     (k_Port key = 0 ∨ overlapsLocked r (normalize key) = false) ∧
     ∃ port, listen = Some port ∧
       overlapsLocked r (mkKey "ipv4" protocol (k_Address (normalize key)) (port mod 2 ^ 16)) = false) ∧
  (∀ r' l, acquireLocked r owner key protocol listen id = (r', Ok l) →
     ∃ r'', release r' l CloseOk = (r'', Ok tt) ∧ r_entries r'' = r_entries r ∧
       (∀ c, release r'' l c = (r'', Err ErrStaleLease)) ∧ release r' l CloseFailed = (r', Err ErrClose)).
Proof.
  assert (Hnorm : k_Family (normalize key) = k_Family key ∧ k_Protocol (normalize key) = k_Protocol key)
    by (unfold normalize; by destruct (_ || _)).
  destruct Hnorm as [Nf Np]. split.
  - unfold acquireLocked, validateAcquireLocked.
    destruct (String.eqb_spec owner "") as [->|Ho]; [naive_solver|].
    destruct (String.eqb_spec (k_Family key) "ipv4") as [Hf|Hf]; [|naive_solver].
    destruct (String.eqb_spec (k_Protocol key) protocol) as [Hp|Hp]; [|naive_solver]. cbn [negb orb].
    rewrite Nf, Np, Hf, Hp.
    destruct (Z.eqb_spec (k_Port key) 0) as [H0|H0]; cbn [negb andb];
      [|destruct (overlapsLocked r (normalize key)); [naive_solver|]];
      (destruct listen as [port|]; [|naive_solver]; cbv zeta;
       destruct (overlapsLocked r _) eqn:E; cbn [snd is_ok]; split; [done|naive_solver|naive_solver|done]).
  - intros r' l Ha. apply Acquire_inv in Ha as (Hno&_&_&He). apply overlapsLocked_absent in Hno.
    assert (Hm : entry_matches r' l = true) by (apply entry_matches_iff; by rewrite He, lookup_insert_eq).
    exists (mkRegistry (delete (l_Actual l) (r_entries r')) (r_generation r')).
    unfold release, release_finish. rewrite Hm. cbn [r_entries].
    split_and!; try done.
    + rewrite He. by rewrite delete_insert_id.
    + intros c. unfold entry_matches. cbn [r_entries]. by rewrite lookup_delete_eq.
Qed.

(** ** A concrete registry *)

Definition sample_key_any : TupleKey := mkKey "ipv4" "tcp" "" 8080.
Definition sample_key_one : TupleKey := mkKey "ipv4" "tcp" "10.0.0.5" 8080.

(** A wildcard lease blocks a specific address on the same port. *)
Example wildcard_blocks_specific :
  (Acquire (Acquire NewPortRegistry "fwd-a" sample_key_any (Some 8080) 0).1 "fwd-b" sample_key_one (Some 8080) 1).2
  = Err ErrTupleOverlap.
Proof. vm_compute. reflexivity. Qed.
