(* ===== verification/Budget.v ===== *)
(** * The per-Forward resource budget ([src/internal/forward/budget.go])

    Connections, file descriptors and the pessimistic buffer reservation, as
    64-bit machine integers.  [Reserve] and [Release] run under the budget's
    mutex.  The abstract counterpart is a bounded counter of live sessions. *)

From Stdlib Require Import ZArith Lia.
From stdpp Require Import base tactics list option.
From S2P Require Import Prelude.

Open Scope Z_scope.

Definition PessimisticBufferBytesPerConnection : Z := 2 * 32 * 1024.

Inductive LimitKind : Type := LimitConnections | LimitFDs | LimitPessimisticBuffer.

Inductive BudgetError : Type :=
  | ENegativeLimit
  | BudgetExceeded (kind : LimitKind) (limit current : Z).

Record Limits : Type := mkLimits { MaxConnections : Z; MaxFDs : Z; MaxPessimisticBufferBytes : Z }.

Record Budget : Type := mkBudget { b_limits : Limits; b_connections : Z; b_fds : Z; b_bufferBytes : Z }.

Definition NewBudget (l : Limits) : result BudgetError Budget :=
  fail_if (MaxConnections l <? 0) || (MaxFDs l <? 0) || (MaxPessimisticBufferBytes l <? 0) with ENegativeLimit ;;
  Ok (mkBudget l 0 0 0).

Definition Reserve (b : Budget) : Budget * result BudgetError unit :=
  let l := b_limits b in
  if (0 <? MaxConnections l) && (MaxConnections l <=? b_connections b)
  then (b, Err (BudgetExceeded LimitConnections (MaxConnections l) (b_connections b)))
  else if (0 <? MaxFDs l) && (MaxFDs l <=? b_fds b)
  then (b, Err (BudgetExceeded LimitFDs (MaxFDs l) (b_fds b)))
  else if (0 <? MaxPessimisticBufferBytes l)
          && (MaxPessimisticBufferBytes l <? wrap_i64 (b_bufferBytes b + PessimisticBufferBytesPerConnection))
  then (b, Err (BudgetExceeded LimitPessimisticBuffer (MaxPessimisticBufferBytes l) (b_bufferBytes b)))
  else (mkBudget l (wrap_i64 (b_connections b + 1)) (wrap_i64 (b_fds b + 1))
          (wrap_i64 (b_bufferBytes b + PessimisticBufferBytesPerConnection)), Ok tt).

Definition Release (b : Budget) : Budget :=
  let c := if 0 <? b_connections b then wrap_i64 (b_connections b - 1) else b_connections b in
  let f := if 0 <? b_fds b then wrap_i64 (b_fds b - 1) else b_fds b in
  let n := wrap_i64 (b_bufferBytes b - PessimisticBufferBytesPerConnection) in
  mkBudget (b_limits b) c f (if n <? 0 then 0 else n).

(** [Snapshot] *)
Definition BudgetSnapshot (b : Budget) : Z * Z * Z := (b_connections b, b_fds b, b_bufferBytes b).

(** ** Specification: a bounded counter of live sessions *)

(** Room for one more session on every limited axis. *)
Definition has_room (l : Limits) (n : Z) : bool :=
  ((MaxConnections l =? 0) || (n + 1 <=? MaxConnections l))
  && ((MaxFDs l =? 0) || (n + 1 <=? MaxFDs l))
  && ((MaxPessimisticBufferBytes l =? 0)
      || ((n + 1) * PessimisticBufferBytesPerConnection <=? MaxPessimisticBufferBytes l)).

Inductive budget_op : Type := OpReserve | OpRelease.

Definition count_step (l : Limits) (n : Z) (op : budget_op) : Z :=
  match op with
  | OpReserve => if has_room l n then n + 1 else n
  | OpRelease => n - 1
  end.

Definition budget_step (b : Budget) (op : budget_op) : Budget :=
  match op with OpReserve => (Reserve b).1 | OpRelease => Release b end.

(** Every release is paired with an earlier successful reservation. *)
Fixpoint paired (l : Limits) (n : Z) (ops : list budget_op) : Prop :=
  match ops with
  | [] => True
  | op :: ops' => (op = OpRelease → 0 < n) ∧ paired l (count_step l n op) ops'
  end.

(** The budget represents [n] live sessions. *)
Definition represents (l : Limits) (b : Budget) (n : Z) : Prop :=
  b_limits b = l ∧ b_connections b = n ∧ b_fds b = n ∧ b_bufferBytes b = n * PessimisticBufferBytesPerConnection ∧
  0 ≤ n.

(** Fewer sessions than this, and no counter can overflow. *)
Definition session_bound : Z := 2 ^ 46.

Definition limits_ok (l : Limits) : Prop :=
  0 ≤ MaxConnections l ∧ 0 ≤ MaxFDs l ∧ 0 ≤ MaxPessimisticBufferBytes l.

(** ** Lemmas *)

Lemma Reserve_refines (l : Limits) (b : Budget) (n : Z) :
  limits_ok l → represents l b n → n < session_bound →
  represents l (Reserve b).1 (count_step l n OpReserve) ∧
  ((Reserve b).2 = Ok tt ↔ has_room l n = true) ∧
  (has_room l n = false → (Reserve b).1 = b).
Proof.
  intros (L1&L2&L3) (Hl&Hc&Hf&Hb&Hn) Hbd. unfold session_bound in Hbd.
  unfold Reserve, count_step, has_room, PessimisticBufferBytesPerConnection in *. cbv zeta. rewrite Hl, Hc, Hf, Hb.
  rewrite !wrap_i64_small by (unfold in_i64; lia).
  assert (Hm : (0 <? MaxConnections l) && (MaxConnections l <=? n) = negb ((MaxConnections l =? 0) || (n + 1 <=? MaxConnections l))) by lia.
  assert (Hm2 : (0 <? MaxFDs l) && (MaxFDs l <=? n) = negb ((MaxFDs l =? 0) || (n + 1 <=? MaxFDs l))) by lia.
  assert (Hm3 : (0 <? MaxPessimisticBufferBytes l) && (MaxPessimisticBufferBytes l <? n * (2 * 32 * 1024) + 2 * 32 * 1024)
    = negb ((MaxPessimisticBufferBytes l =? 0) || ((n + 1) * (2 * 32 * 1024) <=? MaxPessimisticBufferBytes l))) by lia.
  rewrite Hm, Hm2, Hm3.
  destruct ((MaxConnections l =? 0) || _); cbn [negb andb]; [|done].
  destruct ((MaxFDs l =? 0) || _); cbn [negb andb]; [|done].
  destruct ((MaxPessimisticBufferBytes l =? 0) || _); cbn [negb]; [|done].
  cbn [fst snd]. split; [|done]. unfold represents, PessimisticBufferBytesPerConnection. cbn. split_and!; (done || lia).
Qed.

Lemma Release_refines (l : Limits) (b : Budget) (n : Z) :
  represents l b n → 0 < n ≤ session_bound → represents l (Release b) (n - 1).
Proof.
  intros (Hl&Hc&Hf&Hb&Hn) Hbd. unfold session_bound in Hbd. unfold represents, Release, PessimisticBufferBytesPerConnection in *.
  cbv zeta. rewrite Hl, Hc, Hf, Hb. rewrite !wrap_i64_small by (unfold in_i64; lia).
  rewrite (proj2 (Z.ltb_lt 0 n)) by lia. cbn [b_limits b_connections b_fds b_bufferBytes].
  rewrite (proj2 (Z.ltb_ge _ 0)) by lia. split_and!; (done || lia).
Qed.

Lemma budget_run (ops : list budget_op) (l : Limits) (b : Budget) (n : Z) :
  limits_ok l → represents l b n → paired l n ops → n + Z.of_nat (length ops) ≤ session_bound →
  represents l (fold_left budget_step ops b) (fold_left (count_step l) ops n).
Proof.
  intros Hl. revert b n; induction ops as [|op ops IH]; intros b n Hr Hp Hbd; [done|].
  cbn [fold_left paired length] in *. destruct Hp as [Hop Hp].
  assert (Hn : 0 ≤ n) by apply Hr. apply IH; [|done|].
  - destruct op; [apply Reserve_refines; (done || lia)|]. apply Release_refines; [done|]. specialize (Hop eq_refl). lia.
  - destruct op; unfold count_step; [destruct (has_room l n)|]; lia.
Qed.

Lemma count_within (ops : list budget_op) (l : Limits) (n : Z) :
  limits_ok l → 0 ≤ n →
  (0 < MaxConnections l → n ≤ MaxConnections l) → (0 < MaxFDs l → n ≤ MaxFDs l) →
  (0 < MaxPessimisticBufferBytes l → n * PessimisticBufferBytesPerConnection ≤ MaxPessimisticBufferBytes l) →
  paired l n ops →
  let m := fold_left (count_step l) ops n in
  (0 < MaxConnections l → m ≤ MaxConnections l) ∧ (0 < MaxFDs l → m ≤ MaxFDs l) ∧
  (0 < MaxPessimisticBufferBytes l → m * PessimisticBufferBytesPerConnection ≤ MaxPessimisticBufferBytes l).
Proof.
  intros Hl. revert n; induction ops as [|op ops IH]; intros n Hn H1 H2 H3 Hp; [done|].
  cbn [fold_left paired] in *. destruct Hp as [Hop Hp]. unfold limits_ok, PessimisticBufferBytesPerConnection in *.
  assert (Hc : count_step l n op = n ∨ count_step l n op = n - 1 ∧ 0 < n ∨
    count_step l n op = n + 1 ∧ has_room l n = true).
  { unfold count_step. destruct op; [destruct (has_room l n); auto|]. right. left. auto. }
  apply IH; try done.
  all: destruct Hc as [->|[[-> ?]|[-> Hr]]]; try lia; unfold has_room, PessimisticBufferBytesPerConnection in Hr; lia.
Qed.

(** ** Properties *)

(** The budget refines a bounded counter of live sessions.  For limits
    that are not negative and fewer than 2^46 sessions, over every sequence of
    reservations and paired releases: the three counters are exactly the number
    of live sessions (times 64 KiB for the buffer), no limited axis is ever
    exceeded, and the next reservation succeeds exactly when every limited axis
    has room, changing nothing otherwise. *)
Theorem budget_refines_counter (l : Limits) (ops : list budget_op) :
  limits_ok l → paired l 0 ops → Z.of_nat (length ops) < session_bound →
  let b := fold_left budget_step ops (mkBudget l 0 0 0) in
  let n := fold_left (count_step l) ops 0 in
  NewBudget l = Ok (mkBudget l 0 0 0) ∧ represents l b n ∧
  (0 < MaxConnections l → b_connections b ≤ MaxConnections l) ∧ (0 < MaxFDs l → b_fds b ≤ MaxFDs l) ∧
  (0 < MaxPessimisticBufferBytes l → b_bufferBytes b ≤ MaxPessimisticBufferBytes l) ∧
  ((Reserve b).2 = Ok tt ↔ has_room l n = true) ∧ (has_room l n = false → (Reserve b).1 = b).
Proof.
  intros Hl Hp Hlen b n. pose proof Hl as (?&?&?).
  assert (Hz : represents l (mkBudget l 0 0 0) 0) by done.
  pose proof (budget_run ops l _ 0 Hl Hz Hp ltac:(lia)) as Hr. fold b n in Hr.
  destruct (count_within ops l 0 Hl ltac:(lia) ltac:(lia) ltac:(lia) ltac:(unfold PessimisticBufferBytesPerConnection; lia) Hp) as (B1&B2&B3).
  fold n in B1, B2, B3.
  assert (Hn : n ≤ Z.of_nat (length ops)).
  { assert (Hgo : ∀ ops m, fold_left (count_step l) ops m ≤ m + Z.of_nat (length ops)).
    { clear. induction ops as [|op ops IH]; intros m; cbn [fold_left length]; [lia|].
      specialize (IH (count_step l m op)). assert (count_step l m op ≤ m + 1); [|lia].
      unfold count_step. destruct op; [destruct (has_room l m)|]; lia. }
    specialize (Hgo ops 0). fold n in Hgo. lia. }
  destruct (Reserve_refines l b n Hl Hr ltac:(lia)) as (_&R2&R3).
  pose proof Hr as (_&Hc&Hf&Hb&_). rewrite Hc, Hf, Hb. split_and!; try done.
  unfold NewBudget. rewrite !(proj2 (Z.ltb_ge _ 0)) by lia. done.
Qed.

Lemma budget_refines_counter_witness :
  represents (mkLimits 2 0 0) (fold_left budget_step [OpReserve; OpReserve; OpReserve; OpRelease] (mkBudget (mkLimits 2 0 0) 0 0 0)) 1.
Proof.
  refine (proj1 (proj2 (budget_refines_counter (mkLimits 2 0 0) [OpReserve; OpReserve; OpReserve; OpRelease] _ _ _))).
  - unfold limits_ok. cbn. lia.
  - cbn. repeat split; try discriminate; lia.
  - vm_compute. reflexivity.
Defined.
