(* ===== verification/Activation.v ===== *)
(** * The activation state machine
    ([src/internal/agent/reconcile/activation.go],
    [src/internal/agent/reconcile/state_machine.go])

    One Forward activation: identity, generation and the nine orthogonal axes.
    Every method runs under the activation's mutex, so an execution of
    concurrent callers is a sequence of [act_op] steps.  [ResetForGeneration]
    takes the lock twice (it first reads the activation identity), so its
    second half is the step [OpResetWithID] with the identity read before. *)

From Stdlib Require Import ZArith Lia.
From stdpp Require Import base tactics list sets strings option gmap.
From S2P Require Import Prelude Domain.

Open Scope string_scope.
Open Scope Z_scope.

Inductive ActivationError : Type :=
  | ErrStaleEvent | ErrIllegalState | EInvalid (e : DomainError).

Record Activation : Type := mkActivation {
  act_forwardID : string;
  act_activation : string;
  act_generation : Z;
  act_states : ActivationStates
}.

Record ProbeAdmission : Type := mkAdmission {
  adm_ForwardID : string;
  adm_Activation : string;
  adm_Generation : Z;
  adm_Before : ActivationStates;
  adm_After : ActivationStates
}.

Definition initial_states : ActivationStates :=
  mkActivationStates "OFFLINE" "STOPPED" "NOT_REQUIRED" "NOT_REQUIRED" "NOT_TESTED" "NOT_TESTED" "UNKNOWN"
    "NONE" "STOPPED".

Definition NewActivation (forwardID activationID : string) (generation : Z) : Activation :=
  mkActivation forwardID activationID generation initial_states.

(** ** Field updates of a snapshot *)

Definition set_wan (v : string) (s : ActivationStates) : ActivationStates :=
  mkActivationStates (as_ControlState s) (as_ListenerState s) (as_MappingState s) (as_KeepaliveState s) v
    (as_ReturnPathState s) (as_TargetHealthState s) (as_PublicationState s) (as_DataPlaneState s).
Definition set_return (v : string) (s : ActivationStates) : ActivationStates :=
  mkActivationStates (as_ControlState s) (as_ListenerState s) (as_MappingState s) (as_KeepaliveState s)
    (as_WanReachabilityState s) v (as_TargetHealthState s) (as_PublicationState s) (as_DataPlaneState s).
Definition set_publication (v : string) (s : ActivationStates) : ActivationStates :=
  mkActivationStates (as_ControlState s) (as_ListenerState s) (as_MappingState s) (as_KeepaliveState s)
    (as_WanReachabilityState s) (as_ReturnPathState s) (as_TargetHealthState s) v (as_DataPlaneState s).

(** The [switch axis] of [Update]. *)
Definition set_axis (axis v : string) (s : ActivationStates) : option ActivationStates :=
  let '(mkActivationStates c l m k w r t p d) := s in
  if String.eqb axis "control_state" then Some (mkActivationStates v l m k w r t p d)
  else if String.eqb axis "listener_state" then Some (mkActivationStates c v m k w r t p d)
  else if String.eqb axis "mapping_state" then Some (mkActivationStates c l v k w r t p d)
  else if String.eqb axis "keepalive_state" then Some (mkActivationStates c l m v w r t p d)
  else if String.eqb axis "wan_reachability_state" then Some (mkActivationStates c l m k v r t p d)
  else if String.eqb axis "return_path_state" then Some (mkActivationStates c l m k w v t p d)
  else if String.eqb axis "target_health_state" then Some (mkActivationStates c l m k w r v p d)
  else if String.eqb axis "publication_state" then Some (mkActivationStates c l m k w r t v d)
  else if String.eqb axis "data_plane_state" then Some (mkActivationStates c l m k w r t p v)
  else None.

Definition with_states (a : Activation) (s : ActivationStates) : Activation :=
  mkActivation (act_forwardID a) (act_activation a) (act_generation a) s.

(** [if err := next.Validate(); err != nil { return err }; a.states = next] *)
Definition commit {A} (a : Activation) (next : ActivationStates) (v : A) : Activation * result ActivationError A :=
  match ActivationStates_Validate next with
  | Err e => (a, Err (EInvalid e))
  | Ok _ => (with_states a next, Ok v)
  end.

(** ** Operations *)

Definition Set_ (a : Activation) (s : ActivationStates) : Activation * result ActivationError unit :=
  commit a s tt.

Definition probing (s : ActivationStates) : ActivationStates :=
  set_return "NOT_TESTED" (set_publication "UNPUBLISHED" (set_wan "PROBING" s)).

Definition StartProbeAdmission (a : Activation) (expectedActivation : string) (expectedGeneration : Z)
    : Activation * result ActivationError ProbeAdmission :=
  if String.eqb expectedActivation "" || (expectedGeneration =? 0)
     || negb (String.eqb (act_activation a) expectedActivation)
     || negb (act_generation a =? expectedGeneration)
  then (a, Err ErrStaleEvent)
  else
    let before := act_states a in
    let next := probing before in
    commit a next (mkAdmission (act_forwardID a) (act_activation a) (act_generation a) before next).

Definition RollbackProbeAdmission (a : Activation) (token : ProbeAdmission)
    : Activation * result ActivationError unit :=
  if negb (String.eqb (act_forwardID a) (adm_ForwardID token))
     || negb (String.eqb (act_activation a) (adm_Activation token))
     || negb (act_generation a =? adm_Generation token)
     || negb (bool_decide (act_states a = adm_After token))
  then (a, Err ErrStaleEvent)
  else commit a (adm_Before token) tt.

Definition Update (a : Activation) (axis value : string) (eventGeneration : Z)
    : Activation * result ActivationError unit :=
  if negb (eventGeneration =? act_generation a) then (a, Err ErrStaleEvent)
  else if negb (ValidAxisValue axis value) then (a, Err ErrIllegalState)
  else match set_axis axis value (act_states a) with
  | None => (a, Err ErrIllegalState)
  | Some next => commit a next tt
  end.

Definition AdvanceGeneration (a : Activation) (next : Z) : Activation :=
  if act_generation a <? next
  then mkActivation (act_forwardID a) (act_activation a) next (act_states a)
  else a.

Definition resetForGenerationLocked (a : Activation) (next : Z) (activationID : string) : Activation :=
  let s := act_states a in
  mkActivation (act_forwardID a) activationID next
    (mkActivationStates (as_ControlState s) (as_ListenerState s) "NOT_REQUIRED" "NOT_REQUIRED" "NOT_TESTED"
       "NOT_TESTED" "UNKNOWN" "NONE" "STOPPED").

Definition ResetForGenerationWithID (a : Activation) (next : Z) (activationID : string) : Activation :=
  if next <=? act_generation a then a else resetForGenerationLocked a next activationID.

Definition ResetForGeneration (a : Activation) (next : Z) : Activation :=
  ResetForGenerationWithID a next (act_activation a).

Definition RestoreForGenerationWithID (a : Activation) (previous : Z) (activationID : string) : Activation :=
  if (previous =? act_generation a) && String.eqb activationID (act_activation a) then a
  else resetForGenerationLocked a previous activationID.

Definition EvidenceLost (a : Activation) : Activation * result ActivationError unit :=
  commit a (set_return "NOT_TESTED" (set_wan "NOT_TESTED" (set_publication "STALE" (act_states a)))) tt.

Definition RecoverAfterRestart (a : Activation) : Activation * result ActivationError unit :=
  let next := set_return "NOT_TESTED" (set_wan "NOT_TESTED" (act_states a)) in
  let next := if String.eqb (as_PublicationState next) "PUBLISHED_VERIFIED"
              then set_publication "PUBLISHED_UNVERIFIED" next else next in
  commit a next tt.

Definition StartProbe (a : Activation) (eventGeneration : Z) : Activation * result ActivationError unit :=
  if negb (eventGeneration =? act_generation a) then (a, Err ErrStaleEvent)
  else commit a (probing (act_states a)) tt.

Definition outcome_states (outcome : string) (s : ActivationStates) : ActivationStates :=
  let next := set_wan outcome s in
  if String.eqb outcome OutcomeOpenFromVantage
  then set_publication "PUBLISHED_VERIFIED" (set_return "VERIFIED" next)
  else set_publication "UNPUBLISHED" (set_return "FAILED" next).

Definition RecordProbeOutcome (a : Activation) (outcome : string) (eventGeneration : Z)
    : Activation * result ActivationError unit :=
  if negb (eventGeneration =? act_generation a) then (a, Err ErrStaleEvent)
  else commit a (outcome_states outcome (act_states a)) tt.

Definition IdentitySnapshot (a : Activation) : string * string * Z * ActivationStates :=
  (act_forwardID a, act_activation a, act_generation a, act_states a).

(** ** Executions *)

Inductive act_op : Type :=
  | OpSet (s : ActivationStates)
  | OpAdmit (expectedActivation : string) (expectedGeneration : Z)
  | OpRollback (token : ProbeAdmission)
  | OpUpdate (axis value : string) (gen : Z)
  | OpAdvance (next : Z)
  | OpResetWithID (next : Z) (id : string)
  | OpRestore (previous : Z) (id : string)
  | OpEvidenceLost
  | OpRecover
  | OpStartProbe (gen : Z)
  | OpOutcome (outcome : string) (gen : Z).

Definition discard {A} (r : Activation * result ActivationError A) : Activation * result ActivationError unit :=
  (r.1, match r.2 with Ok _ => Ok tt | Err e => Err e end).

Definition act_step (a : Activation) (op : act_op) : Activation * result ActivationError unit :=
  match op with
  | OpSet s => Set_ a s
  | OpAdmit id gen => discard (StartProbeAdmission a id gen)
  | OpRollback token => RollbackProbeAdmission a token
  | OpUpdate ax v gen => Update a ax v gen
  | OpAdvance next => (AdvanceGeneration a next, Ok tt)
  | OpResetWithID next id => (ResetForGenerationWithID a next id, Ok tt)
  | OpRestore prev id => (RestoreForGenerationWithID a prev id, Ok tt)
  | OpEvidenceLost => EvidenceLost a
  | OpRecover => RecoverAfterRestart a
  | OpStartProbe gen => StartProbe a gen
  | OpOutcome o gen => RecordProbeOutcome a o gen
  end.

Definition act_run (a : Activation) (ops : list act_op) : Activation := fold_left (λ a op, (act_step a op).1) ops a.

Definition valid (a : Activation) : Prop := ActivationStates_Validate (act_states a) = Ok tt.

(** The generation an event carries, when it carries one. *)
Definition op_generation (op : act_op) : option Z :=
  match op with
  | OpAdmit _ g | OpUpdate _ _ g | OpStartProbe g | OpOutcome _ g => Some g
  | OpRollback t => Some (adm_Generation t)
  | _ => None
  end.

(** ** Lemmas *)

Lemma commit_cases {A} (a : Activation) (next : ActivationStates) (v : A) :
  (ActivationStates_Validate next = Ok tt ∧ commit a next v = (with_states a next, Ok v)) ∨
  (∃ e, ActivationStates_Validate next = Err e ∧ commit a next v = (a, Err (EInvalid e))).
Proof. unfold commit. destruct (ActivationStates_Validate next) as [[]|e]; [by left|right; by exists e]. Qed.

Lemma valid_initial (f i : string) (g : Z) : valid (NewActivation f i g).
Proof. vm_compute. reflexivity. Qed.

Lemma reset_valid (a : Activation) (n : Z) (id : string) : valid a → valid (resetForGenerationLocked a n id).
Proof.
  unfold valid. rewrite !ActivationStates_valid_iff. intros [(H1&H2&_) _]. unfold axes_legal, truth_relations.
  cbn. split_and!; try done; naive_solver.
Qed.

#[local] Opaque ActivationStates_Validate.

Ltac commits :=
  repeat match goal with
  | |- context [commit ?a ?n ?v] =>
      let Hv := fresh "Hv" in let E := fresh "E" in
      destruct (commit_cases a n v) as [[Hv E]|(?&Hv&E)]; rewrite E; cbn [fst snd with_states act_states]
  end.

Ltac op_cases :=
  unfold act_step, discard, Set_, StartProbeAdmission, RollbackProbeAdmission, Update, AdvanceGeneration,
    ResetForGenerationWithID, RestoreForGenerationWithID, EvidenceLost, RecoverAfterRestart, StartProbe,
    RecordProbeOutcome;
  repeat match goal with
  | |- context [if ?b then _ else _] =>
      lazymatch type of b with bool => let E := fresh "G" in destruct b eqn:E end
  | |- context [match set_axis ?x ?v ?s with _ => _ end] => let E := fresh "X" in destruct (set_axis x v s) eqn:E
  end; cbn [fst snd].

Lemma act_step_valid (a : Activation) (op : act_op) : valid a → valid (act_step a op).1.
Proof.
  intros Ha. destruct op; op_cases; commits; first [exact Ha|exact Hv|by apply reset_valid].
Qed.

Lemma act_run_valid (a : Activation) (ops : list act_op) : valid a → valid (act_run a ops).
Proof. revert a; induction ops as [|op ops IH]; intros a Ha; [done|]. by apply IH, act_step_valid. Qed.

(** A failing operation changes nothing. *)
Lemma act_step_error (a : Activation) (op : act_op) (e : ActivationError) :
  (act_step a op).2 = Err e → (act_step a op).1 = a.
Proof. destruct op; op_cases; commits; done. Qed.

Lemma act_step_stale (a : Activation) (op : act_op) (g : Z) :
  op_generation op = Some g → g ≠ act_generation a → act_step a op = (a, Err ErrStaleEvent).
Proof.
  intros Hg Hne. destruct op; cbn in Hg; simplify_eq; unfold act_step, discard, StartProbeAdmission,
    RollbackProbeAdmission, Update, StartProbe, RecordProbeOutcome.
  all: rewrite ?(proj2 (Z.eqb_neq (act_generation a) _)), ?(proj2 (Z.eqb_neq _ (act_generation a))) by done;
    cbn [negb]; rewrite ?orb_true_r, ?orb_true_l; try done.
Qed.

(** The operation writes OPEN_FROM_VANTAGE into the WAN axis. *)
Definition opens (op : act_op) : Prop :=
  match op with
  | OpSet s => as_WanReachabilityState s = "OPEN_FROM_VANTAGE"
  | OpRollback t => as_WanReachabilityState (adm_Before t) = "OPEN_FROM_VANTAGE"
  | OpUpdate ax v _ => ax = "wan_reachability_state" ∧ v = "OPEN_FROM_VANTAGE"
  | OpOutcome o _ => o = "OPEN_FROM_VANTAGE"
  | _ => False
  end.

Definition wan (a : Activation) : string := as_WanReachabilityState (act_states a).

Lemma set_axis_wan (ax v : string) (s t : ActivationStates) :
  set_axis ax v s = Some t →
  as_WanReachabilityState t = as_WanReachabilityState s ∨
  (ax = "wan_reachability_state" ∧ as_WanReachabilityState t = v).
Proof.
  destruct s. unfold set_axis. intros Hs.
  destruct (String.eqb_spec ax "wan_reachability_state") as [->|_].
  - cbn in Hs. injection Hs as <-. by right.
  - left. repeat (match type of Hs with (if ?b then _ else _) = _ => destruct b end; [by injection Hs as <-|]). done.
Qed.

Lemma outcome_states_wan (o : string) (s : ActivationStates) : as_WanReachabilityState (outcome_states o s) = o.
Proof. unfold outcome_states. by destruct (String.eqb o _). Qed.

(** Only those operations, accepted, bring the WAN axis to OPEN_FROM_VANTAGE. *)
Lemma act_step_opens (a : Activation) (op : act_op) :
  wan a ≠ "OPEN_FROM_VANTAGE" → wan (act_step a op).1 = "OPEN_FROM_VANTAGE" →
  opens op ∧ (act_step a op).2 = Ok tt.
Proof.
  unfold wan. intros Hne. destruct op; op_cases; commits; try clear Hv;
    cbn [resetForGenerationLocked act_states as_WanReachabilityState]; intros Ho;
    try (exfalso; exact (Hne Ho)); try discriminate Ho.
  - exact (conj Ho eq_refl).
  - exact (conj Ho eq_refl).
  - match goal with X : set_axis _ _ _ = Some _ |- _ => apply set_axis_wan in X as [Hw|[-> Hw]] end; [congruence|].
    rewrite Hw in Ho. exact (conj (conj eq_refl Ho) eq_refl).
  - rewrite outcome_states_wan in Ho. exact (conj Ho eq_refl).
Qed.

(** While the WAN axis stays OPEN_FROM_VANTAGE, the activation is the same one; only
    [AdvanceGeneration] changes its generation. *)
Lemma act_step_open_identity (a : Activation) (op : act_op) :
  wan (act_step a op).1 = "OPEN_FROM_VANTAGE" → wan a = "OPEN_FROM_VANTAGE" →
  act_activation (act_step a op).1 = act_activation a ∧
  (act_generation (act_step a op).1 = act_generation a ∨ ∃ next, op = OpAdvance next).
Proof.
  unfold wan. destruct op; op_cases; commits; try clear Hv; cbn [resetForGenerationLocked act_states as_WanReachabilityState];
    intros Ho _; try discriminate Ho; (split; [reflexivity|]); first [by left|right; eexists; reflexivity].
Qed.
Lemma act_step_generation (a : Activation) (op : act_op) (g : Z) :
  op_generation op = Some g → (act_step a op).2 = Ok tt → g = act_generation a.
Proof.
  intros Hg Hr. destruct (Z.eq_dec g (act_generation a)) as [?|Hne]; [done|]. by rewrite (act_step_stale a op g Hg Hne) in Hr.
Qed.

Lemma act_step_opens_identity (a : Activation) (op : act_op) : opens op →
  act_activation (act_step a op).1 = act_activation a ∧ act_generation (act_step a op).1 = act_generation a.
Proof. destruct op; intros Ho; try contradiction Ho; op_cases; commits; split; reflexivity. Qed.

Lemma prefix_snoc_cases {A} (l k : list A) (x : A) : l `prefix_of` (k ++ [x])%list → l `prefix_of` k ∨ l = (k ++ [x])%list.
Proof.
  intros [t Ht]. destruct t as [|y t _] using rev_ind; [right; by rewrite app_nil_r in Ht|left]. rewrite app_assoc in Ht.
  apply app_inj_tail in Ht as [-> _]. by apply prefix_app_r.
Qed.
Lemma act_run_snoc (a : Activation) (l : list act_op) (op : act_op) : act_run a (l ++ [op]) = (act_step (act_run a l) op).1.
Proof. unfold act_run. by rewrite fold_left_app. Qed.

(** The evidence that the WAN axis holds at the end of a run: the operation that wrote it, and
    what followed. *)
Record evidence_of (a : Activation) (l1 : list act_op) (op : act_op) (l2 : list act_op) : Prop := {
  evd_opens : opens op;
  evd_accepted : (act_step (act_run a l1) op).2 = Ok tt;
  evd_generation g : op_generation op = Some g → g = act_generation (act_run a l1);
  evd_held l : l `prefix_of` l2 → wan (act_run a (l1 ++ op :: l)) = "OPEN_FROM_VANTAGE";
  evd_activation : act_activation (act_run a (l1 ++ op :: l2)) = act_activation (act_run a l1);
  evd_same_generation : act_generation (act_run a (l1 ++ op :: l2)) = act_generation (act_run a l1) ∨ ∃ next, OpAdvance next ∈ l2
}.

Lemma act_run_opens (ops : list act_op) (a : Activation) :
  wan a ≠ "OPEN_FROM_VANTAGE" → wan (act_run a ops) = "OPEN_FROM_VANTAGE" →
  ∃ l1 op l2, ops = (l1 ++ op :: l2)%list ∧ evidence_of a l1 op l2.
Proof.
  intros Hne. induction ops as [|op ops IH] using rev_ind; intros Ho; [done|]. rewrite act_run_snoc in Ho.
  destruct (decide (wan (act_run a ops) = "OPEN_FROM_VANTAGE")) as [Hw|Hw].
  - destruct (IH Hw) as (l1 & op' & l2 & -> & [H1 H2 H3 H4 H5 H6]). exists l1, op', (l2 ++ [op])%list. split; [by rewrite <- app_assoc|].
    assert (E : act_run a (l1 ++ op' :: l2 ++ [op]) = (act_step (act_run a (l1 ++ op' :: l2)) op).1).
    { change (op' :: l2 ++ [op])%list with ((op' :: l2) ++ [op])%list. rewrite app_assoc. apply act_run_snoc. }
    destruct (act_step_open_identity _ op Ho Hw) as [Hi Hg].
    split; [exact H1|exact H2|exact H3| |by rewrite E, Hi|].
    + intros l Hl. apply prefix_snoc_cases in Hl. destruct Hl as [Hl| ->]; [by apply H4|by rewrite E].
    + rewrite E. destruct Hg as [Hg|[n ->]]; [|right; exists n; set_solver]. rewrite Hg. destruct H6 as [?|[n Hn]]; [by left|right; exists n; set_solver].
  - destruct (act_step_opens _ op Hw Ho) as [H1 H2]. exists ops, op, []. split; [done|].
    assert (Hid : act_activation (act_step (act_run a ops) op).1 = act_activation (act_run a ops) ∧ act_generation (act_step (act_run a ops) op).1 = act_generation (act_run a ops)).
    { by apply act_step_opens_identity. }
    split; [exact H1|exact H2|intros g Hg; by eapply act_step_generation| |by rewrite act_run_snoc; apply Hid|left; by rewrite act_run_snoc; apply Hid].
    intros l Hl. apply prefix_nil_inv in Hl as ->. by rewrite act_run_snoc.
Qed.

(** ** Properties *)

(** Whatever the interleaving of operations, errors included, the snapshot
    of an activation always has one legal value per axis and satisfies the truth
    relations. *)
Theorem activation_always_valid (forwardID activationID : string) (generation : Z) (ops : list act_op) :
  let s := act_states (act_run (NewActivation forwardID activationID generation) ops) in
  axes_legal s ∧ truth_relations s.
Proof. apply ActivationStates_valid_iff, act_run_valid, valid_initial. Qed.

(** Generation compare-and-swap.  An event that carries a generation other
    than the activation's (older or newer) is rejected as stale, and any
    operation that fails, for whatever reason, leaves the activation unchanged. *)
Theorem activation_stale_rejected (a : Activation) (op : act_op) :
  (∀ g, op_generation op = Some g → g ≠ act_generation a → act_step a op = (a, Err ErrStaleEvent)) ∧
  (∀ e, (act_step a op).2 = Err e → (act_step a op).1 = a).
Proof. split; [apply act_step_stale|apply act_step_error]. Qed.

(** C17: no verified publication without evidence of this activation.  Starting from a
    valid activation that does not claim OPEN_FROM_VANTAGE (a new one, or one that was
    reset, restored, re-probed, recovered or lost its evidence), a publication that is
    PUBLISHED_VERIFIED after any run is preceded in that run by an accepted operation that
    wrote OPEN_FROM_VANTAGE: a probe outcome or an axis update, which carried the
    generation the activation had then, or a whole snapshot set or rolled back to.  The
    axis has held that value ever since, so nothing reset, restored, re-probed or recovered
    the activation after it: the activation is the same one, and its generation too unless
    [AdvanceGeneration] raised it. *)
Theorem verified_requires_fresh_open (a : Activation) (ops : list act_op) :
  valid a → wan a ≠ "OPEN_FROM_VANTAGE" →
  as_PublicationState (act_states (act_run a ops)) = "PUBLISHED_VERIFIED" →
  ∃ l1 op l2, ops = (l1 ++ op :: l2)%list ∧ evidence_of a l1 op l2.
Proof.
  intros Hv Hne Hp. apply act_run_opens; [done|].
  pose proof (act_run_valid a ops Hv) as Hr. unfold valid in Hr. apply ActivationStates_valid_iff in Hr as [_ (_&Hr&_)].
  by apply Hr.
Qed.

(** Validity of the snapshots the evidence operations build. *)
Lemma probing_valid (a : Activation) : valid a → ActivationStates_Validate (probing (act_states a)) = Ok tt.
Proof.
  unfold valid. rewrite !ActivationStates_valid_iff. unfold axes_legal, truth_relations.
  intros [(?&?&?&?&?&?&?&?&?) (?&?&?)]. destruct (act_states a). cbn in *. split_and!; try assumption; try reflexivity; discriminate.
Qed.

Lemma lost_valid (a : Activation) : valid a →
  ActivationStates_Validate
    (set_return "NOT_TESTED" (set_wan "NOT_TESTED" (set_publication "STALE" (act_states a)))) = Ok tt.
Proof.
  unfold valid. rewrite !ActivationStates_valid_iff. unfold axes_legal, truth_relations.
  intros [(?&?&?&?&?&?&?&?&?) (?&?&?)]. destruct (act_states a). cbn in *. split_and!; try assumption; try reflexivity; discriminate.
Qed.

(** The snapshot [RecoverAfterRestart] commits. *)
Definition recovered (s : ActivationStates) : ActivationStates :=
  let next := set_return "NOT_TESTED" (set_wan "NOT_TESTED" s) in
  if String.eqb (as_PublicationState next) "PUBLISHED_VERIFIED"
  then set_publication "PUBLISHED_UNVERIFIED" next else next.

Lemma recover_valid (a : Activation) : valid a → ActivationStates_Validate (recovered (act_states a)) = Ok tt.
Proof.
  unfold valid. rewrite !ActivationStates_valid_iff. unfold axes_legal, truth_relations, recovered.
  intros [(?&?&?&?&?&?&?&?&?) (?&?&?)]. destruct (act_states a) as [c l m k w r t p d]. cbn in *.
  destruct (String.eqb_spec p "PUBLISHED_VERIFIED") as [->|Hne]; cbn;
    split_and!; try assumption; try reflexivity; try discriminate; intros ->; done.
Qed.

Lemma recover_unverified (s : ActivationStates) : as_PublicationState (recovered s) ≠ "PUBLISHED_VERIFIED".
Proof.
  unfold recovered. cbv zeta. match goal with |- context [String.eqb ?x ?y] => destruct (String.eqb_spec x y) as [He|Hne] end;
    [cbn; discriminate|done].
Qed.

Lemma outcome_valid (a : Activation) (o : string) : valid a →
  ActivationStates_Validate (outcome_states o (act_states a)) = Ok tt ↔
  ValidAxisValue "wan_reachability_state" o = true ∧
  (o = "OPEN_FROM_VANTAGE" → as_MappingState (act_states a) ≠ "FIRST_HOP_MAPPED").
Proof.
  unfold valid. rewrite !ActivationStates_valid_iff. unfold axes_legal, truth_relations, outcome_states, OutcomeOpenFromVantage.
  intros [(?&?&?&?&?&?&?&?&?) _]. destruct (act_states a).
  destruct (String.eqb_spec o "OPEN_FROM_VANTAGE") as [->|Hne]; cbn in *; split.
  - intros [_ (Hf&_)]. split; [reflexivity|]. intros _ ->. by apply Hf.
  - intros [_ Hm]. specialize (Hm eq_refl). split_and!; try assumption; try reflexivity; try discriminate; auto.
  - intros [(?&?&?&?&?&_) _]. split; [assumption|]. intros ->. by destruct Hne.
  - intros [Ho _]. split_and!; try assumption; try reflexivity; discriminate.
Qed.

Lemma commit_ok {A} (a : Activation) (next : ActivationStates) (v : A) :
  ActivationStates_Validate next = Ok tt → commit a next v = (with_states a next, Ok v).
Proof. unfold commit. by intros ->. Qed.

(** The probe cycle.  From a valid activation, at its own generation,
    starting a probe always succeeds and unpublishes; recording an outcome
    succeeds exactly when the outcome is a value of the WAN axis and, for
    OPEN_FROM_VANTAGE, the mapping is not first-hop only; when it succeeds the
    publication is PUBLISHED_VERIFIED for OPEN_FROM_VANTAGE and UNPUBLISHED
    otherwise; an evidence loss and a restart recovery always succeed, and
    neither leaves a verified publication. *)
Theorem probe_cycle (a : Activation) (o : string) : valid a →
  StartProbe a (act_generation a) = (with_states a (probing (act_states a)), Ok tt) ∧
  ((RecordProbeOutcome a o (act_generation a)).2 = Ok tt ↔
     ValidAxisValue "wan_reachability_state" o = true ∧
     (o = "OPEN_FROM_VANTAGE" → as_MappingState (act_states a) ≠ "FIRST_HOP_MAPPED")) ∧
  ((RecordProbeOutcome a o (act_generation a)).2 = Ok tt →
     as_PublicationState (act_states (RecordProbeOutcome a o (act_generation a)).1) =
       if String.eqb o "OPEN_FROM_VANTAGE" then "PUBLISHED_VERIFIED" else "UNPUBLISHED") ∧
  ((EvidenceLost a).2 = Ok tt ∧ as_PublicationState (act_states (EvidenceLost a).1) = "STALE") ∧
  ((RecoverAfterRestart a).2 = Ok tt ∧
     as_PublicationState (act_states (RecoverAfterRestart a).1) ≠ "PUBLISHED_VERIFIED").
Proof.
  intros Ha. unfold StartProbe, RecordProbeOutcome. rewrite Z.eqb_refl. cbn [negb].
  split_and!.
  - apply commit_ok, probing_valid, Ha.
  - rewrite <- (outcome_valid a o Ha). destruct (commit_cases a (outcome_states o (act_states a)) tt) as [[-> ->]|(e&->&->)];
      (split; intros He; [first [reflexivity|discriminate He]..]).
  - destruct (commit_cases a (outcome_states o (act_states a)) tt) as [[Hv ->]|(e&Hv&->)]; intros Hok; [|discriminate Hok].
    cbn [fst with_states act_states]. unfold outcome_states, OutcomeOpenFromVantage.
    destruct (String.eqb o "OPEN_FROM_VANTAGE"); reflexivity.
  - unfold EvidenceLost. rewrite commit_ok by (apply lost_valid, Ha). reflexivity.
  - unfold EvidenceLost. rewrite commit_ok by (apply lost_valid, Ha). reflexivity.
  - unfold RecoverAfterRestart. fold (recovered (act_states a)). rewrite commit_ok by (apply recover_valid, Ha). reflexivity.
  - unfold RecoverAfterRestart. fold (recovered (act_states a)). rewrite commit_ok by (apply recover_valid, Ha).
    apply recover_unverified.
Qed.

Lemma StartProbeAdmission_inv (a a' : Activation) (id : string) (g : Z) (tok : ProbeAdmission) :
  StartProbeAdmission a id g = (a', Ok tok) →
  a' = with_states a (probing (act_states a)) ∧
  tok = mkAdmission (act_forwardID a) (act_activation a) (act_generation a) (act_states a) (probing (act_states a)) ∧
  act_activation a = id ∧ act_generation a = g.
Proof.
  unfold StartProbeAdmission. destruct (_ || _) eqn:G; [discriminate|]. bool_prop.
  match goal with |- commit ?x ?n ?v = _ → _ => destruct (commit_cases x n v) as [[_ ->]|(e&_&->)] end; [|discriminate].
  intros [= <- <-]. split_and!; congruence.
Qed.

(** An admission can be rolled back exactly.  After a successful admission
    from a valid activation, rolling back with its token restores the activation
    to what it was; and a rollback against an activation whose identity,
    generation or snapshot differs from what the token recorded fails as stale
    and changes nothing. *)
Theorem admission_rollback (a a' b : Activation) (id : string) (g : Z) (tok : ProbeAdmission) :
  valid a → StartProbeAdmission a id g = (a', Ok tok) →
  RollbackProbeAdmission a' tok = (a, Ok tt) ∧
  (b ≠ a' → RollbackProbeAdmission b tok = (b, Err ErrStaleEvent)).
Proof.
  intros Ha Hs. apply StartProbeAdmission_inv in Hs as (->&->&_&_). unfold RollbackProbeAdmission.
  cbn [adm_ForwardID adm_Activation adm_Generation adm_After adm_Before with_states act_forwardID act_activation
    act_generation act_states]. split.
  - rewrite !String.eqb_refl, Z.eqb_refl, bool_decide_eq_true_2 by reflexivity. cbn [negb orb].
    rewrite commit_ok by exact Ha. destruct a; reflexivity.
  - intros Hne. destruct (_ || _) eqn:G; [reflexivity|]. exfalso. apply Hne. bool_prop.
    destruct b, a; cbn in *. unfold with_states. cbn. congruence.
Qed.

(** ** Concrete activations *)

Definition sample_activation : Activation := NewActivation "fwd-1" "act-1" 3.

Lemma verified_requires_fresh_open_witness :
  ∃ l1 op l2, [OpStartProbe 3; OpOutcome "OPEN_FROM_VANTAGE" 3] = (l1 ++ op :: l2)%list ∧ evidence_of sample_activation l1 op l2.
Proof.
  apply (verified_requires_fresh_open sample_activation).
  - vm_compute. reflexivity.
  - vm_compute. discriminate.
  - vm_compute. reflexivity.
Defined.

Lemma probe_cycle_witness :
  StartProbe sample_activation 3 = (with_states sample_activation (probing initial_states), Ok tt).
Proof. refine (proj1 (probe_cycle sample_activation "TIMEOUT" _)). vm_compute. reflexivity. Defined.

Lemma admission_rollback_witness :
  RollbackProbeAdmission (with_states sample_activation (probing initial_states))
    (mkAdmission "fwd-1" "act-1" 3 initial_states (probing initial_states)) = (sample_activation, Ok tt).
Proof.
  refine (proj1 (admission_rollback sample_activation _ sample_activation "act-1" 3 _ _ _)); vm_compute; reflexivity.
Defined.

(** The probe outcomes ARMED, ACCEPTED and DROPPED are not values of the WAN
    axis: recording one is rejected and the activation stays as it was. *)
Example nonaxis_outcomes_rejected :
  forallb (λ o, negb (is_ok (RecordProbeOutcome (StartProbe sample_activation 3).1 o 3).2))
    (List.filter (λ o, negb (ValidAxisValue "wan_reachability_state" o)) probeOutcomes) = true ∧
  List.filter (λ o, negb (ValidAxisValue "wan_reachability_state" o)) probeOutcomes ≠ [].
Proof. vm_compute. split; [reflexivity|discriminate]. Qed.
