(* ===== verification/Gateway.v ===== *)
(** * Gateway clients: the shared transaction loop

    [src/internal/traversal/pcp/client.go] and [natpmp/client.go] run the same
    bounded request/response loop: send, read datagrams until the attempt's
    deadline, keep only those of the configured server, classify the first one,
    retry on timeouts.  The loop is written once here, over the protocol's
    classifier; Pcp.v and Natpmp.v instantiate it.

    The socket and the context are the environment: what one attempt sees of
    them is an [attempt_env], and its reads are a finite list of [read_event]s,
    after which the read deadline passes. *)

From Stdlib Require Import ZArith Lia Strings.Byte.
From stdpp Require Import base tactics list sets strings option.
From S2P Require Import Prelude.

Open Scope Z_scope.

(** ** [netip.Addr] and [netip.AddrPort] (without zones) *)

Inductive Addr : Type := AddrZero | Addr4 (b : bytes) | Addr6 (b : bytes).

#[export] Instance Addr_eq_dec : EqDecision Addr.
Proof. solve_decision. Defined.

Definition Addr_IsValid (a : Addr) : bool := match a with AddrZero => false | _ => true end.
Definition Addr_Is4 (a : Addr) : bool := match a with Addr4 _ => true | _ => false end.

Definition AddrFromSlice (b : bytes) : option Addr :=
  if zlen b =? 4 then Some (Addr4 b) else if zlen b =? 16 then Some (Addr6 b) else None.

(** [Addr.Unmap]: an IPv4-mapped IPv6 address becomes the IPv4 address. *)
Definition Unmap (a : Addr) : Addr :=
  match a with
  | Addr6 b => if bytes_eqb (take 12 b) (repeat Byte.x00 10 ++ [Byte.xff; Byte.xff]) then Addr4 (drop 12 b) else a
  | _ => a
  end.

Definition AddrPort : Type := Addr * Z.

(** A [net.Addr]: a [*net.UDPAddr] with its IP bytes and [int] port, or another type. *)
Definition NetAddr : Type := option (bytes * Z).

Definition addrPortOf (addr : NetAddr) : option AddrPort :=
  match addr with
  | None => None
  | Some (ip, port) => a ← AddrFromSlice ip; Some (Unmap a, port mod 2 ^ 16)
  end.

(** ** Server epochs *)

Record EpochState : Type := mkEpoch { lastEpoch : Z; sawEpoch : bool }.

Definition observeEpoch (c : EpochState) (epoch : Z) : bool * EpochState :=
  (sawEpoch c && (epoch - lastEpoch c <? -2), mkEpoch epoch true).

(** ** Transactions *)

(** The outcome of one attempt: a definitive answer, or [errTransientRetry]. *)
Inductive outcome (A : Type) : Type := Definitive (a : A) | Retry.
Arguments Definitive {A} a.
Arguments Retry {A}.

Inductive read_event : Type :=
  | ReadCtxDone                         (* [ctx.Err() != nil] at the loop head *)
  | ReadDeadlineError                   (* [SetReadDeadline] fails *)
  | ReadError                           (* [ReadFrom] fails: deadline or socket error *)
  | Datagram (from : NetAddr) (data : bytes).

Record attempt_env : Type := mkAttempt {
  env_ctx_done : bool;                  (* [ctx.Err()] before the send *)
  env_send_error : bool;
  env_reads : list read_event;
  env_backoff_cancelled : bool          (* [ctx.Done()] wins the backoff select *)
}.

(** The environment of a transaction: its attempts by number, and [ctx.Err()] after the last. *)
Record net_env : Type := mkNet { net_attempt : nat → attempt_env; net_final_ctx : bool }.

Inductive TransportError (E : Type) : Type :=
  | ErrContext | ErrSend | ErrSetDeadline | ErrNoResponse | ErrProto (e : E).
Arguments ErrContext {E}.
Arguments ErrSend {E}.
Arguments ErrSetDeadline {E}.
Arguments ErrNoResponse {E}.
Arguments ErrProto {E} e.

Section Transaction.
Context {E R : Type}.
(** The configured server and the protocol's treatment of one datagram of it. *)
Context (server : AddrPort) (classify : EpochState → bytes → outcome (result E R) * EpochState).

(** The read loop: at most 1500 bytes of a datagram reach the buffer. *)
Fixpoint await (c : EpochState) (reads : list read_event)
    : outcome (result (TransportError E) R) * EpochState :=
  match reads with
  | [] => (Retry, c)
  | ReadCtxDone :: _ => (Definitive (Err ErrContext), c)
  | ReadDeadlineError :: _ => (Definitive (Err ErrSetDeadline), c)
  | ReadError :: _ => (Retry, c)
  | Datagram from data :: rest =>
      if bool_decide (addrPortOf from = Some server) then
        match classify c (take 1500 data) with
        | (Definitive r, c') => (Definitive (map_err ErrProto r), c')
        | (Retry, c') => (Retry, c')
        end
      else await c rest
  end.

(** The attempt loop from attempt number [attempt], [left] attempts left.
    The third component is the number of packets sent. *)
Fixpoint attempts (left attempt : nat) (net : net_env) (c : EpochState) (sent : nat)
    : result (TransportError E) R * EpochState * nat :=
  match left with
  | O => (if net_final_ctx net then Err ErrContext else Err ErrNoResponse, c, sent)
  | S left' =>
      let env := net_attempt net attempt in
      if env_ctx_done env then (Err ErrContext, c, sent)
      else if env_send_error env then (Err ErrSend, c, sent)
      else
        match await c (env_reads env) with
        | (Definitive r, c') => (r, c', S sent)
        | (Retry, c') =>
            if negb (bool_decide (left' = O)) && env_backoff_cancelled env then (Err ErrContext, c', S sent)
            else attempts left' (S attempt) net c' (S sent)
        end
  end.
End Transaction.

(** [NewClient]'s default for [MaxAttempts]. *)
Definition effective_attempts (MaxAttempts : Z) : nat :=
  if MaxAttempts <=? 0 then 3%nat else Z.to_nat MaxAttempts.

(** ** Lemmas *)

Lemma observeEpoch_reboot (c : EpochState) (e : Z) :
  (observeEpoch c e).1 = true ↔ sawEpoch c = true ∧ e < lastEpoch c - 2.
Proof. unfold observeEpoch; cbn. rewrite andb_true_iff, Z.ltb_lt. intuition lia. Qed.

Lemma observeEpoch_bool (c : EpochState) (e : Z) :
  (observeEpoch c e).1 = bool_decide (sawEpoch c = true ∧ e < lastEpoch c - 2).
Proof.
  apply eq_bool_prop_intro. rewrite bool_decide_spec, <- observeEpoch_reboot. by rewrite Is_true_true.
Qed.

Lemma be_get_slice_u32 (d : bytes) (i : nat) : in_u32 (be_get (slice d i (i + 4))).
Proof.
  pose proof (be_get_range (slice d i (i + 4))) as [? Hr]. split; [done|]. eapply Z.lt_le_trans; [exact Hr|].
  change (2 ^ 32) with (256 ^ 4). apply Z.pow_le_mono_r; [lia|].
  unfold zlen, slice. rewrite length_take. lia.
Qed.

Section TransactionLemmas.
Context {E R : Type} (server : AddrPort) (classify : EpochState → bytes → outcome (result E R) * EpochState).

(** A classifier that leaves the epoch alone when it asks for a retry. *)
Definition retry_pure : Prop := ∀ c d c', classify c d = (Retry, c') → c' = c.

(** Events that leave an attempt unanswered: other hosts' datagrams and read errors. *)
Definition foreign (e : read_event) : Prop :=
  match e with Datagram from _ => addrPortOf from ≠ Some server | _ => False end.
Definition unanswered (e : read_event) : Prop := foreign e ∨ e = ReadError.

Lemma await_foreign (c : EpochState) (noise reads : list read_event) :
  Forall foreign noise → await server classify c (noise ++ reads) = await server classify c reads.
Proof.
  induction 1 as [|e noise He _ IH]; [done|]. destruct e as [| | |from d]; try done.
  cbn. by rewrite bool_decide_eq_false_2.
Qed.

Lemma await_unanswered (c : EpochState) (reads : list read_event) :
  Forall unanswered reads → await server classify c reads = (Retry, c).
Proof.
  induction 1 as [|e reads He _ IH]; [done|]. destruct He as [He| ->]; [|done].
  destruct e as [| | |from d]; try done. cbn. by rewrite bool_decide_eq_false_2.
Qed.

(** What an accepted attempt rests on: a datagram of the server, the first such one. *)
Lemma await_ok (c : EpochState) (reads : list read_event) (r : R) (c' : EpochState) :
  await server classify c reads = (Definitive (Ok r), c') →
  ∃ from data, Datagram from data ∈ reads ∧ addrPortOf from = Some server
    ∧ classify c (take 1500 data) = (Definitive (Ok r), c').
Proof.
  induction reads as [|e reads IH]; [done|]. destruct e as [| | |from data]; cbn; try discriminate.
  case_bool_decide as Hs; [|intros H; destruct (IH H) as (f & d & ? & ?); exists f, d; set_solver].
  destruct (classify c (take 1500 data)) as [[[r'|]|] c''] eqn:Ec; cbn; intros H; simplify_eq.
  exists from, data. split; [left|done].
Qed.

Lemma await_retry (Hp : retry_pure) (c : EpochState) (reads : list read_event) (c' : EpochState) :
  await server classify c reads = (Retry, c') → c' = c.
Proof.
  induction reads as [|e reads IH]; cbn; [congruence|]. destruct e as [| | |from data]; cbn; try congruence.
  case_bool_decide as Hs; [|done].
  destruct (classify c (take 1500 data)) as [[r|] c''] eqn:Ec; intros H; simplify_eq. by eapply Hp.
Qed.

(** A successful transaction took its result from one datagram of the server, read
    in one of its attempts, with the epoch the transaction started from. *)
Lemma attempts_ok (Hp : retry_pure) (left attempt : nat) (net : net_env) (c : EpochState) (sent : nat)
    (r : R) (c' : EpochState) (n : nat) :
  attempts server classify left attempt net c sent = (Ok r, c', n) →
  ∃ k from data, (attempt ≤ k < attempt + left)%nat ∧ n = (sent + S (k - attempt))%nat ∧ Datagram from data ∈ env_reads (net_attempt net k)
    ∧ addrPortOf from = Some server ∧ classify c (take 1500 data) = (Definitive (Ok r), c').
Proof.
  revert attempt c sent. induction left as [|left IH]; intros attempt c sent; cbn [attempts].
  { destruct (net_final_ctx net); discriminate. }
  destruct (env_ctx_done _); [discriminate|]. destruct (env_send_error _); [discriminate|].
  destruct (await server classify c (env_reads (net_attempt net attempt))) as [[r'|] c''] eqn:Ea.
  - intros H. injection H as -> -> <-. destruct (await_ok _ _ _ _ Ea) as (f & d & ? & ? & ?).
    exists attempt, f, d. split_and!; [lia|lia|lia|done..].
  - pose proof (await_retry Hp _ _ _ Ea) as ->. destruct (_ && _); [discriminate|].
    intros H. destruct (IH _ _ _ H) as (k & f & d & ? & ? & ?). exists k, f, d. split_and!; [lia|lia|lia|tauto..].
Qed.

(** The retry budget: never more packets than attempts. *)
Lemma attempts_sent (left attempt : nat) (net : net_env) (c : EpochState) (sent : nat) :
  (sent ≤ (attempts server classify left attempt net c sent).2 ≤ sent + left)%nat.
Proof.
  revert attempt c sent. induction left as [|left IH]; intros attempt c sent; cbn [attempts]; [cbn; lia|].
  destruct (env_ctx_done _); [cbn; lia|]. destruct (env_send_error _); [cbn; lia|].
  destruct (await _ _ _ _) as [[r|] c']; [cbn; lia|].
  destruct (_ && _); [cbn; lia|]. specialize (IH (S attempt) c' (S sent)). lia.
Qed.

(** Liveness: attempts that go by without an answer do not lose the transaction
    while budget remains. *)
Lemma attempts_answer (Hp : retry_pure) (skip left attempt : nat) (net : net_env) (c : EpochState) (sent : nat)
    (r : result (TransportError E) R) (c' : EpochState) :
  (skip < left)%nat →
  (∀ k, (attempt ≤ k ≤ attempt + skip)%nat →
     env_ctx_done (net_attempt net k) = false ∧ env_send_error (net_attempt net k) = false
     ∧ env_backoff_cancelled (net_attempt net k) = false) →
  (∀ k, (attempt ≤ k < attempt + skip)%nat → (await server classify c (env_reads (net_attempt net k))).1 = Retry) →
  await server classify c (env_reads (net_attempt net (attempt + skip))) = (Definitive r, c') →
  attempts server classify left attempt net c sent = (r, c', S (sent + skip)).
Proof.
  revert left attempt sent. induction skip as [|skip IH]; intros left attempt sent Hl Henv Hq Ha;
    (destruct left as [|left]; [lia|]); cbn [attempts];
    destruct (Henv attempt) as (-> & -> & Hb); [lia| |lia|].
  - rewrite Nat.add_0_r in Ha. rewrite Ha. by rewrite Nat.add_0_r.
  - specialize (Hq attempt ltac:(lia)) as Hr.
    destruct (await server classify c (env_reads (net_attempt net attempt))) as [o c''] eqn:Ea.
    cbn in Hr. subst o. pose proof (await_retry Hp _ _ _ Ea) as ->. rewrite Hb, andb_false_r.
    replace (S (sent + S skip)) with (S (S sent + skip)) by lia. apply IH; [lia| | |].
    + intros k Hk. apply Henv. lia.
    + intros k Hk. apply Hq. lia.
    + by replace (S attempt + skip)%nat with (attempt + S skip)%nat by lia.
Qed.
End TransactionLemmas.
