(* ===== verification/Pcp.v ===== *)
(** * PCP ([src/internal/traversal/pcp/pcp.go], [client.go])

    The RFC 6887 MAP and ANNOUNCE codec and the client: [Map], [Renew], [Delete]
    and [Announce] over the transaction loop of Gateway.v.  The 12-byte nonce is
    an argument (the client draws it from [crypto/rand]). *)

From Stdlib Require Import ZArith Lia Strings.Byte.
From stdpp Require Import base tactics list sets strings option.
From S2P Require Import Prelude Gateway.

Open Scope Z_scope.

Definition Version : Z := 2.
Definition HeaderSize : nat := 24.
Definition MapPayloadSize : nat := 36.
Definition OpCodeAnnounce : Z := 0.
Definition OpCodeMap : Z := 1.
Definition RequestFlag : Z := 0x00.
Definition ResponseFlag : Z := 0x80.
Definition ProtoTCP : Z := 6.
Definition ProtoUDP : Z := 17.
Definition OptionPreferFailure : Z := 2.
Definition ResultSuccess : Z := 0.

(** [time.Second], in nanoseconds. *)
Definition Second : Z := 1000000000.

Inductive PcpError : Type :=
  | ErrTruncated | ErrWrongVersion | ErrWrongOpcode | ErrTrailingBytes | ErrInternalPort | ErrProtocol
  | ErrBadMappedAddr | EMapProtocol | EInternalAddress | ELifetime | EClientAddress
  | ErrUnsupportedVersion | ErrNotAuthorized | ErrMalformedRequest | ErrUnsupportedOpcode | ErrUnsupportedOption
  | ErrNetworkFailure | ErrNoResources | ErrUnsupportedProtocol | ErrUserExQuota | ErrCannotProvideExternal
  | ErrAddressMismatch | ErrExcessiveRemotePeers | EPermanent (code : Z)
  | ErrNonceMismatch | ErrUnownedMapping | ErrPreferFailureRequiresPort.

Definition TransientResult (code : Z) : bool := 128 <=? code.

(** The map [resultErrors]. *)
Definition resultErrors (code : Z) : option PcpError :=
  match code with
  | 1 => Some ErrUnsupportedVersion
  | 2 => Some ErrNotAuthorized
  | 3 => Some ErrMalformedRequest
  | 4 => Some ErrUnsupportedOpcode
  | 5 => Some ErrUnsupportedOption
  | 6 => Some ErrMalformedRequest
  | 7 => Some ErrNetworkFailure
  | 8 => Some ErrNoResources
  | 9 => Some ErrUnsupportedProtocol
  | 10 => Some ErrUserExQuota
  | 11 => Some ErrCannotProvideExternal
  | 12 => Some ErrAddressMismatch
  | 13 => Some ErrExcessiveRemotePeers
  | _ => None
  end.

Record MapRequest : Type := mkMapRequest {
  mr_Protocol : Z;
  mr_InternalAddress : Addr;
  mr_InternalPort : Z;
  mr_SuggestedExternalPort : Z;
  mr_Lifetime : Z;                      (* nanoseconds *)
  mr_PreferFailure : bool
}.

Record MapResult : Type := mkMapResult {
  res_Nonce : bytes;
  res_Protocol : Z;
  res_InternalAddress : Addr;
  res_InternalPort : Z;
  res_AssignedExternalPort : Z;
  res_AssignedExternalAddress : Addr;
  res_Lifetime : Z;
  res_Epoch : Z;
  res_ServerRebooted : bool
}.

(** ** Codec *)

Definition v4Mapped (addr : Addr) : bytes :=
  match addr with
  | Addr4 a4 => repeat Byte.x00 10 ++ [Byte.xff; Byte.xff] ++ a4
  | _ => repeat Byte.x00 16
  end.

Definition byte_at (b : bytes) (i : nat) : Z := be_get (slice b i (S i)).

Definition mappedToV4 (b : bytes) : result PcpError Addr :=
  fail_if negb (zlen b =? 16) with ErrBadMappedAddr ;;
  if (byte_at b 10 =? 255) && (byte_at b 11 =? 255) then Ok (Addr4 (slice b 12 16))
  else if forallb (λ v, b2z v =? 0) (take 12 b) then Ok (Addr4 (slice b 12 16))
  else Err ErrBadMappedAddr.

Definition buildMapRequest (req : MapRequest) (nonce : bytes) : result PcpError bytes :=
  fail_if negb (mr_Protocol req =? ProtoTCP) && negb (mr_Protocol req =? ProtoUDP) with EMapProtocol ;;
  fail_if mr_PreferFailure req && (mr_SuggestedExternalPort req =? 0) with ErrPreferFailureRequiresPort ;;
  fail_if negb (Addr_IsValid (mr_InternalAddress req)) || negb (Addr_Is4 (mr_InternalAddress req)) with EInternalAddress ;;
  fail_if (mr_Lifetime req <? 0) || (2 ^ 32 - 1 <? Z.quot (mr_Lifetime req) Second) with ELifetime ;;
  let header :=
    [u8 Version; u8 (Z.lor RequestFlag OpCodeMap); Byte.x00; Byte.x00]
    ++ be_put 4 (Z.quot (mr_Lifetime req) Second) ++ v4Mapped (mr_InternalAddress req) in
  let payload :=
    nonce ++ [u8 (mr_Protocol req); Byte.x00; Byte.x00; Byte.x00]
    ++ be_put 2 (mr_InternalPort req) ++ be_put 2 (mr_SuggestedExternalPort req) ++ repeat Byte.x00 16 in
  let packet := header ++ payload in
  Ok (if mr_PreferFailure req
      then packet ++ [u8 OptionPreferFailure; Byte.x00; Byte.x00; Byte.x00] else packet).

Definition buildAnnounceRequest (clientAddr : Addr) : result PcpError bytes :=
  fail_if negb (Addr_IsValid clientAddr) || negb (Addr_Is4 clientAddr) with EClientAddress ;;
  Ok ([u8 Version; u8 (Z.lor RequestFlag OpCodeAnnounce); Byte.x00; Byte.x00] ++ repeat Byte.x00 4 ++ v4Mapped clientAddr).

Record mapResponse : Type := mkMapResponse {
  rs_ResultCode : Z;
  rs_LifetimeSeconds : Z;
  rs_Epoch : Z;
  rs_Nonce : bytes;
  rs_Protocol : Z;
  rs_InternalPort : Z;
  rs_AssignedExternalPort : Z;
  rs_AssignedExternalAddress : Addr
}.

(** The common response header; the other fields are the zero values. *)
Definition response_header (packet : bytes) : mapResponse :=
  mkMapResponse (byte_at packet 3) (be_get (slice packet 4 8)) (be_get (slice packet 8 12))
    (repeat Byte.x00 12) 0 0 0 AddrZero.

Definition parseAnnounceResponse (packet : bytes) : result PcpError mapResponse :=
  fail_if bool_decide (length packet < HeaderSize)%nat with ErrTruncated ;;
  fail_if negb (bool_decide (length packet = HeaderSize)) with ErrTrailingBytes ;;
  fail_if negb (byte_at packet 0 =? Version) with ErrWrongVersion ;;
  fail_if negb (byte_at packet 1 =? Z.lor ResponseFlag OpCodeAnnounce) with ErrWrongOpcode ;;
  Ok (response_header packet).

Definition parseMapResponse (packet : bytes) (wantProtocol wantInternalPort : Z) : result PcpError mapResponse :=
  fail_if bool_decide (length packet < HeaderSize)%nat with ErrTruncated ;;
  fail_if negb (zlen packet mod 4 =? 0) with ErrTrailingBytes ;;
  fail_if negb (byte_at packet 0 =? Version) with ErrWrongVersion ;;
  fail_if negb (byte_at packet 1 =? Z.lor ResponseFlag OpCodeMap) with ErrWrongOpcode ;;
  let response := response_header packet in
  if negb (rs_ResultCode response =? ResultSuccess) then Ok response
  else
    fail_if negb (bool_decide (length packet = HeaderSize + MapPayloadSize)%nat) with ErrTrailingBytes ;;
    let payload := drop HeaderSize packet in
    let protocol := byte_at payload 12 in
    let internalPort := be_get (slice payload 16 18) in
    let* external := mappedToV4 (slice payload 20 36) in
    fail_if negb (protocol =? wantProtocol) with ErrProtocol ;;
    fail_if negb (internalPort =? wantInternalPort) with ErrInternalPort ;;
    Ok (mkMapResponse (rs_ResultCode response) (rs_LifetimeSeconds response) (rs_Epoch response)
          (slice payload 0 12) protocol internalPort (be_get (slice payload 18 20)) external).

(** ** Client *)

(** The result-code switch of [awaitResponse] and [awaitAnnounce]. *)
Definition classify_failure {A} (code : Z) : outcome (result PcpError A) :=
  if TransientResult code then Retry
  else match resultErrors code with
       | Some sentinel => Definitive (Err sentinel)
       | None => Definitive (Err (EPermanent code))
       end.

(** The body of the [awaitResponse] loop on one datagram of the server. *)
Definition classifyMap (req : MapRequest) (nonce : bytes) (c : EpochState) (packet : bytes)
    : outcome (result PcpError MapResult) * EpochState :=
  match parseMapResponse packet (mr_Protocol req) (mr_InternalPort req) with
  | Err e => (Definitive (Err e), c)
  | Ok response =>
      if negb (rs_ResultCode response =? ResultSuccess) then (classify_failure (rs_ResultCode response), c)
      else if negb (bytes_eqb (rs_Nonce response) nonce) then (Definitive (Err ErrNonceMismatch), c)
      else
        let '(reboot, c') := observeEpoch c (rs_Epoch response) in
        (Definitive (Ok (mkMapResult (rs_Nonce response) (mr_Protocol req) (mr_InternalAddress req)
           (mr_InternalPort req) (rs_AssignedExternalPort response) (rs_AssignedExternalAddress response)
           (wrap_i64 (rs_LifetimeSeconds response * Second)) (rs_Epoch response) reboot)), c')
  end.

Definition classifyAnnounce (c : EpochState) (packet : bytes) : outcome (result PcpError Z) * EpochState :=
  match parseAnnounceResponse packet with
  | Err e => (Definitive (Err e), c)
  | Ok response =>
      if negb (rs_ResultCode response =? ResultSuccess) then (classify_failure (rs_ResultCode response), c)
      else (Definitive (Ok (rs_Epoch response)), (observeEpoch c (rs_Epoch response)).2)
  end.

Record Client : Type := mkClient { c_server : AddrPort; c_MaxAttempts : nat; c_epoch : EpochState }.

(** [NewClient]: the server, the attempt budget with its default, the epoch baseline. *)
Definition NewClient (server : AddrPort) (MaxAttempts EpochBaseline : Z) (EpochSeen : bool) : Client :=
  mkClient server (effective_attempts MaxAttempts) (mkEpoch EpochBaseline EpochSeen).

(** A call's result, the client's epoch after it, and the packets it sent. *)
Definition call (A : Type) : Type := result (TransportError PcpError) A * EpochState * list bytes.

(** Both loops send one prepared packet per attempt. *)
Definition run_attempts {A} (c : Client) (packet : result PcpError bytes)
    (classify : EpochState → bytes → outcome (result PcpError A) * EpochState) (net : net_env) : call A :=
  match packet with
  | Err e => (Err (ErrProto e), c_epoch c, [])
  | Ok p =>
      let '(r, st, sent) := attempts (c_server c) classify (c_MaxAttempts c) 1 net (c_epoch c) 0 in
      (r, st, repeat p sent)
  end.

Definition transaction (c : Client) (req : MapRequest) (nonce : bytes) (net : net_env) : call MapResult :=
  run_attempts c (buildMapRequest req nonce) (classifyMap req nonce) net.

Definition Announce (c : Client) (clientAddr : Addr) (net : net_env) : call Z :=
  run_attempts c (buildAnnounceRequest clientAddr) classifyAnnounce net.

Definition Map (c : Client) (req : MapRequest) (nonce : bytes) (net : net_env) : call MapResult :=
  transaction c req nonce net.

Definition renew_request (mapping : MapResult) (lifetime : Z) : MapRequest :=
  mkMapRequest (res_Protocol mapping) (res_InternalAddress mapping) (res_InternalPort mapping)
    (res_AssignedExternalPort mapping) lifetime false.

Definition Renew (c : Client) (mapping : MapResult) (lifetime : Z) (net : net_env) : call MapResult :=
  if res_InternalPort mapping =? 0 then (Err (ErrProto ErrUnownedMapping), c_epoch c, [])
  else transaction c (renew_request mapping lifetime) (res_Nonce mapping) net.

Definition Delete (c : Client) (mapping : MapResult) (net : net_env) : call MapResult :=
  if res_InternalPort mapping =? 0 then (Err (ErrProto ErrUnownedMapping), c_epoch c, [])
  else transaction c (renew_request mapping 0) (res_Nonce mapping) net.

(** ** Lemmas *)

Lemma byte_at_cons (x : byte) (l : bytes) (i : nat) : byte_at (x :: l) (S i) = byte_at l i.
Proof. done. Qed.

Lemma byte_at_0 (x : byte) (l : bytes) : byte_at (x :: l) 0 = b2z x.
Proof. exact (be_get_one x). Qed.

Lemma byte_at_drop (n i : nat) (l : bytes) : byte_at (drop n l) i = byte_at l (n + i).
Proof. unfold byte_at. by rewrite slice_of_drop, <- Nat.add_succ_r. Qed.

Lemma length_v4Mapped (a4 : bytes) : length a4 = 4%nat → length (v4Mapped (Addr4 a4)) = 16%nat.
Proof. intros H. cbn. lia. Qed.

(** A mapped address decodes back. *)
Lemma mappedToV4_v4Mapped (a4 : bytes) : length a4 = 4%nat → mappedToV4 (v4Mapped (Addr4 a4)) = Ok (Addr4 a4).
Proof. intros H. destruct a4 as [|a [|b [|c [|d [|]]]]]; try done. Qed.

Lemma mappedToV4_ok (b : bytes) (a : Addr) : mappedToV4 b = Ok a → a = Addr4 (slice b 12 16).
Proof. unfold mappedToV4. intros H. go_inv H; done. Qed.

Lemma classify_failure_retry {A} (code : Z) (r : result PcpError A) :
  classify_failure code = Definitive r → ∃ e, r = Err e.
Proof. unfold classify_failure. intros H. go_inv H; eauto. Qed.

Lemma classifyMap_retry_pure (req : MapRequest) (nonce : bytes) : retry_pure (classifyMap req nonce).
Proof.
  intros c d c' H. unfold classifyMap in H. destruct (parseMapResponse _ _ _) as [rs|]; [|congruence].
  destruct (negb _); [congruence|]. destruct (negb _); cbn in H; congruence.
Qed.

(** A success response that parses has the exact form. *)
Lemma parseMapResponse_success (d : bytes) (proto port : Z) (rs : mapResponse) :
  parseMapResponse d proto port = Ok rs → rs_ResultCode rs = ResultSuccess →
  length d = 60%nat ∧ byte_at d 0 = 2 ∧ byte_at d 1 = 0x81 ∧ byte_at d 3 = 0
  ∧ byte_at d 36 = proto ∧ be_get (slice d 40 42) = port
  ∧ rs = mkMapResponse 0 (be_get (slice d 4 8)) (be_get (slice d 8 12)) (slice d 24 36) proto port
           (be_get (slice d 42 44)) (Addr4 (slice d 56 60)).
Proof.
  unfold parseMapResponse, HeaderSize, MapPayloadSize. intros H Hz. guards H. bool_prop.
  rewrite !slice_of_drop, byte_at_drop in H. cbn [Nat.add] in H.
  destruct (negb (rs_ResultCode _ =? _)) eqn:E4; [injection H as <-; bool_prop; done|].
  guards H. bool_prop. destruct (mappedToV4 _) as [a|] eqn:Em; [|discriminate]. guards H. bool_prop.
  apply mappedToV4_ok in Em as ->. rewrite slice_of_slice in H by lia. cbn [Nat.add] in H.
  apply (f_equal (ok_or rs)) in H. cbn [ok_or] in H. rewrite E4, E5, E6 in H.
  subst rs. by repeat split.
Qed.

Lemma seconds_in_range (v : Z) : in_u32 v → in_i64 (v * Second).
Proof. unfold in_u32, in_i64, Second. lia. Qed.

(** The mapping a success datagram stands for. *)
Definition granted (req : MapRequest) (nonce : bytes) (c : EpochState) (d : bytes) : MapResult :=
  let epoch := be_get (slice d 8 12) in
  mkMapResult nonce (mr_Protocol req) (mr_InternalAddress req) (mr_InternalPort req)
    (be_get (slice d 42 44)) (Addr4 (slice d 56 60)) (be_get (slice d 4 8) * Second) epoch
    (bool_decide (sawEpoch c = true ∧ epoch < lastEpoch c - 2)).

(** The datagrams that prove ownership of a mapping. *)
Definition ownership_proof (req : MapRequest) (nonce d : bytes) : Prop :=
  length d = 60%nat ∧ byte_at d 0 = 2 ∧ byte_at d 1 = 0x81 ∧ byte_at d 3 = 0
  ∧ slice d 24 36 = nonce ∧ byte_at d 36 = mr_Protocol req ∧ be_get (slice d 40 42) = mr_InternalPort req.

Lemma classifyMap_ok (req : MapRequest) (nonce : bytes) (c : EpochState) (d : bytes) (r : MapResult) (c' : EpochState) :
  classifyMap req nonce c d = (Definitive (Ok r), c') →
  ownership_proof req nonce d ∧ r = granted req nonce c d ∧ c' = mkEpoch (be_get (slice d 8 12)) true.
Proof.
  unfold classifyMap. destruct (parseMapResponse _ _ _) as [rs|] eqn:Ep; [|discriminate].
  destruct (negb (rs_ResultCode rs =? _)) eqn:Ez.
  { destruct (classify_failure _) as [x|] eqn:Ef; [|discriminate].
    apply classify_failure_retry in Ef as [e ->]. discriminate. }
  destruct (negb (bytes_eqb _ _)) eqn:En; [discriminate|]. bool_prop.
  destruct (parseMapResponse_success _ _ _ _ Ep Ez) as (? & ? & ? & ? & ? & ? & ->). cbn in En.
  intros Hr. injection Hr as <- <-. split; [by repeat split|]. split; [|done].
  unfold granted. rewrite <- observeEpoch_bool, <- En. cbn.
  by rewrite wrap_i64_small by (apply seconds_in_range, (be_get_slice_u32 d 4)).
Qed.

(** ** A reference gateway

    It answers a request by echoing the nonce, protocol and internal port it finds in
    the packet, with a lifetime, its epoch and the external endpoint. *)

Record grant : Type := mkGrant { g_lifetime : Z; g_epoch : Z; g_port : Z; g_addr : bytes }.

Definition grant_ok (g : grant) : Prop :=
  in_u32 (g_lifetime g) ∧ in_u32 (g_epoch g) ∧ in_u16 (g_port g) ∧ length (g_addr g) = 4%nat.

Definition gateway_reply (request : bytes) (g : grant) : bytes :=
  [Byte.x02; Byte.x81; Byte.x00; Byte.x00] ++ be_put 4 (g_lifetime g) ++ be_put 4 (g_epoch g) ++ repeat Byte.x00 12
  ++ slice request 24 42 ++ be_put 2 (g_port g) ++ v4Mapped (Addr4 (g_addr g)).

(** A request whose fields fit their wire widths. *)
Definition request_ok (req : MapRequest) (nonce : bytes) : Prop :=
  length nonce = 12%nat ∧ 0 ≤ mr_Protocol req < 256 ∧ in_u16 (mr_InternalPort req)
  ∧ in_u16 (mr_SuggestedExternalPort req) ∧ (∀ a, mr_InternalAddress req = Addr4 a → length a = 4%nat).

(** What every accepted request carries on the wire. *)
Lemma buildMapRequest_fields (req : MapRequest) (nonce p : bytes) :
  request_ok req nonce → buildMapRequest req nonce = Ok p →
  slice p 4 8 = be_put 4 (Z.quot (mr_Lifetime req) Second)
  ∧ slice p 8 24 = v4Mapped (mr_InternalAddress req)
  ∧ slice p 24 42 = nonce ++ [u8 (mr_Protocol req); Byte.x00; Byte.x00; Byte.x00] ++ be_put 2 (mr_InternalPort req)
  ∧ slice p 42 44 = be_put 2 (mr_SuggestedExternalPort req)
  ∧ (mr_Protocol req = ProtoTCP ∨ mr_Protocol req = ProtoUDP)
  ∧ 0 ≤ mr_Lifetime req ∧ in_u32 (Z.quot (mr_Lifetime req) Second)
  ∧ length p = if mr_PreferFailure req then 64%nat else 60%nat.
Proof.
  intros (Hn & Hp & Hi & He & Ha) H. unfold buildMapRequest in H. guards H. bool_prop.
  assert (Hmap : length (v4Mapped (mr_InternalAddress req)) = 16%nat).
  { destruct (mr_InternalAddress req) as [|a|a] eqn:Ea; try discriminate. apply length_v4Mapped. by apply Ha. }
  set (tail := if mr_PreferFailure req then [u8 OptionPreferFailure; Byte.x00; Byte.x00; Byte.x00] else []).
  assert (Hpk : p = [u8 Version; u8 (Z.lor RequestFlag OpCodeMap); Byte.x00; Byte.x00]
    ++ be_put 4 (Z.quot (mr_Lifetime req) Second) ++ v4Mapped (mr_InternalAddress req)
    ++ (nonce ++ [u8 (mr_Protocol req); Byte.x00; Byte.x00; Byte.x00] ++ be_put 2 (mr_InternalPort req))
    ++ be_put 2 (mr_SuggestedExternalPort req) ++ repeat Byte.x00 16 ++ tail).
  { apply (f_equal (ok_or [])) in H. cbn [ok_or] in H. rewrite <- H. unfold tail.
    destruct (mr_PreferFailure req); rewrite <- !(assoc_L (++)); [done|]. by rewrite (right_id_L [] (++)). }
  clear H. set (hd := [u8 Version; _; _; _]) in *. assert (Hh : length hd = 4%nat) by done. clearbody hd.
  assert (Hpn : length (nonce ++ [u8 (mr_Protocol req); Byte.x00; Byte.x00; Byte.x00] ++ be_put 2 (mr_InternalPort req)) = 18%nat)
    by (rewrite !length_app, length_be_put, Hn; done).
  set (mid := nonce ++ _) in *.
  assert (Ht : length tail = if mr_PreferFailure req then 4%nat else 0%nat) by (unfold tail; by destruct (mr_PreferFailure req)).
  split_and!.
  - subst p. by slice_field.
  - subst p. by slice_field.
  - subst p. by slice_field.
  - subst p. by slice_field.
  - destruct (mr_Protocol req =? ProtoTCP) eqn:E3; bool_prop; [by left|].
    destruct (mr_Protocol req =? ProtoUDP) eqn:E4; bool_prop; [by right|done].
  - lia.
  - split; [apply Z.quot_pos; unfold Second; lia|lia].
  - subst p. rewrite !length_app, !length_be_put, Hh, Hmap, Hpn, Ht, repeat_length. by destruct (mr_PreferFailure req).
Qed.

(** The slices of a reply to a well-formed request. *)
Lemma gateway_reply_fields (req : MapRequest) (nonce p : bytes) (g : grant) :
  request_ok req nonce → buildMapRequest req nonce = Ok p → grant_ok g →
  let d := gateway_reply p g in
  length d = 60%nat ∧ be_get (slice d 4 8) = g_lifetime g ∧ be_get (slice d 8 12) = g_epoch g
  ∧ slice d 24 36 = nonce ∧ byte_at d 36 = mr_Protocol req ∧ be_get (slice d 40 42) = mr_InternalPort req
  ∧ be_get (slice d 42 44) = g_port g ∧ slice d 44 60 = v4Mapped (Addr4 (g_addr g)).
Proof.
  intros Hr Hb (Hl & He & Hg & Ha).
  destruct (buildMapRequest_fields _ _ _ Hr Hb) as (_ & _ & Hm & _). destruct Hr as (Hn & Hp & Hi & _).
  unfold gateway_reply. rewrite Hm. cbv zeta.
  set (hd := [Byte.x02; _; _; _]). set (z := repeat Byte.x00 12). set (rsv := [u8 (mr_Protocol req); _; _; _]).
  assert (Hh : length hd = 4%nat) by done. assert (Hz : length z = 12%nat) by done.
  assert (Hrv : length rsv = 4%nat) by done.
  assert (H36 : slice rsv 0 1 = [u8 (mr_Protocol req)]) by done.
  assert (Hv : length (v4Mapped (Addr4 (g_addr g))) = 16%nat) by by apply length_v4Mapped.
  clearbody hd z rsv. set (m := v4Mapped (Addr4 (g_addr g))) in *. clearbody m.
  rewrite <- !(assoc_L (++)).
  split_and!.
  - rewrite !length_app, !length_be_put. lia.
  - slice_field. by apply be_get_u32.
  - slice_field. by apply be_get_u32.
  - by slice_field.
  - unfold byte_at. repeat rewrite slice_skip by (rewrite ?length_be_put; lia).
    rewrite !length_be_put, Hh, Hz, Hn. cbn [Nat.sub].
    rewrite slice_within by lia. rewrite H36, be_get_one, b2z_u8, Z.mod_small by lia. done.
  - slice_field. by apply be_get_u16.
  - slice_field. by apply be_get_u16.
  - by slice_field.
Qed.

(** The mapping a grant answers a request with. *)
Definition grant_result (req : MapRequest) (nonce : bytes) (c : EpochState) (g : grant) : MapResult :=
  mkMapResult nonce (mr_Protocol req) (mr_InternalAddress req) (mr_InternalPort req) (g_port g) (Addr4 (g_addr g))
    (g_lifetime g * Second) (g_epoch g) (bool_decide (sawEpoch c = true ∧ g_epoch g < lastEpoch c - 2)).

Lemma parse_gateway_reply (req : MapRequest) (nonce p : bytes) (g : grant) :
  request_ok req nonce → buildMapRequest req nonce = Ok p → grant_ok g →
  parseMapResponse (gateway_reply p g) (mr_Protocol req) (mr_InternalPort req)
  = Ok (mkMapResponse 0 (g_lifetime g) (g_epoch g) nonce (mr_Protocol req) (mr_InternalPort req) (g_port g) (Addr4 (g_addr g))).
Proof.
  intros Hr Hb Hg. destruct (gateway_reply_fields _ _ _ _ Hr Hb Hg) as (Hlen & Hl & He & Hn & Hp & Hi & Hgp & Hga).
  assert (H0 : byte_at (gateway_reply p g) 0 = 2) by done.
  assert (H1 : byte_at (gateway_reply p g) 1 = 129) by done.
  assert (H3 : byte_at (gateway_reply p g) 3 = 0) by done.
  set (d := gateway_reply p g) in *. clearbody d.
  unfold parseMapResponse, response_header, HeaderSize, MapPayloadSize.
  rewrite (bool_decide_eq_false_2 (length d < 24)%nat) by lia.
  rewrite !slice_of_drop, byte_at_drop. cbn [Nat.add]. rewrite H0, H1, H3, Hp, Hi, Hgp, Hga, Hl, He, Hn.
  unfold zlen. rewrite Hlen. rewrite mappedToV4_v4Mapped by apply Hg. rewrite !Z.eqb_refl.
  by rewrite bool_decide_eq_true_2.
Qed.

Lemma classifyMap_reply (req : MapRequest) (nonce p : bytes) (g : grant) (c : EpochState) :
  request_ok req nonce → buildMapRequest req nonce = Ok p → grant_ok g →
  classifyMap req nonce c (gateway_reply p g)
  = (Definitive (Ok (grant_result req nonce c g)), mkEpoch (g_epoch g) true).
Proof.
  intros Hr Hb Hg. unfold classifyMap. rewrite (parse_gateway_reply _ _ _ _ Hr Hb Hg). cbn [rs_ResultCode rs_Nonce].
  unfold bytes_eqb. rewrite bool_decide_eq_true_2 by done. cbn.
  unfold grant_result. rewrite <- observeEpoch_bool.
  by rewrite wrap_i64_small by (apply seconds_in_range, Hg).
Qed.

(** ** Properties *)

(** C32: a mapping is only reported when, in one of at most [MaxAttempts] attempts, the
    configured server sent a datagram of exactly 60 bytes that is a PCPv2 MAP success
    response and echoes this transaction's nonce, protocol and internal port; the
    reported external endpoint, lifetime (without overflow) and epoch are that
    datagram's, a reboot is reported exactly when the epoch fell more than two seconds
    behind the last one, and every packet sent was the one encoded request, once per
    attempt. *)
Theorem pcp_success_proves_ownership (c : Client) (req : MapRequest) (nonce : bytes) (net : net_env)
    (r : MapResult) (st : EpochState) (sent : list bytes) :
  transaction c req nonce net = (Ok r, st, sent) →
  ∃ p k from d, buildMapRequest req nonce = Ok p ∧ (1 ≤ k ≤ c_MaxAttempts c)%nat ∧ sent = repeat p k
    ∧ Datagram from d ∈ env_reads (net_attempt net k) ∧ addrPortOf from = Some (c_server c)
    ∧ ownership_proof req nonce d ∧ r = granted req nonce (c_epoch c) d
    ∧ in_i64 (res_Lifetime r) ∧ st = mkEpoch (res_Epoch r) true.
Proof.
  unfold transaction, run_attempts. destruct (buildMapRequest req nonce) as [p|] eqn:Eb; [|discriminate].
  destruct (attempts _ _ _ _ _ _ _) as [[r' st'] n] eqn:Ea. intros H. injection H as -> -> <-.
  apply attempts_ok in Ea as (k & from & d & Hk & Hn & Hin & Hf & Hc); [|apply classifyMap_retry_pure].
  apply classifyMap_ok in Hc as (Hown & -> & ->).
  assert (Hd : take 1500 d = d).
  { destruct Hown as [Hl _]. rewrite length_take in Hl. apply take_ge. lia. }
  rewrite Hd in *. exists p, k, from, d. subst n. replace (0 + S (k - 1))%nat with k by lia.
  split_and!; try done; try lia. all: cbn; apply seconds_in_range, (be_get_slice_u32 d 4).
Qed.

(** The exchange completes: when the gateway answers the sent packet with a grant
    before the attempt budget runs out, whatever other hosts send and however many
    attempts time out before, the transaction returns exactly the granted mapping with
    the caller's nonce, and sends one packet per attempt made. *)
Theorem pcp_exchange_completes (c : Client) (req : MapRequest) (nonce p : bytes) (g : grant) (net : net_env)
    (skip : nat) (noise rest : list read_event) (from : NetAddr) :
  request_ok req nonce → buildMapRequest req nonce = Ok p → grant_ok g →
  (skip < c_MaxAttempts c)%nat → addrPortOf from = Some (c_server c) →
  (∀ k, (1 ≤ k ≤ S skip)%nat → env_ctx_done (net_attempt net k) = false ∧ env_send_error (net_attempt net k) = false
     ∧ env_backoff_cancelled (net_attempt net k) = false) →
  (∀ k, (1 ≤ k ≤ skip)%nat → Forall (unanswered (c_server c)) (env_reads (net_attempt net k))) →
  env_reads (net_attempt net (S skip)) = noise ++ Datagram from (gateway_reply p g) :: rest →
  Forall (foreign (c_server c)) noise →
  transaction c req nonce net
  = (Ok (grant_result req nonce (c_epoch c) g), mkEpoch (g_epoch g) true, repeat p (S skip)).
Proof.
  intros Hr Hb Hg Hs Hf Henv Hq Hread Hnoise. unfold transaction, run_attempts. rewrite Hb.
  destruct (gateway_reply_fields _ _ _ _ Hr Hb Hg) as [Hlen _].
  erewrite (attempts_answer (c_server c) (classifyMap req nonce) (classifyMap_retry_pure req nonce) skip);
    [|done|intros k Hk; apply Henv; lia| |].
  - done.
  - intros k Hk. by rewrite await_unanswered by (apply Hq; lia).
  - cbn [Nat.add]. rewrite Hread, await_foreign by done. cbn [await]. rewrite bool_decide_eq_true_2 by done.
    rewrite take_ge by lia. by rewrite (classifyMap_reply _ _ _ _ _ Hr Hb Hg).
Qed.

Lemma run_attempts_sent {A} (c : Client) (pk : result PcpError bytes)
    (classify : EpochState → bytes → outcome (result PcpError A) * EpochState) (net : net_env) (q : bytes) :
  (q ∈ (run_attempts c pk classify net).2 → pk = Ok q)
  ∧ (length (run_attempts c pk classify net).2 ≤ c_MaxAttempts c)%nat.
Proof.
  unfold run_attempts. destruct pk as [p|e]; [|split; [cbn; set_solver|cbn; lia]].
  pose proof (attempts_sent (c_server c) classify (c_MaxAttempts c) 1 net (c_epoch c) 0) as Hs.
  destruct (attempts _ _ _ _ _ _ _) as [[r st] n]. cbn in *. rewrite repeat_length. split; [|lia].
  intros H. apply list_elem_of_In, repeat_spec in H. by subst.
Qed.

(** The wire fields of a renewal or deletion. *)
Lemma renew_request_fields (m : MapResult) (lifetime : Z) :
  request_ok (renew_request m lifetime) (res_Nonce m) →
  ∀ l q, buildMapRequest (renew_request m l) (res_Nonce m) = Ok q →
  (slice q 24 36 = res_Nonce m ∧ slice q 36 37 = [u8 (res_Protocol m)]
   ∧ slice q 40 42 = be_put 2 (res_InternalPort m) ∧ slice q 42 44 = be_put 2 (res_AssignedExternalPort m))
  ∧ be_get (slice q 4 8) = l / Second ∧ 0 ≤ l.
Proof.
  intros Hr l q Hb. assert (Hrl : request_ok (renew_request m l) (res_Nonce m)) by exact Hr.
  destruct (buildMapRequest_fields _ _ _ Hrl Hb) as (Hl & _ & Hm & Hx & _ & Hpos & Hu & _).
  cbn [renew_request mr_Protocol mr_InternalPort mr_SuggestedExternalPort mr_Lifetime] in Hl, Hm, Hx, Hpos, Hu.
  assert (Hsub : ∀ i j, (j ≤ 18)%nat → slice q (24 + i) (24 + j) = slice (slice q 24 42) i j)
    by (intros; by rewrite slice_of_slice by lia).
  destruct Hr as (Hn & _). rewrite Hm in Hsub. repeat split; try done.
  - change (slice q 24 36) with (slice q (24 + 0) (24 + 12)). rewrite Hsub by lia. by slice_field.
  - change (slice q 36 37) with (slice q (24 + 12) (24 + 13)). rewrite Hsub by lia. rewrite slice_skip by lia. by rewrite Hn.
  - change (slice q 40 42) with (slice q (24 + 16) (24 + 18)). rewrite Hsub by lia. rewrite slice_skip, Hn by lia. cbn [Nat.sub].
    exact (slice_all (be_put 2 (res_InternalPort m)) 0 2 eq_refl eq_refl).
  - rewrite Hl, be_get_u32 by done. apply Z.quot_div_nonneg; unfold Second; lia.
Qed.

(** The nonce is the only authority: every packet that [Renew] or [Delete] sends
    carries the mapping's own nonce, protocol, internal port and assigned external port,
    with the requested lifetime in whole seconds, zero for [Delete]; at most
    [MaxAttempts] packets are sent; and without an exact internal port nothing is sent. *)
Theorem pcp_renew_delete_authority (c : Client) (m : MapResult) (lifetime : Z) (net : net_env) :
  request_ok (renew_request m lifetime) (res_Nonce m) →
  (∀ q, q ∈ (Renew c m lifetime net).2 ++ (Delete c m net).2 →
     slice q 24 36 = res_Nonce m ∧ slice q 36 37 = [u8 (res_Protocol m)]
     ∧ slice q 40 42 = be_put 2 (res_InternalPort m) ∧ slice q 42 44 = be_put 2 (res_AssignedExternalPort m))
  ∧ (∀ q, q ∈ (Renew c m lifetime net).2 → be_get (slice q 4 8) = lifetime / Second ∧ 0 ≤ lifetime)
  ∧ (∀ q, q ∈ (Delete c m net).2 → be_get (slice q 4 8) = 0)
  ∧ (length (Renew c m lifetime net).2 ≤ c_MaxAttempts c)%nat ∧ (length (Delete c m net).2 ≤ c_MaxAttempts c)%nat
  ∧ (res_InternalPort m = 0 → (Renew c m lifetime net).2 = [] ∧ (Delete c m net).2 = []).
Proof.
  intros Hr. assert (Hr0 : request_ok (renew_request m 0) (res_Nonce m)) by exact Hr.
  pose proof (renew_request_fields m lifetime Hr) as Hfields.
  unfold Renew, Delete, transaction.
  pose proof (run_attempts_sent c (buildMapRequest (renew_request m lifetime) (res_Nonce m))
    (classifyMap (renew_request m lifetime) (res_Nonce m)) net) as HR.
  pose proof (run_attempts_sent c (buildMapRequest (renew_request m 0) (res_Nonce m))
    (classifyMap (renew_request m 0) (res_Nonce m)) net) as HD.
  destruct (res_InternalPort m =? 0) eqn:Ez; bool_prop.
  - cbn. split_and!; try lia; try done; intros q Hq; set_solver.
  - split_and!; [| | |apply (HR [])|apply (HD [])|done].
    + intros q [Hq|Hq]%elem_of_app; [eapply (Hfields lifetime), HR|eapply (Hfields 0), HD]; done.
    + intros q Hq. apply Hfields, HR, Hq.
    + intros q Hq. destruct (Hfields 0 q) as (_ & -> & _); [by apply HD|done].
Qed.

(** ** Witnesses: a gateway that answers the second attempt, after a stray datagram *)

Definition w_server : AddrPort := (Addr4 [u8 192; u8 168; u8 1; u8 1], 5351).
Definition w_from : NetAddr := Some ([u8 192; u8 168; u8 1; u8 1], 5351).
Definition w_stray : NetAddr := Some ([u8 10; u8 9; u8 9; u8 9], 5351).
Definition w_client : Client := NewClient w_server 0 1000 true.
Definition w_req : MapRequest := mkMapRequest ProtoTCP (Addr4 [u8 10; u8 0; u8 0; u8 2]) 8080 8080 (7200 * Second) true.
Definition w_nonce : bytes := repeat Byte.x07 12.
Definition w_packet : bytes := ok_or [] (buildMapRequest w_req w_nonce).
Definition w_grant : grant := mkGrant 3600 900 8080 [u8 8; u8 8; u8 4; u8 4].
Definition w_net : net_env :=
  mkNet (λ k, match k with
    | 1%nat => mkAttempt false false [Datagram w_stray [Byte.x00]; ReadError] false
    | _ => mkAttempt false false [Datagram w_stray [Byte.x01]; Datagram w_from (gateway_reply w_packet w_grant)] false
    end) false.
Definition w_result : MapResult := grant_result w_req w_nonce (c_epoch w_client) w_grant.

Lemma w_request_ok : request_ok w_req w_nonce.
Proof. split_and!; try done. intros a Ha. by injection Ha as <-. Qed.

Lemma w_foreign : addrPortOf w_stray ≠ Some w_server.
Proof. by vm_compute. Qed.

Lemma pcp_exchange_completes_witness :
  transaction w_client w_req w_nonce w_net
  = (Ok (grant_result w_req w_nonce (c_epoch w_client) w_grant), mkEpoch 900 true, repeat w_packet 2).
Proof.
  refine (pcp_exchange_completes w_client w_req w_nonce w_packet w_grant w_net 1
    [Datagram w_stray [Byte.x01]] [] w_from w_request_ok _ _ _ _ _ _ _ _).
  - vm_compute. reflexivity.
  - split_and!; done.
  - cbn. lia.
  - vm_compute. reflexivity.
  - intros k Hk. destruct k as [|[|[|k]]]; [lia|done|done|lia].
  - intros k Hk. destruct k as [|[|k]]; [lia| |lia].
    apply List.Forall_cons; [left; exact w_foreign|]. apply List.Forall_cons; [by right|apply List.Forall_nil].
  - reflexivity.
  - apply List.Forall_cons; [exact w_foreign|apply List.Forall_nil].
Defined.

Lemma pcp_success_proves_ownership_witness :
  ∃ p k from d, buildMapRequest w_req w_nonce = Ok p ∧ (1 ≤ k ≤ 3)%nat ∧ repeat w_packet 2 = repeat p k
    ∧ Datagram from d ∈ env_reads (net_attempt w_net k) ∧ addrPortOf from = Some w_server
    ∧ ownership_proof w_req w_nonce d ∧ w_result = granted w_req w_nonce (c_epoch w_client) d
    ∧ in_i64 (res_Lifetime w_result) ∧ mkEpoch 900 true = mkEpoch (res_Epoch w_result) true.
Proof.
  refine (pcp_success_proves_ownership w_client w_req w_nonce w_net w_result (mkEpoch 900 true) (repeat w_packet 2) _).
  vm_compute. reflexivity.
Defined.

Lemma pcp_renew_delete_authority_witness :
  be_get (slice (hd [] (Delete w_client w_result w_net).2) 4 8) = 0
  ∧ (length (Renew w_client w_result (60 * Second) w_net).2 ≤ 3)%nat.
Proof.
  assert (H : request_ok (renew_request w_result (60 * Second)) (res_Nonce w_result)).
  { split_and!; try done. intros a Ha. by injection Ha as <-. }
  destruct (pcp_renew_delete_authority w_client w_result (60 * Second) w_net H) as (_ & _ & Hd & Hl & _).
  split; [|exact Hl]. apply Hd. vm_compute. left.
Defined.
