(* ===== verification/Natpmp.v ===== *)
(** * NAT-PMP ([src/internal/traversal/natpmp/natpmp.go], [client.go])

    The RFC 6886 codec and the client over the transaction loop of Gateway.v.
    NAT-PMP has no nonce: a mapping is owned through its exact internal port and
    its lease. *)

From Stdlib Require Import ZArith Lia Strings.Byte.
From stdpp Require Import base tactics list sets strings option.
From S2P Require Import Prelude Gateway.

Open Scope Z_scope.

Definition Version : Z := 0.
Definition OpPublicAddress : Z := 0.
Definition ResponseOpBase : Z := 128.
Definition ResponseSize : nat := 16.
Definition PublicResponseSize : nat := 12.
Definition ResultSuccess : Z := 0.
Definition Second : Z := 1000000000.

Inductive NatpmpError : Type :=
  | ErrTruncated | ErrWrongVersion | ErrWrongOpcode | ErrInternalPort | ErrBadPublicAddress | ETrailing | EMapProtocol
  | ErrUnsupportedVersion | ErrNotAuthorized | ErrNetworkFailure | ErrOutOfResources | ErrUnsupportedOpcode
  | EFailure (code : Z) | ErrUnownedMapping.

Definition resultErrors (code : Z) : option NatpmpError :=
  match code with
  | 1 => Some ErrUnsupportedVersion
  | 2 => Some ErrNotAuthorized
  | 3 => Some ErrNetworkFailure
  | 4 => Some ErrOutOfResources
  | 5 => Some ErrUnsupportedOpcode
  | _ => None
  end.

(** [Protocol] is a byte: 1 is UDP, 2 is TCP. *)
Definition ProtocolUDP : Z := 1.
Definition ProtocolTCP : Z := 2.

Definition Protocol_Valid (p : Z) : bool := (p =? ProtocolUDP) || (p =? ProtocolTCP).

Definition opcode (p : Z) : Z :=
  if p =? ProtocolUDP then 1 else if p =? ProtocolTCP then 2 else 0.

Record MapRequest : Type := mkMapRequest {
  mr_Protocol : Z;
  mr_InternalPort : Z;
  mr_RequestedExternalPort : Z;
  mr_Lifetime : Z
}.

Record MapResult : Type := mkMapResult {
  res_Protocol : Z;
  res_InternalPort : Z;
  res_AssignedExternalPort : Z;
  res_Lifetime : Z;
  res_Epoch : Z;
  res_ServerRebooted : bool
}.

(** ** Codec *)

Definition byte_at (b : bytes) (i : nat) : Z := be_get (slice b i (S i)).

(** [uint32(req.Lifetime/time.Second)] keeps the low 32 bits, which [be_put 4] writes. *)
Definition buildMapRequest (req : MapRequest) : result NatpmpError bytes :=
  fail_if negb (Protocol_Valid (mr_Protocol req)) with EMapProtocol ;;
  Ok ([u8 Version; u8 (opcode (mr_Protocol req)); Byte.x00; Byte.x00]
      ++ be_put 2 (mr_InternalPort req) ++ be_put 2 (mr_RequestedExternalPort req)
      ++ be_put 4 (Z.quot (mr_Lifetime req) Second)).

Record mapResponse : Type := mkMapResponse {
  rs_ResultCode : Z;
  rs_Epoch : Z;
  rs_InternalPort : Z;
  rs_AssignedExternalPort : Z;
  rs_LifetimeSeconds : Z
}.

Definition parseMapResponse (packet : bytes) (wantOpcode wantInternalPort : Z) : result NatpmpError mapResponse :=
  fail_if bool_decide (length packet < ResponseSize)%nat with ErrTruncated ;;
  fail_if negb (byte_at packet 0 =? Version) with ErrWrongVersion ;;
  fail_if negb (byte_at packet 1 =? (wantOpcode + ResponseOpBase) mod 256) with ErrWrongOpcode ;;
  let response := mkMapResponse (be_get (slice packet 2 4)) (be_get (slice packet 4 8)) (be_get (slice packet 8 10))
    (be_get (slice packet 10 12)) (be_get (slice packet 12 16)) in
  fail_if negb (bool_decide (length packet = ResponseSize)) with ETrailing ;;
  fail_if (rs_ResultCode response =? ResultSuccess) && negb (rs_InternalPort response =? wantInternalPort)
    with ErrInternalPort ;;
  Ok response.

Record publicResponse : Type := mkPublicResponse { pr_ResultCode : Z; pr_Epoch : Z; pr_Address : Addr }.

Definition parsePublicResponse (packet : bytes) : result NatpmpError publicResponse :=
  fail_if bool_decide (length packet < PublicResponseSize)%nat with ErrTruncated ;;
  fail_if negb (byte_at packet 0 =? Version) with ErrWrongVersion ;;
  fail_if negb (byte_at packet 1 =? (OpPublicAddress + ResponseOpBase) mod 256) with ErrWrongOpcode ;;
  fail_if negb (bool_decide (length packet = PublicResponseSize)) with ETrailing ;;
  match AddrFromSlice (slice packet 8 12) with
  | Some (Addr4 a) => Ok (mkPublicResponse (be_get (slice packet 2 4)) (be_get (slice packet 4 8)) (Addr4 a))
  | _ => Err ErrBadPublicAddress
  end.

(** ** Client *)

(** Every result code but success is definitive. *)
Definition result_failure (code : Z) : NatpmpError :=
  match resultErrors code with Some sentinel => sentinel | None => EFailure code end.

(** The body of the [awaitMap] loop on one datagram of the server. *)
Definition classifyMap (req : MapRequest) (c : EpochState) (packet : bytes)
    : outcome (result NatpmpError MapResult) * EpochState :=
  match parseMapResponse packet (opcode (mr_Protocol req)) (mr_InternalPort req) with
  | Err e => (Definitive (Err e), c)
  | Ok response =>
      if negb (rs_ResultCode response =? ResultSuccess) then (Definitive (Err (result_failure (rs_ResultCode response))), c)
      else
        let '(reboot, c') := observeEpoch c (rs_Epoch response) in
        (Definitive (Ok (mkMapResult (mr_Protocol req) (mr_InternalPort req) (rs_AssignedExternalPort response)
           (wrap_i64 (rs_LifetimeSeconds response * Second)) (rs_Epoch response) reboot)), c')
  end.

(** The body of the [awaitPublic] loop. *)
Definition classifyPublic (c : EpochState) (packet : bytes) : outcome (result NatpmpError (Addr * Z)) * EpochState :=
  match parsePublicResponse packet with
  | Err e => (Definitive (Err e), c)
  | Ok response =>
      if negb (pr_ResultCode response =? ResultSuccess) then (Definitive (Err (result_failure (pr_ResultCode response))), c)
      else (Definitive (Ok (pr_Address response, pr_Epoch response)), (observeEpoch c (pr_Epoch response)).2)
  end.

Record Client : Type := mkClient { c_server : AddrPort; c_MaxAttempts : nat; c_epoch : EpochState }.

Definition NewClient (server : AddrPort) (MaxAttempts EpochBaseline : Z) (EpochSeen : bool) : Client :=
  mkClient server (effective_attempts MaxAttempts) (mkEpoch EpochBaseline EpochSeen).

Definition call (A : Type) : Type := result (TransportError NatpmpError) A * EpochState * list bytes.

Definition run_attempts {A} (c : Client) (packet : result NatpmpError bytes)
    (classify : EpochState → bytes → outcome (result NatpmpError A) * EpochState) (net : net_env) : call A :=
  match packet with
  | Err e => (Err (ErrProto e), c_epoch c, [])
  | Ok p =>
      let '(r, st, sent) := attempts (c_server c) classify (c_MaxAttempts c) 1 net (c_epoch c) 0 in
      (r, st, repeat p sent)
  end.

Definition transaction (c : Client) (req : MapRequest) (net : net_env) : call MapResult :=
  run_attempts c (buildMapRequest req) (classifyMap req) net.

Definition PublicAddress (c : Client) (net : net_env) : call (Addr * Z) :=
  run_attempts c (Ok [u8 Version; u8 OpPublicAddress; Byte.x00; Byte.x00]) classifyPublic net.

Definition Map (c : Client) (req : MapRequest) (net : net_env) : call MapResult := transaction c req net.

Definition Renew (c : Client) (m : MapResult) (lifetime : Z) (net : net_env) : call MapResult :=
  if res_InternalPort m =? 0 then (Err (ErrProto ErrUnownedMapping), c_epoch c, [])
  else transaction c (mkMapRequest (res_Protocol m) (res_InternalPort m) (res_AssignedExternalPort m) lifetime) net.

Definition Delete (c : Client) (m : MapResult) (net : net_env) : call MapResult :=
  if res_InternalPort m =? 0 then (Err (ErrProto ErrUnownedMapping), c_epoch c, [])
  else transaction c (mkMapRequest (res_Protocol m) (res_InternalPort m) 0 0) net.

(** ** Lemmas *)

Lemma natpmp_retry_pure (req : MapRequest) : retry_pure (classifyMap req).
Proof.
  intros c d c' H. unfold classifyMap in H. destruct (parseMapResponse _ _ _); [|discriminate].
  destruct (negb _); discriminate.
Qed.

Lemma natpmp_seconds_in_range (v : Z) : in_u32 v → in_i64 (v * Second).
Proof. unfold in_u32, in_i64, Second. lia. Qed.

(** The datagrams that confirm a lease, and the lease they stand for. *)
Definition lease_proof (req : MapRequest) (d : bytes) : Prop :=
  length d = 16%nat ∧ byte_at d 0 = 0 ∧ byte_at d 1 = opcode (mr_Protocol req) + 128
  ∧ be_get (slice d 2 4) = 0 ∧ be_get (slice d 8 10) = mr_InternalPort req.

Definition granted (req : MapRequest) (c : EpochState) (d : bytes) : MapResult :=
  let epoch := be_get (slice d 4 8) in
  mkMapResult (mr_Protocol req) (mr_InternalPort req) (be_get (slice d 10 12)) (be_get (slice d 12 16) * Second) epoch
    (bool_decide (sawEpoch c = true ∧ epoch < lastEpoch c - 2)).

Lemma opcode_range (p : Z) : 0 ≤ opcode p ≤ 2.
Proof. unfold opcode. go_cases; lia. Qed.

Lemma classifyMap_ok_iff (req : MapRequest) (c : EpochState) (d : bytes) (r : MapResult) (c' : EpochState) :
  classifyMap req c d = (Definitive (Ok r), c')
  ↔ lease_proof req d ∧ r = granted req c d ∧ c' = mkEpoch (be_get (slice d 4 8)) true.
Proof.
  pose proof (opcode_range (mr_Protocol req)) as Ho.
  assert (Hlife : wrap_i64 (be_get (slice d 12 16) * Second) = be_get (slice d 12 16) * Second)
    by (apply wrap_i64_small, natpmp_seconds_in_range, (be_get_slice_u32 d 12)).
  unfold classifyMap, parseMapResponse, lease_proof, granted, ResponseOpBase, ResponseSize, Version, ResultSuccess.
  rewrite (Z.mod_small (_ + _)) by lia. rewrite <- observeEpoch_bool. split.
  - destruct (if bool_decide _ then _ else _) as [rs|] eqn:Ep; [|discriminate].
    guards Ep. apply (f_equal (ok_or rs)) in Ep. cbn [ok_or] in Ep. subst rs. cbn [rs_ResultCode rs_InternalPort] in *.
    destruct (negb (be_get (slice d 2 4) =? 0)) eqn:Ez; [discriminate|]. bool_prop. rewrite Ez in *.
    cbn in E3. bool_prop. cbn [observeEpoch rs_LifetimeSeconds rs_Epoch rs_AssignedExternalPort]. rewrite Hlife.
    intros H. by simplify_eq.
  - intros ((Hl & H0 & H1 & H2 & H3) & -> & ->). rewrite bool_decide_eq_false_2 by lia.
    rewrite H0, H1, !Z.eqb_refl, bool_decide_eq_true_2 by done. cbn [negb rs_ResultCode rs_InternalPort Z.eqb].
    rewrite H2, H3, !Z.eqb_refl. cbn -[wrap_i64 slice be_get Z.mul Second].
    by rewrite Hlife.
Qed.

(** ** A reference gateway: it grants the internal port it finds in the request. *)

Record grant : Type := mkGrant { g_lifetime : Z; g_epoch : Z; g_port : Z }.

Definition grant_ok (g : grant) : Prop := in_u32 (g_lifetime g) ∧ in_u32 (g_epoch g) ∧ in_u16 (g_port g).

Definition gateway_reply (request : bytes) (g : grant) : bytes :=
  [Byte.x00; u8 (byte_at request 1 + 128); Byte.x00; Byte.x00] ++ be_put 4 (g_epoch g)
  ++ slice request 4 6 ++ be_put 2 (g_port g) ++ be_put 4 (g_lifetime g).

Definition grant_result (req : MapRequest) (c : EpochState) (g : grant) : MapResult :=
  mkMapResult (mr_Protocol req) (mr_InternalPort req) (g_port g) (g_lifetime g * Second) (g_epoch g)
    (bool_decide (sawEpoch c = true ∧ g_epoch g < lastEpoch c - 2)).

Lemma natpmp_request_fields (req : MapRequest) (p : bytes) :
  buildMapRequest req = Ok p →
  length p = 12%nat ∧ byte_at p 0 = 0 ∧ byte_at p 1 = opcode (mr_Protocol req)
  ∧ slice p 4 6 = be_put 2 (mr_InternalPort req) ∧ slice p 6 8 = be_put 2 (mr_RequestedExternalPort req)
  ∧ slice p 8 12 = be_put 4 (Z.quot (mr_Lifetime req) Second).
Proof.
  unfold buildMapRequest. intros H. guards H. apply (f_equal (ok_or [])) in H. cbn [ok_or] in H. subst p.
  pose proof (opcode_range (mr_Protocol req)) as Ho.
  split_and!; [done|done| |done|done|done].
  unfold byte_at. change (slice _ 1 2) with [u8 (opcode (mr_Protocol req))].
  rewrite be_get_one, b2z_u8, Z.mod_small by lia. done.
Qed.

Lemma gateway_reply_proof (req : MapRequest) (p : bytes) (g : grant) (c : EpochState) :
  in_u16 (mr_InternalPort req) → buildMapRequest req = Ok p → grant_ok g →
  classifyMap req c (gateway_reply p g) = (Definitive (Ok (grant_result req c g)), mkEpoch (g_epoch g) true)
  ∧ length (gateway_reply p g) = 16%nat.
Proof.
  intros Hi Hb (Hl & He & Hg). destruct (natpmp_request_fields _ _ Hb) as (Hlen & _ & H1 & H4 & _).
  pose proof (opcode_range (mr_Protocol req)) as Ho.
  unfold gateway_reply. rewrite H1, H4. set (hd := [Byte.x00; _; _; _]).
  assert (Hh : length hd = 4%nat) by done.
  assert (Hh2 : slice hd 2 4 = [Byte.x00; Byte.x00]) by done.
  assert (Hb0 : byte_at hd 0 = 0) by done.
  assert (Hb1 : byte_at hd 1 = opcode (mr_Protocol req) + 128).
  { unfold byte_at. change (slice hd 1 2) with [u8 (opcode (mr_Protocol req) + 128)].
    rewrite be_get_one, b2z_u8, Z.mod_small by lia. done. }
  clearbody hd. set (d := hd ++ _). assert (Hd : length d = 16%nat) by (subst d; rewrite !length_app, !length_be_put; lia).
  assert (E4 : be_get (slice d 4 8) = g_epoch g) by (subst d; slice_field; by apply be_get_u32).
  assert (E8 : be_get (slice d 8 10) = mr_InternalPort req) by (subst d; slice_field; by apply be_get_u16).
  assert (E10 : be_get (slice d 10 12) = g_port g) by (subst d; slice_field; by apply be_get_u16).
  assert (E12 : be_get (slice d 12 16) = g_lifetime g) by (subst d; slice_field; by apply be_get_u32).
  split; [|done]. apply classifyMap_ok_iff. unfold granted, grant_result. rewrite E4, E10, E12. split; [|done].
  split_and!; [done| | | |done]; subst d; unfold byte_at in *; rewrite slice_within by lia; [done|done|by rewrite Hh2].
Qed.

(** ** Properties *)

(** A NAT-PMP mapping is reported exactly for what the configured server confirmed:
    within the attempt budget it sent exactly 16 bytes that are the success response to
    this opcode for this internal port; the assigned port, the lease (without overflow)
    and the epoch are that datagram's, and one copy of the encoded request was sent per
    attempt.  No result code is retried. *)
Theorem natpmp_success_proves_lease (c : Client) (req : MapRequest) (net : net_env)
    (r : MapResult) (st : EpochState) (sent : list bytes) :
  transaction c req net = (Ok r, st, sent) →
  ∃ p k from d, buildMapRequest req = Ok p ∧ (1 ≤ k ≤ c_MaxAttempts c)%nat ∧ sent = repeat p k
    ∧ Datagram from d ∈ env_reads (net_attempt net k) ∧ addrPortOf from = Some (c_server c)
    ∧ lease_proof req d ∧ r = granted req (c_epoch c) d ∧ in_i64 (res_Lifetime r)
    ∧ st = mkEpoch (res_Epoch r) true.
Proof.
  unfold transaction, run_attempts. destruct (buildMapRequest req) as [p|] eqn:Eb; [|discriminate].
  destruct (attempts _ _ _ _ _ _ _) as [[r' st'] n] eqn:Ea. intros H. injection H as -> -> <-.
  apply attempts_ok in Ea as (k & from & d & Hk & Hn & Hin & Hf & Hc); [|apply natpmp_retry_pure].
  apply classifyMap_ok_iff in Hc as (Hown & -> & ->).
  assert (Hd : take 1500 d = d).
  { destruct Hown as [Hl _]. rewrite length_take in Hl. apply take_ge. lia. }
  rewrite Hd in *. exists p, k, from, d. subst n. replace (0 + S (k - 1))%nat with k by lia.
  split_and!; try done; try lia. all: cbn; apply natpmp_seconds_in_range, (be_get_slice_u32 d 12).
Qed.

(** The NAT-PMP exchange completes within the attempt budget: unanswered attempts
    and foreign datagrams do not matter, the first grant for the sent request is the
    result. *)
Theorem natpmp_exchange_completes (c : Client) (req : MapRequest) (p : bytes) (g : grant) (net : net_env)
    (skip : nat) (noise rest : list read_event) (from : NetAddr) :
  in_u16 (mr_InternalPort req) → buildMapRequest req = Ok p → grant_ok g →
  (skip < c_MaxAttempts c)%nat → addrPortOf from = Some (c_server c) →
  (∀ k, (1 ≤ k ≤ S skip)%nat → env_ctx_done (net_attempt net k) = false ∧ env_send_error (net_attempt net k) = false
     ∧ env_backoff_cancelled (net_attempt net k) = false) →
  (∀ k, (1 ≤ k ≤ skip)%nat → Forall (unanswered (c_server c)) (env_reads (net_attempt net k))) →
  env_reads (net_attempt net (S skip)) = noise ++ Datagram from (gateway_reply p g) :: rest →
  Forall (foreign (c_server c)) noise →
  transaction c req net = (Ok (grant_result req (c_epoch c) g), mkEpoch (g_epoch g) true, repeat p (S skip)).
Proof.
  intros Hi Hb Hg Hs Hf Henv Hq Hread Hnoise. unfold transaction, run_attempts. rewrite Hb.
  destruct (gateway_reply_proof _ _ _ (c_epoch c) Hi Hb Hg) as [Hc Hlen].
  erewrite (attempts_answer (c_server c) (classifyMap req) (natpmp_retry_pure req) skip);
    [|done|intros k Hk; apply Henv; lia| |].
  - done.
  - intros k Hk. by rewrite await_unanswered by (apply Hq; lia).
  - cbn [Nat.add]. rewrite Hread, await_foreign by done. cbn [await]. rewrite bool_decide_eq_true_2 by done.
    rewrite take_ge by lia. by rewrite Hc.
Qed.

(** ** Witnesses *)

Definition w_server : AddrPort := (Addr4 [u8 192; u8 168; u8 1; u8 1], 5351).
Definition w_from : NetAddr := Some ([u8 192; u8 168; u8 1; u8 1], 5351).
Definition w_client : Client := NewClient w_server 2 0 false.
Definition w_req : MapRequest := mkMapRequest ProtocolTCP 8080 8080 (7200 * Second).
Definition w_packet : bytes := ok_or [] (buildMapRequest w_req).
Definition w_grant : grant := mkGrant 3600 900 40000.
Definition w_net : net_env :=
  mkNet (λ k, mkAttempt false false
    (if bool_decide (k = 1%nat) then [ReadError] else [Datagram None []; Datagram w_from (gateway_reply w_packet w_grant)]) false) false.

Lemma natpmp_exchange_completes_witness :
  transaction w_client w_req w_net = (Ok (mkMapResult 2 8080 40000 (3600 * Second) 900 false), mkEpoch 900 true, repeat w_packet 2).
Proof.
  refine (natpmp_exchange_completes w_client w_req w_packet w_grant w_net 1 [Datagram None []] [] w_from _ _ _ _ _ _ _ _ _).
  - done.
  - vm_compute. reflexivity.
  - split_and!; done.
  - cbn. lia.
  - vm_compute. reflexivity.
  - done.
  - intros k Hk. replace k with 1%nat by lia. apply List.Forall_cons; [by right|apply List.Forall_nil].
  - reflexivity.
  - apply List.Forall_cons; [discriminate|apply List.Forall_nil].
Defined.

Lemma natpmp_success_proves_lease_witness :
  ∃ p k from d, buildMapRequest w_req = Ok p ∧ (1 ≤ k ≤ 2)%nat ∧ repeat w_packet 2 = repeat p k
    ∧ Datagram from d ∈ env_reads (net_attempt w_net k) ∧ addrPortOf from = Some w_server
    ∧ lease_proof w_req d ∧ mkMapResult 2 8080 40000 (3600 * Second) 900 false = granted w_req (mkEpoch 0 false) d
    ∧ in_i64 (3600 * Second) ∧ mkEpoch 900 true = mkEpoch 900 true.
Proof.
  refine (natpmp_success_proves_lease w_client w_req w_net _ _ _ _). vm_compute. reflexivity.
Defined.

(** A lifetime beyond 32 bits is not refused: it wraps on the wire, here to a deletion. *)
Example natpmp_lifetime_wraps :
  (λ p, be_get (slice p 8 12)) (ok_or [] (buildMapRequest (mkMapRequest ProtocolTCP 80 80 (2 ^ 32 * Second)))) = 0.
Proof. vm_compute. reflexivity. Qed.
