(* ===== verification/Bolt.v ===== *)
(** * The durable store underneath the agent: bbolt buckets and JSON rows

    [go.etcd.io/bbolt] is not part of the repository: a bucket is the interface
    [Bolt], with the documented behaviour of [Get], [Put], [Delete] and [ForEach]
    as the laws [BoltLaws].  [encoding/json] on the row structs is the interface
    [JsonRow]: marshalling a row whose strings are valid UTF-8 and unmarshalling
    it again gives the row back, and unmarshalling only ever produces valid
    strings.  Concrete instances (a finite map; an encoding of countable types)
    show that the laws can hold and let the witnesses run. *)

From Stdlib Require Import ZArith Lia Strings.Byte.
From stdpp Require Import base tactics list sets strings option gmap countable.
From S2P Require Import Prelude.

Open Scope Z_scope.

(** ** Buckets *)

(** [bbolt.MaxKeySize] and [bbolt.MaxValueSize]. *)
Definition MaxKeySize : Z := 32768.
Definition MaxValueSize : Z := 2 ^ 31 - 2.

(** What [Put] accepts: a non-empty key and sizes within the limits. *)
Definition storable (k : string) (v : bytes) : bool :=
  negb (String.eqb k EmptyString) && (zlen (bytes_of k) <=? MaxKeySize) && (zlen v <=? MaxValueSize).

Class Bolt (B : Type) := {
  bempty : B;
  bget : B → string → option bytes;
  bput : B → string → bytes → option B;     (* [None]: [Put] returned an error *)
  bdel : B → string → B;
  bentries : B → list (string * bytes)      (* the pairs [ForEach] visits *)
}.

Class BoltLaws (B : Type) `{Bolt B} : Prop := {
  bget_bempty k : bget bempty k = None;
  bput_storable b k v : is_Some (bput b k v) ↔ storable k v = true;
  bget_bput b k v b' : bput b k v = Some b' → ∀ k', bget b' k' = if decide (k' = k) then Some v else bget b k';
  bget_bdel b k k' : bget (bdel b k) k' = if decide (k' = k) then None else bget b k';
  bentries_spec b k v : (k, v) ∈ bentries b ↔ bget b k = Some v;
  bentries_nodup b : NoDup (bentries b).*1
}.

Section BoltLemmas.
Context {B : Type} `{!Bolt B, !BoltLaws B}.

Lemma bget_bput_eq (b b' : B) (k : string) (v : bytes) : bput b k v = Some b' → bget b' k = Some v.
Proof. intros H. rewrite (bget_bput _ _ _ _ H). by rewrite decide_True. Qed.

Lemma bget_bput_ne (b b' : B) (k k' : string) (v : bytes) :
  k' ≠ k → bput b k v = Some b' → bget b' k' = bget b k'.
Proof. intros Hk H. rewrite (bget_bput _ _ _ _ H). by rewrite decide_False. Qed.

Lemma bget_bdel_eq (b : B) (k : string) : bget (bdel b k) k = None.
Proof. rewrite bget_bdel. by rewrite decide_True. Qed.

Lemma bget_bdel_ne (b : B) (k k' : string) : k' ≠ k → bget (bdel b k) k' = bget b k'.
Proof. intros Hk. rewrite bget_bdel. by rewrite decide_False. Qed.
End BoltLemmas.

(** ** A bucket as a finite map *)

Definition mapb : Type := gmap string bytes.

#[export] Instance mapb_Bolt : Bolt mapb := {
  bempty := ∅;
  bget b k := b !! k;
  bput b k v := if storable k v then Some (<[k := v]> b) else None;
  bdel b k := delete k b;
  bentries b := map_to_list b
}.

#[export] Instance mapb_BoltLaws : BoltLaws mapb.
Proof.
  split; cbn.
  - intros k. apply lookup_empty.
  - intros b k v. destruct (storable k v); split; try done; by intros [? ?].
  - intros b k v b' H k'. destruct (storable k v); [|discriminate]. injection H as <-.
    destruct (decide (k' = k)) as [->|Hk]; [apply lookup_insert_eq|by apply lookup_insert_ne].
  - intros b k k'. destruct (decide (k' = k)) as [->|Hk]; [apply lookup_delete_eq|by apply lookup_delete_ne].
  - intros b k v. apply elem_of_map_to_list.
  - intros b. apply NoDup_fst_map_to_list.
Qed.

(** ** UTF-8 ([unicode/utf8.Valid]) *)

Definition cont_byte (b : byte) : bool := (0x80 <=? b2z b) && (b2z b <=? 0xBF).
Definition in_range (b : byte) (lo hi : Z) : bool := (lo <=? b2z b) && (b2z b <=? hi).

Fixpoint utf8_valid_fuel (fuel : nat) (s : bytes) : bool :=
  match fuel, s with
  | _, [] => true
  | O, _ => false
  | S f, a :: r =>
      if b2z a <? 0x80 then utf8_valid_fuel f r
      else match r with
      | b :: r1 =>
          if in_range a 0xC2 0xDF then cont_byte b && utf8_valid_fuel f r1
          else match r1 with
          | c :: r2 =>
              if in_range a 0xE0 0xEF then
                in_range b (if b2z a =? 0xE0 then 0xA0 else 0x80) (if b2z a =? 0xED then 0x9F else 0xBF)
                && cont_byte c && utf8_valid_fuel f r2
              else match r2 with
              | d :: r3 =>
                  in_range a 0xF0 0xF4
                  && in_range b (if b2z a =? 0xF0 then 0x90 else 0x80) (if b2z a =? 0xF4 then 0x8F else 0xBF)
                  && cont_byte c && cont_byte d && utf8_valid_fuel f r3
              | [] => false
              end
          | [] => false
          end
      | [] => false
      end
  end.

Definition text (s : string) : bool := utf8_valid_fuel (String.length s) (bytes_of s).

#[global] Arguments text : simpl never.

(** ** JSON rows *)

Class JsonRow (A : Type) := {
  marshal : A → bytes;
  unmarshal : bytes → option A      (* [None]: [json.Unmarshal] returned an error *)
}.

(** [txt]: every string of the row is valid UTF-8. *)
Class JsonRowLaws (A : Type) `{JsonRow A} (txt : A → bool) : Prop := {
  unmarshal_marshal a : txt a = true → unmarshal (marshal a) = Some a;
  unmarshal_text raw a : unmarshal raw = Some a → txt a = true
}.

(** ** A concrete encoding for the witnesses: the bits of stdpp's [encode] *)

Fixpoint bits_of (p : positive) : bytes :=
  match p with
  | xH => []
  | xO p => Byte.x00 :: bits_of p
  | xI p => Byte.x01 :: bits_of p
  end.

Fixpoint of_bits (b : bytes) : positive :=
  match b with
  | [] => xH
  | Byte.x00 :: b => xO (of_bits b)
  | _ :: b => xI (of_bits b)
  end.

Lemma of_bits_bits_of (p : positive) : of_bits (bits_of p) = p.
Proof. induction p; cbn; congruence. Qed.

Definition countable_row {A} `{Countable A} (txt : A → bool) : JsonRow A := {|
  marshal a := bits_of (encode a);
  unmarshal b := a ← decode (of_bits b); if txt a then Some a else None
|}.

Lemma countable_row_laws {A} `{Countable A} (txt : A → bool) : @JsonRowLaws A (countable_row txt) txt.
Proof.
  split; cbn.
  - intros a Ha. rewrite of_bits_bits_of, decode_encode. cbn. by rewrite Ha.
  - intros raw a Hd. destruct (decode (of_bits raw)) as [x|]; cbn in Hd; [|done].
    destruct (txt x) eqn:E; by simplify_eq.
Qed.
