(* ===== verification/Journal.v ===== *)
(** * The agent's durable journals

    [src/internal/agent/localstate/journal.go] (control inbox, operation journal,
    outbox, receipts), [forward_delete.go] and [tombstone.go] (deletion fences),
    [pins.go] (controller pins).  A bbolt transaction is a function of the store
    that commits its new store or rolls back on error ([Update]).  The rows of the
    [operation_results] bucket share one key space, as in the code: results under
    the bare operation id, journals under ["op:"], receipts under ["receipt:"]. *)

From Stdlib Require Import ZArith Lia Strings.Byte.
From stdpp Require Import base tactics list sets strings option gmap countable relations.
From S2P Require Import Prelude GoStd Domain Bolt.

Open Scope Z_scope.

(** ** Rows *)

Record inboxEntry : Type := mkInbox { ie_MessageType : string; ie_PayloadHash : string; ie_OperationID : string }.

Record ForwardDeletionLink : Type := mkLink {
  fl_ForwardID : string;
  fl_DeletionOperationID : string;
  fl_DesiredRevision : Z
}.

#[export] Instance ForwardDeletionLink_eq_dec : EqDecision ForwardDeletionLink.
Proof. solve_decision. Defined.

Record operationJournal : Type := mkJournal {
  j_Kind : string;
  j_MessageID : string;
  j_Phase : string;
  j_Reason : string;
  j_Payload : bytes;
  j_PayloadPresent : bool;
  j_RecoveredDeletionPending : bool;
  j_ForwardDeletions : list ForwardDeletionLink
}.

Record ForwardDeleteIntent : Type := mkIntent {
  fi_ForwardID : string;
  fi_DeletionOperationID : string;
  fi_DesiredRevision : Z;
  fi_CreatedAtUnix : Z
}.

Record ForwardTombstone : Type := mkTombstone {
  ft_ForwardID : string;
  ft_DeletionOperationID : string;
  ft_DesiredRevision : Z;
  ft_CreatedAtUnix : Z
}.

Record ControllerPin : Type := mkPin {
  cp_InstanceID : string;
  cp_KeyID : string;
  cp_PublicKeyRaw : bytes;
  cp_Generation : Z
}.

Inductive LsError : Type :=
  | ErrStaleSession | ErrMessageConflict | ErrIllegalPhase | ErrStaleWriter | ErrAlreadyReceipted
  | ErrOperationConflict | ErrOperationNotFound | ErrForwardDeleteConflict | ErrForwardDeleteNotCommitted
  | ErrTombstoneNotGCReady | ErrPinDowngrade
  | ErrTombstonedForward | ErrDesiredRevisionConflict | ErrAppliedRevisionConflict | ErrDecommissionConflict
  | ErrProbeConsumed | ErrProbeConflict | ErrProbeNotFound | ErrProbeAdmissionConflict
  | EDecode | EPut | EInvalidIntent | EInvalidTombstone | EInvalidPin | EIdentityRequired
  | EInvalidDesired | ENodeMismatch | EMultipleDesired | EInvalidApplied | EOutcome
  | EInvalidActivation | EInvalidArm.

Definition phasePending : string := "PENDING".
Definition phaseClaimed : string := "CLAIMED".
Definition phaseSent : string := "SENT".
Definition phaseSemanticACKed : string := "SEMANTIC_ACKED".
Definition phaseReceived : string := "RECEIVED".
Definition phaseIntentPersisted : string := "INTENT_PERSISTED".
Definition phaseApplying : string := "APPLYING".
Definition phaseApplied : string := "APPLIED".
Definition phaseNacked : string := "NACKED".

Definition opJournalKey (operationID : string) : string := String.append "op:" operationID.
Definition receiptKey (operationID : string) : string := String.append "receipt:" operationID.
#[global] Arguments opJournalKey : simpl never.
#[global] Arguments receiptKey : simpl never.
Definition keyCurrentEpoch : string := "current_epoch".
Definition keyCurrentSession : string := "current_session".

(** What the transactions use of code outside the package: [encoding/json] on the
    rows, [json.Marshal] of one string, the hex SHA-256 digest, and
    [protocol.DecodeStrictJSONInto] of a desired snapshot. *)
Class JournalEnv := {
  #[global] je_inbox :: JsonRow inboxEntry;
  #[global] je_journal :: JsonRow operationJournal;
  #[global] je_intent :: JsonRow ForwardDeleteIntent;
  #[global] je_tombstone :: JsonRow ForwardTombstone;
  #[global] je_pin :: JsonRow ControllerPin;
  json_string : string → bytes;
  sha256_hex : bytes → string;
  DecodeStrictDesired : bytes → option DesiredState
}.

(** Rows whose strings are all valid UTF-8. *)
Definition link_text (l : ForwardDeletionLink) : bool := text (fl_ForwardID l) && text (fl_DeletionOperationID l).
Definition journal_text (j : operationJournal) : bool :=
  text (j_Kind j) && text (j_MessageID j) && text (j_Phase j) && text (j_Reason j) && forallb link_text (j_ForwardDeletions j).
Definition intent_text (i : ForwardDeleteIntent) : bool := text (fi_ForwardID i) && text (fi_DeletionOperationID i).
Definition tombstone_text (t : ForwardTombstone) : bool := text (ft_ForwardID t) && text (ft_DeletionOperationID t).
Definition pin_text (p : ControllerPin) : bool := text (cp_InstanceID p) && text (cp_KeyID p).

Class JournalLaws `{JournalEnv} : Prop := {
  #[global] jl_journal :: JsonRowLaws operationJournal journal_text;
  #[global] jl_intent :: JsonRowLaws ForwardDeleteIntent intent_text;
  #[global] jl_tombstone :: JsonRowLaws ForwardTombstone tombstone_text;
  #[global] jl_pin :: JsonRowLaws ControllerPin pin_text
}.

(** ** The store and its transactions *)

Record Store (B : Type) : Type := mkStore {
  s_epochs : B;
  s_inbox : B;
  s_outbox : B;
  s_operations : B;
  s_intents : B;
  s_tombstones : B;
  s_pins : B;
  s_desired : B;
  s_applied : B;
  s_activation : B;
  s_mapping : B;
  s_hooks : B;
  s_keyring : B;
  s_probes : B
}.
Arguments mkStore {B}.
Arguments s_epochs {B}.
Arguments s_inbox {B}.
Arguments s_outbox {B}.
Arguments s_operations {B}.
Arguments s_intents {B}.
Arguments s_tombstones {B}.
Arguments s_pins {B}.
Arguments s_desired {B}.
Arguments s_applied {B}.
Arguments s_activation {B}.
Arguments s_mapping {B}.
Arguments s_hooks {B}.
Arguments s_keyring {B}.
Arguments s_probes {B}.

(** The data buckets of [schema.go]. *)
Inductive bucket : Type :=
  | Epochs | Inbox | Outbox | Operations | Intents | Tombstones | Pins
  | DesiredB | AppliedB | ActivationB | MappingB | HookQueueB | KeyringB | ProbeOpsB.

#[export] Instance bucket_eq_dec : EqDecision bucket.
Proof. solve_decision. Defined.

Definition at_bucket {B} (s : Store B) (b : bucket) : B :=
  match b with
  | Epochs => s_epochs s
  | Inbox => s_inbox s
  | Outbox => s_outbox s
  | Operations => s_operations s
  | Intents => s_intents s
  | Tombstones => s_tombstones s
  | Pins => s_pins s
  | DesiredB => s_desired s
  | AppliedB => s_applied s
  | ActivationB => s_activation s
  | MappingB => s_mapping s
  | HookQueueB => s_hooks s
  | KeyringB => s_keyring s
  | ProbeOpsB => s_probes s
  end.

Definition set_bucket {B} (s : Store B) (b : bucket) (v : B) : Store B :=
  match b with
  | Epochs => mkStore v (s_inbox s) (s_outbox s) (s_operations s) (s_intents s) (s_tombstones s) (s_pins s) (s_desired s) (s_applied s) (s_activation s) (s_mapping s) (s_hooks s) (s_keyring s) (s_probes s)
  | Inbox => mkStore (s_epochs s) v (s_outbox s) (s_operations s) (s_intents s) (s_tombstones s) (s_pins s) (s_desired s) (s_applied s) (s_activation s) (s_mapping s) (s_hooks s) (s_keyring s) (s_probes s)
  | Outbox => mkStore (s_epochs s) (s_inbox s) v (s_operations s) (s_intents s) (s_tombstones s) (s_pins s) (s_desired s) (s_applied s) (s_activation s) (s_mapping s) (s_hooks s) (s_keyring s) (s_probes s)
  | Operations => mkStore (s_epochs s) (s_inbox s) (s_outbox s) v (s_intents s) (s_tombstones s) (s_pins s) (s_desired s) (s_applied s) (s_activation s) (s_mapping s) (s_hooks s) (s_keyring s) (s_probes s)
  | Intents => mkStore (s_epochs s) (s_inbox s) (s_outbox s) (s_operations s) v (s_tombstones s) (s_pins s) (s_desired s) (s_applied s) (s_activation s) (s_mapping s) (s_hooks s) (s_keyring s) (s_probes s)
  | Tombstones => mkStore (s_epochs s) (s_inbox s) (s_outbox s) (s_operations s) (s_intents s) v (s_pins s) (s_desired s) (s_applied s) (s_activation s) (s_mapping s) (s_hooks s) (s_keyring s) (s_probes s)
  | Pins => mkStore (s_epochs s) (s_inbox s) (s_outbox s) (s_operations s) (s_intents s) (s_tombstones s) v (s_desired s) (s_applied s) (s_activation s) (s_mapping s) (s_hooks s) (s_keyring s) (s_probes s)
  | DesiredB => mkStore (s_epochs s) (s_inbox s) (s_outbox s) (s_operations s) (s_intents s) (s_tombstones s) (s_pins s) v (s_applied s) (s_activation s) (s_mapping s) (s_hooks s) (s_keyring s) (s_probes s)
  | AppliedB => mkStore (s_epochs s) (s_inbox s) (s_outbox s) (s_operations s) (s_intents s) (s_tombstones s) (s_pins s) (s_desired s) v (s_activation s) (s_mapping s) (s_hooks s) (s_keyring s) (s_probes s)
  | ActivationB => mkStore (s_epochs s) (s_inbox s) (s_outbox s) (s_operations s) (s_intents s) (s_tombstones s) (s_pins s) (s_desired s) (s_applied s) v (s_mapping s) (s_hooks s) (s_keyring s) (s_probes s)
  | MappingB => mkStore (s_epochs s) (s_inbox s) (s_outbox s) (s_operations s) (s_intents s) (s_tombstones s) (s_pins s) (s_desired s) (s_applied s) (s_activation s) v (s_hooks s) (s_keyring s) (s_probes s)
  | HookQueueB => mkStore (s_epochs s) (s_inbox s) (s_outbox s) (s_operations s) (s_intents s) (s_tombstones s) (s_pins s) (s_desired s) (s_applied s) (s_activation s) (s_mapping s) v (s_keyring s) (s_probes s)
  | KeyringB => mkStore (s_epochs s) (s_inbox s) (s_outbox s) (s_operations s) (s_intents s) (s_tombstones s) (s_pins s) (s_desired s) (s_applied s) (s_activation s) (s_mapping s) (s_hooks s) v (s_probes s)
  | ProbeOpsB => mkStore (s_epochs s) (s_inbox s) (s_outbox s) (s_operations s) (s_intents s) (s_tombstones s) (s_pins s) (s_desired s) (s_applied s) (s_activation s) (s_mapping s) (s_hooks s) (s_keyring s) v
  end.

Definition tx (B A : Type) : Type := Store B → result LsError (A * Store B).

Definition tx_ret {B A} (a : A) : tx B A := λ s, Ok (a, s).
Definition tx_fail {B A} (e : LsError) : tx B A := λ _, Err e.
Definition tx_bind {B A C} (m : tx B A) (k : A → tx B C) : tx B C :=
  λ s, match m s with Ok (a, s') => k a s' | Err e => Err e end.

Notation "'let!' x ':=' c 'in' k" := (tx_bind c (λ x, k)) (at level 10, x pattern, k at level 200) : go_scope.
Notation "'tx_fail_if' b 'with' e ';;' k" := (if b then tx_fail e else k)
  (at level 10, b at level 99, e at level 99, k at level 200) : go_scope.

(** [db.Update]: commit on success, roll back on error. *)
Definition Update {B A} (m : tx B A) (s : Store B) : result LsError A * Store B :=
  match m s with Ok (a, s') => (Ok a, s') | Err e => (Err e, s) end.

Section Ops.
Context {B : Type} `{!Bolt B} `{!JournalEnv}.
Implicit Types s : Store B.

Definition get (b : bucket) (k : string) : tx B (option bytes) := λ s, Ok (bget (at_bucket s b) k, s).

Definition put (b : bucket) (k : string) (v : bytes) : tx B unit := λ s,
  match bput (at_bucket s b) k v with
  | Some v' => Ok (tt, set_bucket s b v')
  | None => Err EPut
  end.

Definition del (b : bucket) (k : string) : tx B unit := λ s, Ok (tt, set_bucket s b (bdel (at_bucket s b) k)).

Definition entries (b : bucket) : tx B (list (string * bytes)) := λ s, Ok (bentries (at_bucket s b), s).

(** A Go [for] loop over a slice inside a transaction. *)
Fixpoint tx_iter {A} (f : A → tx B unit) (l : list A) : tx B unit :=
  match l with [] => tx_ret tt | x :: l' => let! _ := f x in tx_iter f l' end.

(** *** Sessions *)

Definition encodeEpoch (epoch : Z) : bytes := be_put 8 epoch.
Definition decodeEpoch (value : option bytes) : Z :=
  match value with Some v => if zlen v =? 8 then be_get v else 0 | None => 0 end.
Definition session_string (value : option bytes) : string := string_of (default [] value).

Definition CurrentSession s : Z * string :=
  (decodeEpoch (bget (s_epochs s) keyCurrentEpoch), session_string (bget (s_epochs s) keyCurrentSession)).

Definition AdvanceSession (epoch : Z) (sessionID : string) : tx B unit := λ s,
  let '(currentEpoch, currentSession) := CurrentSession s in
  (tx_fail_if (epoch <? currentEpoch)
     || ((epoch =? currentEpoch) && negb (String.eqb currentSession "") && negb (String.eqb currentSession sessionID))
     with ErrStaleSession ;;
   if (epoch =? currentEpoch) && String.eqb currentSession sessionID then tx_ret tt
   else
     let! _ := put Epochs keyCurrentEpoch (encodeEpoch epoch) in
     put Epochs keyCurrentSession (bytes_of sessionID)) s.

Definition checkSession (epoch : Z) (sessionID : string) : tx B unit := λ s,
  let '(currentEpoch, currentSession) := CurrentSession s in
  (tx_fail_if negb (currentEpoch =? epoch) || negb (String.eqb currentSession sessionID) with ErrStaleSession ;;
   tx_ret tt) s.

(** *** Operation journal rows *)

Definition loadOperationJournal (operationID : string) : tx B (option operationJournal) :=
  let! raw := get Operations (opJournalKey operationID) in
  match raw with
  | None => tx_ret None
  | Some v => match unmarshal v with Some j => tx_ret (Some j) | None => tx_fail EDecode end
  end.

Definition putOperationJournal (operationID : string) (j : operationJournal) : tx B unit :=
  put Operations (opJournalKey operationID) (marshal j).

Definition with_phase (j : operationJournal) (phase : string) : operationJournal :=
  mkJournal (j_Kind j) (j_MessageID j) phase (j_Reason j) (j_Payload j) (j_PayloadPresent j)
    (j_RecoveredDeletionPending j) (j_ForwardDeletions j).

Definition with_reason (j : operationJournal) (reason : string) : operationJournal :=
  mkJournal (j_Kind j) (j_MessageID j) (j_Phase j) reason (j_Payload j) (j_PayloadPresent j)
    (j_RecoveredDeletionPending j) (j_ForwardDeletions j).

Definition with_pending (j : operationJournal) (p : bool) : operationJournal :=
  mkJournal (j_Kind j) (j_MessageID j) (j_Phase j) (j_Reason j) (j_Payload j) (j_PayloadPresent j) p
    (j_ForwardDeletions j).

(** *** Deletion fences *)

Definition validateForwardDeleteIntent (intent : ForwardDeleteIntent) : bool :=
  negb (String.eqb (fi_ForwardID intent) "") && negb (String.eqb (fi_DeletionOperationID intent) "")
  && negb (fi_DesiredRevision intent =? 0) && negb (fi_CreatedAtUnix intent =? 0).

Definition loadForwardDeleteIntentTx (forwardID : string) : tx B (option ForwardDeleteIntent) :=
  let! raw := get Intents forwardID in
  match raw with
  | None => tx_ret None
  | Some v =>
      match unmarshal v with
      | None => tx_fail EDecode
      | Some intent =>
          tx_fail_if negb (validateForwardDeleteIntent intent) with EInvalidIntent ;;
          tx_fail_if negb (String.eqb (fi_ForwardID intent) forwardID) with EInvalidIntent ;;
          tx_ret (Some intent)
      end
  end.

Definition loadForwardTombstoneTx (forwardID : string) : tx B (option ForwardTombstone) :=
  let! raw := get Tombstones forwardID in
  match raw with
  | None => tx_ret None
  | Some v =>
      match unmarshal v with
      | None => tx_fail EDecode
      | Some tombstone =>
          tx_fail_if negb (String.eqb (ft_ForwardID tombstone) forwardID) || String.eqb (ft_DeletionOperationID tombstone) ""
            with EInvalidTombstone ;;
          tx_ret (Some tombstone)
      end
  end.

Definition putForwardDeleteIntentTx (intent : ForwardDeleteIntent) : tx B bool :=
  tx_fail_if negb (validateForwardDeleteIntent intent) with EInvalidIntent ;;
  let! found := loadForwardDeleteIntentTx (fi_ForwardID intent) in
  match found with
  | Some existing =>
      tx_fail_if negb (String.eqb (fi_DeletionOperationID existing) (fi_DeletionOperationID intent))
        || negb (fi_DesiredRevision existing =? fi_DesiredRevision intent) with ErrForwardDeleteConflict ;;
      tx_ret false
  | None =>
      let! raw := get Tombstones (fi_ForwardID intent) in
      match raw with
      | Some v =>
          match unmarshal v with
          | None => tx_fail EDecode
          | Some tombstone =>
              tx_fail_if negb (String.eqb (ft_DeletionOperationID tombstone) (fi_DeletionOperationID intent))
                || (negb (ft_DesiredRevision tombstone =? 0)
                    && negb (ft_DesiredRevision tombstone =? fi_DesiredRevision intent)) with ErrForwardDeleteConflict ;;
              tx_ret false
          end
      | None =>
          let! _ := put Intents (fi_ForwardID intent) (marshal intent) in
          tx_ret true
      end
  end.

Definition with_created (intent : ForwardDeleteIntent) (now : Z) : ForwardDeleteIntent :=
  if fi_CreatedAtUnix intent =? 0
  then mkIntent (fi_ForwardID intent) (fi_DeletionOperationID intent) (fi_DesiredRevision intent) now
  else intent.

Definition PutForwardDeleteIntent (now : Z) (intent : ForwardDeleteIntent) : tx B bool :=
  putForwardDeleteIntentTx (with_created intent now).

(** The checks of [PutForwardDeleteIntents] before its transaction. *)
Fixpoint prepare_intents (now : Z) (seen : list string) (l : list ForwardDeleteIntent)
    : result LsError (list ForwardDeleteIntent) :=
  match l with
  | [] => Ok []
  | i :: l' =>
      let intent := with_created i now in
      fail_if negb (validateForwardDeleteIntent intent) with EInvalidIntent ;;
      fail_if bool_decide (fi_ForwardID intent ∈ seen) with ErrForwardDeleteConflict ;;
      let* rest := prepare_intents now (fi_ForwardID intent :: seen) l' in
      Ok (intent :: rest)
  end.

Definition PutForwardDeleteIntents (now : Z) (intents : list ForwardDeleteIntent) : tx B unit :=
  match prepare_intents now [] intents with
  | Err e => tx_fail e
  | Ok prepared => tx_iter (λ i, let! _ := putForwardDeleteIntentTx i in tx_ret tt) prepared
  end.

Definition CompleteForwardDeleteIntent (forwardID deletionOperationID : string) : tx B unit :=
  tx_fail_if String.eqb forwardID "" || String.eqb deletionOperationID "" with EIdentityRequired ;;
  let! found := loadForwardDeleteIntentTx forwardID in
  match found with
  | None => tx_ret tt
  | Some intent =>
      tx_fail_if negb (String.eqb (fi_DeletionOperationID intent) deletionOperationID) with ErrForwardDeleteConflict ;;
      let! tombstone := loadForwardTombstoneTx forwardID in
      match tombstone with
      | None => tx_fail ErrForwardDeleteNotCommitted
      | Some t =>
          tx_fail_if negb (String.eqb (ft_DeletionOperationID t) deletionOperationID) with ErrForwardDeleteNotCommitted ;;
          del Intents forwardID
      end
  end.

Definition GCForwardTombstone (forwardID : string) : tx B unit :=
  let! found := loadForwardTombstoneTx forwardID in
  match found with
  | None => tx_ret tt
  | Some ts =>
      let! pending := loadForwardDeleteIntentTx forwardID in
      match pending with
      | Some _ => tx_fail ErrTombstoneNotGCReady
      | None =>
          let! receipt := get Operations (receiptKey (ft_DeletionOperationID ts)) in
          match receipt with
          | None => tx_fail ErrTombstoneNotGCReady
          | Some _ => del Tombstones forwardID
          end
      end
  end.

(** *** Receiving commands *)

Definition isDeletionCommandKind (kind : string) : bool := String.eqb kind "desired" || String.eqb kind "forward_delete".

(** [equalForwardDeletionLinks] compares the slices element by element. *)
Definition equalForwardDeletionLinks (a b : list ForwardDeletionLink) : bool := bool_decide (a = b).

Definition classifyForwardDeletions (messageType : string) (payload : bytes) : option (list ForwardDeletionLink) :=
  if negb (isDeletionCommandKind messageType) then None
  else match DecodeStrictDesired payload with
  | None => None
  | Some d =>
      match DesiredState_Validate d with
      | Err _ => None
      | Ok _ => Some (omap (λ spec,
          if String.eqb (fs_Presence spec) PresenceAbsent
          then Some (mkLink (fs_ForwardID spec) (fs_DeletionOperationID spec) (fs_DesiredRevision spec)) else None)
          (ds_Forwards d))
      end
  end.

(** The fences of the links; a conflicting identity keeps the older fence. *)
Definition put_fence (now : Z) (link : ForwardDeletionLink) : tx B unit := λ s,
  match putForwardDeleteIntentTx (mkIntent (fl_ForwardID link) (fl_DeletionOperationID link) (fl_DesiredRevision link) now) s with
  | Ok (_, s') => Ok (tt, s')
  | Err ErrForwardDeleteConflict => Ok (tt, s)
  | Err e => Err e
  end.

Definition put_fences (now : Z) (links : list ForwardDeletionLink) : tx B unit := tx_iter (put_fence now) links.

Definition recovered_reason : string := "recovered APPLYING operation after restart".

(** The upgrade of a journal row written before payloads were persisted. *)
Definition upgrade_payload (j : operationJournal) (payload : bytes) (links : list ForwardDeletionLink) : operationJournal :=
  if j_PayloadPresent j then j
  else
    let wasRecoveredApplying :=
      String.eqb (j_Phase j) phaseApplying
      || (String.eqb (j_Phase j) phaseNacked && String.eqb (j_Reason j) recovered_reason) in
    mkJournal (j_Kind j) (j_MessageID j) (j_Phase j) (j_Reason j) payload true
      (wasRecoveredApplying && negb (bool_decide (links = []))) links.

(** [receiveCommandTx]: the result is the pair (Duplicate, RecoveredDeletionPending). *)
Definition receiveCommandTx (now epoch : Z) (sessionID operationID messageID messageType payloadHash kind : string)
    (payload : bytes) (payloadPresent : bool) (links : list ForwardDeletionLink) : tx B (bool * bool) :=
  let! _ := checkSession epoch sessionID in
  let! receipt := get Operations (receiptKey operationID) in
  match receipt with Some _ => tx_fail ErrAlreadyReceipted | None =>
  let! existing := get Inbox messageID in
  match existing with
  | Some raw =>
      match unmarshal raw with
      | None => tx_fail EDecode
      | Some entry =>
          tx_fail_if negb (String.eqb (ie_MessageType entry) messageType)
            || negb (String.eqb (ie_PayloadHash entry) payloadHash) with ErrMessageConflict ;;
          tx_fail_if negb (String.eqb (ie_OperationID entry) operationID) with ErrOperationConflict ;;
          let! found := loadOperationJournal operationID in
          match found with
          | None => tx_fail ErrOperationConflict
          | Some j =>
              tx_fail_if negb (String.eqb (j_Kind j) kind) || negb (String.eqb (j_MessageID j) messageID)
                with ErrOperationConflict ;;
              if payloadPresent then
                tx_fail_if j_PayloadPresent j && negb (bytes_eqb (j_Payload j) payload) with ErrOperationConflict ;;
                tx_fail_if negb (bool_decide (j_ForwardDeletions j = []))
                  && negb (equalForwardDeletionLinks (j_ForwardDeletions j) links) with ErrOperationConflict ;;
                let j' := upgrade_payload j payload links in
                let! _ := put_fences now links in
                let! _ := putOperationJournal operationID j' in
                tx_ret (true, j_RecoveredDeletionPending j')
              else tx_ret (true, j_RecoveredDeletionPending j)
          end
      end
  | None =>
      let! found := loadOperationJournal operationID in
      match found with
      | Some j =>
          tx_fail_if negb (String.eqb (j_Kind j) kind) || negb (String.eqb (j_MessageID j) messageID)
            with ErrOperationConflict ;;
          tx_ret (true, j_RecoveredDeletionPending j)
      | None =>
          let! _ := put Inbox messageID (marshal (mkInbox messageType payloadHash operationID)) in
          let! _ := putOperationJournal operationID
                      (mkJournal kind messageID phaseReceived "" payload payloadPresent false links) in
          let! _ := put_fences now links in
          tx_ret (false, false)
      end
  end
  end.

Definition ReceiveCommand (now epoch : Z) (sessionID operationID messageID messageType payloadHash kind : string)
    : tx B bool :=
  let! outcome := receiveCommandTx now epoch sessionID operationID messageID messageType payloadHash kind [] false [] in
  tx_ret outcome.1.

Definition ReceiveCommandWithPayloadStatus (now epoch : Z) (sessionID operationID messageID messageType : string)
    (payload : bytes) (kind : string) : tx B (bool * bool) :=
  let payloadPresent := isDeletionCommandKind messageType in
  receiveCommandTx now epoch sessionID operationID messageID messageType (sha256_hex payload) kind
    (if payloadPresent then payload else []) payloadPresent
    (default [] (classifyForwardDeletions messageType payload)).
End Ops.

Section Journal.
Context {B : Type} `{!Bolt B} `{!JournalEnv}.
Implicit Types s : Store B.

(** *** Results and the outbox *)

Definition outbox_value (phase : string) (payload : bytes) : bytes := bytes_of phase ++ Byte.x00 :: payload.

Definition splitOutboxValue (value : option bytes) : string * bytes :=
  match value with
  | None => ("", [])
  | Some v =>
      match index_byte Byte.x00 v with
      | Some i => (string_of (take i v), drop (S i) v)
      | None => (string_of v, [])
      end
  end%string.

Definition recordResultAndQueue (operationID : string) (res : bytes) : tx B unit :=
  let! receipt := get Operations (receiptKey operationID) in
  match receipt with Some _ => tx_fail ErrAlreadyReceipted | None =>
  let! current := get Outbox operationID in
  match current with Some _ => tx_ret tt | None =>
  let! existing := get Operations operationID in
  tx_fail_if (match existing with Some e => negb (bytes_eqb e res) | None => false end) with ErrStaleWriter ;;
  let! _ := put Operations operationID res in
  put Outbox operationID (outbox_value phasePending res)
  end
  end.

(** Load a journal row that must be in a given phase ([operationPhaseError] otherwise). *)
Definition require_phase (operationID phase : string) : tx B operationJournal :=
  let! found := loadOperationJournal operationID in
  match found with
  | None => tx_fail ErrIllegalPhase
  | Some j => tx_fail_if negb (String.eqb (j_Phase j) phase) with ErrIllegalPhase ;; tx_ret j
  end.

Definition CompleteRecoveredDeletion (epoch : Z) (sessionID operationID : string) : tx B unit :=
  let! _ := checkSession epoch sessionID in
  let! found := loadOperationJournal operationID in
  match found with
  | None => tx_fail ErrIllegalPhase
  | Some j =>
      tx_fail_if (negb (String.eqb (j_Phase j) phaseApplying) && negb (String.eqb (j_Phase j) phaseNacked))
        || negb (j_RecoveredDeletionPending j) with ErrIllegalPhase ;;
      putOperationJournal operationID (with_pending j false)
  end.

Definition PersistOperationIntent (epoch : Z) (sessionID operationID : string) : tx B unit :=
  let! _ := checkSession epoch sessionID in
  let! j := require_phase operationID phaseReceived in
  putOperationJournal operationID (with_phase j phaseIntentPersisted).

Definition MarkOperationApplying (epoch : Z) (sessionID operationID : string) : tx B unit :=
  let! _ := checkSession epoch sessionID in
  let! j := require_phase operationID phaseIntentPersisted in
  let j' := with_phase j phaseApplying in
  putOperationJournal operationID (if bool_decide (j_ForwardDeletions j' = []) then j' else with_pending j' true).

Definition CompleteOperation (epoch : Z) (sessionID operationID : string) (res : bytes) : tx B unit :=
  let! _ := checkSession epoch sessionID in
  let! j := require_phase operationID phaseApplying in
  let! _ := putOperationJournal operationID (with_phase j phaseApplied) in
  recordResultAndQueue operationID res.

Definition NackOperation (epoch : Z) (sessionID operationID reason : string) : tx B unit :=
  let! _ := checkSession epoch sessionID in
  let! j := require_phase operationID phaseApplying in
  putOperationJournal operationID (with_reason (with_phase j phaseNacked) reason).

Definition NackOperationWithResult (epoch : Z) (sessionID operationID reason : string) (res : bytes) : tx B unit :=
  let! _ := checkSession epoch sessionID in
  let! j := require_phase operationID phaseApplying in
  let! _ := putOperationJournal operationID (with_reason (with_phase j phaseNacked) reason) in
  recordResultAndQueue operationID res.

(** [json.Marshal] of the NACK maps; map keys are written in sorted order. *)
Definition nacked_json (reason : string) : bytes :=
  bytes_of "{" ++ json_string "reason" ++ bytes_of ":" ++ json_string reason ++ bytes_of ","
  ++ json_string "status" ++ bytes_of ":" ++ json_string "nacked" ++ bytes_of "}".

Definition recovered_json (reason : string) : bytes :=
  bytes_of "{" ++ json_string "reason" ++ bytes_of ":" ++ json_string reason ++ bytes_of ","
  ++ json_string "recovered" ++ bytes_of ":true," ++ json_string "status" ++ bytes_of ":" ++ json_string "nacked"
  ++ bytes_of "}".

Definition QueueNackedResult (epoch : Z) (sessionID operationID : string) : tx B unit :=
  let! _ := checkSession epoch sessionID in
  let! j := require_phase operationID phaseNacked in
  recordResultAndQueue operationID (nacked_json (j_Reason j)).

(** The operation id of a journal key. *)
Definition journal_id (key : string) : option string :=
  if String.prefix "op:" key then Some (String.substring 3 (String.length key - 3) key) else None.

(** The [ForEach] pass of [RecoverApplyingOperations]. *)
Fixpoint collect_recovering (l : list (string * bytes)) : tx B (list string) :=
  match l with
  | [] => tx_ret []
  | (key, _) :: l' =>
      match journal_id key with
      | None => collect_recovering l'
      | Some operationID =>
          let! found := loadOperationJournal operationID in
          let! rest := collect_recovering l' in
          match found with
          | Some j =>
              if String.eqb (j_Phase j) phaseApplying
                 && (negb (isDeletionCommandKind (j_Kind j)) || j_PayloadPresent j)
                 && negb (j_RecoveredDeletionPending j)
              then tx_ret (operationID :: rest) else tx_ret rest
          | None => tx_ret rest
          end
      end
  end.

Definition recover_one (now : Z) (operationID : string) : tx B unit :=
  let! found := loadOperationJournal operationID in
  match found with
  | None => tx_ret tt
  | Some j =>
      if negb (String.eqb (j_Phase j) phaseApplying) then tx_ret tt
      else
        let! _ := put_fences now (j_ForwardDeletions j) in
        let! _ := putOperationJournal operationID (with_reason (with_phase j phaseNacked) recovered_reason) in
        recordResultAndQueue operationID (recovered_json recovered_reason)
  end.

Definition RecoverApplyingOperations (now epoch : Z) (sessionID : string) : tx B unit :=
  let! _ := checkSession epoch sessionID in
  let! all := entries Operations in
  let! recovering := collect_recovering all in
  tx_iter (recover_one now) recovering.

Definition QueueResult (epoch : Z) (sessionID operationID : string) (res : bytes) : tx B unit :=
  let! _ := checkSession epoch sessionID in
  recordResultAndQueue operationID res.

Definition QueueResultSessionIndependent (operationID : string) (res : bytes) : tx B unit :=
  tx_fail_if String.eqb operationID "" with ErrOperationNotFound ;;
  recordResultAndQueue operationID res.

(** The common body of [ClaimOutbox], [MarkOutboxSent] and [AcceptSemanticACK]. *)
Definition advance_outbox (from to : string) (epoch : Z) (sessionID operationID : string) : tx B unit :=
  let! _ := checkSession epoch sessionID in
  let! value := get Outbox operationID in
  let '(state, payload) := splitOutboxValue value in
  tx_fail_if negb (String.eqb state from) with ErrIllegalPhase ;;
  put Outbox operationID (outbox_value to payload).

Definition ClaimOutbox : Z → string → string → tx B unit := advance_outbox phasePending phaseClaimed.
Definition MarkOutboxSent : Z → string → string → tx B unit := advance_outbox phaseClaimed phaseSent.
Definition AcceptSemanticACK : Z → string → string → tx B unit := advance_outbox phaseSent phaseSemanticACKed.

Definition AcceptReceipt (epoch : Z) (sessionID operationID : string) : tx B unit :=
  let! _ := checkSession epoch sessionID in
  let! receipt := get Operations (receiptKey operationID) in
  match receipt with Some _ => tx_fail ErrAlreadyReceipted | None =>
  let! value := get Outbox operationID in
  let '(state, payload) := splitOutboxValue value in
  tx_fail_if negb (String.eqb state phaseSemanticACKed) with ErrIllegalPhase ;;
  let! found := loadOperationJournal operationID in
  let messageID := match found with Some j => j_MessageID j | None => ""%string end in
  let! _ := put Operations (receiptKey operationID) payload in
  let! _ := del Outbox operationID in
  let! _ := del Operations operationID in
  let! _ := del Operations (opJournalKey operationID) in
  if negb (String.eqb messageID "") then del Inbox messageID else tx_ret tt
  end.

(** The [ForEach] pass of [RequeueOutboxForSession]; the result is the count. *)
Fixpoint requeue_rows (l : list (string * bytes)) : tx B nat :=
  match l with
  | [] => tx_ret O
  | (k, value) :: l' =>
      let '(state, payload) := splitOutboxValue (Some value) in
      if String.eqb state phasePending then requeue_rows l'
      else
        let! _ := put Outbox k (outbox_value phasePending payload) in
        let! n := requeue_rows l' in
        tx_ret (S n)
  end.

Definition RequeueOutboxForSession (epoch : Z) (sessionID : string) : tx B nat :=
  let! _ := checkSession epoch sessionID in
  let! rows := entries Outbox in
  requeue_rows rows.

(** *** Reads *)

Definition OperationPhase s (operationID : string) : result LsError (option string) :=
  let* r := loadOperationJournal operationID s in Ok (j_Phase <$> r.1).

Definition OutboxState s (operationID : string) : option string :=
  v ← bget (s_outbox s) operationID; Some (splitOutboxValue (Some v)).1.

Definition OutboxContains s (operationID : string) : bool := bool_decide (is_Some (bget (s_outbox s) operationID)).

Definition ReceiptExists s (operationID : string) : bool :=
  bool_decide (is_Some (bget (s_operations s) (receiptKey operationID))).

Definition ResultForOperationAnySession s (operationID : string) : result LsError bytes :=
  fail_if ReceiptExists s operationID with ErrAlreadyReceipted ;;
  of_option ErrOperationNotFound (bget (s_operations s) operationID).

Definition ResultForOperation s (epoch : Z) (sessionID operationID : string) : result LsError bytes :=
  let* _ := checkSession epoch sessionID s in ResultForOperationAnySession s operationID.

(** *** Controller pins *)

Definition SaveControllerPin (pin : ControllerPin) : tx B unit :=
  tx_fail_if String.eqb (cp_InstanceID pin) "" || String.eqb (cp_KeyID pin) ""
    || negb (zlen (cp_PublicKeyRaw pin) =? 32) with EInvalidPin ;;
  tx_fail_if cp_Generation pin =? 0 with EInvalidPin ;;
  let! existing := get Pins (cp_InstanceID pin) in
  match existing with
  | None => put Pins (cp_InstanceID pin) (marshal pin)
  | Some raw =>
      match unmarshal raw with
      | None => tx_fail EDecode
      | Some old =>
          tx_fail_if cp_Generation pin <? cp_Generation old with ErrPinDowngrade ;;
          put Pins (cp_InstanceID pin) (marshal pin)
      end
  end.

Definition GetControllerPin s (instanceID : string) : result LsError (option ControllerPin) :=
  match bget (s_pins s) instanceID with
  | None => Ok None
  | Some raw => match unmarshal raw with Some p => Ok (Some p) | None => Err EDecode end
  end.

(** ** Commands: every operation that changes the store, and its execution *)

Inductive cmd : Type :=
  | CAdvanceSession (epoch : Z) (session : string)
  | CReceive (now epoch : Z) (session op msg mtype hash kind : string)
  | CReceivePayload (now epoch : Z) (session op msg mtype : string) (payload : bytes) (kind : string)
  | CCompleteRecovered (epoch : Z) (session op : string)
  | CIntent (epoch : Z) (session op : string)
  | CApplying (epoch : Z) (session op : string)
  | CRecover (now epoch : Z) (session : string)
  | CComplete (epoch : Z) (session op : string) (res : bytes)
  | CNack (epoch : Z) (session op reason : string)
  | CNackResult (epoch : Z) (session op reason : string) (res : bytes)
  | CQueueNacked (epoch : Z) (session op : string)
  | CQueue (epoch : Z) (session op : string) (res : bytes)
  | CQueueIndependent (op : string) (res : bytes)
  | CClaim (epoch : Z) (session op : string)
  | CSent (epoch : Z) (session op : string)
  | CAck (epoch : Z) (session op : string)
  | CReceipt (epoch : Z) (session op : string)
  | CRequeue (epoch : Z) (session : string)
  | CPutIntent (now : Z) (i : ForwardDeleteIntent)
  | CPutIntents (now : Z) (l : list ForwardDeleteIntent)
  | CCompleteIntent (forward op : string)
  | CGCTombstone (forward : string)
  | CSavePin (pin : ControllerPin).

Definition drop_result {A} (m : tx B A) : tx B unit := let! _ := m in tx_ret tt.

Definition body (c : cmd) : tx B unit :=
  match c with
  | CAdvanceSession e ss => AdvanceSession e ss
  | CReceive now e ss op msg mt h k => drop_result (ReceiveCommand now e ss op msg mt h k)
  | CReceivePayload now e ss op msg mt p k => drop_result (ReceiveCommandWithPayloadStatus now e ss op msg mt p k)
  | CCompleteRecovered e ss op => CompleteRecoveredDeletion e ss op
  | CIntent e ss op => PersistOperationIntent e ss op
  | CApplying e ss op => MarkOperationApplying e ss op
  | CRecover now e ss => RecoverApplyingOperations now e ss
  | CComplete e ss op r => CompleteOperation e ss op r
  | CNack e ss op rs => NackOperation e ss op rs
  | CNackResult e ss op rs r => NackOperationWithResult e ss op rs r
  | CQueueNacked e ss op => QueueNackedResult e ss op
  | CQueue e ss op r => QueueResult e ss op r
  | CQueueIndependent op r => QueueResultSessionIndependent op r
  | CClaim e ss op => ClaimOutbox e ss op
  | CSent e ss op => MarkOutboxSent e ss op
  | CAck e ss op => AcceptSemanticACK e ss op
  | CReceipt e ss op => AcceptReceipt e ss op
  | CRequeue e ss => drop_result (RequeueOutboxForSession e ss)
  | CPutIntent now i => drop_result (PutForwardDeleteIntent now i)
  | CPutIntents now l => PutForwardDeleteIntents now l
  | CCompleteIntent f op => CompleteForwardDeleteIntent f op
  | CGCTombstone f => GCForwardTombstone f
  | CSavePin p => SaveControllerPin p
  end.

Definition exec (c : cmd) s : result LsError unit * Store B := Update (body c) s.

Definition run (cs : list cmd) s : Store B := foldl (λ s c, (exec c s).2) s cs.

Definition empty_store : Store B := mkStore bempty bempty bempty bempty bempty bempty bempty bempty bempty bempty bempty bempty bempty bempty.
End Journal.

#[global] Arguments splitOutboxValue : simpl never.
#[global] Arguments outbox_value : simpl never.
