(* ===== verification/JournalProofs.v ===== *)
(** * The journal's properties

    Inversion lemmas for transactions, the store invariant, and the theorems:
    fencing by session, delivery of results as a refinement of an abstract
    delivery automaton, the operation automaton, deletion fences and pins. *)

From Stdlib Require Import ZArith Lia Strings.Byte.
From stdpp Require Import base tactics list sets strings option gmap countable relations.
From S2P Require Import Prelude GoStd Domain Bolt Journal.

Open Scope Z_scope.

(** ** Stores *)

Lemma at_set_eq {B} (s : Store B) (b : bucket) (v : B) : at_bucket (set_bucket s b v) b = v.
Proof. by destruct b. Qed.

Lemma at_set_ne {B} (s : Store B) (b c : bucket) (v : B) : c ≠ b → at_bucket (set_bucket s b v) c = at_bucket s c.
Proof. intros H. by destruct b, c. Qed.

(** ** Inversion of transactions *)

Section TxLemmas.
Context {B : Type} `{BoltB : !Bolt B} `{EnvB : !JournalEnv}.
Implicit Types s : Store B.

Lemma tx_bind_Ok {A C} (m : tx B A) (k : A → tx B C) s c s'' :
  tx_bind m k s = Ok (c, s'') → ∃ a s', m s = Ok (a, s') ∧ k a s' = Ok (c, s'').
Proof. unfold tx_bind. destruct (m s) as [[a s']|] eqn:E; [|discriminate]. eauto. Qed.

Lemma tx_ret_Ok {A} (x a : A) s s' : tx_ret x s = Ok (a, s') → a = x ∧ s' = s.
Proof. unfold tx_ret. intros H. by simplify_eq. Qed.

Lemma get_Ok (b : bucket) (k : string) s v s' : get b k s = Ok (v, s') → v = bget (at_bucket s b) k ∧ s' = s.
Proof. unfold get. intros H. by simplify_eq. Qed.

Lemma put_Ok (b : bucket) (k : string) (v : bytes) s u s' :
  put b k v s = Ok (u, s') → ∃ b', bput (at_bucket s b) k v = Some b' ∧ s' = set_bucket s b b'.
Proof. unfold put. destruct (bput _ k v) as [b'|] eqn:E; [|discriminate]. intros H. simplify_eq. eauto. Qed.

Lemma del_Ok (b : bucket) (k : string) s u s' : del b k s = Ok (u, s') → s' = set_bucket s b (bdel (at_bucket s b) k).
Proof. unfold del. intros H. by simplify_eq. Qed.

Lemma entries_Ok (b : bucket) s l s' : entries b s = Ok (l, s') → l = bentries (at_bucket s b) ∧ s' = s.
Proof. unfold entries. intros H. by simplify_eq. Qed.

Lemma checkSession_Ok (e : Z) (ss : string) s u s' :
  checkSession e ss s = Ok (u, s') → CurrentSession s = (e, ss) ∧ s' = s.
Proof.
  unfold checkSession. destruct (CurrentSession s) as [ce cs] eqn:E. destruct (_ || _) eqn:Eb; [discriminate|].
  bool_prop. subst. intros H. unfold tx_ret in H. by simplify_eq.
Qed.

Lemma loadJournal_Ok (op : string) s r s' :
  loadOperationJournal op s = Ok (r, s') →
  s' = s ∧ r = (bget (s_operations s) (opJournalKey op) ≫= unmarshal)
  ∧ (r = None → bget (s_operations s) (opJournalKey op) = None).
Proof.
  unfold loadOperationJournal. intros (v & s1 & Hg & H)%tx_bind_Ok. apply get_Ok in Hg as [-> ->].
  cbn [at_bucket] in H. destruct (bget (s_operations s) (opJournalKey op)) as [raw|]; cbn.
  - destruct (unmarshal raw); [|discriminate]. apply tx_ret_Ok in H as [-> ->]. done.
  - apply tx_ret_Ok in H as [-> ->]. done.
Qed.

Lemma require_phase_Ok (op ph : string) s j s' :
  require_phase op ph s = Ok (j, s') →
  s' = s ∧ j_Phase j = ph ∧ bget (s_operations s) (opJournalKey op) ≫= unmarshal = Some j.
Proof.
  unfold require_phase. intros (r & s1 & Hl & H)%tx_bind_Ok. apply loadJournal_Ok in Hl as (-> & Hr & _).
  destruct r as [j'|]; [|discriminate]. destruct (negb _) eqn:E; [discriminate|]. bool_prop.
  apply tx_ret_Ok in H as [-> ->]. done.
Qed.

Lemma loadIntent_Ok (f : string) s r s' :
  loadForwardDeleteIntentTx f s = Ok (r, s') →
  s' = s ∧ r = (bget (s_intents s) f ≫= unmarshal) ∧ (r = None → bget (s_intents s) f = None).
Proof.
  unfold loadForwardDeleteIntentTx. intros (v & s1 & Hg & H)%tx_bind_Ok. apply get_Ok in Hg as [-> ->].
  cbn [at_bucket] in H. destruct (bget (s_intents s) f) as [raw|]; cbn.
  - destruct (unmarshal raw); [|discriminate]. do 2 (destruct (negb _); [discriminate|]).
    apply tx_ret_Ok in H as [-> ->]. done.
  - apply tx_ret_Ok in H as [-> ->]. done.
Qed.

Lemma loadTombstone_Ok (f : string) s r s' :
  loadForwardTombstoneTx f s = Ok (r, s') →
  s' = s ∧ r = (bget (s_tombstones s) f ≫= unmarshal) ∧ (r = None → bget (s_tombstones s) f = None).
Proof.
  unfold loadForwardTombstoneTx. intros (v & s1 & Hg & H)%tx_bind_Ok. apply get_Ok in Hg as [-> ->].
  cbn [at_bucket] in H. destruct (bget (s_tombstones s) f) as [raw|]; cbn.
  - destruct (unmarshal raw); [|discriminate]. destruct (_ || _); [discriminate|].
    apply tx_ret_Ok in H as [-> ->]. done.
  - apply tx_ret_Ok in H as [-> ->]. done.
Qed.

(** A fence write touches only the intents bucket, and only a free forward. *)
Lemma putIntent_Ok (i : ForwardDeleteIntent) s r s' :
  putForwardDeleteIntentTx i s = Ok (r, s') →
  s' = s ∨ ∃ b', bget (s_intents s) (fi_ForwardID i) = None ∧ bget (s_tombstones s) (fi_ForwardID i) = None
    ∧ bput (s_intents s) (fi_ForwardID i) (marshal i) = Some b' ∧ s' = set_bucket s Intents b'.
Proof.
  unfold putForwardDeleteIntentTx. destruct (negb _); [discriminate|].
  intros (found & s1 & Hl & H)%tx_bind_Ok. apply loadIntent_Ok in Hl as (-> & _ & Hn). destruct found as [e|].
  { destruct (_ || _); [discriminate|]. apply tx_ret_Ok in H as [_ ->]. by left. }
  apply tx_bind_Ok in H as (raw & s1 & Hg & H). apply get_Ok in Hg as [-> ->]. cbn [at_bucket] in H.
  destruct (bget (s_tombstones s) _) as [v|] eqn:Et.
  { destruct (unmarshal v); [|discriminate]. destruct (_ || _); [discriminate|].
    apply tx_ret_Ok in H as [_ ->]. by left. }
  apply tx_bind_Ok in H as (u & s1 & Hp & H). apply put_Ok in Hp as (b' & Hb & ->).
  apply tx_ret_Ok in H as [_ ->]. right. exists b'. by rewrite Hn.
Qed.

(** ** Preorders on stores *)

Definition respects {A} (R : relation (Store B)) (m : tx B A) : Prop := ∀ s a s', m s = Ok (a, s') → R s s'.

Lemma respects_iter {A} (R : relation (Store B)) `{!PreOrder R} (f : A → tx B unit) (l : list A) :
  (∀ x, x ∈ l → respects R (f x)) → respects R (tx_iter f l).
Proof.
  induction l as [|x l IH]; intros Hf s a s'; cbn; intros H.
  - apply tx_ret_Ok in H as [_ ->]. reflexivity.
  - apply tx_bind_Ok in H as (u & s1 & H1 & H). transitivity s1; [eapply Hf; [left|exact H1]|].
    eapply IH; [|exact H]. intros y Hy. apply Hf. by right.
Qed.

Lemma respects_fence (R : relation (Store B)) `{!PreOrder R} (now : Z) (l : ForwardDeletionLink) :
  (∀ i, respects R (putForwardDeleteIntentTx i)) → respects R (put_fence now l).
Proof.
  intros Hi s a s'. unfold put_fence. destruct (putForwardDeleteIntentTx _ s) as [[r s1]|e] eqn:E.
  - intros H. simplify_eq. eapply Hi, E.
  - destruct e; intros H; simplify_eq; reflexivity.
Qed.

Lemma respects_fences (R : relation (Store B)) `{!PreOrder R} (now : Z) (l : list ForwardDeletionLink) :
  (∀ i, respects R (putForwardDeleteIntentTx i)) → respects R (put_fences now l).
Proof. intros Hi. apply respects_iter; [done|]. intros x _. by apply respects_fence. Qed.
End TxLemmas.

(** ** Keys *)

(** Operation ids outside the two reserved prefixes. *)
Definition clean (id : string) : Prop := String.prefix "op:" id = false ∧ String.prefix "receipt:" id = false.

Lemma opJournalKey_inj (a b : string) : opJournalKey a = opJournalKey b → a = b.
Proof. unfold opJournalKey. cbn. intros H. by simplify_eq. Qed.

Lemma receiptKey_inj (a b : string) : receiptKey a = receiptKey b → a = b.
Proof. unfold receiptKey. cbn. intros H. by simplify_eq. Qed.

Lemma op_receipt_ne (a b : string) : opJournalKey a ≠ receiptKey b.
Proof. done. Qed.

Lemma clean_op_ne (a b : string) : clean a → a ≠ opJournalKey b.
Proof. intros [H _] ->. unfold opJournalKey in H. cbn in H. by destruct b. Qed.

Lemma clean_receipt_ne (a b : string) : clean a → a ≠ receiptKey b.
Proof. intros [_ H] ->. unfold receiptKey in H. cbn in H. by destruct b. Qed.

Lemma substring_all (s : string) : String.substring 0 (String.length s) s = s.
Proof. induction s as [|c s IH]; cbn; congruence. Qed.

Lemma prefix_inv (p s : string) : String.prefix p s = true → ∃ r, s = String.append p r.
Proof.
  revert s. induction p as [|a p IH]; intros s; [by exists s|]. destruct s as [|b s]; [discriminate|].
  cbn [String.prefix]. destruct (Ascii.ascii_dec a b) as [->|]; [|discriminate].
  intros [r ->]%IH. by exists r.
Qed.

Lemma journal_id_Some (key id : string) : journal_id key = Some id → key = opJournalKey id.
Proof.
  unfold journal_id. destruct (String.prefix "op:" key) eqn:E; [|discriminate].
  apply prefix_inv in E as [r ->]. intros H. injection H as <-. unfold opJournalKey. cbn. rewrite Nat.sub_0_r.
  by rewrite substring_all.
Qed.

(** ** Outbox rows *)

Definition outbox_phases : list string := [phasePending; phaseClaimed; phaseSent; phaseSemanticACKed].

Lemma index_byte_app (c : byte) (a b : bytes) : c ∉ a → index_byte c (a ++ c :: b) = Some (length a).
Proof.
  induction a as [|x a IH]; cbn; intros H.
  - by rewrite bool_decide_eq_true_2.
  - rewrite bool_decide_eq_false_2 by set_solver. rewrite IH by set_solver. done.
Qed.

Lemma split_outbox_value (ph : string) (x : bytes) :
  ph ∈ outbox_phases → splitOutboxValue (Some (outbox_value ph x)) = (ph, x).
Proof.
  intros Hp. unfold splitOutboxValue, outbox_value. assert (Byte.x00 ∉ bytes_of ph) as Hz.
  { apply index_byte_None. unfold outbox_phases in Hp.
    repeat (apply elem_of_cons in Hp as [->|Hp]; [reflexivity|]). by apply elem_of_nil in Hp. }
  rewrite index_byte_app by done. rewrite take_exact, drop_past by done. by rewrite string_of_bytes_of.
Qed.

(** ** The abstract delivery automaton of one operation's result *)

Inductive delivery : Type := Unqueued | Queued (phase : string) (payload : bytes) | Receipted (payload : bytes).

Inductive dstep : delivery → delivery → Prop :=
  | d_queue (x : bytes) : dstep Unqueued (Queued phasePending x)
  | d_advance (p p' : string) (x : bytes) :
      fsm_step "outbox" p p' → p' ∈ outbox_phases → dstep (Queued p x) (Queued p' x)
  | d_requeue (p : string) (x : bytes) : dstep (Queued p x) (Queued phasePending x)
  | d_receipt (x : bytes) : fsm_step "outbox" phaseSemanticACKed "RECEIPTED" → dstep (Queued phaseSemanticACKed x) (Receipted x).

Lemma dsteps_receipted (x : bytes) (d : delivery) : rtc dstep (Receipted x) d → d = Receipted x.
Proof. intros H. inversion H as [|? ? ? Hs]; [done|inversion Hs]. Qed.

Definition payload_of (d : delivery) : option bytes :=
  match d with Unqueued => None | Queued _ x => Some x | Receipted x => Some x end.

Lemma dsteps_payload (d d' : delivery) (x : bytes) : rtc dstep d d' → payload_of d = Some x → payload_of d' = Some x.
Proof. induction 1 as [|d1 d2 d3 Hs _ IH]; [done|]. intros Hx. apply IH. by destruct Hs. Qed.

Section Delivery.
Context {B : Type} `{BoltB : !Bolt B} `{LawsB : !BoltLaws B} `{EnvB : !JournalEnv}.
Implicit Types s : Store B.

Definition view s (id : string) : delivery :=
  match bget (s_operations s) (receiptKey id) with
  | Some x => Receipted x
  | None => match bget (s_outbox s) id with
            | Some v => let '(p, x) := splitOutboxValue (Some v) in Queued p x
            | None => Unqueued
            end
  end.

(** The store invariant: journal rows and outbox rows have clean ids; an outbox row has
    a known phase, belongs to no receipted operation, and its payload is the recorded
    result. *)
Record inv s : Prop := {
  inv_journal id : is_Some (bget (s_operations s) (opJournalKey id)) → clean id;
  inv_rows id v : bget (s_outbox s) id = Some v →
    clean id ∧ bget (s_operations s) (receiptKey id) = None
    ∧ ∃ p x, p ∈ outbox_phases ∧ v = outbox_value p x ∧ bget (s_operations s) id = Some x
}.

Lemma inv_empty : inv empty_store.
Proof.
  split.
  - intros id. cbn. rewrite bget_bempty. by intros [? ?].
  - intros id v. cbn. by rewrite bget_bempty.
Qed.

Definition good s s' : Prop := inv s → inv s' ∧ ∀ id, rtc dstep (view s id) (view s' id).

#[export] Instance good_preorder : PreOrder good.
Proof.
  split.
  - intros s Hi. split; [done|]. intros id. reflexivity.
  - intros s1 s2 s3 H12 H23 H1. destruct (H12 H1) as [H2 V2]. destruct (H23 H2) as [H3 V3].
    split; [done|]. intros id. etrans; [apply V2|apply V3].
Qed.

Lemma good_same s s' : s_outbox s' = s_outbox s → s_operations s' = s_operations s → good s s'.
Proof.
  intros Ho Hp [Hj Hr]. split.
  - split; [|intros id v]; rewrite ?Ho, Hp; [apply Hj|apply Hr].
  - intros id. unfold view. rewrite Ho, Hp. reflexivity.
Qed.

Lemma good_bucket s (b : bucket) (v : B) : b ≠ Outbox → b ≠ Operations → good s (set_bucket s b v).
Proof. intros Ho Hp. apply good_same; by destruct b. Qed.

Lemma good_intent (i : ForwardDeleteIntent) : respects good (putForwardDeleteIntentTx i).
Proof.
  intros s r s' [->|(b' & _ & _ & _ & ->)]%putIntent_Ok; [reflexivity|]. by apply good_bucket.
Qed.

Lemma good_journal (op : string) (j : operationJournal) : clean op → respects good (putOperationJournal op j).
Proof.
  intros Hc s u s' (b' & Hb & ->)%put_Ok [Hj Hr]. cbn [at_bucket] in Hb.
  assert (Hne : ∀ k, k ≠ opJournalKey op → bget b' k = bget (s_operations s) k)
    by (intros k Hk; by apply (bget_bput_ne _ _ _ _ _ Hk Hb)).
  split.
  - split; cbn.
    + intros id. destruct (decide (opJournalKey id = opJournalKey op)) as [->%opJournalKey_inj|Hn]; [done|].
      rewrite Hne by done. apply Hj.
    + intros id v (Hcl & Hrc & p & x & ? & ? & ?)%Hr. split; [done|].
      rewrite (Hne (receiptKey id)) by done. split; [done|]. exists p, x.
      rewrite (Hne id) by by apply clean_op_ne. done.
  - intros id. unfold view; cbn. rewrite (Hne (receiptKey id)) by done. reflexivity.
Qed.

Lemma good_record (op : string) (x : bytes) : clean op → respects good (recordResultAndQueue op x).
Proof.
  intros Hc s u s'. unfold recordResultAndQueue.
  intros (r & s1 & Hg & H)%tx_bind_Ok. apply get_Ok in Hg as [-> ->]. cbn [at_bucket] in H.
  destruct (bget (s_operations s) (receiptKey op)) eqn:Erc; [discriminate|].
  apply tx_bind_Ok in H as (c & s1 & Hg & H). apply get_Ok in Hg as [-> ->]. cbn [at_bucket] in H.
  destruct (bget (s_outbox s) op) eqn:Eo; [apply tx_ret_Ok in H as [_ ->]; reflexivity|].
  apply tx_bind_Ok in H as (c & s1 & Hg & H). apply get_Ok in Hg as [-> ->].
  destruct (match _ with Some _ => _ | None => _ end); [discriminate|].
  apply tx_bind_Ok in H as (c & s1 & Hp & H). apply put_Ok in Hp as (b1 & Hb1 & ->). apply put_Ok in H as (b2 & Hb2 & ->).
  cbn [at_bucket] in Hb1. rewrite (at_set_ne s Operations Outbox) in Hb2 by done. cbn [at_bucket] in Hb2.
  assert (N1 : ∀ k, k ≠ op → bget b1 k = bget (s_operations s) k) by (intros k Hk; by apply (bget_bput_ne _ _ _ _ _ Hk Hb1)).
  assert (N2 : ∀ k, k ≠ op → bget b2 k = bget (s_outbox s) k) by (intros k Hk; by apply (bget_bput_ne _ _ _ _ _ Hk Hb2)).
  intros [Hj Hr]. split.
  - split; cbn.
    + intros id. rewrite N1 by (apply not_eq_sym, clean_op_ne, Hc). apply Hj.
    + intros id v. destruct (decide (id = op)) as [->|Hn].
      * rewrite (bget_bput_eq _ _ _ _ Hb2). intros [= <-]. split; [done|].
        rewrite N1 by (apply not_eq_sym, clean_receipt_ne, Hc). split; [done|].
        exists phasePending, x. split; [left|]. split; [done|]. by apply (bget_bput_eq _ _ _ _ Hb1).
      * rewrite N2 by done. intros (Hcl & Hrc & Hx)%Hr. split; [done|].
        rewrite N1 by (apply not_eq_sym, clean_receipt_ne, Hc). by rewrite N1.
  - intros id. unfold view; cbn. rewrite N1 by (apply not_eq_sym, clean_receipt_ne, Hc).
    destruct (decide (id = op)) as [->|Hn]; [|by rewrite N2].
    rewrite Erc, Eo, (bget_bput_eq _ _ _ _ Hb2), split_outbox_value by left. apply rtc_once. constructor.
Qed.

(** Rewriting the phase of one existing row. *)
Lemma good_row s (op : string) (p p' : string) (x : bytes) (b' : B) :
  bget (s_outbox s) op = Some (outbox_value p x) → p ∈ outbox_phases → p' ∈ outbox_phases →
  dstep (Queued p x) (Queued p' x) →
  bput (s_outbox s) op (outbox_value p' x) = Some b' → good s (set_bucket s Outbox b').
Proof.
  intros Ho Hp Hp' Hs Hb [Hj Hr]. destruct (Hr _ _ Ho) as (Hcl & Hrc & q & y & Hq & Hv & Hx).
  assert (y = x) as ->.
  { apply (f_equal (λ v, (splitOutboxValue (Some v)).2)) in Hv. by rewrite !split_outbox_value in Hv. }
  assert (N : ∀ k, k ≠ op → bget b' k = bget (s_outbox s) k) by (intros k Hk; by apply (bget_bput_ne _ _ _ _ _ Hk Hb)).
  split.
  - split; cbn; [done|]. intros id v. destruct (decide (id = op)) as [->|Hn]; [|rewrite N by done; apply Hr].
    rewrite (bget_bput_eq _ _ _ _ Hb). intros [= <-]. split; [done|]. split; [done|]. by exists p', x.
  - intros id. unfold view; cbn. destruct (decide (id = op)) as [->|Hn]; [|by rewrite N].
    rewrite Hrc, Ho, (bget_bput_eq _ _ _ _ Hb), !split_outbox_value by done. by apply rtc_once.
Qed.

Lemma inv_row_split s (op : string) (v : bytes) :
  inv s → bget (s_outbox s) op = Some v →
  ∃ p x, splitOutboxValue (Some v) = (p, x) ∧ p ∈ outbox_phases ∧ v = outbox_value p x.
Proof.
  intros [_ Hr] (_ & _ & p & x & Hp & -> & _)%Hr. exists p, x. by rewrite split_outbox_value.
Qed.

Lemma good_advance (from to : string) (e : Z) (ss op : string) :
  fsm_step "outbox" from to → to ∈ outbox_phases → from ≠ ""%string → respects good (advance_outbox from to e ss op).
Proof.
  intros Hf Ht Hne s u s'. unfold advance_outbox. intros (u1 & s1 & Hc & H)%tx_bind_Ok.
  apply checkSession_Ok in Hc as [_ ->]. apply tx_bind_Ok in H as (v & s1 & Hg & H). apply get_Ok in Hg as [-> ->].
  cbn [at_bucket] in H. intros Hi. destruct (bget (s_outbox s) op) as [v|] eqn:Eo.
  - destruct (inv_row_split _ _ _ Hi Eo) as (p & x & Hsp & Hp & ->). rewrite Hsp in H.
    destruct (negb _) eqn:E; [discriminate|]. bool_prop. subst p. apply put_Ok in H as (b' & Hb & ->).
    apply (good_row s op from to x b'); try done. by constructor.
  - cbn [splitOutboxValue] in H. unfold splitOutboxValue in H. destruct (negb _) eqn:E; [discriminate|]. bool_prop. done.
Qed.

Lemma good_requeue (l : list (string * bytes)) s n s' :
  NoDup l.*1 → (∀ k v, (k, v) ∈ l → bget (s_outbox s) k = Some v) →
  requeue_rows l s = Ok (n, s') → good s s'.
Proof.
  revert s n. induction l as [|[k v] l IH]; intros s n Hnd Hl; cbn [requeue_rows].
  { intros [_ ->]%tx_ret_Ok. reflexivity. }
  apply list.NoDup_cons in Hnd as [Hk Hnd]. intros H Hi.
  assert (Hv : bget (s_outbox s) k = Some v) by (apply Hl; left).
  destruct (inv_row_split _ _ _ Hi Hv) as (p & x & Hsp & Hp & ->). rewrite Hsp in H.
  destruct (String.eqb p phasePending); [eapply IH; [done| |exact H|done]; intros; apply Hl; by right|].
  apply tx_bind_Ok in H as (u & s1 & Hput & H). apply put_Ok in Hput as (b' & Hb & ->).
  apply tx_bind_Ok in H as (m & s2 & Hrest & H). apply tx_ret_Ok in H as [_ ->].
  assert (G1 : good s (set_bucket s Outbox b')).
  { eapply (good_row s k p phasePending x b'); try done; [left|apply d_requeue]. }
  assert (G2 : good (set_bucket s Outbox b') s2).
  { eapply (IH _ m); [done| |exact Hrest]. intros k' v' Hin. cbn.
    rewrite (bget_bput_ne (s_outbox s) b' k k' (outbox_value phasePending x)); [|intros ->|exact Hb].
    - apply Hl. by right.
    - apply Hk. apply list_elem_of_fmap. by exists (k, v').
  }
  exact (transitivity G1 G2 Hi).
Qed.

Lemma good_receipt (e : Z) (ss op : string) : clean op → respects good (AcceptReceipt e ss op).
Proof.
  intros Hc s u s'. unfold AcceptReceipt. intros (u1 & s1 & Hk & H)%tx_bind_Ok.
  apply checkSession_Ok in Hk as [_ ->]. apply tx_bind_Ok in H as (v & s1 & Hg & H). apply get_Ok in Hg as [-> ->].
  cbn [at_bucket] in H. destruct (bget (s_operations s) (receiptKey op)) eqn:Erc; [discriminate|].
  apply tx_bind_Ok in H as (v & s1 & Hg & H). apply get_Ok in Hg as [-> ->]. cbn [at_bucket] in H.
  intros Hi. destruct (bget (s_outbox s) op) as [v|] eqn:Eo; [|discriminate H].
  destruct (inv_row_split _ _ _ Hi Eo) as (p & x & Hsp & Hp & ->). rewrite Hsp in H.
  destruct (negb _) eqn:E; [discriminate|]. bool_prop. subst p.
  apply tx_bind_Ok in H as (r & s1 & Hl & H). apply loadJournal_Ok in Hl as (-> & _).
  apply tx_bind_Ok in H as (u2 & s1 & Hput & H). apply put_Ok in Hput as (b1 & Hb & ->). cbn [at_bucket] in Hb.
  apply tx_bind_Ok in H as (u3 & s2 & Hd & H). apply del_Ok in Hd as ->.
  apply tx_bind_Ok in H as (u4 & s2 & Hd & H). apply del_Ok in Hd as ->.
  apply tx_bind_Ok in H as (u5 & s2 & Hd & H). apply del_Ok in Hd as ->.
  set (s3 := set_bucket _ Operations _) in H.
  assert (G : good s3 s').
  { destruct (negb _); [apply del_Ok in H as ->; by apply good_bucket|apply tx_ret_Ok in H as [_ ->]; reflexivity]. }
  cut (good s s3); [intros G0; exact (transitivity G0 G Hi)|]. clear G H. destruct Hi as [Hj Hr].
  assert (N : ∀ k, k ≠ receiptKey op → bget b1 k = bget (s_operations s) k)
    by (intros k Hk; by apply (bget_bput_ne _ _ _ _ _ Hk Hb)).
  assert (NR : ∀ id, bget (s_operations s3) (receiptKey id) = bget b1 (receiptKey id)).
  { intros id. cbn. rewrite !bget_bdel_ne; [done|by apply not_eq_sym, clean_receipt_ne|done]. }
  intros _. split.
  - split.
    + intros id. cbn. destruct (decide (opJournalKey id = opJournalKey op)) as [->|Hn]; [rewrite bget_bdel_eq; by intros [? ?]|].
      rewrite !bget_bdel_ne, N by (done || by apply not_eq_sym, clean_op_ne). apply Hj.
    + intros id v. cbn [s3 set_bucket s_outbox]. destruct (decide (id = op)) as [->|Hn]; [by rewrite bget_bdel_eq|].
      rewrite bget_bdel_ne by done. intros (Hcl & Hrc & q & y & Hq & Hv & Hy)%Hr. split; [done|].
      rewrite NR, N by (intros ->%receiptKey_inj; done). split; [done|]. exists q, y. split_and!; try done.
      cbn. rewrite !bget_bdel_ne, N; [done|by apply clean_receipt_ne|done|by apply clean_op_ne].
  - intros id. unfold view. rewrite NR. cbn [s3 set_bucket s_outbox]. destruct (decide (id = op)) as [->|Hn].
    + rewrite (bget_bput_eq _ _ _ _ Hb), Erc, Eo, Hsp. apply rtc_once. constructor. vm_compute. reflexivity.
    + rewrite N by (intros ->%receiptKey_inj; done). by rewrite bget_bdel_ne by done.
Qed.
End Delivery.

(** ** Every command respects the invariant and the delivery automaton *)

(** The operation ids a command introduces lie outside the reserved prefixes. *)
Definition cmd_clean (c : cmd) : Prop :=
  match c with
  | CReceive _ _ _ op _ _ _ _ | CReceivePayload _ _ _ op _ _ _ _ | CCompleteRecovered _ _ op | CIntent _ _ op
  | CApplying _ _ op | CComplete _ _ op _ | CNack _ _ op _ | CNackResult _ _ op _ _ | CQueueNacked _ _ op
  | CQueue _ _ op _ | CQueueIndependent op _ | CReceipt _ _ op => clean op
  | _ => True
  end.

(** Walk through a transaction: bind, read and check steps leave the store alone. *)
Ltac tx_walk H :=
  repeat match type of H with
  | tx_bind (checkSession _ _) _ _ = Ok _ =>
      let u := fresh "u" in let s1 := fresh "s" in let Hc := fresh "Hc" in
      apply tx_bind_Ok in H as (u & s1 & Hc & H); apply checkSession_Ok in Hc as [Hc ->]
  | tx_bind (get _ _) _ _ = Ok _ =>
      let v := fresh "v" in let s1 := fresh "s" in let Hg := fresh "Hg" in
      apply tx_bind_Ok in H as (v & s1 & Hg & H); apply get_Ok in Hg as [-> ->]; cbn [at_bucket] in H
  | tx_bind (entries _) _ _ = Ok _ =>
      let v := fresh "v" in let s1 := fresh "s" in let Hg := fresh "Hg" in
      apply tx_bind_Ok in H as (v & s1 & Hg & H); apply entries_Ok in Hg as [-> ->]; cbn [at_bucket] in H
  | tx_bind (loadOperationJournal _) _ _ = Ok _ =>
      let v := fresh "r" in let s1 := fresh "s" in let Hl := fresh "Hl" in
      apply tx_bind_Ok in H as (v & s1 & Hl & H); apply loadJournal_Ok in Hl as (-> & Hl)
  | tx_bind (require_phase _ _) _ _ = Ok _ =>
      let v := fresh "j" in let s1 := fresh "s" in let Hl := fresh "Hph" in
      apply tx_bind_Ok in H as (v & s1 & Hl & H); apply require_phase_Ok in Hl as (-> & Hl)
  | tx_bind (loadForwardDeleteIntentTx _) _ _ = Ok _ =>
      let v := fresh "i" in let s1 := fresh "s" in let Hl := fresh "Hi" in
      apply tx_bind_Ok in H as (v & s1 & Hl & H); apply loadIntent_Ok in Hl as (-> & Hl)
  | tx_bind (loadForwardTombstoneTx _) _ _ = Ok _ =>
      let v := fresh "t" in let s1 := fresh "s" in let Hl := fresh "Ht" in
      apply tx_bind_Ok in H as (v & s1 & Hl & H); apply loadTombstone_Ok in Hl as (-> & Hl)
  | tx_ret _ _ = Ok _ => apply tx_ret_Ok in H as [? ->]
  | tx_fail _ _ = Ok _ => discriminate H
  | (if ?b then _ else _) _ = Ok _ => let E := fresh "E" in destruct b eqn:E
  | (match ?o with Some _ => _ | None => _ end) _ = Ok _ => let E := fresh "E" in destruct o eqn:E
  end.

Section Commands.
Context {B : Type} `{BoltB : !Bolt B} `{LawsB : !BoltLaws B} `{EnvB : !JournalEnv}.
Implicit Types s : Store B.

(** Two ways to finish a walk: nothing changed, or a sequence of respectful steps. *)
Lemma respects_bind {A C} (R : relation (Store B)) `{!PreOrder R} (m : tx B A) (k : A → tx B C) :
  respects R m → (∀ a, respects R (k a)) → respects R (tx_bind m k).
Proof.
  intros Hm Hk s c s' (a & s1 & H1 & H2)%tx_bind_Ok. etrans; [eapply Hm, H1|eapply Hk, H2].
Qed.

Lemma respects_ret {A} (R : relation (Store B)) `{!PreOrder R} (a : A) : respects R (tx_ret a).
Proof. intros s c s' [_ ->]%tx_ret_Ok. reflexivity. Qed.

Lemma good_put_other (b : bucket) (k : string) (v : bytes) : b ≠ Outbox → b ≠ Operations → respects good (put b k v).
Proof. intros Ho Hp s u s' (b' & _ & ->)%put_Ok. by apply good_bucket. Qed.

Lemma good_del_other (b : bucket) (k : string) : b ≠ Outbox → b ≠ Operations → respects good (del b k).
Proof. intros Ho Hp s u s' ->%del_Ok. by apply good_bucket. Qed.

Lemma good_fences (now : Z) (l : list ForwardDeletionLink) : respects good (put_fences (B := B) now l).
Proof. apply respects_fences; [apply _|]. apply good_intent. Qed.

Lemma good_journal_record (op : string) (j : operationJournal) (x : bytes) :
  clean op → respects good (let! _ := putOperationJournal op j in recordResultAndQueue op x).
Proof. intros Hc. apply respects_bind; [apply _|by apply good_journal|]. intros _. by apply good_record. Qed.

Lemma good_receive (now e : Z) (ss op msg mt h k : string) (p : bytes) (pp : bool) (l : list ForwardDeletionLink) :
  clean op → respects good (receiveCommandTx now e ss op msg mt h k p pp l).
Proof.
  intros Hc s r s' H. unfold receiveCommandTx in H. tx_walk H; try reflexivity.
  - revert H. apply respects_bind; [apply _|apply good_fences|]. intros _.
    apply respects_bind; [apply _|by apply good_journal|]. intros _. apply respects_ret, _.
  - revert H. apply respects_bind; [apply _|by apply good_put_other|]. intros _.
    apply respects_bind; [apply _|by apply good_journal|]. intros _.
    apply respects_bind; [apply _|apply good_fences|]. intros _. apply respects_ret, _.
Qed.

Lemma collect_Ok (l : list (string * bytes)) s ids s' :
  collect_recovering l s = Ok (ids, s') →
  s' = s ∧ ∀ id, id ∈ ids → ∃ v, (opJournalKey id, v) ∈ l.
Proof.
  revert ids s'. induction l as [|[k v] l IH]; intros ids s' H; cbn [collect_recovering] in H.
  { apply tx_ret_Ok in H as [-> ->]. split; [done|]. intros id Hid. by apply elem_of_nil in Hid. }
  destruct (journal_id k) as [op|] eqn:Ek.
  - apply journal_id_Some in Ek as ->. tx_walk H.
    apply tx_bind_Ok in H as (rest & s1 & Hr & H). destruct (IH _ _ Hr) as [-> Hin].
    tx_walk H; subst ids; split; try done; intros id Hid; repeat (apply elem_of_cons in Hid as [->|Hid]);
      try (exists v; left); destruct (Hin _ Hid) as [w Hw]; exists w; by right.
  - destruct (IH _ _ H) as [-> Hin]. split; [done|]. intros id Hid. destruct (Hin _ Hid) as [w Hw]. exists w. by right.
Qed.

Lemma good_recover_one (now : Z) (op : string) : clean op → respects good (recover_one (B := B) now op).
Proof.
  intros Hc s u s' H. unfold recover_one in H. tx_walk H; try reflexivity.
  revert H. apply respects_bind; [apply _|apply good_fences|]. intros _. by apply good_journal_record.
Qed.

Lemma good_recover (now e : Z) (ss : string) : respects good (RecoverApplyingOperations (B := B) now e ss).
Proof.
  intros s u s' H Hi. unfold RecoverApplyingOperations in H. tx_walk H.
  apply tx_bind_Ok in H as (ids & s1 & Hcol & H). apply collect_Ok in Hcol as [-> Hin].
  assert (Hids : ∀ op, op ∈ ids → clean op).
  { intros op Hop. destruct (Hin _ Hop) as [v Hv]. apply bentries_spec in Hv. by eapply inv_journal; [|eexists]. }
  assert (G : respects good (tx_iter (recover_one now) ids)).
  { apply respects_iter; [apply _|]. intros op Hop. by apply good_recover_one, Hids. }
  exact (G _ _ _ H Hi).
Qed.

Lemma good_drop {A} (m : tx B A) : respects good m → respects good (drop_result m).
Proof. intros Hm. apply respects_bind; [apply _|done|]. intros _. apply respects_ret, _. Qed.

Lemma good_advance_session (e : Z) (ss : string) : respects good (AdvanceSession (B := B) e ss).
Proof.
  intros s u s'. unfold AdvanceSession. destruct (CurrentSession s) as [ce cs]. intros H. tx_walk H; [reflexivity|].
  revert H. apply respects_bind; [apply _|by apply good_put_other|]. intros _. by apply good_put_other.
Qed.

Lemma good_intents (now : Z) (l : list ForwardDeleteIntent) : respects good (PutForwardDeleteIntents (B := B) now l).
Proof.
  unfold PutForwardDeleteIntents. destruct (prepare_intents now [] l); [|intros s u s'; discriminate].
  apply respects_iter; [apply _|]. intros i _. apply respects_bind; [apply _|apply good_intent|].
  intros _. apply respects_ret, _.
Qed.

Lemma good_body (c : cmd) : cmd_clean c → respects good (body (B := B) c).
Proof.
  intros Hc. destruct c; cbn [body cmd_clean] in *.
  - apply good_advance_session.
  - apply good_drop, respects_bind; [apply _|by apply good_receive|]. intros ?. apply respects_ret, _.
  - by apply good_drop, good_receive.
  - intros s u s' H. unfold CompleteRecoveredDeletion in H. tx_walk H. by apply good_journal in H.
  - intros s u s' H. unfold PersistOperationIntent in H. tx_walk H. by apply good_journal in H.
  - intros s u s' H. unfold MarkOperationApplying in H. tx_walk H. cbv zeta in H. by apply good_journal in H.
  - apply good_recover.
  - intros s u s' H. unfold CompleteOperation in H. tx_walk H. by apply good_journal_record in H.
  - intros s u s' H. unfold NackOperation in H. tx_walk H. by apply good_journal in H.
  - intros s u s' H. unfold NackOperationWithResult in H. tx_walk H. by apply good_journal_record in H.
  - intros s u s' H. unfold QueueNackedResult in H. tx_walk H. by apply good_record in H.
  - intros s u s' H. unfold QueueResult in H. tx_walk H. by apply good_record in H.
  - intros s u s' H. unfold QueueResultSessionIndependent in H. tx_walk H. by apply good_record in H.
  - apply good_advance; [vm_compute; reflexivity|set_solver|done].
  - apply good_advance; [vm_compute; reflexivity|set_solver|done].
  - apply good_advance; [vm_compute; reflexivity|set_solver|done].
  - by apply good_receipt.
  - apply good_drop. intros s u s' H. unfold RequeueOutboxForSession in H. tx_walk H.
    eapply good_requeue; [apply bentries_nodup|intros k v; apply bentries_spec|exact H].
  - apply good_drop, good_intent.
  - apply good_intents.
  - intros s u s' H. unfold CompleteForwardDeleteIntent in H. tx_walk H; try reflexivity. by apply good_del_other in H.
  - intros s u s' H. unfold GCForwardTombstone in H. tx_walk H; try reflexivity. by apply good_del_other in H.
  - intros s u s' H. unfold SaveControllerPin in H. tx_walk H; by apply good_put_other in H.
Qed.

Lemma exec_respects (R : relation (Store B)) `{!PreOrder R} (c : cmd) s :
  respects R (body c) → R s (exec c s).2.
Proof.
  intros Hb. unfold exec, Update. destruct (body c s) as [[u s']|] eqn:E; cbn; [eapply Hb, E|reflexivity].
Qed.

Lemma run_respects (R : relation (Store B)) `{!PreOrder R} (cs : list cmd) s :
  (∀ c, c ∈ cs → respects R (body c)) → R s (run cs s).
Proof.
  revert s. induction cs as [|c cs IH]; intros s Hc; [reflexivity|].
  change (run (c :: cs) s) with (run cs (exec c s).2).
  transitivity (exec c s).2; [apply (exec_respects R), Hc; left|]. apply IH. intros c' Hin. apply Hc. by right.
Qed.

Lemma run_app (cs1 cs2 : list cmd) s : run (cs1 ++ cs2) s = run cs2 (run cs1 s).
Proof. unfold run. apply foldl_app. Qed.

Lemma run_good (cs : list cmd) s : Forall cmd_clean cs → good s (run cs s).
Proof. intros Hc. apply run_respects; [apply _|]. intros c Hin. apply good_body. by eapply list.Forall_forall in Hc. Qed.
End Commands.

(** ** The operation automaton *)

(** The journal row of an operation and whether the operation is receipted. *)
Definition jstate : Type := option operationJournal * bool.

Definition same_operation (j j' : operationJournal) : Prop := j_Kind j' = j_Kind j ∧ j_MessageID j' = j_MessageID j.

Inductive jstep : jstate → jstate → Prop :=
  | j_receive (j : operationJournal) : j_Phase j = phaseReceived → jstep (None, false) (Some j, false)
  | j_update (j j' : operationJournal) (r : bool) :
      same_operation j j' → j_Phase j' = j_Phase j ∨ fsm_step "inbox" (j_Phase j) (j_Phase j') →
      jstep (Some j, r) (Some j', r)
  | j_gc (o : option operationJournal) : jstep (o, false) (None, true).

Lemma jsteps_receipted (d : jstate) : rtc jstep (None, true) d → d = (None, true).
Proof. intros H. inversion H as [|? ? ? Hs]; [done|inversion Hs]. Qed.

Section Operations.
Context {B : Type} `{BoltB : !Bolt B} `{LawsB : !BoltLaws B} `{EnvB : !JournalEnv} `{JL : !JournalLaws}.
Implicit Types s : Store B.

Definition jrow s (id : string) : option operationJournal := bget (s_operations s) (opJournalKey id) ≫= unmarshal.
Definition jview s (id : string) : jstate := (jrow s id, ReceiptExists s id).

Definition jgood s s' : Prop := ∀ id, rtc jstep (jview s id) (jview s' id).

#[export] Instance jgood_preorder : PreOrder jgood.
Proof. split; [intros s id; reflexivity|]. intros s1 s2 s3 H1 H2 id. etrans; [apply H1|apply H2]. Qed.

Lemma jgood_same s s' :
  (∀ id, bget (s_operations s') (opJournalKey id) = bget (s_operations s) (opJournalKey id)
     ∧ bget (s_operations s') (receiptKey id) = bget (s_operations s) (receiptKey id)) → jgood s s'.
Proof.
  intros H id. destruct (H id) as [H1 H2]. unfold jview, jrow, ReceiptExists. rewrite H1, H2. reflexivity.
Qed.

Lemma jgood_ops s s' : s_operations s' = s_operations s → jgood s s'.
Proof. intros H. apply jgood_same. intros id. by rewrite H. Qed.

Lemma jgood_put_other (b : bucket) (k : string) (v : bytes) : b ≠ Operations → respects jgood (put b k v).
Proof. intros Hb s u s' (b' & _ & ->)%put_Ok. apply jgood_ops. by destruct b. Qed.

Lemma jgood_del_other (b : bucket) (k : string) : b ≠ Operations → respects jgood (del b k).
Proof. intros Hb s u s' ->%del_Ok. apply jgood_ops. by destruct b. Qed.

Definition same_ops s s' : Prop := s_operations s' = s_operations s.
#[export] Instance same_ops_preorder : PreOrder same_ops.
Proof. split; [by intros s|]. intros s1 s2 s3 H1 H2. unfold same_ops in *. congruence. Qed.

Lemma same_ops_intent (i : ForwardDeleteIntent) : respects same_ops (putForwardDeleteIntentTx i).
Proof. intros s r s' [->|(b' & _ & _ & _ & ->)]%putIntent_Ok; done. Qed.

Lemma same_ops_fences (now : Z) (l : list ForwardDeletionLink) : respects same_ops (put_fences (B := B) now l).
Proof. apply respects_fences; [apply _|]. apply same_ops_intent. Qed.

(** Writing one journal row is one step of that operation. *)
Lemma jgood_journal (op : string) (j : operationJournal) s u s' :
  journal_text j = true → jstep (jview s op) (Some j, ReceiptExists s op) →
  putOperationJournal op j s = Ok (u, s') → jgood s s'.
Proof.
  intros Ht Hj (b' & Hb & ->)%put_Ok id. cbn [at_bucket] in Hb.
  assert (Hr : ∀ id, ReceiptExists (set_bucket s Operations b') id = ReceiptExists s id).
  { intros i. unfold ReceiptExists. cbn [set_bucket s_operations]. by rewrite (bget_bput_ne _ _ _ _ _ (not_eq_sym (op_receipt_ne op i)) Hb). }
  unfold jview, jrow. rewrite Hr. cbn [set_bucket s_operations].
  destruct (decide (id = op)) as [->|Hn].
  - rewrite (bget_bput_eq _ _ _ _ Hb). cbn. rewrite unmarshal_marshal by done. by apply rtc_once.
  - rewrite (bget_bput_ne _ _ _ _ _ (λ E, Hn (opJournalKey_inj _ _ E)) Hb). reflexivity.
Qed.

Lemma jgood_record (op : string) (x : bytes) : clean op → respects jgood (recordResultAndQueue op x).
Proof.
  intros Hc s u s' H. unfold recordResultAndQueue in H. tx_walk H; try reflexivity.
  all: apply tx_bind_Ok in H as (c & s1 & Hp & H); apply put_Ok in Hp as (b1 & Hb1 & ->); apply put_Ok in H as (b2 & Hb2 & ->);
    cbn [at_bucket] in Hb1; apply jgood_same; intros id; cbn [set_bucket s_operations].
  all: rewrite !(bget_bput_ne _ _ _ _ _ (not_eq_sym (clean_op_ne _ id Hc)) Hb1), !(bget_bput_ne _ _ _ _ _ (not_eq_sym (clean_receipt_ne _ id Hc)) Hb1); done.
Qed.

Lemma row_text_of s (op : string) (j : operationJournal) : jrow s op = Some j → journal_text j = true.
Proof.
  unfold jrow. destruct (bget _ _) as [raw|]; [|discriminate]. cbn. apply unmarshal_text.
Qed.

(** An update of a loaded row that keeps its strings valid. *)
Lemma jgood_update (op : string) (j j' : operationJournal) s u s' :
  jrow s op = Some j → same_operation j j' → j_Phase j' = j_Phase j ∨ fsm_step "inbox" (j_Phase j) (j_Phase j') →
  text (j_Phase j') = true → text (j_Reason j') = true → forallb link_text (j_ForwardDeletions j') = true →
  putOperationJournal op j' s = Ok (u, s') → jgood s s'.
Proof.
  intros Hr Hs Hp Ht1 Ht2 Ht3. apply jgood_journal.
  - pose proof (row_text_of _ _ _ Hr) as Ht. unfold journal_text in *. destruct Hs as [-> ->]. bool_prop.
    rewrite Ht1, Ht2, Ht3. repeat (apply andb_true_iff; split); done.
  - unfold jview. rewrite Hr. by constructor.
Qed.

(** The strings a command stores are valid UTF-8 (they come from decoded frames). *)
Definition cmd_text (c : cmd) : Prop :=
  match c with
  | CReceive _ _ _ _ msg _ _ kind => text kind = true ∧ text msg = true
  | CReceivePayload _ _ _ _ msg mt p kind =>
      text kind = true ∧ text msg = true ∧ forallb link_text (default [] (classifyForwardDeletions mt p)) = true
  | CNack _ _ _ reason | CNackResult _ _ _ reason _ => text reason = true
  | CSavePin p => pin_text p = true
  | _ => True
  end.

Lemma jgood_receive (now e : Z) (ss op msg mt h k : string) (p : bytes) (pp : bool) (l : list ForwardDeletionLink) :
  text k = true → text msg = true → forallb link_text l = true →
  respects jgood (receiveCommandTx now e ss op msg mt h k p pp l).
Proof.
  intros Hk Hm Hl s r s' H. unfold receiveCommandTx in H. tx_walk H; try reflexivity.
  - apply tx_bind_Ok in H as (uf & s1 & Hf & H). apply tx_bind_Ok in H as (uj & s2 & Hp & H).
    apply tx_ret_Ok in H as [_ ->]. pose proof (same_ops_fences _ _ _ _ _ Hf) as Hs1.
    transitivity s1; [by apply jgood_ops|].
    match goal with Hr : Some ?j = bget _ _ ≫= unmarshal ∧ _ |- _ => destruct Hr as [Hr _]; rename j into row end.
    assert (Hrow : jrow s1 op = Some row) by (unfold jrow; by rewrite Hs1).
    pose proof (row_text_of _ _ _ Hrow) as Ht. unfold journal_text in Ht. bool_prop.
    eapply (jgood_update op row); [exact Hrow| | | | | |exact Hp]; unfold upgrade_payload;
      destruct (j_PayloadPresent row); cbn; auto; done.
  - apply tx_bind_Ok in H as (ui & s1 & Hi & H). transitivity s1; [by apply jgood_put_other in Hi|].
    apply tx_bind_Ok in H as (uj & s2 & Hj & H). transitivity s2.
    + apply put_Ok in Hi as (b' & _ & ->). refine (jgood_journal op _ _ _ _ _ _ Hj).
      * unfold journal_text; cbn. by rewrite Hk, Hm, Hl.
      * match goal with Hr : None = _ ∧ _ |- _ => pose proof (proj2 Hr eq_refl) as Hnone end.
        unfold jview, jrow, ReceiptExists. cbn [set_bucket s_operations].
        match goal with E : bget _ (receiptKey op) = None |- _ => rewrite E end. rewrite Hnone. cbn.
        by constructor.
    + apply tx_bind_Ok in H as (uf & s3 & Hf & H). apply tx_ret_Ok in H as [_ ->].
      apply jgood_ops. by apply same_ops_fences in Hf.
Qed.

Lemma jgood_receipt (e : Z) (ss op : string) : clean op → respects jgood (AcceptReceipt e ss op).
Proof.
  intros Hc s u s' H. unfold AcceptReceipt in H. tx_walk H. destruct (splitOutboxValue _) as [st x].
  tx_walk H. apply tx_bind_Ok in H as (u2 & s1 & Hput & H). apply put_Ok in Hput as (b1 & Hb & ->). cbn [at_bucket] in Hb.
  apply tx_bind_Ok in H as (u3 & s2 & Hd & H). apply del_Ok in Hd as ->.
  apply tx_bind_Ok in H as (u4 & s2 & Hd & H). apply del_Ok in Hd as ->.
  apply tx_bind_Ok in H as (u5 & s2 & Hd & H). apply del_Ok in Hd as ->.
  set (s3 := set_bucket _ Operations _) in H.
  transitivity s3.
  2:{ tx_walk H; [by apply jgood_del_other in H|reflexivity]. }
  clear H. intros id. unfold jview, jrow, ReceiptExists. cbn [s3 set_bucket s_operations at_bucket].
  destruct (decide (id = op)) as [->|Hn].
  - rewrite bget_bdel_eq, !bget_bdel_ne; [|by apply not_eq_sym, clean_receipt_ne|done].
    rewrite (bget_bput_eq _ _ _ _ Hb). match goal with E : bget _ (receiptKey op) = None |- _ => rewrite E end. cbn.
    apply rtc_once. constructor.
  - rewrite !bget_bdel_ne; try (intros ?%opJournalKey_inj; done); try (by apply not_eq_sym, clean_receipt_ne);
      try (by apply not_eq_sym, clean_op_ne); try done.
    rewrite !(bget_bput_ne _ _ _ _ _ (λ E, Hn (receiptKey_inj _ _ E)) Hb).
    rewrite (bget_bput_ne _ _ _ _ _ (op_receipt_ne id op) Hb). reflexivity.
Qed.

Lemma jgood_fences (now : Z) (l : list ForwardDeletionLink) : respects jgood (put_fences (B := B) now l).
Proof. intros s u s' H. apply jgood_ops. by apply same_ops_fences in H. Qed.

Lemma jgood_advance_outbox (from to : string) (e : Z) (ss op : string) : respects jgood (advance_outbox from to e ss op).
Proof.
  intros s u s' H. unfold advance_outbox in H. tx_walk H. destruct (splitOutboxValue _) as [st x]. tx_walk H.
  by apply jgood_put_other in H.
Qed.

Lemma jgood_requeue (l : list (string * bytes)) : respects jgood (requeue_rows (B := B) l).
Proof.
  induction l as [|[k v] l IH]; intros s n s' H; cbn [requeue_rows] in H; [tx_walk H; reflexivity|].
  destruct (splitOutboxValue _) as [st x]. tx_walk H; [by eapply IH|].
  revert H. apply respects_bind; [apply _|by apply jgood_put_other|]. intros _.
  apply respects_bind; [apply _|done|]. intros ?. apply respects_ret, _.
Qed.

(** A row that was loaded in a required phase, with its strings. *)
Lemma loaded_text s (op : string) (j : operationJournal) :
  jrow s op = Some j →
  text (j_Phase j) = true ∧ text (j_Reason j) = true ∧ forallb link_text (j_ForwardDeletions j) = true.
Proof. intros Hr. pose proof (row_text_of _ _ _ Hr) as Ht. unfold journal_text in Ht. by bool_prop. Qed.

(** The step of a loaded row to the next phase, with a possibly new reason. *)
Lemma jgood_phase (op ph : string) (j j' : operationJournal) s u s' :
  j_Phase j = ph ∧ jrow s op = Some j →
  fsm_step "inbox" ph (j_Phase j') → text (j_Phase j') = true →
  same_operation j j' → (j_Reason j' = j_Reason j ∨ text (j_Reason j') = true) →
  j_ForwardDeletions j' = j_ForwardDeletions j →
  putOperationJournal op j' s = Ok (u, s') → jgood s s'.
Proof.
  intros [Hp Hr] Hs Ht Hso Hre Hfd. destruct (loaded_text _ _ _ Hr) as (_ & Hrt & Hlt).
  apply (jgood_update op j); [done|done|right; by rewrite Hp|done|by destruct Hre as [->|]|by rewrite Hfd].
Qed.

Ltac phase_step Hph Hj :=
  lazymatch type of Hph with j_Phase ?j = ?ph ∧ _ =>
    lazymatch type of Hj with putOperationJournal ?op ?j' ?s = Ok (?u, ?s') =>
      apply (jgood_phase op ph j j' s u s' Hph); [vm_compute; reflexivity|vm_compute; reflexivity|done|auto|done|exact Hj]
    end end.

Lemma jgood_recover_one (now : Z) (op : string) : clean op → respects jgood (recover_one (B := B) now op).
Proof.
  intros Hc s u s' H. unfold recover_one in H. tx_walk H; try reflexivity.
  apply tx_bind_Ok in H as (uf & s1 & Hf & H). pose proof (same_ops_fences _ _ _ _ _ Hf) as Hs1.
  transitivity s1; [by apply jgood_ops|]. apply tx_bind_Ok in H as (uj & s2 & Hj & H).
  transitivity s2; [|by apply jgood_record in H]. bool_prop.
  match goal with Hr : Some ?row = _ ∧ _ |- _ => rename row into j; destruct Hr as [Hrow _] end.
  assert (Hph : j_Phase j = phaseApplying ∧ jrow s1 op = Some j) by (unfold jrow; by rewrite Hs1).
  phase_step Hph Hj.
Qed.

Lemma jgood_body (c : cmd) s u s' :
  cmd_clean c → cmd_text c → inv s → body c s = Ok (u, s') → jgood s s'.
Proof.
  intros Hc Ht Hi. destruct c; cbn [body cmd_clean cmd_text] in *; intros H.
  - unfold AdvanceSession in H. destruct (CurrentSession s) as [ce cs]. tx_walk H; [reflexivity|].
    revert H. apply respects_bind; [apply _|by apply jgood_put_other|]. intros _. by apply jgood_put_other.
  - apply tx_bind_Ok in H as (r1 & s1 & H & Hr1). apply tx_ret_Ok in Hr1 as [_ ->].
    apply tx_bind_Ok in H as (r2 & s2 & H & Hr2). apply tx_ret_Ok in Hr2 as [_ ->]. by apply jgood_receive in H; [|tauto..].
  - apply tx_bind_Ok in H as (r1 & s1 & H & Hr1). apply tx_ret_Ok in Hr1 as [_ ->]. by apply jgood_receive in H; [|tauto..].
  - unfold CompleteRecoveredDeletion in H. tx_walk H.
    match goal with Hr : Some ?row = _ ∧ _ |- _ => rename row into j; destruct Hr as [Hrow _] end. symmetry in Hrow.
    destruct (loaded_text _ _ _ Hrow) as (? & ? & ?). eapply (jgood_update op j); [exact Hrow| | | | | |exact H]; try done. by left.
  - unfold PersistOperationIntent in H. tx_walk H.
    phase_step Hph H.
  - unfold MarkOperationApplying in H. tx_walk H. cbv zeta in H.
    destruct (bool_decide _); phase_step Hph H.
  - unfold RecoverApplyingOperations in H. tx_walk H.
    apply tx_bind_Ok in H as (ids & s1 & Hcol & H). apply collect_Ok in Hcol as [-> Hin].
    assert (G : respects jgood (tx_iter (recover_one now) ids)); [|exact (G _ _ _ H)].
    apply respects_iter; [apply _|]. intros op Hop. apply jgood_recover_one.
    destruct (Hin _ Hop) as [v Hv]. apply bentries_spec in Hv. by eapply inv_journal; [|eexists].
  - unfold CompleteOperation in H. tx_walk H. apply tx_bind_Ok in H as (u1 & s1 & Hj & H).
    transitivity s1; [|by apply jgood_record in H].
    phase_step Hph Hj.
  - unfold NackOperation in H. tx_walk H.
    phase_step Hph H.
  - unfold NackOperationWithResult in H. tx_walk H. apply tx_bind_Ok in H as (u1 & s1 & Hj & H).
    transitivity s1; [|by apply jgood_record in H].
    phase_step Hph Hj.
  - unfold QueueNackedResult in H. tx_walk H. by apply jgood_record in H.
  - unfold QueueResult in H. tx_walk H. by apply jgood_record in H.
  - unfold QueueResultSessionIndependent in H. tx_walk H. by apply jgood_record in H.
  - by apply jgood_advance_outbox in H.
  - by apply jgood_advance_outbox in H.
  - by apply jgood_advance_outbox in H.
  - by apply jgood_receipt in H.
  - apply tx_bind_Ok in H as (r1 & s1 & H & Hr1). apply tx_ret_Ok in Hr1 as [_ ->].
    unfold RequeueOutboxForSession in H. tx_walk H. by apply jgood_requeue in H.
  - apply tx_bind_Ok in H as (r1 & s1 & H & Hr1). apply tx_ret_Ok in Hr1 as [_ ->].
    apply jgood_ops. by apply same_ops_intent in H.
  - unfold PutForwardDeleteIntents in H. destruct (prepare_intents now [] l); [|discriminate].
    apply jgood_ops. revert H. apply (respects_iter same_ops). intros i _.
    apply respects_bind; [apply _|apply same_ops_intent|]. intros ?. apply respects_ret, _.
  - unfold CompleteForwardDeleteIntent in H. tx_walk H; try reflexivity. by apply jgood_del_other in H.
  - unfold GCForwardTombstone in H. tx_walk H; try reflexivity. by apply jgood_del_other in H.
  - unfold SaveControllerPin in H. tx_walk H; by apply jgood_put_other in H.
Qed.
End Operations.
