(* ===== verification/JournalProps.v ===== *)
(** * The journal's theorems

    The properties of the durable journals, over arbitrary sequences of commands,
    with concrete runs as their witnesses. *)

From Stdlib Require Import ZArith Lia Strings.Byte.
From stdpp Require Import base tactics list sets strings option gmap countable relations.
From S2P Require Import Prelude GoStd Domain Bolt Journal JournalProofs.

Open Scope Z_scope.

(** ** Frames: the buckets a command can touch *)

Definition touches (c : cmd) : list bucket :=
  match c with
  | CAdvanceSession _ _ => [Epochs]
  | CReceive _ _ _ _ _ _ _ _ | CReceivePayload _ _ _ _ _ _ _ _ => [Inbox; Operations; Intents]
  | CCompleteRecovered _ _ _ | CIntent _ _ _ | CApplying _ _ _ | CNack _ _ _ _ => [Operations]
  | CRecover _ _ _ => [Intents; Operations; Outbox]
  | CComplete _ _ _ _ | CNackResult _ _ _ _ _ | CQueueNacked _ _ _ | CQueue _ _ _ _ | CQueueIndependent _ _ => [Operations; Outbox]
  | CClaim _ _ _ | CSent _ _ _ | CAck _ _ _ | CRequeue _ _ => [Outbox]
  | CReceipt _ _ _ => [Operations; Outbox; Inbox]
  | CPutIntent _ _ | CPutIntents _ _ | CCompleteIntent _ _ => [Intents]
  | CGCTombstone _ => [Tombstones]
  | CSavePin _ => [Pins]
  end.

#[export] Instance ForwardDeleteIntent_eq_dec : EqDecision ForwardDeleteIntent.
Proof. solve_decision. Defined.
#[export] Instance ControllerPin_eq_dec : EqDecision ControllerPin.
Proof. solve_decision. Defined.
#[export] Instance cmd_eq_dec : EqDecision cmd.
Proof. solve_decision. Defined.

(** The session a command is fenced by. *)
Definition session_of (c : cmd) : option (Z * string) :=
  match c with
  | CReceive _ e ss _ _ _ _ _ | CReceivePayload _ e ss _ _ _ _ _ | CCompleteRecovered e ss _ | CIntent e ss _
  | CApplying e ss _ | CRecover _ e ss | CComplete e ss _ _ | CNack e ss _ _ | CNackResult e ss _ _ _
  | CQueueNacked e ss _ | CQueue e ss _ _ | CClaim e ss _ | CSent e ss _ | CAck e ss _ | CReceipt e ss _
  | CRequeue e ss => Some (e, ss)
  | _ => None
  end.

Section Frames.
Context {B : Type} `{BoltB : !Bolt B} `{EnvB : !JournalEnv}.
Implicit Types s : Store B.

Definition frame (bs : list bucket) s s' : Prop := ∀ b, b ∉ bs → at_bucket s' b = at_bucket s b.

#[export] Instance frame_preorder (bs : list bucket) : PreOrder (frame bs).
Proof. split; [by intros s b|]. intros s1 s2 s3 H1 H2 b Hb. by rewrite H2, H1. Qed.

Lemma frame_put (bs : list bucket) (b : bucket) (k : string) (v : bytes) : b ∈ bs → respects (frame bs) (put b k v).
Proof. intros Hb s u s' (b' & _ & ->)%put_Ok c Hc. apply at_set_ne. by intros ->. Qed.

Lemma frame_del (bs : list bucket) (b : bucket) (k : string) : b ∈ bs → respects (frame bs) (del b k).
Proof. intros Hb s u s' ->%del_Ok c Hc. apply at_set_ne. by intros ->. Qed.

Lemma frame_intent (bs : list bucket) (i : ForwardDeleteIntent) :
  Intents ∈ bs → respects (frame bs) (putForwardDeleteIntentTx i).
Proof.
  intros Hb s r s' [->|(b' & _ & _ & _ & ->)]%putIntent_Ok; [reflexivity|]. intros c Hc. apply at_set_ne. by intros ->.
Qed.

Lemma frame_fences (bs : list bucket) (now : Z) (l : list ForwardDeletionLink) :
  Intents ∈ bs → respects (frame bs) (put_fences now l).
Proof. intros Hb. apply respects_fences; [apply _|]. intros i. by apply frame_intent. Qed.

Lemma frame_record (bs : list bucket) (op : string) (x : bytes) :
  Operations ∈ bs → Outbox ∈ bs → respects (frame bs) (recordResultAndQueue op x).
Proof.
  intros Hp Ho s u s' H. unfold recordResultAndQueue in H. tx_walk H; try reflexivity;
    revert H; (apply respects_bind; [apply _|by apply frame_put|]); intros _; by apply frame_put.
Qed.

Lemma frame_journal_record (bs : list bucket) (op : string) (j : operationJournal) (x : bytes) :
  Operations ∈ bs → Outbox ∈ bs → respects (frame bs) (let! _ := putOperationJournal op j in recordResultAndQueue op x).
Proof. intros Hp Ho. apply respects_bind; [apply _|by apply frame_put|]. intros _. by apply frame_record. Qed.

Lemma frame_receive (bs : list bucket) (now e : Z) (ss op msg mt h k : string) (p : bytes) (pp : bool)
    (l : list ForwardDeletionLink) :
  Inbox ∈ bs → Operations ∈ bs → Intents ∈ bs → respects (frame bs) (receiveCommandTx now e ss op msg mt h k p pp l).
Proof.
  intros Hi Ho Hn s r s' H. unfold receiveCommandTx in H. tx_walk H; try reflexivity; revert H.
  - apply respects_bind; [apply _|by apply frame_fences|]. intros _.
    apply respects_bind; [apply _|by apply frame_put|]. intros _. apply respects_ret, _.
  - apply respects_bind; [apply _|by apply frame_put|]. intros _.
    apply respects_bind; [apply _|by apply frame_put|]. intros _.
    apply respects_bind; [apply _|by apply frame_fences|]. intros _. apply respects_ret, _.
Qed.

Lemma frame_advance (from to : string) (e : Z) (ss op : string) : respects (frame [Outbox]) (advance_outbox from to e ss op).
Proof.
  intros s u s' H. unfold advance_outbox in H. tx_walk H. destruct (splitOutboxValue _) as [st x]. tx_walk H.
  revert H. apply frame_put. by left.
Qed.

Lemma frame_requeue (l : list (string * bytes)) : respects (frame [Outbox]) (requeue_rows (B := B) l).
Proof.
  induction l as [|[k v] l IH]; intros s n s' H; cbn [requeue_rows] in H; [tx_walk H; reflexivity|].
  destruct (splitOutboxValue _) as [st x]. tx_walk H; [by eapply IH|].
  revert H. apply respects_bind; [apply _|apply frame_put; by left|]. intros _.
  apply respects_bind; [apply _|done|]. intros ?. apply respects_ret, _.
Qed.

Lemma frame_receipt (e : Z) (ss op : string) : respects (frame [Operations; Outbox; Inbox]) (AcceptReceipt e ss op).
Proof.
  intros s u s' H. unfold AcceptReceipt in H. tx_walk H. destruct (splitOutboxValue _) as [st x]. tx_walk H.
  revert H. apply respects_bind; [apply _|apply frame_put; set_solver|]. intros _.
  do 3 (apply respects_bind; [apply _|apply frame_del; set_solver|]; intros _).
  intros t a t' H. tx_walk H; [revert H; apply frame_del; set_solver|reflexivity].
Qed.

Lemma frame_drop {A} (bs : list bucket) (m : tx B A) : respects (frame bs) m → respects (frame bs) (drop_result m).
Proof. intros Hm. apply respects_bind; [apply _|done|]. intros _. apply respects_ret, _. Qed.

Lemma frame_recover (bs : list bucket) (now e : Z) (ss : string) :
  Intents ∈ bs → Operations ∈ bs → Outbox ∈ bs → respects (frame bs) (RecoverApplyingOperations (B := B) now e ss).
Proof.
  intros Hi Hp Ho s u s' H. unfold RecoverApplyingOperations in H. tx_walk H.
  apply tx_bind_Ok in H as (ids & s1 & Hcol & H). apply collect_Ok in Hcol as [-> _]. revert H.
  apply (respects_iter (frame bs)). intros op _ t a t' H. unfold recover_one in H. tx_walk H; try reflexivity.
  revert H. apply respects_bind; [apply _|by apply frame_fences|]. intros _. by apply frame_journal_record.
Qed.

(** No command changes a bucket outside its frame. *)
Lemma body_frame (c : cmd) : respects (frame (touches c)) (body (B := B) c).
Proof.
  destruct c; cbn [body touches]; intros s u s' H.
  - unfold AdvanceSession in H. destruct (CurrentSession s) as [ce cs]. tx_walk H; [reflexivity|].
    revert H. apply respects_bind; [apply _|apply frame_put; by left|]. intros _. apply frame_put. by left.
  - revert H. apply frame_drop, respects_bind; [apply _|apply frame_receive; set_solver|]. intros ?. apply respects_ret, _.
  - revert H. apply frame_drop, frame_receive; set_solver.
  - unfold CompleteRecoveredDeletion in H. tx_walk H. revert H. apply frame_put. by left.
  - unfold PersistOperationIntent in H. tx_walk H. revert H. apply frame_put. by left.
  - unfold MarkOperationApplying in H. tx_walk H. revert H. apply frame_put. by left.
  - revert H. apply frame_recover; set_solver.
  - unfold CompleteOperation in H. tx_walk H. revert H. apply frame_journal_record; set_solver.
  - unfold NackOperation in H. tx_walk H. revert H. apply frame_put. by left.
  - unfold NackOperationWithResult in H. tx_walk H. revert H. apply frame_journal_record; set_solver.
  - unfold QueueNackedResult in H. tx_walk H. revert H. apply frame_record; set_solver.
  - unfold QueueResult in H. tx_walk H. revert H. apply frame_record; set_solver.
  - unfold QueueResultSessionIndependent in H. tx_walk H. revert H. apply frame_record; set_solver.
  - by apply frame_advance in H.
  - by apply frame_advance in H.
  - by apply frame_advance in H.
  - by apply frame_receipt in H.
  - revert H. apply frame_drop. intros t a t' H. unfold RequeueOutboxForSession in H. tx_walk H. by apply frame_requeue in H.
  - revert H. apply frame_drop, frame_intent. by left.
  - unfold PutForwardDeleteIntents in H. destruct (prepare_intents now [] l); [|discriminate].
    revert H. apply (respects_iter (frame [Intents])). intros i _.
    apply respects_bind; [apply _|apply frame_intent; by left|]. intros ?. apply respects_ret, _.
  - unfold CompleteForwardDeleteIntent in H. tx_walk H; try reflexivity. revert H. apply frame_del. by left.
  - unfold GCForwardTombstone in H. tx_walk H; try reflexivity. revert H. apply frame_del. by left.
  - unfold SaveControllerPin in H. tx_walk H; revert H; apply frame_put; by left.
Qed.

Lemma exec_frame (c : cmd) s (b : bucket) : b ∉ touches c → at_bucket (exec c s).2 b = at_bucket s b.
Proof. intros Hb. apply (exec_respects (frame (touches c))); [apply body_frame|done]. Qed.
End Frames.

Section Theorems.
Context {B : Type} `{BoltB : !Bolt B} `{LawsB : !BoltLaws B} `{EnvB : !JournalEnv} `{JL : !JournalLaws}.
Implicit Types s : Store B.

(** *** Sessions *)

Lemma checkSession_stale (e : Z) (ss : string) s :
  CurrentSession s ≠ (e, ss) → checkSession e ss s = Err ErrStaleSession.
Proof.
  unfold checkSession. destruct (CurrentSession s) as [ce cs]. intros H.
  destruct (negb (ce =? e) || negb (String.eqb cs ss)) eqn:E; [done|]. bool_prop. congruence.
Qed.

(** [(e', ss')] may follow [(e, ss)]: a later epoch, or the same one and session. *)
Definition session_le (p q : Z * string) : Prop := p.1 < q.1 ∨ (p.1 = q.1 ∧ (p.2 = ""%string ∨ q.2 = p.2)).

#[export] Instance session_le_preorder : PreOrder session_le.
Proof.
  split; [intros [e ss]; right; by auto|]. intros [e1 s1] [e2 s2] [e3 s3]. unfold session_le. cbn.
  intros [H|[-> [->| ->]]] [H'|[-> [->| ->]]]; auto; lia || auto.
Qed.

Definition cmd_epoch (c : cmd) : Prop := match c with CAdvanceSession e _ => in_u64 e | _ => True end.

Lemma decode_encode_epoch (e : Z) : in_u64 e → decodeEpoch (Some (encodeEpoch e)) = e.
Proof. intros H. unfold decodeEpoch, encodeEpoch. rewrite zlen_be_put. cbn -[be_get be_put]. by apply be_get_u64. Qed.

Lemma advance_session_le (e : Z) (ss : string) s u s' :
  in_u64 e → AdvanceSession e ss s = Ok (u, s') →
  session_le (CurrentSession s) (CurrentSession s') ∧ CurrentSession s' = (e, ss).
Proof.
  intros He. unfold AdvanceSession. destruct (CurrentSession s) as [ce cs] eqn:Ec. intros H. tx_walk H.
  { bool_prop. subst. rewrite Ec. split; [reflexivity|done]. }
  apply tx_bind_Ok in H as (u1 & s1 & Hp1 & H). apply put_Ok in Hp1 as (b1 & Hb1 & ->). apply put_Ok in H as (b2 & Hb2 & ->).
  cbn in Hb1, Hb2. assert (CurrentSession (set_bucket (set_bucket s Epochs b1) Epochs b2) = (e, ss)) as ->.
  { unfold CurrentSession. cbn [set_bucket s_epochs].
    rewrite (bget_bput_eq _ _ _ _ Hb2), (bget_bput_ne b1 b2 keyCurrentSession keyCurrentEpoch (bytes_of ss)), (bget_bput_eq _ _ _ _ Hb1) by done.
    rewrite decode_encode_epoch by done. unfold session_string. cbn. by rewrite string_of_bytes_of. }
  split; [|done]. unfold session_le. cbn. bool_prop.
  destruct (decide (ce = e)) as [->|]; [|left; lia]. right. split; [done|].
  rewrite Z.eqb_refl in *. cbn in *. destruct (String.eqb cs "") eqn:E1; bool_prop; [by left|].
  cbn in *. destruct (String.eqb cs ss) eqn:E2; bool_prop; [by right|done].
Qed.

Lemma exec_session_le (c : cmd) s : cmd_epoch c → session_le (CurrentSession s) (CurrentSession (exec c s).2).
Proof.
  intros He. destruct (decide (Epochs ∈ touches c)) as [Hin|Hn].
  - destruct c; cbn in Hin; try (exfalso; set_solver). unfold exec, Update. cbn [body].
    destruct (AdvanceSession _ _ s) as [[u s']|] eqn:E; [|reflexivity]. by eapply advance_session_le.
  - unfold CurrentSession. pose proof (exec_frame c s Epochs Hn) as Hf. cbn [at_bucket] in Hf. rewrite Hf. reflexivity.
Qed.

(** Session fencing.  Along any sequence of commands the accepted connection epoch
    never decreases and, at one epoch, a named session is never replaced; and every
    session-bound operation presented with any other epoch or session than the
    accepted one is refused with [ErrStaleSession] and changes nothing. *)
Theorem journal_session_fencing (cs : list cmd) s :
  Forall cmd_epoch cs →
  session_le (CurrentSession s) (CurrentSession (run cs s))
  ∧ ∀ c e ss, session_of c = Some (e, ss) → CurrentSession (run cs s) ≠ (e, ss) →
      exec c (run cs s) = (Err ErrStaleSession, run cs s).
Proof.
  intros Hcs. split.
  - revert s. induction Hcs as [|c cs Hc _ IH]; intros s; [reflexivity|].
    etrans; [apply (exec_session_le c s Hc)|apply IH].
  - intros c e ss Hs Hne. apply checkSession_stale in Hne. unfold exec, Update.
    destruct c; try discriminate; injection Hs as <- <-; cbn [body]; unfold drop_result, tx_bind,
      ReceiveCommand, ReceiveCommandWithPayloadStatus, receiveCommandTx, CompleteRecoveredDeletion, PersistOperationIntent,
      MarkOperationApplying, RecoverApplyingOperations, CompleteOperation, NackOperation, NackOperationWithResult,
      QueueNackedResult, QueueResult, ClaimOutbox, MarkOutboxSent, AcceptSemanticACK, advance_outbox, AcceptReceipt,
      RequeueOutboxForSession, tx_bind; by rewrite Hne.
Qed.

(** C1: delivery of results.  From the empty store, any sequence of commands on operation
    ids outside the reserved key prefixes keeps the store invariant, and every operation's
    result moves only along the delivery automaton: queued once as PENDING, advanced by
    single steps of the frozen outbox FSM, requeued to PENDING on a new session, and
    receipted only from SEMANTIC_ACKED.  Hence a queued payload is never altered or lost,
    and a receipted operation is never resurrected. *)
Theorem journal_delivery_refinement (cs cs' : list cmd) (id : string) :
  Forall cmd_clean cs → Forall cmd_clean cs' →
  let s := run cs (empty_store (B := B)) in
  inv s ∧ rtc dstep (view s id) (view (run cs' s) id)
  ∧ (∀ x, payload_of (view s id) = Some x → payload_of (view (run cs' s) id) = Some x)
  ∧ (∀ x, view s id = Receipted x → view (run cs' s) id = Receipted x ∧ OutboxContains (run cs' s) id = false).
Proof.
  intros Hc Hc' s. destruct (run_good cs empty_store Hc inv_empty) as [Hi _]. fold s in Hi.
  destruct (run_good cs' s Hc' Hi) as [Hi' Hv]. specialize (Hv id). split_and!; [done|done| |].
  - intros x Hx. by eapply dsteps_payload.
  - intros x Hx. rewrite Hx in Hv. apply dsteps_receipted in Hv. split; [done|].
    unfold view in Hv. unfold OutboxContains. apply bool_decide_eq_false. intros [v Ho].
    destruct (inv_rows _ Hi' _ _ Ho) as (_ & Hr & _). by rewrite Hr, Ho in Hv; destruct (splitOutboxValue _).
Qed.

Lemma run_inv (cs : list cmd) s : Forall cmd_clean cs → inv s → inv (run cs s).
Proof. intros Hc Hi. by destruct (run_good cs s Hc Hi). Qed.

(** C34: the operation automaton.  Along any sequence of commands from a consistent store,
    the journal row of an operation is created in RECEIVED, keeps its kind and message id,
    and changes phase only by single steps of the frozen inbox FSM, so intent is durable
    before APPLYING and APPLIED or NACKED come only after it; the row disappears only
    together with the operation's receipt, after which none is created again. *)
Theorem journal_operation_automaton (cs : list cmd) s (id : string) :
  Forall cmd_clean cs → Forall cmd_text cs → inv s →
  rtc jstep (jview s id) (jview (run cs s) id)
  ∧ (jview s id = (None, true) → jview (run cs s) id = (None, true)).
Proof.
  intros Hc Ht Hi.
  assert (H : rtc jstep (jview s id) (jview (run cs s) id)).
  { revert s Hi. induction cs as [|c cs IH]; intros s Hi; [reflexivity|].
    apply list.Forall_cons in Hc as [Hc1 Hc2]. apply list.Forall_cons in Ht as [Ht1 Ht2].
    change (run (c :: cs) s) with (run cs (exec c s).2). etrans; [|apply IH; [done|done|]].
    - unfold exec, Update. destruct (body c s) as [[u s']|] eqn:E; [|reflexivity].
      by eapply jgood_body.
    - apply (exec_respects good); [by apply good_body|done]. }
  split; [done|]. intros Hn. rewrite Hn in H. by apply jsteps_receipted.
Qed.

(** *** Results are recorded with the phase that ends the operation *)

Lemma record_queues (op : string) (x : bytes) s u s' :
  clean op → inv s → recordResultAndQueue op x s = Ok (u, s') →
  is_Some (payload_of (view s' op)) ∧ (view s op = Unqueued → view s' op = Queued phasePending x ∧ bget (s_operations s') op = Some x).
Proof.
  intros Hc Hi H. unfold recordResultAndQueue in H. tx_walk H.
  1:{ unfold view. rewrite E, E0. destruct (splitOutboxValue _) as [p y]. split; [by eexists|done]. }
  all: apply tx_bind_Ok in H as (c & s1 & Hp & H); apply put_Ok in Hp as (b1 & Hb1 & ->); apply put_Ok in H as (b2 & Hb2 & ->).
  all: cbn [at_bucket set_bucket s_outbox s_operations] in Hb1, Hb2.
  all: assert (Hne : receiptKey op ≠ op) by by apply not_eq_sym, clean_receipt_ne.
  all: assert (Hv : view (set_bucket (set_bucket s Operations b1) Outbox b2) op = Queued phasePending x)
    by (unfold view; cbn [set_bucket s_outbox s_operations];
        rewrite (bget_bput_ne _ _ _ _ _ Hne Hb1), E, (bget_bput_eq _ _ _ _ Hb2), split_outbox_value by left; done).
  all: rewrite Hv; split; [by eexists|]; intros _; split; [done|]; cbn; by apply (bget_bput_eq _ _ _ _ Hb1).
Qed.

(** Writing an operation's journal row moves no result. *)
Lemma journal_put_view (op : string) (j : operationJournal) s u s' (id : string) :
  putOperationJournal op j s = Ok (u, s') → view s' id = view s id.
Proof.
  intros (b' & Hb & ->)%put_Ok. unfold view. cbn [set_bucket s_outbox s_operations at_bucket] in *.
  by rewrite (bget_bput_ne _ _ _ _ _ (not_eq_sym (op_receipt_ne op id)) Hb).
Qed.

Lemma record_keeps_journal (op : string) (x : bytes) s u s' :
  clean op → recordResultAndQueue op x s = Ok (u, s') → jrow s' op = jrow s op.
Proof.
  intros Hc H. unfold recordResultAndQueue in H. tx_walk H; try done;
    (apply tx_bind_Ok in H as (c & s1 & Hp & H); apply put_Ok in Hp as (b1 & Hb1 & ->); apply put_Ok in H as (b2 & Hb2 & ->);
     unfold jrow; cbn [at_bucket set_bucket s_operations] in *; by rewrite (bget_bput_ne _ _ _ _ _ (not_eq_sym (clean_op_ne _ op Hc)) Hb1)).
Qed.

Lemma put_then_record (op : string) (j : operationJournal) (x : bytes) s u s' :
  clean op → journal_text j = true → inv s →
  (let! _ := putOperationJournal op j in recordResultAndQueue op x) s = Ok (u, s') →
  jrow s' op = Some j ∧ is_Some (payload_of (view s' op))
  ∧ (view s op = Unqueued → view s' op = Queued phasePending x ∧ bget (s_operations s') op = Some x).
Proof.
  intros Hc Ht Hi (u1 & s1 & Hj & H)%tx_bind_Ok.
  destruct (good_journal op j Hc _ _ _ Hj Hi) as [Hi1 _]. destruct (record_queues _ _ _ _ _ Hc Hi1 H) as [Hq Hu].
  rewrite (journal_put_view _ _ _ _ _ op Hj) in Hu. split; [|done]. rewrite (record_keeps_journal _ _ _ _ _ Hc H).
  apply put_Ok in Hj as (b' & Hb & ->). unfold jrow. cbn [at_bucket set_bucket s_operations] in *.
  rewrite (bget_bput_eq _ _ _ _ Hb). cbn. by apply unmarshal_marshal.
Qed.

(** An operation never ends without a deliverable result: when [CompleteOperation] or
    [NackOperationWithResult] succeeds, the same transaction has moved the journal row from
    APPLYING to APPLIED (NACKED with the reason) and left the operation's result queued;
    if none was queued before, it is exactly the given result, recorded and PENDING. *)
Theorem completion_queues_result (e : Z) (ss op reason : string) (x : bytes) s :
  clean op → text reason = true → inv s →
  ∀ c, c = CComplete e ss op x ∨ c = CNackResult e ss op reason x →
  ∀ s', exec c s = (Ok tt, s') →
  ∃ j j', jrow s op = Some j ∧ j_Phase j = phaseApplying ∧ jrow s' op = Some j'
    ∧ j' = (if decide (c = CComplete e ss op x) then with_phase j phaseApplied else with_reason (with_phase j phaseNacked) reason)
    ∧ is_Some (payload_of (view s' op))
    ∧ (view s op = Unqueued → view s' op = Queued phasePending x ∧ bget (s_operations s') op = Some x).
Proof.
  intros Hc Ht Hi c Hcm s' H. unfold exec, Update in H. destruct (body c s) as [[u s1]|] eqn:Eb; [|discriminate].
  injection H as _ <-. destruct Hcm as [->| ->]; cbn [body] in Eb.
  - unfold CompleteOperation in Eb. tx_walk Eb. destruct Hph as [Hph Hr]. exists j, (with_phase j phaseApplied).
    rewrite decide_True by done. pose proof (row_text_of s op j Hr) as Htx.
    assert (journal_text (with_phase j phaseApplied) = true) as Htx'
      by (unfold journal_text in *; bool_prop; repeat (apply andb_true_iff; split); done).
    destruct (put_then_record _ _ _ _ _ _ Hc Htx' Hi Eb) as (? & ? & ?). done.
  - unfold NackOperationWithResult in Eb. tx_walk Eb. destruct Hph as [Hph Hr].
    exists j, (with_reason (with_phase j phaseNacked) reason).
    rewrite decide_False by done. pose proof (row_text_of s op j Hr) as Htx.
    assert (journal_text (with_reason (with_phase j phaseNacked) reason) = true) as Htx'
      by (unfold journal_text in *; bool_prop; repeat (apply andb_true_iff; split); done).
    destruct (put_then_record _ _ _ _ _ _ Hc Htx' Hi Eb) as (? & ? & ?). done.
Qed.

(** *** Deletion fences *)

(** Forward [f] is fenced by deletion operation [D]: pending cleanup or a tombstone. *)
Definition fenced_by s (f D : string) : Prop :=
  (∃ i : ForwardDeleteIntent, bget (s_intents s) f ≫= unmarshal = Some i ∧ fi_DeletionOperationID i = D)
  ∨ (∃ t : ForwardTombstone, bget (s_tombstones s) f ≫= unmarshal = Some t ∧ ft_DeletionOperationID t = D).

(** Existing fences stay. *)
Definition keeps s s' : Prop :=
  (∀ f v, bget (s_intents s) f = Some v → bget (s_intents s') f = Some v) ∧ s_tombstones s' = s_tombstones s.

#[export] Instance keeps_preorder : PreOrder keeps.
Proof.
  split; [by intros s|]. intros s1 s2 s3 [H1 E1] [H2 E2]. split; [intros f v Hv; by apply H2, H1|congruence].
Qed.

Lemma keeps_fenced s s' (f D : string) : keeps s s' → fenced_by s f D → fenced_by s' f D.
Proof.
  intros [Hk Ht] [(i & Hi & HD)|(t & Hts & HD)]; [left|right].
  - exists i. destruct (bget (s_intents s) f) as [v|] eqn:E; [|done]. by rewrite (Hk _ _ E).
  - exists t. by rewrite Ht.
Qed.

Lemma keeps_frame (bs : list bucket) s s' : Intents ∉ bs → Tombstones ∉ bs → frame bs s s' → keeps s s'.
Proof.
  intros Hi Ht Hf. split; [|apply (Hf Tombstones Ht)]. intros f v. by rewrite <- (Hf Intents Hi : s_intents s' = s_intents s).
Qed.

Lemma keeps_intent (i : ForwardDeleteIntent) : respects keeps (putForwardDeleteIntentTx i).
Proof.
  intros s r s' [->|(b' & Hn & _ & Hb & ->)]%putIntent_Ok; [reflexivity|]. split; [|done].
  intros f v Hv. cbn. assert (Hne : f ≠ fi_ForwardID i) by congruence. by rewrite (bget_bput_ne _ _ _ _ _ Hne Hb).
Qed.

Lemma keeps_put_other (b : bucket) (k : string) (v : bytes) : b ≠ Intents → b ≠ Tombstones → respects keeps (put b k v).
Proof.
  intros Hi Ht s u s' H. apply (keeps_frame [b]); [set_solver|set_solver|]. revert H. apply frame_put. by left.
Qed.

Lemma keeps_fences (now : Z) (l : list ForwardDeletionLink) : respects keeps (put_fences (B := B) now l).
Proof. apply respects_fences; [apply _|]. apply keeps_intent. Qed.

Lemma keeps_record (op : string) (x : bytes) : respects keeps (recordResultAndQueue op x).
Proof.
  intros s u s' H. apply (keeps_frame [Operations; Outbox]); [set_solver|set_solver|]. revert H. apply frame_record; set_solver.
Qed.

Lemma keeps_receive (now e : Z) (ss op msg mt h k : string) (p : bytes) (pp : bool) (l : list ForwardDeletionLink) :
  respects keeps (receiveCommandTx now e ss op msg mt h k p pp l).
Proof.
  intros s r s' H. unfold receiveCommandTx in H. tx_walk H; try reflexivity; revert H.
  - apply respects_bind; [apply _|apply keeps_fences|]. intros _.
    apply respects_bind; [apply _|by apply keeps_put_other|]. intros _. apply respects_ret, _.
  - do 2 (apply respects_bind; [apply _|by apply keeps_put_other|]; intros _).
    apply respects_bind; [apply _|apply keeps_fences|]. intros _. apply respects_ret, _.
Qed.

Lemma keeps_recover (now e : Z) (ss : string) : respects keeps (RecoverApplyingOperations (B := B) now e ss).
Proof.
  intros s u s' H. unfold RecoverApplyingOperations in H. tx_walk H.
  apply tx_bind_Ok in H as (ids & s1 & Hcol & H). apply collect_Ok in Hcol as [-> _]. revert H.
  apply (respects_iter keeps). intros op _ t a t' H. unfold recover_one in H. tx_walk H; try reflexivity.
  revert H. apply respects_bind; [apply _|apply keeps_fences|]. intros _.
  apply respects_bind; [apply _|by apply keeps_put_other|]. intros _. apply keeps_record.
Qed.

Lemma complete_keeps_fence (f' op' f D : string) s u s' :
  CompleteForwardDeleteIntent f' op' s = Ok (u, s') → fenced_by s f D → fenced_by s' f D.
Proof.
  intros H. unfold CompleteForwardDeleteIntent in H. tx_walk H; try done. apply del_Ok in H as ->. bool_prop.
  intros [(j & Hj & HD)|(t0 & Hts & HD)]; [|right; by exists t0].
  destruct (decide (f = f')) as [->|Hn].
  - right. match goal with Hx : Some ?t = bget (s_tombstones s) f' ≫= _ ∧ _ |- _ => exists t; split; [by destruct Hx|] end.
    match goal with Hx : Some ?i = bget (s_intents s) f' ≫= _ ∧ _ |- _ => destruct Hx as [Hx _]; rewrite Hj in Hx; injection Hx as -> end.
    congruence.
  - left. exists j. cbn. by rewrite bget_bdel_ne.
Qed.

Lemma gc_keeps_fence (f' f D : string) s u s' :
  GCForwardTombstone f' s = Ok (u, s') → fenced_by s f D → fenced_by s' f D ∨ ReceiptExists s' D = true.
Proof.
  intros H. unfold GCForwardTombstone in H. tx_walk H; try (intros; by left). apply del_Ok in H as ->.
  intros [(j & Hj & HD)|(t0 & Hts & HD)]; [left; left; by exists j|].
  destruct (decide (f = f')) as [->|Hn].
  - right. match goal with Hx : Some _ = bget (s_tombstones s) f' ≫= _ ∧ _ |- _ => destruct Hx as [Hx _]; rewrite Hts in Hx; injection Hx as <- end.
    unfold ReceiptExists. cbn. apply bool_decide_eq_true_2. rewrite <- HD. by eexists.
  - left. right. exists t0. cbn. by rewrite bget_bdel_ne.
Qed.

Lemma body_keeps_fence (c : cmd) s u s' (f D : string) :
  body c s = Ok (u, s') → fenced_by s f D → fenced_by s' f D ∨ ReceiptExists s' D = true.
Proof.
  intros H Hf. destruct (decide (Intents ∉ touches c ∧ Tombstones ∉ touches c)) as [[Hi Ht]|Hn].
  { left. eapply keeps_fenced; [|done]. apply (keeps_frame (touches c)); [done|done|]. by eapply body_frame. }
  destruct c; cbn [touches] in Hn; try (exfalso; apply Hn; split; set_solver); cbn [body] in H.
  - left. eapply keeps_fenced; [|done]. apply tx_bind_Ok in H as (r1 & s1 & H & Hr). apply tx_ret_Ok in Hr as [_ ->].
    apply tx_bind_Ok in H as (r2 & s2 & H & Hr). apply tx_ret_Ok in Hr as [_ ->]. by apply keeps_receive in H.
  - left. eapply keeps_fenced; [|done]. apply tx_bind_Ok in H as (r1 & s1 & H & Hr). apply tx_ret_Ok in Hr as [_ ->].
    by apply keeps_receive in H.
  - left. eapply keeps_fenced; [|done]. by apply keeps_recover in H.
  - left. eapply keeps_fenced; [|done]. apply tx_bind_Ok in H as (r1 & s1 & H & Hr). apply tx_ret_Ok in Hr as [_ ->].
    by apply keeps_intent in H.
  - left. eapply keeps_fenced; [|done]. unfold PutForwardDeleteIntents in H. destruct (prepare_intents now [] l); [|discriminate].
    revert H. apply (respects_iter keeps). intros i _. apply respects_bind; [apply _|apply keeps_intent|]. intros ?. apply respects_ret, _.
  - left. by eapply complete_keeps_fence.
  - by eapply gc_keeps_fence.
Qed.

Lemma good_receipt_permanent s s' (D : string) : good s s' → inv s → ReceiptExists s D = true → ReceiptExists s' D = true.
Proof.
  intros Hg Hi Hr. destruct (Hg Hi) as [_ Hv]. specialize (Hv D).
  unfold ReceiptExists in *. bool_prop. destruct Hr as [x Hx]. unfold view in Hv at 1. rewrite Hx in Hv.
  apply dsteps_receipted in Hv. unfold view in Hv. apply bool_decide_eq_true_2.
  destruct (bget (s_operations s') (receiptKey D)); [by eexists|].
  destruct (bget (s_outbox _) D) as [v|]; [destruct (splitOutboxValue _)|]; discriminate.
Qed.

Lemma receipt_permanent (cs : list cmd) s (D : string) :
  Forall cmd_clean cs → inv s → ReceiptExists s D = true → ReceiptExists (run cs s) D = true.
Proof. intros Hc. by apply good_receipt_permanent, run_good. Qed.

Lemma run_keeps_fence (cs : list cmd) s (f D : string) :
  Forall cmd_clean cs → inv s → fenced_by s f D → fenced_by (run cs s) f D ∨ ReceiptExists (run cs s) D = true.
Proof.
  intros Hc. revert s. induction cs as [|c cs IH]; intros s Hi Hf; [by left|].
  apply list.Forall_cons in Hc as [Hc1 Hc2]. change (run (c :: cs) s) with (run cs (exec c s).2).
  assert (Hi' : inv (exec c s).2) by (apply (exec_respects good); [by apply good_body|done]).
  assert (fenced_by (exec c s).2 f D ∨ ReceiptExists (exec c s).2 D = true) as [Hf'|Hr].
  { unfold exec, Update. destruct (body c s) as [[u s']|] eqn:E; [by eapply body_keeps_fence|by left]. }
  - by apply IH.
  - right. by apply receipt_permanent.
Qed.

(** A fence write leaves the forward fenced, by the link's deletion or an older one. *)
Lemma put_fence_fenced (now : Z) (l : ForwardDeletionLink) s u s' :
  link_text l = true → put_fence now l s = Ok (u, s') →
  ∃ D, fenced_by s' (fl_ForwardID l) D ∧ (fenced_by s (fl_ForwardID l) D ∨ D = fl_DeletionOperationID l).
Proof.
  intros Ht H. unfold put_fence in H. set (i := mkIntent _ _ _ _) in H.
  assert (Hold : ∀ D, fenced_by s (fl_ForwardID l) D → s' = s →
    ∃ D, fenced_by s' (fl_ForwardID l) D ∧ (fenced_by s (fl_ForwardID l) D ∨ D = fl_DeletionOperationID l)).
  { intros D HD ->. exists D. auto. }
  destruct (putForwardDeleteIntentTx i s) as [[r s1]|e] eqn:E.
  - injection H as _ <-. pose proof E as Ew. unfold putForwardDeleteIntentTx in E. tx_walk E.
    + match goal with Hx : Some ?j = bget (s_intents s) _ ≫= _ ∧ _ |- _ => eapply (Hold (fi_DeletionOperationID j)); [left; exists j|]; by destruct Hx end.
    + match goal with E1 : bget (s_tombstones s) _ = Some ?v, E2 : unmarshal ?v = Some ?t |- _ =>
        eapply (Hold (ft_DeletionOperationID t)); [right; exists t; cbn in E1; by rewrite E1|done] end.
    + apply tx_bind_Ok in E as (u1 & s2 & Hp & E). apply put_Ok in Hp as (b' & Hb & ->). apply tx_ret_Ok in E as [_ ->].
      exists (fl_DeletionOperationID l). split; [|by right]. left. exists i. cbn in Hb |- *.
      rewrite (bget_bput_eq _ _ _ _ Hb). cbn. split; [|done]. by apply unmarshal_marshal.
  - destruct e; try discriminate. injection H as _ <-. unfold putForwardDeleteIntentTx in E.
    destruct (negb _); [discriminate|]. unfold tx_bind in E.
    destruct (loadForwardDeleteIntentTx _ s) as [[[j|] s1]|e] eqn:El.
    + apply loadIntent_Ok in El as (-> & Hj & _). eapply (Hold (fi_DeletionOperationID j)); [|done]. left. by exists j.
    + apply loadIntent_Ok in El as (-> & _ & _). unfold get in E. cbn [at_bucket] in E.
      destruct (bget (s_tombstones s) _) as [v|] eqn:Et; [|destruct (put _ _ _ s) as [[? ?]|?] eqn:Ep; [discriminate|]].
      * destruct (unmarshal v) as [t|] eqn:Eu; [|discriminate]. eapply (Hold (ft_DeletionOperationID t)); [|done].
        right. exists t. cbn in Et. by rewrite Et.
      * unfold put in Ep. destruct (bput _ _ _); congruence.
    + exfalso. unfold loadForwardDeleteIntentTx, tx_bind, get in El. injection E as ->.
      destruct (bget _ _); [|discriminate]. destruct (unmarshal _); [|discriminate].
      destruct (negb _); [discriminate|]. destruct (negb _); discriminate.
Qed.

(** A fence write adds no other fence. *)
Lemma put_fence_new (now : Z) (l : ForwardDeletionLink) s u s' (f D : string) :
  link_text l = true → put_fence now l s = Ok (u, s') → fenced_by s' f D →
  fenced_by s f D ∨ (fl_ForwardID l = f ∧ fl_DeletionOperationID l = D).
Proof.
  intros Ht H. unfold put_fence in H. set (i := mkIntent _ _ _ _) in H.
  destruct (putForwardDeleteIntentTx i s) as [[r s1]|e] eqn:E; [|destruct e; simplify_eq; auto].
  injection H as _ <-. apply putIntent_Ok in E as [->|(b' & _ & _ & Hb & ->)]; [auto|].
  intros [(j & Hj & HD)|Hts]; [|left; by right]. cbn in Hj, Hb. destruct (decide (f = fl_ForwardID l)) as [->|Hn].
  - rewrite (bget_bput_eq _ _ _ _ Hb) in Hj. cbn in Hj. rewrite unmarshal_marshal in Hj by done.
    injection Hj as <-. by right.
  - rewrite (bget_bput_ne _ _ _ _ _ Hn Hb) in Hj. left. left. by exists j.
Qed.

Lemma put_fences_fenced (now : Z) (l : list ForwardDeletionLink) s u s' :
  forallb link_text l = true → put_fences now l s = Ok (u, s') →
  ∀ x, x ∈ l → ∃ D, fenced_by s' (fl_ForwardID x) D
    ∧ (fenced_by s (fl_ForwardID x) D ∨ ∃ y, y ∈ l ∧ fl_ForwardID y = fl_ForwardID x ∧ fl_DeletionOperationID y = D).
Proof.
  revert s. induction l as [|y l IH]; intros s Ht H x Hx; [by apply elem_of_nil in Hx|].
  cbn in Ht. apply andb_true_iff in Ht as [Hty Htl]. unfold put_fences in *. cbn [tx_iter] in H.
  apply tx_bind_Ok in H as (u1 & s1 & Hy & H). destruct (put_fence_fenced _ _ _ _ _ Hty Hy) as (Dy & Hfy & Hoy).
  apply elem_of_cons in Hx as [->|Hx].
  - exists Dy. split; [eapply keeps_fenced; [|done]; by eapply keeps_fences|]. destruct Hoy as [?|?]; [by left|].
    right. exists y. split; [left|done].
  - destruct (IH s1 Htl H x Hx) as (D & Hf & [Ho|(z & Hz & ? & ?)]); exists D; split; try done.
    + destruct (put_fence_new _ _ _ _ _ _ _ Hty Hy Ho) as [?|[? ?]]; [by left|]. right. exists y. split; [left|done].
    + right. exists z. split; [by right|done].
Qed.


(** *** Controller pins *)

Definition pin_le s s' : Prop := ∀ inst p, GetControllerPin s inst = Ok (Some p) →
  ∃ p', GetControllerPin s' inst = Ok (Some p') ∧ cp_Generation p ≤ cp_Generation p'.

#[export] Instance pin_le_preorder : PreOrder pin_le.
Proof.
  split; [intros s inst p Hp; by exists p|]. intros s1 s2 s3 H1 H2 inst p Hp.
  destruct (H1 _ _ Hp) as (p2 & Hp2 & ?). destruct (H2 _ _ Hp2) as (p3 & Hp3 & ?). exists p3. split; [done|lia].
Qed.

Lemma save_pin_le (pin : ControllerPin) : pin_text pin = true → respects pin_le (SaveControllerPin pin).
Proof.
  intros Ht s u s' H. unfold SaveControllerPin in H. tx_walk H; apply put_Ok in H as (b' & Hb & ->); cbn [at_bucket] in Hb;
    intros inst p Hp; unfold GetControllerPin in *; cbn [set_bucket s_pins];
    (destruct (decide (inst = cp_InstanceID pin)) as [->|Hn];
     [rewrite (bget_bput_eq _ _ _ _ Hb), unmarshal_marshal by done; exists pin; split; [done|]
     |rewrite (bget_bput_ne _ _ _ _ _ Hn Hb); by exists p]).
  - match goal with E : bget (s_pins s) _ = Some ?v, E' : unmarshal ?v = Some _ |- _ => rewrite E, E' in Hp end.
    injection Hp as ->. lia.
  - match goal with E : bget (s_pins s) _ = None |- _ => by rewrite E in Hp end.
Qed.

(** Pins never downgrade.  Whatever commands run, once a controller instance is pinned
    it stays pinned, and the generation of its pin never decreases. *)
Theorem pin_generation_monotone (cs : list cmd) s (inst : string) (p : ControllerPin) :
  Forall cmd_text cs → GetControllerPin s inst = Ok (Some p) →
  ∃ p', GetControllerPin (run cs s) inst = Ok (Some p') ∧ cp_Generation p ≤ cp_Generation p'.
Proof.
  intros Hc. apply (run_respects pin_le). intros c Hin. eapply list.Forall_forall in Hc; [|done].
  destruct (decide (Pins ∈ touches c)) as [Hp|Hn].
  - destruct c; cbn in Hp; try (exfalso; set_solver). by apply save_pin_le.
  - intros t u t' H inst' p' Hp'. exists p'. split; [|lia]. unfold GetControllerPin in *.
    pose proof (body_frame c _ _ _ H Pins Hn) as Hf. cbn [at_bucket] in Hf. by rewrite Hf.
Qed.
End Theorems.

(** ** Witnesses: buckets as finite maps, rows in the concrete encoding *)

#[export] Instance inboxEntry_eq_dec : EqDecision inboxEntry.
Proof. solve_decision. Defined.
#[export] Instance operationJournal_eq_dec : EqDecision operationJournal.
Proof. solve_decision. Defined.
#[export] Instance ForwardTombstone_eq_dec : EqDecision ForwardTombstone.
Proof. solve_decision. Defined.

#[export] Instance inboxEntry_countable : Countable inboxEntry :=
  inj_countable' (λ e, (ie_MessageType e, ie_PayloadHash e, ie_OperationID e)) (λ '(a, b, c), mkInbox a b c) ltac:(by intros []).
#[export] Instance link_countable : Countable ForwardDeletionLink :=
  inj_countable' (λ l, (fl_ForwardID l, fl_DeletionOperationID l, fl_DesiredRevision l)) (λ '(a, b, c), mkLink a b c) ltac:(by intros []).
#[export] Instance operationJournal_countable : Countable operationJournal :=
  inj_countable' (λ j, (j_Kind j, j_MessageID j, j_Phase j, j_Reason j, j_Payload j, j_PayloadPresent j,
                        j_RecoveredDeletionPending j, j_ForwardDeletions j))
    (λ '(a, b, c, d, e, f, g, h), mkJournal a b c d e f g h) ltac:(by intros []).
#[export] Instance intent_countable : Countable ForwardDeleteIntent :=
  inj_countable' (λ i, (fi_ForwardID i, fi_DeletionOperationID i, fi_DesiredRevision i, fi_CreatedAtUnix i))
    (λ '(a, b, c, d), mkIntent a b c d) ltac:(by intros []).
#[export] Instance tombstone_countable : Countable ForwardTombstone :=
  inj_countable' (λ i, (ft_ForwardID i, ft_DeletionOperationID i, ft_DesiredRevision i, ft_CreatedAtUnix i))
    (λ '(a, b, c, d), mkTombstone a b c d) ltac:(by intros []).
#[export] Instance pin_countable : Countable ControllerPin :=
  inj_countable' (λ p, (cp_InstanceID p, cp_KeyID p, cp_PublicKeyRaw p, cp_Generation p))
    (λ '(a, b, c, d), mkPin a b c d) ltac:(by intros []).

(** A desired snapshot that deletes Forward [f1], and its payload. *)
Definition w_absent (revision : Z) : DesiredState :=
  mkDesiredState "node" [mkForwardSpec "f1" "web" "tcp" "10.0.0.2:80" "stun-only" "" 0 0 "" 0 false "" "" "" revision "ABSENT" "del-1"].

Definition w_payload : bytes := [Byte.x44].
Definition w_payload0 : bytes := [Byte.x45].

Definition w_env : JournalEnv := {|
  je_inbox := countable_row (λ _, true);
  je_journal := countable_row journal_text;
  je_intent := countable_row intent_text;
  je_tombstone := countable_row tombstone_text;
  je_pin := countable_row pin_text;
  json_string str := Byte.x22 :: bytes_of str ++ [Byte.x22];
  sha256_hex := string_of;
  DecodeStrictDesired p :=
    if bytes_eqb p w_payload then Some (w_absent 7) else if bytes_eqb p w_payload0 then Some (w_absent 0) else None
|}.

#[export] Existing Instance w_env.

Lemma w_laws : JournalLaws.
Proof. split; apply countable_row_laws. Qed.
#[export] Existing Instance w_laws.

Definition w_store : Store mapb := empty_store.

(** One operation from its command to its result: session 5, then the receipt chain. *)
Definition w_apply : list cmd :=
  [CAdvanceSession 5 "s5"; CReceive 100 5 "s5" "op1" "m1" "rotate" "h1" "rotate"; CIntent 5 "s5" "op1"; CApplying 5 "s5" "op1"].
Definition w_finish : list cmd :=
  [CComplete 5 "s5" "op1" [Byte.x52]; CClaim 5 "s5" "op1"; CAdvanceSession 6 "s6"; CRequeue 6 "s6"; CClaim 6 "s6" "op1";
   CSent 6 "s6" "op1"; CAck 6 "s6" "op1"; CReceipt 6 "s6" "op1"; CQueue 6 "s6" "op1" [Byte.x53]].

(** The whole life of one result, across a reconnect. *)
Example w_delivered :
  view (run w_apply w_store) "op1" = Unqueued
  ∧ view (run (take 4 w_finish) (run w_apply w_store)) "op1" = Queued "PENDING" [Byte.x52]
  ∧ view (run w_finish (run w_apply w_store)) "op1" = Receipted [Byte.x52].
Proof. vm_compute. done. Qed.

Lemma w_clean (c : string) : String.prefix "op:" c = false → String.prefix "receipt:" c = false → clean c.
Proof. by split. Qed.

Lemma journal_session_fencing_witness :
  exec (CClaim 5 "s5" "op1") (run (take 3 w_finish) (run w_apply w_store))
  = (Err ErrStaleSession, run (take 3 w_finish) (run w_apply w_store)).
Proof.
  refine (proj2 (journal_session_fencing (take 3 w_finish) (run w_apply w_store) _) (CClaim 5 "s5" "op1") 5 "s5" eq_refl _).
  - repeat (apply List.Forall_cons; [done|]). apply List.Forall_nil.
  - vm_compute. discriminate.
Defined.

Lemma journal_delivery_refinement_witness :
  rtc dstep (view (run w_apply w_store) "op1") (view (run w_finish (run w_apply w_store)) "op1").
Proof.
  refine (proj1 (proj2 (journal_delivery_refinement w_apply w_finish "op1" _ _))).
  - repeat (apply List.Forall_cons; [done|]). apply List.Forall_nil.
  - repeat (apply List.Forall_cons; [done|]). apply List.Forall_nil.
Defined.

Lemma journal_operation_automaton_witness :
  rtc jstep (None, false) (jview (run w_apply w_store) "op1").
Proof.
  refine (proj1 (journal_operation_automaton w_apply w_store "op1" _ _ inv_empty)).
  - repeat (apply List.Forall_cons; [done|]). apply List.Forall_nil.
  - repeat (apply List.Forall_cons; [done|]). apply List.Forall_nil.
Defined.

Lemma exec_succeeded {B} `{!Bolt B} `{!JournalEnv} (c : cmd) (s : Store B) :
  is_ok (exec c s).1 = true → exec c s = (Ok tt, (exec c s).2).
Proof. destruct (exec c s) as [[[]|e] s']; [done|discriminate]. Qed.

Lemma completion_queues_result_witness :
  is_Some (payload_of (view (exec (CComplete 5 "s5" "op1" [Byte.x52]) (run w_apply w_store)).2 "op1")).
Proof.
  assert (Hi : inv (run w_apply w_store)).
  { apply run_inv; [repeat (apply List.Forall_cons; [done|]); apply List.Forall_nil|apply inv_empty]. }
  assert (Hok : is_ok (exec (CComplete 5 "s5" "op1" [Byte.x52]) (run w_apply w_store)).1 = true).
  { vm_compute. reflexivity. }
  assert (Hc : clean "op1") by by apply w_clean.
  pose proof (completion_queues_result 5 "s5" "op1" "" [Byte.x52] (run w_apply w_store) Hc eq_refl Hi
    (CComplete 5 "s5" "op1" [Byte.x52]) (or_introl eq_refl) _ (exec_succeeded _ _ Hok)) as (j & j' & _ & _ & _ & _ & H & _).
  exact H.
Defined.

Definition w_session : Store mapb := run [CAdvanceSession 5 "s5"] w_store.
Definition w_received : Store mapb :=
  (Update (ReceiveCommandWithPayloadStatus 100 5 "s5" "op1" "m1" "desired" w_payload "desired") w_session).2.


Definition w_pin (generation : Z) : ControllerPin := mkPin "ctl" "key" (repeat Byte.x01 32) generation.

Lemma pin_generation_monotone_witness :
  ∃ p', GetControllerPin (run [CSavePin (w_pin 2); CSavePin (w_pin 4)] (run [CSavePin (w_pin 3)] w_store)) "ctl" = Ok (Some p')
    ∧ 3 ≤ cp_Generation p'.
Proof.
  refine (pin_generation_monotone [CSavePin (w_pin 2); CSavePin (w_pin 4)] (run [CSavePin (w_pin 3)] w_store) "ctl" (w_pin 3) _ _).
  - repeat (apply List.Forall_cons; [done|]). apply List.Forall_nil.
  - vm_compute. reflexivity.
Defined.

(** ** Behaviours worth knowing *)

(** The three row kinds share one key space without checks: an operation whose id is another
    operation's receipt key makes that operation look receipted. *)
Example journal_prefix_alias :
  let s := run [CQueueIndependent "x" [Byte.x01]; CQueueIndependent "receipt:x" [Byte.x02]] w_store in
  ReceiptExists s "x" = true ∧ OutboxContains s "x" = true.
Proof. vm_compute. done. Qed.

(** A snapshot that passes [DesiredState.Validate] but deletes at revision zero is not
    received at all: its fence is refused and the whole receive rolls back. *)
Example receive_zero_revision_refused :
  DesiredState_Validate (w_absent 0) = Ok tt
  ∧ Update (ReceiveCommandWithPayloadStatus 100 5 "s5" "op1" "m1" "desired" w_payload0 "desired") w_session
    = (Err EInvalidIntent, w_session).
Proof. vm_compute. done. Qed.
