(* ===== verification/Applied.v ===== *)
(** * Received desired state and applied Forwards

    [src/internal/agent/localstate/applied.go]: the per-Forward merge of desired
    snapshots under deletion fences, [CommitDesired] with its per-resource
    outcomes, and the applied (last known good) records.  The transactions run
    over the store and the transaction monad of Journal.v. *)

From Stdlib Require Import ZArith Lia Strings.Byte.
From stdpp Require Import base tactics list sets strings option gmap countable relations.
From S2P Require Import Prelude GoStd Domain Bolt Journal.

Open Scope Z_scope.

(** ** Rows *)

(** [appliedRecord]: the applied state with its serving spec (absent in legacy rows). *)
Record appliedRecord : Type := mkApplied { ar_State : AppliedForwardState; ar_ServingSpec : option ForwardSpec }.

#[export] Instance appliedRecord_eq_dec : EqDecision appliedRecord.
Proof. solve_decision. Defined.

Inductive ApplyOutcome : Type := ApplyApplied | ApplyFailed | ApplyDeleted | ApplySkipped | ApplyOther.

#[export] Instance ApplyOutcome_eq_dec : EqDecision ApplyOutcome.
Proof. solve_decision. Defined.

Record ForwardApply : Type := mkForwardApply {
  fo_ForwardID : string;
  fo_Outcome : ApplyOutcome;
  fo_Applied : option AppliedForwardState;
  fo_Err : bool                         (* [Err != nil] *)
}.

Inductive ApplyStatus : Type := ApplyStatusFull | ApplyStatusPartial | ApplyStatusFailed.

Record ApplyReport : Type := mkReport {
  rp_Status : ApplyStatus;
  rp_AppliedCount : nat;
  rp_DeletedCount : nat;
  rp_FailedCount : nat;
  rp_FailedForwards : list string
}.

(** JSON of the two row types. *)
Class AppliedEnv := {
  #[global] ae_desired :: JsonRow DesiredState;
  #[global] ae_applied :: JsonRow appliedRecord
}.

(** Rows whose strings are all valid UTF-8. *)
Definition spec_text (f : ForwardSpec) : bool :=
  forallb text [fs_ForwardID f; fs_Name f; fs_Protocol f; fs_Target f; fs_Strategy f; fs_SourceInterface f;
    fs_ManualExpectedEndpoint f; fs_PublishScheme f; fs_PublishedHost f; fs_CustomURITemplate f; fs_Presence f;
    fs_DeletionOperationID f].
Definition desired_text (d : DesiredState) : bool := text (ds_NodeID d) && forallb spec_text (ds_Forwards d).
Definition applied_text (r : appliedRecord) : bool :=
  forallb text [af_ForwardID (ar_State r); af_ActualBindHost (ar_State r); af_Strategy (ar_State r);
    af_ActivationRecovery (ar_State r); af_MappingJournalRef (ar_State r)]
  && match ar_ServingSpec r with Some f => spec_text f | None => true end.

Class AppliedLaws `{AppliedEnv} : Prop := {
  #[global] al_desired :: JsonRowLaws DesiredState desired_text;
  #[global] al_applied :: JsonRowLaws appliedRecord applied_text
}.

(** ** Applied records *)

(** [decodeAppliedRecord]: a row without a forward id keeps no serving spec. *)
Definition decodeAppliedRecord `{AppliedEnv} (raw : bytes) : option appliedRecord :=
  r ← unmarshal raw;
  Some (if String.eqb (af_ForwardID (ar_State r)) "" then mkApplied (ar_State r) None else r).

Definition validateAppliedRecord (key : string) (r : appliedRecord) : bool :=
  let state := ar_State r in
  is_ok (AppliedForwardState_Validate state)
  && (String.eqb key "" || String.eqb (af_ForwardID state) key)
  && match ar_ServingSpec r with
     | None => true
     | Some spec =>
         is_ok (ForwardSpec_Validate spec)
         && String.eqb (fs_ForwardID spec) (af_ForwardID state)
         && String.eqb (fs_Presence spec) PresencePresent && (fs_DesiredRevision spec =? af_SpecRevision state)
         && String.eqb (fs_Strategy spec) (af_Strategy state)
     end.

Definition equivalentAppliedState (a b : AppliedForwardState) : bool :=
  let zero x := mkAppliedForwardState (af_ForwardID x) (af_SpecRevision x) (af_DesiredRevision x) (af_ActualBindHost x)
    (af_ActualBindPort x) (af_AssignedGatewayPort x) (af_PublicPort x) (af_Strategy x) (af_LayerVersion x)
    (af_ActivationRecovery x) (af_MappingJournalRef x) (af_HookDefinitionVersion x) (af_HookSecretVersion x) 0 in
  bool_decide (zero a = zero b).

(** ** Merging snapshots *)

(** The Go [index] map of a merge and the slice it indexes. *)
Definition index_of_forwards (l : list ForwardSpec) : gmap string nat :=
  snd (foldl (λ '(i, m) f, (S i, <[fs_ForwardID f := i]> m)) (O, ∅) l).

Record merging : Type := mkMerging { mg_forwards : list ForwardSpec; mg_index : gmap string nat }.

Definition merge_start (current : DesiredState) : merging := mkMerging (ds_Forwards current) (index_of_forwards (ds_Forwards current)).

(** [append] a spec under its id, or overwrite slot [at]. *)
Definition merge_append (m : merging) (f : ForwardSpec) : merging :=
  mkMerging (mg_forwards m ++ [f]) (<[fs_ForwardID f := length (mg_forwards m)]> (mg_index m)).
Definition merge_set (m : merging) (at' : nat) (f : ForwardSpec) : merging :=
  mkMerging (<[at' := f]> (mg_forwards m)) (mg_index m).

(** The slot of a forward and its current spec. *)
Definition merge_slot (m : merging) (id : string) : option (nat * ForwardSpec) :=
  at' ← mg_index m !! id; f ← mg_forwards m !! at'; Some (at', f).

(** The revision rule both merges share. *)
Definition merge_revision (m : merging) (incoming : ForwardSpec) : result LsError merging :=
  match merge_slot m (fs_ForwardID incoming) with
  | None => Ok (merge_append m incoming)
  | Some (at', currentSpec) =>
      if fs_DesiredRevision currentSpec <? fs_DesiredRevision incoming then Ok (merge_set m at' incoming)
      else if fs_DesiredRevision incoming <? fs_DesiredRevision currentSpec then Ok m
      else if bool_decide (incoming = currentSpec) then Ok m
      else Err ErrDesiredRevisionConflict
  end.

Fixpoint merge_all (m : merging) (l : list ForwardSpec) : result LsError merging :=
  match l with
  | [] => Ok m
  | f :: l' => let* m' := merge_revision m f in merge_all m' l'
  end.

Definition mergeDesiredSnapshots (current incoming : DesiredState) : result LsError DesiredState :=
  if String.eqb (ds_NodeID current) "" then Ok incoming
  else
    fail_if negb (String.eqb (ds_NodeID current) (ds_NodeID incoming)) with ENodeMismatch ;;
    fail_if negb (is_ok (DesiredState_Validate current)) with EInvalidDesired ;;
    let* m := merge_all (merge_start current) (ds_Forwards incoming) in
    Ok (mkDesiredState (ds_NodeID current) (mg_forwards m)).

(** [deleteFenceIdentity]: the operation and revision fencing a Forward, if any. *)
Definition deleteFenceIdentity (intent : option ForwardDeleteIntent) (tombstone : option ForwardTombstone)
    : result LsError (option (string * Z)) :=
  let operationID := match intent with Some i => fi_DeletionOperationID i | None => ""%string end in
  let revision := match intent with Some i => fi_DesiredRevision i | None => 0 end in
  let finish (op : string) (rev : Z) := Ok (if String.eqb op "" then None else Some (op, rev)) in
  match tombstone with
  | None => finish operationID revision
  | Some t =>
      fail_if negb (String.eqb operationID "") && negb (String.eqb (ft_DeletionOperationID t) operationID)
        with ErrForwardDeleteConflict ;;
      if ft_DesiredRevision t =? 0 then finish (ft_DeletionOperationID t) revision
      else
        fail_if negb (revision =? 0) && negb (ft_DesiredRevision t =? revision) with ErrForwardDeleteConflict ;;
        finish (ft_DeletionOperationID t) (ft_DesiredRevision t)
  end.

Definition fencedAbsentSpec (f : ForwardSpec) (operationID : string) (revision : Z) : ForwardSpec :=
  mkForwardSpec (fs_ForwardID f) (fs_Name f) (fs_Protocol f) (fs_Target f) (fs_Strategy f) (fs_SourceInterface f)
    (fs_RequestedLocalPort f) (fs_RequestedPublicPort f) (fs_ManualExpectedEndpoint f) (fs_RateLimitBPS f)
    (fs_DetailedStats f) (fs_PublishScheme f) (fs_PublishedHost f) (fs_CustomURITemplate f)
    (if revision =? 0 then fs_DesiredRevision f else revision) PresenceAbsent operationID.

Definition fence_mismatch (f : ForwardSpec) (operationID : string) (revision : Z) : bool :=
  negb (String.eqb (fs_DeletionOperationID f) operationID) || (negb (revision =? 0) && negb (fs_DesiredRevision f =? revision)).

(** One Forward of a snapshot against its fence. *)
Definition merge_fenced (m : merging) (incoming : ForwardSpec) (fence : option (string * Z)) : result LsError merging :=
  match fence with
  | None => merge_revision m incoming
  | Some (operationID, revision) =>
      let write f := match merge_slot m (fs_ForwardID incoming) with
                     | Some (at', _) => merge_set m at' f
                     | None => merge_append m f
                     end in
      if String.eqb (fs_Presence incoming) PresenceAbsent then
        fail_if fence_mismatch incoming operationID revision with ErrForwardDeleteConflict ;;
        Ok (write incoming)
      else
        match merge_slot m (fs_ForwardID incoming) with
        | Some (_, currentSpec) =>
            if String.eqb (fs_Presence currentSpec) PresenceAbsent then
              fail_if fence_mismatch currentSpec operationID revision with ErrForwardDeleteConflict ;; Ok m
            else Ok (write (fencedAbsentSpec incoming operationID revision))
        | None => Ok (write (fencedAbsentSpec incoming operationID revision))
        end
  end.

Section Applied.
Context {B : Type} `{!Bolt B} `{!JournalEnv} `{!AppliedEnv}.
Implicit Types s : Store B.

(** Lift a pure fallible step into a transaction. *)
Definition tx_of {A} (r : result LsError A) : tx B A := match r with Ok a => tx_ret a | Err e => tx_fail e end.

Fixpoint merge_fenced_all (m : merging) (l : list ForwardSpec) : tx B merging :=
  match l with
  | [] => tx_ret m
  | f :: l' =>
      let! intent := loadForwardDeleteIntentTx (fs_ForwardID f) in
      let! tombstone := loadForwardTombstoneTx (fs_ForwardID f) in
      let! fence := tx_of (deleteFenceIdentity intent tombstone) in
      let! m' := tx_of (merge_fenced m f fence) in
      merge_fenced_all m' l'
  end.

Definition mergeReceivedDesiredWithDeleteFences (current incoming : DesiredState) : tx B DesiredState :=
  tx_fail_if negb (String.eqb (ds_NodeID current) (ds_NodeID incoming)) with ENodeMismatch ;;
  tx_fail_if negb (is_ok (DesiredState_Validate current)) with EInvalidDesired ;;
  let! m := merge_fenced_all (merge_start current) (ds_Forwards incoming) in
  tx_ret (mkDesiredState (ds_NodeID current) (mg_forwards m)).

(** The [ForEach] of [loadReceivedDesiredTx]: at most one valid row under its node id. *)
Fixpoint load_desired_rows (found : option DesiredState) (l : list (string * bytes)) : result LsError (option DesiredState) :=
  match l with
  | [] => Ok found
  | (key, raw) :: l' =>
      match found with
      | Some _ => Err EMultipleDesired
      | None =>
          match unmarshal raw with
          | None => Err EDecode
          | Some d =>
              fail_if negb (is_ok (DesiredState_Validate d)) with EInvalidDesired ;;
              fail_if negb (String.eqb key (ds_NodeID d)) with EInvalidDesired ;;
              load_desired_rows (Some d) l'
          end
      end
  end.

Definition loadReceivedDesiredTx : tx B (option DesiredState) :=
  let! rows := entries DesiredB in tx_of (load_desired_rows None rows).

Definition mergeReceivedDesiredTx (incoming : DesiredState) : tx B DesiredState :=
  let! current := loadReceivedDesiredTx in
  match current with
  | None => mergeReceivedDesiredWithDeleteFences (mkDesiredState (ds_NodeID incoming) []) incoming
  | Some c => mergeReceivedDesiredWithDeleteFences c incoming
  end.

Definition SaveReceivedDesired (d : DesiredState) : tx B unit :=
  tx_fail_if negb (is_ok (DesiredState_Validate d)) with EInvalidDesired ;;
  let! merged := mergeReceivedDesiredTx d in
  put DesiredB (ds_NodeID merged) (marshal merged).

(** ** Applied records in the store *)

Definition loadAppliedRecordTx (key : string) : tx B (option appliedRecord) :=
  let! raw := get AppliedB key in
  match raw with
  | None => tx_ret None
  | Some v =>
      match decodeAppliedRecord v with
      | None => tx_fail EDecode
      | Some r => tx_fail_if negb (validateAppliedRecord key r) with EInvalidApplied ;; tx_ret (Some r)
      end
  end.

Definition validateAppliedBucketTx : tx B unit :=
  let! rows := entries AppliedB in
  tx_iter (λ '(key, raw),
    match decodeAppliedRecord raw with
    | None => tx_fail EDecode
    | Some r => tx_fail_if negb (validateAppliedRecord key r) with EInvalidApplied ;; tx_ret tt
    end) rows.

(** ** Committing a snapshot with its outcomes *)

(** The Go map from forward id to spec: the last entry wins. *)
Definition spec_of (l : list ForwardSpec) (id : string) : option ForwardSpec :=
  List.find (λ f, String.eqb (fs_ForwardID f) id) (rev l).

(** The checks of one outcome before the transaction. *)
Definition check_outcome (o : ForwardApply) (spec : ForwardSpec) : bool :=
  match fo_Outcome o with
  | ApplyApplied =>
      match fo_Applied o with
      | None => false
      | Some a =>
          is_ok (AppliedForwardState_Validate a) && String.eqb (af_ForwardID a) (fo_ForwardID o)
          && (af_SpecRevision a =? fs_DesiredRevision spec) && negb (af_DesiredRevision a <? af_SpecRevision a)
          && String.eqb (fs_Presence spec) PresencePresent
          && validateAppliedRecord (fo_ForwardID o) (mkApplied a (Some spec))
      end
  | ApplyDeleted => String.eqb (fs_Presence spec) PresenceAbsent && negb (String.eqb (fs_DeletionOperationID spec) "")
  | ApplyFailed | ApplySkipped => true
  | ApplyOther => false
  end.

Fixpoint check_outcomes (specs : list ForwardSpec) (seen : list string) (l : list ForwardApply) : bool :=
  match l with
  | [] => true
  | o :: l' =>
      match spec_of specs (fo_ForwardID o) with
      | None => false
      | Some spec =>
          negb (bool_decide (fo_ForwardID o ∈ seen)) && check_outcome o spec
          && check_outcomes specs (fo_ForwardID o :: seen) l'
      end
  end.

Definition loadForwardDeleteFenceTx (forwardID : string) : tx B (option ForwardDeleteIntent * option ForwardTombstone) :=
  let! intent := loadForwardDeleteIntentTx forwardID in
  let! tombstone := loadForwardTombstoneTx forwardID in
  tx_ret (intent, tombstone).

Definition commit_applied (forwardID : string) (spec : ForwardSpec) (candidate : AppliedForwardState) : tx B unit :=
  let! t := get Tombstones forwardID in
  match t with Some _ => tx_fail ErrTombstonedForward | None =>
  let! existing := loadAppliedRecordTx forwardID in
  tx_fail_if (match existing with
     | None => false
     | Some e =>
         (af_SpecRevision candidate <? af_SpecRevision (ar_State e))
         || ((af_SpecRevision candidate =? af_SpecRevision (ar_State e))
             && (negb (bool_decide (ar_ServingSpec e = Some spec)) || negb (equivalentAppliedState candidate (ar_State e))))
     end) with ErrAppliedRevisionConflict ;;
  put AppliedB forwardID (marshal (mkApplied candidate (Some spec)))
  end.

Definition commit_deleted (now : Z) (forwardID : string) (spec : ForwardSpec) : tx B unit :=
  let! found := loadForwardDeleteIntentTx forwardID in
  tx_fail_if (match found with
     | None => false
     | Some e => negb (String.eqb (fi_DeletionOperationID e) (fs_DeletionOperationID spec))
                 || negb (fi_DesiredRevision e =? fs_DesiredRevision spec)
     end) with ErrForwardDeleteConflict ;;
  let! _ := put Tombstones forwardID
              (marshal (mkTombstone forwardID (fs_DeletionOperationID spec) (fs_DesiredRevision spec) now)) in
  let! _ := del AppliedB forwardID in
  del ActivationB forwardID.

(** The counters of the report. *)
Record counters : Type := mkCounters { ct_applied : nat; ct_deleted : nat; ct_failed : nat; ct_forwards : list string }.

(** One outcome inside the transaction. *)
Definition commit_one (now : Z) (specs merged : list ForwardSpec) (o : ForwardApply) (c : counters) : tx B counters :=
  match spec_of specs (fo_ForwardID o) with
  | None => tx_fail EOutcome            (* excluded by [check_outcomes] *)
  | Some spec =>
      let! _ :=
        (match fo_Outcome o with
         | ApplyApplied =>
             let! fence := loadForwardDeleteFenceTx (fo_ForwardID o) in
             match fence with
             | (None, None) => tx_ret tt
             | _ => tx_fail ErrTombstonedForward
             end
         | _ => tx_ret tt
         end) in
      if negb (bool_decide (spec_of merged (fo_ForwardID o) = Some spec)) then
        match fo_Outcome o with
        | ApplySkipped => tx_ret c
        | _ => tx_fail ErrDesiredRevisionConflict
        end
      else
        match fo_Outcome o with
        | ApplyApplied =>
            match fo_Applied o with
            | None => tx_fail EOutcome      (* excluded by [check_outcomes] *)
            | Some a =>
                let! _ := commit_applied (fo_ForwardID o) spec a in
                tx_ret (mkCounters (S (ct_applied c)) (ct_deleted c) (ct_failed c) (ct_forwards c))
            end
        | ApplyDeleted =>
            let! _ := commit_deleted now (fo_ForwardID o) spec in
            tx_ret (mkCounters (ct_applied c) (S (ct_deleted c)) (ct_failed c) (ct_forwards c))
        | ApplyFailed =>
            tx_ret (mkCounters (ct_applied c) (ct_deleted c) (S (ct_failed c))
              (if fo_Err o then ct_forwards c ++ [fo_ForwardID o] else ct_forwards c))
        | ApplySkipped | ApplyOther => tx_ret c
        end
  end.

Fixpoint commit_all (now : Z) (specs merged : list ForwardSpec) (l : list ForwardApply) (c : counters) : tx B counters :=
  match l with
  | [] => tx_ret c
  | o :: l' => let! c' := commit_one now specs merged o c in commit_all now specs merged l' c'
  end.

Definition report_of (c : counters) : ApplyReport :=
  mkReport
    (if bool_decide (ct_failed c = O) then ApplyStatusFull
     else if bool_decide (0 < ct_applied c + ct_deleted c)%nat then ApplyStatusPartial else ApplyStatusFailed)
    (ct_applied c) (ct_deleted c) (ct_failed c) (ct_forwards c).

Definition CommitDesired (now : Z) (d : DesiredState) (outcomes : list ForwardApply) : tx B ApplyReport :=
  tx_fail_if negb (is_ok (DesiredState_Validate d)) with EInvalidDesired ;;
  tx_fail_if negb (bool_decide (length outcomes = length (ds_Forwards d))) with EOutcome ;;
  tx_fail_if negb (check_outcomes (ds_Forwards d) [] outcomes) with EOutcome ;;
  let! _ := validateAppliedBucketTx in
  let! mergedDesired := mergeReceivedDesiredTx d in
  let! _ := put DesiredB (ds_NodeID mergedDesired) (marshal mergedDesired) in
  let! c := commit_all now (ds_Forwards d) (ds_Forwards mergedDesired) outcomes (mkCounters 0 0 0 []) in
  tx_ret (report_of c).

(** ** Reads *)

Definition GetAppliedRecord s (forwardID : string) : result LsError (option appliedRecord) :=
  fail_if String.eqb forwardID "" with EIdentityRequired ;;
  let* r := loadAppliedRecordTx forwardID s in Ok r.1.

Definition LoadReceivedDesired s : result LsError (option DesiredState) :=
  let* r := loadReceivedDesiredTx s in Ok r.1.

(** ** [journal_evacuation.go] *)

Definition EvacuateJournalRecords (ids : list string) : tx B unit :=
  tx_iter (λ id, if String.eqb id "" then tx_ret tt else del MappingB id) ids.

Definition with_journal_ref (a : AppliedForwardState) (ref : string) : AppliedForwardState :=
  mkAppliedForwardState (af_ForwardID a) (af_SpecRevision a) (af_DesiredRevision a) (af_ActualBindHost a)
    (af_ActualBindPort a) (af_AssignedGatewayPort a) (af_PublicPort a) (af_Strategy a) (af_LayerVersion a)
    (af_ActivationRecovery a) ref (af_HookDefinitionVersion a) (af_HookSecretVersion a) (af_AppliedAtUnix a).

Definition RefreshAppliedJournalRef (forwardID journalRef : string) : tx B bool :=
  tx_fail_if String.eqb forwardID "" with EIdentityRequired ;;
  let! raw := get AppliedB forwardID in
  match raw with
  | None => tx_ret false
  | Some v =>
      match decodeAppliedRecord v with
      | None => tx_fail EDecode
      | Some r =>
          match ar_ServingSpec r with
          | None => tx_ret false
          | Some spec =>
              if String.eqb (af_ForwardID (ar_State r)) "" then tx_ret false
              else if String.eqb (af_MappingJournalRef (ar_State r)) journalRef then tx_ret false
              else
                let! _ := put AppliedB forwardID (marshal (mkApplied (with_journal_ref (ar_State r) journalRef) (Some spec))) in
                tx_ret true
          end
      end
  end.

(** ** [decommission.go]: clearing the Forward state *)

Definition clear_bucket (b : bucket) : tx B unit :=
  let! rows := entries b in tx_iter (λ '(k, _), del b k) rows.

Definition ClearForwardStateForDecommission : tx B unit :=
  tx_iter clear_bucket [AppliedB; ActivationB; Tombstones; Intents; DesiredB; HookQueueB; KeyringB; MappingB].
End Applied.
