(* ===== verification/AppliedProofs.v ===== *)
(** * Lemmas on the applied state

    The merge of desired snapshots as a pointwise join of maps from Forward ids to
    specifications, under the deletion fences of the store. *)

From Stdlib Require Import ZArith Lia Strings.Byte.
From stdpp Require Import base tactics list sets strings option gmap countable relations.
From S2P Require Import Prelude GoStd Domain Bolt Journal JournalProofs JournalProps Applied.

Open Scope Z_scope.

(** ** Snapshots as maps *)

Abbreviation ids l := (fs_ForwardID <$> l).

#[global] Arguments spec_of : simpl never.

Lemma spec_of_Some (l : list ForwardSpec) (id : string) (f : ForwardSpec) :
  NoDup (ids l) → spec_of l id = Some f ↔ f ∈ l ∧ fs_ForwardID f = id.
Proof.
  intros Hd. unfold spec_of. split.
  - intros (Hin & Hid)%List.find_some. bool_prop. split; [|done]. apply in_rev in Hin. by apply list_elem_of_In.
  - intros [Hin Hid]. destruct (List.find _ (rev l)) as [g|] eqn:E.
    + apply List.find_some in E as [Hg Hgid]. bool_prop. apply in_rev, list_elem_of_In in Hg. f_equal.
      apply list_elem_of_lookup in Hin as [i Hi]. apply list_elem_of_lookup in Hg as [j Hj].
      assert (i = j) as ->; [|congruence]. apply (NoDup_lookup (ids l) i j id Hd);
        rewrite list_lookup_fmap; [rewrite Hi|rewrite Hj]; cbn; congruence.
    + exfalso. eapply List.find_none in E; [|by apply in_rev; rewrite rev_involutive; apply list_elem_of_In].
      cbn in E. rewrite Hid in E. bool_prop. done.
Qed.

Lemma spec_of_None (l : list ForwardSpec) (id : string) : spec_of l id = None ↔ id ∉ ids l.
Proof.
  unfold spec_of. split.
  - intros E (f & -> & Hf)%list_elem_of_fmap. eapply List.find_none in E; [|by apply in_rev; rewrite rev_involutive; apply list_elem_of_In].
    cbn in E. bool_prop. done.
  - intros Hn. destruct (List.find _ _) as [f|] eqn:E; [|done]. exfalso. apply Hn.
    apply List.find_some in E as [Hin Hid]. bool_prop. apply in_rev, list_elem_of_In in Hin. subst.
    by apply list_elem_of_fmap_2.
Qed.

(** The index of a merge points at the one slot of each Forward. *)
Record merging_wf (m : merging) : Prop := {
  mw_nodup : NoDup (ids (mg_forwards m));
  mw_index id at' : mg_index m !! id = Some at' ↔ ids (mg_forwards m) !! at' = Some id
}.

Definition mlook (m : merging) (id : string) : option ForwardSpec := spec_of (mg_forwards m) id.

Lemma merge_slot_Some (m : merging) (id : string) (at' : nat) (f : ForwardSpec) :
  merging_wf m → merge_slot m id = Some (at', f) → mg_forwards m !! at' = Some f ∧ fs_ForwardID f = id ∧ mlook m id = Some f.
Proof.
  intros [Hd Hi] H. unfold merge_slot in H. destruct (mg_index m !! id) as [a|] eqn:Ea; [|done]. cbn in H.
  destruct (mg_forwards m !! a) as [g|] eqn:Eg; [|done]. cbn in H. simplify_eq. apply Hi in Ea.
  rewrite list_lookup_fmap, Eg in Ea. cbn in Ea. simplify_eq. split_and!; try done.
  apply spec_of_Some; [done|]. split; [by eapply list_elem_of_lookup_2|done].
Qed.

Lemma merge_slot_None (m : merging) (id : string) :
  merging_wf m → merge_slot m id = None → id ∉ ids (mg_forwards m) ∧ mlook m id = None.
Proof.
  intros [Hd Hi] H. assert (Hn : id ∉ ids (mg_forwards m)).
  { intros [a Ha]%list_elem_of_lookup. pose proof (proj2 (Hi id a) Ha) as Hx. unfold merge_slot in H. rewrite Hx in H. cbn in H.
    rewrite list_lookup_fmap in Ha. destruct (mg_forwards m !! a); done. }
  split; [done|]. by apply spec_of_None.
Qed.

Lemma merge_start_wf (d : DesiredState) : NoDup (ids (ds_Forwards d)) → merging_wf (merge_start d).
Proof.
  intros Hd. split; [done|]. unfold merge_start, index_of_forwards. cbn. set (l := ds_Forwards d) in *.
  enough (∀ k (m : gmap string nat), (∀ id at', m !! id = Some at' → id ∉ ids l) → NoDup (ids l) →
    ∀ id at', (foldl (λ '(i, m) f, (S i, <[fs_ForwardID f := i]> m)) (k, m) l).2 !! id = Some at' ↔
      m !! id = Some at' ∨ (k ≤ at')%nat ∧ ids l !! (at' - k)%nat = Some id) as H.
  { intros id at'. rewrite H; [|set_solver|done]. rewrite lookup_empty, Nat.sub_0_r. intuition (done || lia). }
  clear. induction l as [|f l IH]; intros k m Hm Hd id at'; cbn.
  { split; [by left|intros [?|[_ ?]]; [done|by rewrite lookup_nil in *]]. }
  apply NoDup_cons in Hd as [Hf Hd]. rewrite IH; [| |done].
  2:{ intros id' a. destruct (decide (id' = fs_ForwardID f)) as [->|Hn]; [done|]. rewrite lookup_insert_ne by done.
      intros Hx. apply Hm in Hx. set_solver. }
  destruct (decide (id = fs_ForwardID f)) as [->|Hn].
  - rewrite lookup_insert_eq. split.
    + intros [[= ->]|[_ Hx]]; [right; rewrite Nat.sub_diag; done|]. by apply list_elem_of_lookup_2 in Hx.
    + intros [Hx|[Hk Hx]]; [apply Hm in Hx; set_solver|]. destruct (at' - k)%nat as [|n] eqn:E; [left; f_equal; lia|].
      cbn in Hx. by apply list_elem_of_lookup_2 in Hx.
  - rewrite lookup_insert_ne by done. apply or_iff_compat_l. split; intros [Hk Hx].
    + split; [lia|]. by replace (at' - k)%nat with (S (at' - S k)) by lia.
    + destruct (at' - k)%nat as [|n] eqn:E; cbn in Hx; [congruence|]. split; [lia|]. by replace (at' - S k)%nat with n by lia.
Qed.

Lemma merge_append_wf (m : merging) (f : ForwardSpec) :
  merging_wf m → fs_ForwardID f ∉ ids (mg_forwards m) →
  merging_wf (merge_append m f) ∧ ∀ id, mlook (merge_append m f) id = if decide (id = fs_ForwardID f) then Some f else mlook m id.
Proof.
  intros [Hd Hi] Hn. assert (Hd' : NoDup (ids (mg_forwards m ++ [f])%list)).
  { rewrite fmap_app. apply NoDup_app. split_and!; [done|set_solver|apply NoDup_singleton]. }
  split; [split; [done|]|].
  - intros id at'. cbn. rewrite fmap_app. destruct (decide (id = fs_ForwardID f)) as [->|Hne].
    + rewrite lookup_insert_eq, lookup_app_Some, length_fmap. split.
      * intros [= <-]. right. by rewrite Nat.sub_diag.
      * intros [Hx|[Hle Hx]]; [by apply list_elem_of_lookup_2 in Hx|].
        destruct (at' - _)%nat eqn:E; [f_equal; lia|done].
    + rewrite lookup_insert_ne, Hi, lookup_app_Some by done. split; [by left|]. intros [?|[Hle Hx]]; [done|].
      destruct (at' - _)%nat; cbn in Hx; [congruence|done].
  - intros id. unfold mlook at 1. cbn. destruct (decide (id = fs_ForwardID f)) as [->|Hne].
    + apply spec_of_Some; [done|]. split; [|done]. apply elem_of_app. right. by apply list_elem_of_singleton.
    + apply option_eq. intros g. unfold mlook. rewrite !spec_of_Some, elem_of_app, list_elem_of_singleton by done. naive_solver.
Qed.

Lemma merge_set_wf (m : merging) (at' : nat) (f g : ForwardSpec) :
  merging_wf m → mg_forwards m !! at' = Some g → fs_ForwardID f = fs_ForwardID g →
  merging_wf (merge_set m at' f) ∧ ∀ id, mlook (merge_set m at' f) id = if decide (id = fs_ForwardID f) then Some f else mlook m id.
Proof.
  intros [Hd Hi] Hg Hid. assert (Heq : ids (<[at' := f]> (mg_forwards m)) = ids (mg_forwards m)).
  { rewrite list_fmap_insert, Hid. apply list_insert_id. by rewrite list_lookup_fmap, Hg. }
  split; [split; cbn; by rewrite Heq|]. intros id. unfold mlook at 1. cbn.
  assert (Hlt : (at' < length (mg_forwards m))%nat) by by eapply lookup_lt_Some.
  assert (Hd' : NoDup (ids (<[at' := f]> (mg_forwards m)))) by by rewrite Heq.
  destruct (decide (id = fs_ForwardID f)) as [->|Hne].
  - apply spec_of_Some; [done|]. split; [|done]. eapply list_elem_of_lookup_2. by apply list_lookup_insert_eq.
  - apply option_eq. intros h. unfold mlook. rewrite !spec_of_Some by done. split; intros [Hh Hhid]; (split; [|done]);
      apply list_elem_of_lookup in Hh as [i Hh]; destruct (decide (i = at')) as [->|Hn].
    + rewrite list_lookup_insert_eq in Hh by done. congruence.
    + rewrite list_lookup_insert_ne in Hh by done. by eapply list_elem_of_lookup_2.
    + congruence.
    + eapply list_elem_of_lookup_2. by rewrite list_lookup_insert_ne.
Qed.

Lemma spec_of_cons (f : ForwardSpec) (l : list ForwardSpec) (id : string) :
  NoDup (ids (f :: l)) → spec_of (f :: l) id = if decide (id = fs_ForwardID f) then Some f else spec_of l id.
Proof.
  intros Hd. assert (Hd' : NoDup (ids l)) by by apply NoDup_cons in Hd as [_ ?].
  destruct (decide (id = fs_ForwardID f)) as [->|Hn]; [by apply spec_of_Some; [|split; [left|]]|].
  apply option_eq. intros g. rewrite !spec_of_Some, elem_of_cons by done. naive_solver.
Qed.

(** ** The join of two specifications of one Forward *)

Definition joined (cur inc : option ForwardSpec) : option ForwardSpec :=
  match cur, inc with
  | None, x => x
  | x, None => x
  | Some a, Some b => if fs_DesiredRevision a <? fs_DesiredRevision b then Some b else Some a
  end.

Definition conflicting (cur inc : option ForwardSpec) : Prop :=
  match cur, inc with Some a, Some b => fs_DesiredRevision a = fs_DesiredRevision b ∧ a ≠ b | _, _ => False end.

Lemma merge_revision_cases (m : merging) (f : ForwardSpec) :
  merging_wf m →
  match merge_revision m f with
  | Ok m' => merging_wf m' ∧ ¬ conflicting (mlook m (fs_ForwardID f)) (Some f)
      ∧ ∀ id, mlook m' id = if decide (id = fs_ForwardID f) then joined (mlook m id) (Some f) else mlook m id
  | Err e => e = ErrDesiredRevisionConflict ∧ conflicting (mlook m (fs_ForwardID f)) (Some f)
  end.
Proof.
  intros Hw. unfold merge_revision. destruct (merge_slot m (fs_ForwardID f)) as [[a g]|] eqn:E.
  - destruct (merge_slot_Some _ _ _ _ Hw E) as (Hg & Hid & Hl). rewrite Hl.
    assert (Hsame : ¬ fs_DesiredRevision g < fs_DesiredRevision f → ∀ id, mlook m id = if decide (id = fs_ForwardID f) then joined (mlook m id) (Some f) else mlook m id).
    { intros Hlt id. destruct (decide _) as [->|]; [|done]. rewrite Hl. cbn. by rewrite (proj2 (Z.ltb_ge _ _)) by lia. }
    destruct (_ <? _) eqn:E1; [|destruct (fs_DesiredRevision f <? _) eqn:E2; [|case_bool_decide as E3]]; bool_prop.
    + edestruct (merge_set_wf m a f g) as [Hw' Hl']; try done. split_and!; [done|cbn; intuition lia|].
      intros id. rewrite Hl'. destruct (decide _) as [->|]; [|done]. rewrite Hl. cbn. by rewrite (proj2 (Z.ltb_lt _ _)).
    + split_and!; [done|cbn; intuition lia|apply Hsame; lia].
    + subst g. split_and!; [done|cbn; intuition lia|apply Hsame; lia].
    + split; [done|]. cbn. split; [lia|by intros ->].
  - destruct (merge_slot_None _ _ Hw E) as [Hn Hl]. destruct (merge_append_wf m f Hw Hn) as [Hw' Hl'].
    split_and!; [done|rewrite Hl; by intros []|]. intros id. rewrite Hl'. destruct (decide _) as [->|]; [|done]. by rewrite Hl.
Qed.

(** ** Fences *)

(** The specification that obeys the fence [(op, rev)]: ABSENT, by its deletion operation. *)
Definition obeys (op : string) (rev : Z) (f : ForwardSpec) : Prop :=
  fs_Presence f = PresenceAbsent ∧ fs_DeletionOperationID f = op ∧ (rev ≠ 0 → fs_DesiredRevision f = rev).

Definition fenced_join (fence : option (string * Z)) (cur : option ForwardSpec) (inc : ForwardSpec) : option ForwardSpec :=
  match fence with
  | None => joined cur (Some inc)
  | Some (op, rev) =>
      if bool_decide (fs_Presence inc = PresenceAbsent) then Some inc
      else match cur with
           | Some c => if bool_decide (fs_Presence c = PresenceAbsent) then Some c else Some (fencedAbsentSpec inc op rev)
           | None => Some (fencedAbsentSpec inc op rev)
           end
  end.

Lemma fencedAbsentSpec_obeys (f : ForwardSpec) (op : string) (rev : Z) :
  obeys op rev (fencedAbsentSpec f op rev) ∧ fs_ForwardID (fencedAbsentSpec f op rev) = fs_ForwardID f.
Proof. split; [|done]. split_and!; [done|done|]. intros Hr. cbn. by rewrite (proj2 (Z.eqb_neq _ _)). Qed.

Lemma fence_match_obeys (f : ForwardSpec) (op : string) (rev : Z) :
  fs_Presence f = PresenceAbsent → fence_mismatch f op rev = false → obeys op rev f.
Proof.
  intros Hp H. unfold fence_mismatch in H. apply orb_false_iff in H as [H1 H2]. bool_prop. split_and!; [done|done|].
  intros Hr. apply andb_false_iff in H2 as [H2|H2]; bool_prop; lia.
Qed.

Lemma merge_fenced_Ok (m : merging) (f : ForwardSpec) (fence : option (string * Z)) (m' : merging) :
  merging_wf m → merge_fenced m f fence = Ok m' →
  merging_wf m'
  ∧ (∀ id, mlook m' id = if decide (id = fs_ForwardID f) then fenced_join fence (mlook m id) f else mlook m id)
  ∧ (∀ op rev, fence = Some (op, rev) → ∃ g, mlook m' (fs_ForwardID f) = Some g ∧ obeys op rev g)
  ∧ (fence = None → ¬ conflicting (mlook m (fs_ForwardID f)) (Some f)).
Proof.
  intros Hw H. destruct fence as [[op rev]|]; cbn in H.
  2:{ pose proof (merge_revision_cases m f Hw) as Hc. rewrite H in Hc. destruct Hc as (? & ? & ?). done. }
  match goal with |- ?a ∧ ?b ∧ ?c ∧ _ => enough (a ∧ b ∧ c) as (? & ? & ?) by by split_and! end.
  assert (Hwrite : ∀ g, fs_ForwardID g = fs_ForwardID f → obeys op rev g →
    m' = match merge_slot m (fs_ForwardID f) with Some (at', _) => merge_set m at' g | None => merge_append m g end →
    merging_wf m' ∧ (∀ id, mlook m' id = if decide (id = fs_ForwardID f) then Some g else mlook m id) ∧ ∃ g, mlook m' (fs_ForwardID f) = Some g ∧ obeys op rev g).
  { intros g Hid Ho Hm'. assert (merging_wf m' ∧ ∀ id, mlook m' id = if decide (id = fs_ForwardID f) then Some g else mlook m id) as [Hw' Hl'].
    { destruct (merge_slot m (fs_ForwardID f)) as [[a c]|] eqn:E; subst m'.
      - destruct (merge_slot_Some _ _ _ _ Hw E) as (Hg & Hcid & _). edestruct (merge_set_wf m a g c) as [? Hl']; [done|done|congruence|].
        split; [done|]. intros id. by rewrite Hl', Hid.
      - destruct (merge_slot_None _ _ Hw E) as [Hn _]. destruct (merge_append_wf m g Hw) as [? Hl']; [congruence|].
        split; [done|]. intros id. by rewrite Hl', Hid. }
    split_and!; [done|done|]. exists g. rewrite Hl'. by rewrite decide_True. }
  destruct (String.eqb_spec (fs_Presence f) PresenceAbsent) as [Hp|Hp].
  - destruct (fence_mismatch _ _ _) eqn:Em; [done|]. injection H as H.
    destruct (Hwrite f) as (? & Hl & ?); [done|by apply fence_match_obeys|done|]. split_and!; [done| |by intros ? ? [= <- <-]].
    intros id. rewrite Hl. cbn. by rewrite bool_decide_eq_true_2.
  - destruct (merge_slot m (fs_ForwardID f)) as [[a c]|] eqn:E.
    + destruct (merge_slot_Some _ _ _ _ Hw E) as (Hg & Hcid & Hlc). destruct (String.eqb_spec (fs_Presence c) PresenceAbsent) as [Hc|Hc].
      * destruct (fence_mismatch _ _ _) eqn:Em; [done|]. injection H as <-. split_and!; [done| |].
        -- intros id. destruct (decide _) as [->|]; [|done]. rewrite Hlc. cbn.
           by rewrite bool_decide_eq_false_2, bool_decide_eq_true_2.
        -- intros ? ? [= <- <-]. exists c. split; [done|]. by apply fence_match_obeys.
      * injection H as H. destruct (Hwrite (fencedAbsentSpec f op rev)) as (? & Hl & ?); [done|apply fencedAbsentSpec_obeys|done|].
        split_and!; [done| |by intros ? ? [= <- <-]]. intros id. rewrite Hl. destruct (decide _) as [->|]; [|done]. rewrite Hlc. cbn.
        by rewrite !bool_decide_eq_false_2.
    + destruct (merge_slot_None _ _ Hw E) as [Hn Hln]. injection H as H.
      destruct (Hwrite (fencedAbsentSpec f op rev)) as (? & Hl & ?); [done|apply fencedAbsentSpec_obeys|done|].
      split_and!; [done| |by intros ? ? [= <- <-]]. intros id. rewrite Hl. destruct (decide _) as [->|]; [|done]. rewrite Hln. cbn.
      by rewrite bool_decide_eq_false_2.
Qed.

Abbreviation oids l := (fo_ForwardID <$> l).

Lemma check_outcomes_Ok (specs : list ForwardSpec) (l : list ForwardApply) (seen : list string) :
  check_outcomes specs seen l = true →
  NoDup (oids l) ∧ (∀ o, o ∈ l → fo_ForwardID o ∉ seen)
  ∧ ∀ o, o ∈ l → ∃ spec, spec_of specs (fo_ForwardID o) = Some spec ∧ check_outcome o spec = true.
Proof.
  revert seen. induction l as [|o l IH]; intros seen; cbn.
  { intros _. split_and!; [apply NoDup_nil_2| |]; intros ? ?%elem_of_nil; done. }
  destruct (spec_of specs (fo_ForwardID o)) as [spec|] eqn:E; [|done]. intros H. bool_prop.
  match goal with Hc : check_outcomes _ _ _ = true |- _ => destruct (IH _ Hc) as (Hd & Hs & Hc') end. split_and!.
  - apply NoDup_cons. split; [|done]. intros (o' & Heq & Ho')%list_elem_of_fmap. apply Hs in Ho'. rewrite <- Heq in Ho'. set_solver.
  - intros o' [->|Ho']%elem_of_cons; [done|]. apply Hs in Ho'. set_solver.
  - intros o' [->|Ho']%elem_of_cons; [by exists spec|]. by apply Hc'.
Qed.

Section Store.
Context {B : Type} `{BoltB : !Bolt B} `{LawsB : !BoltLaws B} `{EnvB : !JournalEnv} `{AEnv : !AppliedEnv}.
Implicit Types s : Store B.

Definition intent_at s (f : string) : option ForwardDeleteIntent := bget (s_intents s) f ≫= unmarshal.
Definition tombstone_at s (f : string) : option ForwardTombstone := bget (s_tombstones s) f ≫= unmarshal.
Definition applied_at s (f : string) : option appliedRecord := bget (s_applied s) f ≫= decodeAppliedRecord.

(** The fence of a Forward: its pending deletion, or its tombstone. *)
Definition fence_at s (f : string) : option (string * Z) :=
  match deleteFenceIdentity (intent_at s f) (tombstone_at s f) with Ok x => x | Err _ => None end.

(** The received snapshot. *)
Definition desired_of s : option DesiredState :=
  match load_desired_rows None (bentries (s_desired s)) with Ok r => r | Err _ => None end.
Definition desired_at s (f : string) : option ForwardSpec := d ← desired_of s; spec_of (ds_Forwards d) f.

Lemma tx_of_Ok {A} (r : result LsError A) s (a : A) s' : tx_of r s = Ok (a, s') → r = Ok a ∧ s' = s.
Proof. destruct r; cbn; intros H; [|done]. apply tx_ret_Ok in H as [-> ->]. done. Qed.

Lemma deleteFence_Ok (i : option ForwardDeleteIntent) (t : option ForwardTombstone) (x : option (string * Z)) :
  deleteFenceIdentity i t = Ok x →
  (∀ i', i = Some i' → fi_DeletionOperationID i' ≠ ""%string → ∃ rev, x = Some (fi_DeletionOperationID i', rev))
  ∧ (∀ t', t = Some t' → ft_DeletionOperationID t' ≠ ""%string → ∃ rev, x = Some (ft_DeletionOperationID t', rev)).
Proof.
  unfold deleteFenceIdentity. intros H. destruct t as [t|].
  - destruct (negb _ && negb _) eqn:E1; [done|].
    assert (Hx : ft_DeletionOperationID t ≠ ""%string → ∃ rev, x = Some (ft_DeletionOperationID t, rev)).
    { intros Ht. rewrite (proj2 (String.eqb_neq _ _) Ht) in H. destruct (_ =? 0); [simplify_eq; by eexists|].
      match type of H with (if ?b then _ else _) = _ => destruct b end; [done|]. simplify_eq. by eexists. }
    split; [|by intros ? [= <-]]. intros i' -> Hi. rewrite (proj2 (String.eqb_neq _ _) Hi) in E1. cbn in E1.
    bool_prop. rewrite <- E1 in *. by apply Hx.
  - split; [|done]. intros i' -> Hi. rewrite (proj2 (String.eqb_neq _ _) Hi) in H. simplify_eq. by eexists.
Qed.

Lemma loadIntent_valid (f : string) s (i : ForwardDeleteIntent) s' :
  loadForwardDeleteIntentTx f s = Ok (Some i, s') → fi_DeletionOperationID i ≠ ""%string.
Proof.
  unfold loadForwardDeleteIntentTx. intros H. tx_walk H; simplify_eq. unfold validateForwardDeleteIntent in *. bool_prop. done.
Qed.

Lemma loadTombstone_valid (f : string) s (t : ForwardTombstone) s' :
  loadForwardTombstoneTx f s = Ok (Some t, s') → ft_DeletionOperationID t ≠ ""%string.
Proof. unfold loadForwardTombstoneTx. intros H. tx_walk H; simplify_eq. bool_prop. done. Qed.

Lemma merge_fenced_all_Ok (l : list ForwardSpec) (m : merging) s (m' : merging) s' :
  merging_wf m → NoDup (ids l) → merge_fenced_all m l s = Ok (m', s') →
  s' = s ∧ merging_wf m'
  ∧ (∀ id, mlook m' id = match spec_of l id with Some f => fenced_join (fence_at s id) (mlook m id) f | None => mlook m id end)
  ∧ (∀ id op rev, id ∈ ids l → fence_at s id = Some (op, rev) → ∃ g, mlook m' id = Some g ∧ obeys op rev g)
  ∧ (∀ id D, id ∈ ids l → fenced_by s id D → ∃ rev, fence_at s id = Some (D, rev))
  ∧ (∀ id f, spec_of l id = Some f → fence_at s id = None → ¬ conflicting (mlook m id) (Some f)).
Proof.
  revert m. induction l as [|f l IH]; intros m Hw Hd H; cbn [merge_fenced_all] in H.
  { apply tx_ret_Ok in H as [-> ->]. split_and!; [done|done|done| | |done]; intros; exfalso; by eapply not_elem_of_nil. }
  pose proof Hd as Hd0. apply NoDup_cons in Hd as [Hf Hd].
  apply tx_bind_Ok in H as (i & s1 & Hi & H). pose proof (λ x E, loadIntent_valid _ _ x s1 (eq_trans Hi (f_equal (λ i, Ok (i, s1)) E))) as Hiv.
  apply loadIntent_Ok in Hi as (-> & Hi).
  apply tx_bind_Ok in H as (t & s1 & Ht & H). pose proof (λ x E, loadTombstone_valid _ _ x s1 (eq_trans Ht (f_equal (λ i, Ok (i, s1)) E))) as Htv.
  apply loadTombstone_Ok in Ht as (-> & Ht). apply tx_bind_Ok in H as (fence & s1 & H1 & H). apply tx_of_Ok in H1 as [Hfe ->].
  apply tx_bind_Ok in H as (m1 & s1 & H1 & H). apply tx_of_Ok in H1 as [Hm1 ->].
  destruct Hi as [Hi _], Ht as [Ht _]. rewrite Hi, Ht in Hfe.
  assert (Hfa : fence_at s (fs_ForwardID f) = fence) by (unfold fence_at, intent_at, tombstone_at; by rewrite Hfe).
  destruct (merge_fenced_Ok _ _ _ _ Hw Hm1) as (Hw1 & Hl1 & Ho1 & Hc1). destruct (IH m1 Hw1 Hd H) as (-> & Hw' & Hl' & Ho' & Hb' & Hc').
  assert (Hnl : spec_of l (fs_ForwardID f) = None) by by apply spec_of_None.
  split_and!; [done|done| | | |].
  - intros id. rewrite Hl', Hl1, spec_of_cons by done. destruct (decide _) as [->|]; [|done]. by rewrite Hnl, Hfa.
  - intros id op rev Hin Hfid. destruct (decide (id = fs_ForwardID f)) as [->|Hne].
    + rewrite Hl', Hnl. apply Ho1. by rewrite <- Hfa.
    + apply Ho'; [|done]. cbn in Hin. apply elem_of_cons in Hin as [?|?]; done.
  - intros id D Hin Hb. destruct (decide (id = fs_ForwardID f)) as [->|Hne].
    + rewrite Hfa. rewrite <- Hi, <- Ht in Hfe. destruct (deleteFence_Ok _ _ _ Hfe) as [H1 H2].
      unfold fenced_by in Hb. rewrite <- Hi, <- Ht in Hb. destruct Hb as [(i' & E & <-)|(t' & E & <-)]; [apply H1|apply H2]; auto.
    + apply Hb'; [|done]. cbn in Hin. apply elem_of_cons in Hin as [?|?]; done.
  - intros id g Hg Hfid. rewrite spec_of_cons in Hg by done. destruct (decide _) as [->|Hne].
    + simplify_eq. by apply Hc1.
    + pose proof (Hc' _ _ Hg Hfid) as Hx. rewrite Hl1 in Hx. by rewrite decide_False in Hx.
Qed.

Lemma load_desired_None (l : list (string * bytes)) (r : option DesiredState) :
  load_desired_rows None l = Ok r →
  (l = [] ∧ r = None) ∨ ∃ key raw d, l = [(key, raw)] ∧ r = Some d ∧ unmarshal raw = Some d
    ∧ DesiredState_Validate d = Ok tt ∧ key = ds_NodeID d.
Proof.
  destruct l as [|[key raw] l]; cbn; intros H; [left; by simplify_eq|right].
  destruct (unmarshal raw) as [d|] eqn:Eu; [|done]. destruct (DesiredState_Validate d) as [[]|] eqn:Ev; [|done]. cbn in H.
  destruct (String.eqb_spec key (ds_NodeID d)) as [->|]; [|done]. cbn in H.
  destruct l as [|[? ?] ?]; [|done]. cbn in H. simplify_eq. by exists (ds_NodeID d), raw, d.
Qed.

Lemma loadReceived_Ok s r s' :
  loadReceivedDesiredTx s = Ok (r, s') → s' = s ∧ r = desired_of s ∧ ∀ d, r = Some d → DesiredState_Validate d = Ok tt.
Proof.
  unfold loadReceivedDesiredTx. intros H. tx_walk H. apply tx_of_Ok in H as [H ->]. split_and!; [done|unfold desired_of; by rewrite H|].
  intros d ->. apply load_desired_None in H as [[_ ?]|(? & ? & ? & _ & ? & _ & ? & _)]; [done|]. by simplify_eq.
Qed.

(** [mergeReceivedDesiredTx] only reads; what it returns is the fenced join, pointwise. *)
Lemma mergeReceived_Ok (inc : DesiredState) s (d : DesiredState) s' :
  NoDup (ids (ds_Forwards inc)) → mergeReceivedDesiredTx inc s = Ok (d, s') →
  s' = s ∧ ds_NodeID d = ds_NodeID inc ∧ NoDup (ids (ds_Forwards d))
  ∧ (∀ d0, desired_of s = Some d0 → ds_NodeID d0 = ds_NodeID inc)
  ∧ (∀ id, spec_of (ds_Forwards d) id =
       match spec_of (ds_Forwards inc) id with
       | Some f => fenced_join (fence_at s id) (desired_at s id) f
       | None => desired_at s id
       end)
  ∧ (∀ id op rev, id ∈ ids (ds_Forwards inc) → fence_at s id = Some (op, rev) →
       ∃ g, spec_of (ds_Forwards d) id = Some g ∧ obeys op rev g)
  ∧ (∀ id D, id ∈ ids (ds_Forwards inc) → fenced_by s id D → ∃ rev, fence_at s id = Some (D, rev))
  ∧ (∀ id f, spec_of (ds_Forwards inc) id = Some f → fence_at s id = None → ¬ conflicting (desired_at s id) (Some f)).
Proof.
  intros Hd H. unfold mergeReceivedDesiredTx in H. apply tx_bind_Ok in H as (c & s1 & Hl & H).
  apply loadReceived_Ok in Hl as (-> & Hc & Hv).
  set (cur := match c with Some c => c | None => mkDesiredState (ds_NodeID inc) [] end).
  assert (Hat : ∀ id, spec_of (ds_Forwards cur) id = desired_at s id) by (intros id; unfold desired_at; rewrite <- Hc; by destruct c).
  assert (H0 : mergeReceivedDesiredWithDeleteFences cur inc s = Ok (d, s')) by by destruct c. clear H.
  unfold mergeReceivedDesiredWithDeleteFences in H0. tx_walk H0. bool_prop.
  apply tx_bind_Ok in H0 as (m & s1 & Hm & H). apply tx_ret_Ok in H as [-> ->].
  assert (Hdc : NoDup (ids (ds_Forwards cur))).
  { unfold cur. destruct c as [c|]; [|apply NoDup_nil_2]. by apply DesiredState_Validate_iff, Hv. }
  destruct (merge_fenced_all_Ok _ _ _ _ _ (merge_start_wf _ Hdc) Hd Hm) as (-> & Hw & Hlk & Ho & Hb & Hcf). cbn.
  split_and!; [done|done|by destruct Hw| | |done|done|].
  - intros d0 Hd0. rewrite <- Hc in Hd0. unfold cur in *. by rewrite Hd0 in *.
  - intros id. change (spec_of (mg_forwards m) id) with (mlook m id). rewrite Hlk. unfold mlook, merge_start at 1. cbn. by rewrite Hat.
  - intros id f Hs Hn. rewrite <- Hat. by apply Hcf.
Qed.

(** ** Committing *)

(** What a commit can change of one Forward: applied record, tombstone, activation. *)
Definition rows s (f : string) : option bytes * option bytes * option bytes :=
  (bget (s_applied s) f, bget (s_tombstones s) f, bget (s_activation s) f).

Lemma loadApplied_Ok (key : string) s r s' :
  loadAppliedRecordTx key s = Ok (r, s') →
  s' = s ∧ r = applied_at s key ∧ (r = None → bget (s_applied s) key = None)
  ∧ ∀ x, r = Some x → validateAppliedRecord key x = true.
Proof.
  unfold loadAppliedRecordTx, applied_at. intros H. tx_walk H; subst; cbn.
  - match goal with E : decodeAppliedRecord _ = Some _ |- _ => rewrite E end. bool_prop. split_and!; try done. intros x [= <-]. done.
  - done.
Qed.

(** The effect of one outcome on the rows of its Forward. *)
Definition outcome_effect (now : Z) (spec : ForwardSpec) (o : ForwardApply)
    (before after : option bytes * option bytes * option bytes) : Prop :=
  match fo_Outcome o with
  | ApplyApplied => ∃ a, fo_Applied o = Some a ∧ before.1.2 = None
      ∧ (∀ e, before.1.1 ≫= decodeAppliedRecord = Some e → af_SpecRevision (ar_State e) ≤ af_SpecRevision a)
      ∧ after = (Some (marshal (mkApplied a (Some spec))), None, before.2)
  | ApplyDeleted =>
      after = (None, Some (marshal (mkTombstone (fo_ForwardID o) (fs_DeletionOperationID spec) (fs_DesiredRevision spec) now)), None)
  | _ => after = before
  end.

Lemma commit_applied_Ok (f : string) (spec : ForwardSpec) (a : AppliedForwardState) s u s' :
  commit_applied f spec a s = Ok (u, s') →
  bget (s_tombstones s) f = None
  ∧ (∀ e, applied_at s f = Some e → af_SpecRevision (ar_State e) ≤ af_SpecRevision a)
  ∧ ∃ b', bput (s_applied s) f (marshal (mkApplied a (Some spec))) = Some b' ∧ s' = set_bucket s AppliedB b'.
Proof.
  unfold commit_applied. intros H. tx_walk H. apply tx_bind_Ok in H as (r & s1 & Hl & H).
  apply loadApplied_Ok in Hl as (-> & Hr & _). tx_walk H. apply put_Ok in H as (b' & Hb & ->).
  split_and!; [done| |by exists b']. intros e He. rewrite Hr, He in *. bool_prop. lia.
Qed.

Lemma commit_deleted_Ok (now : Z) (f : string) (spec : ForwardSpec) s u s' :
  commit_deleted now f spec s = Ok (u, s') →
  ∃ b', bput (s_tombstones s) f (marshal (mkTombstone f (fs_DeletionOperationID spec) (fs_DesiredRevision spec) now)) = Some b'
    ∧ s' = set_bucket (set_bucket (set_bucket s Tombstones b') AppliedB (bdel (s_applied s) f)) ActivationB (bdel (s_activation s) f).
Proof.
  unfold commit_deleted. intros H. tx_walk H; apply tx_bind_Ok in H as (u1 & s1 & Hp & H); apply put_Ok in Hp as (b' & Hb & ->);
    apply tx_bind_Ok in H as (u2 & s1 & Hd & H); apply del_Ok in Hd as ->; apply del_Ok in H as ->; by exists b'.
Qed.

Definition commit_buckets : list bucket := [AppliedB; Tombstones; ActivationB].

Lemma commit_one_Ok (now : Z) (specs merged : list ForwardSpec) (o : ForwardApply) (c c' : counters) s s' :
  commit_one now specs merged o c s = Ok (c', s') →
  ∃ spec, spec_of specs (fo_ForwardID o) = Some spec
    ∧ (fo_Outcome o = ApplyApplied → bget (s_intents s) (fo_ForwardID o) = None)
    ∧ (fo_Outcome o ≠ ApplySkipped → spec_of merged (fo_ForwardID o) = Some spec)
    ∧ outcome_effect now spec o (rows s (fo_ForwardID o)) (rows s' (fo_ForwardID o))
    ∧ (∀ f, f ≠ fo_ForwardID o → rows s' f = rows s f) ∧ frame commit_buckets s s'.
Proof.
  unfold commit_one. intros H. destruct (spec_of specs (fo_ForwardID o)) as [spec|]; [|discriminate]. exists spec.
  apply tx_bind_Ok in H as (u & s1 & Hf & H).
  assert (s1 = s ∧ (fo_Outcome o = ApplyApplied → bget (s_intents s) (fo_ForwardID o) = None)) as [-> Hint].
  { destruct (fo_Outcome o); try (apply tx_ret_Ok in Hf as [_ ->]; done).
    apply tx_bind_Ok in Hf as (fe & s2 & Hl & Hf). unfold loadForwardDeleteFenceTx in Hl. tx_walk Hl. subst fe.
    destruct i as [i|]; [discriminate|]. destruct t as [t|]; [discriminate|]. apply tx_ret_Ok in Hf as [_ ->].
    split; [done|]. intros _. by apply Hi. }
  do 2 (split; [done|]).
  match type of H with (if ?b then _ else _) _ = _ => destruct b eqn:Em end.
  { unfold outcome_effect. destruct (fo_Outcome o); try discriminate. apply tx_ret_Ok in H as [_ ->]. by split_and!. }
  bool_prop. split; [done|]. unfold outcome_effect. destruct (fo_Outcome o); try (apply tx_ret_Ok in H as [_ ->]; by split_and!).
  - destruct (fo_Applied o) as [a|]; [|discriminate]. apply tx_bind_Ok in H as (u1 & s1 & Hc & H). apply tx_ret_Ok in H as [_ ->].
    apply commit_applied_Ok in Hc as (Ht & Hrev & b' & Hb & ->). split_and!.
    + exists a. split_and!; [done|done|exact Hrev|]. unfold rows. cbn. by rewrite (bget_bput_eq _ _ _ _ Hb), Ht.
    + intros f Hf'. unfold rows. cbn. by rewrite (bget_bput_ne _ _ _ _ _ Hf' Hb).
    + intros b Hbn. apply at_set_ne. intros ->. apply Hbn. by left.
  - apply tx_bind_Ok in H as (u1 & s1 & Hc & H). apply tx_ret_Ok in H as [_ ->]. apply commit_deleted_Ok in Hc as (b' & Hb & ->). split_and!.
    + unfold rows. cbn. by rewrite !bget_bdel_eq, (bget_bput_eq _ _ _ _ Hb).
    + intros f Hf'. unfold rows. cbn. by rewrite !bget_bdel_ne, (bget_bput_ne _ _ _ _ _ Hf' Hb) by done.
    + intros b Hbn. unfold commit_buckets in Hbn. rewrite !at_set_ne by (intros ->; set_solver). done.
Qed.

(** What every successful commit of a list of outcomes has done. *)
Definition outcome_committed (now : Z) (specs merged : list ForwardSpec) s s' (o : ForwardApply) : Prop :=
  ∃ spec, spec_of specs (fo_ForwardID o) = Some spec
    ∧ (fo_Outcome o = ApplyApplied → bget (s_intents s) (fo_ForwardID o) = None)
    ∧ (fo_Outcome o ≠ ApplySkipped → spec_of merged (fo_ForwardID o) = Some spec)
    ∧ outcome_effect now spec o (rows s (fo_ForwardID o)) (rows s' (fo_ForwardID o)).

Lemma commit_all_Ok (now : Z) (specs merged : list ForwardSpec) (l : list ForwardApply) (c c' : counters) s s' :
  NoDup (oids l) → commit_all now specs merged l c s = Ok (c', s') →
  (∀ o, o ∈ l → outcome_committed now specs merged s s' o)
  ∧ (∀ f, f ∉ oids l → rows s' f = rows s f) ∧ frame commit_buckets s s'.
Proof.
  revert c s. induction l as [|o l IH]; intros c s Hd H; cbn [commit_all] in H.
  { apply tx_ret_Ok in H as [_ ->]. split_and!; [intros ? ?%elem_of_nil; done|done|done]. }
  apply NoDup_cons in Hd as [Ho Hd]. apply tx_bind_Ok in H as (c1 & s1 & H1 & H).
  apply commit_one_Ok in H1 as (spec & Hspec & Hint & Hst & He & Hother & Hfr).
  destruct (IH _ _ Hd H) as (Hall & Hrest & Hfr'). split_and!.
  - intros o' [->|Ho']%elem_of_cons.
    + exists spec. split_and!; try done. by rewrite Hrest.
    + destruct (Hall o' Ho') as (spec' & ? & Hi' & ? & He'). exists spec'. split_and!; try done.
      * intros Ha. rewrite <- Hi' by done. change (s_intents ?x) with (at_bucket x Intents). by rewrite Hfr by (unfold commit_buckets; set_solver).
      * rewrite <- Hother; [done|]. intros Heq. apply Ho. rewrite <- Heq. by apply list_elem_of_fmap_2.
  - intros f Hf. cbn in Hf. apply not_elem_of_cons in Hf as [? ?]. by rewrite Hrest, Hother.
  - by transitivity s1.
Qed.

(** The counters of a batch. *)
Definition has_outcome (x : ApplyOutcome) (o : ForwardApply) : bool :=
  match x, fo_Outcome o with
  | ApplyApplied, ApplyApplied | ApplyFailed, ApplyFailed | ApplyDeleted, ApplyDeleted | ApplySkipped, ApplySkipped => true
  | _, _ => false
  end.

Definition tally (l : list ForwardApply) : counters :=
  mkCounters (length (List.filter (has_outcome ApplyApplied) l)) (length (List.filter (has_outcome ApplyDeleted) l))
    (length (List.filter (has_outcome ApplyFailed) l)) (oids (List.filter (λ o, has_outcome ApplyFailed o && fo_Err o) l)).

Lemma commit_one_counters (now : Z) (specs merged : list ForwardSpec) (o : ForwardApply) (c c' : counters) s s' :
  commit_one now specs merged o c s = Ok (c', s') →
  c' = mkCounters (ct_applied c + ct_applied (tally [o])) (ct_deleted c + ct_deleted (tally [o]))
         (ct_failed c + ct_failed (tally [o])) (ct_forwards c ++ ct_forwards (tally [o]))%list.
Proof.
  unfold commit_one. intros H. destruct (spec_of specs _) as [spec|]; [|discriminate]. apply tx_bind_Ok in H as (u & s1 & _ & H).
  unfold tally, has_outcome. cbn [List.filter]. destruct c as [na nd nf fs]. cbn [ct_applied ct_deleted ct_failed ct_forwards].
  match type of H with (if ?b then _ else _) _ = _ => destruct b end; destruct (fo_Outcome o); try discriminate;
    try (apply tx_ret_Ok in H as [-> _]; cbn; rewrite ?Nat.add_0_r, ?app_nil_r; done).
  - destruct (fo_Applied o); [|discriminate]. apply tx_bind_Ok in H as (u1 & s2 & _ & H). apply tx_ret_Ok in H as [-> _].
    cbn. rewrite ?Nat.add_0_r, ?app_nil_r, Nat.add_1_r. done.
  - apply tx_ret_Ok in H as [-> _]. cbn. rewrite ?Nat.add_0_r, Nat.add_1_r. destruct (fo_Err o); cbn; by rewrite ?app_nil_r.
  - apply tx_bind_Ok in H as (u1 & s2 & _ & H). apply tx_ret_Ok in H as [-> _].
    cbn. rewrite ?Nat.add_0_r, ?app_nil_r, Nat.add_1_r. done.
Qed.

Lemma commit_all_counters (now : Z) (specs merged : list ForwardSpec) (l : list ForwardApply) (c c' : counters) s s' :
  commit_all now specs merged l c s = Ok (c', s') →
  c' = mkCounters (ct_applied c + ct_applied (tally l)) (ct_deleted c + ct_deleted (tally l))
         (ct_failed c + ct_failed (tally l)) (ct_forwards c ++ ct_forwards (tally l))%list.
Proof.
  revert c s. induction l as [|o l IH]; intros c s H; cbn [commit_all] in H.
  { apply tx_ret_Ok in H as [-> _]. destruct c. cbn. by rewrite !Nat.add_0_r, app_nil_r. }
  apply tx_bind_Ok in H as (c1 & s1 & H1 & H). apply commit_one_counters in H1 as ->. apply IH in H as ->.
  unfold tally. cbn [ct_applied ct_deleted ct_failed ct_forwards]. change (o :: l) with ([o] ++ l)%list.
  rewrite !List.filter_app, !length_app, fmap_app, !app_assoc, !Nat.add_assoc. done.
Qed.
End Store.
