(* ===== verification/ProbeRows.v ===== *)
(** * Durable probe operations and activation mirrors

    [src/internal/agent/localstate/probe.go] and [activation.go]: the rows behind
    the agent's probe admission.  An armed probe is persisted before RDY1 is
    answered; consuming it persists the receipt and the ACK before either is
    written to the network; the consumed row stays as a replay fence until its
    receipt deadline.  Times are instants in nanoseconds since Go's zero time. *)

From Stdlib Require Import ZArith Lia Strings.Byte.
From stdpp Require Import base tactics list sets strings option gmap countable relations.
From S2P Require Import Prelude GoStd Domain Frame Probe Bolt Journal Applied.

Open Scope Z_scope.

(** ** Rows *)

Record ActivationSnapshot : Type := mkActivationSnapshot {
  sn_ForwardID : string;
  sn_Activation : string;
  sn_Generation : Z;
  sn_States : ActivationStates
}.

Record ArmedProbe : Type := mkArmedProbe {
  ap_Arm : ProbeArm;
  ap_ForwardID : string;
  ap_Digest : bytes;
  ap_Deadline : Z;
  ap_ArmedAt : Z;
  ap_Consumed : bool;
  ap_Receipt : bytes;
  ap_ReceiptSent : bool;
  ap_ChallengeHash : bytes;
  ap_ACK : bytes;
  ap_ACKSent : bool;
  ap_ReceiptAcknowledged : bool;
  ap_ReceiptMessageID : string;
  ap_ReceiptDeadline : Z
}.

Class ProbeEnv := {
  #[global] pe_probe :: JsonRow ArmedProbe;
  #[global] pe_snapshot :: JsonRow ActivationSnapshot
}.

(** Rows [encoding/json] keeps: valid UTF-8 strings, instants RFC 3339 can write. *)
Definition time_json (t : Z) : bool := (0 <=? t) && (t <? 315537897600000000000).
Definition probe_text (p : ArmedProbe) : bool :=
  forallb text [ap_ForwardID p; ap_ReceiptMessageID p; pa_Endpoint (ap_Arm p)]
  && forallb time_json [ap_Deadline p; ap_ArmedAt p; ap_ReceiptDeadline p].
Definition snapshot_text (a : ActivationSnapshot) : bool :=
  forallb text [sn_ForwardID a; sn_Activation a; as_ControlState (sn_States a); as_ListenerState (sn_States a);
    as_MappingState (sn_States a); as_KeepaliveState (sn_States a); as_WanReachabilityState (sn_States a);
    as_ReturnPathState (sn_States a); as_TargetHealthState (sn_States a); as_PublicationState (sn_States a);
    as_DataPlaneState (sn_States a)].

Class ProbeLaws `{ProbeEnv} : Prop := {
  #[global] pl_probe :: JsonRowLaws ArmedProbe probe_text;
  #[global] pl_snapshot :: JsonRowLaws ActivationSnapshot snapshot_text
}.

Definition zero_time : Z := 0.
Definition zero32 : bytes := repeat Byte.x00 32.
Definition defaultProbeScanLimit : nat := 256.
Definition probeReceiptIndexPrefix : string := "receipt/".

Definition probeReceiptIndexKey (operationID : string) : string := String.append probeReceiptIndexPrefix operationID.
#[global] Arguments probeReceiptIndexKey : simpl never.

Definition isProbeOperationKey (key : string) : bool :=
  bool_decide (String.length key = 16%nat) && negb (String.prefix probeReceiptIndexPrefix key).

(** The key of a probe id. *)
Definition probe_key (probeID : bytes) : string := string_of probeID.
#[global] Arguments probe_key : simpl never.

Section ProbeRows.
Context {B : Type} `{!Bolt B} `{!JournalEnv} `{!AppliedEnv} `{!ProbeEnv} `{!Crypto}.
Implicit Types s : Store B.

(** ** Activation mirrors *)

Definition validateActivationSnapshot (key : string) (snapshot : ActivationSnapshot) : bool :=
  negb (String.eqb (sn_ForwardID snapshot) "" || String.eqb (sn_Activation snapshot) "")
  && (String.eqb key "" || String.eqb (sn_ForwardID snapshot) key)
  && negb (sn_Generation snapshot =? 0)
  && String.eqb (sn_Activation snapshot) (hex_of (ActivationID (sn_ForwardID snapshot) (sn_Generation snapshot)))
  && is_ok (ActivationStates_Validate (sn_States snapshot)).

Definition SaveActivationSnapshot (snapshot : ActivationSnapshot) : tx B unit :=
  tx_fail_if negb (validateActivationSnapshot (sn_ForwardID snapshot) snapshot) with EInvalidActivation ;;
  put ActivationB (sn_ForwardID snapshot) (marshal snapshot).

(** Decode and validate the mirror row of a Forward. *)
Definition load_snapshot (forwardID : string) (raw : option bytes) : result LsError (option ActivationSnapshot) :=
  match raw with
  | None => Ok None
  | Some v =>
      match unmarshal v with
      | None => Err EDecode
      | Some snapshot =>
          fail_if negb (validateActivationSnapshot forwardID snapshot) with EInvalidActivation ;; Ok (Some snapshot)
      end
  end.

Definition LoadActivationSnapshot s (forwardID : string) : result LsError (option ActivationSnapshot) :=
  fail_if String.eqb forwardID "" with EIdentityRequired ;;
  load_snapshot forwardID (bget (s_activation s) forwardID).

Definition DeleteActivationSnapshot (forwardID : string) : tx B unit :=
  tx_fail_if String.eqb forwardID "" with EIdentityRequired ;; del ActivationB forwardID.

(** ** Probe rows *)

Definition loadProbe (probeID : bytes) : tx B (option ArmedProbe) :=
  let! raw := get ProbeOpsB (probe_key probeID) in
  match raw with
  | None => tx_ret None
  | Some v => match unmarshal v with Some p => tx_ret (Some p) | None => tx_fail EDecode end
  end.

(** Load a row that must exist. *)
Definition requireProbe (probeID : bytes) : tx B ArmedProbe :=
  let! found := loadProbe probeID in
  match found with Some p => tx_ret p | None => tx_fail ErrProbeNotFound end.

Definition putProbe (probeID : bytes) (p : ArmedProbe) : tx B unit := put ProbeOpsB (probe_key probeID) (marshal p).

Definition putIndex (operationID : string) (probeID : bytes) : tx B unit :=
  put ProbeOpsB (probeReceiptIndexKey operationID) probeID.

(** The row of a fresh arm. *)
Definition fresh_probe (arm : ProbeArm) (forwardID : string) (deadline : Z) : ArmedProbe :=
  mkArmedProbe arm forwardID (arm_Digest arm) deadline
    (if 0 <? pa_TTLMS arm then deadline - pa_TTLMS arm * Millisecond else zero_time)
    false [] false zero32 [] false false "" zero_time.

(** The replay check of an arm against the row already there. *)
Definition check_rearm (existing : option ArmedProbe) (rec : ArmedProbe) : result LsError unit :=
  match existing with
  | None => Ok tt
  | Some e =>
      fail_if ap_Consumed e with ErrProbeConsumed ;;
      fail_if negb (String.eqb (ap_ForwardID e) (ap_ForwardID rec)) || negb (bytes_eqb (ap_Digest e) (ap_Digest rec))
        || negb (bytes_eqb (arm_Canonical (ap_Arm e)) (arm_Canonical (ap_Arm rec))) with ErrProbeConflict ;;
      Ok tt
  end.

Definition SaveArmedProbeForForward (arm : ProbeArm) (forwardID : string) (deadline : Z) : tx B unit :=
  let rec := fresh_probe arm forwardID deadline in
  let! existing := loadProbe (pa_ProbeID arm) in
  let! _ := tx_of (check_rearm existing rec) in
  putProbe (pa_ProbeID arm) rec.

Definition SaveArmedProbe (arm : ProbeArm) (deadline : Z) : tx B unit := SaveArmedProbeForForward arm "" deadline.

Definition LoadArmedProbe s (probeID : bytes) : result LsError (option ArmedProbe) :=
  let* r := loadProbe probeID s in Ok r.1.

Definition CommitProbeAdmission (forwardID : string) (expectedRevision : Z) (activation : string) (arm : ProbeArm)
    (deadline : Z) (before after : ActivationStates) : tx B unit :=
  tx_fail_if String.eqb forwardID "" || (expectedRevision =? 0) || String.eqb activation "" with ErrProbeAdmissionConflict ;;
  tx_fail_if negb (is_ok (arm_Validate arm)) with EInvalidArm ;;
  tx_fail_if negb (is_ok (ActivationStates_Validate before)) with EInvalidActivation ;;
  tx_fail_if negb (is_ok (ActivationStates_Validate after)) with EInvalidActivation ;;
  let wantActivation := ActivationID forwardID expectedRevision in
  tx_fail_if negb (String.eqb activation (hex_of wantActivation)) || negb (bytes_eqb (pa_Activation arm) wantActivation)
    with ErrProbeAdmissionConflict ;;
  let rec := fresh_probe arm forwardID deadline in
  let snapshot := mkActivationSnapshot forwardID activation expectedRevision after in
  let! applied := loadAppliedRecordTx forwardID in
  match applied with
  | None => tx_fail ErrProbeAdmissionConflict
  | Some a =>
      tx_fail_if negb (af_SpecRevision (ar_State a) =? expectedRevision) with ErrProbeAdmissionConflict ;;
      let! oldSnapshotRaw := get ActivationB forwardID in
      let! old := tx_of (load_snapshot forwardID oldSnapshotRaw) in
      tx_fail_if (match old with
         | None => false
         | Some o => negb (String.eqb (sn_Activation o) activation) || negb (sn_Generation o =? expectedRevision)
                     || negb (bool_decide (sn_States o = before))
         end) with ErrProbeAdmissionConflict ;;
      let! existing := loadProbe (pa_ProbeID arm) in
      let! _ := tx_of (check_rearm existing rec) in
      tx_fail_if negb (validateActivationSnapshot forwardID snapshot) with EInvalidActivation ;;
      let! _ := put ActivationB forwardID (marshal snapshot) in
      putProbe (pa_ProbeID arm) rec
  end.

(** Drop a row's entry of the receipt index. *)
Definition drop_index (p : ArmedProbe) : tx B unit :=
  if negb (String.eqb (ap_ReceiptMessageID p) "") then del ProbeOpsB (probeReceiptIndexKey (ap_ReceiptMessageID p))
  else tx_ret tt.

Definition DeleteArmedProbe (probeID : bytes) : tx B unit :=
  let! found := loadProbe probeID in
  let! _ := match found with Some p => drop_index p | None => tx_ret tt end in
  del ProbeOpsB (probe_key probeID).

(** ** Consuming *)

Definition with_consumed (p : ArmedProbe) (receipt : bytes) (messageID : string) (deadline : Z) : ArmedProbe :=
  mkArmedProbe (ap_Arm p) (ap_ForwardID p) (ap_Digest p) (ap_Deadline p) (ap_ArmedAt p) true receipt false
    (ap_ChallengeHash p) (ap_ACK p) (ap_ACKSent p) (ap_ReceiptAcknowledged p) messageID deadline.

Definition with_ack (p : ArmedProbe) (chash ack : bytes) (sent : bool) : ArmedProbe :=
  mkArmedProbe (ap_Arm p) (ap_ForwardID p) (ap_Digest p) (ap_Deadline p) (ap_ArmedAt p) (ap_Consumed p) (ap_Receipt p)
    (ap_ReceiptSent p) chash ack sent (ap_ReceiptAcknowledged p) (ap_ReceiptMessageID p) (ap_ReceiptDeadline p).

Definition with_receipt_sent (p : ArmedProbe) : ArmedProbe :=
  mkArmedProbe (ap_Arm p) (ap_ForwardID p) (ap_Digest p) (ap_Deadline p) (ap_ArmedAt p) (ap_Consumed p) (ap_Receipt p)
    true (ap_ChallengeHash p) (ap_ACK p) (ap_ACKSent p) (ap_ReceiptAcknowledged p) (ap_ReceiptMessageID p)
    (ap_ReceiptDeadline p).

Definition with_acknowledged (p : ArmedProbe) : ArmedProbe :=
  mkArmedProbe (ap_Arm p) (ap_ForwardID p) (ap_Digest p) (ap_Deadline p) (ap_ArmedAt p) (ap_Consumed p) (ap_Receipt p)
    (ap_ReceiptSent p) (ap_ChallengeHash p) (ap_ACK p) (ap_ACKSent p) true (ap_ReceiptMessageID p) (ap_ReceiptDeadline p).

(** Fill in what an older process left empty. *)
Definition with_defaults (p : ArmedProbe) (messageID : string) (deadline : Z) : ArmedProbe :=
  mkArmedProbe (ap_Arm p) (ap_ForwardID p) (ap_Digest p) (ap_Deadline p) (ap_ArmedAt p) (ap_Consumed p) (ap_Receipt p)
    (ap_ReceiptSent p) (ap_ChallengeHash p) (ap_ACK p) (ap_ACKSent p) (ap_ReceiptAcknowledged p)
    (if String.eqb (ap_ReceiptMessageID p) "" then messageID else ap_ReceiptMessageID p)
    (if ap_ReceiptDeadline p =? zero_time then deadline else ap_ReceiptDeadline p).

Definition MarkArmedProbeConsumedWithACK (probeID receipt ack challengeHash : bytes) (receiptMessageID : string)
    (receiptDeadline : Z) : tx B unit :=
  let! rec := requireProbe probeID in
  if ap_Consumed rec then
    tx_fail_if negb (String.eqb (ap_ReceiptMessageID rec) receiptMessageID) || negb (bytes_eqb (ap_Receipt rec) receipt)
      || negb (bytes_eqb (ap_ACK rec) ack) || negb (bytes_eqb (ap_ChallengeHash rec) challengeHash) with ErrProbeConflict ;;
    tx_ret tt
  else
    let! _ := putProbe probeID (with_ack (with_consumed rec receipt receiptMessageID receiptDeadline) challengeHash ack false) in
    if negb (String.eqb receiptMessageID "") then putIndex receiptMessageID probeID else tx_ret tt.

Definition MarkArmedProbeConsumedWithReceipt (probeID receipt : bytes) (receiptMessageID : string) (receiptDeadline : Z)
    : tx B unit :=
  let! rec := requireProbe probeID in
  let rec' := if negb (ap_Consumed rec) then with_consumed rec receipt receiptMessageID receiptDeadline
              else with_defaults rec receiptMessageID receiptDeadline in
  let! _ := putProbe probeID rec' in
  if negb (String.eqb (ap_ReceiptMessageID rec') "") then putIndex (ap_ReceiptMessageID rec') probeID else tx_ret tt.

Definition MarkArmedProbeConsumed (now : Z) (probeID receipt : bytes) : tx B unit :=
  MarkArmedProbeConsumedWithReceipt probeID receipt "" (now + ProbeReplayWindow).

Definition SetArmedProbeACK (probeID ack : bytes) : tx B unit :=
  let! rec := requireProbe probeID in
  tx_fail_if negb (ap_Consumed rec) with ErrProbeNotFound ;;
  putProbe probeID (with_ack rec (ap_ChallengeHash rec) ack false).

Definition MarkArmedProbeACKSent (probeID : bytes) : tx B unit :=
  let! rec := requireProbe probeID in putProbe probeID (with_ack rec (ap_ChallengeHash rec) (ap_ACK rec) true).

Definition MarkArmedProbeReceiptSent (probeID : bytes) : tx B unit :=
  let! rec := requireProbe probeID in putProbe probeID (with_receipt_sent rec).

(** Whether a row is the one the Controller acknowledges. *)
Definition acknowledges (operationID : string) (rec : ArmedProbe) : bool :=
  (ap_Consumed rec && String.eqb (ap_ReceiptMessageID rec) operationID)
  || (ap_Consumed rec && negb (bool_decide (ap_Receipt rec = []))
      && let semanticID := hex_of (sha256 (ap_Receipt rec)) in
         String.eqb operationID semanticID
         && String.eqb (ap_ReceiptMessageID rec) (hex_of (MessageID semanticID "probe_ingress_receipt"))).

(** The closure [acknowledgeMatch]: its result says whether the row matched. *)
Definition acknowledgeMatch (operationID : string) (key : string) (raw : bytes) : tx B bool :=
  match unmarshal raw with
  | None => tx_fail EDecode
  | Some rec =>
      if negb (acknowledges operationID rec) then tx_ret false
      else let! _ := put ProbeOpsB key (marshal (with_acknowledged rec)) in tx_ret true
  end.

(** The bounded compatibility scan over the rows the [ForEach] visits. *)
Fixpoint acknowledge_scan (operationID : string) (scanned : nat) (l : list (string * bytes)) : tx B unit :=
  match l with
  | [] => tx_ret tt
  | (k, raw) :: l' =>
      if negb (isProbeOperationKey k) || bool_decide (defaultProbeScanLimit ≤ scanned)%nat
      then acknowledge_scan operationID scanned l'
      else let! _ := acknowledgeMatch operationID k raw in acknowledge_scan operationID (S scanned) l'
  end.

Definition AcknowledgeArmedProbeReceipt (operationID : string) : tx B unit :=
  let! index := get ProbeOpsB (probeReceiptIndexKey operationID) in
  let! matched :=
    (match index with
     | Some probeID =>
         if bool_decide (length probeID = 16%nat) then
           let! raw := get ProbeOpsB (probe_key probeID) in
           match raw with Some v => acknowledgeMatch operationID (probe_key probeID) v | None => tx_ret false end
         else tx_ret false
     | None => tx_ret false
     end) in
  if (matched : bool) then tx_ret tt
  else let! rows := entries ProbeOpsB in acknowledge_scan operationID O rows.

(** ** Sweeping *)

Definition expired (now : Z) (rec : ArmedProbe) : bool :=
  (negb (ap_Consumed rec) && negb (now <? ap_Deadline rec))
  || (ap_Consumed rec && negb (ap_ReceiptDeadline rec =? zero_time) && negb (now <? ap_ReceiptDeadline rec)).

(** The cursor loop of one page: the rows to remove, and the next cursor unless done. *)
Fixpoint sweep_scan (now : Z) (limit scanned : nat) (lastKey : string) (l : list (string * bytes))
    : result LsError (list string * option string) :=
  match l with
  | [] => Ok ([], None)
  | (key, raw) :: l' =>
      if negb (isProbeOperationKey key) then sweep_scan now limit scanned lastKey l'
      else if bool_decide (limit ≤ scanned)%nat then Ok ([], Some lastKey)
      else match unmarshal raw with
           | None => Err EDecode
           | Some rec =>
               let* r := sweep_scan now limit (S scanned) key l' in
               Ok (if expired now rec then key :: r.1 else r.1, r.2)
           end
  end.

(** The rows from the cursor on: [Seek] and, on an equal key, [Next]. *)
Definition rows_after (after : string) (l : list (string * bytes)) : list (string * bytes) :=
  if String.eqb after "" then l else List.filter (λ '(k, _), String.ltb after k) l.

Definition page_limit (limit : Z) : nat := if limit <=? 0 then defaultProbeScanLimit else Z.to_nat limit.

Definition sweep_remove (key : string) : tx B unit :=
  let! raw := get ProbeOpsB key in
  match raw with
  | None => del ProbeOpsB key
  | Some v =>
      match unmarshal v with
      | None => tx_fail EDecode
      | Some rec => let! _ := drop_index rec in del ProbeOpsB key
      end
  end.

(** The result is the next cursor; [None] is [done]. *)
Definition SweepArmedProbeTombstonesPage (now limit : Z) (after : string) : tx B (option string) :=
  let! rows := entries ProbeOpsB in
  let! page := tx_of (sweep_scan now (page_limit limit) O "" (rows_after after rows)) in
  let! _ := tx_iter sweep_remove page.1 in
  tx_ret page.2.

Definition SweepArmedProbeTombstonesLimit (now limit : Z) : tx B unit :=
  let! _ := SweepArmedProbeTombstonesPage now limit "" in tx_ret tt.

Definition SweepArmedProbeTombstones (now : Z) : tx B unit :=
  SweepArmedProbeTombstonesLimit now (Z.of_nat defaultProbeScanLimit).

Definition SetArmedProbeReceiptMessageID (probeID : bytes) (messageID : string) (deadline : Z) : tx B unit :=
  let! rec := requireProbe probeID in
  let rec' := if ap_Consumed rec then with_defaults rec messageID deadline else rec in
  let! _ := putProbe probeID rec' in
  if ap_Consumed rec' && negb (String.eqb (ap_ReceiptMessageID rec') "") then putIndex (ap_ReceiptMessageID rec') probeID
  else tx_ret tt.

(** ** Listing *)

Fixpoint list_scan (limit : nat) (out : list ArmedProbe) (lastKey : string) (l : list (string * bytes))
    : result LsError (list ArmedProbe * option string) :=
  match l with
  | [] => Ok (out, None)
  | (key, raw) :: l' =>
      if negb (isProbeOperationKey key) then list_scan limit out lastKey l'
      else if bool_decide (limit ≤ length out)%nat then Ok (out, Some lastKey)
      else match unmarshal raw with
           | None => Err EDecode
           | Some rec => list_scan limit (out ++ [rec]) key l'
           end
  end.

Definition ListArmedProbesPage s (limit : Z) (after : string) : result LsError (list ArmedProbe * option string) :=
  list_scan (page_limit limit) [] "" (rows_after after (bentries (s_probes s))).
End ProbeRows.
