(* ===== verification/LocalStore.v ===== *)
(** * The agent's local store: all its transactions together

    Every operation of [src/internal/agent/localstate] that writes the database, as
    one command type, so that the properties quantify over arbitrary interleavings
    of the components that share the store: journals, desired and applied state,
    activation mirrors and probe operations. *)

From Stdlib Require Import ZArith Lia Strings.Byte.
From stdpp Require Import base tactics list sets strings option gmap countable relations.
From S2P Require Import Prelude GoStd Domain Frame Probe Bolt Journal JournalProofs JournalProps Applied AppliedProofs ProbeRows.

Open Scope Z_scope.

Inductive lcmd : Type :=
  | LJournal (c : cmd)
  | LSaveDesired (d : DesiredState)
  | LCommit (now : Z) (d : DesiredState) (outcomes : list ForwardApply)
  | LRefreshRef (forward ref : string)
  | LEvacuate (ids : list string)
  | LSaveActivation (snapshot : ActivationSnapshot)
  | LDeleteActivation (forward : string)
  | LArm (arm : ProbeArm) (forward : string) (deadline : Z)
  | LAdmit (forward : string) (revision : Z) (activation : string) (arm : ProbeArm) (deadline : Z)
      (before after : ActivationStates)
  | LDeleteProbe (probe : bytes)
  | LConsumeACK (probe receipt ack chash : bytes) (messageID : string) (deadline : Z)
  | LConsumeReceipt (probe receipt : bytes) (messageID : string) (deadline : Z)
  | LSetACK (probe ack : bytes)
  | LACKSent (probe : bytes)
  | LReceiptSent (probe : bytes)
  | LAcknowledge (operation : string)
  | LSweep (now limit : Z) (after : string)
  | LSetMessageID (probe : bytes) (messageID : string) (deadline : Z)
  | LClearForwards.

Section LocalStore.
Context {B : Type} `{BoltB : !Bolt B} `{EnvB : !JournalEnv} `{AEnv : !AppliedEnv} `{PEnv : !ProbeEnv} `{Cry : !Crypto}.
Implicit Types s : Store B.

Definition lbody (c : lcmd) : tx B unit :=
  match c with
  | LJournal c => body c
  | LSaveDesired d => SaveReceivedDesired d
  | LCommit now d os => drop_result (CommitDesired now d os)
  | LRefreshRef f r => drop_result (RefreshAppliedJournalRef f r)
  | LEvacuate ids => EvacuateJournalRecords ids
  | LSaveActivation a => SaveActivationSnapshot a
  | LDeleteActivation f => DeleteActivationSnapshot f
  | LArm arm f dl => SaveArmedProbeForForward arm f dl
  | LAdmit f rev act arm dl b a => CommitProbeAdmission f rev act arm dl b a
  | LDeleteProbe id => DeleteArmedProbe id
  | LConsumeACK id r a h m dl => MarkArmedProbeConsumedWithACK id r a h m dl
  | LConsumeReceipt id r m dl => MarkArmedProbeConsumedWithReceipt id r m dl
  | LSetACK id a => SetArmedProbeACK id a
  | LACKSent id => MarkArmedProbeACKSent id
  | LReceiptSent id => MarkArmedProbeReceiptSent id
  | LAcknowledge op => AcknowledgeArmedProbeReceipt op
  | LSweep now limit after => drop_result (SweepArmedProbeTombstonesPage now limit after)
  | LSetMessageID id m dl => SetArmedProbeReceiptMessageID id m dl
  | LClearForwards => ClearForwardStateForDecommission
  end.

Definition lexec (c : lcmd) s : result LsError unit * Store B := Update (lbody c) s.
Definition lrun (cs : list lcmd) s : Store B := foldl (λ s c, (lexec c s).2) s cs.

(** The buckets a command can write. *)
Definition ltouches (c : lcmd) : list bucket :=
  match c with
  | LJournal c => touches c
  | LSaveDesired _ => [DesiredB]
  | LCommit _ _ _ => DesiredB :: commit_buckets
  | LRefreshRef _ _ => [AppliedB]
  | LEvacuate _ => [MappingB]
  | LSaveActivation _ | LDeleteActivation _ => [ActivationB]
  | LArm _ _ _ | LDeleteProbe _ | LConsumeACK _ _ _ _ _ _ | LConsumeReceipt _ _ _ _ | LSetACK _ _ | LACKSent _
  | LReceiptSent _ | LAcknowledge _ | LSweep _ _ _ | LSetMessageID _ _ _ => [ProbeOpsB]
  | LAdmit _ _ _ _ _ _ _ => [ActivationB; ProbeOpsB]
  | LClearForwards => [AppliedB; ActivationB; Tombstones; Intents; DesiredB; HookQueueB; KeyringB; MappingB]
  end.

Lemma lexec_respects (R : relation (Store B)) `{!PreOrder R} (c : lcmd) s : respects R (lbody c) → R s (lexec c s).2.
Proof. intros H. unfold lexec, Update. destruct (lbody c s) as [[u s']|] eqn:E; [by eapply H|reflexivity]. Qed.

Lemma lrun_respects (R : relation (Store B)) `{!PreOrder R} (cs : list lcmd) s :
  (∀ c, c ∈ cs → respects R (lbody c)) → R s (lrun cs s).
Proof.
  revert s. induction cs as [|c cs IH]; intros s H; [reflexivity|]. change (lrun (c :: cs) s) with (lrun cs (lexec c s).2).
  transitivity (lexec c s).2; [apply (lexec_respects R), (H c), list_elem_of_here|]. apply IH. intros c' Hc'. apply H. by right.
Qed.

Lemma lrun_app (cs1 cs2 : list lcmd) s : lrun (cs1 ++ cs2) s = lrun cs2 (lrun cs1 s).
Proof. apply foldl_app. Qed.

(** ** Inversion of the probe reads *)

Definition prow s (id : bytes) : option ArmedProbe := bget (s_probes s) (probe_key id) ≫= unmarshal.

Lemma loadProbe_Ok (id : bytes) s r s' :
  loadProbe id s = Ok (r, s') → s' = s ∧ r = prow s id ∧ (r = None → bget (s_probes s) (probe_key id) = None).
Proof. unfold loadProbe, prow. intros H. tx_walk H; subst; cbn; by rewrite ?E0. Qed.

Lemma requireProbe_Ok (id : bytes) s p s' : requireProbe id s = Ok (p, s') → s' = s ∧ prow s id = Some p.
Proof.
  unfold requireProbe. intros (r & s1 & Hl & H)%tx_bind_Ok. apply loadProbe_Ok in Hl as (-> & Hr & _).
  tx_walk H; by subst.
Qed.
End LocalStore.

(** Membership of a bucket in a concrete list. *)
Ltac bucket_dec := apply (bool_decide_unpack _); vm_compute; exact I.

(** Walk also through the reads of the applied and probe rows. *)
Ltac ltx_walk H :=
  repeat (tx_walk H; match type of H with
  | tx_bind (loadProbe _) _ _ = Ok _ =>
      let v := fresh "p" in let s1 := fresh "s" in let Hl := fresh "Hp" in
      apply tx_bind_Ok in H as (v & s1 & Hl & H); apply loadProbe_Ok in Hl as (-> & Hl)
  | tx_bind (requireProbe _) _ _ = Ok _ =>
      let v := fresh "p" in let s1 := fresh "s" in let Hl := fresh "Hp" in
      apply tx_bind_Ok in H as (v & s1 & Hl & H); apply requireProbe_Ok in Hl as (-> & Hl)
  | tx_bind (loadAppliedRecordTx _) _ _ = Ok _ =>
      let v := fresh "a" in let s1 := fresh "s" in let Hl := fresh "Ha" in
      apply tx_bind_Ok in H as (v & s1 & Hl & H); apply loadApplied_Ok in Hl as (-> & Hl)
  | tx_bind (tx_of _) _ _ = Ok _ =>
      let v := fresh "v" in let s1 := fresh "s" in let Hl := fresh "Hv" in
      apply tx_bind_Ok in H as (v & s1 & Hl & H); apply tx_of_Ok in Hl as [Hl ->]
  end); tx_walk H.

Section LocalFrames.
Context {B : Type} `{BoltB : !Bolt B} `{LawsB : !BoltLaws B} `{EnvB : !JournalEnv} `{AEnv : !AppliedEnv} `{PEnv : !ProbeEnv} `{Cry : !Crypto}.
Implicit Types s : Store B.

Lemma frame_drop_index (p : ArmedProbe) : respects (frame (B := B) [ProbeOpsB]) (drop_index p).
Proof. intros s u s' H. unfold drop_index in H. tx_walk H; [|reflexivity]. revert H. apply frame_del. by left. Qed.

Lemma frame_index_if (b : bool) (op : string) (id : bytes) :
  respects (frame (B := B) [ProbeOpsB]) (if b then putIndex op id else tx_ret tt).
Proof. intros s u s' H. tx_walk H; [|reflexivity]. revert H. apply frame_put. by left. Qed.

Lemma frame_acknowledge_match (op key : string) (raw : bytes) :
  respects (frame (B := B) [ProbeOpsB]) (acknowledgeMatch op key raw).
Proof.
  intros s r s' H. unfold acknowledgeMatch in H. tx_walk H; [reflexivity|]. revert H.
  apply respects_bind; [apply _|apply frame_put; by left|]. intros _. apply respects_ret, _.
Qed.

Lemma frame_acknowledge_scan (op : string) (n : nat) (l : list (string * bytes)) :
  respects (frame (B := B) [ProbeOpsB]) (acknowledge_scan op n l).
Proof.
  revert n. induction l as [|[k raw] l IH]; intros n; cbn [acknowledge_scan]; [apply respects_ret, _|].
  destruct (_ || _); [done|]. apply respects_bind; [apply _|apply frame_acknowledge_match|]. intros _. apply IH.
Qed.

Lemma frame_acknowledge (op : string) : respects (frame (B := B) [ProbeOpsB]) (AcknowledgeArmedProbeReceipt op).
Proof.
  intros s u s' H. unfold AcknowledgeArmedProbeReceipt in H. tx_walk H. revert H. apply respects_bind; [apply _| |].
  - intros t r t' H. tx_walk H; try reflexivity. by apply frame_acknowledge_match in H.
  - intros m t r t' H. tx_walk H; [reflexivity|]. by apply frame_acknowledge_scan in H.
Qed.

Lemma frame_sweep (now limit : Z) (after : string) :
  respects (frame (B := B) [ProbeOpsB]) (SweepArmedProbeTombstonesPage now limit after).
Proof.
  intros s r s' H. unfold SweepArmedProbeTombstonesPage in H. ltx_walk H. revert H.
  apply respects_bind; [apply _| |intros ?; apply respects_ret, _].
  apply (respects_iter (frame [ProbeOpsB])). intros k _ t u t' H. unfold sweep_remove in H. tx_walk H.
  - revert H. apply respects_bind; [apply _|apply frame_drop_index|]. intros _. apply frame_del. by left.
  - revert H. apply frame_del. by left.
Qed.

Lemma frame_commit (now : Z) (d : DesiredState) (os : list ForwardApply) :
  respects (frame (B := B) (DesiredB :: commit_buckets)) (CommitDesired now d os).
Proof.
  intros s r s' H. unfold CommitDesired in H. tx_walk H. bool_prop.
  apply tx_bind_Ok in H as (u & s1 & Hv & H). assert (s = s1) as <-.
  { unfold validateAppliedBucketTx in Hv. tx_walk Hv. revert Hv. apply (respects_iter eq).
    intros [key raw] _ t x t' Ht. tx_walk Ht. done. }
  apply tx_bind_Ok in H as (m & s1 & Hm & H). apply mergeReceived_Ok in Hm as (-> & _).
  2:{ apply DesiredState_Validate_iff. by destruct (DesiredState_Validate d) as [[]|]. }
  apply tx_bind_Ok in H as (u1 & s1 & Hp & H). apply tx_bind_Ok in H as (c & s2 & Hc & H). apply tx_ret_Ok in H as [_ ->].
  match goal with Hck : check_outcomes _ _ _ = true |- _ => apply check_outcomes_Ok in Hck as (Hd & _) end.
  apply commit_all_Ok in Hc as (_ & _ & Hf); [|done]. transitivity s1.
  - revert Hp. apply frame_put. by left.
  - intros b Hb. apply Hf. set_solver.
Qed.

Lemma lbody_frame (c : lcmd) : respects (frame (ltouches c)) (lbody (B := B) c).
Proof.
  destruct c; cbn [lbody ltouches]; intros s u s' H.
  - by apply body_frame in H.
  - unfold SaveReceivedDesired in H. tx_walk H. apply tx_bind_Ok in H as (m & s1 & Hm & H). apply mergeReceived_Ok in Hm as (-> & _).
    2:{ apply DesiredState_Validate_iff. bool_prop. by destruct (DesiredState_Validate d) as [[]|]. }
    revert H. apply frame_put. by left.
  - revert H. apply frame_drop, frame_commit.
  - revert H. apply frame_drop. intros t r t' H. unfold RefreshAppliedJournalRef in H. tx_walk H; try reflexivity.
    revert H. apply respects_bind; [apply _|apply frame_put; by left|]. intros _. apply respects_ret, _.
  - revert H. apply (respects_iter (frame [MappingB])). intros i _ t a t' H. tx_walk H; [reflexivity|]. revert H. apply frame_del. by left.
  - unfold SaveActivationSnapshot in H. tx_walk H. revert H. apply frame_put. by left.
  - unfold DeleteActivationSnapshot in H. tx_walk H. revert H. apply frame_del. by left.
  - unfold SaveArmedProbeForForward in H. ltx_walk H. revert H. apply frame_put. by left.
  - unfold CommitProbeAdmission in H. ltx_walk H; (revert H; apply respects_bind; [apply _|apply frame_put; by left|]; intros _; apply frame_put; right; by left).
  - unfold DeleteArmedProbe in H. ltx_walk H. revert H. apply respects_bind; [apply _| |intros _; apply frame_del; by left].
    destruct p; [apply frame_drop_index|apply respects_ret, _].
  - unfold MarkArmedProbeConsumedWithACK in H. ltx_walk H; [reflexivity|]. revert H.
    apply respects_bind; [apply _|apply frame_put; by left|]. intros _. apply frame_index_if.
  - unfold MarkArmedProbeConsumedWithReceipt in H. ltx_walk H. revert H.
    apply respects_bind; [apply _|apply frame_put; by left|]. intros _. apply frame_index_if.
  - unfold SetArmedProbeACK in H. ltx_walk H. revert H. apply frame_put. by left.
  - unfold MarkArmedProbeACKSent in H. ltx_walk H. revert H. apply frame_put. by left.
  - unfold MarkArmedProbeReceiptSent in H. ltx_walk H. revert H. apply frame_put. by left.
  - by apply frame_acknowledge in H.
  - revert H. apply frame_drop, frame_sweep.
  - unfold SetArmedProbeReceiptMessageID in H. ltx_walk H. revert H.
    apply respects_bind; [apply _|apply frame_put; by left|]. intros _. apply frame_index_if.
  - revert H. apply (respects_iter (frame _)). intros b Hb t a t' H. unfold clear_bucket in H. tx_walk H. revert H.
    apply (respects_iter (frame _)). intros [k v] _. by apply frame_del.
Qed.

Lemma lexec_frame (c : lcmd) s (b : bucket) : b ∉ ltouches c → at_bucket (lexec c s).2 b = at_bucket s b.
Proof. intros Hb. apply (lexec_respects (frame (ltouches c))); [apply lbody_frame|done]. Qed.
End LocalFrames.
