(* ===== verification/LocalWitness.v ===== *)
(** * A concrete local store for the witnesses

    Buckets as finite maps and JSON rows in the concrete encoding of Bolt.v, with a
    few snapshots, outcomes and runs on which the theorems of the local store are
    applied. *)

From Stdlib Require Import ZArith Lia Strings.Byte.
From stdpp Require Import base tactics list sets strings option gmap countable relations.
From S2P Require Import Prelude GoStd Domain Frame Probe Bolt Journal JournalProofs JournalProps Applied ProbeRows LocalStore.

Open Scope Z_scope.

#[export] Instance ForwardSpec_countable : Countable ForwardSpec :=
  inj_countable' (λ f, (fs_ForwardID f, fs_Name f, fs_Protocol f, fs_Target f, fs_Strategy f, fs_SourceInterface f,
      (fs_RequestedLocalPort f, fs_RequestedPublicPort f, fs_ManualExpectedEndpoint f, fs_RateLimitBPS f, fs_DetailedStats f,
       fs_PublishScheme f, fs_PublishedHost f, fs_CustomURITemplate f, fs_DesiredRevision f, fs_Presence f, fs_DeletionOperationID f)))
    (λ '(a, b, c, d, e, f, (g, h, i, j, k, l, m, n, o, p, q)), mkForwardSpec a b c d e f g h i j k l m n o p q) ltac:(by intros []).
#[export] Instance DesiredState_countable : Countable DesiredState :=
  inj_countable' (λ d, (ds_NodeID d, ds_Forwards d)) (λ '(a, b), mkDesiredState a b) ltac:(by intros []).
#[export] Instance AppliedForwardState_countable : Countable AppliedForwardState :=
  inj_countable' (λ a, (af_ForwardID a, af_SpecRevision a, af_DesiredRevision a, af_ActualBindHost a, af_ActualBindPort a,
      af_AssignedGatewayPort a, af_PublicPort a,
      (af_Strategy a, af_LayerVersion a, af_ActivationRecovery a, af_MappingJournalRef a, af_HookDefinitionVersion a,
       af_HookSecretVersion a, af_AppliedAtUnix a)))
    (λ '(a, b, c, d, e, f, g, (h, i, j, k, l, m, n)), mkAppliedForwardState a b c d e f g h i j k l m n) ltac:(by intros []).
#[export] Instance appliedRecord_countable : Countable appliedRecord :=
  inj_countable' (λ r, (ar_State r, ar_ServingSpec r)) (λ '(a, b), mkApplied a b) ltac:(by intros []).
#[export] Instance ActivationStates_countable : Countable ActivationStates :=
  inj_countable' (λ s, (as_ControlState s, as_ListenerState s, as_MappingState s, as_KeepaliveState s, as_WanReachabilityState s,
      as_ReturnPathState s, as_TargetHealthState s, as_PublicationState s, as_DataPlaneState s))
    (λ '(a, b, c, d, e, f, g, h, i), mkActivationStates a b c d e f g h i) ltac:(by intros []).
#[export] Instance ActivationSnapshot_eq_dec : EqDecision ActivationSnapshot.
Proof. solve_decision. Defined.
#[export] Instance ActivationSnapshot_countable : Countable ActivationSnapshot :=
  inj_countable' (λ s, (sn_ForwardID s, sn_Activation s, sn_Generation s, sn_States s))
    (λ '(a, b, c, d), mkActivationSnapshot a b c d) ltac:(by intros []).
#[export] Instance ProbeArm_eq_dec : EqDecision ProbeArm.
Proof. solve_decision. Defined.
#[export] Instance ProbeArm_countable : Countable ProbeArm :=
  inj_countable' (λ a, (pa_ProbeID a, pa_ProviderID a, pa_ProviderPublicKey a, pa_ExpectedSourceIP a, pa_Activation a,
      pa_Endpoint a, pa_TTLMS a, pa_ExpiryOpaque a))
    (λ '(a, b, c, d, e, f, g, h), mkArm a b c d e f g h) ltac:(by intros []).
#[export] Instance ArmedProbe_eq_dec : EqDecision ArmedProbe.
Proof. solve_decision. Defined.
#[export] Instance ArmedProbe_countable : Countable ArmedProbe :=
  inj_countable' (λ p, (ap_Arm p, ap_ForwardID p, ap_Digest p, ap_Deadline p, ap_ArmedAt p, ap_Consumed p, ap_Receipt p,
      (ap_ReceiptSent p, ap_ChallengeHash p, ap_ACK p, ap_ACKSent p, ap_ReceiptAcknowledged p, ap_ReceiptMessageID p, ap_ReceiptDeadline p)))
    (λ '(a, b, c, d, e, f, g, (h, i, j, k, l, m, n)), mkArmedProbe a b c d e f g h i j k l m n) ltac:(by intros []).

Definition w_applied_env : AppliedEnv := {| ae_desired := countable_row desired_text; ae_applied := countable_row applied_text |}.
#[export] Existing Instance w_applied_env.
Lemma w_applied_laws : AppliedLaws.
Proof. split; apply countable_row_laws. Qed.
#[export] Existing Instance w_applied_laws.

Definition w_probe_env : ProbeEnv := {| pe_probe := countable_row probe_text; pe_snapshot := countable_row snapshot_text |}.
#[export] Existing Instance w_probe_env.
Lemma w_probe_laws : ProbeLaws.
Proof. split; apply countable_row_laws. Qed.
#[export] Existing Instance w_probe_laws.

#[export] Existing Instance toy_crypto.

(** Forward [f1] present at a revision, and its applied state. *)
Definition w_spec (revision : Z) : ForwardSpec :=
  mkForwardSpec "f1" "web" "tcp" "10.0.0.2:80" "stun-only" "" 0 0 "" 0 false "" "" "" revision "PRESENT" "".
Definition w_present (revision : Z) : DesiredState := mkDesiredState "node" [w_spec revision].
Definition w_state (revision : Z) : AppliedForwardState :=
  mkAppliedForwardState "f1" revision revision "0.0.0.0" 8080 0 0 "stun-only" 1 "" "" 0 0 1000.
Definition w_apply_at (revision : Z) : lcmd :=
  LCommit 100 (w_present revision) [mkForwardApply "f1" ApplyApplied (Some (w_state revision)) false].
Definition w_deletion : list ForwardApply := [mkForwardApply "f1" ApplyDeleted None false].
Definition w_delete : lcmd := LCommit 200 (w_absent 7) w_deletion.

(** Commands succeed and fail as they should. *)
Example w_local_run :
  is_ok (lexec (w_apply_at 3) w_store).1 = true
  ∧ is_ok (lexec (w_apply_at 5) (lrun [w_apply_at 3] w_store)).1 = true
  ∧ (lexec (w_apply_at 4) (lrun [w_apply_at 5] w_store)).1 = Err ErrDesiredRevisionConflict
  ∧ is_ok (lexec w_delete (lrun [w_apply_at 5] w_store)).1 = true
  ∧ (lexec (w_apply_at 9) (lrun [w_apply_at 5; w_delete] w_store)).1 = Err ErrTombstonedForward.
Proof. vm_compute. done. Qed.

Lemma lexec_succeeded (c : lcmd) (s : Store mapb) : is_ok (lexec c s).1 = true → lexec c s = (Ok tt, (lexec c s).2).
Proof. destruct (lexec c s) as [[[]|e] s']; [done|discriminate]. Qed.
