(* ===== verification/AppliedProps.v ===== *)
(** * Theorems on desired and applied state

    What a received snapshot does to the stored one, what a commit does to every
    Forward, and what no interleaving of store transactions can do: move an applied
    record backwards, keep a deleted Forward applied, or resurrect one before its
    deletion is receipted. *)

From Stdlib Require Import ZArith Lia Strings.Byte.
From stdpp Require Import base tactics list sets strings option gmap countable relations.
From S2P Require Import Prelude GoStd Domain Frame Probe Bolt Journal JournalProofs JournalProps Applied AppliedProofs ProbeRows LocalStore LocalWitness.

Open Scope Z_scope.

Section AppliedTheorems.
Context {B : Type} `{BoltB : !Bolt B} `{LawsB : !BoltLaws B} `{EnvB : !JournalEnv} `{JL : !JournalLaws}
  `{AEnv : !AppliedEnv} `{AL : !AppliedLaws} `{PEnv : !ProbeEnv} `{Cry : !Crypto}.
Implicit Types s : Store B.

(** ** Receiving a snapshot *)

Lemma fence_at_text s (f op : string) (rev : Z) : fence_at s f = Some (op, rev) → op ≠ ""%string ∧ text op = true.
Proof.
  unfold fence_at, deleteFenceIdentity. intros H.
  assert (Hi : ∀ i, intent_at s f = Some i → text (fi_DeletionOperationID i) = true).
  { unfold intent_at. intros i Hi. destruct (bget _ f); [|done]. apply unmarshal_text in Hi. unfold intent_text in Hi. by bool_prop. }
  assert (Ht : ∀ t, tombstone_at s f = Some t → text (ft_DeletionOperationID t) = true).
  { unfold tombstone_at. intros t Ht. destruct (bget _ f); [|done]. apply unmarshal_text in Ht. unfold tombstone_text in Ht. by bool_prop. }
  destruct (intent_at s f) as [i|], (tombstone_at s f) as [t|]; cbn in H;
    repeat match type of H with context [if ?b then _ else _] => destruct b eqn:? end; simplify_eq; bool_prop; auto.
Qed.

Lemma spec_text_fenced (f : ForwardSpec) (op : string) (rev : Z) :
  spec_text f = true → text op = true → spec_text (fencedAbsentSpec f op rev) = true.
Proof.
  unfold spec_text. cbn. intros H Ho. bool_prop. repeat (apply andb_true_iff; split); done.
Qed.

Lemma spec_valid_fenced (f : ForwardSpec) (op : string) (rev : Z) :
  spec_valid f → op ≠ ""%string → spec_valid (fencedAbsentSpec f op rev).
Proof. intros [] Ho. split; try done. by right. Qed.

(** The merged snapshot is valid and its strings are valid UTF-8. *)
Lemma mergeReceived_valid (inc : DesiredState) s (d : DesiredState) s' :
  DesiredState_Validate inc = Ok tt → desired_text inc = true → mergeReceivedDesiredTx inc s = Ok (d, s') →
  DesiredState_Validate d = Ok tt ∧ desired_text d = true.
Proof.
  intros (Hn & Hv & Hd)%DesiredState_Validate_iff Ht H. pose proof H as H0.
  apply mergeReceived_Ok in H0 as (_ & Hid & Hdd & _ & Hpt & _); [|done].
  unfold mergeReceivedDesiredTx in H. apply tx_bind_Ok in H as (c & s1 & Hl & _). pose proof Hl as Hl0.
  apply loadReceived_Ok in Hl as (_ & Hc & Hcv).
  assert (Hcur : ∀ id g, desired_at s id = Some g → spec_valid g ∧ spec_text g = true).
  { unfold desired_at. rewrite <- Hc. intros id g Hg. destruct c as [c|]; [|done]. cbn in Hg.
    destruct (proj1 (DesiredState_Validate_iff c) (Hcv c eq_refl)) as (_ & Hcf & Hcd).
    apply spec_of_Some in Hg as [Hg _]; [|done]. split; [by eapply list.Forall_forall in Hcf|].
    unfold loadReceivedDesiredTx in Hl0. tx_walk Hl0. apply tx_of_Ok in Hl0 as [Hl0 _].
    apply load_desired_None in Hl0 as [[_ ?]|(key & raw & c' & _ & [= <-] & Hu & _)]; [done|].
    apply unmarshal_text in Hu. unfold desired_text in Hu. bool_prop. by eapply forallb_elem. }
  assert (Hinc : ∀ id g, spec_of (ds_Forwards inc) id = Some g → spec_valid g ∧ spec_text g = true).
  { intros id g [Hg _]%spec_of_Some; [|done]. unfold desired_text in Ht. bool_prop. split; [by eapply list.Forall_forall in Hv|].
    by eapply forallb_elem. }
  assert (Hall : ∀ g, g ∈ ds_Forwards d → spec_valid g ∧ spec_text g = true).
  { intros g Hg. assert (Hs : spec_of (ds_Forwards d) (fs_ForwardID g) = Some g) by by apply spec_of_Some.
    rewrite Hpt in Hs. destruct (spec_of (ds_Forwards inc) _) as [f|] eqn:Ef; [|by eapply Hcur].
    destruct (Hinc _ _ Ef) as [Hf1 Hf2]. unfold fenced_join in Hs. destruct (fence_at s _) as [[op rev]|] eqn:Efe.
    - apply fence_at_text in Efe as [Ho1 Ho2]. assert (spec_valid (fencedAbsentSpec f op rev) ∧ spec_text (fencedAbsentSpec f op rev) = true)
        by (split; [by apply spec_valid_fenced|by apply spec_text_fenced]).
      case_bool_decide; simplify_eq; [done|]. destruct (desired_at s _) as [c'|] eqn:Ecur; [case_bool_decide|]; simplify_eq; try done. by eapply Hcur.
    - unfold joined in Hs. destruct (desired_at s _) as [c'|] eqn:Ecur; [|by simplify_eq].
      destruct (_ <? _); simplify_eq; [done|by eapply Hcur]. }
  split.
  - apply DesiredState_Validate_iff. split_and!; [by rewrite Hid|apply list.Forall_forall; by intros g [Hg _]%Hall|done].
  - unfold desired_text in *. bool_prop. rewrite Hid. apply andb_true_iff. split; [done|].
    apply List.forallb_forall. intros g Hg%list_elem_of_In. by apply Hall.
Qed.

(** After the write, the merged snapshot is the stored one. *)
Lemma desired_of_put s (d : DesiredState) u s' :
  DesiredState_Validate d = Ok tt → desired_text d = true → (∀ d0, desired_of s = Some d0 → ds_NodeID d0 = ds_NodeID d) →
  is_ok (load_desired_rows None (bentries (s_desired s))) = true →
  put DesiredB (ds_NodeID d) (marshal d) s = Ok (u, s') → desired_of s' = Some d.
Proof.
  intros Hv Ht Hsame Hok (b' & Hb & ->)%put_Ok. cbn [at_bucket] in Hb. unfold desired_of at 1. cbn [set_bucket s_desired].
  assert (bentries b' = [(ds_NodeID d, marshal d)]) as ->.
  2:{ cbn. rewrite unmarshal_marshal by done. rewrite Hv. cbn. by rewrite String.eqb_refl. }
  assert (Hold : ∀ k v, (k, v) ∈ bentries (s_desired s) → k = ds_NodeID d).
  { intros k v Hin. unfold desired_of in Hsame. destruct (load_desired_rows _ _) as [r|] eqn:El; [|done].
    apply load_desired_None in El as [[El _]|(key & raw & d0 & El & -> & _ & _ & ->)]; rewrite El in Hin.
    - by apply elem_of_nil in Hin.
    - apply list_elem_of_singleton in Hin. simplify_eq. by apply Hsame. }
  assert (Hin : ∀ k v, (k, v) ∈ bentries b' ↔ k = ds_NodeID d ∧ v = marshal d).
  { intros k v. rewrite bentries_spec, (bget_bput _ _ _ _ Hb). destruct (decide (k = ds_NodeID d)) as [->|Hn]; [naive_solver|].
    rewrite <- bentries_spec. split; [|naive_solver]. intros ?%Hold. done. }
  pose proof (bentries_nodup b') as Hd. destruct (bentries b') as [|[k v] l] eqn:El.
  - exfalso. eapply not_elem_of_nil, Hin. done.
  - destruct (proj1 (Hin k v)) as [-> ->]; [left|]. f_equal. destruct l as [|[k2 v2] l]; [done|].
    destruct (proj1 (Hin k2 v2)) as [-> ->]; [right; left|]. cbn in Hd. apply NoDup_cons in Hd as [Hd _]. exfalso. apply Hd. left.
Qed.

(** A received snapshot merges per Forward.  When [SaveReceivedDesired] succeeds, the
    stored snapshot afterwards is, Forward by Forward, the join of the stored and the
    received one: a Forward the snapshot omits keeps its specification, a higher revision
    replaces a lower one and a delayed one changes nothing, two different specifications
    of one revision are refused; and a Forward with a durable deletion fence is ABSENT
    under the fence's operation whatever the snapshot says. *)
Theorem received_desired_is_join (d : DesiredState) s s' :
  desired_text d = true → lexec (LSaveDesired d) s = (Ok tt, s') →
  (∀ id, desired_at s' id =
     match spec_of (ds_Forwards d) id with
     | None => desired_at s id
     | Some f => fenced_join (fence_at s id) (desired_at s id) f
     end)
  ∧ (∀ id f, spec_of (ds_Forwards d) id = Some f → fence_at s id = None → ¬ conflicting (desired_at s id) (Some f))
  ∧ (∀ id op rev, id ∈ ids (ds_Forwards d) → fence_at s id = Some (op, rev) →
       ∃ g, desired_at s' id = Some g ∧ obeys op rev g).
Proof.
  intros Ht H. unfold lexec, Update in H. destruct (lbody _ s) as [[u s1]|] eqn:Eb; [|discriminate]. injection H as _ <-.
  cbn [lbody] in Eb. unfold SaveReceivedDesired in Eb. tx_walk Eb. bool_prop.
  assert (Hv : DesiredState_Validate d = Ok tt) by by destruct (DesiredState_Validate d) as [[]|].
  apply tx_bind_Ok in Eb as (m & s2 & Hm & Hp). pose proof Hm as Hm0. destruct (mergeReceived_valid _ _ _ _ Hv Ht Hm) as [Hmv Hmt].
  apply mergeReceived_Ok in Hm as (-> & Hid & _ & Hsame & Hpt & Ho & _ & Hcf); [|by apply DesiredState_Validate_iff].
  assert (Hs' : desired_of s1 = Some m).
  { eapply desired_of_put; [done|done|by rewrite Hid| |done]. unfold mergeReceivedDesiredTx in Hm0.
    apply tx_bind_Ok in Hm0 as (c & s2 & Hl & _). unfold loadReceivedDesiredTx in Hl. tx_walk Hl. apply tx_of_Ok in Hl as [Hl _]. by rewrite Hl. }
  assert (Hat : ∀ id, desired_at s1 id = spec_of (ds_Forwards m) id) by (intros id; unfold desired_at; by rewrite Hs').
  split_and!; [|done|].
  - intros id. rewrite Hat, Hpt. by destruct (spec_of (ds_Forwards d) id).
  - intros id op rev Hin Hf. rewrite Hat. by apply Ho.
Qed.

(** ** Committing a snapshot *)

(** The strings a command writes are valid UTF-8. *)
Definition state_text (a : AppliedForwardState) : bool :=
  forallb text [af_ForwardID a; af_ActualBindHost a; af_Strategy a; af_ActivationRecovery a; af_MappingJournalRef a].
Definition ltext (c : lcmd) : Prop :=
  match c with
  | LJournal c => cmd_text c
  | LSaveDesired d => desired_text d = true
  | LCommit _ d os => desired_text d = true ∧ ∀ o a, o ∈ os → fo_Applied o = Some a → state_text a = true
  | LRefreshRef _ r => text r = true
  | _ => True
  end.
Definition lclean (c : lcmd) : Prop := match c with LJournal c => cmd_clean c | _ => True end.

(** Everything a successful commit has done, with the merge it rests on. *)
Lemma commit_Ok (now : Z) (d : DesiredState) (os : list ForwardApply) s (r : ApplyReport) s' :
  CommitDesired now d os s = Ok (r, s') →
  ∃ m s1, DesiredState_Validate d = Ok tt ∧ NoDup (oids os) ∧ check_outcomes (ds_Forwards d) [] os = true
    ∧ length os = length (ds_Forwards d)
    ∧ mergeReceivedDesiredTx d s = Ok (m, s) ∧ put DesiredB (ds_NodeID m) (marshal m) s = Ok (tt, s1)
    ∧ r = report_of (tally os)
    ∧ (∀ o, o ∈ os → outcome_committed now (ds_Forwards d) (ds_Forwards m) s1 s' o)
    ∧ (∀ f, f ∉ oids os → rows s' f = rows s f)
    ∧ (∀ f, rows s1 f = rows s f) ∧ s_intents s1 = s_intents s ∧ s_intents s' = s_intents s.
Proof.
  intros H. pose proof (frame_commit _ _ _ _ _ _ H) as Hfr. unfold CommitDesired in H. tx_walk H. bool_prop.
  assert (Hv : DesiredState_Validate d = Ok tt) by by destruct (DesiredState_Validate d) as [[]|].
  match goal with Hck : check_outcomes _ _ _ = true |- _ => pose proof Hck as Hck0; apply check_outcomes_Ok in Hck0 as (Hnd & _) end.
  apply tx_bind_Ok in H as (u & s1 & Hvb & H). assert (s = s1) as <-.
  { unfold validateAppliedBucketTx in Hvb. tx_walk Hvb. revert Hvb. apply (respects_iter eq).
    intros [key raw] _ t x t' Htx. tx_walk Htx. done. }
  apply tx_bind_Ok in H as (m & s1 & Hm & H). pose proof Hm as Hm0.
  apply mergeReceived_Ok in Hm0 as (-> & _); [|by apply DesiredState_Validate_iff].
  apply tx_bind_Ok in H as ([] & s1 & Hp & H). apply tx_bind_Ok in H as (c & s2 & Hc & H). apply tx_ret_Ok in H as [-> ->].
  pose proof (commit_all_counters _ _ _ _ _ _ _ _ Hc) as Hct. apply commit_all_Ok in Hc as (Hall & Hrest & Hf'); [|done].
  pose proof Hp as Hp0. apply put_Ok in Hp0 as (b' & _ & ->).
  exists m, (set_bucket s DesiredB b'). split_and!; try done.
  - by rewrite Hct.
  - apply (Hfr Intents). unfold commit_buckets. set_solver.
Qed.

Lemma no_outcome (os : list ForwardApply) (x : ApplyOutcome) :
  (x = ApplyOther → False) →
  length (List.filter (has_outcome x) os) = O ↔ ∀ o, o ∈ os → fo_Outcome o ≠ x.
Proof.
  intros Hx. assert (Hh : ∀ o, has_outcome x o = true ↔ fo_Outcome o = x).
  { intros o. unfold has_outcome. destruct x, (fo_Outcome o); split; done || (by intros; exfalso; apply Hx). }
  rewrite length_zero_iff_nil. split.
  - intros Hf o Ho Ho'. assert (In o (List.filter (has_outcome x) os)) as Hi.
    { apply List.filter_In. split; [by apply list_elem_of_In|by apply Hh]. }
    by rewrite Hf in Hi.
  - intros Hno. destruct (List.filter _ os) as [|o l] eqn:El; [done|]. exfalso.
    assert (In o (List.filter (has_outcome x) os)) as [Ho Hfo]%List.filter_In by (rewrite El; by left).
    apply list_elem_of_In in Ho. apply (Hno o Ho). by apply Hh.
Qed.

(** A commit is per Forward and all or nothing.  When [CommitDesired] succeeds, every
    Forward moved exactly as its outcome says: an applied one was not fenced, its durable
    revision was not higher, and its record is now the given state with the serving
    specification; a deleted one has its tombstone and neither applied record nor
    activation mirror; a failed or skipped one keeps its rows, as does every Forward
    without an outcome; the report counts the outcomes, FULL without failures, FAILED
    without progress, PARTIAL otherwise. *)
Theorem commit_desired_effect (now : Z) (d : DesiredState) (os : list ForwardApply) (r : ApplyReport) s s' :
  Update (CommitDesired now d os) s = (Ok r, s') →
  (∀ o, o ∈ os → ∃ spec, spec_of (ds_Forwards d) (fo_ForwardID o) = Some spec
     ∧ (fo_Outcome o = ApplyApplied → bget (s_intents s) (fo_ForwardID o) = None)
     ∧ outcome_effect now spec o (rows s (fo_ForwardID o)) (rows s' (fo_ForwardID o)))
  ∧ (∀ f, f ∉ oids os → rows s' f = rows s f)
  ∧ r = report_of (tally os)
  ∧ (rp_Status r = ApplyStatusFull ↔ ∀ o, o ∈ os → fo_Outcome o ≠ ApplyFailed)
  ∧ (rp_Status r = ApplyStatusFailed → ∀ f, rows s' f = rows s f).
Proof.
  intros H. unfold Update in H. destruct (CommitDesired now d os s) as [[r' s1]|] eqn:Ec; [|discriminate]. injection H as -> ->.
  pose proof (commit_Ok _ _ _ _ _ _ Ec) as (m & s1 & _ & _ & _ & _ & _ & _ & Hr & Hall & Hrest & Hrows & Hin & _).
  split_and!; [|done|done| |].
  - intros o Ho. destruct (Hall o Ho) as (spec & Hspec & Hint & _ & He). exists spec. rewrite <- Hrows, <- Hin. done.
  - rewrite Hr. cbn. pose proof (no_outcome os ApplyFailed ltac:(done)) as Hno. case_bool_decide as Hf.
    + split; [|done]. intros _ o Ho. by apply Hno.
    + split; [by case_bool_decide|]. intros Hx. exfalso. by apply Hf, Hno.
  - rewrite Hr. cbn. case_bool_decide; [done|]. case_bool_decide as Hz; [done|]. intros _ f.
    destruct (decide (f ∈ oids os)) as [(o & -> & Ho)%list_elem_of_fmap|Hn]; [|by apply Hrest].
    destruct (Hall o Ho) as (spec & _ & _ & _ & He). rewrite Hrows in He. unfold outcome_effect in He.
    pose proof (proj1 (no_outcome os ApplyApplied ltac:(done)) (ltac:(lia)) o Ho). pose proof (proj1 (no_outcome os ApplyDeleted ltac:(done)) (ltac:(lia)) o Ho).
    by destruct (fo_Outcome o).
Qed.

(** ** Applied records never move backwards *)

Lemma decode_applied (a : AppliedForwardState) (spec : ForwardSpec) :
  state_text a = true → spec_text spec = true → af_ForwardID a ≠ ""%string →
  decodeAppliedRecord (marshal (mkApplied a (Some spec))) = Some (mkApplied a (Some spec)).
Proof.
  intros Ha Hs Hid. unfold decodeAppliedRecord. rewrite unmarshal_marshal by (unfold applied_text; cbn -[forallb spec_text]; by rewrite Hs, andb_true_r).
  cbn. by rewrite (proj2 (String.eqb_neq _ _) Hid).
Qed.

(** The record an applied outcome leaves behind. *)
Lemma commit_record (now : Z) (d : DesiredState) (os : list ForwardApply) s r s' (o : ForwardApply) :
  ltext (LCommit now d os) → CommitDesired now d os s = Ok (r, s') → o ∈ os → fo_Outcome o = ApplyApplied →
  ∃ a spec, fo_Applied o = Some a ∧ applied_at s' (fo_ForwardID o) = Some (mkApplied a (Some spec))
    ∧ (∀ e, applied_at s (fo_ForwardID o) = Some e → af_SpecRevision (ar_State e) ≤ af_SpecRevision a)
    ∧ bget (s_tombstones s) (fo_ForwardID o) = None ∧ bget (s_intents s) (fo_ForwardID o) = None.
Proof.
  intros [Htd Hta] H Ho Happ. pose proof (commit_Ok _ _ _ _ _ _ H) as (m & s1 & Hv & _ & Hck & _ & _ & _ & _ & Hall & _ & Hrows & Hin & _).
  destruct (Hall o Ho) as (spec & Hspec & Hint & _ & He). unfold outcome_effect in He. rewrite Happ in He.
  destruct He as (a & Ha & Ht & Hrev & Hafter). rewrite Hrows in Ht, Hrev, Hafter. exists a, spec.
  apply DesiredState_Validate_iff in Hv as (_ & Hvf & Hnd). apply spec_of_Some in Hspec as [Hin' Hid]; [|done].
  split_and!; [done| |done|done|by rewrite <- Hin, Hint].
  unfold applied_at. injection Hafter as -> _ _. cbn. apply decode_applied; [by eapply Hta| |].
  - unfold desired_text in Htd. bool_prop. by eapply forallb_elem.
  - apply check_outcomes_Ok in Hck as (_ & _ & Hck). destruct (Hck o Ho) as (spec' & _ & Hco). unfold check_outcome in Hco.
    rewrite Happ, Ha in Hco. bool_prop. match goal with E : af_ForwardID a = _ |- _ => rewrite E, <- Hid end.
    eapply list.Forall_forall in Hvf; [|done]. by destruct Hvf.
Qed.

Lemma refresh_Ok (f ref : string) s b s' :
  text ref = true → RefreshAppliedJournalRef f ref s = Ok (b, s') →
  s' = s ∨ ∃ e e', applied_at s f = Some e ∧ applied_at s' f = Some e' ∧ af_SpecRevision (ar_State e') = af_SpecRevision (ar_State e)
    ∧ (∀ g, g ≠ f → bget (s_applied s') g = bget (s_applied s) g).
Proof.
  intros Ht H. unfold RefreshAppliedJournalRef in H. tx_walk H; try (by left). right.
  apply tx_bind_Ok in H as (u & s1 & Hp & H). apply tx_ret_Ok in H as [_ ->]. apply put_Ok in Hp as (b' & Hb & ->). cbn [at_bucket] in Hb.
  match goal with E1 : bget _ f = Some ?v, E2 : decodeAppliedRecord ?v = Some ?r, E3 : ar_ServingSpec ?r = Some ?sp |- _ =>
    assert (Hr : applied_text r = true ∧ applied_at s f = Some r);
      [|exists r, (mkApplied (with_journal_ref (ar_State r) ref) (Some sp)); rename E3 into Hsp; set (rr := r) in *; set (spp := sp) in *] end.
  { unfold applied_at. match goal with E1 : bget _ f = Some ?v |- _ => rewrite E1 end. cbn. split; [|done].
    match goal with E2 : decodeAppliedRecord ?v = Some _ |- _ => unfold decodeAppliedRecord in E2; destruct (unmarshal v) as [x|] eqn:Eu; [|done] end.
    cbn in *. apply unmarshal_text in Eu. match goal with E2 : Some (if ?b then _ else _) = Some _ |- _ => destruct b end; by simplify_eq. }
  destruct Hr as [Hrt Hra]. bool_prop. split_and!; [done| |done|].
  - unfold applied_at. cbn. rewrite (bget_bput_eq _ _ _ _ Hb). cbn. unfold applied_text in Hrt. rewrite Hsp in Hrt. cbn -[spec_text] in Hrt. bool_prop.
    apply decode_applied; [|done|done]. unfold state_text. cbn. repeat (apply andb_true_iff; split); done.
  - intros g Hg. cbn. by rewrite (bget_bput_ne _ _ _ _ _ Hg Hb).
Qed.

(** Clearing a list of buckets empties each of them. *)
Definition shrinks (b : bucket) s s' : Prop := ∀ k, bget (at_bucket s b) k = None → bget (at_bucket s' b) k = None.

#[local] Instance shrinks_preorder (b : bucket) : PreOrder (shrinks b).
Proof. split; [by intros s k|]. intros s1 s2 s3 H1 H2 k Hk. by apply H2, H1. Qed.

Lemma del_shrinks (b b' : bucket) (k : string) : respects (shrinks (b)) (del (B := B) b' k).
Proof.
  intros s u s' ->%del_Ok k' Hk. destruct (decide (b = b')) as [->|Hn]; [|by rewrite at_set_ne]. rewrite at_set_eq, bget_bdel.
  by destruct (decide _).
Qed.

Lemma clear_shrinks (b b' : bucket) : respects (shrinks b) (clear_bucket (B := B) b').
Proof. intros s u s' H. unfold clear_bucket in H. tx_walk H. revert H. apply (respects_iter (shrinks b)). intros [k v] _. apply del_shrinks. Qed.

Lemma dels_empty (b : bucket) (l : list (string * bytes)) s u s' :
  tx_iter (λ '(k, _), del b k) l s = Ok (u, s') → ∀ k v, (k, v) ∈ l → bget (at_bucket s' b) k = None.
Proof.
  revert s. induction l as [|[k0 v0] l IH]; intros s H k v Hin; [by apply elem_of_nil in Hin|]. cbn [tx_iter] in H.
  apply tx_bind_Ok in H as (u1 & s1 & Hd & H). apply elem_of_cons in Hin as [[= -> ->]|Hin]; [|by eapply IH].
  assert (shrinks b s1 s') as Hs. { revert H. apply (respects_iter (shrinks b)). intros [k v] _. apply del_shrinks. }
  apply Hs. apply del_Ok in Hd as ->. by rewrite at_set_eq, bget_bdel_eq.
Qed.

Lemma clear_empty (l : list bucket) s u s' (b : bucket) (k : string) :
  tx_iter clear_bucket l s = Ok (u, s') → b ∈ l → bget (at_bucket s' b) k = None.
Proof.
  revert s. induction l as [|b0 l IH]; intros s H Hin; [by apply elem_of_nil in Hin|]. cbn [tx_iter] in H.
  apply tx_bind_Ok in H as (u1 & s1 & Hc & H). apply elem_of_cons in Hin as [<-|Hin]; [|by eapply IH].
  assert (shrinks b s1 s') as Hs. { revert H. apply (respects_iter (shrinks b)). intros b' _. apply clear_shrinks. }
  apply Hs. unfold clear_bucket in Hc. tx_walk Hc. pose proof (dels_empty _ _ _ _ _ Hc) as Hd.
  destruct (bget (at_bucket s b) k) as [v|] eqn:E; [apply (Hd k v), bentries_spec; by destruct b|].
  assert (shrinks b s s1) as Hs1; [|by apply Hs1]. revert Hc. apply (respects_iter (shrinks b)). intros [k' v'] _. apply del_shrinks.
Qed.

Lemma step_no_regress (c : lcmd) s (f : string) (e e' : appliedRecord) :
  ltext c → applied_at s f = Some e → applied_at (lexec c s).2 f = Some e' →
  af_SpecRevision (ar_State e) ≤ af_SpecRevision (ar_State e').
Proof.
  intros Ht He He'. destruct (decide (AppliedB ∈ ltouches c)) as [Hin|Hn].
  2:{ pose proof (lexec_frame c s AppliedB Hn) as Hf. cbn in Hf. unfold applied_at in *. rewrite Hf in He'. rewrite He in He'. simplify_eq. lia. }
  unfold lexec, Update in He'. destruct (lbody c s) as [[u s']|] eqn:Eb; cbn in He'; [|rewrite He in He'; simplify_eq; lia].
  destruct c as [c| |now d os|f' ref| | | | | | | | | | | | | | |]; cbn in Hin; try (exfalso; set_solver); cbn [lbody] in Eb.
  - exfalso. destruct c; cbn in Hin; set_solver.
  - apply tx_bind_Ok in Eb as (r & s1 & Hc & H). apply tx_ret_Ok in H as [_ ->].
    pose proof (commit_Ok _ _ _ _ _ _ Hc) as (m & s2 & _ & _ & _ & _ & _ & _ & _ & Hall & Hrest & Hrows & _).
    destruct (decide (f ∈ oids os)) as [(o & -> & Ho)%list_elem_of_fmap|Hn].
    + destruct (decide (fo_Outcome o = ApplyApplied)) as [Happ|Hna].
      * destruct (commit_record _ _ _ _ _ _ _ Ht Hc Ho Happ) as (a & spec & _ & Ha & Hrev & _). rewrite Ha in He'. simplify_eq. by apply Hrev.
      * destruct (Hall o Ho) as (spec & _ & _ & _ & Hef). rewrite Hrows in Hef. unfold outcome_effect in Hef. unfold applied_at in *.
        destruct (fo_Outcome o); try done; injection Hef as Hef _ _; rewrite Hef in He'; try done; rewrite He in He'; simplify_eq; lia.
    + specialize (Hrest f Hn). injection Hrest as Hr _ _. unfold applied_at in *. rewrite Hr in He'. rewrite He in He'. simplify_eq. lia.
  - apply tx_bind_Ok in Eb as (r & s1 & Hc & H). apply tx_ret_Ok in H as [_ ->].
    apply refresh_Ok in Hc as [->|(x & x' & Hx & Hx' & Hrev & Hother)]; [rewrite He in He'; simplify_eq; lia| |done].
    destruct (decide (f = f')) as [->|Hne]; [rewrite Hx in He; rewrite Hx' in He'; simplify_eq; lia|].
    unfold applied_at in *. rewrite Hother in He' by done. rewrite He in He'. simplify_eq. lia.
  - unfold applied_at in He'. pose proof (clear_empty _ _ _ _ AppliedB f Eb) as Hc. cbn [at_bucket] in Hc. rewrite Hc in He' by left. done.
Qed.

(** The last known good record never regresses.  Along any sequence of store
    transactions, as long as a Forward stays applied the revision of its applied record
    never decreases, whatever snapshots, outcomes or journal refreshes arrive in whatever
    order. *)
Theorem applied_revision_monotone (cs : list lcmd) s (f : string) (e : appliedRecord) :
  Forall ltext cs → applied_at s f = Some e →
  (∀ cs1 cs2, cs = (cs1 ++ cs2)%list → is_Some (applied_at (lrun cs1 s) f)) →
  ∃ e', applied_at (lrun cs s) f = Some e' ∧ af_SpecRevision (ar_State e) ≤ af_SpecRevision (ar_State e').
Proof.
  intros Ht. revert s e. induction Ht as [|c cs Hc _ IH]; intros s e He Hall; [by exists e; split; [|lia]|].
  destruct (Hall [c] cs eq_refl) as [e1 He1]. change (lrun [c] s) with (lexec c s).2 in He1.
  pose proof (step_no_regress _ _ _ _ _ Hc He He1) as Hle.
  destruct (IH (lexec c s).2 e1 He1) as (e' & He' & Hle').
  - intros cs1 cs2 ->. apply (Hall (c :: cs1) cs2). done.
  - exists e'. split; [done|lia].
Qed.

(** ** Deleted Forwards stay deleted *)

Lemma lbody_good (c : lcmd) : lclean c → respects good (lbody (B := B) c).
Proof.
  intros Hc. destruct c as [c| | | | | | | | | | | | | | | | | |]; [by apply good_body|..];
    intros s u s' H; apply lbody_frame in H; apply good_same; first [apply (H Outbox)|apply (H Operations)]; bucket_dec.
Qed.

Lemma lrun_inv (cs : list lcmd) s : Forall lclean cs → inv s → inv (lrun cs s).
Proof.
  intros Hc Hi. apply (lrun_respects good); [|done]. intros c Hin. apply lbody_good. by eapply list.Forall_forall in Hc.
Qed.

Lemma lrun_receipt (cs : list lcmd) s (D : string) :
  Forall lclean cs → inv s → ReceiptExists s D = true → ReceiptExists (lrun cs s) D = true.
Proof.
  intros Hc Hi Hr. assert (good s (lrun cs s)) as Hg.
  { apply (lrun_respects good). intros c Hin. apply lbody_good. by eapply list.Forall_forall in Hc. }
  by eapply good_receipt_permanent.
Qed.

(** A committed deletion leaves its tombstone and no applied record. *)
Lemma commit_deletes (now : Z) (d : DesiredState) (os : list ForwardApply) s r s' (o : ForwardApply) (spec : ForwardSpec) :
  desired_text d = true → CommitDesired now d os s = Ok (r, s') → o ∈ os → fo_Outcome o = ApplyDeleted →
  spec_of (ds_Forwards d) (fo_ForwardID o) = Some spec →
  fenced_by s' (fo_ForwardID o) (fs_DeletionOperationID spec) ∧ bget (s_applied s') (fo_ForwardID o) = None.
Proof.
  intros Htd H Ho Eo Hspec. pose proof (commit_Ok _ _ _ _ _ _ H) as (m & s1 & Hv & _ & _ & _ & _ & _ & _ & Hall & _ & Hrows & _).
  destruct (Hall o Ho) as (spec' & Hspec' & _ & _ & He). rewrite Hspec in Hspec'. injection Hspec' as <-.
  unfold outcome_effect in He. rewrite Eo in He. injection He as Ha Ht _. split; [|done]. right.
  apply DesiredState_Validate_iff in Hv as (_ & _ & Hnd). apply spec_of_Some in Hspec as [Hsin Hsid]; [|done].
  eexists. rewrite Ht. cbn. rewrite unmarshal_marshal; [done|]. unfold tombstone_text. cbn. rewrite <- Hsid.
  unfold desired_text in Htd. bool_prop. match goal with Hf : forallb spec_text _ = true |- _ => pose proof (forallb_elem _ _ _ Hf Hsin) as Hst end.
  unfold spec_text in Hst. cbn in Hst. bool_prop. by apply andb_true_iff.
Qed.

(** One commit against a fenced, unapplied Forward. *)
Lemma commit_fenced (now : Z) (d : DesiredState) (os : list ForwardApply) s r s' (f D : string) :
  desired_text d = true → CommitDesired now d os s = Ok (r, s') → fenced_by s f D →
  fenced_by s' f D ∧ (bget (s_applied s) f = None → bget (s_applied s') f = None).
Proof.
  intros Htd H Hfe. pose proof (commit_Ok _ _ _ _ _ _ H) as (m & s1 & Hv & _ & _ & _ & Hm & _ & _ & Hall & Hrest & Hrows & Hin1 & Hin).
  assert (Hsame : rows s' f = rows s f → fenced_by s' f D ∧ (bget (s_applied s) f = None → bget (s_applied s') f = None)).
  { intros Hr. injection Hr as Ha Ht _. unfold fenced_by. by rewrite Hin, Ht, Ha. }
  destruct (decide (f ∈ oids os)) as [(o & -> & Ho)%list_elem_of_fmap|Hn]; [|by apply Hsame, Hrest].
  destruct (Hall o Ho) as (spec & Hspec & Hint & Hmg & He). rewrite Hrows in He. unfold outcome_effect in He.
  destruct (fo_Outcome o) eqn:Eo; try by apply Hsame.
  - exfalso. destruct He as (a & _ & Ht & _). cbn in Ht. rewrite Hin1 in Hint. unfold fenced_by in Hfe. rewrite Ht, Hint in Hfe by done.
    destruct Hfe as [(? & ? & _)|(? & ? & _)]; done.
  - apply DesiredState_Validate_iff in Hv as (_ & Hvf & Hnd). pose proof Hspec as Hsp. apply spec_of_Some in Hsp as [Hsin Hsid]; [|done].
    apply mergeReceived_Ok in Hm as (_ & _ & _ & _ & _ & Hob & Hfb & _); [|done].
    assert (Hid : fo_ForwardID o ∈ ids (ds_Forwards d)) by (rewrite <- Hsid; by apply list_elem_of_fmap_2).
    destruct (Hfb _ _ Hid Hfe) as (rev & Hfa). destruct (Hob _ _ _ Hid Hfa) as (g & Hg & _ & HgD & _).
    rewrite Hmg in Hg by done. injection Hg as <-. rewrite <- HgD.
    destruct (commit_deletes _ _ _ _ _ _ _ _ Htd H Ho Eo Hspec) as [? ?]. done.
Qed.

Lemma step_fenced (c : lcmd) s (f D : string) :
  lclean c → ltext c → c ≠ LClearForwards → inv s → fenced_by s f D → bget (s_applied s) f = None →
  (fenced_by (lexec c s).2 f D ∧ bget (s_applied (lexec c s).2) f = None) ∨ ReceiptExists (lexec c s).2 D = true.
Proof.
  intros Hc Ht Hne Hi Hf Ha. unfold lexec, Update. destruct (lbody c s) as [[u s']|] eqn:Eb; cbn; [|by left].
  pose proof (lbody_frame c _ _ _ Eb) as Hfr.
  destruct c as [c| |now d os|f' ref| | | | | | | | | | | | | | |]; cbn [lbody ltouches] in *; try done;
    try (left; split; [eapply keeps_fenced; [eapply keeps_frame; [| |exact Hfr]|done]|rewrite <- Ha; f_equal; apply (Hfr AppliedB)]; set_solver).
  - destruct (body_keeps_fence _ _ _ _ _ _ Eb Hf) as [Hf'|Hr]; [left|by right]. split; [done|]. rewrite <- Ha. f_equal.
    apply (Hfr AppliedB). destruct c; cbn; set_solver.
  - left. apply tx_bind_Ok in Eb as (r & s1 & Hcm & H). apply tx_ret_Ok in H as [_ ->]. destruct Ht as [Ht _].
    destruct (commit_fenced _ _ _ _ _ _ _ _ Ht Hcm Hf) as [? Hap]. split; [done|by apply Hap].
  - left. split; [eapply keeps_fenced; [eapply keeps_frame; [| |exact Hfr]; set_solver|done]|].
    apply tx_bind_Ok in Eb as (r & s1 & Hcm & H). apply tx_ret_Ok in H as [_ ->].
    apply refresh_Ok in Hcm as [->|(x & x' & Hx & _ & _ & Hother)]; [done| |done].
    destruct (decide (f = f')) as [->|Hn]; [unfold applied_at in Hx; by rewrite Ha in Hx|]. by rewrite Hother.
Qed.

(** C9: no resurrection.  From any consistent store, once a commit has deleted a Forward
    under deletion operation [D], no interleaving of store transactions short of the
    node's own decommission (on operation ids outside the reserved key prefixes and on
    snapshots of valid UTF-8) re-applies it: until the Controller's receipt of [D] is
    durable the Forward stays fenced by [D] and has no applied record, and any commit of
    an applied outcome for it, at whatever revision, fails with nothing written. *)
Theorem deleted_forward_stays_deleted (now : Z) (d : DesiredState) (os : list ForwardApply) (r : ApplyReport) s s1
    (o : ForwardApply) (D : string) :
  inv s → desired_text d = true → Update (CommitDesired now d os) s = (Ok r, s1) →
  o ∈ os → fo_Outcome o = ApplyDeleted → fs_DeletionOperationID <$> spec_of (ds_Forwards d) (fo_ForwardID o) = Some D →
  ∀ cs, Forall lclean cs → Forall ltext cs → Forall (.≠ LClearForwards) cs →
  let s' := lrun cs s1 in
  ReceiptExists s' D = true
  ∨ (fenced_by s' (fo_ForwardID o) D ∧ bget (s_applied s') (fo_ForwardID o) = None
     ∧ ∀ now' d' os' o', ltext (LCommit now' d' os') → o' ∈ os' → fo_ForwardID o' = fo_ForwardID o → fo_Outcome o' = ApplyApplied →
         ∃ e, Update (CommitDesired now' d' os') s' = (Err e, s')).
Proof.
  intros Hi Htd H Ho Eo HD cs Hc Ht Hn s'. unfold Update in H. destruct (CommitDesired now d os s) as [[r' s2]|] eqn:Ec; [|discriminate].
  injection H as -> ->. destruct (spec_of (ds_Forwards d) _) as [spec|] eqn:Esp; [|done]. cbn in HD. injection HD as <-.
  destruct (commit_deletes _ _ _ _ _ _ _ _ Htd Ec Ho Eo Esp) as [Hf Ha].
  assert (Hi1 : inv s1).
  { assert (Hb : lbody (LCommit now d os) s = Ok (tt, s1)) by (cbn; unfold drop_result, tx_bind; by rewrite Ec).
    by apply (lbody_good (LCommit now d os) I _ _ _ Hb). }
  assert (Hst : ReceiptExists s' (fs_DeletionOperationID spec) = true
    ∨ (fenced_by s' (fo_ForwardID o) (fs_DeletionOperationID spec) ∧ bget (s_applied s') (fo_ForwardID o) = None)).
  { unfold s'. clear s' Ec Esp. revert s1 Hi1 Hf Ha. induction cs as [|c cs IH]; intros s1 Hi1 Hf Ha; [by right|].
    apply list.Forall_cons in Hc as [Hc1 Hc2]. apply list.Forall_cons in Ht as [Ht1 Ht2]. apply list.Forall_cons in Hn as [Hn1 Hn2].
    change (lrun (c :: cs) s1) with (lrun cs (lexec c s1).2).
    assert (Hi' : inv (lexec c s1).2) by (apply (lexec_respects good); [by apply lbody_good|done]).
    destruct (step_fenced c s1 _ _ Hc1 Ht1 Hn1 Hi1 Hf Ha) as [[Hf' Ha']|Hr]; [by apply IH|]. left. by apply lrun_receipt. }
  destruct Hst as [?|[Hf' Ha']]; [by left|right]. split_and!; [done|done|].
  intros now' d' os' o' Ht' Ho' Hid Happ. unfold Update. destruct (CommitDesired now' d' os' s') as [[r' s2]|e] eqn:Ec'; [|by exists e].
  exfalso. destruct (commit_record _ _ _ _ _ _ _ Ht' Ec' Ho' Happ) as (_ & _ & _ & _ & _ & Hnt & Hni). rewrite Hid in Hnt, Hni.
  unfold fenced_by in Hf'. rewrite Hnt, Hni in Hf'. destruct Hf' as [(? & ? & _)|(? & ? & _)]; done.
Qed.

(** A tombstoned Forward is never applied.  From the empty store, whatever
    transactions run, no Forward has both a tombstone and an applied record: the
    tombstone is written in the transaction that removes the record. *)
Theorem tombstoned_not_applied (cs : list lcmd) (f : string) :
  let s := lrun cs (empty_store (B := B)) in
  is_Some (bget (s_tombstones s) f) → bget (s_applied s) f = None.
Proof.
  cbn zeta. assert (H : ∀ s, (is_Some (bget (s_tombstones s) f) → bget (s_applied s) f = None) →
    is_Some (bget (s_tombstones (lrun cs s)) f) → bget (s_applied (lrun cs s)) f = None);
    [|apply H; cbn; by rewrite bget_bempty].
  induction cs as [|c cs IH]; intros s Hs; [done|]. change (lrun (c :: cs) s) with (lrun cs (lexec c s).2). apply IH.
  unfold lexec, Update. destruct (lbody c s) as [[u s']|] eqn:Eb; cbn; [|done]. pose proof (lbody_frame c _ _ _ Eb) as Hfr.
  destruct c as [c| |now d os|f' ref| | | | | | | | | | | | | | |]; cbn [lbody ltouches] in *;
    try (assert (s_tombstones s' = s_tombstones s) as -> by (apply (Hfr Tombstones); bucket_dec);
         assert (s_applied s' = s_applied s) as -> by (apply (Hfr AppliedB); bucket_dec); done).
  - assert (s_applied s' = s_applied s) as -> by (apply (Hfr AppliedB); destruct c; bucket_dec).
    destruct (decide (Tombstones ∈ touches c)) as [Hin|Hn]; [|by rewrite (Hfr Tombstones Hn : s_tombstones s' = s_tombstones s)].
    destruct c; cbn in Hin; try (exfalso; set_solver). cbn in Eb. unfold GCForwardTombstone in Eb. tx_walk Eb; try done.
    apply del_Ok in Eb as ->. cbn. rewrite bget_bdel. destruct (decide _); [by intros []|done].
  - apply tx_bind_Ok in Eb as (r & s1 & Hc & H). apply tx_ret_Ok in H as [_ ->].
    pose proof (commit_Ok _ _ _ _ _ _ Hc) as (m & s2 & _ & _ & _ & _ & _ & _ & _ & Hall & Hrest & Hrows & _).
    assert (Hsame : rows s1 f = rows s f → is_Some (bget (s_tombstones s1) f) → bget (s_applied s1) f = None)
      by (intros Hr; injection Hr as Ha Ht _; by rewrite Ha, Ht).
    destruct (decide (f ∈ oids os)) as [(o & -> & Ho)%list_elem_of_fmap|Hn]; [|by apply Hsame, Hrest].
    destruct (Hall o Ho) as (spec & _ & _ & _ & He). rewrite Hrows in He. unfold outcome_effect in He.
    destruct (fo_Outcome o); try by apply Hsame.
    + destruct He as (a & _ & _ & _ & He). injection He as _ Ht _. rewrite Ht. by intros [].
    + by injection He as Ha _ _.
  - assert (s_tombstones s' = s_tombstones s) as -> by (apply (Hfr Tombstones); bucket_dec). intros Ht. specialize (Hs Ht).
    apply tx_bind_Ok in Eb as (r & s1 & Hc & H). apply tx_ret_Ok in H as [_ ->]. unfold RefreshAppliedJournalRef in Hc. tx_walk Hc; try done.
    apply tx_bind_Ok in Hc as (u1 & s2 & Hp & H). apply tx_ret_Ok in H as [_ ->]. apply put_Ok in Hp as (b' & Hb & ->). cbn in Hb |- *.
    assert (Hne : f ≠ f') by congruence. by rewrite (bget_bput_ne _ _ _ _ _ Hne Hb).
  - intros _. pose proof (clear_empty _ _ _ _ AppliedB f Eb) as Hc. apply Hc. left.
Qed.
End AppliedTheorems.

(** ** Witnesses *)

Definition w_applied : Store mapb := lrun [w_apply_at 3] w_store.
Definition w_deleted : Store mapb := (lexec w_delete w_applied).2.

Lemma Update_ok {A} (m : tx mapb A) (s : Store mapb) : is_ok (Update m s).1 = true → ∃ r, Update m s = (Ok r, (Update m s).2).
Proof. destruct (Update m s) as [[r|e] s']; [by exists r|discriminate]. Qed.

Lemma received_desired_is_join_witness :
  desired_at (lexec (LSaveDesired (w_present 9)) w_deleted).2 "f1"
  = fenced_join (fence_at w_deleted "f1") (desired_at w_deleted "f1") (w_spec 9).
Proof.
  assert (Hok : is_ok (lexec (LSaveDesired (w_present 9)) w_deleted).1 = true) by (vm_compute; reflexivity).
  assert (Ht : desired_text (w_present 9) = true) by (vm_compute; reflexivity).
  exact (proj1 (received_desired_is_join (w_present 9) w_deleted _ Ht (lexec_succeeded _ _ Hok)) "f1"%string).
Defined.

Lemma commit_desired_effect_witness :
  ∃ r, r = report_of (tally w_deletion) ∧ rows (Update (CommitDesired 200 (w_absent 7) w_deletion) w_applied).2 "f2" = rows w_applied "f2".
Proof.
  assert (Hok : is_ok (Update (CommitDesired 200 (w_absent 7) w_deletion) w_applied).1 = true) by (vm_compute; reflexivity).
  destruct (Update_ok _ _ Hok) as [r Hr]. exists r.
  destruct (commit_desired_effect 200 (w_absent 7) w_deletion r w_applied _ Hr) as (_ & Hrest & Hrep & _).
  split; [exact Hrep|]. apply Hrest. apply (bool_decide_unpack _). vm_compute. exact I.
Defined.

Lemma applied_revision_monotone_witness :
  ∃ e', applied_at (lrun [w_apply_at 5] w_applied) "f1" = Some e' ∧ 3 ≤ af_SpecRevision (ar_State e').
Proof.
  refine (applied_revision_monotone [w_apply_at 5] w_applied "f1" (mkApplied (w_state 3) (Some (w_spec 3))) _ _ _).
  - apply List.Forall_cons; [|apply List.Forall_nil]. split; [vm_compute; reflexivity|].
    intros o a Ho Ha. apply list_elem_of_singleton in Ho as ->. injection Ha as <-. vm_compute. reflexivity.
  - vm_compute. reflexivity.
  - intros [|c1 [|c2 cs1]] cs2 Hcs; [|injection Hcs as <- _|discriminate]; vm_compute; by eexists.
Defined.

Lemma deleted_forward_stays_deleted_witness :
  let s := lrun [LSaveDesired (w_present 9); w_apply_at 9] w_deleted in
  ReceiptExists s "del-1" = true ∨ (fenced_by s "f1" "del-1" ∧ bget (s_applied s) "f1"%string = None).
Proof.
  assert (Hok : is_ok (Update (CommitDesired 200 (w_absent 7) w_deletion) w_applied).1 = true) by (vm_compute; reflexivity).
  destruct (Update_ok _ _ Hok) as [r Hr].
  assert (Hi : inv w_applied) by (apply lrun_inv; [by apply List.Forall_cons; [|apply List.Forall_nil]|apply inv_empty]).
  assert (Hs : (Update (CommitDesired 200 (w_absent 7) w_deletion) w_applied).2 = w_deleted) by (vm_compute; reflexivity).
  rewrite Hs in Hr. intros s.
  destruct (deleted_forward_stays_deleted 200 (w_absent 7) w_deletion r w_applied w_deleted (mkForwardApply "f1" ApplyDeleted None false) "del-1"
    Hi eq_refl Hr (list_elem_of_here _ _) eq_refl eq_refl [LSaveDesired (w_present 9); w_apply_at 9]) as [H|(H1 & H2 & _)].
  - by repeat (apply List.Forall_cons; [done|]).
  - apply List.Forall_cons; [vm_compute; reflexivity|]. apply List.Forall_cons; [|apply List.Forall_nil]. split; [vm_compute; reflexivity|].
    intros o a Ho Ha. apply list_elem_of_singleton in Ho as ->. injection Ha as <-. vm_compute. reflexivity.
  - by repeat (apply List.Forall_cons; [done|]).
  - by left.
  - right. by split.
Defined.

Lemma tombstoned_not_applied_witness : bget (s_applied (lrun [w_apply_at 3; w_delete] w_store)) "f1"%string = None.
Proof. refine (tombstoned_not_applied [w_apply_at 3; w_delete] "f1" _). vm_compute. by eexists. Defined.
