(* ===== verification/ProbeRowProps.v ===== *)
(** * Theorems on the durable probe operations

    A consumed probe is a replay fence: until its receipt deadline no interleaving of
    store transactions changes what it consumed or lets its id be armed again. *)

From Stdlib Require Import ZArith Lia Strings.Byte.
From stdpp Require Import base tactics list sets strings option gmap countable relations.
From S2P Require Import Prelude GoStd Domain Frame Probe Bolt Journal JournalProofs JournalProps Applied AppliedProofs ProbeRows LocalStore LocalWitness.

Open Scope Z_scope.

Lemma index_key_not_probe (op key : string) : isProbeOperationKey key = true → probeReceiptIndexKey op ≠ key.
Proof.
  intros H <-. unfold isProbeOperationKey in H. bool_prop.
  assert (String.prefix probeReceiptIndexPrefix (probeReceiptIndexKey op) = true) by (by destruct op). congruence.
Qed.

Lemma probe_key_inj (a b : bytes) : probe_key a = probe_key b → a = b.
Proof. apply string_of_inj. Qed.

(** What a consumed row pins down. *)
Record same_fence (p p' : ArmedProbe) : Prop := {
  sf_consumed : ap_Consumed p' = true;
  sf_arm : ap_Arm p' = ap_Arm p;
  sf_forward : ap_ForwardID p' = ap_ForwardID p;
  sf_digest : ap_Digest p' = ap_Digest p;
  sf_receipt : ap_Receipt p' = ap_Receipt p;
  sf_chash : ap_ChallengeHash p' = ap_ChallengeHash p;
  sf_message : ap_ReceiptMessageID p ≠ ""%string → ap_ReceiptMessageID p' = ap_ReceiptMessageID p;
  sf_deadline : ap_ReceiptDeadline p' = ap_ReceiptDeadline p
}.

Section ProbeTheorems.
Context {B : Type} `{BoltB : !Bolt B} `{LawsB : !BoltLaws B} `{EnvB : !JournalEnv} `{AEnv : !AppliedEnv}
  `{PEnv : !ProbeEnv} `{PL : !ProbeLaws} `{Cry : !Crypto}.
Implicit Types s : Store B.

Definition krow s (key : string) : option ArmedProbe := bget (s_probes s) key ≫= unmarshal.

(** The strings and times a command writes into a probe row survive JSON. *)
Definition ptext (c : lcmd) : Prop :=
  match c with
  | LConsumeACK _ _ _ _ m dl | LConsumeReceipt _ _ m dl | LSetMessageID _ m dl => text m = true ∧ time_json dl = true
  | _ => True
  end.

(** No deletion of the probe, and sweeps before its receipt deadline. *)
Definition before_deadline (id : bytes) (dl : Z) (c : lcmd) : Prop :=
  match c with
  | LDeleteProbe id' => id' ≠ id
  | LSweep now _ _ => now < dl
  | _ => True
  end.

Section Fence.
Context (key : string) (dl : Z) (Hkey : isProbeOperationKey key = true) (Hdl : dl ≠ zero_time).

Definition holds s s' : Prop := ∀ p, krow s key = Some p → ap_Consumed p = true → ap_ReceiptDeadline p = dl →
  ∃ p', krow s' key = Some p' ∧ same_fence p p'.

#[local] Instance holds_preorder : PreOrder holds.
Proof.
  split; [intros s p Hp Hc _; by exists p|]. intros s1 s2 s3 H1 H2 p Hp Hc Hd.
  destruct (H1 p Hp Hc Hd) as (p2 & Hp2 & []). destruct (H2 p2 Hp2) as (p3 & Hp3 & []); [done|congruence|].
  exists p3. split; [done|]. split; try congruence. intros Hm. transitivity (ap_ReceiptMessageID p2); [|auto].
  match goal with H : ap_ReceiptMessageID p2 ≠ _ → _ |- _ => apply H end.
  match goal with H : ap_ReceiptMessageID p ≠ _ → ap_ReceiptMessageID p2 = _ |- _ => by rewrite H end.
Qed.

Lemma holds_frame (bs : list bucket) s s' : ProbeOpsB ∉ bs → frame bs s s' → holds s s'.
Proof.
  intros Hn Hf p Hp Hc _. exists p. split; [|done]. unfold krow in *. by rewrite (Hf ProbeOpsB Hn : s_probes s' = s_probes s).
Qed.

Lemma holds_put_other (b : bucket) (k : string) (v : bytes) : b ≠ ProbeOpsB ∨ k ≠ key → respects holds (put b k v).
Proof.
  intros [Hb|Hk] s u s' H; [apply (holds_frame [b]); [set_solver|]; revert H; apply frame_put; by left|].
  apply put_Ok in H as (b' & Hb & ->). intros p Hp Hc _. exists p. split; [|done]. unfold krow in *.
  destruct b; cbn in *; try done. by rewrite (bget_bput_ne _ _ _ _ _ (not_eq_sym Hk) Hb).
Qed.

Lemma holds_del_other (k : string) : k ≠ key → respects holds (del ProbeOpsB k).
Proof.
  intros Hk s u s' ->%del_Ok p Hp Hc _. exists p. split; [|done]. unfold krow in *. cbn. by rewrite bget_bdel_ne.
Qed.

(** Rewriting the row of [key] itself with the same fence. *)
Lemma holds_put_same s u s' (p' : ArmedProbe) :
  (∀ p, krow s key = Some p → ap_Consumed p = true → ap_ReceiptDeadline p = dl → same_fence p p' ∧ probe_text p' = true) →
  put ProbeOpsB key (marshal p') s = Ok (u, s') → holds s s'.
Proof.
  intros H (b' & Hb & ->)%put_Ok p Hp Hc Hd. destruct (H p Hp Hc Hd) as [Hf Ht]. exists p'. split; [|done].
  unfold krow. cbn in *. rewrite (bget_bput_eq _ _ _ _ Hb). cbn. by apply unmarshal_marshal.
Qed.

Lemma krow_text s (p : ArmedProbe) : krow s key = Some p → probe_text p = true.
Proof. unfold krow. intros H. destruct (bget _ key); [|done]. by eapply unmarshal_text. Qed.

(** An update of the row a command has loaded. *)
Lemma holds_update (id : bytes) (p p' : ArmedProbe) s u s' :
  prow s id = Some p →
  (probe_key id = key → ap_Consumed p = true → ap_ReceiptDeadline p = dl → probe_text p = true → same_fence p p' ∧ probe_text p' = true) →
  putProbe id p' s = Ok (u, s') → holds s s'.
Proof.
  intros Hp Hok H. destruct (decide (probe_key id = key)) as [Hk|Hn].
  - unfold putProbe in H. rewrite Hk in H. unfold prow in Hp. rewrite Hk in Hp. revert H. apply holds_put_same.
    intros q Hq Hc Hd. assert (q = p) as -> by (unfold krow in *; congruence).
    apply Hok; try done. by apply krow_text in Hq.
  - revert H. apply holds_put_other. by right.
Qed.

Lemma holds_index (op : string) (id : bytes) : respects holds (putIndex op id).
Proof. apply holds_put_other. right. by apply index_key_not_probe. Qed.

Lemma holds_index_if (b : bool) (op : string) (id : bytes) : respects holds (if b then putIndex op id else tx_ret tt).
Proof. destruct b; [apply holds_index|apply respects_ret, _]. Qed.

Lemma holds_drop_index (p : ArmedProbe) : respects holds (drop_index p).
Proof.
  intros s u s' H. unfold drop_index in H. tx_walk H; [|reflexivity]. revert H. apply holds_del_other. by apply index_key_not_probe.
Qed.

(** A fresh arm never overwrites a consumed row. *)
Lemma holds_rearm (arm : ProbeArm) (f : string) (d : Z) s u s' :
  check_rearm (prow s (pa_ProbeID arm)) (fresh_probe arm f d) = Ok tt →
  putProbe (pa_ProbeID arm) (fresh_probe arm f d) s = Ok (u, s') → holds s s'.
Proof.
  intros Hck H. destruct (decide (probe_key (pa_ProbeID arm) = key)) as [Hk|Hn]; [|revert H; apply holds_put_other; by right].
  intros p Hp Hc _. exfalso. unfold prow in Hck. rewrite Hk in Hck. unfold krow in Hp. rewrite Hp in Hck. cbn in Hck. by rewrite Hc in Hck.
Qed.

(** Acknowledging: the row read is the row rewritten. *)
Lemma holds_match (op k : string) (raw : bytes) s r s' :
  bget (s_probes s) k = Some raw → acknowledgeMatch op k raw s = Ok (r, s') →
  holds s s' ∧ ∀ k', k' ≠ k → bget (s_probes s') k' = bget (s_probes s) k'.
Proof.
  intros Hk H. unfold acknowledgeMatch in H. tx_walk H; [by split; [reflexivity|]|].
  apply tx_bind_Ok in H as (u & s1 & Hp & H). apply tx_ret_Ok in H as [_ ->]. split.
  - destruct (decide (k = key)) as [->|Hn]; [|revert Hp; apply holds_put_other; by right].
    revert Hp. apply holds_put_same. intros p Hp Hc _. unfold krow in Hp. rewrite Hk in Hp. cbn in Hp.
    match goal with E : unmarshal raw = Some ?x |- _ => assert (x = p) as -> by congruence end.
    apply unmarshal_text in Hp. split; [by split|done].
  - apply put_Ok in Hp as (b' & Hb & ->). intros k' Hk'. cbn in *. by rewrite (bget_bput_ne _ _ _ _ _ Hk' Hb).
Qed.

Lemma holds_scan (op : string) (n : nat) (l : list (string * bytes)) s u s' :
  NoDup l.*1 → (∀ k v, (k, v) ∈ l → bget (s_probes s) k = Some v) → acknowledge_scan op n l s = Ok (u, s') → holds s s'.
Proof.
  revert n s. induction l as [|[k raw] l IH]; intros n s Hd Hl H; cbn [acknowledge_scan] in H; [tx_walk H; reflexivity|].
  cbn in Hd. apply NoDup_cons in Hd as [Hn Hd]. tx_walk H; [eapply IH; [done| |exact H]; intros k' v' Hin; apply Hl; by right|].
  apply tx_bind_Ok in H as (r & s1 & Hm & H). apply holds_match in Hm as [Hm Hother]; [|apply Hl; left].
  transitivity s1; [done|]. eapply IH; [done| |exact H]. intros k' v' Hin. rewrite Hother; [apply Hl; by right|].
  intros ->. apply Hn. apply list_elem_of_fmap. by exists (k, v').
Qed.

Lemma holds_acknowledge (op : string) : respects holds (AcknowledgeArmedProbeReceipt op).
Proof.
  intros s u s' H. unfold AcknowledgeArmedProbeReceipt in H. tx_walk H. apply tx_bind_Ok in H as (m & s1 & Hm & H). transitivity s1.
  - tx_walk Hm; try reflexivity. by eapply holds_match.
  - tx_walk H; [reflexivity|]. eapply holds_scan; [| |exact H]; [apply bentries_nodup|]. intros k v Hin. by apply bentries_spec.
Qed.

(** Sweeping: the removed rows are expired. *)
Lemma sweep_scan_expired (now : Z) (limit n : nat) (last : string) (l : list (string * bytes)) (ks : list string) (c : option string) :
  sweep_scan now limit n last l = Ok (ks, c) →
  ∀ k, k ∈ ks → ∃ raw p, (k, raw) ∈ l ∧ unmarshal raw = Some p ∧ expired now p = true.
Proof.
  revert n last ks c. induction l as [|[k0 raw] l IH]; intros n last ks c H k Hk; cbn in H.
  { simplify_eq. by apply elem_of_nil in Hk. }
  destruct (negb _). { destruct (IH _ _ _ _ H k Hk) as (r & p & ? & ?). exists r, p. split; [by right|done]. }
  case_bool_decide; [simplify_eq; by apply elem_of_nil in Hk|]. destruct (unmarshal raw) as [p|] eqn:Eu; [|done].
  destruct (sweep_scan _ _ _ _ l) as [[ks' c']|] eqn:El; [|done]. cbn in H. simplify_eq.
  assert (Hrec : k ∈ ks' → ∃ raw0 p0, (k, raw0) ∈ (k0, raw) :: l ∧ unmarshal raw0 = Some p0 ∧ expired now p0 = true).
  { intros Hk'. destruct (IH _ _ _ _ El k Hk') as (r & q & ? & ?). exists r, q. split; [by right|done]. }
  destruct (expired now p) eqn:Ee; [|by apply Hrec]. apply elem_of_cons in Hk as [->|Hk]; [|by apply Hrec].
  exists raw, p. split; [left|done].
Qed.

Lemma rows_after_sub (after : string) (l : list (string * bytes)) x : x ∈ rows_after after l → x ∈ l.
Proof.
  unfold rows_after. destruct (String.eqb after ""); [done|]. intros H. apply list_elem_of_In in H.
  apply List.filter_In in H as [H _]. by apply list_elem_of_In.
Qed.

Lemma holds_sweep (now limit : Z) (after : string) s r s' :
  now < dl → SweepArmedProbeTombstonesPage now limit after s = Ok (r, s') → holds s s'.
Proof.
  intros Hnow H. unfold SweepArmedProbeTombstonesPage in H. ltx_walk H. apply tx_bind_Ok in H as (u & s1 & Hi & H). tx_walk H.
  destruct v as [ks c]. cbn [fst] in Hi. intros p Hp Hc Hd. revert p Hp Hc Hd.
  destruct (decide (key ∈ ks)) as [Hin|Hn].
  - intros p Hp Hc Hd. exfalso. destruct (sweep_scan_expired _ _ _ _ _ _ _ Hv key Hin) as (raw & q & Hraw & Hu & He).
    apply rows_after_sub, bentries_spec in Hraw. unfold krow in Hp. rewrite Hraw in Hp. cbn in Hp. rewrite Hu in Hp. injection Hp as ->.
    unfold expired in He. rewrite Hc, Hd in He. cbn in He. rewrite (proj2 (Z.ltb_lt _ _) Hnow), andb_false_r in He. done.
  - revert Hi. apply (respects_iter holds). intros k Hk t x t' Hr. assert (Hne : k ≠ key) by (by intros ->). unfold sweep_remove in Hr. tx_walk Hr.
    + revert Hr. apply respects_bind; [apply _|apply holds_drop_index|]. intros _. by apply holds_del_other.
    + revert Hr. by apply holds_del_other.
Qed.

Lemma with_defaults_fence (p : ArmedProbe) (m : string) (d : Z) :
  ap_Consumed p = true → ap_ReceiptDeadline p = dl → text m = true → time_json d = true → probe_text p = true →
  same_fence p (with_defaults p m d) ∧ probe_text (with_defaults p m d) = true.
Proof.
  intros Hc Hd Hm Ht Hp. split.
  - split; try done; cbn; [intros Hm'; by rewrite (proj2 (String.eqb_neq _ _) Hm')|]. by rewrite Hd, (proj2 (Z.eqb_neq _ _) Hdl).
  - unfold probe_text in *. cbn -[time_json] in *. bool_prop. rewrite !andb_true_iff. split_and!; try done.
    + by destruct (String.eqb (ap_ReceiptMessageID p) "").
    + by destruct (Z.eqb (ap_ReceiptDeadline p) zero_time).
Qed.

Lemma step_holds (id : bytes) (c : lcmd) :
  probe_key id = key → ptext c → before_deadline id dl c → respects holds (lbody c).
Proof.
  intros Hid Ht Hb s u s' H. destruct (decide (ProbeOpsB ∈ ltouches c)) as [Hin|Hn]; [|by eapply holds_frame, lbody_frame].
  destruct c; cbn in Hin; try (exfalso; set_solver); cbn [lbody ptext before_deadline] in *; [exfalso; destruct c; cbn in Hin; set_solver|..].
  - unfold SaveArmedProbeForForward in H. ltx_walk H. destruct v. eapply holds_rearm; [|exact H]. by destruct Hp as [<- _].
  - unfold CommitProbeAdmission in H. ltx_walk H; apply tx_bind_Ok in H as (u1 & s1 & Hpa & H); destruct Hp as [Hp _];
      (transitivity s1; [revert Hpa; apply holds_put_other; by left|]); destruct v0; (eapply holds_rearm; [|exact H]);
      apply put_Ok in Hpa as (b' & _ & ->); unfold prow in *; cbn; by rewrite <- Hp.
  - unfold DeleteArmedProbe in H. ltx_walk H. revert H. apply respects_bind; [apply _| |intros _; apply holds_del_other; rewrite <- Hid; by intros ?%probe_key_inj].
    destruct p; [apply holds_drop_index|apply respects_ret, _].
  - unfold MarkArmedProbeConsumedWithACK in H. ltx_walk H; [reflexivity|].
    apply tx_bind_Ok in H as (u1 & s1 & Hp1 & H). transitivity s1; [|revert H; apply holds_index_if].
    eapply holds_update; [exact Hp| |exact Hp1]. intros _ Hc. congruence.
  - unfold MarkArmedProbeConsumedWithReceipt in H. ltx_walk H.
    apply tx_bind_Ok in H as (u1 & s1 & Hp1 & H). transitivity s1; [|revert H; apply holds_index_if].
    eapply holds_update; [exact Hp| |exact Hp1]. intros _ Hc Hd Htx. rewrite Hc. cbn. destruct Ht. by apply with_defaults_fence.
  - unfold SetArmedProbeACK in H. ltx_walk H. eapply holds_update; [exact Hp| |exact H]. intros _ Hc _ Htx. split; [by split|done].
  - unfold MarkArmedProbeACKSent in H. ltx_walk H. eapply holds_update; [exact Hp| |exact H]. intros _ Hc _ Htx. split; [by split|done].
  - unfold MarkArmedProbeReceiptSent in H. ltx_walk H. eapply holds_update; [exact Hp| |exact H]. intros _ Hc _ Htx. split; [by split|done].
  - by apply holds_acknowledge in H.
  - apply tx_bind_Ok in H as (r & s1 & Hs & H). tx_walk H. by eapply holds_sweep.
  - unfold SetArmedProbeReceiptMessageID in H. ltx_walk H.
    apply tx_bind_Ok in H as (u1 & s1 & Hp1 & H). transitivity s1; [|revert H; apply holds_index_if].
    eapply holds_update; [exact Hp| |exact Hp1]. intros _ Hc Hd Htx. rewrite Hc. destruct Ht. by apply with_defaults_fence.
Qed.
End Fence.

(** Arming a consumed probe id fails, in both admission paths. *)
Lemma rearm_refused s (id : bytes) (p : ArmedProbe) :
  prow s id = Some p → ap_Consumed p = true →
  (∀ arm f d, pa_ProbeID arm = id → lexec (LArm arm f d) s = (Err ErrProbeConsumed, s))
  ∧ (∀ f rev act arm d b a, pa_ProbeID arm = id → ∃ e, lexec (LAdmit f rev act arm d b a) s = (Err e, s)).
Proof.
  intros Hp Hc. split.
  - intros arm f d Ha. unfold lexec, Update. cbn [lbody]. unfold SaveArmedProbeForForward, loadProbe, tx_bind, get. cbn [at_bucket].
    rewrite Ha. unfold prow in Hp. destruct (bget _ (probe_key id)) as [v|]; [|done]. cbn in Hp. rewrite Hp. cbn. by rewrite Hc.
  - intros f rev act arm d b a Ha. unfold lexec, Update. destruct (lbody _ s) as [[u s']|e] eqn:E; [|by exists e]. exfalso.
    cbn [lbody] in E. unfold CommitProbeAdmission in E. ltx_walk E;
      match goal with Hr : check_rearm _ _ = Ok _, Hl : _ = prow s _ ∧ _ |- _ => destruct Hl as [-> _]; rewrite Ha, Hp in Hr; cbn in Hr; by rewrite Hc in Hr end.
Qed.

(** A consumed probe is a durable replay fence.  Once a probe row is consumed, any
    interleaving of store transactions that neither deletes the probe nor sweeps at or
    after its receipt deadline keeps the row, with the arm, the Forward, the digest, the
    receipt and the challenge it was consumed with; and arming the same probe id again is
    refused, as an arm and as an admission, with nothing written. *)
Theorem consumed_probe_is_fence (cs : list lcmd) s (id : bytes) (p : ArmedProbe) :
  isProbeOperationKey (probe_key id) = true → prow s id = Some p → ap_Consumed p = true → ap_ReceiptDeadline p ≠ zero_time →
  Forall ptext cs → Forall (before_deadline id (ap_ReceiptDeadline p)) cs →
  let s' := lrun cs s in
  (∃ p', prow s' id = Some p' ∧ same_fence p p')
  ∧ (∀ arm f d, pa_ProbeID arm = id → lexec (LArm arm f d) s' = (Err ErrProbeConsumed, s'))
  ∧ (∀ f rev act arm d b a, pa_ProbeID arm = id → ∃ e, lexec (LAdmit f rev act arm d b a) s' = (Err e, s')).
Proof.
  intros Hk Hp Hc Hd Ht Hb s'. assert (holds (probe_key id) (ap_ReceiptDeadline p) s s') as Hh.
  { apply lrun_respects; [apply holds_preorder|]. intros c Hin. eapply list.Forall_forall in Ht; [|done].
    eapply list.Forall_forall in Hb; [|done]. by eapply step_holds. }
  destruct (Hh p Hp Hc eq_refl) as (p' & Hp' & Hf). split; [by exists p'|]. eapply rearm_refused; [exact Hp'|]. by destruct Hf.
Qed.

(** A probe is admitted only for the served Forward.  When [CommitProbeAdmission]
    succeeds, the Forward's durable applied record is at exactly the expected revision, the
    arm's activation is the one derived from that Forward and revision, an existing mirror
    was the expected previous state, and the same transaction has stored the new activation
    mirror and the armed, unconsumed probe row bound to the Forward. *)
Theorem probe_admission_sound (f : string) (rev : Z) (act : string) (arm : ProbeArm) (d : Z) (before after : ActivationStates) s s' :
  probe_text (fresh_probe arm f d) = true → snapshot_text (mkActivationSnapshot f act rev after) = true →
  lexec (LAdmit f rev act arm d before after) s = (Ok tt, s') →
  (∃ a, applied_at s f = Some a ∧ af_SpecRevision (ar_State a) = rev)
  ∧ pa_Activation arm = ActivationID f rev ∧ act = hex_of (ActivationID f rev)
  ∧ (∀ o, LoadActivationSnapshot s f = Ok (Some o) → sn_States o = before ∧ sn_Generation o = rev)
  ∧ LoadActivationSnapshot s' f = Ok (Some (mkActivationSnapshot f act rev after))
  ∧ prow s' (pa_ProbeID arm) = Some (fresh_probe arm f d)
  ∧ frame [ActivationB; ProbeOpsB] s s'.
Proof.
  intros Htp Hts H. unfold lexec, Update in H. destruct (lbody _ s) as [[u s1]|] eqn:Eb; [|discriminate]. injection H as _ <-.
  pose proof (lbody_frame _ _ _ _ Eb) as Hfr. cbn [lbody] in Eb. unfold CommitProbeAdmission in Eb.
  ltx_walk Eb. bool_prop. destruct Ha as [Ha _]. apply tx_bind_Ok in Eb as (u1 & s2 & Hp1 & Hp2).
  apply put_Ok in Hp1 as (b1 & Hb1 & ->). apply put_Ok in Hp2 as (b2 & Hb2 & ->). cbn [at_bucket set_bucket s_probes s_activation] in *.
  assert (Hne : (f =? "")%string = false) by by apply String.eqb_neq.
  split; [exists a0; split; [symmetry; exact Ha|assumption]|]. split; [assumption|]. split; [assumption|]. split; [|split; [|split; [|exact Hfr]]].
  - intros o Ho. unfold LoadActivationSnapshot in Ho. rewrite Hne, Hv in Ho. injection Ho as ->. bool_prop. split; assumption.
  - unfold LoadActivationSnapshot. rewrite Hne. cbn [set_bucket s_activation]. rewrite (bget_bput_eq _ _ _ _ Hb1). cbn.
    rewrite unmarshal_marshal by done. by match goal with E : validateActivationSnapshot _ _ = true |- _ => rewrite E end.
  - unfold prow. cbn. rewrite (bget_bput_eq _ _ _ _ Hb2). cbn. by apply unmarshal_marshal.
Qed.
End ProbeTheorems.

(** ** Witnesses *)

Definition w_arm : ProbeArm :=
  mkArm (repeat Byte.x07 16) (repeat Byte.x01 16) (repeat Byte.x02 32) (repeat Byte.x03 16) (ActivationID "f1" 3) "203.0.113.9:443" 60000 (repeat Byte.x04 16).
Definition w_states : ActivationStates :=
  mkActivationStates "ONLINE" "READY" "NOT_REQUIRED" "NOT_REQUIRED" "NOT_TESTED" "NOT_TESTED" "UNKNOWN" "NONE" "READY".
Definition w_admit : lcmd := LAdmit "f1" 3 (hex_of (ActivationID "f1" 3)) w_arm 700000000000 w_states w_states.
Definition w_probe_store : Store mapb := lrun [w_apply_at 3] w_store.
Definition w_id : bytes := repeat Byte.x07 16.
Definition w_consume : lcmd := LConsumeACK w_id [Byte.x0a] [Byte.x0b] (repeat Byte.x05 32) "rid" 900000000000.
Definition w_consumed_store : Store mapb := lrun [w_admit; w_consume] w_probe_store.
Definition w_consumed_row : ArmedProbe :=
  with_ack (with_consumed (fresh_probe w_arm "f1" 700000000000) [Byte.x0a] "rid" 900000000000) (repeat Byte.x05 32) [Byte.x0b] false.

Lemma consumed_probe_is_fence_witness :
  lexec (LArm w_arm "f1" 700000000000) (lrun [LSweep 800000000000 0 ""; LAcknowledge "rid"] w_consumed_store)
  = (Err ErrProbeConsumed, lrun [LSweep 800000000000 0 ""; LAcknowledge "rid"] w_consumed_store).
Proof.
  refine (proj1 (proj2 (consumed_probe_is_fence [LSweep 800000000000 0 ""; LAcknowledge "rid"] w_consumed_store w_id w_consumed_row
    eq_refl _ eq_refl _ _ _)) w_arm "f1"%string 700000000000 eq_refl).
  - vm_compute. reflexivity.
  - vm_compute. discriminate.
  - repeat (apply List.Forall_cons; [done|]). apply List.Forall_nil.
  - apply List.Forall_cons; [vm_compute; reflexivity|]. apply List.Forall_cons; [exact I|apply List.Forall_nil].
Defined.

Lemma probe_admission_sound_witness :
  prow (lexec w_admit w_probe_store).2 w_id = Some (fresh_probe w_arm "f1" 700000000000).
Proof.
  assert (Hok : is_ok (lexec w_admit w_probe_store).1 = true) by (vm_compute; reflexivity).
  assert (Ht : probe_text (fresh_probe w_arm "f1" 700000000000) = true) by (vm_compute; reflexivity).
  assert (Hs : snapshot_text (mkActivationSnapshot "f1" (hex_of (ActivationID "f1" 3)) 3 w_states) = true) by (vm_compute; reflexivity).
  pose proof (probe_admission_sound "f1" 3 (hex_of (ActivationID "f1" 3)) w_arm 700000000000 w_states w_states w_probe_store _ Ht Hs
    (lexec_succeeded w_admit w_probe_store Hok)) as (_ & _ & _ & _ & _ & H & _).
  exact H.
Defined.
