(* ===== verification/Lifecycle.v ===== *)
(** * The agent's lifecycle files and latch

    [src/internal/agent/localstate/latch.go], [marker.go] and [recovery.go], and the
    recovery decision of [reconcile/recovery.go].  The state directory is the content
    of its two files; every operation runs under the lifecycle lock, so operations are
    sequential.  A file is replaced by writing a temporary file and renaming it: a
    failure before the rename leaves the old content, a failure of the directory
    fsync after it reports an error with the new content in place. *)

From Stdlib Require Import ZArith Lia Strings.Byte.
From stdpp Require Import base tactics list sets strings option gmap countable relations.
From S2P Require Import Prelude GoStd Bolt.

Open Scope Z_scope.

(** ** The terminal latch *)

Record Latch : Type := mkLatch { la_engaged : bool; la_actors : gset string }.

Inductive LifecycleError : Type :=
  | ErrTerminalEngaged | EMarkerRead | EMarkerInvalid | EMarkerFinal | EQuarantineRead | EQuarantineInvalid
  | EQuarantineIdentity | ErrQuarantineOverTerminal | ErrRecoveryOperationMismatch | EFile.

Definition NewLatch : Latch := mkLatch false ∅.

Definition TryEngage (l : Latch) : bool * Latch := if la_engaged l then (false, l) else (true, mkLatch true (la_actors l)).
Definition Engaged (l : Latch) : bool := la_engaged l.
Definition RegisterActor (l : Latch) (name : string) : result LifecycleError unit * Latch :=
  if la_engaged l then (Err ErrTerminalEngaged, l) else (Ok tt, mkLatch false ({[name]} ∪ la_actors l)).
Definition UnregisterActor (l : Latch) (name : string) : Latch := mkLatch (la_engaged l) (la_actors l ∖ {[name]}).
Definition ActiveCount (l : Latch) : nat := size (la_actors l).

(** ** The state directory *)

Record Dir : Type := mkDir { d_marker : option string; d_quarantine : option bytes }.

(** What the file system does during one operation. *)
Inductive io : Type :=
  | IoOk                     (* every call succeeds *)
  | IoRead                   (* reading a file fails *)
  | IoWrite                  (* the temporary file or the removal fails *)
  | IoSync.                  (* the directory fsync after the rename or removal fails *)

#[export] Instance io_eq_dec : EqDecision io.
Proof. solve_decision. Defined.

(** ** The terminal marker *)

Definition MarkerActive : string := "".
Definition MarkerDecommissioning : string := "DECOMMISSIONING".
Definition MarkerDecommissioned : string := "DECOMMISSIONED".

Definition validMarkerStates (state : string) : bool :=
  String.eqb state MarkerDecommissioning || String.eqb state MarkerDecommissioned.

Definition loadMarkerUnlocked (d : Dir) (f : io) : result LifecycleError string :=
  match d_marker d with
  | None => Ok MarkerActive
  | Some raw =>
      fail_if bool_decide (f = IoRead) with EMarkerRead ;;
      fail_if negb (validMarkerStates raw) with EMarkerInvalid ;;
      Ok raw
  end.

Definition LoadMarker (d : Dir) (f : io) : result LifecycleError string := loadMarkerUnlocked d f.

Definition writeMarkerUnlocked (d : Dir) (state : string) (f : io) : result LifecycleError unit * Dir :=
  if negb (validMarkerStates state) then (Err EMarkerInvalid, d)
  else match loadMarkerUnlocked d f with
  | Err e => (Err e, d)
  | Ok current =>
      if String.eqb current MarkerDecommissioned && negb (String.eqb state MarkerDecommissioned) then (Err EMarkerFinal, d)
      else if String.eqb current state then (Ok tt, d)
      else match f with
           | IoWrite => (Err EFile, d)
           | IoSync => (Err EFile, mkDir (Some state) (d_quarantine d))
           | _ => (Ok tt, mkDir (Some state) (d_quarantine d))
           end
  end.

Definition WriteMarker (d : Dir) (state : string) (f : io) : result LifecycleError unit * Dir := writeMarkerUnlocked d state f.

(** ** The recovery quarantine *)

Record RecoveryQuarantine : Type := mkQuarantine { rq_OperationID : string; rq_Generation : Z }.

#[export] Instance RecoveryQuarantine_eq_dec : EqDecision RecoveryQuarantine.
Proof. solve_decision. Defined.

Definition quarantine_text (q : RecoveryQuarantine) : bool := text (rq_OperationID q).

Section Recovery.
Context `{!JsonRow RecoveryQuarantine}.

Definition loadRecoveryQuarantineUnlocked (d : Dir) (f : io) : result LifecycleError (option RecoveryQuarantine) :=
  match d_quarantine d with
  | None => Ok None
  | Some raw =>
      fail_if bool_decide (f = IoRead) with EQuarantineRead ;;
      match unmarshal raw with
      | None => Err EQuarantineInvalid
      | Some q => fail_if rq_Generation q =? 0 with EQuarantineInvalid ;; Ok (Some q)
      end
  end.

Definition LoadRecoveryQuarantineBinding (d : Dir) (f : io) : result LifecycleError (option RecoveryQuarantine) :=
  loadRecoveryQuarantineUnlocked d f.

Definition LoadRecoveryQuarantine (d : Dir) (f : io) : result LifecycleError bool :=
  let* q := LoadRecoveryQuarantineBinding d f in Ok (bool_decide (is_Some q)).

Definition writeRecoveryQuarantineUnlocked (d : Dir) (q : RecoveryQuarantine) (f : io) : result LifecycleError unit * Dir :=
  if String.eqb (rq_OperationID q) "" || (rq_Generation q =? 0) then (Err EQuarantineIdentity, d)
  else match loadMarkerUnlocked d f with
  | Err e => (Err e, d)
  | Ok marker =>
      if String.eqb marker MarkerDecommissioned then (Err ErrQuarantineOverTerminal, d)
      else match loadRecoveryQuarantineUnlocked d f with
      | Err e => (Err e, d)
      | Ok current =>
          if match current with Some c => bool_decide (c = q) | None => false end then (Ok tt, d)
          else if match current with Some c => rq_Generation q <=? rq_Generation c | None => false end
          then (Err ErrRecoveryOperationMismatch, d)
          else match f with
               | IoWrite => (Err EFile, d)
               | IoSync => (Err EFile, mkDir (d_marker d) (Some (marshal q)))
               | _ => (Ok tt, mkDir (d_marker d) (Some (marshal q)))
               end
      end
  end.

Definition WriteRecoveryQuarantineForOperation (d : Dir) (operationID : string) (generation : Z) (f : io)
    : result LifecycleError unit * Dir :=
  writeRecoveryQuarantineUnlocked d (mkQuarantine operationID generation) f.

Definition WriteRecoveryQuarantine (d : Dir) (f : io) : result LifecycleError unit * Dir :=
  WriteRecoveryQuarantineForOperation d "legacy" 1 f.

(** The next generation is a [uint64] addition. *)
Definition WriteNextRecoveryQuarantineForOperation (d : Dir) (operationID : string) (f : io)
    : result LifecycleError RecoveryQuarantine * Dir :=
  match loadRecoveryQuarantineUnlocked d f with
  | Err e => (Err e, d)
  | Ok current =>
      let generation := match current with Some c => (rq_Generation c + 1) mod 2 ^ 64 | None => 1 end in
      let q := mkQuarantine operationID generation in
      match writeRecoveryQuarantineUnlocked d q f with
      | (Ok _, d') => (Ok q, d')
      | (Err e, d') => (Err e, d')
      end
  end.

(** Remove the quarantine file. *)
Definition remove_quarantine (d : Dir) (f : io) : result LifecycleError unit * Dir :=
  match f with
  | IoWrite => (Err EFile, d)
  | IoSync => (Err EFile, mkDir (d_marker d) None)
  | _ => (Ok tt, mkDir (d_marker d) None)
  end.

Definition ClearRecoveryQuarantine (d : Dir) (f : io) : result LifecycleError unit * Dir :=
  match loadRecoveryQuarantineUnlocked d f with
  | Err e => (Err e, d)
  | Ok None => (Ok tt, d)
  | Ok (Some q) =>
      if negb (String.eqb (rq_OperationID q) "legacy") || negb (rq_Generation q =? 1) then (Err ErrRecoveryOperationMismatch, d)
      else remove_quarantine d f
  end.

Definition ClearRecoveryQuarantineForOperation (d : Dir) (operationID : string) (generation : Z) (f : io)
    : result LifecycleError unit * Dir :=
  if String.eqb operationID "" || (generation =? 0) then (Err ErrRecoveryOperationMismatch, d)
  else match loadRecoveryQuarantineUnlocked d f with
  | Err e => (Err e, d)
  | Ok None => (Ok tt, d)
  | Ok (Some q) =>
      if negb (String.eqb (rq_OperationID q) operationID) || negb (rq_Generation q =? generation)
      then (Err ErrRecoveryOperationMismatch, d)
      else match loadMarkerUnlocked d f with
      | Err e => (Err e, d)
      | Ok marker =>
          if String.eqb marker MarkerDecommissioned then (Err ErrQuarantineOverTerminal, d) else remove_quarantine d f
      end
  end.

(** ** [RecoveryDeferred] *)

Inductive DeferRecoveryReason : Type := RecoveryAllowed | DeferredByTerminalMarker | DeferredByRecoveryQuarantine.

(** The result is (deferred, reason, whether an error is reported). *)
Definition RecoveryDeferred (d : Dir) (marker : string) (f : io) : bool * DeferRecoveryReason * bool :=
  if negb (String.eqb marker MarkerActive) then (true, DeferredByTerminalMarker, false)
  else match LoadRecoveryQuarantine d f with
  | Err _ => (true, DeferredByRecoveryQuarantine, true)
  | Ok true => (true, DeferredByRecoveryQuarantine, false)
  | Ok false => (false, RecoveryAllowed, false)
  end.

(** ** Sequences of lifecycle operations *)

Inductive dcmd : Type :=
  | DMarker (state : string)
  | DQuarantine (operation : string) (generation : Z)
  | DNextQuarantine (operation : string)
  | DClearLegacy
  | DClear (operation : string) (generation : Z).

Definition dexec (c : dcmd) (f : io) (d : Dir) : Dir :=
  match c with
  | DMarker st => (WriteMarker d st f).2
  | DQuarantine op g => (WriteRecoveryQuarantineForOperation d op g f).2
  | DNextQuarantine op => (WriteNextRecoveryQuarantineForOperation d op f).2
  | DClearLegacy => (ClearRecoveryQuarantine d f).2
  | DClear op g => (ClearRecoveryQuarantineForOperation d op g f).2
  end.

Definition drun (cs : list (dcmd * io)) (d : Dir) : Dir := foldl (λ d '(c, f), dexec c f d) d cs.
End Recovery.

(** ** Properties of the latch *)

Inductive latch_op : Type := LoEngage | LoRegister (name : string) | LoUnregister (name : string).

Definition latch_step (l : Latch) (o : latch_op) : Latch :=
  match o with
  | LoEngage => (TryEngage l).2
  | LoRegister n => (RegisterActor l n).2
  | LoUnregister n => UnregisterActor l n
  end.

Definition latch_run (l : Latch) (os : list latch_op) : Latch := foldl latch_step l os.

(** How many [TryEngage] calls of a trace returned true. *)
Fixpoint engagements (l : Latch) (os : list latch_op) : nat :=
  match os with
  | [] => O
  | o :: os' => (match o with LoEngage => if (TryEngage l).1 then 1 else 0 | _ => 0 end + engagements (latch_step l o) os')%nat
  end.

Lemma latch_step_engaged (l : Latch) (o : latch_op) :
  la_engaged l = true → la_engaged (latch_step l o) = true ∧ la_actors (latch_step l o) ⊆ la_actors l.
Proof.
  intros H. destruct o; cbn; unfold TryEngage, RegisterActor; rewrite ?H; cbn; split; try done; set_solver.
Qed.

(** The latch never reopens.  In any sequence of latch operations at most one
    [TryEngage] wins; and once the latch is engaged it stays engaged, every
    [RegisterActor] is refused and the set of running actors can only shrink. *)
Theorem latch_never_reopens (l : Latch) (os : list latch_op) :
  (engagements l os ≤ 1)%nat
  ∧ (la_engaged l = true →
     Engaged (latch_run l os) = true ∧ la_actors (latch_run l os) ⊆ la_actors l
     ∧ (ActiveCount (latch_run l os) ≤ ActiveCount l)%nat
     ∧ ∀ n, RegisterActor (latch_run l os) n = (Err ErrTerminalEngaged, latch_run l os)).
Proof.
  assert (Heng : ∀ l', la_engaged l' = true → la_engaged (latch_run l' os) = true ∧ la_actors (latch_run l' os) ⊆ la_actors l').
  { induction os as [|o os IH]; intros l' Hl; [done|]. destruct (latch_step_engaged l' o Hl) as [H1 H2].
    destruct (IH _ H1) as [? ?]. split; [done|]. change (latch_run l' (o :: os)) with (latch_run (latch_step l' o) os). set_solver. }
  split.
  - assert (Hz : ∀ os' l', la_engaged l' = true → engagements l' os' = O).
    { induction os' as [|o os' IH]; intros l' Hl; [done|]. cbn [engagements]. rewrite IH by by apply latch_step_engaged.
      destruct o; cbn; try done. unfold TryEngage. by rewrite Hl. }
    clear Heng. revert l. induction os as [|o os IH]; intros l; cbn [engagements]; [lia|].
    destruct o; cbn [latch_step]; try (cbn; apply IH). unfold TryEngage. destruct (la_engaged l) eqn:El; cbn.
    + rewrite Hz by done. lia.
    + rewrite Hz by done. lia.
  - intros Hl. destruct (Heng l Hl) as [H1 H2]. split_and!; [done|done|unfold ActiveCount; by apply subseteq_size|].
    intros n. unfold RegisterActor. by rewrite H1.
Qed.

(** ** Properties of the files *)

Section DirTheorems.
Context `{RowQ : !JsonRow RecoveryQuarantine} `{LawsQ : !JsonRowLaws RecoveryQuarantine quarantine_text}.

(** The position of a marker in the lifecycle; an unreadable file has none. *)
Definition marker_rank (d : Dir) : option nat :=
  match d_marker d with
  | None => Some 0%nat
  | Some m => if String.eqb m MarkerDecommissioning then Some 1%nat else if String.eqb m MarkerDecommissioned then Some 2%nat else None
  end.

Definition quarantine_of (d : Dir) : option RecoveryQuarantine :=
  match loadRecoveryQuarantineUnlocked d IoOk with Ok q => q | Err _ => None end.

Definition dcmd_text (c : dcmd) : Prop :=
  match c with DQuarantine op _ | DNextQuarantine op => text op = true | _ => True end.

Lemma load_marker_rank (d : Dir) (f : io) (m : string) :
  loadMarkerUnlocked d f = Ok m → marker_rank d = Some (if String.eqb m MarkerDecommissioning then 1 else if String.eqb m MarkerDecommissioned then 2 else 0)%nat.
Proof.
  unfold loadMarkerUnlocked, marker_rank. destruct (d_marker d) as [raw|]; [|by intros [= <-]].
  destruct (bool_decide _); [done|]. unfold validMarkerStates. destruct (String.eqb raw MarkerDecommissioning) eqn:E1; cbn.
  - intros [= <-]. by rewrite E1.
  - destruct (String.eqb raw MarkerDecommissioned) eqn:E2; cbn; [|done]. intros [= <-]. by rewrite E1, E2.
Qed.

Lemma write_marker_rank (d : Dir) (st : string) (f : io) (n : nat) :
  marker_rank d = Some n → ∃ n', marker_rank (WriteMarker d st f).2 = Some n' ∧ (n ≤ n')%nat.
Proof.
  intros Hn. unfold WriteMarker, writeMarkerUnlocked. destruct (validMarkerStates st) eqn:Ev; cbn; [|by exists n; split; [|lia]].
  destruct (loadMarkerUnlocked d f) as [m|e] eqn:El; [|by exists n; split; [|lia]].
  apply load_marker_rank in El. rewrite Hn in El. injection El as ->.
  destruct (String.eqb m MarkerDecommissioned && negb (String.eqb st MarkerDecommissioned)) eqn:Ef; [by eexists; split; [exact Hn|lia]|].
  destruct (String.eqb_spec m st) as [->|Hne]; [by eexists; split; [exact Hn|lia]|].
  assert (Hw : ∃ n', marker_rank (mkDir (Some st) (d_quarantine d)) = Some n' ∧
    ((if String.eqb m MarkerDecommissioning then 1 else if String.eqb m MarkerDecommissioned then 2 else 0) ≤ n')%nat).
  { unfold marker_rank. cbn. unfold validMarkerStates in Ev. destruct (String.eqb_spec st MarkerDecommissioning) as [->|].
    - exists 1%nat. split; [done|]. destruct (String.eqb_spec m MarkerDecommissioning); [lia|].
      destruct (String.eqb m MarkerDecommissioned); [done|lia].
    - destruct (String.eqb_spec st MarkerDecommissioned) as [->|]; [|done]. exists 2%nat. split; [done|].
      destruct (String.eqb m MarkerDecommissioning), (String.eqb m MarkerDecommissioned); lia. }
  destruct f; cbn; try exact Hw. by eexists; split; [exact Hn|lia].
Qed.

Lemma quarantine_ops_marker (c : dcmd) (f : io) (d : Dir) :
  (∀ st, c ≠ DMarker st) → d_marker (dexec c f d) = d_marker d.
Proof.
  intros Hc. destruct c; cbn; [by destruct (Hc state)| | | |];
    unfold WriteRecoveryQuarantineForOperation, WriteNextRecoveryQuarantineForOperation, writeRecoveryQuarantineUnlocked,
      ClearRecoveryQuarantine, ClearRecoveryQuarantineForOperation, remove_quarantine;
    repeat (case_match; cbn; try done); simplify_eq; cbn; done.
Qed.

Lemma dexec_rank (c : dcmd) (f : io) (d : Dir) (n : nat) :
  marker_rank d = Some n → ∃ n', marker_rank (dexec c f d) = Some n' ∧ (n ≤ n')%nat.
Proof.
  intros Hn. destruct c as [st| | | |]; [by apply write_marker_rank|..];
    (exists n; split; [|lia]; unfold marker_rank in *; by rewrite quarantine_ops_marker).
Qed.

(** The terminal marker is one-way.  Whatever marker and quarantine operations run, and
    however their file operations fail, a readable marker stays readable and never moves
    back from DECOMMISSIONING or DECOMMISSIONED; once DECOMMISSIONED it stays so, and then
    no quarantine is written and no operation-bound quarantine is cleared. *)
Theorem marker_is_one_way (cs : list (dcmd * io)) (d : Dir) (n : nat) :
  marker_rank d = Some n →
  ∃ n', marker_rank (drun cs d) = Some n' ∧ (n ≤ n')%nat
    ∧ (n = 2%nat → d_marker (drun cs d) = Some MarkerDecommissioned
       ∧ ∀ op g f, (∃ e, WriteRecoveryQuarantineForOperation (drun cs d) op g f = (Err e, drun cs d))
           ∧ (is_Some (d_quarantine (drun cs d)) → ∃ e, ClearRecoveryQuarantineForOperation (drun cs d) op g f = (Err e, drun cs d))).
Proof.
  intros Hn. assert (H : ∃ n', marker_rank (drun cs d) = Some n' ∧ (n ≤ n')%nat).
  { revert d n Hn. induction cs as [|[c f] cs IH]; intros d n Hn; [by exists n; split; [|lia]|].
    destruct (dexec_rank c f d n Hn) as (n1 & Hn1 & ?). destruct (IH _ _ Hn1) as (n2 & Hn2 & ?). exists n2. split; [done|lia]. }
  destruct H as (n' & Hn' & Hle). exists n'. split_and!; [done|done|]. intros ->.
  assert (Hm : d_marker (drun cs d) = Some MarkerDecommissioned).
  { unfold marker_rank in Hn'. destruct (d_marker _) as [m|]; [|injection Hn' as <-; lia].
    destruct (String.eqb m MarkerDecommissioning); [injection Hn' as <-; lia|]. destruct (String.eqb_spec m MarkerDecommissioned) as [Hx|]; [by rewrite Hx|done]. }
  split; [done|]. intros op g f.
  assert (Hl : loadMarkerUnlocked (drun cs d) f = Ok MarkerDecommissioned ∨ ∃ e, loadMarkerUnlocked (drun cs d) f = Err e).
  { unfold loadMarkerUnlocked. rewrite Hm. case_bool_decide; [right; by eexists|left; reflexivity]. }
  split.
  - unfold WriteRecoveryQuarantineForOperation, writeRecoveryQuarantineUnlocked. cbn [rq_OperationID rq_Generation].
    destruct (_ || _); [by eexists|]. destruct Hl as [-> |[e ->]]; by eexists.
  - intros [raw Hq]. unfold ClearRecoveryQuarantineForOperation. destruct (_ || _); [by eexists|].
    destruct (loadRecoveryQuarantineUnlocked _ f) as [[q|]|e] eqn:Eq; [|exfalso|by eexists].
    + destruct (_ || _); [by eexists|]. destruct Hl as [-> |[e ->]]; by eexists.
    + unfold loadRecoveryQuarantineUnlocked in Eq. rewrite Hq in Eq. destruct (bool_decide _); [done|].
      destruct (unmarshal raw) as [q|]; [|done]. destruct (_ =? 0); done.
Qed.

Lemma load_quarantine (d : Dir) (f : io) (r : option RecoveryQuarantine) :
  loadRecoveryQuarantineUnlocked d f = Ok r → r = quarantine_of d.
Proof.
  unfold quarantine_of, loadRecoveryQuarantineUnlocked. destruct (d_quarantine d) as [raw|]; [|by intros [= <-]].
  destruct (bool_decide (f = IoRead)); [done|]. cbn. destruct (unmarshal raw) as [q|]; [|done]. destruct (_ =? 0); [done|]. by intros [= <-].
Qed.

Lemma write_quarantine_step (d : Dir) (q q' : RecoveryQuarantine) (f : io) :
  quarantine_text q' = true → quarantine_of d = Some q →
  ∃ q2, quarantine_of (writeRecoveryQuarantineUnlocked d q' f).2 = Some q2 ∧ (q2 = q ∨ (q2 = q' ∧ rq_Generation q < rq_Generation q')).
Proof.
  intros Ht Hq. unfold writeRecoveryQuarantineUnlocked. destruct (_ || _) eqn:Eid; [by exists q; split; [|left]|].
  destruct (loadMarkerUnlocked d f) as [m|]; [|by exists q; split; [|left]]. destruct (String.eqb m _); [by exists q; split; [|left]|].
  destruct (loadRecoveryQuarantineUnlocked d f) as [c|] eqn:El; [|by exists q; split; [|left]]. apply load_quarantine in El. subst c. rewrite Hq.
  case_bool_decide as Heq; [by exists q; split; [|left]|]. destruct (rq_Generation q' <=? rq_Generation q) eqn:Eg; [by exists q; split; [|left]|].
  bool_prop. assert (Hw : quarantine_of (mkDir (d_marker d) (Some (marshal q'))) = Some q').
  { unfold quarantine_of, loadRecoveryQuarantineUnlocked. cbn. rewrite unmarshal_marshal by done. by rewrite (proj2 (Z.eqb_neq _ _)). }
  destruct f; cbn; try (exists q'; split; [done|by right]). by exists q; split; [|left].
Qed.

(** The recovery quarantine is lifted only by its own operation.  Across any single
    operation and any file failure, an existing quarantine either stays, or is replaced
    by one of a strictly higher generation, or is removed by a clear that names exactly
    its operation and generation (or by the legacy clear, of the legacy binding only);
    and while it stands, last-known-good recovery is deferred. *)
Theorem quarantine_lifted_by_owner (c : dcmd) (f : io) (d : Dir) (q : RecoveryQuarantine) :
  dcmd_text c → quarantine_of d = Some q →
  ((∃ q', quarantine_of (dexec c f d) = Some q' ∧ (q' = q ∨ rq_Generation q < rq_Generation q')
     ∧ ∀ marker f', (RecoveryDeferred (dexec c f d) marker f').1.1 = true)
   ∨ (d_quarantine (dexec c f d) = None
      ∧ (c = DClear (rq_OperationID q) (rq_Generation q) ∨ (c = DClearLegacy ∧ q = mkQuarantine "legacy" 1)))).
Proof.
  intros Ht Hq.
  assert (Hdef : ∀ d' q', quarantine_of d' = Some q' → ∀ marker f', (RecoveryDeferred d' marker f').1.1 = true).
  { intros d' q' Hq' marker f'. unfold RecoveryDeferred, LoadRecoveryQuarantine, LoadRecoveryQuarantineBinding.
    destruct (negb _); [done|]. destruct (loadRecoveryQuarantineUnlocked d' f') as [r|] eqn:E; [|done].
    apply load_quarantine in E. rewrite Hq' in E. by subst r. }
  assert (Hstay : ∃ q', quarantine_of d = Some q' ∧ (q' = q ∨ rq_Generation q < rq_Generation q')
    ∧ ∀ marker f', (RecoveryDeferred d marker f').1.1 = true) by (exists q; split_and!; [done|by left|by eapply Hdef]).
  assert (Hrm : ∀ d', d' = (remove_quarantine d f).2 → d' = d ∨ d_quarantine d' = None) by (intros d' ->; destruct f; cbn; auto).
  destruct c as [st|op g|op| |op g]; cbn [dexec dcmd_text] in *.
  - left. assert (Hs : quarantine_of (WriteMarker d st f).2 = Some q).
    { assert (Hd : d_quarantine (WriteMarker d st f).2 = d_quarantine d)
        by (unfold WriteMarker, writeMarkerUnlocked; repeat (case_match; cbn; try done)).
      rewrite <- Hq. unfold quarantine_of, loadRecoveryQuarantineUnlocked. by rewrite Hd. }
    exists q. split_and!; [done|by left|by eapply Hdef].
  - left. destruct (write_quarantine_step d q (mkQuarantine op g) f Ht Hq) as (q2 & Hq2 & Hor). exists q2.
    split_and!; [done|destruct Hor as [->|[-> ?]]; auto|by eapply Hdef].
  - left. unfold WriteNextRecoveryQuarantineForOperation. destruct (loadRecoveryQuarantineUnlocked d f) as [r|] eqn:E.
    + apply load_quarantine in E. subst r. rewrite Hq. set (q1 := mkQuarantine op _).
      destruct (write_quarantine_step d q q1 f Ht Hq) as (q2 & Hq2 & Hor). exists q2.
      destruct (writeRecoveryQuarantineUnlocked d q1 f) as [[]?]; cbn in *;
        (split_and!; [done|destruct Hor as [->|[-> ?]]; auto|by eapply Hdef]).
    + exact Hstay.
  - unfold ClearRecoveryQuarantine. destruct (loadRecoveryQuarantineUnlocked d f) as [r|] eqn:E;
      [|by left; apply Hstay].
    apply load_quarantine in E. subst r. rewrite Hq. destruct (_ || _) eqn:Eb; [by left; apply Hstay|].
    bool_prop. destruct (Hrm _ eq_refl) as [->|Hn]; [by left; apply Hstay|].
    right. split; [done|]. right. split; [done|]. destruct q. cbn in *. by subst.
  - unfold ClearRecoveryQuarantineForOperation. destruct (_ || _); [by left; apply Hstay|].
    destruct (loadRecoveryQuarantineUnlocked d f) as [r|] eqn:E; [|by left; apply Hstay].
    apply load_quarantine in E. subst r. rewrite Hq. destruct (_ || _) eqn:Eb; [by left; apply Hstay|].
    destruct (loadMarkerUnlocked d f) as [mk|]; [|by left; apply Hstay].
    destruct (String.eqb mk MarkerDecommissioned); [by left; apply Hstay|].
    bool_prop. destruct (Hrm _ eq_refl) as [->|Hn]; [by left; apply Hstay|].
    right. split; [done|]. left. by subst.
Qed.
End DirTheorems.

(** ** Witnesses *)

#[export] Instance RecoveryQuarantine_countable : Countable RecoveryQuarantine :=
  inj_countable' (λ q, (rq_OperationID q, rq_Generation q)) (λ '(a, b), mkQuarantine a b) ltac:(by intros []).

Definition w_quarantine_row : JsonRow RecoveryQuarantine := countable_row quarantine_text.
#[export] Existing Instance w_quarantine_row.
#[export] Instance w_quarantine_laws : JsonRowLaws RecoveryQuarantine quarantine_text := countable_row_laws quarantine_text.

Lemma latch_never_reopens_witness :
  RegisterActor (latch_run NewLatch [LoRegister "a"; LoEngage; LoUnregister "a"]) "b"
  = (Err ErrTerminalEngaged, latch_run NewLatch [LoRegister "a"; LoEngage; LoUnregister "a"]).
Proof.
  refine (proj2 (proj2 (proj2 (proj2 (latch_never_reopens (latch_run NewLatch [LoRegister "a"; LoEngage]) [LoUnregister "a"]) _))) "b"%string).
  vm_compute. reflexivity.
Defined.

Definition w_dir : Dir := drun [(DQuarantine "op" 4, IoOk); (DMarker MarkerDecommissioned, IoSync)] (mkDir None None).

Lemma marker_is_one_way_witness :
  ∃ n', marker_rank (drun [(DMarker MarkerDecommissioning, IoOk); (DClear "op" 4, IoOk)] w_dir) = Some n' ∧ (2 ≤ n')%nat.
Proof.
  destruct (marker_is_one_way [(DMarker MarkerDecommissioning, IoOk); (DClear "op" 4, IoOk)] w_dir 2) as (n' & H1 & H2 & _).
  - vm_compute. reflexivity.
  - exists n'. exact (conj H1 H2).
Defined.

Lemma quarantine_lifted_by_owner_witness :
  (∃ q', quarantine_of (dexec (DClear "other" 4) IoOk w_dir) = Some q'
     ∧ (q' = mkQuarantine "op" 4 ∨ rq_Generation (mkQuarantine "op" 4) < rq_Generation q')
     ∧ ∀ marker f', (RecoveryDeferred (dexec (DClear "other" 4) IoOk w_dir) marker f').1.1 = true)
  ∨ (d_quarantine (dexec (DClear "other" 4) IoOk w_dir) = None
     ∧ (DClear "other" 4 = DClear "op" 4 ∨ (DClear "other" 4 = DClearLegacy ∧ mkQuarantine "op" 4 = mkQuarantine "legacy" 1))).
Proof.
  refine (quarantine_lifted_by_owner (DClear "other" 4) IoOk w_dir (mkQuarantine "op" 4) I _). vm_compute. reflexivity.
Defined.
