(* ===== verification/Decommission.v ===== *)
(** * Node decommission

    [src/internal/agent/localstate/decommission.go] and [uninstall.go] (the durable rows),
    [src/internal/agent/reconcile/decommission.go] (the [Decommissioner]) and
    [handleDecommission] of [src/internal/agent/app.go].  The agent is its store, its
    state directory and its latch; the durable writes of an operation happen one after
    the other, and the process may stop before any of them: [ag_writes] is the number
    of durable writes that still take place. *)

From Stdlib Require Import ZArith Lia Strings.Byte.
From stdpp Require Import base tactics list sets strings option gmap countable relations.
From S2P Require Import Prelude GoStd Domain Frame Bolt Journal Applied Lifecycle.

Open Scope Z_scope.

(** ** Rows *)

Record DecommissionIntent : Type := mkDecommissionIntent {
  di_OperationID : string;
  di_NodeID : string;
  di_Force : bool;
  di_DeadlineUnix : Z;
  di_AllowedKeyHashes : list string;
  di_CredentialVersions : list Z;
  di_CreatedAtUnix : Z
}.

Record AgentCleanupTombstone : Type := mkCleanupTombstone {
  ct_OperationID : string;
  ct_NodeID : string;
  ct_Force : bool;
  ct_AllowedKeyHashes : list string;
  ct_CredentialVersions : list Z;
  ct_CreatedAtUnix : Z
}.

Record UninstallNotice : Type := mkNotice {
  un_OperationID : string;
  un_Connectivity : bool;
  un_QueuedAtUnix : Z;
  un_Status : string
}.

Record DecommissionAck : Type := mkAck { da_NodeID : string; da_OperationID : string; da_Status : string; da_Force : bool }.

Class DecommissionEnv := {
  #[global] dc_intent :: JsonRow DecommissionIntent;
  #[global] dc_tombstone :: JsonRow AgentCleanupTombstone;
  #[global] dc_notice :: JsonRow UninstallNotice;
  ack_json : DecommissionAck → bytes          (* [json.Marshal] of the ACK *)
}.

Definition decommission_text (i : DecommissionIntent) : bool :=
  forallb text [di_OperationID i; di_NodeID i] && forallb text (di_AllowedKeyHashes i).
Definition cleanup_text (t : AgentCleanupTombstone) : bool :=
  forallb text [ct_OperationID t; ct_NodeID t] && forallb text (ct_AllowedKeyHashes t).

Class DecommissionLaws `{DecommissionEnv} : Prop := {
  #[global] dl_intent :: JsonRowLaws DecommissionIntent decommission_text;
  #[global] dl_tombstone :: JsonRowLaws AgentCleanupTombstone cleanup_text
}.

Definition keyDecommissionIntent : string := "decommission-intent:".
Definition keyCleanupTombstone : string := "cleanup-tombstone:".
Definition keyDecommissionIntentCanonical : string := "decommission-intent:current".
Definition keyCleanupTombstoneCanonical : string := "cleanup-tombstone:current".
Definition keyUninstallNotice : string := "uninstall-notice:".

Definition decommission_key (operationID : string) : string := String.append keyDecommissionIntent operationID.
Definition cleanup_key (operationID : string) : string := String.append keyCleanupTombstone operationID.
Definition notice_key (operationID : string) : string := String.append keyUninstallNotice operationID.
#[global] Arguments decommission_key : simpl never.
#[global] Arguments cleanup_key : simpl never.

Section Rows.
Context {B : Type} `{!Bolt B} `{!JournalEnv} `{!AppliedEnv} `{!DecommissionEnv}.
Implicit Types s : Store B.

(** The rows of a prefix other than its canonical one, in [ForEach] order. *)
Definition legacy_rows (prefix canonical : string) (l : list (string * bytes)) : list (string * bytes) :=
  List.filter (λ '(k, _), String.prefix prefix k && negb (String.eqb k canonical)) l.

(** The last decoded row, as the [legacy] pointer of the migration scan. *)
Fixpoint last_row {A} `{!JsonRow A} (found : option A) (l : list (string * bytes)) : result LsError (option A) :=
  match l with
  | [] => Ok found
  | (_, raw) :: l' => match unmarshal raw with Some a => last_row (Some a) l' | None => Err EDecode end
  end.

(** The only row; a second one is an error. *)
Fixpoint only_row {A} `{!JsonRow A} (found : option A) (l : list (string * bytes)) : result LsError (option A) :=
  match l with
  | [] => Ok found
  | (_, raw) :: l' =>
      match found with
      | Some _ => Err EMultipleDesired
      | None => match unmarshal raw with Some a => only_row (Some a) l' | None => Err EDecode end
      end
  end.

Definition same_decommission (old : DecommissionIntent) (operationID nodeID : string) : bool :=
  String.eqb (di_OperationID old) operationID && String.eqb (di_NodeID old) nodeID.
Definition same_cleanup (old : AgentCleanupTombstone) (operationID nodeID : string) : bool :=
  String.eqb (ct_OperationID old) operationID && String.eqb (ct_NodeID old) nodeID.

Definition PutDecommissionIntent (intent : DecommissionIntent) : tx B bool :=
  tx_fail_if String.eqb (di_OperationID intent) "" || String.eqb (di_NodeID intent) "" with EIdentityRequired ;;
  let! existing := get Operations keyDecommissionIntentCanonical in
  match existing with
  | Some raw =>
      match unmarshal raw with
      | None => tx_fail EDecode
      | Some old =>
          tx_fail_if negb (same_decommission old (di_OperationID intent) (di_NodeID intent)) with ErrDecommissionConflict ;;
          tx_ret false
      end
  | None =>
      let! rows := entries Operations in
      let! legacy := tx_of (last_row None (legacy_rows keyDecommissionIntent keyDecommissionIntentCanonical rows)) in
      tx_fail_if (match legacy with
         | Some old => negb (same_decommission old (di_OperationID intent) (di_NodeID intent))
         | None => false
         end) with ErrDecommissionConflict ;;
      let! _ := put Operations keyDecommissionIntentCanonical (marshal intent) in
      let! _ := put Operations (decommission_key (di_OperationID intent)) (marshal intent) in
      tx_ret true
  end.

Definition LoadDecommissionIntent s : result LsError (option DecommissionIntent) :=
  only_row None (legacy_rows keyDecommissionIntent keyDecommissionIntentCanonical (bentries (s_operations s))).

Definition WriteAgentCleanupTombstone (ts : AgentCleanupTombstone) : tx B unit :=
  tx_fail_if String.eqb (ct_OperationID ts) "" || String.eqb (ct_NodeID ts) "" with EIdentityRequired ;;
  let! existing := get Operations keyCleanupTombstoneCanonical in
  match existing with
  | Some raw =>
      match unmarshal raw with
      | None => tx_fail EDecode
      | Some old =>
          tx_fail_if negb (same_cleanup old (ct_OperationID ts) (ct_NodeID ts)) with ErrDecommissionConflict ;;
          tx_ret tt
      end
  | None =>
      let! rows := entries Operations in
      let! legacy := tx_of (last_row None (legacy_rows keyCleanupTombstone keyCleanupTombstoneCanonical rows)) in
      tx_fail_if (match legacy with
         | Some old => negb (same_cleanup old (ct_OperationID ts) (ct_NodeID ts))
         | None => false
         end) with ErrDecommissionConflict ;;
      let! _ := put Operations keyCleanupTombstoneCanonical (marshal ts) in
      put Operations (cleanup_key (ct_OperationID ts)) (marshal ts)
  end.

Definition LoadAgentCleanupTombstone s : result LsError (option AgentCleanupTombstone) :=
  only_row None (legacy_rows keyCleanupTombstone keyCleanupTombstoneCanonical (bentries (s_operations s))).

Definition CleanupTombstoneAllowedKeyHashes s : result LsError (option (list string)) :=
  let* ts := LoadAgentCleanupTombstone s in Ok (ct_AllowedKeyHashes <$> ts).

Definition RecordUninstallNotice (notice : UninstallNotice) : tx B unit :=
  tx_fail_if String.eqb (un_OperationID notice) "" with EIdentityRequired ;;
  let status := (if un_Connectivity notice then "QUEUED" else "UNKNOWN")%string in
  put Operations (notice_key (un_OperationID notice))
    (marshal (mkNotice (un_OperationID notice) (un_Connectivity notice) (un_QueuedAtUnix notice) status)).

Definition UninstallNoticeStatus s (operationID : string) : result LsError (option UninstallNotice) :=
  match bget (s_operations s) (notice_key operationID) with
  | None => Ok None
  | Some raw => match unmarshal raw with Some n => Ok (Some n) | None => Err EDecode end
  end.
End Rows.

(** ** The agent and its durable writes *)

Record Agent (B : Type) : Type := mkAgent { ag_store : Store B; ag_dir : Dir; ag_latch : Latch; ag_writes : nat }.
Arguments mkAgent {B}.
Arguments ag_store {B}.
Arguments ag_dir {B}.
Arguments ag_latch {B}.
Arguments ag_writes {B}.

Inductive DmError : Type :=
  | DmStore (e : LsError) | DmFile (e : LifecycleError) | ErrDecommissionedAgent | EDmIdentity | ELatchEngaged
  | EMarkerState | EStopAll | EClean | EStopped.

(** An operation keeps the effects made before it fails. *)
Definition dm (B A : Type) : Type := Agent B → result DmError A * Agent B.

Definition dm_ret {B A} (a : A) : dm B A := λ g, (Ok a, g).
Definition dm_fail {B A} (e : DmError) : dm B A := λ g, (Err e, g).
Definition dm_bind {B A C} (m : dm B A) (k : A → dm B C) : dm B C :=
  λ g, match m g with (Ok a, g') => k a g' | (Err e, g') => (Err e, g') end.

Notation "'do!' x ':=' c 'in' k" := (dm_bind c (λ x, k)) (at level 10, x pattern, k at level 200) : go_scope.
Notation "'dm_fail_if' b 'with' e ';;' k" := (if b then dm_fail e else k)
  (at level 10, b at level 99, e at level 99, k at level 200) : go_scope.

(** A durable write, unless the process stops before it. *)
Definition dm_write {B A} (m : dm B A) : dm B A := λ g,
  match ag_writes g with
  | O => (Err EStopped, g)
  | S n => m (mkAgent (ag_store g) (ag_dir g) (ag_latch g) n)
  end.

Definition dm_tx {B A} (m : tx B A) : dm B A := dm_write (λ g,
  match Update m (ag_store g) with
  | (Ok a, s') => (Ok a, mkAgent s' (ag_dir g) (ag_latch g) (ag_writes g))
  | (Err e, _) => (Err (DmStore e), g)
  end).

Definition dm_view {B A} (r : Store B → result LsError A) : dm B A := λ g,
  match r (ag_store g) with Ok a => (Ok a, g) | Err e => (Err (DmStore e), g) end.

Definition dm_marker {B} (f : io) : dm B string := λ g,
  match LoadMarker (ag_dir g) f with Ok m => (Ok m, g) | Err e => (Err (DmFile e), g) end.

Definition dm_write_marker {B} (state : string) (f : io) : dm B unit := dm_write (λ g,
  let '(r, d) := WriteMarker (ag_dir g) state f in
  (match r with Ok _ => Ok tt | Err e => Err (DmFile e) end, mkAgent (ag_store g) d (ag_latch g) (ag_writes g))).

Definition dm_engage {B} : dm B bool := λ g,
  let '(b, l) := TryEngage (ag_latch g) in (Ok b, mkAgent (ag_store g) (ag_dir g) l (ag_writes g)).

(** ** The Decommissioner *)

Record DecommissionRequest : Type := mkRequest {
  rq_NodeID : string;
  rq_Operation : string;
  rq_Force : bool;
  rq_DeadlineUnix : Z;
  rq_AllowedKeyHashes : list string;
  rq_CredentialVersions : list Z
}.

(** What the environment does: the clock, the file system, the stop hook and the
    secret cleaners. *)
Record world : Type := mkWorld { w_now : Z; w_io : io; w_stop : bool; w_cleans : list bool }.

Record DecommissionDeadlineResult : Type := mkDeadline { dd_Dropped : bool; dd_Status : string }.

Section Decommissioner.
Context {B : Type} `{!Bolt B} `{!JournalEnv} `{!AppliedEnv} `{!DecommissionEnv}.

Definition intent_of (req : DecommissionRequest) (now : Z) : DecommissionIntent :=
  mkDecommissionIntent (rq_Operation req) (rq_NodeID req) (rq_Force req) (rq_DeadlineUnix req) (rq_AllowedKeyHashes req)
    (rq_CredentialVersions req) now.
Definition tombstone_of (req : DecommissionRequest) (now : Z) : AgentCleanupTombstone :=
  mkCleanupTombstone (rq_Operation req) (rq_NodeID req) (rq_Force req) (rq_AllowedKeyHashes req) (rq_CredentialVersions req) now.

Definition Begin (w : world) (req : DecommissionRequest) : dm B unit :=
  dm_fail_if String.eqb (rq_Operation req) "" || String.eqb (rq_NodeID req) "" with EDmIdentity ;;
  do! marker := dm_marker (w_io w) in
  do! _ :=
    (if String.eqb marker MarkerDecommissioned then dm_fail ErrDecommissionedAgent
     else if String.eqb marker MarkerDecommissioning then dm_ret tt
     else do! won := dm_engage in if won : bool then dm_ret tt else dm_fail ELatchEngaged) in
  do! _ := dm_tx (PutDecommissionIntent (intent_of req (w_now w))) in
  dm_write_marker MarkerDecommissioning (w_io w).

Definition StopAll (w : world) : dm B unit := if w_stop w then dm_ret tt else dm_fail EStopAll.

Definition requireIntent (req : DecommissionRequest) : dm B unit :=
  do! intent := dm_view LoadDecommissionIntent in
  match intent with
  | None => dm_fail ErrDecommissionedAgent
  | Some i =>
      dm_fail_if negb (String.eqb (di_OperationID i) (rq_Operation req)) || negb (String.eqb (di_NodeID i) (rq_NodeID req))
        || negb (Bool.eqb (di_Force i) (rq_Force req)) || negb (di_DeadlineUnix i =? rq_DeadlineUnix req)
        || negb (bool_decide (di_AllowedKeyHashes i = rq_AllowedKeyHashes req))
        || negb (bool_decide (di_CredentialVersions i = rq_CredentialVersions req)) with ErrDecommissionedAgent ;;
      dm_ret tt
  end.

(** The check that the terminal state belongs to this operation. *)
Definition own_tombstone (req : DecommissionRequest) : dm B unit :=
  do! ts := dm_view LoadAgentCleanupTombstone in
  match ts with
  | Some t => dm_fail_if negb (same_cleanup t (rq_Operation req) (rq_NodeID req)) with ErrDecommissionedAgent ;; dm_ret tt
  | None => dm_fail ErrDecommissionedAgent
  end.

Fixpoint run_cleans (l : list bool) : dm B unit :=
  match l with
  | [] => dm_ret tt
  | ok :: l' => if ok : bool then run_cleans l' else dm_fail EClean
  end.

Definition Complete (w : world) (req : DecommissionRequest) : dm B unit :=
  do! _ := requireIntent req in
  do! marker := dm_marker (w_io w) in
  if String.eqb marker MarkerDecommissioned then own_tombstone req
  else
    dm_fail_if negb (String.eqb marker MarkerDecommissioning) with EMarkerState ;;
    do! _ := dm_tx ClearForwardStateForDecommission in
    do! _ := run_cleans (w_cleans w) in
    do! _ := dm_tx (WriteAgentCleanupTombstone (tombstone_of req (w_now w))) in
    dm_write_marker MarkerDecommissioned (w_io w).

(** The session of the terminal ACK is the store's current one. *)
Definition queueResult (operationID : string) (payload : bytes) : dm B unit := λ g,
  let '(epoch, session) := CurrentSession (ag_store g) in
  (if (epoch =? 0) || String.eqb session "" then dm_tx (QueueResultSessionIndependent operationID payload)
   else dm_tx (QueueResult epoch session operationID payload)) g.

Definition ack_of (req : DecommissionRequest) (status : string) : bytes :=
  ack_json (mkAck (rq_NodeID req) (rq_Operation req) status (rq_Force req)).

Definition queueAckWithStatus (w : world) (req : DecommissionRequest) (status : string) : dm B unit :=
  do! _ := requireIntent req in
  do! marker := dm_marker (w_io w) in
  dm_fail_if negb (String.eqb marker MarkerDecommissioned) with EMarkerState ;;
  do! _ := own_tombstone req in
  queueResult (rq_Operation req) (ack_of req status).

Definition DECOMMISSIONED_status : string := "DECOMMISSIONED".
Definition DROPPED_status : string := "DROPPED_DUE_TO_DECOMMISSION".

Definition QueueAck (w : world) (req : DecommissionRequest) : dm B unit := queueAckWithStatus w req DECOMMISSIONED_status.

Definition ReconcileDeadline (w : world) (req : DecommissionRequest) : dm B DecommissionDeadlineResult :=
  do! marker := dm_marker (w_io w) in
  do! _ := requireIntent req in
  if String.eqb marker MarkerDecommissioned then
    do! _ := queueAckWithStatus w req DROPPED_status in
    dm_ret (mkDeadline false DECOMMISSIONED_status)
  else
    let sooner := if rq_DeadlineUnix req =? 0 then w_now w + 1 else rq_DeadlineUnix req in
    if w_now w <? sooner then dm_ret (mkDeadline false MarkerDecommissioning)
    else
      do! _ := dm_tx ClearForwardStateForDecommission in
      do! _ := dm_tx (WriteAgentCleanupTombstone (tombstone_of req (w_now w))) in
      do! _ := dm_write_marker MarkerDecommissioned (w_io w) in
      do! _ := queueResult (rq_Operation req) (ack_of req DROPPED_status) in
      dm_ret (mkDeadline true DROPPED_status).

(** The request of a decoded command: the deletion operation and the node default to
    the command's own operation and the agent's configured node. *)
Definition decommission_request (cfgNodeID opID nodeID deletionOperationID : string) (force : bool) (deadline : Z)
    (hashes : list string) (versions : list Z) : DecommissionRequest :=
  mkRequest (if String.eqb nodeID "" then cfgNodeID else nodeID)
    (if String.eqb deletionOperationID "" then opID else deletionOperationID) force deadline hashes versions.

(** [handleDecommission] from the decoded request on. *)
Definition handleDecommission (w : world) (req : DecommissionRequest) : dm B unit :=
  do! marker := dm_marker (w_io w) in
  if String.eqb marker MarkerDecommissioned then QueueAck w req
  else
    do! _ := Begin w req in
    do! deadline := ReconcileDeadline w req in
    do! _ :=
      (if dd_Dropped deadline then dm_ret tt
       else if w_stop w then Complete w req else dm_fail EStopAll) in
    QueueAck w req.

(** A restart: the latch is fresh, engaged at once unless the marker is ACTIVE
    ([New] of app.go); an unreadable marker refuses to start. *)
Definition restart (f : io) (writes : nat) (g : Agent B) : result DmError unit * Agent B :=
  match LoadMarker (ag_dir g) f with
  | Err e => (Err (DmFile e), mkAgent (ag_store g) (ag_dir g) (ag_latch g) writes)
  | Ok marker =>
      (Ok tt, mkAgent (ag_store g) (ag_dir g)
                (if String.eqb marker MarkerActive then NewLatch else (TryEngage NewLatch).2) writes)
  end.
End Decommissioner.
