(* ===== verification/DecommissionProps.v ===== *)
(** * Crash safety of node decommission

    Whatever the point at which the process stops, and however files fail, the durable
    state stays one from which re-issuing the same decommission completes it. *)

From Stdlib Require Import ZArith Lia Strings.Byte.
From stdpp Require Import base tactics list sets strings option gmap countable relations.
From S2P Require Import Prelude GoStd Domain Frame Probe Bolt Journal JournalProofs JournalProps Applied AppliedProofs ProbeRows.
From S2P Require Import LocalStore LocalWitness AppliedProps Lifecycle Decommission.

Open Scope Z_scope.

(** ** Rows under a prefix *)

Lemma filter_single {A} (p : A → bool) (l : list A) (x : A) :
  NoDup l → (∀ y, y ∈ l → p y = true → y = x) → x ∈ l → p x = true → List.filter p l = [x].
Proof.
  induction l as [|a l IH]; intros Hd Hall Hx Hp; [by apply elem_of_nil in Hx|]. apply NoDup_cons in Hd as [Ha Hd]. cbn.
  apply elem_of_cons in Hx as [->|Hx].
  - rewrite Hp. f_equal. destruct (List.filter p l) as [|y l'] eqn:E; [done|]. exfalso. apply Ha.
    assert (In y (List.filter p l)) as [Hy Hpy]%List.filter_In by (rewrite E; by left).
    apply list_elem_of_In in Hy. rewrite <- (Hall y); [done|by right|done].
  - destruct (p a) eqn:Epa; [|apply IH; auto; intros y Hy; apply Hall; by right].
    exfalso. apply Ha. by rewrite (Hall a) by (left || done).
Qed.

Lemma filter_nothing {A} (p : A → bool) (l : list A) : (∀ y, y ∈ l → p y = false) → List.filter p l = [].
Proof.
  induction l as [|a l IH]; intros H; [done|]. cbn. rewrite (H a) by left. apply IH. intros y Hy. apply H. by right.
Qed.

Section DecommissionTheorems.
Context {B : Type} `{BoltB : !Bolt B} `{LawsB : !BoltLaws B} `{EnvB : !JournalEnv} `{AEnv : !AppliedEnv}
  `{DEnv : !DecommissionEnv} `{DL : !DecommissionLaws}.
Implicit Types s : Store B.
Implicit Types g : Agent B.

(** The rows under [prefix] are none, or the canonical one and the one under [key]. *)
Definition rows_are (prefix canonical key : string) (o : option bytes) s : Prop :=
  ∀ k, String.prefix prefix k = true →
    bget (s_operations s) k = if decide (k = canonical ∨ k = key) then o else None.

Lemma legacy_rows_none (prefix canonical key : string) s :
  rows_are prefix canonical key None s → legacy_rows prefix canonical (bentries (s_operations s)) = [].
Proof.
  intros H. apply filter_nothing. intros [k v] Hin. apply bentries_spec in Hin. destruct (String.prefix prefix k) eqn:E; [|done].
  rewrite (H k E) in Hin. by destruct (decide _).
Qed.

Lemma bentries_nodup_pairs (b : B) : NoDup (bentries b).
Proof. eapply NoDup_fmap_1, bentries_nodup. Qed.

Lemma legacy_rows_some (prefix canonical key : string) (raw : bytes) s :
  String.prefix prefix key = true → key ≠ canonical → rows_are prefix canonical key (Some raw) s →
  legacy_rows prefix canonical (bentries (s_operations s)) = [(key, raw)].
Proof.
  intros Hp Hne H. apply filter_single; [apply bentries_nodup_pairs| | |].
  - intros [k v] Hin%bentries_spec Hf. bool_prop. rewrite (H k) in Hin by done. destruct (decide _) as [[?| ->]|?]; [done| |done].
    by injection Hin as <-.
  - apply bentries_spec. rewrite (H key Hp). by rewrite decide_True by auto.
  - rewrite Hp. cbn. by rewrite (proj2 (String.eqb_neq _ _) Hne).
Qed.

Lemma rows_are_put (prefix canonical key : string) (raw : bytes) (o : option bytes) s u1 s1 u2 s2 :
  rows_are prefix canonical key o s →
  put Operations canonical raw s = Ok (u1, s1) → put Operations key raw s1 = Ok (u2, s2) →
  rows_are prefix canonical key (Some raw) s2.
Proof.
  intros H (b1 & Hb1 & ->)%put_Ok (b2 & Hb2 & ->)%put_Ok k Hk. cbn in *. rewrite (bget_bput _ _ _ _ Hb2), (bget_bput _ _ _ _ Hb1), (H k Hk).
  destruct (decide (k = key)), (decide (k = canonical)), (decide (k = canonical ∨ k = key)); naive_solver.
Qed.

(** Puts under another prefix, or outside it, keep the rows. *)
Lemma rows_are_other (prefix canonical key k : string) (raw : bytes) (o : option bytes) s u s' :
  rows_are prefix canonical key o s → String.prefix prefix k = false → put Operations k raw s = Ok (u, s') → rows_are prefix canonical key o s'.
Proof.
  intros H Hn (b' & Hb & ->)%put_Ok k' Hk'. cbn in *. assert (Hne : k' ≠ k) by congruence. rewrite (bget_bput_ne _ _ _ _ _ Hne Hb). by apply H.
Qed.

Lemma rows_are_frame (prefix canonical key : string) (o : option bytes) s s' :
  s_operations s' = s_operations s → rows_are prefix canonical key o s → rows_are prefix canonical key o s'.
Proof. intros Hs H k Hk. rewrite Hs. by apply H. Qed.

(** ** The durable state of one decommission *)

Section Request.
Context (req : DecommissionRequest) (times : list Z).
Abbreviation op := (rq_Operation req).

(** The request's rows, stamped with one of the clock readings [times], fit the store,
    survive JSON and lie outside the other rows. *)
Record request_ok : Prop := {
  ro_op : op ≠ ""%string;
  ro_node : rq_NodeID req ≠ ""%string;
  ro_current : op ≠ "current"%string;
  ro_clean : clean op;
  ro_prefix : String.prefix keyDecommissionIntent op = false ∧ String.prefix keyCleanupTombstone op = false;
  ro_text t : t ∈ times → decommission_text (intent_of req t) = true ∧ cleanup_text (tombstone_of req t) = true;
  ro_fits_intent t k : t ∈ times → k = keyDecommissionIntentCanonical ∨ k = decommission_key op → storable k (marshal (intent_of req t)) = true;
  ro_fits_cleanup t k : t ∈ times → k = keyCleanupTombstoneCanonical ∨ k = cleanup_key op → storable k (marshal (tombstone_of req t)) = true;
  ro_fits_ack st : st = DECOMMISSIONED_status ∨ st = DROPPED_status →
    storable op (ack_of req st) = true ∧ storable op (outbox_value phasePending (ack_of req st)) = true
}.

Context (Hreq : request_ok).

Abbreviation intents_are o := (rows_are keyDecommissionIntent keyDecommissionIntentCanonical (decommission_key op) o).
Abbreviation cleanups_are o := (rows_are keyCleanupTombstone keyCleanupTombstoneCanonical (cleanup_key op) o).

(** Intent and cleanup rows of this request, its result queued or not at all. *)
Record stored (hi ht : option Z) s : Prop := {
  st_times t : hi = Some t ∨ ht = Some t → t ∈ times;
  st_intent : intents_are ((λ t, marshal (intent_of req t)) <$> hi) s;
  st_cleanup : cleanups_are ((λ t, marshal (tombstone_of req t)) <$> ht) s;
  st_receipt : bget (s_operations s) (receiptKey op) = None;
  st_queue : is_Some (bget (s_outbox s) op) ∨ bget (s_operations s) op = None
}.

(** The buckets decommission empties. *)
Definition forward_buckets : list bucket := [AppliedB; ActivationB; Tombstones; Intents; DesiredB; HookQueueB; KeyringB; MappingB].
Definition forwards_empty s : Prop := ∀ b k, b ∈ forward_buckets → bget (at_bucket s b) k = None.

Lemma put_fits (b : bucket) (k : string) (v : bytes) s : storable k v = true → ∃ s', put b k v s = Ok (tt, s').
Proof. intros [b' Hb]%(bput_storable (at_bucket s b)). unfold put. rewrite Hb. by eexists. Qed.

Lemma decommission_prefix (a : string) :
  String.prefix keyDecommissionIntent (decommission_key a) = true ∧ String.prefix keyCleanupTombstone (decommission_key a) = false.
Proof. split; by destruct a. Qed.

Lemma cleanup_prefix (a : string) :
  String.prefix keyCleanupTombstone (cleanup_key a) = true ∧ String.prefix keyDecommissionIntent (cleanup_key a) = false.
Proof. split; by destruct a. Qed.

Lemma decommission_key_ne : decommission_key op ≠ keyDecommissionIntentCanonical.
Proof. intros H. apply (ro_current Hreq). by injection H. Qed.

Lemma cleanup_key_ne : cleanup_key op ≠ keyCleanupTombstoneCanonical.
Proof. intros H. apply (ro_current Hreq). by injection H. Qed.

Lemma load_intent_stored (hi ht : option Z) s : stored hi ht s → LoadDecommissionIntent s = Ok (intent_of req <$> hi).
Proof.
  intros H. unfold LoadDecommissionIntent. destruct hi as [t|]; cbn.
  - rewrite (legacy_rows_some _ _ (decommission_key op) (marshal (intent_of req t))); [|apply decommission_prefix|apply decommission_key_ne|by apply (st_intent _ _ _ H)].
    cbn. by rewrite unmarshal_marshal by (apply (ro_text Hreq), (st_times _ _ _ H); auto).
  - by rewrite (legacy_rows_none _ _ (decommission_key op)) by apply (st_intent _ _ _ H).
Qed.

Lemma load_cleanup_stored (hi ht : option Z) s : stored hi ht s → LoadAgentCleanupTombstone s = Ok (tombstone_of req <$> ht).
Proof.
  intros H. unfold LoadAgentCleanupTombstone. destruct ht as [t|]; cbn.
  - rewrite (legacy_rows_some _ _ (cleanup_key op) (marshal (tombstone_of req t))); [|apply cleanup_prefix|apply cleanup_key_ne|by apply (st_cleanup _ _ _ H)].
    cbn. by rewrite unmarshal_marshal by (apply (ro_text Hreq), (st_times _ _ _ H); auto).
  - by rewrite (legacy_rows_none _ _ (cleanup_key op)) by apply (st_cleanup _ _ _ H).
Qed.

(** Two puts of the same row under keys outside the operation's own. *)
Lemma two_puts (k1 k2 : string) (raw : bytes) s :
  storable k1 raw = true → storable k2 raw = true →
  ∃ s1 s2, put Operations k1 raw s = Ok (tt, s1) ∧ put Operations k2 raw s1 = Ok (tt, s2)
    ∧ (∀ k, k ≠ k1 → k ≠ k2 → bget (s_operations s2) k = bget (s_operations s) k) ∧ frame [Operations] s s2.
Proof.
  intros H1 H2. destruct (put_fits Operations k1 raw s H1) as [s1 Hp1]. destruct (put_fits Operations k2 raw s1 H2) as [s2 Hp2].
  exists s1, s2. split_and!; [done|done| |].
  - intros k Hk1 Hk2. apply put_Ok in Hp1 as (b1 & Hb1 & ->). apply put_Ok in Hp2 as (b2 & Hb2 & ->). cbn in *.
    by rewrite (bget_bput_ne _ _ _ _ _ Hk2 Hb2), (bget_bput_ne _ _ _ _ _ Hk1 Hb1).
  - transitivity s1; [revert Hp1|revert Hp2]; apply frame_put; by left.
Qed.

Lemma key_prefix_ne (p a k : string) : String.prefix p a = false → String.prefix p k = true → a ≠ k.
Proof. congruence. Qed.

Lemma put_intent_stored (hi ht : option Z) (t : Z) s :
  t ∈ times → stored hi ht s → ∃ b s' t', PutDecommissionIntent (intent_of req t) s = Ok (b, s') ∧ stored (Some t') ht s' ∧ frame [Operations] s s'.
Proof.
  intros Ht H. unfold PutDecommissionIntent. cbn [di_OperationID di_NodeID intent_of].
  rewrite (proj2 (String.eqb_neq _ _) (ro_op Hreq)), (proj2 (String.eqb_neq _ _) (ro_node Hreq)). cbn [orb]. unfold tx_bind at 1, get. cbn [at_bucket].
  rewrite (st_intent _ _ _ H keyDecommissionIntentCanonical eq_refl), decide_True by auto. destruct hi as [t0|]; cbn [fmap option_fmap option_map].
  - rewrite unmarshal_marshal by (apply (ro_text Hreq), (st_times _ _ _ H); auto). unfold same_decommission. cbn. rewrite !String.eqb_refl. cbn. by exists false, s, t0.
  - unfold tx_bind at 1, entries. cbn [at_bucket]. rewrite (legacy_rows_none _ _ (decommission_key op)) by apply (st_intent _ _ _ H). cbn [last_row tx_of].
    unfold tx_bind at 1, tx_ret at 1. cbv iota beta.
    destruct (two_puts keyDecommissionIntentCanonical (decommission_key op) (marshal (intent_of req t)) s) as (s1 & s2 & Hp1 & Hp2 & Hother & Hf);
      [apply (ro_fits_intent Hreq); auto..|].
    unfold tx_bind. rewrite Hp1, Hp2. exists true, s2, t. split_and!; [done| |done]. split.
    + intros t' [[= <-]| ->]; [done|]. apply (st_times _ _ _ H). auto.
    + by eapply rows_are_put; [apply (st_intent _ _ _ H)|..].
    + intros k Hk. rewrite Hother; [by apply (st_cleanup _ _ _ H)|by intros ->|]. intros ->. destruct (decommission_prefix op). congruence.
    + rewrite Hother by done. apply (st_receipt _ _ _ H).
    + assert (Hout : s_outbox s2 = s_outbox s) by (apply (Hf Outbox); bucket_dec). rewrite Hout.
      rewrite Hother; [apply (st_queue _ _ _ H)| |]; apply (key_prefix_ne keyDecommissionIntent); try apply (ro_prefix Hreq); [done|apply decommission_prefix].
Qed.

Lemma put_cleanup_stored (hi ht : option Z) (t : Z) s :
  t ∈ times → stored hi ht s → ∃ s' t', WriteAgentCleanupTombstone (tombstone_of req t) s = Ok (tt, s') ∧ stored hi (Some t') s' ∧ frame [Operations] s s'.
Proof.
  intros Ht H. unfold WriteAgentCleanupTombstone. cbn [ct_OperationID ct_NodeID tombstone_of].
  rewrite (proj2 (String.eqb_neq _ _) (ro_op Hreq)), (proj2 (String.eqb_neq _ _) (ro_node Hreq)). cbn [orb]. unfold tx_bind at 1, get. cbn [at_bucket].
  rewrite (st_cleanup _ _ _ H keyCleanupTombstoneCanonical eq_refl), decide_True by auto. destruct ht as [t0|]; cbn [fmap option_fmap option_map].
  - rewrite unmarshal_marshal by (apply (ro_text Hreq), (st_times _ _ _ H); auto). unfold same_cleanup. cbn. rewrite !String.eqb_refl. cbn. by exists s, t0.
  - unfold tx_bind at 1, entries. cbn [at_bucket]. rewrite (legacy_rows_none _ _ (cleanup_key op)) by apply (st_cleanup _ _ _ H). cbn [last_row tx_of].
    unfold tx_bind at 1, tx_ret at 1. cbv iota beta.
    destruct (two_puts keyCleanupTombstoneCanonical (cleanup_key op) (marshal (tombstone_of req t)) s) as (s1 & s2 & Hp1 & Hp2 & Hother & Hf);
      [apply (ro_fits_cleanup Hreq); auto..|].
    unfold tx_bind. rewrite Hp1, Hp2. exists s2, t. split_and!; [done| |done]. split.
    + intros t' [->|[= <-]]; [|done]. apply (st_times _ _ _ H). auto.
    + intros k Hk. rewrite Hother; [by apply (st_intent _ _ _ H)|by intros ->|]. intros ->. destruct (cleanup_prefix op). congruence.
    + by eapply rows_are_put; [apply (st_cleanup _ _ _ H)|..].
    + rewrite Hother by done. apply (st_receipt _ _ _ H).
    + assert (Hout : s_outbox s2 = s_outbox s) by (apply (Hf Outbox); bucket_dec). rewrite Hout.
      rewrite Hother; [apply (st_queue _ _ _ H)| |]; apply (key_prefix_ne keyCleanupTombstone); try apply (ro_prefix Hreq); [done|apply cleanup_prefix].
Qed.

Lemma tx_iter_total {A} (f : A → tx B unit) (l : list A) s : (∀ x t, ∃ t', f x t = Ok (tt, t')) → ∃ s', tx_iter f l s = Ok (tt, s').
Proof.
  intros Hf. revert s. induction l as [|x l IH]; intros s; cbn [tx_iter]; [by eexists|]. unfold tx_bind. destruct (Hf x s) as [s1 ->]. apply IH.
Qed.

Lemma clear_stored (hi ht : option Z) s :
  stored hi ht s → ∃ s', ClearForwardStateForDecommission s = Ok (tt, s') ∧ stored hi ht s' ∧ forwards_empty s'.
Proof.
  intros H. assert (∃ s', ClearForwardStateForDecommission s = Ok (tt, s')) as [s' Hs].
  { apply tx_iter_total. intros b t. unfold clear_bucket, tx_bind, entries. apply tx_iter_total. intros [k v] t'. by eexists. }
  exists s'. split; [done|]. assert (Hf : frame forward_buckets s s').
  { revert Hs. apply (respects_iter (frame _)). intros b Hb t a t' Hc. unfold clear_bucket in Hc. tx_walk Hc. revert Hc.
    apply (respects_iter (frame _)). intros [k v] _. by apply frame_del. }
  assert (Hops : s_operations s' = s_operations s) by (apply (Hf Operations); bucket_dec).
  assert (Hout : s_outbox s' = s_outbox s) by (apply (Hf Outbox); bucket_dec). split.
  - destruct H. split; rewrite ?Hops, ?Hout; try done; by eapply rows_are_frame.
  - intros b k Hb. by eapply clear_empty.
Qed.

Lemma record_stored (hi ht : option Z) (st : string) s :
  st = DECOMMISSIONED_status ∨ st = DROPPED_status → stored hi ht s → ∃ s', recordResultAndQueue op (ack_of req st) s = Ok (tt, s') ∧ stored hi ht s' ∧ is_Some (bget (s_outbox s') op)
    ∧ frame [Operations; Outbox] s s'.
Proof.
  intros Hack H. unfold recordResultAndQueue. unfold tx_bind at 1, get. cbn [at_bucket]. rewrite (st_receipt _ _ _ H).
  unfold tx_bind at 1, get. cbn [at_bucket]. destruct (bget (s_outbox s) op) as [v|] eqn:Eo.
  { exists s. by split_and!. }
  destruct (st_queue _ _ _ H) as [[? ?]|Hn]; [congruence|]. unfold tx_bind at 1, get. cbn [at_bucket]. rewrite Hn.
  destruct (put_fits Operations op (ack_of req st) s) as [s1 Hp1]; [by apply (ro_fits_ack Hreq)|].
  destruct (put_fits Outbox op (outbox_value phasePending (ack_of req st)) s1) as [s2 Hp2]; [by apply (ro_fits_ack Hreq)|].
  unfold tx_bind. rewrite Hp1, Hp2. exists s2. split; [done|].
  assert (Hf : frame [Operations; Outbox] s s2) by (transitivity s1; [revert Hp1|revert Hp2]; apply frame_put; set_solver).
  assert (Hops : s_operations s2 = s_operations s1) by (apply put_Ok in Hp2 as (b2 & _ & ->); done).
  assert (Ho2 : is_Some (bget (s_outbox s2) op)).
  { apply put_Ok in Hp2 as (b2 & Hb2 & ->). cbn in *. rewrite (bget_bput_eq _ _ _ _ Hb2). by eexists. }
  split_and!; [|done|done]. split; rewrite ?Hops.
  - apply (st_times _ _ _ H).
  - eapply rows_are_frame; [exact Hops|]. eapply rows_are_other; [apply (st_intent _ _ _ H)|apply (ro_prefix Hreq)|exact Hp1].
  - eapply rows_are_frame; [exact Hops|]. eapply rows_are_other; [apply (st_cleanup _ _ _ H)|apply (ro_prefix Hreq)|exact Hp1].
  - apply put_Ok in Hp1 as (b1 & Hb1 & ->). cbn in *. assert (Hne : receiptKey op ≠ op) by (apply not_eq_sym, clean_receipt_ne, Hreq).
    rewrite (bget_bput_ne _ _ _ _ _ Hne Hb1). apply (st_receipt _ _ _ H).
  - by left.
Qed.

(** ** Steps of the agent *)

(** The intent, and the cleanup tombstone, are durable. *)
Definition has_intent g : Prop := is_Some (bget (s_operations (ag_store g)) keyDecommissionIntentCanonical).
Definition has_cleanup g : Prop := is_Some (bget (s_operations (ag_store g)) keyCleanupTombstoneCanonical).

Lemma stored_has_intent (hi ht : option Z) g : stored hi ht (ag_store g) → has_intent g ↔ is_Some hi.
Proof.
  intros H. unfold has_intent. rewrite (st_intent _ _ _ H keyDecommissionIntentCanonical eq_refl), decide_True by auto.
  destruct hi; cbn; split; intros [? ?]; done || by eexists.
Qed.

Lemma stored_has_cleanup (hi ht : option Z) g : stored hi ht (ag_store g) → has_cleanup g ↔ is_Some ht.
Proof.
  intros H. unfold has_cleanup. rewrite (st_cleanup _ _ _ H keyCleanupTombstoneCanonical eq_refl), decide_True by auto.
  destruct ht; cbn; split; intros [? ?]; done || by eexists.
Qed.

(** What the marker promises about the store. *)
Definition marker_facts g : Prop :=
  match d_marker (ag_dir g) with
  | None => True
  | Some m => has_intent g ∧ (m = MarkerDecommissioning ∨ (m = MarkerDecommissioned ∧ has_cleanup g ∧ forwards_empty (ag_store g)))
  end.

(** The durable facts of an agent at any point of this decommission. *)
Definition durable g : Prop := (∃ hi ht, stored hi ht (ag_store g)) ∧ marker_facts g.

Definition good_world (w : world) : Prop := w_io w = IoOk ∧ w_stop w = true ∧ forallb (λ b, b) (w_cleans w) = true.

(** From a durable state satisfying [P], [m] leaves a durable state; if it succeeds it
    establishes [Q] with at most [n] writes; in a good world it fails only when the
    process stops within [n] writes. *)
Definition triple {A} (w : world) (n : nat) (P : Agent B → Prop) (m : dm B A) (Q : A → Agent B → Prop) : Prop :=
  ∀ g, durable g → P g →
  match m g with
  | (Ok a, g') => durable g' ∧ Q a g' ∧ (ag_writes g ≤ ag_writes g' + n)%nat
  | (Err _, g') => durable g' ∧ (good_world w → (ag_writes g < n)%nat)
  end.

Lemma triple_bind {A C} (w : world) (n1 n2 : nat) P (m : dm B A) Q (k : A → dm B C) R :
  triple w n1 P m Q → (∀ a, triple w n2 (Q a) (k a) R) → triple w (n1 + n2) P (dm_bind m k) R.
Proof.
  intros Hm Hk g Hg HP. unfold dm_bind. specialize (Hm g Hg HP). destruct (m g) as [[a|e] g1].
  - destruct Hm as (Hd1 & HQ & Hn). specialize (Hk a g1 Hd1 HQ). destruct (k a g1) as [[c|e] g2].
    + destruct Hk as (Hd2 & HR & Hn2). split_and!; [done|done|lia].
    + destruct Hk as [Hd2 Hn2]. split; [done|]. intros Hw. specialize (Hn2 Hw). lia.
  - destruct Hm as [Hd1 Hn]. split; [done|]. intros Hw. specialize (Hn Hw). lia.
Qed.

Lemma triple_ret {A} (w : world) (P : Agent B → Prop) (Q : A → Agent B → Prop) (a : A) :
  (∀ g, P g → Q a g) → triple w 0 P (dm_ret a) Q.
Proof. intros H g Hg HP. cbn. split_and!; [done|by apply H|lia]. Qed.

Lemma triple_weaken {A} (w : world) (n n' : nat) P (m : dm B A) Q :
  triple w n P m Q → (n ≤ n')%nat → triple w n' P m Q.
Proof.
  intros H Hn g Hg HP. specialize (H g Hg HP). destruct (m g) as [[a|e] g1].
  - destruct H as (? & ? & ?). split_and!; [done|done|lia].
  - destruct H as [? H]. split; [done|]. intros Hw. specialize (H Hw). lia.
Qed.

Lemma triple_write {A} (w : world) (P : Agent B → Prop) (m : dm B A) (Q : A → Agent B → Prop) :
  (∀ g n, P g → P (mkAgent (ag_store g) (ag_dir g) (ag_latch g) n)) → triple w 0 P m Q → triple w 1 P (dm_write m) Q.
Proof.
  intros HPw Hm g Hg HP. unfold dm_write. destruct (ag_writes g) as [|n] eqn:En; [split; [done|lia]|].
  specialize (Hm (mkAgent (ag_store g) (ag_dir g) (ag_latch g) n) Hg (HPw _ _ HP)). destruct (m _) as [[a|e] g1]; cbn in Hm.
  - destruct Hm as (? & ? & ?). split_and!; [done|done|lia].
  - destruct Hm as [? Hm]. split; [done|]. intros Hw. specialize (Hm Hw). lia.
Qed.

(** A transaction that keeps the rows of this request. *)
Lemma triple_tx {A} (w : world) (P : Agent B → Prop) (m : tx B A) (Q : A → Agent B → Prop) :
  (∀ g n, P g → P (mkAgent (ag_store g) (ag_dir g) (ag_latch g) n)) →
  (∀ g hi ht, stored hi ht (ag_store g) → marker_facts g → P g → ∃ a s', m (ag_store g) = Ok (a, s')
     ∧ let g' := mkAgent s' (ag_dir g) (ag_latch g) (ag_writes g) in (∃ hi' ht', stored hi' ht' s') ∧ marker_facts g' ∧ Q a g') →
  triple w 1 P (dm_tx m) Q.
Proof.
  intros HPw Hm. apply triple_write; [done|]. intros g [(hi & ht & Hst) Hmf] HP. unfold Update.
  destruct (Hm g hi ht Hst Hmf HP) as (a & s' & -> & Hst' & Hmf' & HQ). cbn. split_and!; [by split|done|lia].
Qed.

Definition at_marker (m : string) g : Prop := ∀ f, f ≠ IoRead → LoadMarker (ag_dir g) f = Ok m.

Lemma triple_marker (w : world) (P : Agent B → Prop) :
  triple w 0 P (dm_marker (w_io w)) (λ m g, P g ∧ at_marker m g ∧ (m = MarkerActive ∨ m = MarkerDecommissioning ∨ m = MarkerDecommissioned)).
Proof.
  intros g Hg HP. unfold dm_marker. destruct Hg as [Hst Hmf]. pose proof Hmf as Hmf0. unfold marker_facts in Hmf0.
  destruct (LoadMarker (ag_dir g) (w_io w)) as [m|e] eqn:El.
  - split_and!; [by split|done| | |lia].
    + intros f Hf. unfold LoadMarker, loadMarkerUnlocked in *. destruct (d_marker (ag_dir g)) as [raw|]; [|done].
      destruct (bool_decide (w_io w = IoRead)); [done|]. by rewrite bool_decide_eq_false_2.
    + unfold LoadMarker, loadMarkerUnlocked in El. destruct (d_marker (ag_dir g)) as [raw|]; [|left; by injection El].
      destruct (bool_decide _); [done|]. destruct (negb _); [done|]. injection El as <-. destruct Hmf0 as [_ [->|[-> _]]]; auto.
  - split; [by split|]. intros (Hw & _ & _). exfalso. unfold LoadMarker, loadMarkerUnlocked in El. rewrite Hw in El.
    destruct (d_marker (ag_dir g)) as [raw|]; [|done]. by destruct Hmf0 as [_ [->|[-> _]]].
Qed.

Lemma at_marker_dir g (m : string) :
  at_marker m g → d_marker (ag_dir g) = (if String.eqb m MarkerActive then d_marker (ag_dir g) else Some m) .
Proof.
  intros H. specialize (H IoOk ltac:(done)). unfold LoadMarker, loadMarkerUnlocked in H. destruct (d_marker (ag_dir g)) as [raw|].
  - cbn in H. destruct (validMarkerStates raw) eqn:E; [|done]. cbn in H. injection H as <-. by destruct (String.eqb raw MarkerActive).
  - injection H as <-. done.
Qed.

(** Writing a marker whose promise holds. *)
Lemma triple_write_marker (w : world) (st : string) (P : Agent B → Prop) :
  validMarkerStates st = true →
  (∀ g n, P g → P (mkAgent (ag_store g) (ag_dir g) (ag_latch g) n)) →
  (∀ g, P g → has_intent g ∧ (st = MarkerDecommissioning → d_marker (ag_dir g) ≠ Some MarkerDecommissioned)
     ∧ (st = MarkerDecommissioned → has_cleanup g ∧ forwards_empty (ag_store g))) →
  triple w 1 P (dm_write_marker st (w_io w))
    (λ _ g, d_marker (ag_dir g) = Some st ∧ ∃ d, P (mkAgent (ag_store g) d (ag_latch g) (ag_writes g))).
Proof.
  intros Hv HPw HP. apply triple_write; [done|]. intros g [Hst Hmf] Hg. destruct (HP g Hg) as (Hi & Hn & Hc).
  assert (Hnew : durable (mkAgent (ag_store g) (mkDir (Some st) (d_quarantine (ag_dir g))) (ag_latch g) (ag_writes g))).
  { split; [done|]. unfold marker_facts. cbn. split; [done|]. unfold validMarkerStates in Hv. apply orb_true_iff in Hv as [Hv|Hv]; bool_prop; [by left|].
    right. split; [done|]. by apply Hc. }
  unfold WriteMarker, writeMarkerUnlocked. rewrite Hv. cbn [negb]. pose proof Hmf as Hmf0. unfold marker_facts in Hmf0.
  assert (Hsame : ∀ d, d = ag_dir g → durable (mkAgent (ag_store g) d (ag_latch g) (ag_writes g))) by (intros d ->; by split).
  assert (Hkeep : P (mkAgent (ag_store g) (ag_dir g) (ag_latch g) (ag_writes g))) by by apply HPw.
  destruct (loadMarkerUnlocked (ag_dir g) (w_io w)) as [cur|e] eqn:El.
  2:{ split; [by apply Hsame|]. intros (Hw & _ & _). exfalso. unfold loadMarkerUnlocked in El. rewrite Hw in El.
      destruct (d_marker (ag_dir g)) as [raw|]; [|done]. by destruct Hmf0 as [_ [->|[-> _]]]. }
  assert (Hcur : cur = default MarkerActive (d_marker (ag_dir g))).
  { unfold loadMarkerUnlocked in El. destruct (d_marker (ag_dir g)) as [raw|]; [|by injection El].
    destruct (bool_decide _); [done|]. destruct (negb _); [done|]. by injection El. }
  destruct (String.eqb cur MarkerDecommissioned && negb (String.eqb st MarkerDecommissioned)) eqn:Ef.
  { exfalso. bool_prop. unfold validMarkerStates in Hv. apply orb_true_iff in Hv as [Hv|Hv]; bool_prop; [|done].
    apply (Hn Hv). destruct (d_marker (ag_dir g)); cbn in Hcur; [congruence|]. by rewrite Hcur in *. }
  destruct (String.eqb_spec cur st) as [->|Hne].
  { split_and!; [by apply Hsame| |by exists (ag_dir g)|cbn; lia]. cbn. destruct (d_marker (ag_dir g)) as [raw|]; cbn in Hcur; [congruence|].
    subst st. done. }
  destruct (w_io w) eqn:Eio; cbn; try (split_and!; [done|done|by exists (ag_dir g)|lia]);
    (split; [done || by apply Hsame|]; intros (Hw & _ & _); rewrite Eio in Hw; done).
Qed.

Lemma marker_facts_keep g (hi ht hi' ht' : option Z) s' :
  stored hi ht (ag_store g) → stored hi' ht' s' → (is_Some hi → is_Some hi') → (is_Some ht → is_Some ht') →
  (forwards_empty (ag_store g) → forwards_empty s') → marker_facts g →
  marker_facts (mkAgent s' (ag_dir g) (ag_latch g) (ag_writes g)).
Proof.
  intros H H' Hhi Hht Hfe Hm. set (g' := mkAgent s' _ _ _). pose proof (stored_has_intent _ _ _ H) as Hi. pose proof (stored_has_cleanup _ _ _ H) as Hc.
  pose proof (stored_has_intent _ _ g' H') as Hi'. pose proof (stored_has_cleanup _ _ g' H') as Hc'.
  unfold marker_facts in *. cbn. destruct (d_marker (ag_dir g)); [|done]. cbn. naive_solver.
Qed.

Lemma forwards_empty_frame (bs : list bucket) s s' :
  frame bs s s' → (∀ b, b ∈ forward_buckets → b ∉ bs) → forwards_empty s → forwards_empty s'.
Proof. intros Hf Hd He b k Hb. rewrite (Hf b); [by apply He|by apply Hd]. Qed.

Lemma ops_frame_empty s s' : frame [Operations; Outbox] s s' → forwards_empty s → forwards_empty s'.
Proof.
  intros Hf. apply (forwards_empty_frame [Operations; Outbox]); [done|]. intros b Hb Hn. unfold forward_buckets in Hb. set_solver.
Qed.

Lemma frame_wider (bs bs' : list bucket) s s' : bs ⊆ bs' → frame bs s s' → frame bs' s s'.
Proof. intros Hsub Hf b Hb. apply Hf. set_solver. Qed.

Lemma triple_require (w : world) (P : Agent B → Prop) :
  triple w 0 (λ g, P g ∧ has_intent g) (requireIntent req) (λ _ g, P g ∧ has_intent g).
Proof.
  intros g Hg [HP Hi]. destruct Hg as [(hi & ht & Hst) Hmf]. unfold requireIntent, dm_bind, dm_view. rewrite (load_intent_stored _ _ _ Hst).
  apply (stored_has_intent _ _ _ Hst) in Hi as [t ->]. cbn. rewrite !String.eqb_refl, eqb_reflx, Z.eqb_refl, !bool_decide_eq_true_2 by done. cbn.
  split_and!; [by split; [exists (Some t), ht|]|done| |lia]. apply (stored_has_intent _ _ _ Hst). by eexists.
Qed.

Lemma triple_own (w : world) (P : Agent B → Prop) :
  triple w 0 (λ g, P g ∧ has_cleanup g) (own_tombstone req) (λ _ g, P g).
Proof.
  intros g Hg [HP Hc]. destruct Hg as [(hi & ht & Hst) Hmf]. unfold own_tombstone, dm_bind, dm_view. rewrite (load_cleanup_stored _ _ _ Hst).
  apply (stored_has_cleanup _ _ _ Hst) in Hc as [t ->]. cbn. unfold same_cleanup. cbn. rewrite !String.eqb_refl. cbn.
  split_and!; [by split; [exists hi, (Some t)|]|done|lia].
Qed.

Lemma triple_cleans (w : world) (P : Agent B → Prop) : triple w 0 P (run_cleans (w_cleans w)) (λ _, P).
Proof.
  intros g Hg HP. assert (H : ∀ l, match run_cleans l g with (Ok _, g') => g' = g | (Err _, g') => g' = g ∧ forallb (λ b, b) l = false end).
  { induction l as [|[] l IH]; cbn; [done| |done]. exact IH. }
  specialize (H (w_cleans w)). destruct (run_cleans _ g) as [[[]|e] g'].
  - subst g'. split_and!; [done|done|lia].
  - destruct H as [-> Hf]. split; [done|]. intros (_ & _ & Hw). congruence.
Qed.

Abbreviation decommissioned := (λ g, d_marker (ag_dir g) = Some MarkerDecommissioned).

Lemma triple_queue (w : world) (st : string) :
  st = DECOMMISSIONED_status ∨ st = DROPPED_status → triple w 1 decommissioned (queueResult op (ack_of req st)) (λ _ g, decommissioned g ∧ is_Some (bget (s_outbox (ag_store g)) op)).
Proof.
  intros Hack. assert (H : ∀ m, ∀ g, durable g → decommissioned g → m (ag_store g) = recordResultAndQueue op (ack_of req st) (ag_store g) →
    match dm_tx m g with
    | (Ok a, g') => durable g' ∧ (decommissioned g' ∧ is_Some (bget (s_outbox (ag_store g')) op)) ∧ (ag_writes g ≤ ag_writes g' + 1)%nat
    | (Err _, g') => durable g' ∧ (good_world w → (ag_writes g < 1)%nat)
    end).
  { intros m g Hg Hd Hm. refine (triple_tx w (λ g, decommissioned g ∧ m (ag_store g) = recordResultAndQueue op (ack_of req st) (ag_store g)) m
      (λ _ g, decommissioned g ∧ is_Some (bget (s_outbox (ag_store g)) op)) _ _ g Hg (conj Hd Hm)); [done|].
    intros g1 hi ht Hst Hmf [Hd1 Hm1]. destruct (record_stored hi ht st _ Hack Hst) as (s' & Hr & Hst' & Ho & Hf).
    exists tt, s'. rewrite Hm1. split; [done|]. cbn zeta. split; [by exists hi, ht|]. split; [|by split].
    eapply (marker_facts_keep _ hi ht hi ht); [done|done|done|done|by apply ops_frame_empty|done]. }
  intros g Hg Hd. unfold queueResult. destruct (CurrentSession (ag_store g)) as [e ss] eqn:Ec. destruct ((e =? 0) || String.eqb ss "").
  - apply H; [done|done|]. unfold QueueResultSessionIndependent. by rewrite (proj2 (String.eqb_neq _ _) (ro_op Hreq)).
  - apply H; [done|done|]. unfold QueueResult, tx_bind, checkSession. by rewrite Ec, Z.eqb_refl, String.eqb_refl.
Qed.

Lemma triple_pure {A} (w : world) (n : nat) (P P' : Agent B → Prop) (m : dm B A) Q :
  (∀ g, durable g → P g → P' g) → triple w n P' m Q → triple w n P m Q.
Proof. intros HP Hm g Hg Hp. apply Hm; [done|]. by apply HP. Qed.

Lemma triple_post {A} (w : world) (n : nat) (P : Agent B → Prop) (m : dm B A) (Q Q' : A → Agent B → Prop) :
  triple w n P m Q → (∀ a g, durable g → Q a g → Q' a g) → triple w n P m Q'.
Proof.
  intros Hm HQ g Hg Hp. specialize (Hm g Hg Hp). destruct (m g) as [[a|e] g']; [|done]. destruct Hm as (? & ? & ?). split_and!; auto.
Qed.

Definition latch_ok g : Prop := d_marker (ag_dir g) = None → la_engaged (ag_latch g) = false.
Definition beginnable g : Prop := latch_ok g ∧ d_marker (ag_dir g) ≠ Some MarkerDecommissioned.
Abbreviation begun := (λ g, d_marker (ag_dir g) = Some MarkerDecommissioning ∧ has_intent g).

Lemma at_marker_active g : durable g → at_marker MarkerActive g → d_marker (ag_dir g) = None.
Proof.
  intros [_ Hm] H. specialize (H IoOk ltac:(done)). unfold LoadMarker, loadMarkerUnlocked in H. unfold marker_facts in Hm.
  destruct (d_marker (ag_dir g)) as [raw|]; [|done]. by destruct Hm as [_ [->|[-> _]]].
Qed.

Lemma at_marker_some g (m : string) : at_marker m g → m ≠ MarkerActive → d_marker (ag_dir g) = Some m.
Proof. intros H%at_marker_dir Hn. by rewrite (proj2 (String.eqb_neq _ _) Hn) in H. Qed.

Lemma triple_put_intent (w : world) (P : Agent B → Prop) :
  (∀ g s', P g → P (mkAgent s' (ag_dir g) (ag_latch g) (ag_writes g))) →
  (∀ g n, P g → P (mkAgent (ag_store g) (ag_dir g) (ag_latch g) n)) → w_now w ∈ times →
  triple w 1 P (dm_tx (PutDecommissionIntent (intent_of req (w_now w)))) (λ _ g, P g ∧ has_intent g).
Proof.
  intros HPs HPn Ht. apply triple_tx; [done|]. intros g hi ht Hst Hmf HP.
  destruct (put_intent_stored hi ht (w_now w) _ Ht Hst) as (b & s' & t' & Hp & Hst' & Hf). exists b, s'. split; [done|]. cbn zeta.
  split; [by exists (Some t'), ht|]. split; [|split; [by apply HPs|by eapply stored_has_intent; [exact Hst'|eexists]]].
  eapply (marker_facts_keep _ hi ht (Some t') ht); [done|done|by eexists|done| |done]. apply ops_frame_empty, (frame_wider [Operations]); [set_solver|done].
Qed.

Lemma triple_begin (w : world) : w_now w ∈ times → triple w 2 beginnable (Begin w req) (λ _, begun).
Proof.
  intros Ht. unfold Begin. rewrite (proj2 (String.eqb_neq _ _) (ro_op Hreq)), (proj2 (String.eqb_neq _ _) (ro_node Hreq)). cbn [orb].
  apply (triple_bind w 0 2 _ _ _ _ _ (triple_marker w beginnable)). intros m.
  apply (triple_bind w 0 2 _ _ (λ _ g, d_marker (ag_dir g) ≠ Some MarkerDecommissioned)).
  { intros g Hg ([Hl Hn] & Hat & Hm). destruct Hm as [->|[->| ->]]; cbn.
    - unfold dm_bind, dm_engage, TryEngage. rewrite Hl by by apply at_marker_active. cbn. destruct Hg. by split_and!; [split|..|lia].
    - split_and!; [done|done|lia].
    - exfalso. apply Hn. by apply at_marker_some. }
  intros _. apply (triple_bind w 1 1 _ _ _ _ _ (triple_put_intent w (λ g, d_marker (ag_dir g) ≠ Some MarkerDecommissioned) ltac:(done) ltac:(done) Ht)).
  intros b. eapply triple_post; [apply (triple_write_marker w MarkerDecommissioning (λ g, d_marker (ag_dir g) ≠ Some MarkerDecommissioned ∧ has_intent g)); [done|done|]|].
  - intros g [Hn Hi]. by split_and!.
  - intros u g Hg (Hd & d & _ & Hi). by split.
Qed.

(** Clearing, the tombstone and the final marker. *)
Abbreviation cleared := (λ g, begun g ∧ forwards_empty (ag_store g)).
Abbreviation sealed := (λ g, begun g ∧ forwards_empty (ag_store g) ∧ has_cleanup g).

Lemma triple_clear (w : world) : triple w 1 begun (dm_tx ClearForwardStateForDecommission) (λ _, cleared).
Proof.
  apply triple_tx; [done|]. intros g hi ht Hst Hmf [Hd Hi]. destruct (clear_stored hi ht _ Hst) as (s' & Hc & Hst' & He).
  exists tt, s'. split; [done|]. cbn zeta. split; [by exists hi, ht|].
  split; [by eapply (marker_facts_keep _ hi ht hi ht)|]. split; [split; [done|]|done].
  eapply stored_has_intent; [exact Hst'|]. by eapply stored_has_intent.
Qed.

Lemma triple_seal (w : world) : w_now w ∈ times → triple w 1 cleared (dm_tx (WriteAgentCleanupTombstone (tombstone_of req (w_now w)))) (λ _, sealed).
Proof.
  intros Ht. apply triple_tx; [done|]. intros g hi ht Hst Hmf [[Hd Hi] He]. destruct (put_cleanup_stored hi ht (w_now w) _ Ht Hst) as (s' & t' & Hp & Hst' & Hf).
  assert (He' : forwards_empty (ag_store g) → forwards_empty s') by (apply ops_frame_empty, (frame_wider [Operations]); [set_solver|done]).
  exists tt, s'. split; [done|]. cbn zeta. split; [by exists hi, (Some t')|].
  split; [eapply (marker_facts_keep _ hi ht hi (Some t')); [done|done|done|by eexists|done|done]|].
  split; [split; [done|]|split; [by apply He'|]].
  - eapply stored_has_intent; [exact Hst'|]. by eapply stored_has_intent.
  - eapply stored_has_cleanup; [exact Hst'|]. by eexists.
Qed.

Lemma triple_final (w : world) : triple w 1 sealed (dm_write_marker MarkerDecommissioned (w_io w)) (λ _, decommissioned).
Proof.
  eapply triple_post; [apply (triple_write_marker w MarkerDecommissioned sealed); [done|done|]|].
  - intros g ([Hd Hi] & He & Hc). by split_and!.
  - intros u g _ [Hd _]. done.
Qed.

Lemma begun_marker g (m : string) : begun g → at_marker m g → m = MarkerDecommissioning.
Proof. intros [Hd _] H. specialize (H IoOk ltac:(done)). unfold LoadMarker, loadMarkerUnlocked in H. rewrite Hd in H. cbn in H. by injection H. Qed.

Lemma decommissioned_marker g (m : string) : decommissioned g → at_marker m g → m = MarkerDecommissioned.
Proof. intros Hd H. specialize (H IoOk ltac:(done)). unfold LoadMarker, loadMarkerUnlocked in H. rewrite Hd in H. cbn in H. by injection H. Qed.

Lemma decommissioned_facts g : durable g → decommissioned g → has_intent g ∧ has_cleanup g ∧ forwards_empty (ag_store g).
Proof. intros [_ Hm] Hd. unfold marker_facts in Hm. rewrite Hd in Hm. by destruct Hm as (? & [?|(? & ? & ?)]). Qed.

Lemma triple_complete (w : world) : w_now w ∈ times → triple w 3 begun (Complete w req) (λ _, decommissioned).
Proof.
  intros Ht. unfold Complete. apply (triple_bind w 0 3 _ _ (λ _, begun)).
  { eapply triple_pure; [|eapply triple_post; [apply (triple_require w begun)|]]; [by intros g _ [? ?]|by intros u g _ [? ?]]. }
  intros _. apply (triple_bind w 0 3 _ _ _ _ _ (triple_marker w begun)). intros m g Hg (Hb & Hat & _).
  rewrite (begun_marker g m Hb Hat). cbn [String.eqb]. 
  refine (triple_bind w 1 2 begun _ _ _ _ (triple_clear w) (λ _, _) g Hg Hb).
  apply (triple_bind w 0 2 _ _ _ _ _ (triple_cleans w cleared)). intros _.
  apply (triple_bind w 1 1 _ _ _ _ _ (triple_seal w Ht)). intros _. apply triple_final.
Qed.

Lemma triple_ack (w : world) (st : string) :
  st = DECOMMISSIONED_status ∨ st = DROPPED_status → triple w 1 decommissioned (queueAckWithStatus w req st) (λ _ g, decommissioned g ∧ is_Some (bget (s_outbox (ag_store g)) op)).
Proof.
  intros Hack. unfold queueAckWithStatus. apply (triple_bind w 0 1 _ _ (λ _, decommissioned)).
  { eapply triple_pure; [|eapply triple_post; [apply (triple_require w decommissioned)|]]; [|by intros u g _ [? ?]].
    intros g Hg Hd. split; [done|]. by apply decommissioned_facts. }
  intros _. apply (triple_bind w 0 1 _ _ _ _ _ (triple_marker w decommissioned)). intros m g Hg (Hb & Hat & _).
  rewrite (decommissioned_marker g m Hb Hat). cbn [String.eqb negb].
  refine (triple_bind w 0 1 decommissioned _ (λ _, decommissioned) _ _ _ (λ _, triple_queue w st Hack) g Hg Hb).
  eapply triple_pure; [|apply (triple_own w decommissioned)]. intros g' Hg' Hd. split; [done|]. by apply decommissioned_facts.
Qed.

Lemma triple_deadline (w : world) :
  w_now w ∈ times → triple w 4 begun (ReconcileDeadline w req) (λ r g, if dd_Dropped r then decommissioned g else begun g).
Proof.
  intros Ht. unfold ReconcileDeadline. apply (triple_bind w 0 4 _ _ _ _ _ (triple_marker w begun)). intros m.
  apply (triple_bind w 0 4 _ _ (λ _ g, begun g ∧ at_marker m g)).
  { eapply triple_pure; [|eapply triple_post; [apply (triple_require w (λ g, begun g ∧ at_marker m g))|]];
      [by intros g _ ([? ?] & ? & _)|by intros u g _ [? ?]]. }
  intros _ g Hg (Hb & Hat). rewrite (begun_marker g m Hb Hat). cbn [String.eqb].
  destruct (w_now w <? _) eqn:En; [cbn; split_and!; [done|apply Hb|apply Hb|lia]|].
  refine (triple_bind w 1 3 begun _ _ _ _ (triple_clear w) (λ _, _) g Hg Hb).
  apply (triple_bind w 1 2 _ _ _ _ _ (triple_seal w Ht)). intros _. apply (triple_bind w 1 1 _ _ _ _ _ (triple_final w)). intros _.
  apply (triple_bind w 1 0 _ _ _ _ _ (triple_queue w DROPPED_status (or_intror eq_refl))). intros _. apply triple_ret. by intros g' [? _].
Qed.

Lemma triple_handle (w : world) :
  w_now w ∈ times → triple w 10 latch_ok (handleDecommission w req) (λ _ g, decommissioned g ∧ is_Some (bget (s_outbox (ag_store g)) op)).
Proof.
  intros Ht. unfold handleDecommission. apply (triple_bind w 0 10 _ _ _ _ _ (triple_marker w latch_ok)). intros m g Hg (Hl & Hat & Hm).
  destruct (String.eqb_spec m MarkerDecommissioned) as [->|Hne].
  { refine (triple_weaken w 1 10 _ _ _ (triple_ack w DECOMMISSIONED_status (or_introl eq_refl)) _ g Hg _); [lia|]. by apply at_marker_some. }
  assert (Hb : beginnable g).
  { split; [done|]. intros Hd. apply Hne. by apply (decommissioned_marker g). }
  refine (triple_bind w 2 8 beginnable _ _ _ _ (triple_begin w Ht) (λ _, _) g Hg Hb).
  apply (triple_bind w 4 4 _ _ _ _ _ (triple_deadline w Ht)). intros r.
  apply (triple_bind w 3 1 _ _ (λ _, decommissioned)); [|intros _; apply triple_ack; by left].
  destruct (dd_Dropped r); [apply (triple_weaken w 0); [by apply triple_ret|lia]|].
  destruct (w_stop w) eqn:Es; [by apply triple_complete|]. intros g' Hg' Hb'. cbn. split; [done|]. intros (_ & Hw & _). congruence.
Qed.

(** One process lifetime: a restart, then the command in some world, stopping after at
    most [n] durable writes. *)
Definition boot (n : nat) g : Agent B := (restart IoOk n g).2.
Definition attempts (l : list (nat * world)) g : Agent B :=
  foldl (λ g '(n, w), (handleDecommission w req (boot n g)).2) g l.

Lemma boot_ok (n : nat) g : durable g →
  restart IoOk n g = (Ok tt, boot n g) ∧ durable (boot n g) ∧ latch_ok (boot n g) ∧ ag_writes (boot n g) = n.
Proof.
  intros Hg. unfold boot, restart. destruct Hg as [Hst Hmf]. pose proof Hmf as Hmf0. unfold marker_facts in Hmf0.
  destruct (LoadMarker (ag_dir g) IoOk) as [m|e] eqn:El.
  - split_and!; [done|by split| |done]. intros Hd. cbn in Hd. unfold LoadMarker, loadMarkerUnlocked in El. rewrite Hd in El. by injection El as <-.
  - exfalso. unfold LoadMarker, loadMarkerUnlocked in El. destruct (d_marker (ag_dir g)) as [raw|]; [|done]. by destruct Hmf0 as [_ [->|[-> _]]].
Qed.

Lemma attempts_durable (l : list (nat * world)) g : Forall (λ '(_, w), w_now w ∈ times) l → durable g → durable (attempts l g).
Proof.
  revert g. induction l as [|[n w] l IH]; intros g Hl0 Hg; [done|]. apply list.Forall_cons in Hl0 as [Ht Hl0]. apply IH; [done|]. destruct (boot_ok n g Hg) as (_ & Hb & Hl & _).
  pose proof (triple_handle w Ht _ Hb Hl) as H. destruct (handleDecommission w req (boot n g)) as [[]?]; cbn; by destruct H.
Qed.

Lemma decommission_completes (l : list (nat * world)) g (n : nat) (w : world) :
  Forall (λ '(_, w), w_now w ∈ times) l → w_now w ∈ times → durable g → good_world w → (10 ≤ n)%nat →
  ∃ g', handleDecommission w req (boot n (attempts l g)) = (Ok tt, g')
    ∧ d_marker (ag_dir g') = Some MarkerDecommissioned ∧ forwards_empty (ag_store g')
    ∧ (∃ t, LoadAgentCleanupTombstone (ag_store g') = Ok (Some (tombstone_of req t))) ∧ is_Some (bget (s_outbox (ag_store g')) op).
Proof.
  intros Hts Ht Hg Hw Hn. apply (attempts_durable l _ Hts) in Hg. destruct (boot_ok n _ Hg) as (_ & Hb & Hl & Hwr).
  pose proof (triple_handle w Ht _ Hb Hl) as H. destruct (handleDecommission w req _) as [[[]|e] g'].
  - destruct H as (Hd' & [Hm Ho] & _). destruct (decommissioned_facts g' Hd' Hm) as (_ & Hc & He). exists g'. split_and!; try done.
    destruct Hd' as [(hi & ht & Hst) _]. rewrite (load_cleanup_stored _ _ _ Hst). apply (stored_has_cleanup _ _ _ Hst) in Hc as [t ->]. by exists t.
  - destruct H as [_ H]. specialize (H Hw). lia.
Qed.
End Request.

(** C14: a decommission command survives every crash.  From an agent whose store knows
    nothing of the operation, after any number of process lifetimes, each a restart
    followed by the command, in any world (failing file operations, a failing stop
    hook, failing secret cleaners) and stopped after any number of durable writes, one
    more restart with working files and enough writes completes the command: the
    marker is DECOMMISSIONED, every bucket of forward state is empty, the cleanup
    tombstone is this operation's, and its result is queued. *)
Theorem decommission_crash_safe (req : DecommissionRequest) (times : list Z) (lives : list (nat * world)) (n : nat) (w : world)
    (s : Store B) (q : option bytes) :
  request_ok req times → stored req times None None s →
  Forall (λ '(_, w), w_now w ∈ times) lives → w_now w ∈ times → good_world w → (10 ≤ n)%nat →
  ∃ g', handleDecommission w req (boot n (attempts req lives (mkAgent s (mkDir None q) NewLatch 0))) = (Ok tt, g')
    ∧ d_marker (ag_dir g') = Some MarkerDecommissioned ∧ forwards_empty (ag_store g')
    ∧ (∃ t, LoadAgentCleanupTombstone (ag_store g') = Ok (Some (tombstone_of req t)))
    ∧ is_Some (bget (s_outbox (ag_store g')) (rq_Operation req)).
Proof. intros Hr Hs Hl Ht Hw Hn. apply (decommission_completes req times); [done..| |done|done]. split; [by exists None, None|done]. Qed.
End DecommissionTheorems.

(** ** A concrete decommission *)

#[export] Instance DecommissionIntent_eq_dec : EqDecision DecommissionIntent.
Proof. solve_decision. Defined.
#[export] Instance DecommissionIntent_countable : Countable DecommissionIntent :=
  inj_countable' (λ i, (di_OperationID i, di_NodeID i, di_Force i, di_DeadlineUnix i, di_AllowedKeyHashes i, di_CredentialVersions i, di_CreatedAtUnix i))
    (λ '(a, b, c, d, e, f, g), mkDecommissionIntent a b c d e f g) ltac:(by intros []).
#[export] Instance AgentCleanupTombstone_eq_dec : EqDecision AgentCleanupTombstone.
Proof. solve_decision. Defined.
#[export] Instance AgentCleanupTombstone_countable : Countable AgentCleanupTombstone :=
  inj_countable' (λ t, (ct_OperationID t, ct_NodeID t, ct_Force t, ct_AllowedKeyHashes t, ct_CredentialVersions t, ct_CreatedAtUnix t))
    (λ '(a, b, c, d, e, f), mkCleanupTombstone a b c d e f) ltac:(by intros []).
#[export] Instance UninstallNotice_eq_dec : EqDecision UninstallNotice.
Proof. solve_decision. Defined.
#[export] Instance UninstallNotice_countable : Countable UninstallNotice :=
  inj_countable' (λ n, (un_OperationID n, un_Connectivity n, un_QueuedAtUnix n, un_Status n)) (λ '(a, b, c, d), mkNotice a b c d) ltac:(by intros []).

Definition w_decommission_env : DecommissionEnv := {|
  dc_intent := countable_row decommission_text;
  dc_tombstone := countable_row cleanup_text;
  dc_notice := countable_row (λ _, true);
  ack_json a := bytes_of (da_Status a)
|}.
#[export] Existing Instance w_decommission_env.
Lemma w_decommission_laws : DecommissionLaws.
Proof. split; apply countable_row_laws. Qed.
#[export] Existing Instance w_decommission_laws.

Definition w_decommission : DecommissionRequest := mkRequest "node" "op9" false 150 ["hash"%string] [1].
Definition w_good (now : Z) : world := mkWorld now IoOk true [true].
Definition w_agent : Agent mapb := mkAgent w_store (mkDir None None) NewLatch 0.


(** Three lifetimes: stopped after one write, stopped before the final marker with a
    failing stop hook, stopped by a full disk. *)
Definition w_lives : list (nat * world) := [(1%nat, w_good 100); (4%nat, mkWorld 100 IoOk false []); (9%nat, mkWorld 200 IoWrite true [])].

Lemma w_decommission_ok : request_ok w_decommission [100; 200].
Proof.
  split; try done.
  - intros t k Ht Hk. apply list_elem_of_In in Ht as [<-|[<-|[]]]; destruct Hk as [->| ->]; by vm_compute.
  - intros t k Ht Hk. apply list_elem_of_In in Ht as [<-|[<-|[]]]; destruct Hk as [->| ->]; by vm_compute.
  - intros st [->| ->]; by vm_compute.
Qed.

Lemma w_fresh : stored w_decommission [100; 200] None None w_store.
Proof. split; [by intros t [?|?]| | |done|by right]; intros k Hk; by destruct (decide _). Qed.

(** The command completes after three failed lifetimes. *)
Lemma decommission_crash_safe_witness :
  ∃ g', handleDecommission (w_good 200) w_decommission (boot 10 (attempts w_decommission w_lives w_agent)) = (Ok tt, g')
    ∧ d_marker (ag_dir g') = Some MarkerDecommissioned.
Proof.
  assert (Hl : Forall (λ '(_, w), w_now w ∈ [100; 200]) w_lives) by (repeat constructor; cbn; set_solver).
  assert (Ht : w_now (w_good 200) ∈ [100; 200]) by (cbn; set_solver).
  assert (Hw : good_world (w_good 200)) by (split_and!; reflexivity).
  assert (Hn : (10 ≤ 10)%nat) by lia.
  destruct (decommission_crash_safe w_decommission [100; 200] w_lives 10 (w_good 200) w_store None w_decommission_ok w_fresh Hl Ht Hw Hn)
    as (g' & H & Hm & _).
  exists g'. split; [exact H|exact Hm].
Defined.

(** ** Where the code misses its intent *)

(** A marker write that fails leaves the latch engaged while the marker is ACTIVE: the
    same command is then refused until the process restarts. *)
Example begin_failure_blocks_retry :
  let failed := handleDecommission (mkWorld 100 IoWrite true []) w_decommission (boot 10 w_agent) in
  d_marker (ag_dir failed.2) = None
  ∧ (handleDecommission (w_good 100) w_decommission failed.2).1 = Err ELatchEngaged
  ∧ is_ok (handleDecommission (w_good 100) w_decommission (boot 10 failed.2)).1 = true.
Proof. by vm_compute. Qed.

(** The operation id "current" collides with the canonical key: the intent is written
    and never found again. *)
Example current_operation_never_completes :
  let req := mkRequest "node" "current" false 0 [] [] in
  let g := handleDecommission (w_good 100) req (boot 10 w_agent) in
  g.1 = Err ErrDecommissionedAgent ∧ d_marker (ag_dir g.2) = Some MarkerDecommissioning
  ∧ (handleDecommission (w_good 100) req (boot 10 g.2)).1 = Err ErrDecommissionedAgent.
Proof. by vm_compute. Qed.

(** A stop between the final marker and the queued result of an expired decommission
    turns the reported status from dropped to completed. *)
Example dropped_status_lost :
  let sent g := bget (s_operations (ag_store g)) "op9" in
  sent (handleDecommission (w_good 200) w_decommission (boot 10 w_agent)).2 = Some (bytes_of DROPPED_status)
  ∧ sent (handleDecommission (w_good 200) w_decommission (boot 10 (attempts w_decommission [(5%nat, w_good 200)] w_agent))).2
    = Some (bytes_of DECOMMISSIONED_status).
Proof. by vm_compute. Qed.
