(* ===== verification/Sql.v ===== *)
(** * Tables and statements

    The SQL subset of [src/internal/controller/store]: a table is its rows in
    [INTEGER PRIMARY KEY] order, a statement is a function on it, and a transaction a
    function that returns the new database or rolls back by failing.  Nullable [TEXT]
    columns are options; a comparison with NULL is not true. *)

From Stdlib Require Import ZArith Lia Sorted.
From stdpp Require Import base tactics list sets strings option.
From S2P Require Import Prelude.

Open Scope Z_scope.

(** ** Statements *)

(** [column = ?] and [COALESCE(column, '')]. *)
Definition sql_eq (column : option string) (v : string) : bool :=
  match column with Some s => String.eqb s v | None => false end.
Definition coalesce (column : option string) : string := default ""%string column.

(** [UPDATE ... SET f WHERE w], its number of rows, [DELETE ... WHERE w],
    [SELECT ... WHERE w] and the row of [QueryRow]. *)
Definition sql_update {R} (w : R → bool) (f : R → R) (t : list R) : list R := map (λ r, if w r then f r else r) t.
Definition sql_count {R} (w : R → bool) (t : list R) : nat := length (List.filter w t).
Definition sql_delete {R} (w : R → bool) (t : list R) : list R := List.filter (λ r, negb (w r)) t.
Definition sql_select {R} (w : R → bool) (t : list R) : list R := List.filter w t.
Definition sql_row {R} (w : R → bool) (t : list R) : option R := head (List.filter w t).
Definition sql_exists {R} (w : R → bool) (t : list R) : bool := existsb w t.

(** ** Transactions *)

Definition stx (S E A : Type) : Type := S → result E (A * S).

Definition sql_ret {S E A} (a : A) : stx S E A := λ s, Ok (a, s).
Definition sql_fail {S E A} (e : E) : stx S E A := λ _, Err e.
Definition sql_bind {S E A C} (m : stx S E A) (k : A → stx S E C) : stx S E C :=
  λ s, match m s with Ok (a, s') => k a s' | Err e => Err e end.
Definition sql_read {S E A} (f : S → A) : stx S E A := λ s, Ok (f s, s).
Definition sql_write {S E} (f : S → S) : stx S E unit := λ s, Ok (tt, f s).
(** A read that may fail. *)
Definition sql_check {S E A} (f : S → result E A) : stx S E A := λ s, match f s with Ok a => Ok (a, s) | Err e => Err e end.

Notation "'sql!' x ':=' c 'in' k" := (sql_bind c (λ x, k)) (at level 10, x pattern, k at level 200) : go_scope.
Notation "'sql_fail_if' b 'with' e ';;' k" := (if b then sql_fail e else k)
  (at level 10, b at level 99, e at level 99, k at level 200) : go_scope.

(** Commit on success, roll back on failure. *)
Definition commit_tx {S E A} (m : stx S E A) (s : S) : result E A * S :=
  match m s with Ok (a, s') => (Ok a, s') | Err e => (Err e, s) end.

(** A Go [for] loop over a slice inside a transaction. *)
Fixpoint sql_iter {S E A} (f : A → stx S E unit) (l : list A) : stx S E unit :=
  match l with [] => sql_ret tt | x :: l' => sql! _ := f x in sql_iter f l' end.

(** ** Lemmas *)

Lemma sql_bind_Ok {S E A C} (m : stx S E A) (k : A → stx S E C) s c s' :
  sql_bind m k s = Ok (c, s') ↔ ∃ a s1, m s = Ok (a, s1) ∧ k a s1 = Ok (c, s').
Proof.
  unfold sql_bind. destruct (m s) as [[a s1]|e]; split.
  - intros H. by exists a, s1.
  - intros (a' & s1' & [= -> ->] & H). done.
  - done.
  - by intros (? & ? & ? & _).
Qed.

Lemma sql_check_Ok {S E A} (f : S → result E A) s a s' : sql_check f s = Ok (a, s') → f s = Ok a ∧ s = s'.
Proof. unfold sql_check. destruct (f s); [|done]. by intros [= <- <-]. Qed.

Lemma in_sql_update {R} (w : R → bool) (f : R → R) (t : list R) (r : R) :
  r ∈ sql_update w f t ↔ ∃ r0, r0 ∈ t ∧ r = if w r0 then f r0 else r0.
Proof. unfold sql_update. rewrite list_elem_of_In, in_map_iff. setoid_rewrite list_elem_of_In. naive_solver. Qed.

Lemma in_sql_delete {R} (w : R → bool) (t : list R) (r : R) : r ∈ sql_delete w t ↔ r ∈ t ∧ w r = false.
Proof. unfold sql_delete. rewrite !list_elem_of_In, List.filter_In, negb_true_iff. done. Qed.

Lemma in_sql_select {R} (w : R → bool) (t : list R) (r : R) : r ∈ sql_select w t ↔ r ∈ t ∧ w r = true.
Proof. unfold sql_select. by rewrite !list_elem_of_In, List.filter_In. Qed.

Lemma sql_row_Some {R} (w : R → bool) (t : list R) (r : R) : sql_row w t = Some r → r ∈ t ∧ w r = true.
Proof.
  unfold sql_row. destruct (List.filter w t) as [|x l] eqn:E; [done|]. intros [= ->]. apply in_sql_select. unfold sql_select.
  rewrite E. by left.
Qed.

Lemma sql_row_None {R} (w : R → bool) (t : list R) (r : R) : sql_row w t = None → r ∈ t → w r = false.
Proof.
  unfold sql_row. destruct (List.filter w t) as [|x l] eqn:E; [|done]. intros _ Hr. destruct (w r) eqn:Ew; [|done].
  assert (H : r ∈ sql_select w t) by by apply in_sql_select. unfold sql_select in H. rewrite E in H. by apply elem_of_nil in H.
Qed.

Lemma sql_exists_true {R} (w : R → bool) (t : list R) : sql_exists w t = true ↔ ∃ r, r ∈ t ∧ w r = true.
Proof. unfold sql_exists. rewrite existsb_exists. by setoid_rewrite list_elem_of_In. Qed.

Lemma sql_exists_row {R} (w : R → bool) (t : list R) : sql_exists w t = false → sql_row w t = None.
Proof.
  intros H. destruct (sql_row w t) as [r|] eqn:E; [|done]. apply sql_row_Some in E. rewrite <- not_true_iff_false in H. destruct H. apply sql_exists_true. by exists r.
Qed.

(** A weaker condition selects at least as much. *)
Lemma sql_exists_weaken {R} (w v : R → bool) (t : list R) : (∀ r, v r = true → w r = true) → sql_exists w t = false → sql_exists v t = false.
Proof.
  intros Hv H. apply not_true_iff_false. intros (r & Hr & He)%sql_exists_true. rewrite <- not_true_iff_false in H. apply H, sql_exists_true.
  exists r. auto.
Qed.

Lemma sql_count_0 {R} (w : R → bool) (t : list R) : sql_count w t = 0%nat ↔ ∀ r, r ∈ t → w r = false.
Proof.
  unfold sql_count. split.
  - intros H r Hr. destruct (w r) eqn:Ew; [|done]. assert (Hin : r ∈ List.filter w t) by (apply in_sql_select; done).
    destruct (List.filter w t); [by apply elem_of_nil in Hin|done].
  - intros H. destruct (List.filter w t) as [|x l] eqn:E; [done|]. assert (Hin : x ∈ sql_select w t) by (unfold sql_select; rewrite E; by left).
    apply in_sql_select in Hin as [Hin Hw]. by rewrite (H x Hin) in Hw.
Qed.

Lemma sql_count_pos {R} (w : R → bool) (t : list R) : sql_count w t ≠ 0%nat → ∃ r, r ∈ t ∧ w r = true.
Proof.
  unfold sql_count. destruct (List.filter w t) as [|r l] eqn:E; [done|]. intros _. exists r. apply in_sql_select. unfold sql_select. rewrite E. by left.
Qed.

Lemma sql_update_none {R} (w : R → bool) (f : R → R) (t : list R) : sql_count w t = 0%nat → sql_update w f t = t.
Proof.
  rewrite sql_count_0. intros H. unfold sql_update. rewrite <- (List.map_id t) at 2. apply map_ext_in. intros r Hr%list_elem_of_In. by rewrite (H r Hr).
Qed.

(** ** Keys *)

(** A table whose rows have pairwise different keys. *)
Definition unique {R K} (key : R → K) (t : list R) : Prop := NoDup (key <$> t).

Lemma unique_inj {R K} (key : R → K) (t : list R) (r1 r2 : R) :
  unique key t → r1 ∈ t → r2 ∈ t → key r1 = key r2 → r1 = r2.
Proof.
  unfold unique. intros Hu [i Hi]%list_elem_of_lookup_1 [j Hj]%list_elem_of_lookup_1 Hk. assert (i = j); [|congruence].
  eapply NoDup_lookup; [exact Hu|rewrite list_lookup_fmap, Hi; done|rewrite list_lookup_fmap, Hj; cbn; by rewrite Hk].
Qed.

Lemma unique_update {R K} (key : R → K) (w : R → bool) (f : R → R) (t : list R) :
  (∀ r, key (f r) = key r) → unique key t → unique key (sql_update w f t).
Proof.
  intros Hk. unfold unique, sql_update. change (map ?g t) with (g <$> t). rewrite <- list_fmap_compose.
  replace ((key ∘ λ r, if w r then f r else r) <$> t) with (key <$> t); [done|]. apply list_fmap_ext. intros i r _. cbn. by destruct (w r).
Qed.

Lemma sublist_filter {R} (w : R → bool) (t : list R) : List.filter w t `sublist_of` t.
Proof. induction t as [|r t IH]; cbn; [constructor|]. destruct (w r); by constructor. Qed.

Lemma unique_delete {R K} (key : R → K) (w : R → bool) (t : list R) : unique key t → unique key (sql_delete w t).
Proof. unfold unique. intros H. eapply sublist_NoDup; [exact H|]. apply fmap_sublist, sublist_filter. Qed.

Lemma unique_insert {R K} (key : R → K) (r : R) (t : list R) :
  unique key t → (∀ x, x ∈ t → key x ≠ key r) → unique key (t ++ [r]).
Proof.
  unfold unique. intros H Hn. rewrite fmap_app. apply list.NoDup_app. split; [done|]. split; [|apply NoDup_singleton].
  intros k (x & -> & Hx)%list_elem_of_fmap Hin%list_elem_of_singleton. by eapply Hn.
Qed.

(** ** Selected rows *)

Lemma sql_row_app {R} (w : R → bool) (t1 t2 : list R) :
  sql_row w (t1 ++ t2) = match sql_row w t1 with Some r => Some r | None => sql_row w t2 end.
Proof. unfold sql_row. rewrite List.filter_app. by destruct (List.filter w t1). Qed.

(** An update that keeps the key maps the selected row. *)
Lemma sql_row_update {R} (key w : R → bool) (f : R → R) (t : list R) :
  (∀ r, w r = true → key (f r) = key r) →
  sql_row key (sql_update w f t) = (λ r, if w r then f r else r) <$> sql_row key t.
Proof.
  intros Hk. unfold sql_row, sql_update. induction t as [|r t IH]; [done|]. cbn.
  assert (Hr : key (if w r then f r else r) = key r) by (destruct (w r) eqn:Ew; auto). rewrite Hr.
  by destruct (key r).
Qed.

Lemma sql_filter_update {R} (key w : R → bool) (f : R → R) (t : list R) :
  (∀ r, r ∈ t → w r = true → key r = false ∧ key (f r) = false) → List.filter key (sql_update w f t) = List.filter key t.
Proof.
  intros Hk. unfold sql_update. induction t as [|r t IH]; [done|]. cbn. rewrite IH; [|intros x Hx; apply Hk; by right]. destruct (w r) eqn:Ew; [|done].
  by destruct (Hk r ltac:(by left) Ew) as [-> ->].
Qed.

Lemma sql_filter_delete {R} (key w : R → bool) (t : list R) :
  (∀ r, r ∈ t → w r = true → key r = false) → List.filter key (sql_delete w t) = List.filter key t.
Proof.
  intros Hk. unfold sql_delete. induction t as [|r t IH]; [done|]. cbn.
  assert (IH' : List.filter key (List.filter (λ r, negb (w r)) t) = List.filter key t) by (apply IH; intros; apply Hk; [by right|done]).
  destruct (w r) eqn:Ew; cbn; [rewrite (Hk r); [done|by left|done]|]. by rewrite IH'.
Qed.

Lemma sql_row_delete {R} (key w : R → bool) (t : list R) :
  (∀ r, r ∈ t → w r = true → key r = false) → sql_row key (sql_delete w t) = sql_row key t.
Proof. intros Hk. unfold sql_row. by rewrite sql_filter_delete. Qed.

(** A key column selects the only row that has it. *)
Lemma sql_row_unique {R K} (k : R → K) (w : R → bool) (t : list R) (r : R) :
  unique k t → (∀ x, w x = true ↔ k x = k r) → r ∈ t → sql_row w t = Some r.
Proof.
  intros Hu Hw Hr. destruct (sql_row w t) as [x|] eqn:E.
  - apply sql_row_Some in E as [Hx Hwx]. f_equal. apply (unique_inj k t); auto. by apply Hw.
  - pose proof (sql_row_None _ _ _ E Hr) as Hf. assert (w r = true) by by apply Hw. congruence.
Qed.

Lemma Forall_sql_update {R} (P : R → Prop) (w : R → bool) (f : R → R) (t : list R) :
  (∀ r, P r → w r = true → P (f r)) → Forall P t → Forall P (sql_update w f t).
Proof.
  intros Hf Ht. apply list.Forall_forall. intros r (r0 & Hr0 & ->)%in_sql_update.
  assert (P r0) by (eapply list.Forall_forall; eassumption). destruct (w r0) eqn:E; auto.
Qed.

Lemma Forall_sql_delete {R} (P : R → Prop) (w : R → bool) (t : list R) : Forall P t → Forall P (sql_delete w t).
Proof. intros Ht. apply list.Forall_forall. intros r [Hr _]%in_sql_delete. eapply list.Forall_forall; eassumption. Qed.

Lemma fmap_sql_update {R K} (k : R → K) (w : R → bool) (f : R → R) (t : list R) :
  (∀ r, k (f r) = k r) → k <$> sql_update w f t = k <$> t.
Proof.
  intros Hk. unfold sql_update. change (map ?g t) with (g <$> t). rewrite <- list_fmap_compose.
  apply list_fmap_ext. intros i r _. cbn. by destruct (w r).
Qed.

Lemma StronglySorted_filter {R} (k : R → Z) (w : R → bool) (t : list R) :
  StronglySorted Z.lt (k <$> t) → StronglySorted Z.lt (k <$> List.filter w t).
Proof.
  induction t as [|r t IH]; [done|]. cbn. intros [Hs Hf]%StronglySorted_inv. destruct (w r); [|auto]. cbn. constructor; [auto|].
  apply list.Forall_forall. intros z (x & -> & Hx)%list_elem_of_fmap. rewrite list.Forall_forall in Hf. apply Hf, list_elem_of_fmap.
  exists x. split; [done|]. by apply in_sql_select in Hx as [Hx _].
Qed.

Lemma StronglySorted_snoc (l : list Z) (z : Z) : StronglySorted Z.lt l → Forall (λ x, x < z) l → StronglySorted Z.lt (l ++ [z]).
Proof.
  induction l as [|x l IH]; cbn; intros Hs Hf; [constructor; [constructor|constructor]|].
  apply StronglySorted_inv in Hs as [Hs Hx]. apply list.Forall_cons in Hf as [Hxz Hf]. constructor; [auto|].
  apply Forall_app. split; [done|]. by constructor.
Qed.

Lemma sql_delete_ext {R} (w1 w2 : R → bool) t : (∀ r, r ∈ t → w1 r = w2 r) → sql_delete w1 t = sql_delete w2 t.
Proof.
  intros H. unfold sql_delete. induction t as [|r t IH]; [done|]. cbn. rewrite (H r) by by left. rewrite IH; [done|].
  intros x Hx. apply H. by right.
Qed.

Lemma sql_delete_delete {R} (w1 w2 : R → bool) t : sql_delete w2 (sql_delete w1 t) = sql_delete (λ r, w1 r || w2 r) t.
Proof. unfold sql_delete. induction t as [|r t IH]; [done|]. cbn. destruct (w1 r); cbn; [done|]. destruct (w2 r); cbn; by rewrite IH. Qed.

Lemma sql_count_unique {R K} (k : R → K) (w : R → bool) t r :
  unique k t → r ∈ t → w r = true → (∀ x, x ∈ t → w x = true → k x = k r) → sql_count w t = 1%nat.
Proof.
  intros Hu Hr Hw Hk. unfold sql_count, unique in *. induction t as [|x t IH]; [by apply elem_of_nil in Hr|]. cbn in *.
  apply list.NoDup_cons in Hu as [Hx Hu]. assert (Hz : x = r → sql_count w t = 0%nat).
  { intros ->. apply sql_count_0. intros y Hy. destruct (w y) eqn:Ey; [|done]. exfalso. apply Hx.
    rewrite <- (Hk y); [|by right|done]. apply list_elem_of_fmap. by exists y. }
  apply elem_of_cons in Hr as [<- | Hr].
  - rewrite Hw. cbn. by f_equal; apply Hz.
  - destruct (w x) eqn:Ex.
    + exfalso. apply Hx. rewrite (Hk x); [|by left|done]. apply list_elem_of_fmap. by exists r.
    + apply IH; auto. intros y Hy. apply Hk. by right.
Qed.

(** [sql_walk H] walks through the statements of a committed transaction in [H]. *)
Ltac sql_walk H :=
  repeat (cbv beta iota zeta in H;
    match type of H with
    | sql_bind _ _ _ = Ok _ =>
        let a := fresh "a" in let s1 := fresh "s" in let Hm := fresh "Hm" in
        apply sql_bind_Ok in H as (a & s1 & Hm & H);
        try (unfold sql_read, sql_write, sql_ret in Hm; injection Hm as ? ?; subst a; try subst s1)
    | sql_ret _ _ = Ok _ => unfold sql_ret in H; injection H as ? ?
    | sql_read _ _ = Ok _ => unfold sql_read in H; injection H as ? ?
    | sql_write _ _ = Ok _ => unfold sql_write in H; injection H as ? ?
    | sql_fail _ _ = Ok _ => discriminate H
    | (if ?b then _ else _) _ = Ok _ => let E := fresh "E" in destruct b eqn:E; try discriminate H
    | (match ?o with _ => _ end) _ = Ok _ => let E := fresh "E" in destruct o eqn:E; try discriminate H
    end); subst.

(** [sql_inv H] also goes through checked reads and ends with the equations of the
    result. *)
Ltac sql_inv H :=
  repeat (cbv beta iota zeta in H;
    match type of H with
    | sql_bind _ _ _ = Ok _ =>
        let a := fresh "a" in let s1 := fresh "s" in let Hm := fresh "Hm" in
        apply sql_bind_Ok in H as (a & s1 & Hm & H);
        first
        [ unfold sql_read, sql_ret in Hm; injection Hm as ? ?; subst a s1
        | unfold sql_write in Hm; injection Hm as ?; subst s1
        | apply sql_check_Ok in Hm as [Hm <-]
        | idtac ]
    | sql_check _ _ = Ok _ => let Hs := fresh "Hs" in apply sql_check_Ok in H as [H Hs]
    | sql_fail _ _ = Ok _ => discriminate H
    | (if ?b then _ else _) _ = Ok _ => let E := fresh "E" in destruct b eqn:E; try discriminate H
    | (match ?o with _ => _ end) _ = Ok _ => let E := fresh "E" in destruct o eqn:E; try discriminate H
    end);
  try (unfold sql_ret, sql_write, sql_read in H; simplify_eq).

(** ** Transactions that move along a preorder

    A committed transaction relates the states before and after it. *)
Section Moves.
Context {S E : Type} (R : S → S → Prop).

Definition moves {A} (m : stx S E A) : Prop := ∀ s a s', m s = Ok (a, s') → R s s'.
Definition moves_at {A} (s : S) (m : stx S E A) : Prop := ∀ a s', m s = Ok (a, s') → R s s'.

Lemma moves_all {A} (m : stx S E A) : (∀ s, moves_at s m) → moves m.
Proof. intros H s a s'. apply H. Qed.
Lemma moves_here {A} (m : stx S E A) s : moves m → moves_at s m.
Proof. intros H a s'. apply H. Qed.
Lemma moves_fail {A} e : moves (A := A) (sql_fail e).
Proof. by intros s a s'. Qed.
Lemma moves_at_read {A C} (f : S → A) (k : A → stx S E C) s : moves_at s (k (f s)) → moves_at s (sql_bind (sql_read f) k).
Proof. intros H a s' Hs. exact (H a s' Hs). Qed.
Lemma moves_at_check {A C} (f : S → result E A) (k : A → stx S E C) s :
  (∀ a, f s = Ok a → moves_at s (k a)) → moves_at s (sql_bind (sql_check f) k).
Proof. intros H c s' Hs. unfold sql_bind, sql_check in Hs. destruct (f s) as [a|e]; [|done]. by eapply H. Qed.

Context `{!PreOrder R}.

Lemma moves_ret {A} (a : A) : moves (sql_ret a).
Proof. intros s b s' [= <- <-]. reflexivity. Qed.
Lemma moves_last_check {A} (f : S → result E A) : moves (sql_check f).
Proof. intros s a s' H. unfold sql_check in H. destruct (f s); [|done]. injection H as <- <-. reflexivity. Qed.
Lemma moves_read {A} (f : S → A) : moves (sql_read f).
Proof. intros s b s' [= <- <-]. reflexivity. Qed.
Lemma moves_bind {A C} (m : stx S E A) (k : A → stx S E C) : moves m → (∀ a, moves (k a)) → moves (sql_bind m k).
Proof. intros Hm Hk s c s' (a & s1 & H1 & H2)%sql_bind_Ok. etrans; [by eapply Hm|by eapply Hk]. Qed.
Lemma moves_iter {A} (f : A → stx S E unit) l : (∀ a, moves (f a)) → moves (sql_iter f l).
Proof. intros H. induction l as [|a l IH]; cbn; [apply moves_ret|]. by apply moves_bind. Qed.
Lemma moves_at_write {C} (f : S → S) (k : unit → stx S E C) s : R s (f s) → moves (k tt) → moves_at s (sql_bind (sql_write f) k).
Proof. intros H Hk a s' Hs. etrans; [exact H|by eapply Hk]. Qed.
Lemma moves_last_write (f : S → S) s : R s (f s) → moves_at s (sql_write f).
Proof. intros H a s' [= _ <-]. exact H. Qed.
Lemma moves_commit {A} (m : stx S E A) s : moves m → R s (commit_tx m s).2.
Proof. intros H. unfold commit_tx. destruct (m s) as [[a s']|e] eqn:Em; [by eapply H|]. reflexivity. Qed.
End Moves.

(** [mv leaf]: split a transaction into its writes, each closed by [leaf]. *)
Ltac mv leaf :=
  repeat
    match goal with
    | |- PreOrder _ => apply _
    | |- moves _ (sql_ret _) => apply moves_ret
    | |- moves _ (sql_fail _) => apply moves_fail
    | |- moves _ (sql_check _) => apply moves_last_check
    | |- moves _ (sql_read _) => apply moves_read
    | |- moves _ (sql_iter _ _) => apply moves_iter; [apply _|intros ?a]
    | |- moves _ (if ?b then _ else _) => destruct b eqn:?
    | |- moves _ (match ?o with _ => _ end) => destruct o eqn:?
    | |- moves _ (sql_bind (sql_read _) _) => apply moves_all; intros ?s; apply moves_at_read; cbv beta
    | |- moves _ (sql_bind (sql_check _) _) => apply moves_all; intros ?s; apply moves_at_check; intros ? ?; cbv beta
    | |- moves _ (sql_bind (sql_write _) _) => apply moves_all; intros ?s
    | |- moves _ (sql_write _) => apply moves_all; intros ?s
    | |- moves _ (sql_bind _ _) => apply moves_bind; [apply _| |intros ?a]
    | |- moves_at _ _ (sql_bind (sql_read _) _) => apply moves_at_read; cbv beta
    | |- moves_at _ _ (sql_bind (sql_check _) _) => apply moves_at_check; intros ? ?; cbv beta
    | |- moves_at _ _ (sql_bind (sql_write _) _) => apply moves_at_write; [apply _|cbv beta; leaf|]
    | |- moves_at _ _ (sql_write _) => apply moves_last_write; cbv beta; leaf
    | |- moves_at _ _ (if ?b then _ else _) => destruct b eqn:?
    | |- moves_at _ _ (match ?o with _ => _ end) => destruct o eqn:?
    | |- moves _ _ => progress cbv zeta
    | |- moves_at _ _ _ => progress cbv zeta
    | |- moves_at _ _ _ => apply moves_here
    end.
