(* ===== verification/Control.v ===== *)
(** * The Controller's control store

    [src/internal/controller/store/control.go], [outbox.go], [nodes.go] and the inbox
    reads of [minapi.go], with the delivery gate of [lifecycle.go]: the control outbox
    and inbox tables, the nodes with their connection owner, and every operation on
    them.  An operation is one SQLite transaction or one statement, so it commits or
    has no effect; a diagnostic [SELECT] after a statement that matched no row reads
    the state of that statement.  Columns that no operation of these files reads
    ([attempt_count], [created_at] of the control tables) are left out. *)

From Stdlib Require Import ZArith Lia Strings.Byte.
From stdpp Require Import base tactics list sets strings option.
From S2P Require Import Prelude GoStd Frame Probe Sql.

Open Scope Z_scope.

Inductive CsError : Type :=
  | CsIllegalPhase | CsStaleSession | CsStaleControlOwner | CsMessageConflict | CsNotFound | CsNodeNotFound | CsCASConflict
  | CsIncomplete           (* a required argument is empty *)
  | CsNoRows               (* a row that a statement relied on is gone *)
  | CsNullScan             (* scanning NULL into a Go string *)
  | CsConstraint           (* a UNIQUE, FOREIGN KEY or STRICT constraint *)
  | CsBind                 (* a uint64 with its high bit set as a SQL argument *)
  | CsRefused              (* the enqueue guard *)
  | CsUnknownCorrelation.

(** ** Tables *)

Record OutboxRow : Type := mkOutbox {
  ob_id : Z; ob_operation : string; ob_type : string; ob_node : string; ob_payload : string; ob_state : string;
  ob_session : option string; ob_retry : Z; ob_command : option string; ob_result : option string;
  ob_controller_result : option string; ob_updated : Z
}.

Record InboxRow : Type := mkInbox {
  ib_id : Z; ib_message : string; ib_node : string; ib_type : string; ib_payload : string; ib_state : string;
  ib_operation : option string; ib_updated : Z
}.

Record NodeRow : Type := mkNode {
  nd_id : string; nd_name : string; nd_epoch : Z; nd_session : option string; nd_control : string; nd_revision : Z;
  nd_quarantined : bool; nd_quarantine_op : string; nd_quarantine_gen : Z; nd_created : Z; nd_updated : Z
}.

(** Rows of the probe and deletion tables, in the columns read here, and of the
    cleanup and restore tables; the JSON lists of a cleanup row are kept decoded. *)
Record ProbeOpRow : Type := mkProbeOp {
  po_id : string; po_node : string; po_forward : string; po_activation : string; po_revision : Z; po_provider : string; po_status : string;
  po_endpoint : string; po_arm : string; po_challenge : string; po_ttl : Z; po_opaque : string; po_expires : Z; po_created : Z; po_updated : Z
}.
Record TerminalRow : Type := mkTerminal {
  tm_probe : string; tm_disposition : string; tm_outcome : string; tm_node : string; tm_forward : string; tm_activation : string; tm_created : Z; tm_updated : Z
}.
Record ResultRow : Type := mkResultRow { rr_probe : string; rr_kind : string; rr_payload : string; rr_created : Z }.
Record DeletionRow : Type := mkDeletion {
  dl_id : string; dl_forward : string; dl_status : string; dl_revision : Z; dl_created : Z; dl_completed : option Z
}.
Record CleanupRow : Type := mkCleanup {
  cl_id : string; cl_node : string; cl_operation : string; cl_force : bool; cl_confirmed : bool; cl_hashes : list string; cl_versions : list Z;
  cl_created : Z; cl_updated : Z
}.
Record RestoreRow : Type := mkRestore {
  rs_id : string; rs_instance : string; rs_manifest : string; rs_schema : Z; rs_phase : string; rs_created : Z; rs_updated : Z
}.

Record db : Type := mkDb {
  t_outbox : list OutboxRow; t_inbox : list InboxRow; t_nodes : list NodeRow; t_deletions : list DeletionRow;
  t_probes : list ProbeOpRow; t_terminals : list TerminalRow; t_results : list ResultRow;
  t_cleanup : list CleanupRow; t_restores : list RestoreRow; t_seq_outbox : Z; t_seq_inbox : Z
}.

Definition set_outbox (d : db) (t : list OutboxRow) : db :=
  mkDb t (t_inbox d) (t_nodes d) (t_deletions d) (t_probes d) (t_terminals d) (t_results d) (t_cleanup d) (t_restores d) (t_seq_outbox d) (t_seq_inbox d).
Definition set_inbox (d : db) (t : list InboxRow) : db :=
  mkDb (t_outbox d) t (t_nodes d) (t_deletions d) (t_probes d) (t_terminals d) (t_results d) (t_cleanup d) (t_restores d) (t_seq_outbox d) (t_seq_inbox d).
Definition set_nodes (d : db) (t : list NodeRow) : db :=
  mkDb (t_outbox d) (t_inbox d) t (t_deletions d) (t_probes d) (t_terminals d) (t_results d) (t_cleanup d) (t_restores d) (t_seq_outbox d) (t_seq_inbox d).
Definition set_terminals (d : db) (t : list TerminalRow) : db :=
  mkDb (t_outbox d) (t_inbox d) (t_nodes d) (t_deletions d) (t_probes d) t (t_results d) (t_cleanup d) (t_restores d) (t_seq_outbox d) (t_seq_inbox d).
Definition set_probes (d : db) (t : list ProbeOpRow) : db :=
  mkDb (t_outbox d) (t_inbox d) (t_nodes d) (t_deletions d) t (t_terminals d) (t_results d) (t_cleanup d) (t_restores d) (t_seq_outbox d) (t_seq_inbox d).
Definition set_results (d : db) (t : list ResultRow) : db :=
  mkDb (t_outbox d) (t_inbox d) (t_nodes d) (t_deletions d) (t_probes d) (t_terminals d) t (t_cleanup d) (t_restores d) (t_seq_outbox d) (t_seq_inbox d).
Definition set_deletions (d : db) (t : list DeletionRow) : db :=
  mkDb (t_outbox d) (t_inbox d) (t_nodes d) t (t_probes d) (t_terminals d) (t_results d) (t_cleanup d) (t_restores d) (t_seq_outbox d) (t_seq_inbox d).
Definition set_cleanup (d : db) (t : list CleanupRow) : db :=
  mkDb (t_outbox d) (t_inbox d) (t_nodes d) (t_deletions d) (t_probes d) (t_terminals d) (t_results d) t (t_restores d) (t_seq_outbox d) (t_seq_inbox d).
Definition set_restores (d : db) (t : list RestoreRow) : db :=
  mkDb (t_outbox d) (t_inbox d) (t_nodes d) (t_deletions d) (t_probes d) (t_terminals d) (t_results d) (t_cleanup d) t (t_seq_outbox d) (t_seq_inbox d).
Definition insert_outbox (d : db) (r : OutboxRow) : db :=
  mkDb (t_outbox d ++ [r]) (t_inbox d) (t_nodes d) (t_deletions d) (t_probes d) (t_terminals d) (t_results d) (t_cleanup d) (t_restores d)
    (t_seq_outbox d + 1) (t_seq_inbox d).
Definition insert_inbox (d : db) (r : InboxRow) : db :=
  mkDb (t_outbox d) (t_inbox d ++ [r]) (t_nodes d) (t_deletions d) (t_probes d) (t_terminals d) (t_results d) (t_cleanup d) (t_restores d)
    (t_seq_outbox d) (t_seq_inbox d + 1).

Definition ct (A : Type) : Type := stx db CsError A.

(** Assignments of [SET] clauses. *)
Definition ob_advance (state : string) (now : Z) (r : OutboxRow) : OutboxRow :=
  mkOutbox (ob_id r) (ob_operation r) (ob_type r) (ob_node r) (ob_payload r) state (ob_session r) (ob_retry r) (ob_command r) (ob_result r)
    (ob_controller_result r) now.
Definition ob_bind (state session : string) (now : Z) (r : OutboxRow) : OutboxRow :=
  mkOutbox (ob_id r) (ob_operation r) (ob_type r) (ob_node r) (ob_payload r) state (Some session) (ob_retry r) (ob_command r) (ob_result r)
    (ob_controller_result r) now.
Definition ob_backoff (session : string) (retry now : Z) (r : OutboxRow) : OutboxRow :=
  mkOutbox (ob_id r) (ob_operation r) (ob_type r) (ob_node r) (ob_payload r) "PENDING" (Some session) retry (ob_command r) (ob_result r)
    (ob_controller_result r) now.
Definition ib_dispose (state : string) (now : Z) (r : InboxRow) : InboxRow :=
  mkInbox (ib_id r) (ib_message r) (ib_node r) (ib_type r) (ib_payload r) state (ib_operation r) now.
Definition ib_bind (operationID : string) (now : Z) (r : InboxRow) : InboxRow :=
  mkInbox (ib_id r) (ib_message r) (ib_node r) (ib_type r) (ib_payload r) (ib_state r) (Some operationID) now.

#[export] Instance OutboxRow_eq_dec : EqDecision OutboxRow.
Proof. solve_decision. Defined.
#[export] Instance InboxRow_eq_dec : EqDecision InboxRow.
Proof. solve_decision. Defined.

(** ** Nodes and their owners *)

Record ControlOwner : Type := mkOwner { ow_NodeID : string; ow_ConnectionEpoch : Z; ow_SessionID : string }.

(** [EXISTS (SELECT 1 FROM nodes WHERE id = ... AND current_connection_epoch = ... AND current_session_id = ...)] *)
Definition node_owned (node : string) (epoch : Z) (session : string) (d : db) : bool :=
  sql_exists (λ n, String.eqb (nd_id n) node && (nd_epoch n =? epoch) && sql_eq (nd_session n) session) (t_nodes d).

Definition validateOwner (owner : ControlOwner) : result CsError unit :=
  fail_if String.eqb (ow_NodeID owner) "" || String.eqb (ow_SessionID owner) "" || (ow_ConnectionEpoch owner =? 0) with CsStaleControlOwner ;;
  Ok tt.

(** An owner argument: validated, then bound as a SQL parameter. *)
Definition fenced {A} (owner : ControlOwner) (k : ct A) : ct A :=
  match validateOwner owner with
  | Err e => sql_fail e
  | Ok _ => sql_fail_if 2 ^ 63 <=? ow_ConnectionEpoch owner with CsBind ;; k
  end.

Definition owns (owner : ControlOwner) (node : string) (d : db) : bool :=
  node_owned node (ow_ConnectionEpoch owner) (ow_SessionID owner) d.

Definition RequireCurrentControlOwner (owner : ControlOwner) : ct unit :=
  fenced owner (
    sql! matched := sql_read (owns owner (ow_NodeID owner)) in
    sql_fail_if negb matched with CsStaleControlOwner ;; sql_ret tt).

Definition orDefault (v def : string) : string := if String.eqb v "" then def else v.

(** [capacity] is the low-disk policy; ids and names are unique. *)
Definition CreateNode (capacity : bool) (now : Z) (n : NodeRow) : ct unit :=
  sql_fail_if negb capacity with CsRefused ;;
  sql_fail_if 2 ^ 63 <=? nd_epoch n with CsBind ;;
  sql_fail_if 2 ^ 63 <=? nd_revision n with CsBind ;;
  sql! clash := sql_read (λ d, sql_exists (λ m, String.eqb (nd_id m) (nd_id n) || String.eqb (nd_name m) (nd_name n)) (t_nodes d)) in
  sql_fail_if clash with CsConstraint ;;
  sql_write (λ d, set_nodes d (t_nodes d ++ [mkNode (nd_id n) (nd_name n) (nd_epoch n) (Some (coalesce (nd_session n)))
    (orDefault (nd_control n) "OFFLINE") (nd_revision n) false "" 0 now now])).

Definition GetNode (d : db) (id : string) : result CsError NodeRow :=
  match sql_row (λ n, String.eqb (nd_id n) id) (t_nodes d) with
  | None => Err CsNodeNotFound
  | Some n => match nd_session n with Some _ => Ok n | None => Err CsNullScan end
  end.

Definition grant (session : string) (now : Z) (n : NodeRow) : NodeRow :=
  mkNode (nd_id n) (nd_name n) (nd_epoch n + 1) (Some session) (nd_control n) (nd_revision n + 1) (nd_quarantined n) (nd_quarantine_op n) (nd_quarantine_gen n) (nd_created n) now.

(** The epoch is an SQLite integer: its increment past the largest is rejected by the
    STRICT table. *)
Definition AcquireControlOwner (now : Z) (id : string) (expectedEpoch : Z) (newSessionID : string) : ct ControlOwner :=
  sql_fail_if 2 ^ 63 <=? expectedEpoch with CsBind ;;
  let w n := String.eqb (nd_id n) id && (nd_epoch n =? expectedEpoch) in
  sql! overflow := sql_read (λ d, sql_exists (λ n, w n && ((2 ^ 63 - 1 <=? nd_epoch n) || (2 ^ 63 - 1 <=? nd_revision n))) (t_nodes d)) in
  sql_fail_if overflow with CsConstraint ;;
  sql! n := sql_read (λ d, sql_count w (t_nodes d)) in
  sql! _ := sql_write (λ d, set_nodes d (sql_update w (grant newSessionID now) (t_nodes d))) in
  sql_fail_if negb (n =? 1)%nat with CsCASConflict ;;
  sql_ret (mkOwner id (expectedEpoch + 1) newSessionID).

Definition CASNodeConnectionEpoch (now : Z) (id : string) (expectedEpoch : Z) (newSessionID : string) : ct unit :=
  sql! _ := AcquireControlOwner now id expectedEpoch newSessionID in sql_ret tt.

Definition nd_online (state : string) (now : Z) (n : NodeRow) : NodeRow :=
  mkNode (nd_id n) (nd_name n) (nd_epoch n) (nd_session n) state (nd_revision n) (nd_quarantined n) (nd_quarantine_op n) (nd_quarantine_gen n) (nd_created n) now.

Definition SetNodeControlState (now : Z) (nodeID state : string) : ct unit :=
  let w n := String.eqb (nd_id n) nodeID in
  sql! n := sql_read (λ d, sql_count w (t_nodes d)) in
  sql! _ := sql_write (λ d, set_nodes d (sql_update w (nd_online state now) (t_nodes d))) in
  sql_fail_if negb (n =? 1)%nat with CsNodeNotFound ;; sql_ret tt.

Definition SetNodeControlStateOwned (now : Z) (owner : ControlOwner) (state : string) : ct unit :=
  fenced owner (
    let w n := String.eqb (nd_id n) (ow_NodeID owner) && (nd_epoch n =? ow_ConnectionEpoch owner) && sql_eq (nd_session n) (ow_SessionID owner) in
    sql! n := sql_read (λ d, sql_count w (t_nodes d)) in
    sql! _ := sql_write (λ d, set_nodes d (sql_update w (nd_online state now) (t_nodes d))) in
    sql_fail_if negb (n =? 1)%nat with CsStaleControlOwner ;; sql_ret tt).

(** ** The delivery gate *)

Definition cleanupOnlyForbiddenTypes (messageType : string) : bool :=
  existsb (String.eqb messageType) ["desired"; "forward_delete"; "probe_arm"; "probe_outcome"; "restore_result"; "key_rotation_prepare";
    "key_rotation_commit"; "restore_reconcile"]%string.

Definition IsCleanupOnly (d : db) (nodeID : string) : bool :=
  if String.eqb nodeID "" then false else existsb (λ c, String.eqb (cl_node c) nodeID) (t_cleanup d).
Definition IsRestoreReconciling (d : db) : bool := existsb (λ r, negb (String.eqb (rs_phase r) "AUTHORIZED")) (t_restores d).
Definition IsNodeQuarantined (d : db) (nodeID : string) : bool :=
  if String.eqb nodeID "" then false
  else match sql_row (λ n, String.eqb (nd_id n) nodeID) (t_nodes d) with Some n => nd_quarantined n | None => false end.

Definition DeliveryAllowed (d : db) (nodeID messageType : string) : bool :=
  if String.eqb messageType "" then true
  else if String.eqb nodeID "" then true
  else if IsCleanupOnly d nodeID then String.eqb messageType "node_decommission"
  else if negb (cleanupOnlyForbiddenTypes messageType) then true
  else if IsRestoreReconciling d then false
  else negb (IsNodeQuarantined d nodeID).

Definition EnforceCleanupOnlyEnqueue (d : db) (nodeID messageType : string) : result CsError unit :=
  if String.eqb messageType "" then Ok tt
  else if negb (cleanupOnlyForbiddenTypes messageType) then Ok tt
  else
    fail_if IsRestoreReconciling d with CsRefused ;;
    fail_if negb (String.eqb nodeID "") && IsNodeQuarantined d nodeID with CsRefused ;;
    fail_if IsCleanupOnly d nodeID with CsRefused ;;
    Ok tt.

(** ** The outbox *)

Record ControlOutboxItem : Type := mkItem {
  ci_OperationID : string; ci_MessageType : string; ci_NodeID : string; ci_SemanticPayload : string; ci_State : string; ci_RetryAfterUnix : Z
}.
Definition item_of (r : OutboxRow) : ControlOutboxItem :=
  mkItem (ob_operation r) (ob_type r) (ob_node r) (ob_payload r) (ob_state r) (ob_retry r).

(** The row of a pair of operation and message type. *)
Definition ob_at (operationID messageType : string) (r : OutboxRow) : bool :=
  String.eqb (ob_operation r) operationID && String.eqb (ob_type r) messageType.

Section Enqueue.
Context `{!Crypto}.

Definition deterministicMessageID (operationID messageType : string) : string :=
  hex_of (take 16 (sha256 (bytes_of "antinat-msgid-v1" ++ [Byte.x00] ++ bytes_of operationID ++ [Byte.x00] ++ bytes_of messageType))).

Definition EnqueueControlOutbox (now : Z) (item : ControlOutboxItem) : ct unit := λ d,
  match EnforceCleanupOnlyEnqueue d (ci_NodeID item) (ci_MessageType item) with
  | Err e => Err e
  | Ok _ =>
      let commandID := deterministicMessageID (ci_OperationID item) (ci_MessageType item) in
      let resultID := deterministicMessageID commandID "operation_complete" in
      let controllerResultID := deterministicMessageID (ci_OperationID item) "operation_complete" in
      (sql_fail_if sql_exists (ob_at (ci_OperationID item) (ci_MessageType item)) (t_outbox d) with CsConstraint ;;
       sql_write (λ d, insert_outbox d (mkOutbox (t_seq_outbox d + 1) (ci_OperationID item) (ci_MessageType item) (ci_NodeID item)
         (ci_SemanticPayload item) "PENDING" None 0 (Some commandID) (Some resultID) (Some controllerResultID) now))) d
  end.
End Enqueue.

Definition ControlOutboxCount (d : db) (nodeID : string) : nat := sql_count (λ r, String.eqb (ob_node r) nodeID) (t_outbox d).

Definition correlation_column (correlation : string) : option (OutboxRow → option string) :=
  if String.eqb correlation "command" then Some ob_command
  else if String.eqb correlation "operation_complete" then Some ob_result
  else if String.eqb correlation "controller_operation_complete" then Some ob_controller_result
  else None.

Definition ControlOutboxItemByCorrelation (d : db) (nodeID messageID correlation : string) (states : list string)
    : result CsError ControlOutboxItem :=
  match correlation_column correlation with
  | None => Err CsUnknownCorrelation
  | Some column =>
      match states with
      | [] => Err CsNotFound
      | _ =>
          match sql_row (λ r, String.eqb (ob_node r) nodeID && sql_eq (column r) messageID && existsb (String.eqb (ob_state r)) states) (t_outbox d) with
          | None => Err CsNotFound
          | Some r => Ok (item_of r)
          end
      end
  end.

Definition ControlOutboxItemByOperation (d : db) (operationID messageType : string) : result CsError ControlOutboxItem :=
  match sql_row (ob_at operationID messageType) (t_outbox d) with None => Err CsNotFound | Some r => Ok (item_of r) end.

(** The statement of a claim, for one row. *)
Definition claim_row (now : Z) (owner : ControlOwner) (is_fenced : bool) (id : Z) : ct unit :=
  sql! d := sql_read (λ d, d) in
  let w r := (ob_id r =? id) && String.eqb (ob_state r) "PENDING" && (negb is_fenced || owns owner (ob_node r) d) in
  sql! _ := sql_write (λ d, set_outbox d (sql_update w (ob_bind "CLAIMED" (ow_SessionID owner) now) (t_outbox d))) in
  sql_fail_if negb (sql_count w (t_outbox d) =? 1)%nat with CsIllegalPhase ;; sql_ret tt.

Definition claimControlOutbox (clock now : Z) (nodeID : string) (owner : ControlOwner) (limit : Z) (is_fenced : bool)
    : ct (list ControlOutboxItem) :=
  let body :=
    let limit := if limit <=? 0 then 100 else limit in
    sql! d := sql_read (λ d, d) in
    let rows := take (Z.to_nat limit) (sql_select (λ r, String.eqb (ob_node r) nodeID && String.eqb (ob_state r) "PENDING" && (ob_retry r <=? clock)
                  && (negb is_fenced || owns owner (ob_node r) d)) (t_outbox d)) in
    sql! _ := sql_iter (claim_row now owner is_fenced) (ob_id <$> rows) in
    sql_ret ((λ r, mkItem (ob_operation r) (ob_type r) (ob_node r) (ob_payload r) "CLAIMED" (ob_retry r)) <$> rows) in
  if is_fenced then fenced owner body else body.

Definition ClaimControlOutbox (clock now : Z) (nodeID sessionID : string) (limit : Z) : ct (list ControlOutboxItem) :=
  claimControlOutbox clock now nodeID (mkOwner nodeID 0 sessionID) limit false.
Definition ClaimControlOutboxOwned (clock now : Z) (owner : ControlOwner) (limit : Z) : ct (list ControlOutboxItem) :=
  claimControlOutbox clock now (ow_NodeID owner) owner limit true.

(** Why a transition matched no row. *)
Definition transition_error (operationID messageType sessionID : string) (otherwise : CsError) (d : db) : CsError :=
  match sql_row (ob_at operationID messageType) (t_outbox d) with
  | None => CsIllegalPhase
  | Some r =>
      match ob_session r with
      | None => CsNullScan
      | Some session => if negb (String.eqb session sessionID) then CsStaleSession else otherwise
      end
  end.

Definition outboxTransitionOwned (now : Z) (operationID messageType : string) (owner : ControlOwner) (want next : string) : ct unit :=
  fenced owner (
    sql! d := sql_read (λ d, d) in
    let w r := ob_at operationID messageType r && String.eqb (ob_state r) want && sql_eq (ob_session r) (ow_SessionID owner)
               && owns owner (ob_node r) d in
    sql! _ := sql_write (λ d, set_outbox d (sql_update w (ob_advance next now) (t_outbox d))) in
    sql_fail_if (sql_count w (t_outbox d) =? 0)%nat
      with transition_error operationID messageType (ow_SessionID owner) CsStaleControlOwner d ;;
    sql_ret tt).

Definition outboxTransitionLegacy (now : Z) (operationID messageType sessionID want next : string) : ct unit :=
  sql! d := sql_read (λ d, d) in
  let w r := ob_at operationID messageType r && String.eqb (ob_state r) want && sql_eq (ob_session r) sessionID in
  sql! _ := sql_write (λ d, set_outbox d (sql_update w (ob_advance next now) (t_outbox d))) in
  sql_fail_if (sql_count w (t_outbox d) =? 0)%nat with transition_error operationID messageType sessionID CsIllegalPhase d ;;
  sql_ret tt.

Definition MarkControlOutboxSent (now : Z) (operationID messageType sessionID : string) : ct unit :=
  outboxTransitionLegacy now operationID messageType sessionID "CLAIMED" "SENT".
Definition MarkControlOutboxSentOwned (now : Z) (operationID messageType : string) (owner : ControlOwner) : ct unit :=
  outboxTransitionOwned now operationID messageType owner "CLAIMED" "SENT".
Definition AcceptControlSemanticACK (now : Z) (operationID messageType sessionID : string) : ct unit :=
  outboxTransitionLegacy now operationID messageType sessionID "SENT" "SEMANTIC_ACKED".
Definition AcceptControlSemanticACKOwned (now : Z) (operationID messageType : string) (owner : ControlOwner) : ct unit :=
  outboxTransitionOwned now operationID messageType owner "SENT" "SEMANTIC_ACKED".

Definition in_flight (r : OutboxRow) : bool := String.eqb (ob_state r) "CLAIMED" || String.eqb (ob_state r) "SENT".

Definition RequeueControlOutboxForSession (now : Z) (nodeID sessionID : string) : ct nat :=
  let w r := String.eqb (ob_node r) nodeID && in_flight r in
  sql! n := sql_read (λ d, sql_count w (t_outbox d)) in
  sql! _ := sql_write (λ d, set_outbox d (sql_update w (ob_bind "PENDING" sessionID now) (t_outbox d))) in
  sql_ret n.

Definition RequeueControlOutboxForOwner (now : Z) (owner : ControlOwner) : ct nat :=
  fenced owner (
    sql! d := sql_read (λ d, d) in
    let w r := String.eqb (ob_node r) (ow_NodeID owner) && in_flight r && owns owner (ob_node r) d in
    sql! _ := sql_write (λ d, set_outbox d (sql_update w (ob_bind "PENDING" (ow_SessionID owner) now) (t_outbox d))) in
    sql_ret (sql_count w (t_outbox d))).

Definition deniedOutboxRowBackoffSeconds : Z := 30.

Definition RequeueControlOutboxItemOwned (now : Z) (operationID messageType : string) (owner : ControlOwner) : ct unit :=
  fenced owner (
    sql! d := sql_read (λ d, d) in
    let w r := ob_at operationID messageType r && in_flight r && owns owner (ob_node r) d in
    sql! _ := sql_write (λ d, set_outbox d (sql_update w (ob_backoff (ow_SessionID owner) (now + deniedOutboxRowBackoffSeconds) now) (t_outbox d))) in
    if (sql_count w (t_outbox d) =? 0)%nat then RequireCurrentControlOwner owner else sql_ret tt).

Definition ob_rebind (session : string) (now : Z) (r : OutboxRow) : OutboxRow := ob_bind (ob_state r) session now r.

Definition RebindControlOutboxSession (now : Z) (operationID messageType sessionID : string) : ct unit :=
  sql! d := sql_read (λ d, d) in
  let w r := ob_at operationID messageType r && String.eqb (ob_state r) "SEMANTIC_ACKED" in
  sql! _ := sql_write (λ d, set_outbox d (sql_update w (ob_rebind sessionID now) (t_outbox d))) in
  sql_fail_if (sql_count w (t_outbox d) =? 0)%nat with CsIllegalPhase ;; sql_ret tt.

Definition RebindControlOutboxSessionOwned (now : Z) (operationID messageType : string) (owner : ControlOwner) : ct unit :=
  fenced owner (
    sql! d := sql_read (λ d, d) in
    let w r := ob_at operationID messageType r && String.eqb (ob_state r) "SEMANTIC_ACKED" && owns owner (ob_node r) d in
    sql! _ := sql_write (λ d, set_outbox d (sql_update w (ob_rebind (ow_SessionID owner) now) (t_outbox d))) in
    if (sql_count w (t_outbox d) =? 1)%nat then sql_ret tt
    else
      sql! _ := RequireCurrentControlOwner owner in
      match sql_row (ob_at operationID messageType) (t_outbox d) with
      | None => sql_fail CsIllegalPhase
      | Some r =>
          sql_fail_if negb (String.eqb (ob_state r) "SEMANTIC_ACKED") with CsIllegalPhase ;;
          if String.eqb (coalesce (ob_session r)) (ow_SessionID owner) then sql_ret tt else sql_fail CsStaleSession
      end).

Definition ClaimControlOutboxOperation (now : Z) (operationID messageType sessionID : string) : ct unit :=
  sql! d := sql_read (λ d, d) in
  let w r := ob_at operationID messageType r && String.eqb (ob_state r) "PENDING" in
  sql! _ := sql_write (λ d, set_outbox d (sql_update w (ob_bind "CLAIMED" sessionID now) (t_outbox d))) in
  sql_fail_if negb (sql_count w (t_outbox d) =? 1)%nat with CsIllegalPhase ;; sql_ret tt.

Definition ClaimControlOutboxOperationOwned (now : Z) (operationID messageType : string) (owner : ControlOwner) : ct unit :=
  fenced owner (
    sql! d := sql_read (λ d, d) in
    let w r := ob_at operationID messageType r && String.eqb (ob_state r) "PENDING" && owns owner (ob_node r) d in
    sql! _ := sql_write (λ d, set_outbox d (sql_update w (ob_bind "CLAIMED" (ow_SessionID owner) now) (t_outbox d))) in
    sql_fail_if negb (sql_count w (t_outbox d) =? 1)%nat with CsIllegalPhase ;; sql_ret tt).

(** ** The inbox *)

Record ControlInboxItem : Type := mkInboxItem {
  ii_MessageID : string; ii_NodeID : string; ii_MessageType : string; ii_OperationID : string; ii_SemanticPayload : string; ii_State : string
}.
Definition inbox_item_of (r : InboxRow) : ControlInboxItem :=
  mkInboxItem (ib_message r) (ib_node r) (ib_type r) (coalesce (ib_operation r)) (ib_payload r) (ib_state r).

Definition ControlInboxReceived : string := "RECEIVED".
Definition ControlInboxProcessed : string := "PROCESSED".
Definition ControlInboxNacked : string := "NACKED".

Definition ib_at (messageID : string) (r : InboxRow) : bool := String.eqb (ib_message r) messageID.
Definition received (r : InboxRow) : bool := String.eqb (ib_state r) ControlInboxReceived.
Definition unbound (r : InboxRow) : bool := match ib_operation r with None => true | Some o => String.eqb o "" end.
Definition terminal_state (state : string) : bool := String.eqb state ControlInboxProcessed || String.eqb state ControlInboxNacked.

Definition ControlInboxItemByMessageID (d : db) (messageID : string) : result CsError ControlInboxItem :=
  match sql_row (ib_at messageID) (t_inbox d) with None => Err CsNotFound | Some r => Ok (inbox_item_of r) end.
Definition ControlInboxState (d : db) (messageID : string) : result CsError string :=
  match sql_row (ib_at messageID) (t_inbox d) with None => Err CsNotFound | Some r => Ok (ib_state r) end.

(** [INSERT OR IGNORE], then the comparison with the row already there. *)
Definition record_inbox (now : Z) (item : ControlInboxItem) : ct bool :=
  sql! existing := sql_read (λ d, sql_row (ib_at (ii_MessageID item)) (t_inbox d)) in
  match existing with
  | None =>
      sql! _ := sql_write (λ d, insert_inbox d (mkInbox (t_seq_inbox d + 1) (ii_MessageID item) (ii_NodeID item) (ii_MessageType item)
        (ii_SemanticPayload item) ControlInboxReceived (Some (ii_OperationID item)) now)) in
      sql_ret false
  | Some r =>
      sql_fail_if negb (String.eqb (ib_node r) (ii_NodeID item)) || negb (String.eqb (ib_type r) (ii_MessageType item))
        || negb (String.eqb (coalesce (ib_operation r)) (ii_OperationID item)) || negb (String.eqb (ib_payload r) (ii_SemanticPayload item))
        with CsMessageConflict ;;
      sql_ret true
  end.

Definition RecordControlInbox (now : Z) (item : ControlInboxItem) : ct bool := record_inbox now item.

Definition withControlOwnerImmediate {A} (owner : ControlOwner) (fn : ct A) : ct A :=
  fenced owner (
    sql! matched := sql_read (owns owner (ow_NodeID owner)) in
    sql_fail_if negb matched with CsStaleControlOwner ;; fn).

Definition RecordControlInboxOwned (now : Z) (owner : ControlOwner) (item : ControlInboxItem) : ct bool :=
  match validateOwner owner with
  | Err e => sql_fail e
  | Ok _ =>
      sql_fail_if negb (String.eqb (ii_NodeID item) (ow_NodeID owner)) with CsMessageConflict ;;
      withControlOwnerImmediate owner (record_inbox now item)
  end.

Definition BindControlInboxOperationID (now : Z) (messageID operationID : string) : ct unit :=
  sql_fail_if String.eqb messageID "" || String.eqb operationID "" with CsCASConflict ;;
  sql! d := sql_read (λ d, d) in
  let w r := ib_at messageID r && unbound r in
  sql! _ := sql_write (λ d, set_inbox d (sql_update w (ib_bind operationID now) (t_inbox d))) in
  if (sql_count w (t_inbox d) =? 1)%nat then sql_ret tt
  else match sql_row (ib_at messageID) (t_inbox d) with
       | None => sql_fail CsNotFound
       | Some r => if String.eqb (coalesce (ib_operation r)) operationID then sql_ret tt else sql_fail CsMessageConflict
       end.

Definition BindControlInboxOperationIDOwned (now : Z) (owner : ControlOwner) (messageID operationID : string) : ct unit :=
  match validateOwner owner with
  | Err e => sql_fail e
  | Ok _ =>
      sql_fail_if String.eqb messageID "" || String.eqb operationID "" with CsCASConflict ;;
      withControlOwnerImmediate owner (
        sql! d := sql_read (λ d, d) in
        let w r := ib_at messageID r && String.eqb (ib_node r) (ow_NodeID owner) && unbound r && owns owner (ib_node r) d in
        sql! _ := sql_write (λ d, set_inbox d (sql_update w (ib_bind operationID now) (t_inbox d))) in
        if (sql_count w (t_inbox d) =? 1)%nat then sql_ret tt
        else match sql_row (ib_at messageID) (t_inbox d) with
             | None => sql_fail CsNotFound
             | Some r =>
                 sql_fail_if negb (String.eqb (ib_node r) (ow_NodeID owner)) with CsMessageConflict ;;
                 if String.eqb (coalesce (ib_operation r)) operationID then sql_ret tt else sql_fail CsMessageConflict
             end)
  end.

Definition setControlInboxStateOwned (now : Z) (owner : ControlOwner) (messageID state : string) : ct unit :=
  withControlOwnerImmediate owner (
    sql! d := sql_read (λ d, d) in
    let w r := ib_at messageID r && String.eqb (ib_node r) (ow_NodeID owner) && received r && owns owner (ib_node r) d in
    sql! _ := sql_write (λ d, set_inbox d (sql_update w (ib_dispose state now) (t_inbox d))) in
    if (sql_count w (t_inbox d) =? 1)%nat then sql_ret tt
    else match sql_row (ib_at messageID) (t_inbox d) with
         | None => sql_fail CsNotFound
         | Some r =>
             sql_fail_if negb (String.eqb (ib_node r) (ow_NodeID owner)) with CsMessageConflict ;;
             if String.eqb (ib_state r) state then sql_ret tt else sql_fail CsIllegalPhase
         end).

Definition SetControlInboxStateOwned (now : Z) (owner : ControlOwner) (messageID state : string) : ct unit :=
  sql_fail_if String.eqb messageID "" || String.eqb state "" with CsIncomplete ;;
  sql_fail_if negb (terminal_state state) with CsIllegalPhase ;;
  setControlInboxStateOwned now owner messageID state.

Definition RejectControlInboxOwned (now : Z) (owner : ControlOwner) (messageID : string) : ct unit :=
  sql_fail_if String.eqb messageID "" with CsIncomplete ;;
  setControlInboxStateOwned now owner messageID ControlInboxNacked.

(** The ownerless transition of [SetControlInboxState] and [RejectControlInbox]. *)
Definition dispose_inbox (now : Z) (messageID state : string) : ct unit :=
  sql! d := sql_read (λ d, d) in
  let w r := ib_at messageID r && received r in
  sql! _ := sql_write (λ d, set_inbox d (sql_update w (ib_dispose state now) (t_inbox d))) in
  if (sql_count w (t_inbox d) =? 1)%nat then sql_ret tt
  else match sql_row (ib_at messageID) (t_inbox d) with
       | None => sql_fail CsNotFound
       | Some r => if String.eqb (ib_state r) state then sql_ret tt else sql_fail CsIllegalPhase
       end.

Definition SetControlInboxState (now : Z) (messageID state : string) : ct unit :=
  sql_fail_if String.eqb messageID "" || String.eqb state "" with CsIncomplete ;;
  sql_fail_if negb (terminal_state state) with CsIllegalPhase ;;
  dispose_inbox now messageID state.

Definition RejectControlInbox (now : Z) (messageID : string) : ct unit :=
  sql_fail_if String.eqb messageID "" with CsIncomplete ;; dispose_inbox now messageID ControlInboxNacked.

(** The exact row of an item. *)
Definition ib_exact (item : ControlInboxItem) (r : InboxRow) : bool :=
  String.eqb (ib_node r) (ii_NodeID item) && String.eqb (ib_type r) (ii_MessageType item) && String.eqb (ib_payload r) (ii_SemanticPayload item)
  && String.eqb (coalesce (ib_operation r)) (ii_OperationID item).

Definition SetControlInboxStateExact (now : Z) (item : ControlInboxItem) (state : string) : ct unit :=
  sql_fail_if String.eqb (ii_MessageID item) "" || String.eqb (ii_NodeID item) "" || String.eqb (ii_MessageType item) "" || String.eqb state ""
    with CsIncomplete ;;
  sql_fail_if negb (terminal_state state) with CsIllegalPhase ;;
  sql! d := sql_read (λ d, d) in
  let bound r := if String.eqb (ii_OperationID item) "" then unbound r else sql_eq (ib_operation r) (ii_OperationID item) in
  let w r := ib_at (ii_MessageID item) r && String.eqb (ib_node r) (ii_NodeID item) && String.eqb (ib_type r) (ii_MessageType item)
             && String.eqb (ib_payload r) (ii_SemanticPayload item) && received r && bound r in
  sql! _ := sql_write (λ d, set_inbox d (sql_update w (ib_dispose state now) (t_inbox d))) in
  if (sql_count w (t_inbox d) =? 1)%nat then sql_ret tt
  else match sql_row (ib_at (ii_MessageID item)) (t_inbox d) with
       | None => sql_fail CsNotFound
       | Some r =>
           sql_fail_if negb (ib_exact item r) with CsMessageConflict ;;
           if String.eqb (ib_state r) state then sql_ret tt else sql_fail CsIllegalPhase
       end.

(** ** Receipts *)

Definition owned_by (owner : option ControlOwner) (node : string) (d : db) : bool :=
  match owner with None => true | Some o => String.eqb node (ow_NodeID o) && owns o node d end.

(** Project the receipt's inbox row to PROCESSED. *)
Definition markReceiptInbox (now : Z) (inboxMessageID inboxOperationID : string) (owner : option ControlOwner) : ct unit :=
  if String.eqb inboxMessageID "" then sql_ret tt
  else
    sql! d := sql_read (λ d, d) in
    let w r := ib_at inboxMessageID r && received r
               && match owner with None => true | Some _ => owned_by owner (ib_node r) d && (unbound r || sql_eq (ib_operation r) inboxOperationID) end in
    sql! _ := sql_write (λ d, set_inbox d (sql_update w (ib_dispose ControlInboxProcessed now) (t_inbox d))) in
    if (sql_count w (t_inbox d) =? 1)%nat then sql_ret tt
    else match sql_row (ib_at inboxMessageID) (t_inbox d) with
         | None => sql_fail CsNoRows
         | Some r =>
             let op := coalesce (ib_operation r) in
             sql_fail_if match owner with None => false | Some o => negb (String.eqb (ib_node r) (ow_NodeID o)) end with CsMessageConflict ;;
             sql_fail_if match owner with None => false | Some _ => negb (String.eqb op "") && negb (String.eqb op inboxOperationID) end
               with CsMessageConflict ;;
             if String.eqb (ib_state r) ControlInboxProcessed then sql_ret tt else sql_fail CsIllegalPhase
         end.

(** A deletion command keeps its outbox row until both of its results are in the inbox. *)
Definition awaits_second_result (operationID messageType nodeID : string) (r : OutboxRow) (d : db) : result CsError bool :=
  if (String.eqb messageType "desired" || String.eqb messageType "forward_delete")
     && (sql_count (λ x, String.eqb (dl_id x) operationID) (t_deletions d) =? 1)%nat
  then match ob_result r, ob_controller_result r with
       | Some a, Some b =>
           Ok (sql_count (λ x, String.eqb (ib_node x) nodeID && (String.eqb (ib_message x) a || String.eqb (ib_message x) b)) (t_inbox d) <? 2)%nat
       | _, _ => Err CsNullScan
       end
  else Ok false.

Definition tm_dispose (disposition : string) (now : Z) (t : TerminalRow) : TerminalRow :=
  mkTerminal (tm_probe t) disposition (tm_outcome t) (tm_node t) (tm_forward t) (tm_activation t) (tm_created t) now.

(** The acknowledgement marker and the delivery of a probe outcome. *)
Definition deliver_outcome (now : Z) (operationID messageType nodeID : string) (owner : option ControlOwner) : ct unit :=
  sql! d := sql_read (λ d, d) in
  let live := match owner with None => true | Some o => owns o (ow_NodeID o) d end in
  let marker := sql_exists (λ r, ob_at operationID messageType r && String.eqb (ob_node r) nodeID) (t_outbox d) && live in
  sql_fail_if marker && negb (sql_exists (λ p, String.eqb (po_id p) operationID) (t_probes d)) with CsConstraint ;;
  sql! _ := sql_write (λ d, if marker then set_results d (t_results d ++ [mkResultRow operationID "outcome_acked" "ack" now]) else d) in
  let w t := String.eqb (tm_probe t) operationID && String.eqb (tm_node t) nodeID && String.eqb (tm_disposition t) "ENQUEUED" && live in
  sql! _ := sql_write (λ d, set_terminals d (sql_update w (tm_dispose "DELIVERED" now) (t_terminals d))) in
  sql_fail_if negb (sql_count w (t_terminals d) =? 1)%nat with CsIllegalPhase ;; sql_ret tt.

Definition acceptControlReceipt (now : Z) (inboxMessageID inboxOperationID inboxPayload operationID messageType sessionID : string)
    (owner : option ControlOwner) : ct unit :=
  sql! d := sql_read (λ d, d) in
  match sql_row (λ r, ob_at operationID messageType r && owned_by owner (ob_node r) d) (t_outbox d) with
  | None => sql_fail CsIllegalPhase
  | Some r =>
      match ob_session r with
      | None => sql_fail CsNullScan
      | Some session =>
          let nodeID := ob_node r in
          sql_fail_if negb (String.eqb session sessionID) with CsStaleSession ;;
          sql_fail_if negb (String.eqb (ob_state r) "SEMANTIC_ACKED") with CsIllegalPhase ;;
          match awaits_second_result operationID messageType nodeID r d with
          | Err e => sql_fail e
          | Ok true => markReceiptInbox now inboxMessageID inboxOperationID owner
          | Ok false =>
              sql! _ := markReceiptInbox now inboxMessageID inboxOperationID owner in
              sql! d1 := sql_read (λ d, d) in
              let w state x := ob_at operationID messageType x && String.eqb (ob_state x) state && sql_eq (ob_session x) sessionID
                               && owned_by owner (ob_node x) d1 in
              sql! _ := sql_write (λ d, set_outbox d (sql_update (w "SEMANTIC_ACKED"%string) (ob_advance "RECEIPTED" now) (t_outbox d))) in
              sql_fail_if negb (sql_count (w "SEMANTIC_ACKED"%string) (t_outbox d1) =? 1)%nat with CsIllegalPhase ;;
              sql! _ := (if String.eqb messageType "probe_outcome" then deliver_outcome now operationID messageType nodeID owner else sql_ret tt) in
              sql! d2 := sql_read (λ d, d) in
              sql! _ := sql_write (λ d, set_outbox d (sql_delete (w "RECEIPTED"%string) (t_outbox d))) in
              sql_fail_if negb (sql_count (w "RECEIPTED"%string) (t_outbox d2) =? 1)%nat with CsIllegalPhase ;; sql_ret tt
          end
      end
  end.

Definition AcceptControlReceipt (now : Z) (operationID messageType sessionID : string) : ct unit :=
  acceptControlReceipt now "" "" "" operationID messageType sessionID None.
Definition AcceptControlReceiptWithInbox (now : Z) (messageID operationID messageType sessionID : string) : ct unit :=
  sql_fail_if String.eqb messageID "" with CsIncomplete ;;
  acceptControlReceipt now messageID "" "" operationID messageType sessionID None.
Definition AcceptControlReceiptOwned (now : Z) (owner : ControlOwner) (operationID messageType : string) : ct unit :=
  fenced owner (acceptControlReceipt now "" "" "" operationID messageType (ow_SessionID owner) (Some owner)).
Definition AcceptControlReceiptWithInboxOwned (now : Z) (owner : ControlOwner) (messageID operationID messageType : string) : ct unit :=
  match validateOwner owner with
  | Err e => sql_fail e
  | Ok _ =>
      sql_fail_if String.eqb messageID "" with CsIncomplete ;;
      fenced owner (acceptControlReceipt now messageID "" "" operationID messageType (ow_SessionID owner) (Some owner))
  end.

Record ControlReceipt : Type := mkReceipt {
  cr_ReceiptMessageID : string; cr_SemanticPayload : string; cr_InboxOperationID : string; cr_OutboxOperationID : string; cr_OutboxMessageType : string
}.

Definition AcceptControlReceiptOwnedInbox (now : Z) (owner : ControlOwner) (receipt : ControlReceipt) : ct unit :=
  match validateOwner owner with
  | Err e => sql_fail e
  | Ok _ =>
      sql_fail_if String.eqb (cr_ReceiptMessageID receipt) "" || String.eqb (cr_OutboxOperationID receipt) ""
        || String.eqb (cr_OutboxMessageType receipt) "" with CsIncomplete ;;
      fenced owner (acceptControlReceipt now (cr_ReceiptMessageID receipt) (cr_InboxOperationID receipt) (cr_SemanticPayload receipt)
        (cr_OutboxOperationID receipt) (cr_OutboxMessageType receipt) (ow_SessionID owner) (Some owner))
  end.

Definition ProbeOutcomeAcknowledged (d : db) (operationID : string) : bool :=
  existsb (λ r, String.eqb (rr_probe r) operationID && String.eqb (rr_kind r) "outcome_acked") (t_results d).

(** ** Cleanup of the inbox *)

Record controlInboxCleanupCursor : Type := mkCursor { cc_highWater : Z; cc_beforeID : Z; cc_initialized : bool; cc_closed : bool }.
Definition resetLocked (c : controlInboxCleanupCursor) : controlInboxCleanupCursor := mkCursor 0 0 false (cc_closed c).

Definition maxControlInboxCleanupBatch : Z := 1024.
Definition maxControlInboxCleanupScan : Z := 4096.
Definition defaultProbeCleanupBatch : Z := 256.
Definition probeCleanupLimit (limit : Z) : Z := if limit <=? 0 then defaultProbeCleanupBatch else limit.

Definition controlInboxOutboxFence (d : db) (nodeID operationID messageID : string) : bool :=
  if String.eqb operationID "" && String.eqb messageID "" then false
  else if negb (String.eqb messageID "") then
    sql_exists (λ o, String.eqb (ob_node o) nodeID
      && (String.eqb (ob_operation o) operationID || sql_eq (ob_command o) operationID || sql_eq (ob_result o) messageID
          || sql_eq (ob_controller_result o) messageID)) (t_outbox d)
  else sql_exists (λ o, String.eqb (ob_node o) nodeID && (String.eqb (ob_operation o) operationID || sql_eq (ob_command o) operationID)) (t_outbox d).

Definition controlInboxPendingDeletionFence (d : db) (item : InboxRow) : bool :=
  let op := coalesce (ib_operation item) in
  if String.eqb op "" then true
  else match sql_row (λ x, String.eqb (dl_id x) op) (t_deletions d) with
       | None => false
       | Some x => negb (String.eqb (dl_status x) "COMPLETED")
       end.

(** Live, or terminal with an undelivered outcome. *)
Definition live_probe (d : db) (o : ProbeOpRow) : bool :=
  existsb (String.eqb (po_status o)) ["PENDING"; "ARMED"; "IN_FLIGHT"]%string
  || sql_exists (λ t, String.eqb (tm_probe t) (po_id o)
       && negb (existsb (String.eqb (tm_disposition t)) ["DELIVERED"; "STALE"; "MISSING"; "EXPIRED"]%string)) (t_terminals d).

Definition controlInboxLiveProbeFenceByID (d : db) (probeID : string) : bool :=
  sql_exists (λ o, String.eqb (po_id o) probeID && live_probe d o) (t_probes d).

Section Cleanup.
Context `{!Crypto}.

Definition ParseProbeArmLite (raw : bytes) : option bytes :=
  match ParseProbeArm raw with Ok arm => Some (arm_Digest arm) | Err _ => None end.

(** Whether a live operation may still match the receipt; an undecodable one keeps it.
    Every exit of the scan but its end answers true, and so does a full page, so the
    order of the page does not matter. *)
Definition controlInboxLiveProbeReceiptFence (d : db) (item : InboxRow) : bool :=
  let payload := bytes_of (ib_payload item) in
  if (zlen payload <? 36) || negb (bytes_eqb (take 4 payload) (bytes_of "RCT1")) then true
  else
    let want := slice payload 4 36 in
    let pageLimit := Z.to_nat (maxControlInboxCleanupBatch + 1) in
    let rows := take pageLimit (sql_select (λ o, String.eqb (po_node o) (ib_node item) && live_probe d o) (t_probes d)) in
    existsb (λ o, match hex_decode (po_arm o) with
                  | None => true
                  | Some armBytes => match ParseProbeArmLite armBytes with None => true | Some digest => bytes_eqb digest want end
                  end) rows
    || (length rows =? pageLimit)%nat.

Definition controlInboxRetentionProtected (d : db) (item : InboxRow) : bool :=
  if String.eqb (ib_state item) "NACKED" && String.eqb (ib_type item) "probe_ingress_receipt" then false
  else if controlInboxOutboxFence d (ib_node item) (coalesce (ib_operation item)) (ib_message item) then true
  else if String.eqb (ib_type item) "operation_complete" then controlInboxPendingDeletionFence d item
  else if String.eqb (ib_type item) "probe_result" then
    (if String.eqb (coalesce (ib_operation item)) "" then true else controlInboxLiveProbeFenceByID d (coalesce (ib_operation item)))
  else if String.eqb (ib_type item) "probe_ingress_receipt" then controlInboxLiveProbeReceiptFence d item
  else false.

(** A row that cleanup may remove. *)
Definition removable (cutoff : Z) (d : db) (item : InboxRow) : bool :=
  terminal_state (ib_state item) && (ib_updated item <? cutoff) && negb (controlInboxRetentionProtected d item).

(** The loop over the examined rows: rows removed, last row examined, database. *)
Fixpoint cleanup_loop (cutoff highWater : Z) (limit : nat) (removed : nat) (last : Z) (l : list InboxRow) (d : db) : nat * Z * db :=
  match l with
  | [] => (removed, last, d)
  | item :: l' =>
      if negb (removable cutoff d item) then cleanup_loop cutoff highWater limit removed (ib_id item) l' d
      else
        let w r := (ib_id r =? ib_id item) && (ib_id r <=? highWater) && terminal_state (ib_state r) && (ib_updated r <? cutoff) in
        let removed' := (removed + sql_count w (t_inbox d))%nat in
        let d' := set_inbox d (sql_delete w (t_inbox d)) in
        if (limit <=? removed')%nat then (removed', ib_id item, d') else cleanup_loop cutoff highWater limit removed' (ib_id item) l' d'
  end.

Definition cleanup_limit (limit : Z) : Z := Z.min (probeCleanupLimit limit) maxControlInboxCleanupBatch.
Definition scan_limit (limit : Z) : Z :=
  if limit <=? maxControlInboxCleanupScan / 4 then limit * 4 else maxControlInboxCleanupScan.

(** The examined page: descending ids from the cursor. *)
Definition cleanup_page (beforeID scanLimit : Z) (d : db) : list InboxRow :=
  take (Z.to_nat scanLimit) (rev (sql_select (λ r, (ib_id r <=? beforeID) && (0 <? ib_id r)) (t_inbox d))).

Definition max_inbox_id (d : db) : Z := foldr (λ r m, Z.max (ib_id r) m) 0 (t_inbox d).

Definition DeleteControlInboxBeforeLimit (cutoff limit : Z) (c : controlInboxCleanupCursor) (d : db)
    : option nat * controlInboxCleanupCursor * db :=
  let limit := cleanup_limit limit in
  if cc_closed c then (None, c, d)
  else
    let highWater := if cc_initialized c then cc_highWater c else max_inbox_id d in
    if negb (cc_initialized c) && (highWater =? 0) then (Some 0%nat, c, d)
    else
      let beforeID := if cc_initialized c then cc_beforeID c else highWater in
      let candidates := cleanup_page beforeID (scan_limit limit) d in
      let '(removed, lastExamined, d') := cleanup_loop cutoff highWater (Z.to_nat limit) 0 0 candidates d in
      let c' := if bool_decide (candidates = []) || (lastExamined <=? 1) then resetLocked c
                else mkCursor highWater (lastExamined - 1) true (cc_closed c) in
      (Some removed, c', d').
End Cleanup.
