(* ===== verification/ControlProofs.v ===== *)
(** * The control store: executions and their invariants

    A command is one operation of Control.v; executions are command sequences.  Every
    operation respects the tables' keys and moves each outbox row and each inbox row
    only along its automaton. *)

From Stdlib Require Import ZArith Lia Strings.Byte Sorted.
From stdpp Require Import base tactics list sets strings option relations.
From S2P Require Import Prelude GoStd Frame Probe Sql Control.

Open Scope Z_scope.

(** ** Commands *)

Inductive ccmd : Type :=
  | KCreateNode (capacity : bool) (now : Z) (n : NodeRow)
  | KAcquire (now : Z) (id : string) (expectedEpoch : Z) (session : string)
  | KNodeState (now : Z) (id state : string)
  | KNodeStateOwned (now : Z) (owner : ControlOwner) (state : string)
  | KEnqueue (now : Z) (item : ControlOutboxItem)
  | KClaim (clock now : Z) (node session : string) (limit : Z)
  | KClaimOwned (clock now : Z) (owner : ControlOwner) (limit : Z)
  | KClaimOp (now : Z) (op ty session : string)
  | KClaimOpOwned (now : Z) (op ty : string) (owner : ControlOwner)
  | KSent (now : Z) (op ty session : string)
  | KSentOwned (now : Z) (op ty : string) (owner : ControlOwner)
  | KAck (now : Z) (op ty session : string)
  | KAckOwned (now : Z) (op ty : string) (owner : ControlOwner)
  | KReceipt (now : Z) (op ty session : string)
  | KReceiptInbox (now : Z) (message op ty session : string)
  | KReceiptOwned (now : Z) (owner : ControlOwner) (op ty : string)
  | KReceiptInboxOwned (now : Z) (owner : ControlOwner) (message op ty : string)
  | KReceiptExactOwned (now : Z) (owner : ControlOwner) (receipt : ControlReceipt)
  | KRequeue (now : Z) (node session : string)
  | KRequeueOwned (now : Z) (owner : ControlOwner)
  | KRequeueItemOwned (now : Z) (op ty : string) (owner : ControlOwner)
  | KRebind (now : Z) (op ty session : string)
  | KRebindOwned (now : Z) (op ty : string) (owner : ControlOwner)
  | KRecord (now : Z) (item : ControlInboxItem)
  | KRecordOwned (now : Z) (owner : ControlOwner) (item : ControlInboxItem)
  | KBind (now : Z) (message op : string)
  | KBindOwned (now : Z) (owner : ControlOwner) (message op : string)
  | KInbox (now : Z) (message state : string)
  | KInboxOwned (now : Z) (owner : ControlOwner) (message state : string)
  | KInboxExact (now : Z) (item : ControlInboxItem) (state : string)
  | KReject (now : Z) (message : string)
  | KRejectOwned (now : Z) (owner : ControlOwner) (message : string).

Definition drop_result {A} (m : ct A) : ct unit := sql! _ := m in sql_ret tt.

Section Exec.
Context `{!Crypto}.

Definition cbody (c : ccmd) : ct unit :=
  match c with
  | KCreateNode capacity now n => CreateNode capacity now n
  | KAcquire now id e s => drop_result (AcquireControlOwner now id e s)
  | KNodeState now id st => SetNodeControlState now id st
  | KNodeStateOwned now o st => SetNodeControlStateOwned now o st
  | KEnqueue now item => EnqueueControlOutbox now item
  | KClaim clock now n s l => drop_result (ClaimControlOutbox clock now n s l)
  | KClaimOwned clock now o l => drop_result (ClaimControlOutboxOwned clock now o l)
  | KClaimOp now op ty s => ClaimControlOutboxOperation now op ty s
  | KClaimOpOwned now op ty o => ClaimControlOutboxOperationOwned now op ty o
  | KSent now op ty s => MarkControlOutboxSent now op ty s
  | KSentOwned now op ty o => MarkControlOutboxSentOwned now op ty o
  | KAck now op ty s => AcceptControlSemanticACK now op ty s
  | KAckOwned now op ty o => AcceptControlSemanticACKOwned now op ty o
  | KReceipt now op ty s => AcceptControlReceipt now op ty s
  | KReceiptInbox now m op ty s => AcceptControlReceiptWithInbox now m op ty s
  | KReceiptOwned now o op ty => AcceptControlReceiptOwned now o op ty
  | KReceiptInboxOwned now o m op ty => AcceptControlReceiptWithInboxOwned now o m op ty
  | KReceiptExactOwned now o r => AcceptControlReceiptOwnedInbox now o r
  | KRequeue now n s => drop_result (RequeueControlOutboxForSession now n s)
  | KRequeueOwned now o => drop_result (RequeueControlOutboxForOwner now o)
  | KRequeueItemOwned now op ty o => RequeueControlOutboxItemOwned now op ty o
  | KRebind now op ty s => RebindControlOutboxSession now op ty s
  | KRebindOwned now op ty o => RebindControlOutboxSessionOwned now op ty o
  | KRecord now item => drop_result (RecordControlInbox now item)
  | KRecordOwned now o item => drop_result (RecordControlInboxOwned now o item)
  | KBind now m op => BindControlInboxOperationID now m op
  | KBindOwned now o m op => BindControlInboxOperationIDOwned now o m op
  | KInbox now m st => SetControlInboxState now m st
  | KInboxOwned now o m st => SetControlInboxStateOwned now o m st
  | KInboxExact now item st => SetControlInboxStateExact now item st
  | KReject now m => RejectControlInbox now m
  | KRejectOwned now o m => RejectControlInboxOwned now o m
  end.

Definition cexec (c : ccmd) (d : db) : result CsError unit * db := commit_tx (cbody c) d.

(** An event of the store's life: a command, or one cleanup pass with its cursor. *)
Definition cstate : Type := db * controlInboxCleanupCursor.
Inductive cevent : Type := EvCmd (c : ccmd) | EvCleanup (cutoff limit : Z).
Definition cstep (e : cevent) (st : cstate) : cstate :=
  match e with
  | EvCmd c => ((cexec c st.1).2, st.2)
  | EvCleanup cutoff limit => let '(_, c, d) := DeleteControlInboxBeforeLimit cutoff limit st.2 st.1 in (d, c)
  end.
Definition crun (es : list cevent) (st : cstate) : cstate := foldl (λ st e, cstep e st) st es.
End Exec.

(** ** Automata *)

(** What an outbox row promises while it lives: everything but its state, its session
    and its clocks. *)
Record promise : Type := mkPromise {
  pr_id : Z; pr_node : string; pr_payload : string; pr_command : option string; pr_result : option string; pr_controller_result : option string
}.
Definition ob_promise (r : OutboxRow) : promise :=
  mkPromise (ob_id r) (ob_node r) (ob_payload r) (ob_command r) (ob_result r) (ob_controller_result r).

Definition outbox_row (d : db) (op ty : string) : option OutboxRow := sql_row (ob_at op ty) (t_outbox d).
Definition outbox_view (d : db) (op ty : string) : option (string * promise) := (λ r, (ob_state r, ob_promise r)) <$> outbox_row d op ty.

Inductive ofsm : option (string * promise) → option (string * promise) → Prop :=
  | of_enqueue p : ofsm None (Some ("PENDING"%string, p))
  | of_claim p : ofsm (Some ("PENDING"%string, p)) (Some ("CLAIMED"%string, p))
  | of_sent p : ofsm (Some ("CLAIMED"%string, p)) (Some ("SENT"%string, p))
  | of_acked p : ofsm (Some ("SENT"%string, p)) (Some ("SEMANTIC_ACKED"%string, p))
  | of_requeue_claimed p : ofsm (Some ("CLAIMED"%string, p)) (Some ("PENDING"%string, p))
  | of_requeue_sent p : ofsm (Some ("SENT"%string, p)) (Some ("PENDING"%string, p))
  | of_receipt p : ofsm (Some ("SEMANTIC_ACKED"%string, p)) None.

(** An inbox message: its authenticated material, its operation binding ("" when
    unbound) and its state. *)
Record material : Type := mkMaterial { ma_id : Z; ma_node : string; ma_type : string; ma_payload : string }.
Definition inbox_row (d : db) (m : string) : option InboxRow := sql_row (ib_at m) (t_inbox d).
Definition ib_material (r : InboxRow) : material := mkMaterial (ib_id r) (ib_node r) (ib_type r) (ib_payload r).
Definition inbox_view (d : db) (m : string) : option (material * string * string) :=
  (λ r, (ib_material r, coalesce (ib_operation r), ib_state r)) <$> inbox_row d m.

Inductive ifsm : option (material * string * string) → option (material * string * string) → Prop :=
  | if_record x op : ifsm None (Some (x, op, ControlInboxReceived))
  | if_bind x op st : ifsm (Some (x, ""%string, st)) (Some (x, op, st))
  | if_processed x op : ifsm (Some (x, op, ControlInboxReceived)) (Some (x, op, ControlInboxProcessed))
  | if_nacked x op : ifsm (Some (x, op, ControlInboxReceived)) (Some (x, op, ControlInboxNacked)).

(** ** Well-formed databases *)

Definition outbox_states : list string := ["PENDING"; "CLAIMED"; "SENT"; "SEMANTIC_ACKED"]%string.
Definition inbox_states : list string := [ControlInboxReceived; ControlInboxProcessed; ControlInboxNacked].

Record db_ok (d : db) : Prop := {
  ok_outbox_keys : unique (λ r, (ob_operation r, ob_type r)) (t_outbox d);
  ok_outbox_ids : StronglySorted Z.lt (ob_id <$> t_outbox d) ∧ Forall (λ r, 0 < ob_id r ≤ t_seq_outbox d) (t_outbox d);
  ok_outbox_states : Forall (λ r, ob_state r ∈ outbox_states) (t_outbox d);
  ok_inbox_keys : unique ib_message (t_inbox d);
  ok_inbox_ids : StronglySorted Z.lt (ib_id <$> t_inbox d) ∧ Forall (λ r, 0 < ib_id r ≤ t_seq_inbox d) (t_inbox d);
  ok_inbox_states : Forall (λ r, ib_state r ∈ inbox_states) (t_inbox d);
  ok_nodes : unique nd_id (t_nodes d);
  ok_seq : 0 ≤ t_seq_outbox d ∧ 0 ≤ t_seq_inbox d
}.

(** ** What an operation may do *)

(** An owner's epoch never decreases, and a node does not disappear. *)
Definition node_row (d : db) (n : string) : option NodeRow := sql_row (λ x, String.eqb (nd_id x) n) (t_nodes d).
Definition node_le (x y : option NodeRow) : Prop :=
  match x, y with
  | None, _ => True
  | Some a, Some b => nd_epoch a ≤ nd_epoch b
  | Some _, None => False
  end.

Record good (d d' : db) : Prop := {
  gd_ok : db_ok d';
  gd_outbox : ∀ op ty, rtc ofsm (outbox_view d op ty) (outbox_view d' op ty);
  gd_inbox : ∀ m, rtc ifsm (inbox_view d m) (inbox_view d' m);
  gd_nodes : ∀ n, node_le (node_row d n) (node_row d' n)
}.

Lemma node_le_refl x : node_le x x.
Proof. destruct x; cbn; [lia|done]. Qed.
Lemma node_le_trans x y z : node_le x y → node_le y z → node_le x z.
Proof. destruct x, y, z; cbn; try done; lia. Qed.

Lemma good_refl d : db_ok d → good d d.
Proof. intros H. split; [done|reflexivity|reflexivity|intros; apply node_le_refl]. Qed.
Lemma good_trans d1 d2 d3 : good d1 d2 → good d2 d3 → good d1 d3.
Proof.
  intros [? ? ? ?] [? ? ? ?]. split; [done|..].
  - intros. etrans; eauto.
  - intros. etrans; eauto.
  - intros n. eapply node_le_trans; eauto.
Qed.

(** *** Outbox statements *)

Definition ob_key (r : OutboxRow) : string * string := (ob_operation r, ob_type r).

Definition omove (r r' : OutboxRow) : Prop :=
  ob_key r' = ob_key r ∧ ob_promise r' = ob_promise r ∧ ob_state r' ∈ outbox_states ∧
  rtc ofsm (Some (ob_state r, ob_promise r)) (Some (ob_state r', ob_promise r)).

Lemma ob_at_key op ty r : ob_at op ty r = true ↔ ob_key r = (op, ty).
Proof. unfold ob_at, ob_key. rewrite andb_true_iff, !String.eqb_eq. naive_solver. Qed.

Lemma ob_at_key_eq op ty r r' : ob_key r' = ob_key r → ob_at op ty r' = ob_at op ty r.
Proof. unfold ob_at, ob_key. by intros [= -> ->]. Qed.

Lemma good_outbox_update d w f :
  db_ok d → (∀ r, r ∈ t_outbox d → w r = true → omove r (f r)) → (∀ r, ob_key (f r) = ob_key r) → (∀ r, ob_id (f r) = ob_id r) →
  good d (set_outbox d (sql_update w f (t_outbox d))).
Proof.
  intros Hd Hf Hk Hi. destruct Hd as [k1 [i1 i1'] s1 k2 i2 s2 k3 sq]. split.
  - split; cbn; try done.
    + by apply unique_update.
    + split; [by rewrite fmap_sql_update|]. apply Forall_sql_update; [|done]. intros r Hr _. by rewrite Hi.
    + apply list.Forall_forall. intros r (r0 & Hr0 & ->)%in_sql_update. destruct (w r0) eqn:E.
      * by apply Hf.
      * eapply list.Forall_forall in s1; [|exact Hr0]. done.
  - intros op ty. unfold outbox_view, outbox_row. cbn. rewrite sql_row_update; [|intros r _; by apply ob_at_key_eq].
    destruct (sql_row _ (t_outbox d)) as [r|] eqn:E; [|reflexivity]. cbn. apply sql_row_Some in E as [Hr _].
    destruct (w r) eqn:Ew; [|reflexivity]. destruct (Hf r Hr Ew) as (_ & Hp & _ & Hm). by rewrite Hp.
  - intros m. reflexivity.
  - intros n. apply node_le_refl.
Qed.

Lemma good_outbox_insert d r :
  db_ok d → ob_id r = t_seq_outbox d + 1 → ob_state r = "PENDING"%string →
  sql_exists (ob_at (ob_operation r) (ob_type r)) (t_outbox d) = false → good d (insert_outbox d r).
Proof.
  intros Hd Hi Hst Hno. destruct Hd as [k1 [i1 i1'] s1 k2 i2 s2 k3 sq].
  assert (Hfresh : ∀ x, x ∈ t_outbox d → ob_key x ≠ ob_key r).
  { intros x Hx Hkx. rewrite <- not_true_iff_false in Hno. apply Hno, sql_exists_true. exists x. split; [done|]. by apply ob_at_key. }
  split.
  - split; cbn; try done.
    + by apply unique_insert.
    + rewrite fmap_app. cbn. split.
      * apply StronglySorted_snoc; [done|]. apply list.Forall_forall. intros z (x & -> & Hx)%list_elem_of_fmap.
        rewrite list.Forall_forall in i1'. specialize (i1' x Hx). lia.
      * apply Forall_app. split; [|by repeat constructor; lia]. eapply Forall_impl; [exact i1'|]. cbn. lia.
    + apply Forall_app. split; [done|]. constructor; [|done]. rewrite Hst. by left.
    + lia.
  - intros op ty. unfold outbox_view, outbox_row. cbn. rewrite sql_row_app. destruct (sql_row _ (t_outbox d)) as [x|] eqn:E; [reflexivity|].
    unfold sql_row. cbn. destruct (ob_at op ty r); cbn; [|reflexivity]. rewrite Hst. apply rtc_once. constructor.
  - intros m. reflexivity.
  - intros n. apply node_le_refl.
Qed.

Lemma good_outbox_delete d w :
  db_ok d → (∀ r, r ∈ t_outbox d → w r = true → ob_state r = "SEMANTIC_ACKED"%string) → good d (set_outbox d (sql_delete w (t_outbox d))).
Proof.
  intros Hd Hw. pose proof Hd as [k1 [i1 i1'] s1 k2 i2 s2 k3 sq]. split.
  - split; cbn; try done.
    + by apply unique_delete.
    + split; [by apply StronglySorted_filter|by apply Forall_sql_delete].
    + by apply Forall_sql_delete.
  - intros op ty. unfold outbox_view, outbox_row. cbn. destruct (sql_row _ (t_outbox d)) as [r|] eqn:E.
    + pose proof (sql_row_Some _ _ _ E) as [Hr Hat]. destruct (w r) eqn:Ew.
      * assert (Hnone : sql_row (ob_at op ty) (sql_delete w (t_outbox d)) = None).
        { destruct (sql_row _ (sql_delete _ _)) as [x|] eqn:Ex; [|done]. apply sql_row_Some in Ex as [[Hx Hwx]%in_sql_delete Hax].
          apply ob_at_key in Hat, Hax. assert (x = r) by (apply (unique_inj ob_key (t_outbox d)); [done..|congruence]). congruence. }
        rewrite Hnone. cbn. rewrite (Hw r Hr Ew). apply rtc_once. constructor.
      * assert (Hsome : sql_row (ob_at op ty) (sql_delete w (t_outbox d)) = Some r).
        { apply (sql_row_unique ob_key); [by apply unique_delete| |by apply in_sql_delete]. intros x. apply ob_at_key in Hat.
          rewrite ob_at_key, Hat. done. }
        rewrite Hsome. reflexivity.
    + assert (Hnone : sql_row (ob_at op ty) (sql_delete w (t_outbox d)) = None).
      { destruct (sql_row _ (sql_delete _ _)) as [x|] eqn:Ex; [|done]. apply sql_row_Some in Ex as [[Hx Hwx]%in_sql_delete Hax].
        pose proof (sql_row_None _ _ _ E Hx). congruence. }
      rewrite Hnone. reflexivity.
  - intros m. reflexivity.
  - intros n. apply node_le_refl.
Qed.

(** *** Inbox statements *)

Definition iview (r : InboxRow) : material * string * string := (ib_material r, coalesce (ib_operation r), ib_state r).

Definition imove (r r' : InboxRow) : Prop :=
  ib_message r' = ib_message r ∧ ib_state r' ∈ inbox_states ∧ rtc ifsm (Some (iview r)) (Some (iview r')).

Lemma ib_at_key m r : ib_at m r = true ↔ ib_message r = m.
Proof. unfold ib_at. by rewrite String.eqb_eq. Qed.

Lemma good_inbox_update d w f :
  db_ok d → (∀ r, r ∈ t_inbox d → w r = true → imove r (f r)) → (∀ r, ib_message (f r) = ib_message r) → (∀ r, ib_id (f r) = ib_id r) →
  good d (set_inbox d (sql_update w f (t_inbox d))).
Proof.
  intros Hd Hf Hk Hi. destruct Hd as [k1 i1 s1 k2 [i2 i2'] s2 k3 sq]. split.
  - split; cbn; try done.
    + by apply unique_update.
    + split; [by rewrite fmap_sql_update|]. apply Forall_sql_update; [|done]. intros r Hr _. by rewrite Hi.
    + apply list.Forall_forall. intros r (r0 & Hr0 & ->)%in_sql_update. destruct (w r0) eqn:E.
      * by apply Hf.
      * eapply list.Forall_forall in s2; [|exact Hr0]. done.
  - intros op ty. reflexivity.
  - intros m. unfold inbox_view, inbox_row. cbn. rewrite sql_row_update; [|intros r _; unfold ib_at; by rewrite Hk].
    destruct (sql_row _ (t_inbox d)) as [r|] eqn:E; [|reflexivity]. cbn. apply sql_row_Some in E as [Hr _].
    destruct (w r) eqn:Ew; [|reflexivity]. destruct (Hf r Hr Ew) as (_ & _ & Hm). exact Hm.
  - intros n. apply node_le_refl.
Qed.

Lemma good_inbox_insert d r :
  db_ok d → ib_id r = t_seq_inbox d + 1 → ib_state r = ControlInboxReceived →
  sql_row (ib_at (ib_message r)) (t_inbox d) = None → good d (insert_inbox d r).
Proof.
  intros Hd Hi Hst Hno. destruct Hd as [k1 i1 s1 k2 [i2 i2'] s2 k3 sq].
  assert (Hfresh : ∀ x, x ∈ t_inbox d → ib_message x ≠ ib_message r).
  { intros x Hx Hkx. pose proof (sql_row_None _ _ _ Hno Hx) as Hf. apply not_true_iff_false in Hf. by apply Hf, ib_at_key. }
  split.
  - split; cbn; try done.
    + by apply unique_insert.
    + rewrite fmap_app. cbn. split.
      * apply StronglySorted_snoc; [done|]. apply list.Forall_forall. intros z (x & -> & Hx)%list_elem_of_fmap.
        rewrite list.Forall_forall in i2'. specialize (i2' x Hx). lia.
      * apply Forall_app. split; [|by repeat constructor; lia]. eapply Forall_impl; [exact i2'|]. cbn. lia.
    + apply Forall_app. split; [done|]. constructor; [|done]. rewrite Hst. by left.
    + lia.
  - intros op ty. reflexivity.
  - intros m. unfold inbox_view, inbox_row. cbn. rewrite sql_row_app. destruct (sql_row (ib_at m) (t_inbox d)) as [x|] eqn:E; [reflexivity|].
    unfold sql_row. cbn. destruct (ib_at m r); cbn; [|reflexivity]. rewrite Hst. apply rtc_once. constructor.
  - intros n. apply node_le_refl.
Qed.

(** *** Node statements *)

Lemma good_node_update d w f :
  db_ok d → (∀ r, nd_id (f r) = nd_id r) → (∀ r, nd_epoch r ≤ nd_epoch (f r)) → good d (set_nodes d (sql_update w f (t_nodes d))).
Proof.
  intros [k1 i1 s1 k2 i2 s2 k3 sq] Hk He. split.
  - split; cbn; try done. by apply unique_update.
  - intros op ty. reflexivity.
  - intros m. reflexivity.
  - intros n. unfold node_row. cbn. rewrite sql_row_update; [|intros r _; by rewrite Hk].
    destruct (sql_row _ (t_nodes d)) as [r|]; cbn; [|done]. destruct (w r); [apply He|lia].
Qed.

Lemma good_node_insert d r :
  db_ok d → (∀ x, x ∈ t_nodes d → nd_id x ≠ nd_id r) → good d (set_nodes d (t_nodes d ++ [r])).
Proof.
  intros [k1 i1 s1 k2 i2 s2 k3 sq] Hf. split.
  - split; cbn; try done. by apply unique_insert.
  - intros op ty. reflexivity.
  - intros m. reflexivity.
  - intros n. unfold node_row. cbn. rewrite sql_row_app. destruct (sql_row _ (t_nodes d)); cbn; [lia|done].
Qed.

(** The probe tables are outside of what [good] constrains. *)
Lemma good_terminals d t : db_ok d → good d (set_terminals d t).
Proof. intros [k1 i1 s1 k2 i2 s2 k3 sq]. split; [by split|reflexivity|reflexivity|intros; apply node_le_refl]. Qed.
Lemma good_results d t : db_ok d → good d (set_results d t).
Proof. intros [k1 i1 s1 k2 i2 s2 k3 sq]. split; [by split|reflexivity|reflexivity|intros; apply node_le_refl]. Qed.

(** ** Every operation is good *)

Definition respects {A} (m : ct A) : Prop := ∀ d a d', db_ok d → m d = Ok (a, d') → good d d'.

Lemma crespects_bind {A C} (m : ct A) (k : A → ct C) : respects m → (∀ a, respects (k a)) → respects (sql_bind m k).
Proof.
  intros Hm Hk d c d' Hd (a & d1 & H1 & H2)%sql_bind_Ok. pose proof (Hm _ _ _ Hd H1) as G. eapply good_trans; [exact G|].
  eapply Hk; [apply G|exact H2].
Qed.
Lemma crespects_ret {A} (a : A) : respects (sql_ret a).
Proof. intros d b d' Hd [= <- <-]. by apply good_refl. Qed.
Lemma respects_fail {A} e : respects (A := A) (sql_fail e).
Proof. by intros d b d' Hd. Qed.
Lemma respects_fenced {A} o (m : ct A) : respects m → respects (fenced o m).
Proof. intros H. unfold fenced. destruct (validateOwner o); [|apply respects_fail]. destruct (_ <=? _); [apply respects_fail|done]. Qed.

(** A read binds the state it reads: the continuation runs on that very state. *)
Definition respects_at {A} (d : db) (m : ct A) : Prop := db_ok d → ∀ a d', m d = Ok (a, d') → good d d'.
Lemma respects_at_all {A} (m : ct A) : (∀ d, respects_at d m) → respects m.
Proof. intros H d a d' Hd. exact (H d Hd a d'). Qed.
Lemma respects_at_read {A C} (f : db → A) (k : A → ct C) d : respects_at d (k (f d)) → respects_at d (sql_bind (sql_read f) k).
Proof. intros H Hd a d' E. exact (H Hd a d' E). Qed.
Lemma respects_at_write {C} (f : db → db) (k : unit → ct C) d :
  (db_ok d → good d (f d)) → respects (k tt) → respects_at d (sql_bind (sql_write f) k).
Proof. intros H Hk Hd a d' E. pose proof (H Hd) as G. eapply good_trans; [exact G|]. eapply Hk; [apply G|exact E]. Qed.
Lemma respects_here {A} d (m : ct A) : respects m → respects_at d m.
Proof. intros H Hd a d' E. by eapply H. Qed.

Ltac bool_split :=
  repeat match goal with H : (_ && _)%bool = true |- _ => apply andb_true_iff in H as [? ?] end.
Ltac str_eqs :=
  repeat match goal with
  | H : String.eqb ?a ?b = true |- _ => apply String.eqb_eq in H
  end.

(** [resp]: split a transaction into its statements. *)
Ltac resp :=
  repeat first
  [ done
  | apply crespects_ret | apply respects_fail | apply respects_fenced
  | match goal with
    | |- respects (if ?b then _ else _) => destruct b eqn:?
    | |- respects (match ?o with _ => _ end) => destruct o eqn:?
    | |- respects (sql_bind (sql_read _) _) => apply respects_at_all; intros ?d; apply respects_at_read
    | |- respects (sql_bind (sql_write _) _) => apply respects_at_all; intros ?d
    | |- respects (sql_bind _ _) => apply crespects_bind; [|intros ?a]
    | |- respects_at _ (sql_bind (sql_read _) _) => apply respects_at_read; cbv beta
    | |- respects_at _ (sql_bind (sql_write _) _) => apply respects_at_write; [intros ?Hok; cbv beta|]
    | |- respects_at _ (if ?b then _ else _) => destruct b eqn:?
    | |- respects_at _ (match ?o with _ => _ end) => destruct o eqn:?
    | |- respects_at _ _ => apply respects_here
    end
  | progress cbv zeta ].

(** The moves of the [SET] clauses. *)
Lemma oedge r f s s' :
  ob_state r = s → ob_key (f r) = ob_key r → ob_promise (f r) = ob_promise r → ob_state (f r) = s' → s' ∈ outbox_states →
  (∀ p, ofsm (Some (s, p)) (Some (s', p))) → omove r (f r).
Proof. intros <- Hk Hp <- Hin He. split; [done|]. split; [done|]. split; [done|]. apply rtc_once, He. Qed.

Lemma omove_stay r f : ob_key (f r) = ob_key r → ob_promise (f r) = ob_promise r → ob_state (f r) = ob_state r → ob_state r ∈ outbox_states → omove r (f r).
Proof. intros Hk Hp Hs Hin. split; [done|]. split; [done|]. rewrite Hs. done. Qed.

Lemma imove_dispose r st now : received r = true → terminal_state st = true → imove r (ib_dispose st now r).
Proof.
  unfold received, terminal_state. intros Hr%String.eqb_eq Ht%orb_true_iff. rewrite !String.eqb_eq in Ht. split; [done|].
  unfold iview. cbn. rewrite Hr. split; [unfold inbox_states; destruct Ht as [-> | ->]; set_solver|].
  apply rtc_once. destruct Ht as [-> | ->]; constructor.
Qed.

Lemma imove_bind r op now : ib_state r ∈ inbox_states → unbound r = true → imove r (ib_bind op now r).
Proof.
  intros Hin Hu. split; [done|]. split; [done|]. unfold iview. cbn. replace (coalesce (ib_operation r)) with ""%string; [apply rtc_once; constructor|].
  unfold unbound in Hu. destruct (ib_operation r) as [o|]; [|done]. apply String.eqb_eq in Hu. by subst.
Qed.

Ltac ob_pending_edge := eapply oedge; [eassumption|done|done|done|cbn; set_solver|constructor].

Lemma resp_claim_row now o b id : respects (claim_row now o b id).
Proof.
  unfold claim_row. resp. apply good_outbox_update; try done. intros r Hr Hw. bool_split. str_eqs. ob_pending_edge.
Qed.

Lemma resp_iter {A} (f : A → ct unit) l : (∀ x, respects (f x)) → respects (sql_iter f l).
Proof. intros H. induction l as [|x l IH]; cbn; [apply crespects_ret|]. apply crespects_bind; [apply H|done]. Qed.

Lemma resp_claim clock now n o l b : respects (claimControlOutbox clock now n o l b).
Proof. unfold claimControlOutbox. cbv zeta. resp. all: apply resp_iter; intros; apply resp_claim_row. Qed.

Lemma resp_transition_owned now op ty o want next :
  next ∈ outbox_states → (∀ p, ofsm (Some (want, p)) (Some (next, p))) → respects (outboxTransitionOwned now op ty o want next).
Proof.
  intros Hin He. unfold outboxTransitionOwned. resp. apply good_outbox_update; try done. intros r Hr Hw. bool_split. str_eqs.
  eapply oedge; try done.
Qed.

Lemma resp_transition_legacy now op ty s want next :
  next ∈ outbox_states → (∀ p, ofsm (Some (want, p)) (Some (next, p))) → respects (outboxTransitionLegacy now op ty s want next).
Proof.
  intros Hin He. unfold outboxTransitionLegacy. resp. apply good_outbox_update; try done. intros r Hr Hw. bool_split. str_eqs.
  eapply oedge; try done.
Qed.

Lemma in_flight_requeue r f :
  in_flight r = true → ob_key (f r) = ob_key r → ob_promise (f r) = ob_promise r → ob_state (f r) = "PENDING"%string → omove r (f r).
Proof.
  unfold in_flight. rewrite orb_true_iff, !String.eqb_eq. intros [H | H] Hk Hp Hs; (eapply oedge; [exact H|done|done|exact Hs|unfold outbox_states; set_solver|constructor]).
Qed.

Lemma outbox_state_in d r : db_ok d → r ∈ t_outbox d → ob_state r ∈ outbox_states.
Proof. intros Hd Hr. pose proof (ok_outbox_states d Hd) as H. rewrite list.Forall_forall in H. by apply H. Qed.
Lemma inbox_state_in d r : db_ok d → r ∈ t_inbox d → ib_state r ∈ inbox_states.
Proof. intros Hd Hr. pose proof (ok_inbox_states d Hd) as H. rewrite list.Forall_forall in H. by apply H. Qed.

Lemma resp_require o : respects (RequireCurrentControlOwner o).
Proof. unfold RequireCurrentControlOwner. resp. Qed.

Lemma resp_requeue_session now n s : respects (RequeueControlOutboxForSession now n s).
Proof. unfold RequeueControlOutboxForSession. resp. apply good_outbox_update; try done. intros r Hr Hw. bool_split. by apply in_flight_requeue. Qed.
Lemma resp_requeue_owner now o : respects (RequeueControlOutboxForOwner now o).
Proof. unfold RequeueControlOutboxForOwner. resp. apply good_outbox_update; try done. intros r Hr Hw. bool_split. by apply in_flight_requeue. Qed.
Lemma resp_requeue_item now op ty o : respects (RequeueControlOutboxItemOwned now op ty o).
Proof.
  unfold RequeueControlOutboxItemOwned. resp. apply good_outbox_update; try done. intros r Hr Hw. bool_split.
  by apply in_flight_requeue.
Qed.

Lemma resp_rebind now op ty s : respects (RebindControlOutboxSession now op ty s).
Proof.
  unfold RebindControlOutboxSession. resp. apply good_outbox_update; try done. intros r Hr Hw. apply omove_stay; try done. by eapply outbox_state_in.
Qed.
Lemma resp_rebind_owned now op ty o : respects (RebindControlOutboxSessionOwned now op ty o).
Proof.
  unfold RebindControlOutboxSessionOwned. resp; try apply resp_require. all: apply good_outbox_update; try done; intros r Hr Hw; apply omove_stay; try done.
  all: by eapply outbox_state_in.
Qed.

Lemma resp_claim_op now op ty s : respects (ClaimControlOutboxOperation now op ty s).
Proof.
  unfold ClaimControlOutboxOperation. resp. apply good_outbox_update; try done. intros r Hr Hw. bool_split. str_eqs. ob_pending_edge.
Qed.
Lemma resp_claim_op_owned now op ty o : respects (ClaimControlOutboxOperationOwned now op ty o).
Proof.
  unfold ClaimControlOutboxOperationOwned. resp. apply good_outbox_update; try done. intros r Hr Hw. bool_split. str_eqs. ob_pending_edge.
Qed.

Lemma resp_enqueue `{!Crypto} now item : respects (EnqueueControlOutbox now item).
Proof.
  intros d a d' Hd. unfold EnqueueControlOutbox. destruct (EnforceCleanupOnlyEnqueue d _ _); [|done]. cbv zeta.
  destruct (sql_exists _ _) eqn:E; [done|]. intros [= <- <-]. by apply good_outbox_insert.
Qed.

(** Inbox operations. *)
Lemma resp_record now item : respects (record_inbox now item).
Proof.
  intros d a d' Hd. unfold record_inbox. intros H. sql_walk H; [by apply good_refl|]. by apply good_inbox_insert.
Qed.

Lemma resp_with_owner {A} o (m : ct A) : respects m → respects (withControlOwnerImmediate o m).
Proof. intros H. unfold withControlOwnerImmediate. resp. Qed.

Lemma good_dispose d w st now :
  db_ok d → (∀ r, w r = true → received r = true) → terminal_state st = true → good d (set_inbox d (sql_update w (ib_dispose st now) (t_inbox d))).
Proof. intros Hd Hw Ht. apply good_inbox_update; try done. intros r Hr Hwr. apply imove_dispose; auto. Qed.

Lemma good_bind d w op now :
  db_ok d → (∀ r, w r = true → unbound r = true) → good d (set_inbox d (sql_update w (ib_bind op now) (t_inbox d))).
Proof. intros Hd Hw. apply good_inbox_update; try done. intros r Hr Hwr. apply imove_bind; [by eapply inbox_state_in|auto]. Qed.

Ltac inbox_case :=
  match goal with
  | |- good _ (set_inbox _ (sql_update _ (ib_dispose _ _) _)) => apply good_dispose
  | |- good _ (set_inbox _ (sql_update _ (ib_bind _ _) _)) => apply good_bind
  end; try done; intros ?r ?Hw; bool_split; done.

Lemma resp_bind now m op : respects (BindControlInboxOperationID now m op).
Proof. unfold BindControlInboxOperationID. resp; inbox_case. Qed.
Lemma resp_bind_owned now o m op : respects (BindControlInboxOperationIDOwned now o m op).
Proof. unfold BindControlInboxOperationIDOwned. resp; inbox_case. Qed.
Lemma resp_set_owned now o m st : terminal_state st = true → respects (setControlInboxStateOwned now o m st).
Proof. intros Ht. unfold setControlInboxStateOwned. apply resp_with_owner. resp; inbox_case. Qed.
Lemma resp_dispose now m st : terminal_state st = true → respects (dispose_inbox now m st).
Proof. intros Ht. unfold dispose_inbox. resp; inbox_case. Qed.
Lemma resp_exact now item st : respects (SetControlInboxStateExact now item st).
Proof.
  unfold SetControlInboxStateExact. destruct (_ || _ || _ || _); [apply respects_fail|]. destruct (terminal_state st) eqn:Ht; [|apply respects_fail].
  resp; inbox_case.
Qed.
Lemma resp_mark now m op o : respects (markReceiptInbox now m op o).
Proof. unfold markReceiptInbox. resp; inbox_case. Qed.

(** Receipts. *)

Lemma resp_deliver now op ty n o : respects (deliver_outcome now op ty n o).
Proof.
  unfold deliver_outcome. resp.
  all: repeat match goal with |- good _ (if ?b then _ else _) => destruct b end.
  all: first [by apply good_terminals | by apply good_results | by apply good_refl].
Qed.

(** The tables that [good] constrains. *)
Definition control_tables (d : db) : list OutboxRow * list InboxRow * list NodeRow * Z * Z :=
  (t_outbox d, t_inbox d, t_nodes d, t_seq_outbox d, t_seq_inbox d).

Lemma good_ext d d1 d2 : control_tables d2 = control_tables d1 → good d d1 → good d d2.
Proof.
  intros [= Ho Hi Hn Hs1 Hs2] [[k1 i1 s1 k2 i2 s2 k3 sq] g2 g3 g4]. split.
  - split; rewrite ?Ho, ?Hi, ?Hn, ?Hs1, ?Hs2; done.
  - intros op ty. specialize (g2 op ty). unfold outbox_view, outbox_row in *. by rewrite Ho.
  - intros m. specialize (g3 m). unfold inbox_view, inbox_row in *. by rewrite Hi.
  - intros n. specialize (g4 n). unfold node_row in *. by rewrite Hn.
Qed.

Lemma deliver_tables now op ty n o d a d' : deliver_outcome now op ty n o d = Ok (a, d') → control_tables d' = control_tables d.
Proof.
  unfold deliver_outcome. intros H. sql_walk H. unfold control_tables. cbn. match goal with |- context [if ?b then _ else _] => by destruct b end.
Qed.

(** Marking the acknowledged rows and deleting the marked rows deletes the
    acknowledged rows: no committed row is RECEIPTED. *)
Lemma receipted_delete (k w1 w2 : OutboxRow → bool) now t :
  (∀ r s z, k (ob_advance s z r) = k r) → (∀ r, w1 r = k r && String.eqb (ob_state r) "SEMANTIC_ACKED") →
  (∀ r, w2 r = k r && String.eqb (ob_state r) "RECEIPTED") → Forall (λ r, ob_state r ∈ outbox_states) t →
  sql_delete w2 (sql_update w1 (ob_advance "RECEIPTED" now) t) = sql_delete (λ r, k r && String.eqb (ob_state r) "SEMANTIC_ACKED") t.
Proof.
  intros Hk H1 H2. induction t as [|r t IH]; [done|]. intros [Hr Ht]%list.Forall_cons. specialize (IH Ht).
  unfold sql_delete, sql_update in *. cbn. rewrite H1. destruct (k r && String.eqb (ob_state r) "SEMANTIC_ACKED") eqn:E; cbn; rewrite H2.
  - rewrite Hk. apply andb_true_iff in E as [-> _]. cbn. exact IH.
  - assert (Hs : String.eqb (ob_state r) "RECEIPTED" = false).
    { apply String.eqb_neq. intros Hs. rewrite Hs in Hr. unfold outbox_states in Hr. set_solver. }
    rewrite Hs, andb_false_r. cbn. by rewrite IH.
Qed.

(** The rows a receipt removes, once its inbox row is projected. *)
Definition receipt_row (op ty s : string) (o : option ControlOwner) (d : db) (r : OutboxRow) : bool :=
  (ob_at op ty r && sql_eq (ob_session r) s && owned_by o (ob_node r) d) && String.eqb (ob_state r) "SEMANTIC_ACKED".

(** A receipt either only projects its inbox row, or projects it and removes the
    acknowledged row. *)
Lemma accept_receipt_effect now m iop ip op ty s o d a d' :
  db_ok d → acceptControlReceipt now m iop ip op ty s o d = Ok (a, d') →
  ∃ b d1, markReceiptInbox now m iop o d = Ok (b, d1) ∧
    (d' = d1 ∨ control_tables d' = control_tables (set_outbox d1 (sql_delete (receipt_row op ty s o d1) (t_outbox d1)))).
Proof.
  intros Hd H. unfold acceptControlReceipt in H. sql_walk H.
  { eauto. }
  match goal with Hm : markReceiptInbox _ _ _ _ _ = Ok (?b, ?d1) |- _ =>
    exists b, d1; split; [exact Hm|]; pose proof (gd_ok _ _ (resp_mark _ _ _ _ _ _ _ Hd Hm)) as Hok; set (dm := d1) in * end.
  right. match goal with |- control_tables (set_outbox ?x _) = control_tables (set_outbox _ _) =>
    assert (Ht : control_tables x = control_tables (set_outbox dm (sql_update (λ x, ob_at op ty x && (ob_state x =? "SEMANTIC_ACKED")%string
      && sql_eq (ob_session x) s && owned_by o (ob_node x) dm) (ob_advance "RECEIPTED" now) (t_outbox dm)))) end.
  { match goal with Hm : (if ?c then _ else _) _ = Ok _ |- _ => destruct c; [by apply deliver_tables in Hm|by injection Hm as _ <-] end. }
  injection Ht as Ho Hi Hn Hs1 Hs2. unfold control_tables. cbn. rewrite Ho, Hi, Hn, Hs1, Hs2. cbn.
  rewrite (receipted_delete (λ r, ob_at op ty r && sql_eq (ob_session r) s && owned_by o (ob_node r) dm)); [reflexivity|done|..|apply Hok].
  all: intros r; by destruct (ob_at op ty r), (ob_state r =? _)%string, (sql_eq _ _), (owned_by _ _ _).
Qed.

Lemma resp_accept now m iop ip op ty s o : respects (acceptControlReceipt now m iop ip op ty s o).
Proof.
  intros d a d' Hd H. apply accept_receipt_effect in H as (b & d1 & Hm & H); [|done]. pose proof (resp_mark _ _ _ _ _ _ _ Hd Hm) as G.
  destruct H as [-> | H]; [done|]. eapply good_ext; [exact H|]. eapply good_trans; [exact G|]. apply good_outbox_delete; [apply G|].
  unfold receipt_row. intros r _ Hw. bool_split. by str_eqs.
Qed.

(** Nodes. *)
Lemma resp_create c now n : respects (CreateNode c now n).
Proof.
  intros d a d' Hd. unfold CreateNode. intros H. sql_walk H. apply good_node_insert; [done|]. cbn. intros x Hx He.
  match goal with E : sql_exists _ _ = false |- _ => rewrite <- not_true_iff_false in E; apply E, sql_exists_true end.
  exists x. split; [done|]. by rewrite He, String.eqb_refl.
Qed.
Lemma resp_acquire now id e s : respects (AcquireControlOwner now id e s).
Proof. unfold AcquireControlOwner. resp. apply good_node_update; [done|done|]. intros r. cbn. lia. Qed.
Lemma resp_state now id st : respects (SetNodeControlState now id st).
Proof. unfold SetNodeControlState. resp. apply good_node_update; [done|done|]. intros r. cbn. lia. Qed.
Lemma resp_state_owned now o st : respects (SetNodeControlStateOwned now o st).
Proof. unfold SetNodeControlStateOwned. resp. apply good_node_update; [done|done|]. intros r. cbn. lia. Qed.

Create HintDb control.
#[export] Hint Resolve resp_create resp_acquire resp_state resp_state_owned resp_enqueue resp_claim resp_claim_op resp_claim_op_owned
  resp_accept resp_requeue_session resp_requeue_owner resp_requeue_item resp_rebind resp_rebind_owned resp_record resp_bind resp_bind_owned
  resp_exact respects_fail crespects_ret : control.

Lemma resp_sent_owned now op ty o : respects (MarkControlOutboxSentOwned now op ty o).
Proof. apply resp_transition_owned; [unfold outbox_states; set_solver|constructor]. Qed.
Lemma resp_ack_owned now op ty o : respects (AcceptControlSemanticACKOwned now op ty o).
Proof. apply resp_transition_owned; [unfold outbox_states; set_solver|constructor]. Qed.
Lemma resp_record_owned now o item : respects (RecordControlInboxOwned now o item).
Proof.
  unfold RecordControlInboxOwned. destruct (validateOwner o); [|apply respects_fail]. destruct (negb _); [apply respects_fail|].
  apply resp_with_owner, resp_record.
Qed.
Lemma resp_state_set_owned now o m st : respects (SetControlInboxStateOwned now o m st).
Proof.
  unfold SetControlInboxStateOwned. destruct (_ || _); [apply respects_fail|]. destruct (terminal_state st) eqn:E; [|apply respects_fail].
  by apply resp_set_owned.
Qed.
Lemma resp_receipt_exact now o r : respects (AcceptControlReceiptOwnedInbox now o r).
Proof.
  unfold AcceptControlReceiptOwnedInbox. destruct (validateOwner o); [|apply respects_fail]. destruct (_ || _ || _); [apply respects_fail|].
  apply respects_fenced, resp_accept.
Qed.
Lemma resp_read {A} (f : db → A) : respects (sql_read f).
Proof. intros d a d' Hd [= <- <-]. by apply good_refl. Qed.
#[export] Hint Resolve resp_sent_owned resp_ack_owned resp_record_owned resp_state_set_owned resp_receipt_exact resp_read resp_require : control.

Lemma resp_drop {A} (m : ct A) : respects m → respects (drop_result m).
Proof. intros H. unfold drop_result. apply crespects_bind; [done|]. intros a. apply crespects_ret. Qed.

Section ExecProofs.
Context `{!Crypto}.

Lemma cbody_respects c : respects (cbody c).
Proof.
  destruct c; cbn [cbody]; try apply resp_drop; eauto with control.
  all: unfold ClaimControlOutbox, ClaimControlOutboxOwned, MarkControlOutboxSent, MarkControlOutboxSentOwned, AcceptControlSemanticACK,
    AcceptControlSemanticACKOwned, AcceptControlReceipt, AcceptControlReceiptWithInbox, AcceptControlReceiptOwned,
    AcceptControlReceiptWithInboxOwned, AcceptControlReceiptOwnedInbox, RecordControlInbox, RecordControlInboxOwned, RejectControlInbox,
    RejectControlInboxOwned, SetControlInboxState, SetControlInboxStateOwned; eauto with control.
  all: try (apply resp_transition_owned; [unfold outbox_states; set_solver|constructor]).
  all: try (apply resp_transition_legacy; [unfold outbox_states; set_solver|constructor]).
  all: repeat first
    [ done | progress eauto with control
    | apply resp_set_owned | apply resp_dispose | apply resp_with_owner | apply respects_fenced
    | match goal with
      | |- respects (match validateOwner ?o with _ => _ end) => destruct (validateOwner o)
      | |- respects (if negb ?b then _ else _) => destruct b eqn:?; cbn [negb]
      | |- respects (if ?b then _ else _) => destruct b
      end ].
Qed.

(** Every command of the control store moves the tables only along the automata and
    keeps them well formed. *)
Lemma cexec_good c d : db_ok d → good d (cexec c d).2.
Proof.
  intros Hd. unfold cexec, commit_tx. destruct (cbody c d) as [[[] d']|e] eqn:E; cbn; [by eapply cbody_respects|by apply good_refl].
Qed.
End ExecProofs.
