(* ===== verification/ControlCleanup.v ===== *)
(** * Cleanup of the control inbox

    [DeleteControlInboxBeforeLimit] examines a bounded page of rows per call and keeps a
    cursor between calls.  One pass removes exactly the removable rows it examined; a
    cycle of passes removes exactly the removable rows of the table. *)

From Stdlib Require Import ZArith Lia Strings.Byte Sorted.
From stdpp Require Import base tactics list sets strings option relations.
From S2P Require Import Prelude GoStd Frame Probe Sql Control ControlProofs.

Open Scope Z_scope.

Section Cleanup.
Context {crypto : Crypto}.

(** Retention does not read the inbox. *)
Lemma removable_inbox cutoff d t r : removable cutoff (set_inbox d t) r = removable cutoff d r.
Proof. reflexivity. Qed.

Lemma removable_terminal cutoff d r :
  removable cutoff d r = true → terminal_state (ib_state r) = true ∧ (ib_updated r <? cutoff) = true.
Proof. unfold removable. intros H. bool_split. done. Qed.

(** The rows of [t] without those of [ex] that may go. *)
Definition cleared (cutoff : Z) (d : db) (ex t : list InboxRow) : list InboxRow :=
  sql_delete (λ r, existsb (λ x, ib_id x =? ib_id r) (List.filter (removable cutoff d) ex)) t.

Lemma cleared_nil cutoff d t : cleared cutoff d [] t = t.
Proof. unfold cleared, sql_delete. cbn. by induction t as [|r t IH]; cbn; [|rewrite IH]. Qed.

Lemma cleared_cons cutoff d x ex t : cleared cutoff d (x :: ex) t = cleared cutoff d ex (cleared cutoff d [x] t).
Proof.
  unfold cleared. rewrite sql_delete_delete. apply sql_delete_ext. intros r _. cbn. destruct (removable cutoff d x); cbn; [|done].
  by rewrite orb_false_r.
Qed.

(** The loop examines a prefix of its page and removes the removable rows of it. *)
Lemma cleanup_loop_spec cutoff hw limit l : ∀ removed lst d,
  unique ib_id (t_inbox d) → NoDup (ib_id <$> l) → (∀ r, r ∈ l → r ∈ t_inbox d ∧ ib_id r ≤ hw) →
  ∃ ex rest, l = ex ++ rest ∧
    cleanup_loop cutoff hw limit removed lst l d
    = ((removed + length (List.filter (removable cutoff d) ex))%nat, default lst (last (ib_id <$> ex)),
       set_inbox d (cleared cutoff d ex (t_inbox d))) ∧
    (rest = [] ∨ (limit ≤ removed + length (List.filter (removable cutoff d) ex))%nat) ∧
    ((removed < limit)%nat → (removed + length (List.filter (removable cutoff d) ex) ≤ limit)%nat) ∧
    (l ≠ [] → ex ≠ []).
Proof.
  induction l as [|item l IH]; intros removed lst d Hu Hnd Hin.
  { exists [], []. split; [done|]. cbn. rewrite cleared_nil, Nat.add_0_r. destruct d. split; [done|]. split; [by left|]. split; [lia|done]. }
  destruct (Hin item) as [Hit Hhw]; [by left|]. cbn in Hnd. apply list.NoDup_cons in Hnd as [Hni Hnd]. cbn [cleanup_loop].
  destruct (removable cutoff d item) eqn:Erm; cbn [negb].
  - destruct (removable_terminal _ _ _ Erm) as [Hts Hup].
    set (w := λ r, (ib_id r =? ib_id item) && (ib_id r <=? hw) && terminal_state (ib_state r) && (ib_updated r <? cutoff)).
    assert (Hw : ∀ r, r ∈ t_inbox d → w r = (ib_id item =? ib_id r)).
    { intros r Hr. unfold w. destruct (Z.eqb_spec (ib_id r) (ib_id item)) as [He|He].
      - assert (r = item) as -> by by apply (unique_inj ib_id (t_inbox d)). rewrite Hts, Hup, Z.eqb_refl. cbn. rewrite !andb_true_r. by apply Z.leb_le.
      - cbn. symmetry. by apply Z.eqb_neq. }
    assert (Hc : sql_count w (t_inbox d) = 1%nat).
    { apply (sql_count_unique ib_id _ _ item); [done|done|by rewrite Hw, Z.eqb_refl|]. intros x Hx Hwx. rewrite Hw in Hwx by done. by apply Z.eqb_eq in Hwx. }
    assert (Hdel : sql_delete w (t_inbox d) = cleared cutoff d [item] (t_inbox d)).
    { unfold cleared. cbn. rewrite Erm. apply sql_delete_ext. intros r Hr. cbn. by rewrite orb_false_r, Hw. }
    rewrite Hc, Hdel. destruct (Nat.leb_spec limit (removed + 1)) as [Hl|Hl].
    + exists [item], l. split; [done|]. cbn. rewrite Erm. cbn. split; [done|]. split; [by right|]. split; [lia|done].
    + set (d1 := set_inbox d (cleared cutoff d [item] (t_inbox d))).
      destruct (IH (removed + 1)%nat (ib_id item) d1) as (ex & rest & -> & -> & H1 & H2 & _).
      * by apply unique_delete.
      * done.
      * intros r Hr. destruct (Hin r) as [Hrt Hrh]; [by right|]. split; [|done]. apply in_sql_delete. split; [done|]. cbn. rewrite Erm. cbn.
        rewrite orb_false_r. apply Z.eqb_neq. intros He. apply Hni. rewrite He. apply list_elem_of_fmap. by exists r.
      * change (removable cutoff d1) with (removable cutoff d) in *. exists (item :: ex), rest. split; [done|]. cbn. rewrite Erm. cbn. split_and!; [|destruct H1; [by left|right; lia]|lia|done].
        f_equal; [f_equal; [lia|]|].
        -- change (ib_id <$> item :: ex) with (ib_id item :: (ib_id <$> ex)). rewrite last_cons. by destruct (last _).
        -- rewrite (cleared_cons _ _ item ex). reflexivity.
  - destruct (IH removed (ib_id item) d) as (ex & rest & -> & -> & H1 & H2 & _); [done|done|intros r Hr; apply Hin; by right|].
    exists (item :: ex), rest. split; [done|]. unfold cleared. cbn. rewrite Erm. split_and!; try done. f_equal. f_equal.
    change (ib_id <$> item :: ex) with (ib_id item :: (ib_id <$> ex)). rewrite last_cons. by destruct (last _).
Qed.

(** *** One pass *)

Lemma cleanup_limit_pos limit : 1 ≤ cleanup_limit limit ≤ maxControlInboxCleanupBatch.
Proof. unfold cleanup_limit, probeCleanupLimit, defaultProbeCleanupBatch, maxControlInboxCleanupBatch. destruct (Z.leb_spec limit 0); lia. Qed.

Lemma scan_limit_pos limit : 1 ≤ scan_limit (cleanup_limit limit) ≤ maxControlInboxCleanupScan.
Proof.
  pose proof (cleanup_limit_pos limit). unfold scan_limit, maxControlInboxCleanupScan, maxControlInboxCleanupBatch in *. change (4096 / 4) with 1024.
  destruct (Z.leb_spec (cleanup_limit limit) 1024); lia.
Qed.

(** The rows a pass may examine, newest first. *)
Definition below (before : Z) (d : db) : list InboxRow := rev (sql_select (λ r, (ib_id r <=? before) && (0 <? ib_id r)) (t_inbox d)).

Lemma in_below before d r : db_ok d → r ∈ below before d ↔ r ∈ t_inbox d ∧ ib_id r ≤ before.
Proof.
  intros Hd. unfold below. rewrite list_elem_of_In, <- in_rev, <- list_elem_of_In, in_sql_select, andb_true_iff, Z.leb_le, Z.ltb_lt.
  pose proof (proj2 (ok_inbox_ids d Hd)) as Hp. rewrite list.Forall_forall in Hp. split; [tauto|]. intros [Hr Hb]. specialize (Hp r Hr). cbn in Hp. split; [done|lia].
Qed.

Lemma StronglySorted_rev (l : list Z) : StronglySorted Z.lt l → StronglySorted Z.gt (rev l).
Proof.
  induction l as [|x l IH]; [constructor|]. intros [Hs Hx]%StronglySorted_inv. cbn. specialize (IH Hs). assert (Hf : ∀ y, y ∈ rev l → y > x).
  { intros y Hy. rewrite list_elem_of_In, <- in_rev, <- list_elem_of_In in Hy. rewrite list.Forall_forall in Hx. specialize (Hx y Hy). lia. }
  clear Hs Hx. revert Hf IH. generalize (rev l). intros k. induction k as [|z k IHk]; cbn; intros Hf Hk; [repeat constructor|].
  apply StronglySorted_inv in Hk as [Hk Hz]. constructor; [apply IHk; [|done]; intros; apply Hf; by right|]. apply Forall_app. split; [done|].
  constructor; [apply Hf; by left|done].
Qed.

Lemma below_sorted before d : db_ok d → StronglySorted Z.gt (ib_id <$> below before d).
Proof.
  intros Hd. unfold below. change (?f <$> rev ?l) with (map f (rev l)). rewrite map_rev. apply StronglySorted_rev. apply StronglySorted_filter. apply Hd.
Qed.

Lemma StronglySorted_gt_NoDup (l : list Z) : StronglySorted Z.gt l → NoDup l.
Proof.
  induction l as [|x l IH]; [constructor|]. intros [Hs Hx]%StronglySorted_inv. constructor; [|auto]. intros Hin. rewrite list.Forall_forall in Hx.
  specialize (Hx x Hin). lia.
Qed.

Lemma ids_unique d : db_ok d → unique ib_id (t_inbox d).
Proof.
  intros Hd. unfold unique. pose proof (proj1 (ok_inbox_ids d Hd)) as Hs. induction (ib_id <$> t_inbox d) as [|x l IH]; [constructor|].
  apply StronglySorted_inv in Hs as [Hs Hx]. constructor; [|auto]. intros Hin. rewrite list.Forall_forall in Hx. specialize (Hx x Hin). lia.
Qed.

(** In a descending list, what follows a prefix is below the prefix's last element. *)
Lemma descending_split (ex rest : list InboxRow) z r :
  StronglySorted Z.gt (ib_id <$> ex ++ rest) → last (ib_id <$> ex) = Some z → r ∈ rest → ib_id r < z.
Proof.
  intros Hs Hl Hr. induction ex as [|x ex IH]; [done|]. cbn in Hs. apply StronglySorted_inv in Hs as [Hs Hx].
  change (ib_id <$> x :: ex) with (ib_id x :: (ib_id <$> ex)) in Hl. rewrite last_cons in Hl. destruct (last (ib_id <$> ex)) eqn:E.
  - injection Hl as ->. auto.
  - injection Hl as <-. rewrite list.Forall_forall in Hx. assert (ib_id x > ib_id r); [|lia]. apply Hx. rewrite fmap_app. apply elem_of_app. right.
    apply list_elem_of_fmap. by exists r.
Qed.

Lemma descending_prefix (l1 l2 : list Z) : StronglySorted Z.gt (l1 ++ l2) → StronglySorted Z.gt l1.
Proof.
  induction l1 as [|x l1 IH]; cbn; [constructor|]. intros [Hs Hx]%StronglySorted_inv. constructor; [auto|]. by apply Forall_app in Hx as [? _].
Qed.

Lemma descending_last (ex : list InboxRow) z r :
  StronglySorted Z.gt (ib_id <$> ex) → last (ib_id <$> ex) = Some z → r ∈ ex → z ≤ ib_id r.
Proof.
  intros Hs Hl Hr. apply last_Some in Hl as [l Hl]. rewrite Hl in Hs. assert (Hin : ib_id r ∈ l ++ [z]) by (rewrite <- Hl; apply list_elem_of_fmap; by exists r).
  clear Hl Hr. induction l as [|x l IH]; cbn in *; [apply list_elem_of_singleton in Hin; lia|]. apply StronglySorted_inv in Hs as [Hs Hx].
  apply elem_of_cons in Hin as [-> | Hin]; [|auto]. rewrite list.Forall_forall in Hx. assert (x > z); [|lia]. apply Hx, elem_of_app. right. by left.
Qed.

(** A pass in the middle of a cycle: the examined rows are a prefix of the rows below
    the cursor, the removable ones of them are removed, and the cursor moves below the
    last examined row or is reset. *)
Lemma cleanup_pass_spec cutoff limit hw before d :
  db_ok d → before ≤ hw →
  ∃ ex rest, below before d = ex ++ rest ∧ (below before d ≠ [] → ex ≠ []) ∧
    (length ex ≤ Z.to_nat (scan_limit (cleanup_limit limit)))%nat ∧
    (length (List.filter (removable cutoff d) ex) ≤ Z.to_nat (cleanup_limit limit))%nat ∧
    DeleteControlInboxBeforeLimit cutoff limit (mkCursor hw before true false) d
    = (Some (length (List.filter (removable cutoff d) ex)),
       if bool_decide (ex = []) || (default 0 (last (ib_id <$> ex)) <=? 1) then mkCursor 0 0 false false
       else mkCursor hw (default 0 (last (ib_id <$> ex)) - 1) true false,
       set_inbox d (cleared cutoff d ex (t_inbox d))).
Proof.
  intros Hd Hhw. pose proof (cleanup_limit_pos limit) as Hlim. pose proof (scan_limit_pos limit) as Hscan. set (sl := Z.to_nat (scan_limit (cleanup_limit limit))).
  pose proof (below_sorted before d Hd) as Hs. set (page := take sl (below before d)).
  assert (Hpage : below before d = page ++ drop sl (below before d)) by (symmetry; apply take_drop).
  destruct (cleanup_loop_spec cutoff hw (Z.to_nat (cleanup_limit limit)) page 0%nat 0 d) as (ex & rest & He & Hl & _ & Hn & Hne).
  - by apply ids_unique.
  - apply StronglySorted_gt_NoDup in Hs. rewrite Hpage, fmap_app in Hs. by apply list.NoDup_app in Hs as [? _].
  - intros r Hr. assert (Hb : r ∈ below before d) by (rewrite Hpage; apply elem_of_app; by left). apply in_below in Hb as [? ?]; [|done]. split; [done|lia].
  - exists ex, (rest ++ drop sl (below before d)). rewrite app_assoc, <- He. split_and!; [done|..].
    + intros Hb. apply Hne. unfold page. destruct (below before d); [done|]. unfold sl. destruct (Z.to_nat (scan_limit _)) eqn:E; [lia|done].
    + trans (length page); [rewrite He, length_app; lia|]. unfold page. rewrite length_take. lia.
    + apply Hn. lia.
    + unfold DeleteControlInboxBeforeLimit. cbn. change (cleanup_page before (scan_limit (cleanup_limit limit)) d) with page. rewrite Hl. cbn.
      f_equal. f_equal. assert (Hiff : bool_decide (page = []) = bool_decide (ex = [])); [|by rewrite Hiff].
      apply bool_decide_ext. split; [intros Hp; rewrite Hp in He; destruct ex; [done|discriminate He]|]. intros ->. destruct page; [done|]. by destruct Hne.
Qed.

(** *** A cycle of passes *)

Definition open_cursor : controlInboxCleanupCursor := mkCursor 0 0 false false.
Definition cleanup_passes (cutoff limit : Z) (n : nat) (st : cstate) : cstate := Nat.iter n (cstep (EvCleanup cutoff limit)) st.

Lemma ok_inbox_delete d w : db_ok d → db_ok (set_inbox d (sql_delete w (t_inbox d))).
Proof.
  intros [k1 i1 s1 k2 [i2 i2'] s2 k3 sq]. split; cbn; try done.
  - by apply unique_delete.
  - split; [by apply StronglySorted_filter|by apply Forall_sql_delete].
  - by apply Forall_sql_delete.
Qed.

(** A row is cleared exactly when it was examined and is removable. *)
Lemma cleared_by cutoff d ex r :
  db_ok d → (∀ x, x ∈ ex → x ∈ t_inbox d) → r ∈ t_inbox d →
  existsb (λ x, ib_id x =? ib_id r) (List.filter (removable cutoff d) ex) = true ↔ r ∈ ex ∧ removable cutoff d r = true.
Proof.
  intros Hd Hex Hr. rewrite existsb_exists. split.
  - intros (x & Hx & He%Z.eqb_eq). apply list_elem_of_In, in_sql_select in Hx as [Hx Hrm].
    assert (x = r) as <- by (apply (unique_inj ib_id (t_inbox d)); auto using ids_unique). done.
  - intros [He Hrm]. exists r. split; [|apply Z.eqb_refl]. apply list_elem_of_In. by apply in_sql_select.
Qed.

Lemma cleared_all cutoff d ex :
  db_ok d → (∀ x, x ∈ ex → x ∈ t_inbox d) → (∀ r, r ∈ t_inbox d → removable cutoff d r = true → r ∈ ex) →
  cleared cutoff d ex (t_inbox d) = sql_delete (removable cutoff d) (t_inbox d).
Proof.
  intros Hd Hex Hall. apply sql_delete_ext. intros r Hr. apply eq_true_iff_eq. rewrite cleared_by by done. naive_solver.
Qed.

Lemma cleared_then cutoff d ex :
  db_ok d → (∀ x, x ∈ ex → x ∈ t_inbox d) →
  sql_delete (removable cutoff d) (cleared cutoff d ex (t_inbox d)) = sql_delete (removable cutoff d) (t_inbox d).
Proof.
  intros Hd Hex. unfold cleared. rewrite sql_delete_delete. apply sql_delete_ext. intros r Hr. apply eq_true_iff_eq.
  rewrite orb_true_iff, cleared_by by done. naive_solver.
Qed.

Lemma cleanup_cycle_from cutoff limit k : ∀ d hw before,
  db_ok d → before ≤ hw → (∀ r, r ∈ t_inbox d → before < ib_id r → removable cutoff d r = false) → (length (below before d) ≤ k)%nat →
  ∃ n, (1 ≤ n ≤ k + 1)%nat ∧
    cleanup_passes cutoff limit n (d, mkCursor hw before true false) = (set_inbox d (sql_delete (removable cutoff d) (t_inbox d)), open_cursor).
Proof.
  induction k as [k IH] using lt_wf_ind. intros d hw before Hd Hhw Hdone Hk.
  destruct (cleanup_pass_spec cutoff limit hw before d Hd Hhw) as (ex & rest & Hb & Hne & _ & _ & Hpass). pose proof (below_sorted before d Hd) as Hs.
  assert (Hin : ∀ r, r ∈ ex ++ rest ↔ r ∈ t_inbox d ∧ ib_id r ≤ before) by (intros r; rewrite <- Hb; by apply in_below).
  assert (Hex : ∀ x, x ∈ ex → x ∈ t_inbox d) by (intros x Hx; apply (Hin x), elem_of_app; by left).
  assert (Hrm : ∀ r, r ∈ t_inbox d → removable cutoff d r = true → r ∈ ex ++ rest).
  { intros r Hr Hx. apply Hin. split; [done|]. destruct (Z.le_gt_cases (ib_id r) before); [done|]. rewrite Hdone in Hx; [done|done|lia]. }
  rewrite Hb in Hs, Hk, Hne. destruct (bool_decide (ex = []) || _) eqn:Ereset.
  - exists 1%nat. split; [lia|]. unfold cleanup_passes. change (Nat.iter 1 ?f ?x) with (f x). unfold cstep. cbn [fst snd]. rewrite Hpass. rewrite cleared_all; [done|done|done|]. intros r Hr Hx.
    destruct (proj1 (elem_of_app _ _ _) (Hrm r Hr Hx)) as [|Hrest]; [done|]. exfalso. apply orb_true_iff in Ereset as [Hnil%bool_decide_eq_true | Hone%Z.leb_le].
    + apply Hne; [|done]. subst ex. by destruct rest; [apply elem_of_nil in Hrest|].
    + destruct (last (ib_id <$> ex)) as [z|] eqn:El.
      * pose proof (descending_split _ _ _ _ Hs El Hrest). cbn in Hone. pose proof (proj2 (ok_inbox_ids d Hd)) as Hp. rewrite list.Forall_forall in Hp.
        specialize (Hp r Hr). lia.
      * apply last_None, fmap_nil_inv in El. apply Hne; [|done]. subst ex. by destruct rest; [apply elem_of_nil in Hrest|].
  - apply orb_false_iff in Ereset as [Hnn%bool_decide_eq_false Hz%Z.leb_gt]. destruct (last (ib_id <$> ex)) as [z|] eqn:El; [cbn in Hz; change (default 0 (Some z)) with z in Hpass|cbn in Hz; lia].
    set (d1 := set_inbox d (cleared cutoff d ex (t_inbox d))) in *. assert (Hd1 : db_ok d1) by by apply ok_inbox_delete.
    destruct (proj1 (last_Some _ _) El) as [l0 Hl0]. assert (Hzin : z ∈ ib_id <$> ex) by (rewrite Hl0; apply elem_of_app; right; by left).
    apply list_elem_of_fmap in Hzin as (y & Hzy & Hy). assert (Hzb : z ≤ before) by (rewrite Hzy; apply Hin, elem_of_app; by left).
    assert (Hsx : StronglySorted Z.gt (ib_id <$> ex)) by (rewrite fmap_app in Hs; by apply descending_prefix in Hs).
    assert (Hlow : ∀ r, r ∈ below (z - 1) d1 → r ∈ rest).
    { intros r [[Hr Hc]%in_sql_delete Hid]%in_below; [|done]. assert (Hall : r ∈ ex ++ rest) by (apply Hin; split; [done|lia]).
      apply elem_of_app in Hall as [He|]; [|done]. pose proof (descending_last _ _ _ Hsx El He). lia. }
    assert (Hlen : (length (below (z - 1) d1) ≤ length rest)%nat).
    { apply submseteq_length, NoDup_submseteq; [|exact Hlow]. eapply NoDup_fmap_1, StronglySorted_gt_NoDup, below_sorted, Hd1. }
    assert (Hexl : (0 < length ex)%nat) by (destruct ex; [done|cbn; lia]). rewrite length_app in Hk.
    destruct (IH (length rest) ltac:(lia) d1 hw (z - 1) Hd1 ltac:(lia)) as (n & Hn & Hrun).
    { intros r [Hr Hc]%in_sql_delete Hid. change (removable cutoff d1 r) with (removable cutoff d r). destruct (removable cutoff d r) eqn:Er; [|done].
      assert (Hall : r ∈ ex) by (destruct (proj1 (elem_of_app _ _ _) (Hrm r Hr Er)) as [|Hrest]; [done|]; pose proof (descending_split _ _ _ _ Hs El Hrest); lia).
      rewrite (proj2 (cleared_by cutoff d ex r Hd Hex Hr)) in Hc; done. }
    { exact Hlen. }
    exists (S n). split; [lia|]. unfold cleanup_passes in *. rewrite Nat.iter_succ_r. unfold cstep at 2. cbn [fst snd]. rewrite Hpass, Hrun.
    change (removable cutoff d1) with (removable cutoff d). unfold d1. change (t_inbox (set_inbox d ?t)) with t. by rewrite cleared_then.
Qed.

Lemma max_inbox_id_ge d r : r ∈ t_inbox d → ib_id r ≤ max_inbox_id d.
Proof.
  unfold max_inbox_id. induction (t_inbox d) as [|x t IH]; [intros H; by apply elem_of_nil in H|]. cbn. intros [-> | H]%elem_of_cons; [lia|]. specialize (IH H). lia.
Qed.

(** A first pass over a non-empty inbox starts at its newest row. *)
Lemma cleanup_first cutoff limit a b d :
  max_inbox_id d ≠ 0 →
  cstep (EvCleanup cutoff limit) (d, mkCursor a b false false) = cstep (EvCleanup cutoff limit) (d, mkCursor (max_inbox_id d) (max_inbox_id d) true false).
Proof.
  intros H. unfold cstep, DeleteControlInboxBeforeLimit. cbn [fst snd cc_closed cc_initialized cc_highWater cc_beforeID negb andb].
  apply Z.eqb_neq in H. rewrite H. reflexivity.
Qed.
End Cleanup.
