(* ===== verification/ControlProps.v ===== *)
(** * What the control store guarantees

    Over every sequence of commands and cleanup passes: the tables stay well formed,
    an outbox promise moves only along its automaton, a superseded connection owner
    changes nothing, an inbox message is recorded once and leaves only when nothing
    protects it, and a cleanup cycle removes exactly the removable rows. *)

From Stdlib Require Import ZArith Lia Strings.Byte Sorted.
From stdpp Require Import base tactics list sets strings option relations.
From S2P Require Import Prelude GoStd Frame Probe Sql Control ControlProofs ControlCleanup.

Open Scope Z_scope.

(** ** Well-formed states *)

Definition cursor_ok (c : controlInboxCleanupCursor) : Prop := cc_initialized c = true → cc_beforeID c ≤ cc_highWater c.
Definition st_ok (st : cstate) : Prop := db_ok st.1 ∧ cursor_ok st.2.

Definition empty_db : db := mkDb [] [] [] [] [] [] [] [] [] 0 0.

Lemma empty_db_ok : db_ok empty_db.
Proof. split; cbn; try constructor; try constructor; done. Qed.

Section Runs.
Context {crypto : Crypto}.

(** A pass from any well-formed cursor removes some of the removable rows. *)
Lemma cleanup_step_effect cutoff limit st :
  st_ok st → ∃ ex, (∀ r, r ∈ ex → r ∈ t_inbox st.1) ∧ st_ok (cstep (EvCleanup cutoff limit) st) ∧
    (cstep (EvCleanup cutoff limit) st).1 = set_inbox st.1 (cleared cutoff st.1 ex (t_inbox st.1)).
Proof.
  destruct st as [d c]. intros [Hd Hc]. cbn [fst snd] in Hd, Hc |- *.
  assert (Hstay : ∃ ex, (∀ r, r ∈ ex → r ∈ t_inbox d) ∧ st_ok (d, c) ∧ d = set_inbox d (cleared cutoff d ex (t_inbox d))).
  { exists []. split; [intros r Hr; by apply elem_of_nil in Hr|]. split; [by split|]. rewrite cleared_nil. by destruct d. }
  assert (Hpass : ∀ hw before, before ≤ hw → ∃ ex, (∀ r, r ∈ ex → r ∈ t_inbox d) ∧
    st_ok (cstep (EvCleanup cutoff limit) (d, mkCursor hw before true false)) ∧
    (cstep (EvCleanup cutoff limit) (d, mkCursor hw before true false)).1 = set_inbox d (cleared cutoff d ex (t_inbox d))).
  { intros hw before Hb. destruct (cleanup_pass_spec cutoff limit hw before d Hd Hb) as (ex & rest & Hbel & _ & _ & _ & Hpass).
    assert (Hin : ∀ r, r ∈ ex → r ∈ t_inbox d ∧ ib_id r ≤ before) by (intros r Hr; rewrite <- in_below, Hbel by done; apply elem_of_app; by left).
    exists ex. split; [intros r Hr; by apply Hin|]. unfold cstep. cbn [fst snd]. rewrite Hpass. split; [|done]. split; [by apply ok_inbox_delete|].
    cbn. destruct (bool_decide _ || _) eqn:E; [by intros ?|]. intros _. cbn. apply orb_false_iff in E as [Hne%bool_decide_eq_false Hz%Z.leb_gt].
    destruct (last (ib_id <$> ex)) as [z|] eqn:El; cbn in *; [|lia]. apply last_Some in El as [l El].
    assert (Hz' : z ∈ ib_id <$> ex) by (rewrite El; apply elem_of_app; right; by left). apply list_elem_of_fmap in Hz' as (y & -> & Hy).
    destruct (Hin y Hy). lia. }
  destruct c as [hw before [] []]; [exact Hstay|by apply Hpass, Hc|exact Hstay|].
  destruct (Z.eq_dec (max_inbox_id d) 0) as [Hz|Hz].
  - unfold cstep, DeleteControlInboxBeforeLimit. cbn [fst snd cc_closed cc_initialized negb andb]. apply Z.eqb_eq in Hz. rewrite Hz. exact Hstay.
  - rewrite cleanup_first by done. by apply Hpass.
Qed.

Lemma cstep_ok e st : st_ok st → st_ok (cstep e st).
Proof.
  intros Hst. destruct e as [c|cutoff limit].
  - destruct Hst as [Hd Hc]. split; [|done]. apply (gd_ok _ _ (cexec_good c _ Hd)).
  - by destruct (cleanup_step_effect cutoff limit st Hst) as (ex & _ & H & _).
Qed.

Lemma crun_ok es : ∀ st, st_ok st → st_ok (crun es st).
Proof. induction es as [|e es IH]; intros st Hst; [done|]. cbn. by apply IH, cstep_ok. Qed.

Lemma crun_app es1 es2 st : crun (es1 ++ es2) st = crun es2 (crun es1 st).
Proof. unfold crun. apply foldl_app. Qed.

(** A property of every step is a property of every run. *)
Lemma crun_ind (R : cstate → cstate → Prop) :
  Reflexive R → Transitive R → (∀ e st, st_ok st → R st (cstep e st)) → ∀ es st, st_ok st → R st (crun es st).
Proof.
  intros Hr Ht Hs es. induction es as [|e es IH]; intros st Hst; [apply Hr|]. cbn. etrans; [by apply Hs|]. by apply IH, cstep_ok.
Qed.

Lemma outbox_view_tables d d' op ty : t_outbox d' = t_outbox d → outbox_view d' op ty = outbox_view d op ty.
Proof. intros H. unfold outbox_view, outbox_row. by rewrite H. Qed.

Lemma cstep_outbox e st op ty : st_ok st → rtc ofsm (outbox_view st.1 op ty) (outbox_view (cstep e st).1 op ty).
Proof.
  intros Hst. destruct e as [c|cutoff limit].
  - apply (gd_outbox _ _ (cexec_good c _ (proj1 Hst))).
  - destruct (cleanup_step_effect cutoff limit st Hst) as (ex & _ & _ & ->). rewrite (outbox_view_tables st.1 (set_inbox _ _)); done.
Qed.

(** Whatever commands and cleanup passes run, in any order and with any arguments,
    each control outbox row (operation, message type) is enqueued as PENDING, moves
    PENDING, CLAIMED, SENT, SEMANTIC_ACKED in that order, returns to PENDING only from
    CLAIMED or SENT, disappears only from SEMANTIC_ACKED (its receipt), and keeps its
    id, node, payload and correlation ids all that time. *)
Theorem control_outbox_refinement (es : list cevent) (st : cstate) (op ty : string) :
  st_ok st → rtc ofsm (outbox_view st.1 op ty) (outbox_view (crun es st).1 op ty).
Proof.
  intros Hst. apply (crun_ind (λ st st', rtc ofsm (outbox_view st.1 op ty) (outbox_view st'.1 op ty))).
  - intros x. reflexivity.
  - intros x y z Hxy Hyz. by etrans.
  - intros e s Hs. by apply cstep_outbox.
  - done.
Qed.

(** C26: every command and every cleanup pass keeps the control tables well formed:
    outbox rows unique per operation and message type, inbox rows unique per message,
    nodes unique, ids strictly increasing and within their sequences, every state one
    of its table's states (no RECEIPTED row is ever committed), and the cleanup cursor
    at or below its high-water mark. *)
Theorem control_tables_well_formed (es : list cevent) (st : cstate) : st_ok st → st_ok (crun es st).
Proof. apply crun_ok. Qed.

(** ** The inbox *)

(** A message keeps its authenticated material, its binding and its disposition. *)
Definition imonotone (v v' : material * string * string) : Prop :=
  let '(x, op, st) := v in let '(x', op', st') := v' in
  x' = x ∧ (op ≠ ""%string → op' = op) ∧ (terminal_state st = true → st' = st).

Lemma ifsm_some v w : rtc ifsm (Some v) w → ∃ v', w = Some v' ∧ imonotone v v'.
Proof.
  intros H. remember (Some v) as a eqn:Ea. revert v Ea. induction H as [|a b c Hab _ IH]; intros v ->.
  { exists v. split; [done|]. by destruct v as [[x op] s]. }
  inversion Hab; subst; destruct (IH _ eq_refl) as ([[x' op'] s'] & -> & Hm & Hop & Hs); (eexists; split; [done|]).
  - split; [done|]. split; [done|]. exact Hs.
  - split; [done|]. split; [done|]. by intros ?.
  - split; [done|]. split; [done|]. by intros ?.
Qed.

Definition is_command (e : cevent) : Prop := match e with EvCmd _ => True | EvCleanup _ _ => False end.

Lemma crun_commands_inbox es m : Forall is_command es → ∀ st, st_ok st → rtc ifsm (inbox_view st.1 m) (inbox_view (crun es st).1 m).
Proof.
  induction 1 as [|e es He _ IH]; intros st Hst; [reflexivity|]. destruct e as [c|]; [|done]. cbn. etrans; [|apply IH, (cstep_ok (EvCmd c)), Hst].
  apply (gd_inbox _ _ (cexec_good c _ (proj1 Hst))).
Qed.

Lemma inbox_view_row d m v : inbox_view d m = Some v → ∃ r, inbox_row d m = Some r ∧ v = iview r.
Proof. unfold inbox_view. destruct (inbox_row d m) as [r|]; [|done]. intros [= <-]. by exists r. Qed.

Lemma record_inbox_new now item d d1 : record_inbox now item d = Ok (false, d1) →
  inbox_view d1 (ii_MessageID item) = Some (mkMaterial (t_seq_inbox d + 1) (ii_NodeID item) (ii_MessageType item) (ii_SemanticPayload item),
    ii_OperationID item, ControlInboxReceived).
Proof.
  unfold record_inbox. intros H. sql_walk H. injection H as <-. unfold inbox_view, inbox_row. cbn. rewrite sql_row_app.
  match goal with E : sql_row _ _ = None |- _ => rewrite E end. unfold sql_row, ib_at. cbn. by rewrite String.eqb_refl.
Qed.

(** A message id enters the inbox once.  After it was recorded, and after any
    further commands, recording the id again never inserts: it changes nothing and
    answers duplicate exactly when node, type, payload and bound operation are the
    recorded ones, and a conflict otherwise. *)
Theorem inbox_recorded_once (es : list cevent) (st : cstate) (now now' : Z) (item item' : ControlInboxItem) (d1 : db) :
  st_ok st → RecordControlInbox now item st.1 = Ok (false, d1) → Forall is_command es → ii_MessageID item' = ii_MessageID item →
  let d2 := (crun es (d1, st.2)).1 in
  ∃ op, (ii_OperationID item ≠ ""%string → op = ii_OperationID item) ∧
  RecordControlInbox now' item' d2 =
    if String.eqb (ii_NodeID item) (ii_NodeID item') && String.eqb (ii_MessageType item) (ii_MessageType item')
       && String.eqb op (ii_OperationID item') && String.eqb (ii_SemanticPayload item) (ii_SemanticPayload item')
    then Ok (true, d2) else Err CsMessageConflict.
Proof.
  intros [Hd Hc] Hrec Hes Hid d2. assert (Hok1 : st_ok (d1, st.2)) by (split; [apply (gd_ok _ _ (resp_record _ _ _ _ _ Hd Hrec))|done]).
  pose proof (crun_commands_inbox es (ii_MessageID item) Hes _ Hok1) as Hv. cbn in Hv. rewrite (record_inbox_new _ _ _ _ Hrec) in Hv.
  apply ifsm_some in Hv as (v & Hv & Hm). fold d2 in Hv. apply inbox_view_row in Hv as (r & Hr & ->). unfold imonotone, iview, ib_material in Hm.
  destruct Hm as ([= Hi Hn Ht Hp] & Hop & _). exists (coalesce (ib_operation r)). split; [done|].
  unfold RecordControlInbox, record_inbox, sql_bind, sql_read. rewrite Hid. unfold inbox_row in Hr. rewrite Hr, Hn, Ht, Hp.
  by destruct (ii_NodeID item =? _)%string, (ii_MessageType item =? _)%string, (coalesce _ =? _)%string, (ii_SemanticPayload item =? _)%string.
Qed.

(** The row of a message after a cleanup pass. *)
Lemma cleanup_inbox_row cutoff limit st m r :
  st_ok st → inbox_row st.1 m = Some r →
  inbox_row (cstep (EvCleanup cutoff limit) st).1 m = Some r ∨
  (inbox_row (cstep (EvCleanup cutoff limit) st).1 m = None ∧ removable cutoff st.1 r = true).
Proof.
  intros Hst Hr. destruct (cleanup_step_effect cutoff limit st Hst) as (ex & Hex & _ & ->). pose proof (proj1 Hst) as Hd.
  unfold inbox_row in *. cbn. pose proof (sql_row_Some _ _ _ Hr) as [Hin Hat].
  destruct (existsb (λ x, ib_id x =? ib_id r) (List.filter (removable cutoff st.1) ex)) eqn:E.
  - right. split; [|by apply (proj1 (cleared_by cutoff st.1 ex r Hd Hex Hin)) in E as [_ ?]]. destruct (sql_row _ (cleared _ _ _ _)) as [x|] eqn:Ex; [|done]. exfalso.
    apply sql_row_Some in Ex as [[Hx Hk]%in_sql_delete Hax]. apply ib_at_key in Hat, Hax.
    assert (x = r) as -> by (apply (unique_inj ib_message (t_inbox st.1)); [apply Hd|done|done|congruence]). congruence.
  - left. apply (sql_row_unique ib_message); [apply unique_delete, Hd| |by apply in_sql_delete]. intros x. apply ib_at_key in Hat. by rewrite ib_at_key, Hat.
Qed.

(** An inbox message is kept, with its material, its binding and its disposition,
    over every run, unless some cleanup pass of the run removed it at a moment when it
    was terminal, older than the pass's cutoff and unprotected: not referenced by an
    outbox row, by an unfinished deletion or by a live probe. *)
Theorem inbox_removed_only_unprotected (es : list cevent) (st : cstate) (m : string) (r : InboxRow) :
  st_ok st → inbox_row st.1 m = Some r →
  (∃ r', inbox_row (crun es st).1 m = Some r' ∧ imonotone (iview r) (iview r')) ∨
  (∃ es1 cutoff limit es2 r1, es = es1 ++ EvCleanup cutoff limit :: es2 ∧ inbox_row (crun es1 st).1 m = Some r1 ∧
     imonotone (iview r) (iview r1) ∧ removable cutoff (crun es1 st).1 r1 = true).
Proof.
  revert st r. induction es as [|e es IH]; intros st r Hst Hr.
  { left. exists r. split; [done|]. by destruct (iview r) as [[x op] s]. }
  assert (Hnext : ∀ r1, inbox_row (cstep e st).1 m = Some r1 → imonotone (iview r) (iview r1) →
    (∃ r', inbox_row (crun (e :: es) st).1 m = Some r' ∧ imonotone (iview r) (iview r')) ∨
    (∃ es1 cutoff limit es2 r1, e :: es = es1 ++ EvCleanup cutoff limit :: es2 ∧ inbox_row (crun es1 st).1 m = Some r1 ∧
       imonotone (iview r) (iview r1) ∧ removable cutoff (crun es1 st).1 r1 = true)).
  { intros r1 Hr1 Hm. assert (Htr : ∀ v, imonotone (iview r1) v → imonotone (iview r) v).
    { unfold iview in *. intros [[x op] s] (-> & H1 & H2). destruct Hm as (Hm1 & Hm2 & Hm3). split; [done|].
      split; [intros Hne; rewrite H1; [auto|rewrite Hm2; done]|]. intros Ht. rewrite H2; [auto|]. by rewrite Hm3. }
    destruct (IH _ r1 (cstep_ok e st Hst) Hr1) as [(r' & ? & ?)|(es1 & cutoff & limit & es2 & r2 & -> & ? & ? & ?)].
    - left. exists r'. auto.
    - right. exists (e :: es1), cutoff, limit, es2, r2. auto. }
  destruct e as [c|cutoff limit].
  - pose proof (gd_inbox _ _ (cexec_good c _ (proj1 Hst)) m) as Hv. unfold inbox_view at 1 in Hv. rewrite Hr in Hv. cbn in Hv.
    apply ifsm_some in Hv as (v & Hv & Hm). apply inbox_view_row in Hv as (r1 & Hr1 & ->). by apply (Hnext r1).
  - destruct (cleanup_inbox_row cutoff limit st m r Hst Hr) as [Hk|[_ Hrm]].
    + apply (Hnext r Hk). by destruct (iview r) as [[x op] s].
    + right. exists [], cutoff, limit, es, r. split; [done|]. split; [done|]. split; [by destruct (iview r) as [[x op] s]|done].
Qed.

(** ** Cleanup *)

(** C25: with no command in between, at most one pass more than the inbox has rows
    completes a cleanup cycle: the cursor is reset, exactly the removable rows are
    gone, and every other row is untouched and in its place. *)
Theorem cleanup_cycle_exact (cutoff limit : Z) (d : db) :
  db_ok d → ∃ n, (1 ≤ n ≤ length (t_inbox d) + 1)%nat ∧
    cleanup_passes cutoff limit n (d, open_cursor) = (set_inbox d (sql_delete (removable cutoff d) (t_inbox d)), open_cursor).
Proof.
  intros Hd. destruct (Z.eq_dec (max_inbox_id d) 0) as [Hz|Hz].
  - exists 1%nat. split; [lia|]. assert (Hnil : t_inbox d = []).
    { pose proof (proj2 (ok_inbox_ids d Hd)) as Hp. destruct (t_inbox d) as [|r t] eqn:E; [done|]. apply list.Forall_cons in Hp as [Hp _].
      assert (Hge : ib_id r ≤ max_inbox_id d) by (apply max_inbox_id_ge; rewrite E; by left). lia. }
    unfold cleanup_passes. change (Nat.iter 1 ?f ?x) with (f x). unfold cstep, DeleteControlInboxBeforeLimit.
    cbn [fst snd open_cursor cc_closed cc_initialized negb andb]. apply Z.eqb_eq in Hz. rewrite Hz, Hnil. destruct d. cbn in Hnil |- *. by rewrite Hnil.
  - destruct (cleanup_cycle_from cutoff limit (length (below (max_inbox_id d) d)) d (max_inbox_id d) (max_inbox_id d)) as (n & Hn & Hrun);
      [done|lia| |lia|].
    + intros r Hr Hlt. pose proof (max_inbox_id_ge d r Hr). lia.
    + assert (Hlen : (length (below (max_inbox_id d) d) ≤ length (t_inbox d))%nat).
      { unfold below. rewrite length_rev. apply filter_length_le. }
      exists n. split; [lia|]. destruct n as [|n]; [lia|]. unfold cleanup_passes in *. rewrite Nat.iter_succ_r in *. rewrite <- Hrun. f_equal.
      by apply cleanup_first.
Qed.

(** One cleanup pass, from any cursor of a cycle, examines at most 4096 rows and
    removes at most the requested number (256 by default, 1024 at most); what it
    removes are exactly the removable rows among those it examined. *)
Theorem cleanup_pass_bounded (cutoff limit hw before : Z) (d : db) :
  db_ok d → before ≤ hw →
  ∃ (ex : list InboxRow) (removed : nat) c',
    (zlen ex ≤ 4096) ∧ (Z.of_nat removed ≤ 1024) ∧ (0 < limit → Z.of_nat removed ≤ limit) ∧
    removed = length (List.filter (removable cutoff d) ex) ∧
    DeleteControlInboxBeforeLimit cutoff limit (mkCursor hw before true false) d
    = (Some removed, c', set_inbox d (cleared cutoff d ex (t_inbox d))).
Proof.
  intros Hd Hhw. destruct (cleanup_pass_spec cutoff limit hw before d Hd Hhw) as (ex & rest & _ & _ & Hsc & Hlim & Hpass).
  pose proof (cleanup_limit_pos limit). pose proof (scan_limit_pos limit). unfold maxControlInboxCleanupBatch, maxControlInboxCleanupScan in *.
  exists ex, (length (List.filter (removable cutoff d) ex)). eexists. split; [unfold zlen; lia|]. split; [lia|]. split; [|by split].
  intros Hp. unfold cleanup_limit, probeCleanupLimit in *. destruct (Z.leb_spec limit 0); lia.
Qed.
End Runs.
