(* ===== verification/ControlOwners.v ===== *)
(** * Connection owners

    An operation of the control store that takes a [ControlOwner] changes the rows of a
    node only while that owner is the node's current one; acquiring a node supersedes
    every earlier owner for good. *)

From Stdlib Require Import ZArith Lia Strings.Byte Sorted.
From stdpp Require Import base tactics list sets strings option relations.
From S2P Require Import Prelude GoStd Frame Probe Sql Control ControlProofs ControlCleanup ControlProps.

Open Scope Z_scope.

(** The rows of one node. *)
Definition node_view (n : string) (d : db) : list OutboxRow * list InboxRow * list NodeRow * list TerminalRow :=
  (List.filter (λ r, String.eqb (ob_node r) n) (t_outbox d), List.filter (λ r, String.eqb (ib_node r) n) (t_inbox d),
   List.filter (λ r, String.eqb (nd_id r) n) (t_nodes d), List.filter (λ r, String.eqb (tm_node r) n) (t_terminals d)).

Lemma owned_filter n e s d :
  node_owned n e s d = existsb (λ x, (nd_epoch x =? e) && sql_eq (nd_session x) s) (List.filter (λ r, String.eqb (nd_id r) n) (t_nodes d)).
Proof.
  unfold node_owned, sql_exists. induction (t_nodes d) as [|x t IH]; [done|]. cbn. rewrite IH. destruct (String.eqb (nd_id x) n); [|done]. cbn. done.
Qed.

Lemma owns_view o n d d' : node_view n d' = node_view n d → owns o n d' = owns o n d.
Proof. intros [= _ _ H _]. unfold owns. by rewrite !owned_filter, H. Qed.

(** [keeps o m]: the transaction [m] does not touch the rows of a node that [o] does
    not own. *)
Definition keeps {A} (o : ControlOwner) (m : ct A) : Prop :=
  ∀ d a d' n, owns o n d = false → m d = Ok (a, d') → node_view n d' = node_view n d.
Definition keeps_at {A} (o : ControlOwner) (d : db) (m : ct A) : Prop :=
  ∀ a d' n, owns o n d = false → m d = Ok (a, d') → node_view n d' = node_view n d.

Section Keeps.
Context (o : ControlOwner).

Lemma keeps_ret {A} (a : A) : keeps o (sql_ret a).
Proof. by intros d b d' n _ [= <- <-]. Qed.
Lemma keeps_fail {A} e : keeps (A := A) o (sql_fail e).
Proof. by intros d b d' n _. Qed.
Lemma keeps_bind {A C} (m : ct A) (k : A → ct C) : keeps o m → (∀ a, keeps o (k a)) → keeps o (sql_bind m k).
Proof.
  intros Hm Hk d c d' n Ho (a & d1 & H1 & H2)%sql_bind_Ok. pose proof (Hm _ _ _ _ Ho H1) as V. rewrite <- V. eapply Hk; [|exact H2].
  by rewrite (owns_view _ _ _ _ V).
Qed.
Lemma okeeps_fenced {A} o' (m : ct A) : keeps o m → keeps o (fenced o' m).
Proof. intros H. unfold fenced. destruct (validateOwner o'); [|apply keeps_fail]. destruct (_ <=? _); [apply keeps_fail|done]. Qed.
Lemma keeps_at_all {A} (m : ct A) : (∀ d, keeps_at o d m) → keeps o m.
Proof. intros H d a d' n. exact (H d a d' n). Qed.
Lemma keeps_here {A} d (m : ct A) : keeps o m → keeps_at o d m.
Proof. intros H a d' n. exact (H d a d' n). Qed.
Lemma keeps_at_read {A C} (f : db → A) (k : A → ct C) d : keeps_at o d (k (f d)) → keeps_at o d (sql_bind (sql_read f) k).
Proof. intros H a d' n. exact (H a d' n). Qed.
Lemma keeps_at_write {C} (f : db → db) (k : unit → ct C) d :
  (∀ n, owns o n d = false → node_view n (f d) = node_view n d) → keeps o (k tt) → keeps_at o d (sql_bind (sql_write f) k).
Proof. intros H Hk a d' n Ho E. rewrite <- (H n Ho). eapply Hk; [|exact E]. by rewrite (owns_view _ _ _ _ (H n Ho)). Qed.

Lemma view_outbox d w f :
  (∀ r, ob_node (f r) = ob_node r) → (∀ r, w r = true → owns o (ob_node r) d = true) →
  ∀ n, owns o n d = false → node_view n (set_outbox d (sql_update w f (t_outbox d))) = node_view n d.
Proof.
  intros Hf Hw n Ho. unfold node_view. cbn. rewrite sql_filter_update; [done|]. intros r _ Hr. rewrite Hf.
  destruct (String.eqb_spec (ob_node r) n) as [He|]; [|done]. specialize (Hw r Hr). congruence.
Qed.
Lemma view_outbox_delete d w :
  (∀ r, r ∈ t_outbox d → w r = true → owns o (ob_node r) d = true) →
  ∀ n, owns o n d = false → node_view n (set_outbox d (sql_delete w (t_outbox d))) = node_view n d.
Proof.
  intros Hw n Ho. unfold node_view. cbn. rewrite sql_filter_delete; [done|]. intros r Hin Hr.
  destruct (String.eqb_spec (ob_node r) n) as [He|]; [|done]. specialize (Hw r Hin Hr). congruence.
Qed.
Lemma view_inbox d w f :
  (∀ r, ib_node (f r) = ib_node r) → (∀ r, w r = true → owns o (ib_node r) d = true) →
  ∀ n, owns o n d = false → node_view n (set_inbox d (sql_update w f (t_inbox d))) = node_view n d.
Proof.
  intros Hf Hw n Ho. unfold node_view. cbn. rewrite sql_filter_update; [done|]. intros r _ Hr. rewrite Hf.
  destruct (String.eqb_spec (ib_node r) n) as [He|]; [|done]. specialize (Hw r Hr). congruence.
Qed.
End Keeps.

Ltac keep :=
  repeat first
  [ done
  | apply keeps_ret | apply keeps_fail | apply okeeps_fenced
  | match goal with
    | |- keeps _ (if ?b then _ else _) => destruct b eqn:?
    | |- keeps _ (match ?o with _ => _ end) => destruct o eqn:?
    | |- keeps _ (sql_bind (sql_read _) _) => apply keeps_at_all; intros ?d; apply keeps_at_read
    | |- keeps _ (sql_bind (sql_write _) _) => apply keeps_at_all; intros ?d
    | |- keeps _ (sql_bind _ _) => apply keeps_bind; [|intros ?a]
    | |- keeps_at _ _ (sql_bind (sql_read _) _) => apply keeps_at_read; cbv beta
    | |- keeps_at _ _ (sql_bind (sql_write _) _) => apply keeps_at_write; [cbv beta|]
    | |- keeps_at _ _ (if ?b then _ else _) => destruct b eqn:?
    | |- keeps_at _ _ (match ?o with _ => _ end) => destruct o eqn:?
    | |- keeps_at _ _ _ => apply keeps_here
    end
  | progress cbv zeta ].

(** A statement whose condition names the owner of each row it changes. *)
Ltac owned_case :=
  first [apply view_outbox | apply view_inbox]; [done|]; intros ?r ?Hw; unfold owned_by in *; bool_split; done.

Lemma keeps_claim clock now n o l : keeps o (claimControlOutbox clock now n o l true).
Proof.
  unfold claimControlOutbox. cbv zeta. keep. generalize (ob_id <$> take (Z.to_nat (if l <=? 0 then 100 else l))
    (sql_select (λ r, (ob_node r =? n)%string && (ob_state r =? "PENDING")%string && (ob_retry r <=? clock) && (negb true || owns o (ob_node r) d)) (t_outbox d))).
  intros ids. induction ids as [|id ids IH]; cbn [sql_iter]; [apply keeps_ret|]. apply keeps_bind; [|done]. unfold claim_row. keep. owned_case.
Qed.
Lemma keeps_transition now op ty o want next : keeps o (outboxTransitionOwned now op ty o want next).
Proof. unfold outboxTransitionOwned. keep. owned_case. Qed.
Lemma keeps_requeue now o : keeps o (RequeueControlOutboxForOwner now o).
Proof. unfold RequeueControlOutboxForOwner. keep. owned_case. Qed.
Lemma keeps_requeue_item now op ty o : keeps o (RequeueControlOutboxItemOwned now op ty o).
Proof. unfold RequeueControlOutboxItemOwned. keep; owned_case. Qed.
Lemma keeps_rebind now op ty o : keeps o (RebindControlOutboxSessionOwned now op ty o).
Proof. unfold RebindControlOutboxSessionOwned. keep; owned_case. Qed.
Lemma keeps_claim_op now op ty o : keeps o (ClaimControlOutboxOperationOwned now op ty o).
Proof. unfold ClaimControlOutboxOperationOwned. keep. owned_case. Qed.
Lemma keeps_bind_op now o m op : keeps o (BindControlInboxOperationIDOwned now o m op).
Proof. unfold BindControlInboxOperationIDOwned. keep; owned_case. Qed.
Lemma keeps_set now o m st : keeps o (setControlInboxStateOwned now o m st).
Proof. unfold setControlInboxStateOwned. unfold withControlOwnerImmediate. keep; owned_case. Qed.
Lemma keeps_mark now m op o : keeps o (markReceiptInbox now m op (Some o)).
Proof. unfold markReceiptInbox. keep; owned_case. Qed.

Lemma okeeps_record now o item :
  keeps o (RecordControlInboxOwned now o item).
Proof.
  intros d a d' n Ho. unfold RecordControlInboxOwned, withControlOwnerImmediate, fenced. intros H. sql_walk H.
  apply negb_false_iff, String.eqb_eq in E0. apply negb_false_iff in E2. unfold record_inbox in H. sql_walk H; [done|]. unfold node_view. cbn.
  rewrite List.filter_app. cbn. rewrite E0. destruct (String.eqb_spec (ow_NodeID o) n) as [He|]; [|by rewrite app_nil_r]. congruence.
Qed.

Lemma keeps_state now o st : keeps o (SetNodeControlStateOwned now o st).
Proof.
  unfold SetNodeControlStateOwned. keep. intros n Ho. unfold node_view. cbn. rewrite (sql_filter_update (λ r, (nd_id r =? n)%string)); [done|].
  intros r Hin Hr. cbn. destruct (String.eqb_spec (nd_id r) n) as [He|]; [|done]. exfalso. apply not_true_iff_false in Ho. apply Ho.
  apply sql_exists_true. exists r. split; [done|]. bool_split. str_eqs. rewrite <- He, String.eqb_refl. cbn. by apply andb_true_iff.
Qed.

Lemma keeps_deliver now op ty o node d a d' n :
  owns o node d = true → owns o n d = false → deliver_outcome now op ty node (Some o) d = Ok (a, d') → node_view n d' = node_view n d.
Proof.
  intros Hown Ho. unfold deliver_outcome. intros H. sql_walk H. unfold node_view. cbn.
  match goal with |- context [if ?b then set_results d _ else d] => set (d1 := if b then set_results d _ else d);
    assert (Hd1 : (t_outbox d1, t_inbox d1, t_nodes d1, t_terminals d1) = (t_outbox d, t_inbox d, t_nodes d, t_terminals d)) by (unfold d1; by destruct b) end.
  injection Hd1 as -> -> -> ->. rewrite sql_filter_update; [done|]. intros t _ Hw. cbn. bool_split. str_eqs.
  destruct (String.eqb_spec (tm_node t) n); [congruence|done].
Qed.

Lemma mark_nodes now m op o d a d' : markReceiptInbox now m op o d = Ok (a, d') → t_nodes d' = t_nodes d.
Proof. unfold markReceiptInbox. intros H. sql_walk H; done. Qed.

Lemma owns_nodes o n d d' : t_nodes d' = t_nodes d → owns o n d' = owns o n d.
Proof. intros H. unfold owns, node_owned. by rewrite H. Qed.

Lemma keeps_accept now m iop ip op ty s o : keeps o (acceptControlReceipt now m iop ip op ty s (Some o)).
Proof.
  intros d a d' n Ho H. unfold acceptControlReceipt in H. sql_walk H; [by eapply keeps_mark|].
  match goal with Hm : markReceiptInbox _ _ _ _ d = Ok (_, ?d1) |- _ =>
    pose proof (keeps_mark _ _ _ _ _ _ _ _ Ho Hm) as V1; pose proof (mark_nodes _ _ _ _ _ _ _ Hm) as N1; set (dm := d1) in * end.
  assert (Ho1 : owns o n dm = false) by by rewrite (owns_view _ _ _ _ V1).
  assert (Hrow : owns o (ob_node o0) dm = true).
  { rewrite (owns_nodes _ _ _ _ N1). apply sql_row_Some in E as [_ E]. unfold owned_by in E. bool_split. done. }
  match goal with Hm : (if ?c then _ else _) (set_outbox dm ?t) = Ok (_, ?d2) |- _ =>
    assert (V2 : node_view n (set_outbox dm t) = node_view n dm);
    [|assert (V3 : node_view n d2 = node_view n (set_outbox dm t) ∧ t_nodes d2 = t_nodes dm)] end.
  - apply (view_outbox o); [done| |done]. intros r Hw. unfold owned_by in *. bool_split. done.
  - match goal with Hm : (if ?c then _ else _) _ = Ok _ |- _ => destruct c; [|by injection Hm as _ <-] ;
      split; [by eapply (keeps_deliver _ _ _ o (ob_node o0)); [exact Hrow|exact Ho1|exact Hm]|]; apply deliver_tables in Hm; injection Hm as _ _ -> _ _; done end.
  - destruct V3 as [V3 N3]. rewrite <- V1, <- V2, <- V3. apply (view_outbox_delete o); [|by rewrite (owns_nodes _ _ dm)].
    intros r _ Hw. rewrite (owns_nodes _ _ dm) by done. unfold owned_by in *. bool_split. done.
Qed.

(** ** Commands of an owner *)

Definition cmd_owner (c : ccmd) : option ControlOwner :=
  match c with
  | KNodeStateOwned _ o _ | KClaimOwned _ _ o _ | KClaimOpOwned _ _ _ o | KSentOwned _ _ _ o | KAckOwned _ _ _ o | KReceiptOwned _ o _ _
  | KReceiptInboxOwned _ o _ _ _ | KReceiptExactOwned _ o _ | KRequeueOwned _ o | KRequeueItemOwned _ _ _ o | KRebindOwned _ _ _ o
  | KRecordOwned _ o _ | KBindOwned _ o _ _ | KInboxOwned _ o _ _ | KRejectOwned _ o _ => Some o
  | _ => None
  end.

#[export] Hint Resolve keeps_claim keeps_transition keeps_requeue keeps_requeue_item keeps_rebind keeps_claim_op keeps_bind_op keeps_set okeeps_record
  keeps_state keeps_accept keeps_ret keeps_fail : control.

Section Owned.
Context {crypto : Crypto}.

Lemma owned_command_keeps c o : cmd_owner c = Some o → keeps o (cbody c).
Proof.
  destruct c; try discriminate; intros [= <-]; cbn [cbody]; unfold drop_result; try (apply keeps_bind; [|intros; apply keeps_ret]).
  all: unfold ClaimControlOutboxOwned, MarkControlOutboxSentOwned, AcceptControlSemanticACKOwned, AcceptControlReceiptOwned,
    AcceptControlReceiptWithInboxOwned, AcceptControlReceiptOwnedInbox, RejectControlInboxOwned, SetControlInboxStateOwned; eauto with control.
  all: repeat first
    [ progress eauto with control
    | match goal with
      | |- keeps _ (match validateOwner ?o with _ => _ end) => destruct (validateOwner o)
      | |- keeps _ (if ?b then _ else _) => destruct b
      end
    | apply okeeps_fenced ].
Qed.

Lemma owned_exec_keeps c o d n : cmd_owner c = Some o → owns o n d = false → node_view n (cexec c d).2 = node_view n d.
Proof.
  intros Hc Ho. unfold cexec, commit_tx. destruct (cbody c d) as [[a d']|e] eqn:E; cbn; [|done]. by eapply owned_command_keeps.
Qed.

(** Node epochs never decrease. *)
Lemma crun_nodes es st n : st_ok st → node_le (node_row st.1 n) (node_row (crun es st).1 n).
Proof.
  apply (crun_ind (λ st st', node_le (node_row st.1 n) (node_row st'.1 n))).
  - intros x. apply node_le_refl.
  - intros x y z. apply node_le_trans.
  - intros [c|cutoff limit] s Hs; [apply (gd_nodes _ _ (cexec_good c _ (proj1 Hs)))|].
    destruct (cleanup_step_effect cutoff limit s Hs) as (ex & _ & _ & ->). apply node_le_refl.
Qed.

Lemma owns_current o n d row : db_ok d → node_row d n = Some row → nd_epoch row ≠ ow_ConnectionEpoch o → owns o n d = false.
Proof.
  intros Hd Hrow Hne. apply not_true_iff_false. intros (x & Hx & Hw)%sql_exists_true. bool_split. str_eqs.
  apply sql_row_Some in Hrow as [Hr Hid]. apply String.eqb_eq in Hid. assert (x = row) as -> by (apply (unique_inj nd_id (t_nodes d)); [apply Hd|done|done|congruence]).
  match goal with He : (_ =? _) = true |- _ => apply Z.eqb_eq in He end. done.
Qed.

Lemma acquire_row now n e s d o d1 :
  db_ok d → AcquireControlOwner now n e s d = Ok (o, d1) → o = mkOwner n (e + 1) s ∧ ∃ row, node_row d1 n = Some row ∧ nd_epoch row = e + 1 ∧ nd_session row = Some s.
Proof.
  intros Hd. unfold AcquireControlOwner. intros H. sql_walk H. split; [done|]. unfold node_row. cbn. rewrite sql_row_update by done.
  match goal with E : negb (sql_count _ _ =? 1)%nat = false |- _ => apply negb_false_iff, Nat.eqb_eq in E; destruct (sql_count_pos _ _ ltac:(rewrite E; done)) as (r & Hr & Hw) end.
  pose proof Hw as [Hid%String.eqb_eq He%Z.eqb_eq]%andb_true_iff. exists (grant s now r). rewrite (sql_row_unique nd_id _ _ r); [|apply Hd| |done].
  - cbn. rewrite Hw. split; [done|]. cbn. by rewrite He.
  - intros x. cbn. rewrite String.eqb_eq. by rewrite Hid.
Qed.

(** C13: acquiring a node supersedes every earlier connection owner for good.  Once
    [AcquireControlOwner] succeeded on a node at epoch [e], the new owner holds epoch
    [e + 1], and after any further commands and cleanup passes no operation on behalf
    of an owner of epoch [e] or less changes a row of that node: not its outbox, its
    inbox, its connection state or its probe terminals. *)
Theorem superseded_owner_is_fenced (es : list cevent) (st : cstate) (now e : Z) (n s : string) (o o' : ControlOwner) (d1 : db) (c : ccmd) :
  st_ok st → AcquireControlOwner now n e s st.1 = Ok (o', d1) → ow_ConnectionEpoch o ≤ e → cmd_owner c = Some o →
  let d2 := (crun es (d1, st.2)).1 in o' = mkOwner n (e + 1) s ∧ node_view n (cexec c d2).2 = node_view n d2.
Proof.
  intros [Hd Hc] Hacq He Hcmd d2. destruct (acquire_row _ _ _ _ _ _ _ Hd Hacq) as (-> & row & Hrow & Hep & _). split; [done|].
  assert (Hok1 : st_ok (d1, st.2)) by (split; [apply (gd_ok _ _ (resp_acquire _ _ _ _ _ _ _ Hd Hacq))|done]).
  pose proof (crun_nodes es _ n Hok1) as Hle. fold d2 in Hle. cbn in Hle. rewrite Hrow in Hle. destruct (node_row d2 n) as [row2|] eqn:E2; [|done].
  apply (owned_exec_keeps c o); [done|]. apply (owns_current _ _ _ row2); [apply (crun_ok es _ Hok1)|done|cbn in Hle; lia].
Qed.
End Owned.

(** ** The life of a command *)

Section Delivery.
Context {crypto : Crypto}.

(** Commands that all succeed, in order. *)
Fixpoint cexec_all (cs : list ccmd) (d : db) : option db :=
  match cs with
  | [] => Some d
  | c :: cs' => match cexec c d with (Ok _, d') => cexec_all cs' d' | (Err _, _) => None end
  end.

(** The only row of a fresh key is the one appended. *)
Lemma update_fresh {R} (w : R → bool) f t r : (∀ x, x ∈ t → w x = false) → w r = true → sql_update w f (t ++ [r]) = t ++ [f r].
Proof.
  intros Ht Hr. unfold sql_update. rewrite map_app. cbn. rewrite Hr. f_equal. rewrite <- (List.map_id t) at 2. apply map_ext_in.
  intros x Hx%list_elem_of_In. by rewrite Ht.
Qed.
Lemma count_fresh {R} (w : R → bool) t r : (∀ x, x ∈ t → w x = false) → w r = true → sql_count w (t ++ [r]) = 1%nat.
Proof. intros Ht Hr. pose proof (proj2 (sql_count_0 w t) Ht) as H. unfold sql_count in *. rewrite List.filter_app, length_app, H. cbn. by rewrite Hr. Qed.
Lemma delete_fresh {R} (w : R → bool) t r : (∀ x, x ∈ t → w x = false) → w r = true → sql_delete w (t ++ [r]) = t.
Proof.
  intros Ht Hr. unfold sql_delete. rewrite List.filter_app. cbn. rewrite Hr, app_nil_r. induction t as [|x t IH]; [done|]. cbn.
  rewrite (Ht x) by by left. cbn. rewrite IH; [done|]. intros y Hy. apply Ht. by right.
Qed.
Lemma row_fresh {R} (w : R → bool) t r : (∀ x, x ∈ t → w x = false) → w r = true → sql_row w (t ++ [r]) = Some r.
Proof.
  intros Ht Hr. rewrite sql_row_app. destruct (sql_row w t) as [x|] eqn:E; [|unfold sql_row; cbn; by rewrite Hr].
  apply sql_row_Some in E as [Hx Hw]. rewrite (Ht x Hx) in Hw. done.
Qed.

Context (o : ControlOwner) (op ty : string) (t : list OutboxRow).
Hypothesis Hvalid : validateOwner o = Ok tt.
Hypothesis Hepoch : ow_ConnectionEpoch o < 2 ^ 63.
Hypothesis Hfresh : ∀ x, x ∈ t → ob_at op ty x = false.

Lemma fenced_valid {A} (m : ct A) : fenced o m = m.
Proof. unfold fenced. rewrite Hvalid. assert (E : (2 ^ 63 <=? ow_ConnectionEpoch o) = false) by (apply Z.leb_gt; lia). by rewrite E. Qed.

Lemma claim_delivers now d r :
  t_outbox d = t ++ [r] → ob_at op ty r = true → ob_state r = "PENDING"%string → owns o (ob_node r) d = true →
  cexec (KClaimOpOwned now op ty o) d = (Ok tt, set_outbox d (t ++ [ob_bind "CLAIMED" (ow_SessionID o) now r])).
Proof.
  intros Ht Hr Hs Ho. unfold cexec, commit_tx. cbn [cbody]. unfold ClaimControlOutboxOperationOwned. rewrite fenced_valid.
  unfold sql_bind, sql_read, sql_write. cbv zeta. rewrite Ht.
  rewrite count_fresh, update_fresh; [done|..]; try (intros x Hx; by rewrite Hfresh). all: by rewrite Hr, Hs, Ho.
Qed.

Lemma transition_delivers now d r want next :
  t_outbox d = t ++ [r] → ob_at op ty r = true → ob_state r = want → ob_session r = Some (ow_SessionID o) → owns o (ob_node r) d = true →
  outboxTransitionOwned now op ty o want next d = Ok (tt, set_outbox d (t ++ [ob_advance next now r])).
Proof.
  intros Ht Hr Hs Hse Ho. unfold outboxTransitionOwned. rewrite fenced_valid. unfold sql_bind, sql_read, sql_write. cbv zeta. rewrite Ht.
  rewrite count_fresh, update_fresh; [done|..]; try (intros x Hx; by rewrite Hfresh). all: by rewrite Hr, Hs, Hse, Ho, String.eqb_refl; cbn; rewrite String.eqb_refl.
Qed.

(** The receipt of a command that is not a probe outcome and has no pending deletion. *)
Lemma receipt_delivers now d r :
  t_outbox d = t ++ [r] → ob_at op ty r = true → ob_state r = "SEMANTIC_ACKED"%string → ob_session r = Some (ow_SessionID o) →
  ob_node r = ow_NodeID o → owns o (ow_NodeID o) d = true → ty ≠ "probe_outcome"%string → awaits_second_result op ty (ob_node r) r d = Ok false →
  acceptControlReceipt now "" "" "" op ty (ow_SessionID o) (Some o) d = Ok (tt, set_outbox d t).
Proof.
  intros Ht Hr Hs Hse Hn Ho Hty Haw. unfold acceptControlReceipt, sql_bind, sql_read, sql_write. rewrite Ht.
  assert (Hob : owned_by (Some o) (ob_node r) d = true) by (unfold owned_by; rewrite Hn, String.eqb_refl; done).
  rewrite (row_fresh _ _ r); [|intros x Hx; by rewrite Hfresh|by rewrite Hr, Hob]. rewrite Hse, String.eqb_refl, Hs, String.eqb_refl, Haw. cbn [negb].
  unfold markReceiptInbox. rewrite String.eqb_refl. apply String.eqb_neq in Hty. rewrite Hty. cbv zeta. unfold sql_ret at 1. cbv beta iota.
  assert (Hnew : ob_at op ty (ob_advance "RECEIPTED" now r) = true) by done.
  rewrite Ht, count_fresh, update_fresh; try (intros x Hx; by rewrite Hfresh); try (rewrite Hr, Hs, Hse, Hob; cbn [sql_eq]; by rewrite !String.eqb_refl).
  cbn [negb Nat.eqb sql_ret set_outbox t_outbox]. rewrite count_fresh, delete_fresh; try (intros x Hx; by rewrite Hfresh).
  - done.
  - cbn [ob_state ob_session ob_node ob_advance]. rewrite Hnew, Hse, Hob. cbn [sql_eq]. by rewrite !String.eqb_refl.
  - cbn [ob_state ob_session ob_node ob_advance]. rewrite Hnew, Hse, Hob. cbn [sql_eq]. by rewrite !String.eqb_refl.
Qed.
End Delivery.

Section Completes.
Context {crypto : Crypto}.

(** C28: the life of a control message completes.  For the current owner of a node,
    an admissible message under a fresh key (not a probe outcome, not part of a
    deletion) is enqueued, claimed, marked sent, acknowledged and receipted, every
    step succeeding, and leaves the outbox as it was before. *)
Theorem control_delivery_completes (now : Z) (o : ControlOwner) (item : ControlOutboxItem) (d : db) :
  validateOwner o = Ok tt → ow_ConnectionEpoch o < 2 ^ 63 → ci_NodeID item = ow_NodeID o → owns o (ow_NodeID o) d = true →
  EnforceCleanupOnlyEnqueue d (ci_NodeID item) (ci_MessageType item) = Ok tt →
  sql_exists (ob_at (ci_OperationID item) (ci_MessageType item)) (t_outbox d) = false →
  ci_MessageType item ≠ "probe_outcome"%string → sql_count (λ x, String.eqb (dl_id x) (ci_OperationID item)) (t_deletions d) = 0%nat →
  let op := ci_OperationID item in let ty := ci_MessageType item in
  ∃ d', cexec_all [KEnqueue now item; KClaimOpOwned now op ty o; KSentOwned now op ty o; KAckOwned now op ty o; KReceiptOwned now o op ty] d = Some d' ∧
    t_outbox d' = t_outbox d ∧ t_inbox d' = t_inbox d ∧ t_nodes d' = t_nodes d.
Proof.
  intros Hv He Hn Ho Henq Hno Hty Hdel op ty.
  assert (Hfresh : ∀ x, x ∈ t_outbox d → ob_at op ty x = false).
  { intros x Hx. apply not_true_iff_false. intros Hx'. apply not_true_iff_false in Hno. apply Hno, sql_exists_true. by exists x. }
  set (row := mkOutbox (t_seq_outbox d + 1) op ty (ci_NodeID item) (ci_SemanticPayload item) "PENDING" None 0
    (Some (deterministicMessageID op ty)) (Some (deterministicMessageID (deterministicMessageID op ty) "operation_complete"))
    (Some (deterministicMessageID op "operation_complete")) now).
  assert (Hat : ob_at op ty row = true) by (unfold ob_at, row; cbn; by rewrite !String.eqb_refl).
  assert (E1 : cexec (KEnqueue now item) d = (Ok tt, insert_outbox d row)).
  { unfold cexec, commit_tx. cbn [cbody]. unfold EnqueueControlOutbox. rewrite Henq, Hno. reflexivity. }
  cbn [cexec_all]. rewrite E1. set (d1 := insert_outbox d row).
  assert (Hown : ∀ t, owns o (ci_NodeID item) (set_outbox d1 t) = true) by (intros; rewrite Hn; exact Ho).
  rewrite (claim_delivers o op ty (t_outbox d) Hv He Hfresh now d1 row eq_refl Hat eq_refl (Hown (t_outbox d1))).
  set (r1 := ob_bind "CLAIMED" (ow_SessionID o) now row). set (r2 := ob_advance "SENT" now r1). set (r3 := ob_advance "SEMANTIC_ACKED" now r2).
  unfold cexec at 1. unfold commit_tx. cbn [cbody]. unfold MarkControlOutboxSentOwned.
  rewrite (transition_delivers o op ty (t_outbox d) Hv He Hfresh now (set_outbox d1 (t_outbox d ++ [r1])) r1 "CLAIMED" "SENT" eq_refl Hat eq_refl eq_refl (Hown _)).
  change (set_outbox (set_outbox d1 ?x) _) with (set_outbox d1 (t_outbox d ++ [r2])).
  unfold cexec at 1. unfold commit_tx. cbn [cbody]. unfold AcceptControlSemanticACKOwned.
  rewrite (transition_delivers o op ty (t_outbox d) Hv He Hfresh now (set_outbox d1 (t_outbox d ++ [r2])) r2 "SENT" "SEMANTIC_ACKED" eq_refl Hat eq_refl eq_refl (Hown _)).
  change (set_outbox (set_outbox d1 ?x) _) with (set_outbox d1 (t_outbox d ++ [r3])).
  unfold cexec, commit_tx. cbn [cbody]. unfold AcceptControlReceiptOwned. rewrite (fenced_valid o Hv He).
  rewrite (receipt_delivers o op ty (t_outbox d) Hfresh now (set_outbox d1 (t_outbox d ++ [r3])) r3 eq_refl Hat eq_refl eq_refl Hn Ho Hty).
  - eexists. split; [done|]. done.
  - unfold awaits_second_result. cbn [t_deletions set_outbox insert_outbox d1]. unfold op. rewrite Hdel. by rewrite andb_false_r.
Qed.
End Completes.
