(* ===== verification/ControlWitness.v ===== *)
(** * Concrete executions of the control store

    The theorems of ControlProps.v and ControlOwners.v at concrete databases. *)

From Stdlib Require Import ZArith Lia Strings.Byte Sorted.
From stdpp Require Import base tactics list sets strings option relations.
From S2P Require Import Prelude GoStd Frame Probe Sql Control ControlProofs ControlCleanup ControlProps ControlOwners.

Open Scope Z_scope.

#[local] Existing Instance toy_crypto.

Definition wnode : NodeRow := mkNode "n1" "node one" 0 None "" 1 false "" 0 0 0.
Definition wowner : ControlOwner := mkOwner "n1" 1 "s1".
Definition witem : ControlOutboxItem := mkItem "op1" "probe_arm" "n1" "payload" "" 0.
Definition wmessage : ControlInboxItem := mkInboxItem "m1" "n1" "operation_complete" "op1" "done" "".

(** A node that connected, with one message on its way. *)
Definition wboot : list cevent :=
  [EvCmd (KCreateNode true 1 wnode); EvCmd (KAcquire 2 "n1" 0 "s1"); EvCmd (KEnqueue 3 witem);
   EvCmd (KClaimOwned 4 4 wowner 10); EvCmd (KSentOwned 5 "op1" "probe_arm" wowner)].
Definition wstart : cstate := (empty_db, open_cursor).
Definition wdb : db := Eval vm_compute in (crun wboot wstart).1.

Lemma wstart_ok : st_ok wstart.
Proof. split; [apply empty_db_ok|by intros ?]. Qed.
Lemma wdb_ok : db_ok wdb.
Proof. change wdb with (crun wboot wstart).1. apply crun_ok, wstart_ok. Qed.

Lemma control_outbox_refinement_witness :
  (∃ p, outbox_view (crun wboot wstart).1 "op1" "probe_arm" = Some ("SENT"%string, p)) ∧
  rtc ofsm (outbox_view wstart.1 "op1" "probe_arm") (outbox_view (crun wboot wstart).1 "op1" "probe_arm").
Proof. split; [eexists; vm_compute; reflexivity|]. apply control_outbox_refinement. exact wstart_ok. Defined.

Lemma control_tables_well_formed_witness : st_ok (crun wboot wstart).
Proof. apply control_tables_well_formed. exact wstart_ok. Defined.

(** The same message again, after its disposition. *)
Definition wrecorded : db := Eval vm_compute in match RecordControlInbox 9 wmessage wdb with Ok (_, d) => d | Err _ => wdb end.

Lemma inbox_recorded_once_witness :
  ∃ op, RecordControlInbox 12 wmessage (crun [EvCmd (KInbox 10 "m1" "PROCESSED")] (wrecorded, open_cursor)).1
    = if String.eqb op "op1" then Ok (true, (crun [EvCmd (KInbox 10 "m1" "PROCESSED")] (wrecorded, open_cursor)).1) else Err CsMessageConflict.
Proof.
  destruct (inbox_recorded_once [EvCmd (KInbox 10 "m1" "PROCESSED")] (wdb, open_cursor) 9 12 wmessage wmessage wrecorded) as (op & _ & H).
  - split; [exact wdb_ok|by intros ?].
  - vm_compute. reflexivity.
  - repeat constructor.
  - reflexivity.
  - exists op. cbn [snd] in H. rewrite H. cbn. by rewrite andb_true_r.
Defined.

Definition wprocessed : db := Eval vm_compute in (crun [EvCmd (KInbox 10 "m1" "PROCESSED")] (wrecorded, open_cursor)).1.
Definition wrow : InboxRow := mkInbox 1 "m1" "n1" "operation_complete" "done" "PROCESSED" (Some "op1"%string) 10.

Lemma wrecorded_ok : db_ok wrecorded.
Proof. apply (gd_ok wdb). apply (resp_record 9 wmessage wdb false); [exact wdb_ok|vm_compute; reflexivity]. Qed.
Lemma wprocessed_ok : db_ok wprocessed.
Proof. change wprocessed with (crun [EvCmd (KInbox 10 "m1" "PROCESSED")] (wrecorded, open_cursor)).1. apply crun_ok. split; [exact wrecorded_ok|by intros ?]. Qed.

(** The pass keeps the row: the outbox still refers to its operation. *)
Lemma inbox_removed_only_unprotected_witness :
  inbox_row (crun [EvCleanup 100 10] (wprocessed, open_cursor)).1 "m1" = Some wrow ∧
  ((∃ r', inbox_row (crun [EvCleanup 100 10] (wprocessed, open_cursor)).1 "m1" = Some r' ∧ imonotone (iview wrow) (iview r')) ∨
   (∃ es1 cutoff limit es2 r1, [EvCleanup 100 10] = es1 ++ EvCleanup cutoff limit :: es2 ∧ inbox_row (crun es1 (wprocessed, open_cursor)).1 "m1" = Some r1 ∧
     imonotone (iview wrow) (iview r1) ∧ removable cutoff (crun es1 (wprocessed, open_cursor)).1 r1 = true)).
Proof.
  split; [vm_compute; reflexivity|]. apply (inbox_removed_only_unprotected [EvCleanup 100 10] (wprocessed, open_cursor) "m1" wrow).
  - split; [exact wprocessed_ok|by intros ?].
  - vm_compute. reflexivity.
Defined.

(** Without the outbox row nothing protects it, and one cycle removes it. *)
Definition wfree : db := set_outbox wprocessed [].
Lemma wfree_ok : db_ok wfree.
Proof. destruct wprocessed_ok as [k1 i1 s1 k2 i2 s2 k3 sq]. split; cbn; try done; repeat constructor. Qed.

Lemma cleanup_cycle_exact_witness :
  sql_delete (removable 100 wfree) (t_inbox wfree) = [] ∧
  ∃ n, (1 ≤ n ≤ length (t_inbox wfree) + 1)%nat ∧
    cleanup_passes 100 10 n (wfree, open_cursor) = (set_inbox wfree (sql_delete (removable 100 wfree) (t_inbox wfree)), open_cursor).
Proof. split; [vm_compute; reflexivity|]. apply cleanup_cycle_exact. exact wfree_ok. Defined.

Lemma cleanup_pass_bounded_witness :
  ∃ (ex : list InboxRow) (removed : nat) c',
    (zlen ex ≤ 4096) ∧ (Z.of_nat removed ≤ 1024) ∧ (0 < 10 → Z.of_nat removed ≤ 10) ∧ removed = length (List.filter (removable 100 wfree) ex) ∧
    DeleteControlInboxBeforeLimit 100 10 (mkCursor 1 1 true false) wfree = (Some removed, c', set_inbox wfree (cleared 100 wfree ex (t_inbox wfree))).
Proof. apply (cleanup_pass_bounded 100 10 1 1 wfree); [exact wfree_ok|lia]. Defined.

(** A reconnect at epoch 1 fences the first session. *)
Definition wagain : db := Eval vm_compute in match AcquireControlOwner 20 "n1" 1 "s2" wdb with Ok (_, d) => d | Err _ => wdb end.

Lemma superseded_owner_is_fenced_witness :
  mkOwner "n1" 2 "s2" = mkOwner "n1" (1 + 1) "s2" ∧
  node_view "n1" (cexec (KAckOwned 21 "op1" "probe_arm" wowner) (crun [] (wagain, open_cursor)).1).2 = node_view "n1" (crun [] (wagain, open_cursor)).1.
Proof.
  apply (superseded_owner_is_fenced [] (wdb, open_cursor) 20 1 "n1" "s2" wowner (mkOwner "n1" 2 "s2") wagain (KAckOwned 21 "op1" "probe_arm" wowner)).
  - split; [exact wdb_ok|by intros ?].
  - vm_compute. reflexivity.
  - cbn. lia.
  - reflexivity.
Defined.

Definition wready : db := Eval vm_compute in (crun (take 2 wboot) wstart).1.

Lemma control_delivery_completes_witness :
  ∃ d', cexec_all [KEnqueue 3 witem; KClaimOpOwned 3 "op1" "probe_arm" wowner; KSentOwned 3 "op1" "probe_arm" wowner; KAckOwned 3 "op1" "probe_arm" wowner;
    KReceiptOwned 3 wowner "op1" "probe_arm"] wready = Some d' ∧ t_outbox d' = t_outbox wready ∧ t_inbox d' = t_inbox wready ∧ t_nodes d' = t_nodes wready.
Proof. apply (control_delivery_completes 3 wowner witem wready); try (vm_compute; reflexivity). cbn. discriminate. Defined.
