(* ===== verification/Hub.v ===== *)
(** * The agent hub of the Controller

    [src/internal/controller/agenthub/session.go]: the handlers that an authenticated
    control session runs on the frames of its agent, and the pump that sends the
    control outbox.  A handler is a sequence of store transactions; before each of them
    the other sessions, the pump and the recovery workers may run any commands, which
    the state holds as a queue of interferences.  The WebSocket is the list of sent
    frames and a queue of write results; the probe sink, the status sink and the typed
    JSON decoders are interfaces. *)

From Stdlib Require Import ZArith Lia Strings.Byte.
From stdpp Require Import base tactics list sets strings option.
From S2P Require Import Prelude GoStd Frame Envelope Probe Sql Control ControlProofs.

Open Scope Z_scope.

(** ** Interfaces *)

(** [ProbeSink] and [ActivationStatusSink]: consumers that may change the database. *)
Inductive sink_result : Type := SinkOk | SinkFailed (permanent : bool).
Inductive status_result : Type := StatusOk | StatusStale | StatusFailed.
Record Sink : Type := mkSink {
  HandleProbeMessage : string → string → bytes → db → sink_result * db;
  HandleActivationStatus : option (string → bytes → db → status_result * db)
}.

(** [protocol.DecodeStrictJSONInto] at the three payload types, and [%q]. *)
Class HubJson := {
  json_receipt : bytes → option string;              (* operation_id *)
  json_nack : bytes → option string;                 (* status *)
  json_notice : bytes → option (string * string);    (* deletion_operation_id, notice *)
  go_quote : string → bytes
}.

(** ** State *)

Record ControlSession : Type := mkSession {
  se_nodeID : string; se_epoch : Z; se_session : string; se_owner : ControlOwner; se_agentPub : bytes; se_cleanupOnly : bool
}.

(** A frame as it was handed to [BuildEnvelope]. *)
Record Sent : Type := mkSent { sn_header : ProtectedHeader; sn_payload : bytes }.

Record hstate : Type := mkH {
  h_store : cstate;
  h_env : list (Z * list cevent);    (* clock and interference before each store call *)
  h_writes : list bool;              (* results of the socket's writes; true when exhausted *)
  h_outSeq : Z;
  h_inSeq : Z;
  h_wire : list Sent;
  h_sunk : list (string * bytes)     (* messages given to the probe sink *)
}.

Inductive HubError : Type :=
  | HEnvelope (e : Stage * EnvelopeError) | HDirection | HCleanupOnly | HStaleFrame | HMismatch | HSequence | HUnexpectedType
  | HStore (e : CsError) | HBuild (e : EnvelopeError) | HWrite | HReceiptPayload | HReceiptID | HStatus.

Definition hm (A : Type) : Type := hstate → result HubError A * hstate.
Definition hret {A} (a : A) : hm A := λ s, (Ok a, s).
Definition hfail {A} (e : HubError) : hm A := λ s, (Err e, s).
Definition hbind {A C} (m : hm A) (k : A → hm C) : hm C := λ s, match m s with (Ok a, s') => k a s' | (Err e, s') => (Err e, s') end.

Notation "'hub!' x ':=' c 'in' k" := (hbind c (λ x, k)) (at level 10, x pattern, k at level 200) : go_scope.
Notation "'hub_fail_if' b 'with' e ';;' k" := (if b then hfail e else k)
  (at level 10, b at level 99, e at level 99, k at level 200) : go_scope.

Definition on_store (s : hstate) (st : cstate) (env : list (Z * list cevent)) : hstate :=
  mkH st env (h_writes s) (h_outSeq s) (h_inSeq s) (h_wire s) (h_sunk s).

Section Hub.
Context {crypto : Crypto} {json : HubJson}.

(** A store transaction, after what other actors did since the last one. *)
Definition store_call {A} (m : Z → ct A) : hm (result CsError A) := λ s,
  let '(now, es) := default (0, []) (head (h_env s)) in
  let st := crun es (h_store s) in
  let s' := on_store s st (tail (h_env s)) in
  match m now st.1 with
  | Ok (a, d) => (Ok (Ok a), on_store s' (d, st.2) (h_env s'))
  | Err e => (Ok (Err e), s')
  end.
Definition store_read {A} (f : db → A) : hm A :=
  hub! r := store_call (λ _, sql_read f) in match r with Ok a => hret a | Err e => hfail (HStore e) end.

(** [if err := ...; err != nil { return err }] *)
Definition store_must {A} (m : Z → ct A) : hm A :=
  hub! r := store_call m in match r with Ok a => hret a | Err e => hfail (HStore e) end.
Definition store_get {A} (f : db → result CsError A) : hm A :=
  hub! r := store_read f in match r with Ok a => hret a | Err e => hfail (HStore e) end.

(** *** Writing *)

Record HubConfig : Type := mkHub { hc_instanceID : bytes; hc_keyID : string; hc_privateKey : bytes }.
Context (h : HubConfig) (sink : option Sink).

(** [copy(id[:], s.nodeID)] *)
Definition nodeIDBytes (s : ControlSession) : bytes :=
  let b := take 16 (bytes_of (se_nodeID s)) in b ++ repeat Byte.x00 (16 - length b).

Definition out_header (s : ControlSession) (seq : Z) (messageID : bytes) (messageType : string) : ProtectedHeader :=
  mkHeader ProtocolDomain (hc_instanceID h) (nodeIDBytes s) (hc_keyID h) 1 (se_epoch s) (se_session s) DirectionC2A seq messageID messageType 1 0
    (repeat Byte.x00 32).

(** The sequence is consumed only by a frame that was built; a failed write of a built
    frame consumes it. *)
Definition writeEnvelope (s : ControlSession) (messageID : bytes) (messageType : string) (payload : bytes) : hm unit := λ hs,
  let seq := (h_outSeq hs + 1) mod 2 ^ 64 in
  let header := out_header s seq messageID messageType in
  match BuildEnvelope (hc_privateKey h) header payload with
  | Err e => (Err (HBuild e), hs)
  | Ok frame =>
      let written := default true (head (h_writes hs)) in
      let hs' := mkH (h_store hs) (h_env hs) (tail (h_writes hs)) seq (h_inSeq hs)
                   (if written then h_wire hs ++ [mkSent header payload] else h_wire hs) (h_sunk hs) in
      ((if written then Ok tt else Err HWrite), hs')
  end.

(** A quoted literal of a format string, and the payload formats. *)
Definition lit (key : string) : bytes := Byte.x22 :: bytes_of key ++ [Byte.x22].
Definition receipt_payload (operationID : string) : bytes :=
  bytes_of "{" ++ lit "operation_id" ++ bytes_of ":" ++ go_quote operationID ++ bytes_of "}".
Definition writeReceipt (s : ControlSession) (operationID : string) : hm unit :=
  writeEnvelope s (MessageID operationID "message_receipt") "message_receipt" (receipt_payload operationID).

(** *** Correlation *)

Definition live_states : list string := ["PENDING"; "CLAIMED"; "SENT"; "SEMANTIC_ACKED"]%string.

(** The row of a result and the agent's operation id; [CsNotFound] when there is none. *)
Definition matchOutboxRow (s : ControlSession) (resultMsgID : bytes) (resultType : string) : hm (result CsError (ControlOutboxItem * string)) :=
  let resultHex := hex_of resultMsgID in
  let by_column c := store_read (λ d, ControlOutboxItemByCorrelation d (se_nodeID s) resultHex c live_states) in
  if String.eqb resultType "operation_complete" then
    hub! r1 := by_column "operation_complete"%string in
    match r1 with
    | Ok row => hret (Ok (row, hex_of (MessageID (ci_OperationID row) (ci_MessageType row))))
    | Err CsNotFound =>
        hub! r2 := by_column "controller_operation_complete"%string in
        match r2 with Ok row => hret (Ok (row, ci_OperationID row)) | Err e => hret (Err e) end
    | Err e => hret (Err e)
    end
  else
    hub! r := by_column "command"%string in
    match r with Ok row => hret (Ok (row, ci_OperationID row)) | Err e => hret (Err e) end.

Definition matchOutboxRowByReceiptOperationID (s : ControlSession) (agentOperationID : string) : hm (result CsError ControlOutboxItem) :=
  let resultHex := hex_of (MessageID agentOperationID "operation_complete") in
  let by_column c := store_read (λ d, ControlOutboxItemByCorrelation d (se_nodeID s) resultHex c live_states) in
  hub! r1 := by_column "operation_complete"%string in
  match r1 with
  | Ok row => hret (Ok row)
  | Err CsNotFound => by_column "controller_operation_complete"%string
  | Err e => hret (Err e)
  end.

Definition operationIDFromReceipt (payload : bytes) : result HubError string :=
  match json_receipt payload with
  | None => Err HReceiptPayload
  | Some op => if String.eqb op "" then Err HReceiptPayload else Ok op
  end.

(** *** Convergence to SEMANTIC_ACKED *)

(** One transition for the row's state as it was just read; [None] ends the loop. *)
Definition ack_step (s : ControlSession) (current : ControlOutboxItem) : hm (option (result CsError unit)) :=
  let op := ci_OperationID current in let ty := ci_MessageType current in
  if String.eqb (ci_State current) "PENDING" then
    hub! r := store_call (λ now, ClaimControlOutboxOperationOwned now op ty (se_owner s)) in hret (Some r)
  else if String.eqb (ci_State current) "CLAIMED" then
    hub! r := store_call (λ now, MarkControlOutboxSentOwned now op ty (se_owner s)) in hret (Some r)
  else if String.eqb (ci_State current) "SENT" then
    hub! r := store_call (λ now, AcceptControlSemanticACKOwned now op ty (se_owner s)) in hret (Some r)
  else if String.eqb (ci_State current) "SEMANTIC_ACKED" then
    hub! r := store_call (λ now, RebindControlOutboxSessionOwned now op ty (se_owner s)) in
    match r with Ok _ => hret None | Err e => hret (Some (Err e)) end
  else hfail (HStore CsIllegalPhase).

(** [attempts] iterations are left; [lastErr] is the last one's. *)
Fixpoint ack_loop (attempts : nat) (lastErr : option CsError) (s : ControlSession) (row : ControlOutboxItem) : hm unit :=
  match attempts with
  | O => match lastErr with None => hret tt | Some e => hfail (HStore e) end
  | S n =>
      hub! current := store_read (λ d, ControlOutboxItemByOperation d (ci_OperationID row) (ci_MessageType row)) in
      match current with
      | Err CsNotFound => hret tt
      | Err e => hfail (HStore e)
      | Ok cur =>
          hub! step := ack_step s cur in
          match step with
          | None => hret tt
          | Some (Ok _) => ack_loop n None s row
          | Some (Err CsIllegalPhase) => ack_loop n (Some CsIllegalPhase) s row
          | Some (Err e) => hfail (HStore e)
          end
      end
  end.

Definition ensureOutboxSemanticACKed (s : ControlSession) (row : ControlOutboxItem) : hm unit := ack_loop 8 None s row.

Definition advanceResultRow (s : ControlSession) (row : ControlOutboxItem) (agentOp : string) : hm unit :=
  hub! _ := ensureOutboxSemanticACKed s row in writeReceipt s agentOp.

(** *** Results *)

Definition isProbeArmNACK (payload : bytes) : bool :=
  match json_nack payload with Some status => String.eqb status "nacked" | None => false end.

(** The sink runs, and its message is remembered. *)
Definition run_sink (k : Sink) (nodeID messageType : string) (payload : bytes) : hm sink_result := λ hs,
  let '(r, d) := HandleProbeMessage k nodeID messageType payload (h_store hs).1 in
  (Ok r, mkH (d, (h_store hs).2) (h_env hs) (h_writes hs) (h_outSeq hs) (h_inSeq hs) (h_wire hs) (h_sunk hs ++ [(messageType, payload)])).

(** The material of an existing row is the message's. *)
Definition same_material (existing item : ControlInboxItem) : bool :=
  String.eqb (ii_NodeID existing) (ii_NodeID item) && String.eqb (ii_MessageType existing) (ii_MessageType item)
  && String.eqb (ii_SemanticPayload existing) (ii_SemanticPayload item).

(** Record, or repair the empty binding of a row with the same material; [strict]
    repairs only after a conflict. *)
Definition record_bound (strict : bool) (s : ControlSession) (item : ControlInboxItem) : hm unit :=
  hub! r := store_call (λ now, RecordControlInboxOwned now (se_owner s) item) in
  match r with
  | Ok _ => hret tt
  | Err e =>
      hub_fail_if strict && negb (match e with CsMessageConflict => true | _ => false end) with HStore e ;;
      hub! existing := store_read (λ d, ControlInboxItemByMessageID d (ii_MessageID item)) in
      match existing with
      | Err _ => hfail (HStore e)
      | Ok x =>
          hub_fail_if negb (same_material x item)
              || (negb (String.eqb (ii_OperationID x) "") && negb (String.eqb (ii_OperationID x) (ii_OperationID item))) with HStore e ;;
          if String.eqb (ii_OperationID x) "" then
            store_must (λ now, BindControlInboxOperationIDOwned now (se_owner s) (ii_MessageID item) (ii_OperationID item))
          else hret tt
      end
  end.

Definition inbox_item (s : ControlSession) (env : Envelope) (operationID : string) : ControlInboxItem :=
  mkInboxItem (hex_of (ph_MessageID (env_Header env))) (se_nodeID s) (ph_MessageType (env_Header env)) operationID (string_of (env_Payload env))
    ControlInboxReceived.

(** A result whose outbox row is gone: only the durable inbox row answers for it. *)
Definition replay_result (s : ControlSession) (env : Envelope) (err : CsError) : hm unit :=
  let item := inbox_item s env "" in
  hub! existing := store_read (λ d, ControlInboxItemByMessageID d (ii_MessageID item)) in
  match existing with
  | Err _ => hfail (HStore err)
  | Ok x =>
      hub_fail_if negb (same_material x item) with HStore CsMessageConflict ;;
      hub_fail_if String.eqb (ii_OperationID x) "" with HStore CsMessageConflict ;;
      if String.eqb (ii_State x) ControlInboxNacked then hret tt
      else if String.eqb (ii_State x) ControlInboxReceived || String.eqb (ii_State x) ControlInboxProcessed then writeReceipt s (ii_OperationID x)
      else hfail (HStore CsIllegalPhase)
  end.

Definition probe_nack_payload (operationID : string) : bytes :=
  bytes_of "{" ++ lit "probe_id" ++ bytes_of ":" ++ go_quote operationID ++ bytes_of "," ++ lit "outcome" ++ bytes_of ":"
    ++ lit "REJECTED" ++ bytes_of "}".

(** The sink step of a correlated result: [false] when the message stays RECEIVED. *)
Definition sink_arm_result (s : ControlSession) (env : Envelope) (row : ControlOutboxItem) : hm bool :=
  match sink with
  | None => hret false
  | Some k =>
      let nack := isProbeArmNACK (env_Payload env) in
      hub! r := run_sink k (se_nodeID s) (if nack then "probe_result" else "probe_armed")
                  (if nack then probe_nack_payload (ci_OperationID row) else env_Payload env) in
      match r with
      | SinkFailed _ => hret false
      | SinkOk =>
          hub! w := store_call (λ now, SetControlInboxStateOwned now (se_owner s) (hex_of (ph_MessageID (env_Header env))) ControlInboxProcessed) in
          match w with Ok _ => hret true | Err _ => hret false end
      end
  end.

Definition handleAgentResult (s : ControlSession) (env : Envelope) : hm unit :=
  let hdr := env_Header env in
  let messageID := hex_of (ph_MessageID hdr) in
  hub! m := matchOutboxRow s (ph_MessageID hdr) (ph_MessageType hdr) in
  match m with
  | Err CsNotFound => replay_result s env CsNotFound
  | Err _ => hret tt
  | Ok (row, agentOp) =>
      hub! _ := record_bound false s (inbox_item s env agentOp) in
      hub! st := store_read (λ d, ControlInboxState d messageID) in
      match st with
      | Err _ => hret tt
      | Ok state =>
          if String.eqb state ControlInboxNacked then hret tt
          else
            hub_fail_if negb (String.eqb state ControlInboxReceived) && negb (String.eqb state ControlInboxProcessed) with HStore CsIllegalPhase ;;
            hub! go := (if String.eqb (ci_MessageType row) "probe_arm" && String.eqb state ControlInboxReceived
                        then sink_arm_result s env row else hret true) in
            if go then advanceResultRow s row agentOp else hret tt
      end
  end.

(** *** Receipts *)

(** The receipt's transaction, retried after a concurrent transition. *)
Fixpoint receipt_loop (attempts : nat) (lastErr : option CsError) (s : ControlSession) (env : Envelope) (agentOperationID : string)
    (row : ControlOutboxItem) : hm unit :=
  match attempts with
  | O => match lastErr with None => hret tt | Some e => hfail (HStore e) end
  | S n =>
      let item := inbox_item s env agentOperationID in
      hub! _ := ensureOutboxSemanticACKed s row in
      hub! r := store_call (λ now, AcceptControlReceiptOwnedInbox now (se_owner s)
                  (mkReceipt (ii_MessageID item) (ii_SemanticPayload item) agentOperationID (ci_OperationID row) (ci_MessageType row))) in
      match r with
      | Ok _ => hret tt
      | Err CsIllegalPhase =>
          hub! current := store_read (λ d, ControlOutboxItemByOperation d (ci_OperationID row) (ci_MessageType row)) in
          match current with
          | Err CsNotFound =>
              hub! existing := store_read (λ d, ControlInboxItemByMessageID d (ii_MessageID item)) in
              if match existing with
                 | Ok x => same_material x item && String.eqb (ii_OperationID x) agentOperationID
                 | Err _ => false
                 end
              then hret tt else receipt_loop n (Some CsIllegalPhase) s env agentOperationID row
          | _ => receipt_loop n (Some CsIllegalPhase) s env agentOperationID row
          end
      | Err e => hfail (HStore e)
      end
  end.

(** A receipt whose outbox row is gone. *)
Definition replay_receipt (s : ControlSession) (env : Envelope) (agentOperationID : string) (err : CsError) : hm unit :=
  let item := inbox_item s env agentOperationID in
  hub! existing := store_read (λ d, ControlInboxItemByMessageID d (ii_MessageID item)) in
  match existing with
  | Ok x =>
      hub_fail_if negb (same_material x item)
          || (negb (String.eqb (ii_OperationID x) "") && negb (String.eqb (ii_OperationID x) agentOperationID)) with HStore CsMessageConflict ;;
      hret tt
  | Err CsNotFound => hfail (HStore err)
  | Err e => hfail (HStore e)
  end.

Definition handleAgentReceipt (s : ControlSession) (env : Envelope) : hm unit :=
  let hdr := env_Header env in
  match operationIDFromReceipt (env_Payload env) with
  | Err e => hfail e
  | Ok agentOperationID =>
      hub_fail_if negb (bytes_eqb (ph_MessageID hdr) (MessageID agentOperationID "message_receipt")) with HReceiptID ;;
      hub! m := matchOutboxRowByReceiptOperationID s agentOperationID in
      match m with
      | Err CsNotFound => replay_receipt s env agentOperationID CsNotFound
      | Err e => hfail (HStore e)
      | Ok row =>
          hub! _ := record_bound true s (inbox_item s env agentOperationID) in
          hub! state := store_get (λ d, ControlInboxState d (hex_of (ph_MessageID hdr))) in
          if String.eqb state ControlInboxNacked then hret tt
          else
            hub_fail_if negb (String.eqb state ControlInboxReceived) && negb (String.eqb state ControlInboxProcessed) with HStore CsIllegalPhase ;;
            receipt_loop 8 None s env agentOperationID row
      end
  end.

(** *** Probe-plane messages *)

Definition recordProbeReceiptInbox (s : ControlSession) (item : ControlInboxItem) : hm unit := record_bound true s item.

(** [true] when the receipt may be acknowledged; store failures leave it RECEIVED. *)
Definition processProbeReceipt (s : ControlSession) (item : ControlInboxItem) : hm bool := λ hs,
  match recordProbeReceiptInbox s item hs with
  | (Err (HStore CsMessageConflict), hs') => (Err (HStore CsMessageConflict), hs')
  | (Err _, hs') => (Ok false, hs')
  | (Ok _, hs') =>
      (hub! st := store_read (λ d, ControlInboxState d (ii_MessageID item)) in
       match st with
       | Err _ => hret false
       | Ok state =>
           if terminal_state state then hret true
           else
             hub_fail_if negb (String.eqb state ControlInboxReceived) with HStore CsIllegalPhase ;;
             match sink with
             | None => hret false
             | Some k =>
                 hub! r := run_sink k (se_nodeID s) (ii_MessageType item) (bytes_of (ii_SemanticPayload item)) in
                 match r with
                 | SinkFailed false => hret false
                 | SinkFailed true =>
                     hub! w := store_call (λ now, SetControlInboxStateExact now item ControlInboxNacked) in
                     match w with Ok _ => hret true | Err _ => hret false end
                 | SinkOk =>
                     hub! w := store_call (λ now, SetControlInboxStateExact now item ControlInboxProcessed) in
                     match w with Ok _ => hret true | Err _ => hret false end
                 end
             end
       end) hs'
  end.

(** The sink step of the generic path: [false] when the handler ends. *)
Definition sink_probe_message (s : ControlSession) (env : Envelope) (item : ControlInboxItem) : hm bool :=
  match sink with
  | None => hret false
  | Some k =>
      hub! r := run_sink k (se_nodeID s) (ph_MessageType (env_Header env)) (env_Payload env) in
      match r with
      | SinkFailed _ => hret false
      | SinkOk =>
          hub! w := store_call (λ now, SetControlInboxStateExact now item ControlInboxProcessed) in
          match w with Ok _ => hret true | Err _ => hret false end
      end
  end.

(** [probe_armed] advances its outbox row; a missing row is tolerated. *)
Definition armed_row (s : ControlSession) (env : Envelope) : hm unit :=
  let hdr := env_Header env in
  if String.eqb (ph_MessageType hdr) "probe_armed" then
    hub! m := matchOutboxRow s (ph_MessageID hdr) (ph_MessageType hdr) in
    match m with Ok (row, agentOp) => advanceResultRow s row agentOp | Err _ => hret tt end
  else hret tt.

Definition handleProbePlaneMessage (s : ControlSession) (env : Envelope) : hm unit :=
  let hdr := env_Header env in
  let ingress := String.eqb (ph_MessageType hdr) "probe_ingress_receipt" in
  let operationID := if ingress then hex_of (sha256 (env_Payload env)) else ""%string in
  let item := inbox_item s env operationID in
  if ingress then
    hub! accepted := processProbeReceipt s item in
    if accepted then writeReceipt s operationID else hret tt
  else
    hub! duplicate := store_must (λ now, RecordControlInboxOwned now (se_owner s) item) in
    hub! stop := (if duplicate then
                    hub! st := store_read (λ d, ControlInboxState d (ii_MessageID item)) in
                    match st with
                    | Err _ => hret true
                    | Ok state => hret (String.eqb state ControlInboxNacked
                                        || (String.eqb state ControlInboxProcessed && negb (String.eqb (ph_MessageType hdr) "probe_armed")))
                    end
                  else hret false) in
    if stop then hret tt
    else
      hub! st := store_read (λ d, ControlInboxState d (ii_MessageID item)) in
      match st with
      | Err _ => hret tt
      | Ok state =>
          if String.eqb state ControlInboxNacked then hret tt
          else
            hub! go := (if String.eqb state ControlInboxReceived then sink_probe_message s env item else hret true) in
            if go then armed_row s env else hret tt
      end.

(** *** The uninstall notice *)

Definition lower_hex (c : byte) : bool :=
  ((b2z "0"%byte <=? b2z c) && (b2z c <=? b2z "9"%byte)) || ((b2z "a"%byte <=? b2z c) && (b2z c <=? b2z "f"%byte)).

Definition parseAgentUninstallNotice (env : Envelope) : option string :=
  match json_notice (env_Payload env) with
  | None => None
  | Some (operationID, notice) =>
      if negb (String.eqb notice "agent uninstall requested") || negb (zlen (bytes_of operationID) =? 32) then None
      else if negb (forallb lower_hex (bytes_of operationID)) then None
      else if negb (bytes_eqb (ph_MessageID (env_Header env)) (MessageID operationID "operation_complete")) then None
      else Some operationID
  end.

Definition handleAgentUninstallNotice (s : ControlSession) (env : Envelope) (operationID : string) : hm unit :=
  let item := mkInboxItem (hex_of (ph_MessageID (env_Header env))) (se_nodeID s) "operation_complete" operationID (string_of (env_Payload env))
                ControlInboxReceived in
  hub! _ := store_must (λ now, RecordControlInboxOwned now (se_owner s) item) in
  hub! _ := store_must (λ now, SetControlInboxStateExact now item ControlInboxProcessed) in
  writeReceipt s operationID.

(** *** Inbound frames *)

Definition AllowedInboundCleanupOnly (messageType : string) : bool :=
  existsb (String.eqb messageType) ["node_decommission_ack"; "heartbeat"; "status"; "message_receipt"; "operation_complete"]%string.

Definition run_status (s : ControlSession) (payload : bytes) : hm unit := λ hs,
  match sink with
  | Some (mkSink _ (Some k)) =>
      let '(r, d) := k (se_nodeID s) payload (h_store hs).1 in
      let hs' := on_store hs (d, (h_store hs).2) (h_env hs) in
      match r with StatusFailed => (Err HStatus, hs') | _ => (Ok tt, hs') end
  | _ => (Ok tt, hs)
  end.

Definition accept_sequence (seq : Z) : hm unit := λ hs,
  if negb (seq =? (h_inSeq hs + 1) mod 2 ^ 64) then (Err HSequence, hs)
  else (Ok tt, mkH (h_store hs) (h_env hs) (h_writes hs) (h_outSeq hs) seq (h_wire hs) (h_sunk hs)).

Definition dispatch (s : ControlSession) (env : Envelope) : hm unit :=
  let ty := ph_MessageType (env_Header env) in
  if String.eqb ty "operation_complete" then
    match parseAgentUninstallNotice env with
    | Some operationID => handleAgentUninstallNotice s env operationID
    | None => handleAgentResult s env
    end
  else if existsb (String.eqb ty) ["desired_result"; "forward_delete_ack"; "node_decommission_ack"]%string then handleAgentResult s env
  else if existsb (String.eqb ty) ["probe_armed"; "probe_ingress_receipt"; "probe_result"]%string then handleProbePlaneMessage s env
  else if String.eqb ty "message_receipt" then handleAgentReceipt s env
  else if String.eqb ty "heartbeat" then hret tt
  else if String.eqb ty "status" then run_status s (env_Payload env)
  else hfail HUnexpectedType.

Definition handleInboundFrame (s : ControlSession) (frame : bytes) : hm unit :=
  match ParseEnvelope frame (se_agentPub s) with
  | Err e => hfail (HEnvelope e)
  | Ok env =>
      let hdr := env_Header env in
      hub_fail_if negb (bool_decide (ph_Direction hdr = DirectionA2C)) with HDirection ;;
      hub_fail_if se_cleanupOnly s && negb (AllowedInboundCleanupOnly (ph_MessageType hdr)) with HCleanupOnly ;;
      hub_fail_if negb (ph_ConnectionEpoch hdr =? se_epoch s) || negb (String.eqb (ph_SessionID hdr) (se_session s)) with HStaleFrame ;;
      hub_fail_if negb (bytes_eqb (ph_NodeID hdr) (nodeIDBytes s)) || (ph_AgentCredentialVer hdr =? 0) with HMismatch ;;
      hub! _ := store_must (λ _, RequireCurrentControlOwner (se_owner s)) in
      hub! _ := accept_sequence (ph_Sequence hdr) in
      dispatch s env
  end.

(** [frameLoop]: frames until one is rejected. *)
Fixpoint frameLoop (s : ControlSession) (frames : list bytes) : hm unit :=
  match frames with
  | [] => hret tt
  | f :: fs => hub! _ := handleInboundFrame s f in frameLoop s fs
  end.

(** *** The pump *)

Definition outboxClaimLimit : Z := 100.

(** One claimed row: the delivery gate, the write, the transition. *)
Definition pump_item (s : ControlSession) (item : ControlOutboxItem) : hm unit :=
  let op := ci_OperationID item in let ty := ci_MessageType item in
  hub! allowed := store_read (λ d, DeliveryAllowed d (ci_NodeID item) ty) in
  if negb allowed then store_must (λ now, RequeueControlOutboxItemOwned now op ty (se_owner s))
  else
    hub! _ := writeEnvelope s (MessageID op ty) ty (bytes_of (ci_SemanticPayload item)) in
    hub! r := store_call (λ now, MarkControlOutboxSentOwned now op ty (se_owner s)) in
    match r with
    | Ok _ => hret tt
    | Err e =>
        hub! current := store_read (λ d, ControlOutboxItemByOperation d op ty) in
        match current with
        | Err CsNotFound => hret tt
        | Ok cur => if String.eqb (ci_State cur) "SENT" || String.eqb (ci_State cur) "SEMANTIC_ACKED" then hret tt else hfail (HStore e)
        | Err _ => hfail (HStore e)
        end
    end.

Fixpoint pump_items (s : ControlSession) (items : list ControlOutboxItem) : hm unit :=
  match items with
  | [] => hret tt
  | item :: rest => hub! _ := pump_item s item in pump_items s rest
  end.

(** One tick of [outboxPump], and its start. *)
Definition pump_tick (s : ControlSession) (clock : Z) : hm unit :=
  hub! items := store_must (λ now, ClaimControlOutboxOwned clock now (se_owner s) outboxClaimLimit) in
  pump_items s items.
Definition pump_start (s : ControlSession) : hm nat := store_must (λ now, RequeueControlOutboxForOwner now (se_owner s)).
End Hub.
