(* ===== verification/HubProofs.v ===== *)
(** * The agent hub: what every handler preserves

    Handlers are sequences of store transactions with interference in between.  A
    relation on store states that every transaction, every interference and the sinks
    respect is respected by every handler. *)

From Stdlib Require Import ZArith Lia Strings.Byte Sorted.
From stdpp Require Import base tactics list sets strings option relations.
From S2P Require Import Prelude GoStd Frame Envelope Probe Sql Control ControlProofs ControlCleanup ControlProps ControlOwners Hub.

Open Scope Z_scope.

(** A sink moves the control tables only along their automata. *)
Class SinkLaws (k : Sink) : Prop := {
  sl_probe n ty payload d : db_ok d → good d (HandleProbeMessage k n ty payload d).2;
  sl_status f n payload d : HandleActivationStatus k = Some f → db_ok d → good d (f n payload d).2
}.

Section Safe.
Context {crypto : Crypto} {json : HubJson} (h : HubConfig) (sink : option Sink).

(** The interference allowed, and a preorder on states that it and [good] respect. *)
Context (P : cevent → Prop) (R : cstate → cstate → Prop).
Context (Rrefl : ∀ st, st_ok st → R st st).
Context (Rtrans : ∀ a b c, R a b → R b c → R a c).
Context (Rok : ∀ a b, R a b → st_ok b).
Context (Rgood : ∀ d c d', st_ok (d, c) → good d d' → R (d, c) (d', c)).
Context (Rrun : ∀ es st, st_ok st → Forall P es → R st (crun es st)).
Context (Hsink : ∀ k, sink = Some k → SinkLaws k).

Definition env_ok (s : hstate) : Prop := Forall (λ x, Forall P x.2) (h_env s).
Definition hsafe {A} (m : hm A) : Prop :=
  ∀ s, st_ok (h_store s) → env_ok s → R (h_store s) (h_store (m s).2) ∧ env_ok (m s).2.

Lemma hsafe_ret {A} (a : A) : hsafe (hret a).
Proof. intros s Hs He. split; [by apply Rrefl|done]. Qed.
Lemma hsafe_fail {A} e : hsafe (A := A) (hfail e).
Proof. intros s Hs He. split; [by apply Rrefl|done]. Qed.
Lemma hsafe_bind {A C} (m : hm A) (k : A → hm C) : hsafe m → (∀ a, hsafe (k a)) → hsafe (hbind m k).
Proof.
  intros Hm Hk s Hs He. unfold hbind. destruct (Hm s Hs He) as [H1 H2]. destruct (m s) as [[a|e] s1]; [|done]. cbn in *.
  destruct (Hk a s1 (Rok _ _ H1) H2) as [H3 H4]. split; [by eapply Rtrans|done].
Qed.

Lemma hsafe_call {A} (m : Z → ct A) : (∀ now, respects (m now)) → hsafe (store_call m).
Proof.
  intros Hm s Hs He. unfold store_call. destruct (default (0, []) (head (h_env s))) as [now es] eqn:E.
  assert (Hes : Forall P es ∧ Forall (λ x, Forall P x.2) (tail (h_env s))).
  { unfold env_ok in He. destruct (h_env s) as [|[n e] l]; cbn in *; [by injection E as <- <-|]. injection E as -> ->. by apply list.Forall_cons in He. }
  destruct Hes as [Hes Htl]. pose proof (Rrun es (h_store s) Hs Hes) as Hrun. pose proof (Rok _ _ Hrun) as Hok.
  destruct (m now (crun es (h_store s)).1) as [[a d]|e] eqn:Em; cbn; [|done]. split; [|done]. eapply Rtrans; [exact Hrun|].
  destruct (crun es (h_store s)) as [d0 c0] eqn:Ec. cbn in *. apply Rgood; [done|]. eapply Hm; [apply Hok|exact Em].
Qed.

Lemma hsafe_read {A} (f : db → A) : hsafe (store_read f).
Proof. apply hsafe_bind; [apply hsafe_call; eauto with control|]. intros [a|e]; [apply hsafe_ret|apply hsafe_fail]. Qed.
Lemma hsafe_must {A} (m : Z → ct A) : (∀ now, respects (m now)) → hsafe (store_must m).
Proof. intros H. apply hsafe_bind; [by apply hsafe_call|]. intros [a|e]; [apply hsafe_ret|apply hsafe_fail]. Qed.
Lemma hsafe_get {A} (f : db → result CsError A) : hsafe (store_get f).
Proof. apply hsafe_bind; [apply hsafe_read|]. intros [a|e]; [apply hsafe_ret|apply hsafe_fail]. Qed.

Lemma hsafe_write s id ty payload : hsafe (writeEnvelope h s id ty payload).
Proof. intros hs Hs He. unfold writeEnvelope. destruct (BuildEnvelope _ _ _); cbn; (split; [by apply Rrefl|done]). Qed.
Lemma hsafe_sink k n ty payload : SinkLaws k → hsafe (run_sink k n ty payload).
Proof.
  intros Hk hs Hs He. unfold run_sink. pose proof (@sl_probe k Hk n ty payload (h_store hs).1 (proj1 Hs)) as G.
  destruct (HandleProbeMessage k n ty payload (h_store hs).1) as [r d]. cbn in *. split; [|done]. destruct (h_store hs). by apply Rgood.
Qed.
Lemma hsafe_status s payload : hsafe (run_status sink s payload).
Proof.
  intros hs Hs He. unfold run_status. destruct sink as [[f [g|]]|] eqn:E; try (split; [by apply Rrefl|done]).
  pose proof (@sl_status _ (Hsink _ eq_refl) g (se_nodeID s) payload (h_store hs).1 eq_refl (proj1 Hs)) as G.
  destruct (g _ _ _) as [r d]. cbn in G. destruct (h_store hs) as [d0 c0] eqn:Eh. destruct r; cbn; rewrite ?Eh; (split; [by apply Rgood|done]).
Qed.
Lemma hsafe_sequence seq : hsafe (accept_sequence seq).
Proof. intros hs Hs He. unfold accept_sequence. destruct (negb _); cbn; (split; [by apply Rrefl|done]). Qed.
Create HintDb hub.

(** [hub_walk]: split a handler into its calls. *)
Ltac hub_walk :=
  repeat first
  [ solve [auto with hub nocore] | apply hsafe_ret | apply hsafe_fail | apply hsafe_read | apply hsafe_get | apply hsafe_write | apply hsafe_status | apply hsafe_sequence
  | apply hsafe_must; intros; solve [eauto with control]
  | apply hsafe_call; intros; solve [eauto with control]
  | apply hsafe_sink; solve [eauto]
  | apply hsafe_bind; [..|intros ?x]
  | match goal with
    | |- hsafe (if ?b then _ else _) => destruct b eqn:?
    | |- hsafe (match ?o with _ => _ end) => destruct o eqn:?
    end
  | done
  | progress cbv zeta ].

Lemma hsafe_match s id ty : hsafe (matchOutboxRow s id ty).
Proof. unfold matchOutboxRow. hub_walk. Qed.
#[local] Hint Resolve hsafe_match : hub.
Lemma hsafe_match_receipt s op : hsafe (matchOutboxRowByReceiptOperationID s op).
Proof. unfold matchOutboxRowByReceiptOperationID. hub_walk. Qed.
#[local] Hint Resolve hsafe_match_receipt : hub.
Lemma hsafe_ack_step s cur : hsafe (ack_step s cur).
Proof. unfold ack_step. hub_walk. Qed.
#[local] Hint Resolve hsafe_ack_step : hub.
Lemma hsafe_ack_loop s row n : ∀ e, hsafe (ack_loop n e s row).
Proof. induction n as [|n IH]; intros e; cbn [ack_loop]; hub_walk. Qed.
#[local] Hint Resolve hsafe_ack_loop : hub.
Lemma hsafe_advance s row op : hsafe (advanceResultRow h s row op).
Proof. unfold advanceResultRow, writeReceipt. apply hsafe_bind; [apply hsafe_ack_loop|]. intros _. hub_walk. Qed.
#[local] Hint Resolve hsafe_advance : hub.
Lemma hsafe_record b s item : hsafe (record_bound b s item).
Proof. unfold record_bound. hub_walk. Qed.
#[local] Hint Resolve hsafe_record : hub.
Lemma hsafe_replay s env e : hsafe (replay_result h s env e).
Proof. unfold replay_result, writeReceipt. hub_walk. Qed.
#[local] Hint Resolve hsafe_replay : hub.
Lemma hsafe_arm s env row : hsafe (sink_arm_result sink s env row).
Proof. unfold sink_arm_result. hub_walk. Qed.
#[local] Hint Resolve hsafe_arm : hub.
Lemma hsafe_result s env : hsafe (handleAgentResult h sink s env).
Proof. unfold handleAgentResult. hub_walk. Qed.
#[local] Hint Resolve hsafe_result : hub.
Lemma hsafe_receipt_loop s env op row n : ∀ e, hsafe (receipt_loop n e s env op row).
Proof. induction n as [|n IH]; intros e; cbn [receipt_loop]; unfold ensureOutboxSemanticACKed; hub_walk. Qed.
#[local] Hint Resolve hsafe_receipt_loop : hub.
Lemma hsafe_receipt s env : hsafe (handleAgentReceipt s env).
Proof.
  unfold handleAgentReceipt, replay_receipt. hub_walk.
Qed.
#[local] Hint Resolve hsafe_receipt : hub.
Lemma hsafe_process s item : hsafe (processProbeReceipt sink s item).
Proof.
  intros hs Hs He. unfold processProbeReceipt, recordProbeReceiptInbox. destruct (hsafe_record true s item hs Hs He) as [H1 H2].
  assert (Hrest : ∀ m : hm bool, hsafe m → ∀ hs', R (h_store hs) (h_store hs') → env_ok hs' → R (h_store hs) (h_store (m hs').2) ∧ env_ok (m hs').2).
  { intros m Hm hs' H3 H4. destruct (Hm hs' (Rok _ _ H3) H4). split; [by eapply Rtrans|done]. }
  destruct (record_bound true s item hs) as [[u|[]] hs']; try done; [apply Hrest; [|done..]; hub_walk|]. by destruct e.
Qed.
#[local] Hint Resolve hsafe_process : hub.
Lemma hsafe_probe_sink s env item : hsafe (sink_probe_message sink s env item).
Proof. unfold sink_probe_message. hub_walk. Qed.
#[local] Hint Resolve hsafe_probe_sink : hub.
Lemma hsafe_armed s env : hsafe (armed_row h s env).
Proof. unfold armed_row. hub_walk. Qed.
#[local] Hint Resolve hsafe_armed : hub.
Lemma hsafe_probe s env : hsafe (handleProbePlaneMessage h sink s env).
Proof. unfold handleProbePlaneMessage, writeReceipt. hub_walk. Qed.
#[local] Hint Resolve hsafe_probe : hub.
Lemma hsafe_notice s env op : hsafe (handleAgentUninstallNotice h s env op).
Proof. unfold handleAgentUninstallNotice, writeReceipt. hub_walk. Qed.
#[local] Hint Resolve hsafe_notice : hub.
Lemma hsafe_dispatch s env : hsafe (dispatch h sink s env).
Proof. unfold dispatch. hub_walk. Qed.
#[local] Hint Resolve hsafe_dispatch : hub.

(** Every inbound frame. *)
Lemma hsafe_frame s frame : hsafe (handleInboundFrame h sink s frame).
Proof. unfold handleInboundFrame. hub_walk. Qed.
#[local] Hint Resolve hsafe_frame : hub.
Lemma hsafe_frames s frames : hsafe (frameLoop h sink s frames).
Proof. induction frames as [|f fs IH]; cbn [frameLoop]; [apply hsafe_ret|]. apply hsafe_bind; [apply hsafe_frame|done]. Qed.
#[local] Hint Resolve hsafe_frames : hub.

(** The pump. *)
Lemma hsafe_pump_item s item : hsafe (pump_item h s item).
Proof. unfold pump_item. hub_walk. Qed.
#[local] Hint Resolve hsafe_pump_item : hub.
Lemma hsafe_pump s clock : hsafe (pump_tick h s clock).
Proof.
  unfold pump_tick. apply hsafe_bind; [apply hsafe_must; intros; unfold ClaimControlOutboxOwned; eauto with control|]. intros items.
  induction items as [|x l IH]; cbn [pump_items]; [apply hsafe_ret|]. apply hsafe_bind; [apply hsafe_pump_item|done].
Qed.
#[local] Hint Resolve hsafe_pump : hub.
End Safe.
