(* ===== verification/HubProps.v ===== *)
(** * What the agent hub guarantees *)

From Stdlib Require Import ZArith Lia Strings.Byte Sorted.
From stdpp Require Import base tactics list sets strings option relations.
From S2P Require Import Prelude GoStd Frame Envelope Probe Sql Control ControlProofs ControlCleanup ControlProps ControlOwners Hub HubProofs.

Open Scope Z_scope.

(** ** The store under the hub *)

Section Store.
Context {crypto : Crypto} {json : HubJson}.

(** With any interference. *)
Definition outbox_le (st st' : cstate) : Prop :=
  st_ok st' ∧ (∀ op ty, rtc ofsm (outbox_view st.1 op ty) (outbox_view st'.1 op ty)) ∧ (∀ n, node_le (node_row st.1 n) (node_row st'.1 n)).

Lemma outbox_le_refl st : st_ok st → outbox_le st st.
Proof. intros H. split; [done|]. split; [reflexivity|intros; apply node_le_refl]. Qed.
Lemma outbox_le_trans a b c : outbox_le a b → outbox_le b c → outbox_le a c.
Proof. intros (_ & H1 & H2) (H3 & H4 & H5). split; [done|]. split; [intros op ty; etrans; [apply H1|apply H4]|intros n; eapply node_le_trans; [apply H2|apply H5]]. Qed.
Lemma outbox_le_good d c d' : st_ok (d, c) → good d d' → outbox_le (d, c) (d', c).
Proof. intros [_ Hc] [G1 G2 G3 G4]. split; [by split|]. by split. Qed.
Lemma outbox_le_run es st : st_ok st → outbox_le st (crun es st).
Proof.
  intros Hst. split; [by apply crun_ok|]. split; [|intros; by apply crun_nodes]. intros op ty.
  apply (crun_ind (λ st st', rtc ofsm (outbox_view st.1 op ty) (outbox_view st'.1 op ty)));
    [intros x; reflexivity|intros x y z ? ?; by etrans|intros e s Hs; by apply cstep_outbox|done].
Qed.

(** With interference by commands only, inbox messages are kept as well. *)
Definition inbox_le (st st' : cstate) : Prop := st_ok st' ∧ ∀ m, rtc ifsm (inbox_view st.1 m) (inbox_view st'.1 m).
Lemma inbox_le_refl st : st_ok st → inbox_le st st.
Proof. intros H. split; [done|intros m; apply rtc_refl]. Qed.
Lemma inbox_le_trans a b c : inbox_le a b → inbox_le b c → inbox_le a c.
Proof. intros (_ & H1) (H2 & H3). split; [done|]. intros m; etrans; [apply H1|apply H3]. Qed.
Lemma inbox_le_good d c d' : st_ok (d, c) → good d d' → inbox_le (d, c) (d', c).
Proof. intros [_ Hc] [G1 G2 G3 G4]. split; [by split|]. done. Qed.
Lemma inbox_le_run es st : st_ok st → Forall is_command es → inbox_le st (crun es st).
Proof. intros Hst Hes. split; [by apply crun_ok|]. intros m. by apply crun_commands_inbox. Qed.
End Store.

(** ** A session's work *)

Inductive haction : Type := DoFrame (frame : bytes) | DoPump (clock : Z).

Section Props.
Context {crypto : Crypto} {json : HubJson} (h : HubConfig) (sink : option Sink).

(** A failing frame or tick ends in the session's close, which needs no more store
    calls of this session; the sequence continues with the next action anyway. *)
Definition hact (s : ControlSession) (hs : hstate) (a : haction) : hstate :=
  match a with
  | DoFrame frame => (handleInboundFrame h sink s frame hs).2
  | DoPump clock => (pump_tick h s clock hs).2
  end.
Definition hrun (s : ControlSession) (acts : list haction) (hs : hstate) : hstate := foldl (hact s) hs acts.

(** C4: whatever frames an agent sends and however the pump, the other sessions, the
    recovery workers and the cleanup interleave with the handlers' store calls, the
    control tables stay well formed, every outbox row moves only along its automaton
    and no node's epoch decreases; the probe sink only has to respect the same. *)
Theorem hub_refines_outbox (s : ControlSession) (acts : list haction) (hs : hstate) :
  (∀ k, sink = Some k → SinkLaws k) → st_ok (h_store hs) → outbox_le (h_store hs) (h_store (hrun s acts hs)).
Proof.
  intros Hsink. revert hs. induction acts as [|a acts IH]; intros hs Hs; [by apply outbox_le_refl|]. cbn.
  assert (Ha : outbox_le (h_store hs) (h_store (hact s hs a))).
  { assert (He : env_ok (λ _, True) hs) by (apply Forall_true; intros; by apply Forall_true).
    destruct a as [frame|clock]; cbn [hact].
    - apply (hsafe_frame h sink (λ _, True) outbox_le outbox_le_refl outbox_le_trans (λ a b H, proj1 H) outbox_le_good
        (λ es st H _, outbox_le_run es st H) Hsink s frame hs Hs He).
    - apply (hsafe_pump h (λ _, True) outbox_le outbox_le_refl outbox_le_trans (λ a b H, proj1 H) outbox_le_good
        (λ es st H _, outbox_le_run es st H) s clock hs Hs He). }
  eapply outbox_le_trans; [exact Ha|]. by apply IH, Ha.
Qed.

(** ** A superseded session *)

(** The first store call of a frame sees the interference that came before it. *)
Definition first_store (hs : hstate) : cstate := crun (default (0, []) (head (h_env hs))).2 (h_store hs).

(** The node has passed to a later owner. *)
Definition superseded (o : ControlOwner) (d : db) : Prop :=
  ∃ row, node_row d (ow_NodeID o) = Some row ∧ ow_ConnectionEpoch o < nd_epoch row.
Lemma superseded_run o es st : st_ok st → superseded o st.1 → superseded o (crun es st).1.
Proof.
  intros Hok (row & Hrow & Hlt). pose proof (crun_nodes es st (ow_NodeID o) Hok) as Hle. rewrite Hrow in Hle.
  destruct (node_row (crun es st).1 (ow_NodeID o)) as [row'|] eqn:E; [|done]. exists row'. split; [done|]. cbn in Hle. lia.
Qed.
Lemma superseded_owns o d : db_ok d → superseded o d → owns o (ow_NodeID o) d = false.
Proof. intros Hd (row & Hrow & Hlt). eapply owns_current; [done|exact Hrow|lia]. Qed.

(** What an action of a superseded session does: it brings in what others did, at most. *)
Record inert (hs hs' : hstate) : Prop := {
  in_store : h_store hs' = h_store hs ∧ h_env hs' = h_env hs ∨ h_store hs' = first_store hs;
  in_wire : h_wire hs' = h_wire hs;
  in_sunk : h_sunk hs' = h_sunk hs;
  in_seq : h_inSeq hs' = h_inSeq hs
}.
Lemma inert_refl hs : inert hs hs.
Proof. split; [by left|done..]. Qed.
Lemma fenced_err {A} o (m : ct A) d : (∀ r d', m d ≠ Ok (r, d')) → ∃ e, fenced o m d = Err e.
Proof. intros H. unfold fenced. destruct (validateOwner o); [|eauto]. destruct (_ <=? _); [eauto|]. destruct (m d) as [[r d']|e] eqn:E; [by destruct (H r d')|eauto]. Qed.

Lemma frame_inert s frame hs : owns (se_owner s) (ow_NodeID (se_owner s)) (first_store hs).1 = false →
  is_ok (handleInboundFrame h sink s frame hs).1 = false ∧ inert hs (handleInboundFrame h sink s frame hs).2.
Proof.
  intros Ho. unfold handleInboundFrame. destruct (ParseEnvelope _ _) as [env|e]; [|split; [done|apply inert_refl]]. cbv zeta.
  repeat (match goal with |- context [if ?b then hfail _ else _] => destruct b; [split; [done|apply inert_refl]|] end).
  unfold hbind at 1 3. unfold store_must, hbind at 1 3. unfold store_call. unfold first_store in Ho. destruct (default (0, []) (head (h_env hs))) as [now es] eqn:E.
  cbn [snd] in *. assert (Hreq : ∃ e, RequireCurrentControlOwner (se_owner s) (crun es (h_store hs)).1 = Err e).
  { apply fenced_err. intros r d'. unfold sql_bind, sql_read. by rewrite Ho. }
  destruct Hreq as [e ->]. cbn. split; [done|]. split; cbn; try done. right. unfold first_store. by rewrite E.
Qed.

Lemma claim_inert clock now o limit d : owns o (ow_NodeID o) d = false →
  (∃ e, ClaimControlOutboxOwned clock now o limit d = Err e) ∨ ClaimControlOutboxOwned clock now o limit d = Ok ([], d).
Proof.
  intros Ho. unfold ClaimControlOutboxOwned, claimControlOutbox, fenced. destruct (validateOwner o); [|eauto]. destruct (_ <=? _); [eauto|]. right.
  unfold sql_bind, sql_read. cbv zeta. match goal with |- context [sql_select ?w (t_outbox d)] => assert (E : sql_select w (t_outbox d) = []) end.
  { apply elem_of_nil_inv. intros r [_ Hw]%in_sql_select. bool_split. str_eqs. cbn [negb orb] in *. congruence. }
  rewrite E, take_nil. reflexivity.
Qed.
Lemma pump_inert s clock hs : owns (se_owner s) (ow_NodeID (se_owner s)) (first_store hs).1 = false → inert hs (pump_tick h s clock hs).2.
Proof.
  intros Ho. unfold pump_tick, hbind at 1. unfold store_must, hbind at 1. unfold store_call. unfold first_store in Ho.
  destruct (default (0, []) (head (h_env hs))) as [now es] eqn:E. cbn [snd] in *.
  destruct (claim_inert clock now (se_owner s) outboxClaimLimit _ Ho) as [[e ->]| ->]; (split; [|done..]); right; unfold first_store; rewrite E; [done|].
  change (((crun es (h_store hs)).1, (crun es (h_store hs)).2) = crun es (h_store hs)). by destruct (crun es (h_store hs)).
Qed.

(** C20: a superseded session is shut out.  Once the node has passed to a later owner, as the
    session's next store call will see it, then whatever frames and pump ticks it still goes
    on to handle and however other actors interleave, every frame fails, nothing is sent or
    given to the sink, the sequence does not advance, and the store is what the other actors'
    commands alone make of it.  (A frame already past its owner check is not such a frame.) *)
Theorem superseded_session_rejected (s : ControlSession) (acts : list haction) (hs : hstate) :
  st_ok (h_store hs) → superseded (se_owner s) (first_store hs).1 →
  let hs' := hrun s acts hs in
  (∃ es, h_store hs' = crun es (h_store hs)) ∧ h_wire hs' = h_wire hs ∧ h_sunk hs' = h_sunk hs ∧ h_inSeq hs' = h_inSeq hs ∧
  ∀ frame, is_ok (handleInboundFrame h sink s frame hs').1 = false.
Proof.
  revert hs. induction acts as [|a acts IH]; intros hs Hok Hsup hs'; subst hs'.
  - cbn. split_and!; [by exists []|done..|]. intros frame. apply frame_inert, superseded_owns; [by apply crun_ok|done].
  - change (hrun s (a :: acts) hs) with (hrun s acts (hact s hs a)). cbv zeta. assert (Ho : owns (se_owner s) (ow_NodeID (se_owner s)) (first_store hs).1 = false) by (apply superseded_owns; [by apply crun_ok|done]).
    assert (Hi : inert hs (hact s hs a)) by (destruct a; [by apply frame_inert|by apply pump_inert]). destruct Hi as [Hst Hw Hk Hq]. set (hs1 := hact s hs a) in *.
    assert (Hok1 : st_ok (h_store hs1)) by (destruct Hst as [[-> _]| ->]; [done|by apply crun_ok]).
    assert (Hsup1 : superseded (se_owner s) (first_store hs1).1).
    { destruct Hst as [[H1 H2]|H1]; [unfold first_store; rewrite H1, H2; exact Hsup|]. unfold first_store at 1. apply superseded_run; [done|]. rewrite H1. exact Hsup. }
    destruct (IH hs1 Hok1 Hsup1) as ((es & Hes) & Hw1 & Hk1 & Hq1 & Hf). split_and!; [|congruence..|exact Hf].
    destruct Hst as [[H1 _]|H1]; rewrite H1 in Hes; [by exists es|]. eexists. unfold first_store in Hes. rewrite <- crun_app in Hes. exact Hes.
Qed.

(** ** Receipts follow durable records *)

(** A message is durable: its inbox row carries its node, type and payload, and its
    operation binding when it has one. *)
Definition recorded (item : ControlInboxItem) (d : db) : Prop :=
  ∃ r, inbox_row d (ii_MessageID item) = Some r ∧ ib_node r = ii_NodeID item ∧ ib_type r = ii_MessageType item ∧
    ib_payload r = ii_SemanticPayload item ∧ (ii_OperationID item ≠ ""%string → coalesce (ib_operation r) = ii_OperationID item).

Lemma recorded_le item st st' : inbox_le st st' → recorded item st.1 → recorded item st'.1.
Proof.
  intros [_ Hle] (r & Hr & Hn & Ht & Hp & Hop). specialize (Hle (ii_MessageID item)). unfold inbox_view at 1 in Hle. rewrite Hr in Hle. cbn in Hle.
  apply ifsm_some in Hle as (v & Hv & Hm). apply inbox_view_row in Hv as (r' & Hr' & ->). exists r'. split; [done|].
  unfold imonotone, iview, ib_material in Hm. destruct Hm as ([= _ H1 H2 H3] & H4 & _). split_and!; try congruence.
  intros Hne. rewrite H4; [auto|]. by rewrite Hop.
Qed.

Lemma record_owned_recorded now o item d dup d' : RecordControlInboxOwned now o item d = Ok (dup, d') → recorded item d'.
Proof.
  unfold RecordControlInboxOwned, withControlOwnerImmediate, fenced. intros H. sql_walk H. clear -H. unfold record_inbox, sql_bind, sql_read in H.
  destruct (sql_row _ _) as [r|] eqn:Er.
  - destruct (_ || _ || _ || _) eqn:E; [done|]. injection H as _ <-. exists r. rewrite !orb_false_iff, !negb_false_iff, !String.eqb_eq in E.
    destruct E as [[[? ?] ?] ?]. done.
  - injection H as _ <-. eexists. split; [unfold inbox_row; cbn; rewrite sql_row_app, Er; unfold sql_row, ib_at; cbn; by rewrite String.eqb_refl|done].
Qed.

(** The message without its operation binding. *)
Definition unbound_item (item : ControlInboxItem) : ControlInboxItem :=
  mkInboxItem (ii_MessageID item) (ii_NodeID item) (ii_MessageType item) "" (ii_SemanticPayload item) (ii_State item).

Lemma read_recorded item x d :
  ControlInboxItemByMessageID d (ii_MessageID item) = Ok x → same_material x item = true → recorded (unbound_item item) d.
Proof.
  intros Hx Hm. unfold ControlInboxItemByMessageID in Hx. destruct (sql_row (ib_at (ii_MessageID item)) (t_inbox d)) as [r|] eqn:Er; [|done].
  injection Hx as <-. unfold same_material in Hm. cbn in Hm. bool_split. str_eqs. by exists r.
Qed.

Lemma bind_owned_recorded now o item d u d' :
  db_ok d → BindControlInboxOperationIDOwned now o (ii_MessageID item) (ii_OperationID item) d = Ok (u, d') →
  recorded (unbound_item item) d → recorded item d'.
Proof.
  intros Hd H (r & Er & Hn & Ht & Hp & _). unfold inbox_row in Er. cbn in Er, Hn, Ht, Hp.
  pose proof (sql_row_Some _ _ _ Er) as [Hin Hat].
  unfold BindControlInboxOperationIDOwned, withControlOwnerImmediate, fenced in H.
  assert (Hup : ∀ w, (w r = false → coalesce (ib_operation r) = ii_OperationID item) →
    recorded item (set_inbox d (sql_update w (ib_bind (ii_OperationID item) now) (t_inbox d)))).
  { intros w Hw. exists (if w r then ib_bind (ii_OperationID item) now r else r). unfold inbox_row. cbn. rewrite sql_row_update by done. rewrite Er.
    split; [done|]. destruct (w r) eqn:Ew; [done|]. split_and!; auto. }
  sql_walk H; apply Hup; intros Hw.
  - exfalso. match goal with E : (sql_count _ _ =? 1)%nat = true |- _ => apply Nat.eqb_eq in E; destruct (sql_count_pos _ _ ltac:(rewrite E; done)) as (y & Hy & Hwy) end.
    assert (y = r) as ->; [|congruence]. apply ib_at_key in Hat. bool_split. apply (unique_inj ib_message (t_inbox d)); [apply Hd|done|done|].
    rewrite Hat. by apply ib_at_key.
  - injection Er as ->. by apply String.eqb_eq.
Qed.

(** A handler's state with interference by commands only. *)
Definition hpre (hs : hstate) : Prop := st_ok (h_store hs) ∧ env_ok is_command hs.
Definition hle (hs hs' : hstate) : Prop := inbox_le (h_store hs) (h_store hs') ∧ env_ok is_command hs'.

Lemma hle_pre hs hs' : hle hs hs' → hpre hs'.
Proof. intros [[H _] He]. by split. Qed.
Lemma hle_trans a b c : hle a b → hle b c → hle a c.
Proof. intros [H1 _] [H2 H3]. split; [by eapply inbox_le_trans|done]. Qed.
Lemma hle_recorded item hs hs' : hle hs hs' → recorded item (h_store hs).1 → recorded item (h_store hs').1.
Proof. intros [H _]. by apply recorded_le. Qed.

Lemma call_le {A} (m : Z → ct A) hs : (∀ now, respects (m now)) → hpre hs → hle hs (store_call m hs).2.
Proof.
  intros Hm [H1 H2]. apply (hsafe_call is_command inbox_le inbox_le_trans (λ a b H, proj1 H) inbox_le_good inbox_le_run m Hm hs H1 H2).
Qed.

(** What a call saw. *)
Lemma call_inv {A} (m : Z → ct A) hs r hs' :
  hpre hs → store_call m hs = (Ok r, hs') →
  ∃ now st, inbox_le (h_store hs) st ∧ h_wire hs' = h_wire hs ∧ h_sunk hs' = h_sunk hs ∧ env_ok is_command hs' ∧
    match r with Ok a => ∃ d, m now st.1 = Ok (a, d) ∧ h_store hs' = (d, st.2) | Err e => m now st.1 = Err e ∧ h_store hs' = st end.
Proof.
  intros [Hs He]. unfold store_call. destruct (default (0, []) (head (h_env hs))) as [now es] eqn:E. intros H.
  assert (Hes : Forall is_command es ∧ Forall (λ x, Forall is_command x.2) (tail (h_env hs))).
  { unfold env_ok in He. destruct (h_env hs) as [|[n e] l]; cbn in *; [by injection E as <- <-|]. injection E as -> ->. by apply list.Forall_cons in He. }
  exists now, (crun es (h_store hs)). split; [apply inbox_le_run; [done|apply Hes]|].
  destruct (m now (crun es (h_store hs)).1) as [[a d]|e] eqn:Em; injection H as <- <-; cbn; (split; [done|]); (split; [done|]); (split; [apply Hes|]).
  - by exists d.
  - done.
Qed.

Lemma read_inv {A} (f : db → A) hs a hs' :
  hpre hs → store_read f hs = (Ok a, hs') → hle hs hs' ∧ h_wire hs' = h_wire hs ∧ h_sunk hs' = h_sunk hs ∧ a = f (h_store hs').1.
Proof.
  intros Hp H. unfold store_read, hbind in H. pose proof (call_le (λ _, sql_read f) hs ltac:(intros; apply resp_read) Hp) as Hle.
  destruct (store_call (λ _, sql_read f) hs) as [[r|e] hs1] eqn:E; [|done]. cbn in Hle. destruct (call_inv _ _ _ _ Hp E) as (now & st & _ & Hw & Hk & _ & Hr).
  destruct r as [x|e]; [|done]. injection H as -> ->. destruct Hr as (d & [= <- <-] & Hst). rewrite Hst. done.
Qed.

Lemma record_bound_recorded b s item hs hs' : hpre hs → record_bound b s item hs = (Ok tt, hs') → recorded item (h_store hs').1.
Proof.
  intros Hp H. unfold record_bound in H. unfold hbind at 1 in H.
  pose proof (call_le (λ now, RecordControlInboxOwned now (se_owner s) item) hs ltac:(intros; apply resp_record_owned) Hp) as Hle.
  destruct (store_call _ hs) as [[r|e] hs1] eqn:E; [|done]. destruct (call_inv _ _ _ _ Hp E) as (now & st & _ & _ & _ & _ & Hr). cbn in Hle. destruct r as [dup|e].
  { injection H as <-. destruct Hr as (d & Hrec & ->). by eapply record_owned_recorded. }
  clear Hr. destruct (b && _); [done|]. unfold hbind at 1 in H. destruct (store_read _ hs1) as [[x|e'] hs2] eqn:E2; [|done].
  destruct (read_inv _ _ _ _ (hle_pre _ _ Hle) E2) as (Hle2 & _ & _ & Hx). destruct x as [x|e']; [|done]. destruct (negb _ || _) eqn:Em; [done|].
  apply orb_false_iff in Em as [Hm%negb_false_iff Hop]. symmetry in Hx. destruct (String.eqb (ii_OperationID x) "") eqn:Eop.
  - unfold store_must in H. unfold hbind at 1 in H. destruct (store_call _ hs2) as [[r|e'] hs3] eqn:E3; [|done]. destruct r as [u|e']; [|done].
    destruct (call_inv _ _ _ _ (hle_pre _ _ Hle2) E3) as (now2 & st2 & Hle3 & _ & _ & _ & d & Hbind & Hst). injection H as _ <-. rewrite Hst. cbn.
    eapply bind_owned_recorded; [apply (proj1 Hle3)|exact Hbind|]. eapply recorded_le; [exact Hle3|]. by eapply read_recorded.
  - injection H as <-. unfold ControlInboxItemByMessageID in Hx. destruct (sql_row _ (t_inbox (h_store hs2).1)) as [r|] eqn:Er; [|done]. injection Hx as <-.
    unfold same_material in Hm. cbn [negb andb] in Hop. apply negb_false_iff, String.eqb_eq in Hop. cbn in Hm, Hop.
    bool_split. str_eqs. by exists r.
Qed.

(** *** Silent calls *)

Definition silent {A} (m : hm A) : Prop := ∀ hs, h_wire (m hs).2 = h_wire hs.

Lemma silent_bind {A C} (m : hm A) (k : A → hm C) : silent m → (∀ a, silent (k a)) → silent (hbind m k).
Proof. intros Hm Hk hs. unfold hbind. specialize (Hm hs). destruct (m hs) as [[a|e] hs1]; cbn in *; [|done]. by rewrite Hk. Qed.
Lemma silent_ret {A} (a : A) : silent (hret a).
Proof. done. Qed.
Lemma silent_fail {A} e : silent (A := A) (hfail e).
Proof. done. Qed.
Lemma silent_call {A} (m : Z → ct A) : silent (store_call m).
Proof. intros hs. unfold store_call. destruct (default _ _) as [now es]. by destruct (m now _) as [[a d]|e]. Qed.
Lemma silent_sink k n ty payload : silent (run_sink k n ty payload).
Proof. intros hs. unfold run_sink. by destruct (HandleProbeMessage _ _ _ _ _). Qed.
End Props.

Create HintDb silent.
#[export] Hint Resolve silent_ret silent_fail silent_call silent_sink : silent.

Ltac silent_walk :=
  repeat first
  [ solve [auto with silent nocore]
  | apply silent_bind; [..|intros ?x]
  | match goal with
    | |- silent (if ?b then _ else _) => destruct b eqn:?
    | |- silent (match ?o with _ => _ end) => destruct o eqn:?
    end
  | progress cbv zeta ].

Section Receipts.
Context {crypto : Crypto} {json : HubJson} (h : HubConfig) (sink : option Sink).

Lemma silent_read {A} (f : db → A) : silent (store_read f).
Proof. unfold store_read. silent_walk. Qed.
#[local] Hint Resolve silent_read : silent.
Lemma silent_match s id ty : silent (matchOutboxRow s id ty).
Proof. unfold matchOutboxRow. silent_walk. Qed.
Lemma silent_record b s item : silent (record_bound b s item).
Proof. unfold record_bound, store_must. silent_walk. Qed.
Lemma silent_ack_step s cur : silent (ack_step s cur).
Proof. unfold ack_step. silent_walk. Qed.
#[local] Hint Resolve silent_ack_step : silent.
Lemma silent_ack s row n : ∀ e, silent (ack_loop n e s row).
Proof. induction n as [|n IH]; intros e; cbn [ack_loop]; silent_walk. Qed.
Lemma silent_arm s env row : silent (sink_arm_result sink s env row).
Proof. unfold sink_arm_result. silent_walk. Qed.

(** What a write adds to the wire. *)
Lemma receipt_inv s op hs :
  let hs' := (writeReceipt h s op hs).2 in
  h_store hs' = h_store hs ∧
  (h_wire hs' = h_wire hs ∨
   h_wire hs' = h_wire hs ++ [mkSent (out_header h s ((h_outSeq hs + 1) mod 2 ^ 64) (MessageID op "message_receipt") "message_receipt") (receipt_payload op)]).
Proof.
  unfold writeReceipt, writeEnvelope. destruct (BuildEnvelope _ _ _) as [f|e]; cbn; [|by split; [|left]]. split; [done|].
  destruct (default true _); [by right|by left].
Qed.

Lemma safe_le {A} (m : hm A) hs : hsafe is_command inbox_le m → hpre hs → hle hs (m hs).2.
Proof. intros Hm [H1 H2]. exact (Hm hs H1 H2). Qed.

Context (Hsink : ∀ k, sink = Some k → SinkLaws k).

Lemma safe_match s id ty : hsafe is_command inbox_le (matchOutboxRow s id ty).
Proof. apply hsafe_match; eauto using inbox_le_refl, inbox_le_trans, inbox_le_good, inbox_le_run. by intros ?? [? _]. Qed.
Lemma safe_record b s item : hsafe is_command inbox_le (record_bound b s item).
Proof. apply hsafe_record; eauto using inbox_le_refl, inbox_le_trans, inbox_le_good, inbox_le_run. by intros ?? [? _]. Qed.
Lemma safe_ack s row n e : hsafe is_command inbox_le (ack_loop n e s row).
Proof. apply hsafe_ack_loop; eauto using inbox_le_refl, inbox_le_trans, inbox_le_good, inbox_le_run. by intros ?? [? _]. Qed.
Lemma safe_arm s env row : hsafe is_command inbox_le (sink_arm_result sink s env row).
Proof. apply hsafe_arm; eauto using inbox_le_refl, inbox_le_trans, inbox_le_good, inbox_le_run. by intros ?? [? _]. Qed.

Lemma safe_must {A} (m : Z → ct A) : (∀ now, respects (m now)) → hsafe is_command inbox_le (store_must m).
Proof. apply hsafe_must; eauto using inbox_le_refl, inbox_le_trans, inbox_le_good, inbox_le_run. by intros ?? [? _]. Qed.
Lemma safe_read {A} (f : db → A) : hsafe is_command inbox_le (store_read f).
Proof. apply hsafe_read; eauto using inbox_le_refl, inbox_le_trans, inbox_le_good, inbox_le_run. by intros ?? [? _]. Qed.
Lemma safe_ret {A} (a : A) : hsafe is_command inbox_le (hret a).
Proof. apply hsafe_ret; eauto using inbox_le_refl. Qed.
Lemma safe_process s item : hsafe is_command inbox_le (processProbeReceipt sink s item).
Proof. apply hsafe_process; eauto using inbox_le_refl, inbox_le_trans, inbox_le_good, inbox_le_run. by intros ?? [? _]. Qed.
Lemma safe_probe_sink s env item : hsafe is_command inbox_le (sink_probe_message sink s env item).
Proof. apply hsafe_probe_sink; eauto using inbox_le_refl, inbox_le_trans, inbox_le_good, inbox_le_run. by intros ?? [? _]. Qed.
Lemma safe_sequence seq : hsafe is_command inbox_le (accept_sequence seq).
Proof. apply hsafe_sequence; eauto using inbox_le_refl. Qed.

Lemma silent_must {A} (m : Z → ct A) : silent (store_must m).
Proof. unfold store_must. silent_walk. Qed.
Lemma silent_get {A} (f : db → result CsError A) : silent (store_get f).
Proof. unfold store_get. silent_walk. Qed.
#[local] Hint Resolve silent_must silent_get silent_ack silent_record : silent.
Lemma silent_process s item : silent (processProbeReceipt sink s item).
Proof.
  intros hs. unfold processProbeReceipt, recordProbeReceiptInbox. pose proof (silent_record true s item hs) as Hr.
  destruct (record_bound true s item hs) as [[u|e] hs1]; cbn in Hr; [|destruct e as [| | | | | | |[]| | | | |]; exact Hr]. rewrite <- Hr. clear Hr. revert hs1.
  match goal with |- ∀ hs1, h_wire (?m hs1).2 = _ => assert (Hm : silent m) by silent_walk; exact Hm end.
Qed.
Lemma silent_probe_sink s env item : silent (sink_probe_message sink s env item).
Proof. unfold sink_probe_message. silent_walk. Qed.
Lemma silent_receipt_loop s env op row n : ∀ e, silent (receipt_loop n e s env op row).
Proof. induction n as [|n IH]; intros e; cbn [receipt_loop]; unfold ensureOutboxSemanticACKed; silent_walk. Qed.
#[local] Hint Resolve silent_receipt_loop : silent.
Lemma silent_receipt s env : silent (handleAgentReceipt s env).
Proof. unfold handleAgentReceipt, matchOutboxRowByReceiptOperationID, replay_receipt. silent_walk. Qed.
Lemma silent_status s payload : silent (run_status sink s payload).
Proof. intros hs. unfold run_status. destruct sink as [[f [g|]]|]; try done. destruct (g _ _ _) as [r d]. by destruct r. Qed.
Lemma silent_sequence seq : silent (accept_sequence seq).
Proof. intros hs. unfold accept_sequence. by destruct (negb _). Qed.

Lemma safe_bind {A C} (m : hm A) (k : A → hm C) :
  hsafe is_command inbox_le m → (∀ a, hsafe is_command inbox_le (k a)) → hsafe is_command inbox_le (hbind m k).
Proof. apply hsafe_bind; eauto using inbox_le_trans. by intros ?? [? _]. Qed.
Lemma safe_fail {A} e : hsafe is_command inbox_le (hfail (A := A) e).
Proof. apply hsafe_fail; eauto using inbox_le_refl. Qed.
Lemma safe_call {A} (m : Z → ct A) : (∀ now, respects (m now)) → hsafe is_command inbox_le (store_call m).
Proof. apply hsafe_call; eauto using inbox_le_trans, inbox_le_good, inbox_le_run. by intros ?? [? _]. Qed.
Lemma safe_sink k n ty payload : sink = Some k → hsafe is_command inbox_le (run_sink k n ty payload).
Proof. intros Hk. apply hsafe_sink; eauto using inbox_le_good. Qed.

(** What a message is recorded as before its receipt goes out: bound to the operation the
    receipt names, except [probe_armed], which is recorded with no operation. *)
Definition ack_item (s : ControlSession) (env : Envelope) (op : string) : ControlInboxItem :=
  inbox_item s env (if String.eqb (ph_MessageType (env_Header env)) "probe_armed" then "" else op).
Lemma recorded_unbound s env op d : recorded (inbox_item s env op) d → recorded (inbox_item s env "") d.
Proof. intros (r & H1 & H2 & H3 & H4 & _). exists r. by split_and!. Qed.
Lemma recorded_ack s env op d : recorded (inbox_item s env op) d → recorded (ack_item s env op) d.
Proof. unfold ack_item. destruct (String.eqb _ _); [apply recorded_unbound|done]. Qed.

(** The outcome of a handler: nothing was sent, or one receipt of a recorded message. *)
Definition receipted (s : ControlSession) (env : Envelope) (wire : list Sent) (hs' : hstate) : Prop :=
  h_wire hs' = wire ∨
  ∃ op seq, h_wire hs' = wire ++ [mkSent (out_header h s seq (MessageID op "message_receipt") "message_receipt") (receipt_payload op)] ∧
    recorded (ack_item s env op) (h_store hs').1.

Lemma write_receipted s env op hs wire :
  h_wire hs = wire → recorded (ack_item s env op) (h_store hs).1 → receipted s env wire (writeReceipt h s op hs).2.
Proof.
  intros <- Hrec. destruct (receipt_inv s op hs) as [Hst [Hw|Hw]]; [by left|]. right. eexists op, _. split; [exact Hw|]. by rewrite Hst.
Qed.

(** A call that sends nothing, and then the rest. *)
Lemma then_receipted {A} (m : hm A) (k : A → hm unit) s env hs wire :
  hsafe is_command inbox_le m → silent m → hpre hs → h_wire hs = wire →
  (∀ a hs1, m hs = (Ok a, hs1) → hle hs hs1 → h_wire hs1 = wire → receipted s env wire (k a hs1).2) → receipted s env wire (hbind m k hs).2.
Proof.
  intros Hm Hs Hp Hw Hk. unfold hbind. pose proof (safe_le m hs Hm Hp) as Hle. specialize (Hs hs). rewrite Hw in Hs.
  destruct (m hs) as [[a|e] hs1]; cbn in Hle, Hs; [by apply Hk|by left].
Qed.

Lemma must_recorded o item hs dup hs' : hpre hs → store_must (λ now, RecordControlInboxOwned now o item) hs = (Ok dup, hs') → recorded item (h_store hs').1.
Proof.
  intros Hp. unfold store_must, hbind. destruct (store_call _ hs) as [[r|e] hs1] eqn:E; [|done]. destruct (call_inv _ _ _ _ Hp E) as (now & st & _ & _ & _ & _ & Hr).
  destruct r as [b|e]; [|done]. intros [= _ <-]. destruct Hr as (d & Hr & ->). by eapply record_owned_recorded.
Qed.

Lemma advance_receipted s env row op hs wire : hpre hs → h_wire hs = wire → recorded (ack_item s env op) (h_store hs).1 →
  receipted s env wire (advanceResultRow h s row op hs).2.
Proof.
  intros Hp Hw Hr. unfold advanceResultRow, ensureOutboxSemanticACKed. apply then_receipted; [apply safe_ack|apply silent_ack|done..|].
  intros [] hs1 _ Hle Hw1. apply write_receipted; [done|]. by apply (hle_recorded _ _ _ Hle).
Qed.

Lemma replay_receipted s env e hs : hpre hs → receipted s env (h_wire hs) (replay_result h s env e hs).2.
Proof.
  intros Hp. unfold replay_result, hbind. destruct (store_read _ hs) as [[x|e'] hs1] eqn:E;
    [|left; pose proof (silent_read (λ d, ControlInboxItemByMessageID d (ii_MessageID (inbox_item s env ""))) hs) as Hw; by rewrite E in Hw].
  destruct (read_inv _ _ _ _ Hp E) as (Hle & Hw & _ & Hx). symmetry in Hx. destruct x as [x|e']; [|left; exact Hw].
  destruct (same_material x _) eqn:Em; [|left; exact Hw]. cbn [negb]. destruct (String.eqb (ii_OperationID x) "") eqn:Eop; [left; exact Hw|]. destruct (String.eqb (ii_State x) ControlInboxNacked); [left; exact Hw|].
  destruct (_ || _); [|left; exact Hw]. apply write_receipted; [done|]. apply recorded_ack. unfold ControlInboxItemByMessageID in Hx.
  destruct (sql_row _ (t_inbox (h_store hs1).1)) as [r|] eqn:Er; [|done]. injection Hx as <-. unfold same_material in Em. cbn in Em. bool_split. str_eqs. by exists r.
Qed.

Lemma result_receipted s env hs : hpre hs → receipted s env (h_wire hs) (handleAgentResult h sink s env hs).2.
Proof.
  intros Hp. unfold handleAgentResult. apply then_receipted; [apply safe_match|apply silent_match|done..|].
  intros m hs1 _ Hle Hw. apply hle_pre in Hle. destruct m as [[row agentOp]|e]; [|destruct e; try (by left); rewrite <- Hw; by apply replay_receipted].
  set (item := inbox_item s env agentOp). apply then_receipted; [apply safe_record|apply silent_record|done..|].
  intros [] hs2 Erec Hle2 Hw2. pose proof (record_bound_recorded _ _ _ _ _ Hle Erec) as Hrec. apply hle_pre in Hle2.
  apply then_receipted; [apply safe_read|apply silent_read|done..|]. intros st hs3 _ Hle3 Hw3. apply (hle_recorded _ _ _ Hle3) in Hrec. apply hle_pre in Hle3.
  destruct st as [state|e]; [|by left]. destruct (String.eqb state ControlInboxNacked); [by left|]. destruct (_ && _); [by left|].
  apply then_receipted; [destruct (_ && _); [apply safe_arm|apply safe_ret]|destruct (_ && _); [apply silent_arm|apply silent_ret]|done..|].
  intros go hs4 _ Hle4 Hw4. destruct go; [|by left]. apply advance_receipted; [by eapply hle_pre|done|]. apply recorded_ack. by apply (hle_recorded _ _ _ Hle4).
Qed.

(** A probe receipt that may be acknowledged is recorded. *)
Lemma process_recorded s item hs hs' : hpre hs → processProbeReceipt sink s item hs = (Ok true, hs') → recorded item (h_store hs').1.
Proof.
  intros Hp. unfold processProbeReceipt, recordProbeReceiptInbox. pose proof (safe_le _ hs (safe_record true s item) Hp) as Hle.
  destruct (record_bound true s item hs) as [[[]|e] hs1] eqn:Er; cbn in Hle; [|by destruct e as [| | | | | | |[]| | | | |]].
  apply (record_bound_recorded _ _ _ _ _ Hp) in Er. apply hle_pre in Hle.
  match goal with |- ?m hs1 = _ → _ => assert (Hm : hsafe is_command inbox_le m) end.
  { apply safe_bind; [apply safe_read|]. intros [state|e]; [|apply safe_ret]. destruct (terminal_state state); [apply safe_ret|]. destruct (negb _); [apply safe_fail|].
    pose proof safe_sink as Hk. clear Hsink. destruct sink as [k|]; [|apply safe_ret]. apply safe_bind; [by apply Hk|]. intros [|[|]]; [| |apply safe_ret].
    all: apply safe_bind; [apply safe_call; intros; apply resp_exact|]; intros []; apply safe_ret. }
  intros H. pose proof (safe_le _ hs1 Hm Hle) as Hle2. rewrite H in Hle2. by apply (hle_recorded _ _ _ Hle2).
Qed.

Lemma probe_receipted s env hs : hpre hs → receipted s env (h_wire hs) (handleProbePlaneMessage h sink s env hs).2.
Proof.
  intros Hp. unfold handleProbePlaneMessage. cbv zeta. destruct (String.eqb (ph_MessageType (env_Header env)) "probe_ingress_receipt") eqn:Ei.
  - apply then_receipted; [apply safe_process|apply silent_process|done..|]. intros accepted hs1 E _ Hw. destruct accepted; [|by left].
    apply write_receipted; [done|]. apply recorded_ack. by eapply process_recorded.
  - apply then_receipted; [apply safe_must; intros; apply resp_record_owned|apply silent_must|done..|]. intros dup hs1 E Hle Hw.
    apply (must_recorded _ _ _ _ _ Hp) in E as Hrec. apply hle_pre in Hle.
    apply then_receipted; [destruct dup; [apply safe_bind; [apply safe_read|]; intros []; apply safe_ret|apply safe_ret]|destruct dup; [apply silent_bind; [apply silent_read|]; intros []; apply silent_ret|apply silent_ret]|done..|].
    intros stop hs2 _ Hle2 Hw2. apply (hle_recorded _ _ _ Hle2) in Hrec. apply hle_pre in Hle2. destruct stop; [by left|].
    apply then_receipted; [apply safe_read|apply silent_read|done..|]. intros st hs3 _ Hle3 Hw3. apply (hle_recorded _ _ _ Hle3) in Hrec. apply hle_pre in Hle3.
    destruct st as [state|e]; [|by left]. destruct (String.eqb state ControlInboxNacked); [by left|].
    apply then_receipted; [destruct (String.eqb state ControlInboxReceived); [apply safe_probe_sink|apply safe_ret]|destruct (String.eqb state ControlInboxReceived); [apply silent_probe_sink|apply silent_ret]|done..|].
    intros go hs4 _ Hle4 Hw4. apply (hle_recorded _ _ _ Hle4) in Hrec. apply hle_pre in Hle4. destruct go; [|by left]. unfold armed_row.
    destruct (String.eqb (ph_MessageType (env_Header env)) "probe_armed") eqn:Ea; [|by left].
    apply then_receipted; [apply safe_match|apply silent_match|done..|]. intros m hs5 _ Hle5 Hw5. apply (hle_recorded _ _ _ Hle5) in Hrec. apply hle_pre in Hle5.
    destruct m as [[row agentOp]|e]; [|by left]. apply advance_receipted; [done..|]. unfold ack_item. by rewrite Ea.
Qed.

Lemma notice_receipted s env op hs : ph_MessageType (env_Header env) = "operation_complete"%string →
  hpre hs → receipted s env (h_wire hs) (handleAgentUninstallNotice h s env op hs).2.
Proof.
  intros Ht Hp. unfold handleAgentUninstallNotice. cbv zeta. rewrite <- Ht. fold (inbox_item s env op).
  apply then_receipted; [apply safe_must; intros; apply resp_record_owned|apply silent_must|done..|]. intros dup hs1 E Hle Hw.
  apply (must_recorded _ _ _ _ _ Hp) in E as Hrec. apply hle_pre in Hle.
  apply then_receipted; [apply safe_must; intros; apply resp_exact|apply silent_must|done..|]. intros [] hs2 _ Hle2 Hw2.
  apply write_receipted; [done|]. apply recorded_ack. by apply (hle_recorded _ _ _ Hle2).
Qed.

Lemma dispatch_receipted s env hs : hpre hs → receipted s env (h_wire hs) (dispatch h sink s env hs).2.
Proof.
  intros Hp. unfold dispatch. cbv zeta. destruct (String.eqb_spec (ph_MessageType (env_Header env)) "operation_complete") as [Et|Et].
  { destruct (parseAgentUninstallNotice env); [by apply notice_receipted|by apply result_receipted]. }
  destruct (existsb _ _); [by apply result_receipted|]. destruct (existsb _ _); [by apply probe_receipted|].
  destruct (String.eqb _ _); [left; apply silent_receipt|]. destruct (String.eqb _ _); [by left|]. destruct (String.eqb _ _); [left; apply silent_status|by left].
Qed.

(** C19: what the hub acknowledges is durable.  However other actors' commands interleave, a
    frame that does not parse sends nothing; any other frame, whichever message it carries
    (a result, a decommission or deletion acknowledgement, a probe message, an uninstall
    notice, a receipt or a status), sends nothing or one receipt, and then the inbox holds the
    message with exactly its node, type and payload, bound to the operation the receipt names
    (for [probe_armed], with no operation). *)
Theorem receipt_after_durable_result (s : ControlSession) (frame : bytes) (hs : hstate) :
  hpre hs →
  let hs' := (handleInboundFrame h sink s frame hs).2 in
  match ParseEnvelope frame (se_agentPub s) with
  | Err _ => h_wire hs' = h_wire hs
  | Ok env => receipted s env (h_wire hs) hs'
  end.
Proof.
  intros Hp hs'. subst hs'. unfold handleInboundFrame. destruct (ParseEnvelope _ _) as [env|e]; [|done]. cbv zeta.
  repeat (match goal with |- context [if ?b then hfail _ else _] => destruct b; [by left|] end).
  apply then_receipted; [apply safe_must; intros; apply resp_require|apply silent_must|done..|]. intros _ hs1 _ Hle Hw. apply hle_pre in Hle.
  apply then_receipted; [apply safe_sequence|apply silent_sequence|done..|]. intros _ hs2 _ Hle2 Hw2. rewrite <- Hw2. apply dispatch_receipted. by eapply hle_pre.
Qed.
End Receipts.
