(* ===== verification/HubLive.v ===== *)
(** * The agent hub: results converge

    With no interference, the handlers bring a correlated row from any live state to
    SEMANTIC_ACKED within their attempt budget, and a receipt removes it. *)

From Stdlib Require Import ZArith Lia Strings.Byte Sorted.
From stdpp Require Import base tactics list sets strings option relations.
From S2P Require Import Prelude GoStd Frame Envelope Probe Sql Control ControlProofs ControlCleanup ControlProps ControlOwners Hub HubProofs HubProps ControlWitness.

Open Scope Z_scope.

Section Live.
Context {crypto : Crypto} {json : HubJson} (h : HubConfig) (sink : option Sink).
Context (s : ControlSession).
Hypothesis Hvalid : validateOwner (se_owner s) = Ok tt.
Hypothesis Hepoch : ow_ConnectionEpoch (se_owner s) < 2 ^ 63.

(** A call without interference. *)
Lemma call_quiet {A} (m : Z → ct A) hs a d :
  h_env hs = [] → m 0 (h_store hs).1 = Ok (a, d) → store_call m hs = (Ok (Ok a), on_store hs (d, (h_store hs).2) []).
Proof. intros He Hm. unfold store_call. rewrite He. cbn. by rewrite Hm. Qed.
Lemma call_quiet_err {A} (m : Z → ct A) hs e :
  h_env hs = [] → m 0 (h_store hs).1 = Err e → store_call m hs = (Ok (Err e), on_store hs (h_store hs) []).
Proof. intros He Hm. unfold store_call. rewrite He. cbn. by rewrite Hm. Qed.
Lemma on_store_id hs : h_env hs = [] → on_store hs (h_store hs) [] = hs.
Proof. intros He. destruct hs. cbn in *. by subst. Qed.
Lemma read_quiet {A} (f : db → A) hs : h_env hs = [] → store_read f hs = (Ok (f (h_store hs).1), hs).
Proof.
  intros He. unfold store_read, hbind. rewrite (call_quiet _ hs (f (h_store hs).1) (h_store hs).1 He eq_refl). unfold hret. f_equal.
  replace ((h_store hs).1, (h_store hs).2) with (h_store hs) by by destruct (h_store hs). by apply on_store_id.
Qed.

(** *** One key *)

(** A statement on one key changes exactly its row. *)
Lemma keyed_count d op ty r w :
  db_ok d → outbox_row d op ty = Some r → (∀ x, w x = true → ob_at op ty x = true) → w r = true → sql_count w (t_outbox d) = 1%nat.
Proof.
  intros Hd Hr Hw Hwr. apply sql_row_Some in Hr as [Hin Hat]. apply (sql_count_unique ob_key _ _ r); [apply Hd|done|done|].
  intros x _ Hx. apply ob_at_key in Hat. apply Hw, ob_at_key in Hx. congruence.
Qed.
Lemma keyed_row d op ty r w f :
  outbox_row d op ty = Some r → (∀ x, ob_key (f x) = ob_key x) → w r = true →
  outbox_row (set_outbox d (sql_update w f (t_outbox d))) op ty = Some (f r).
Proof.
  intros Hr Hk Hw. unfold outbox_row in *. cbn. rewrite sql_row_update; [|intros x _; by apply ob_at_key_eq]. rewrite Hr. cbn. by rewrite Hw.
Qed.

(** How far a row is from SEMANTIC_ACKED for this session. *)
Definition bound_here (r : OutboxRow) : Prop := ob_session r = Some (ow_SessionID (se_owner s)).
Inductive distance : OutboxRow → nat → Prop :=
  | dist_acked r : ob_state r = "SEMANTIC_ACKED"%string → distance r 0
  | dist_sent r : ob_state r = "SENT"%string → bound_here r → distance r 1
  | dist_claimed r : ob_state r = "CLAIMED"%string → bound_here r → distance r 2
  | dist_pending r : ob_state r = "PENDING"%string → distance r 3.

(** The databases of a convergence: only the outbox changes. *)
Record live (op ty : string) (d : db) (r : OutboxRow) : Prop := {
  lv_ok : db_ok d;
  lv_row : outbox_row d op ty = Some r;
  lv_owned : owns (se_owner s) (ob_node r) d = true
}.

Lemma live_update op ty d r w f :
  live op ty d r → (∀ x, ob_key (f x) = ob_key x) → ob_node (f r) = ob_node r → w r = true →
  good d (set_outbox d (sql_update w f (t_outbox d))) → live op ty (set_outbox d (sql_update w f (t_outbox d))) (f r).
Proof. intros [H1 H2 H3] Hk Hn Hw G. split; [apply G|by apply keyed_row|]. rewrite Hn. exact H3. Qed.

Lemma live_at op ty d r : live op ty d r → ob_at op ty r = true.
Proof. intros [_ H _]. by apply sql_row_Some in H as [_ ?]. Qed.

(** One successful statement on the key. *)
Definition advances (op ty : string) (m : ct unit) (d : db) (r r' : OutboxRow) : Prop :=
  ∃ t, m d = Ok (tt, set_outbox d t) ∧ live op ty (set_outbox d t) r' ∧ ob_promise r' = ob_promise r.

Lemma claim_live op ty d r :
  live op ty d r → ob_state r = "PENDING"%string →
  ∃ r', advances op ty (ClaimControlOutboxOperationOwned 0 op ty (se_owner s)) d r r' ∧ distance r' 2.
Proof.
  intros L Hs. pose proof L as [Hok Hrow Hown]. pose proof (live_at _ _ _ _ L) as Hat. exists (ob_bind "CLAIMED" (ow_SessionID (se_owner s)) 0 r).
  set (w := λ x, ob_at op ty x && (ob_state x =? "PENDING")%string && owns (se_owner s) (ob_node x) d).
  assert (Hw : w r = true) by (unfold w; by rewrite Hat, Hs, Hown).
  assert (Hc : sql_count w (t_outbox d) = 1%nat) by (eapply keyed_count; eauto; unfold w; intros x ?; bool_split; done).
  assert (E : ClaimControlOutboxOperationOwned 0 op ty (se_owner s) d = Ok (tt, set_outbox d (sql_update w (ob_bind "CLAIMED" (ow_SessionID (se_owner s)) 0) (t_outbox d)))).
  { unfold ClaimControlOutboxOperationOwned. rewrite fenced_valid by done. unfold sql_bind, sql_read, sql_write. cbv zeta. fold w. by rewrite Hc. }
  split; [|by apply dist_claimed]. eexists. split; [exact E|]. split; [|done]. apply live_update; try done. by eapply resp_claim_op_owned.
Qed.

Lemma transition_live op ty d r want next :
  live op ty d r → ob_state r = want → bound_here r → next ∈ outbox_states → (∀ p, ofsm (Some (want, p)) (Some (next, p))) →
  advances op ty (outboxTransitionOwned 0 op ty (se_owner s) want next) d r (ob_advance next 0 r).
Proof.
  intros L Hs Hb Hin He. pose proof L as [Hok Hrow Hown]. pose proof (live_at _ _ _ _ L) as Hat.
  set (w := λ x, ob_at op ty x && (ob_state x =? want)%string && sql_eq (ob_session x) (ow_SessionID (se_owner s)) && owns (se_owner s) (ob_node x) d).
  assert (Hw : w r = true) by (unfold w; rewrite Hat, Hs, Hb, Hown, String.eqb_refl; cbn; by rewrite String.eqb_refl).
  assert (Hc : sql_count w (t_outbox d) = 1%nat) by (eapply keyed_count; eauto; unfold w; intros x ?; bool_split; done).
  assert (E : outboxTransitionOwned 0 op ty (se_owner s) want next d = Ok (tt, set_outbox d (sql_update w (ob_advance next 0) (t_outbox d)))).
  { unfold outboxTransitionOwned. rewrite fenced_valid by done. unfold sql_bind, sql_read, sql_write. cbv zeta. fold w. by rewrite Hc. }
  eexists. split; [exact E|]. split; [|done]. apply live_update; try done. by eapply (resp_transition_owned 0 op ty (se_owner s) want next).
Qed.

Lemma rebind_live op ty d r :
  live op ty d r → ob_state r = "SEMANTIC_ACKED"%string →
  advances op ty (RebindControlOutboxSessionOwned 0 op ty (se_owner s)) d r (ob_rebind (ow_SessionID (se_owner s)) 0 r).
Proof.
  intros L Hs. pose proof L as [Hok Hrow Hown]. pose proof (live_at _ _ _ _ L) as Hat.
  set (w := λ x, ob_at op ty x && (ob_state x =? "SEMANTIC_ACKED")%string && owns (se_owner s) (ob_node x) d).
  assert (Hw : w r = true) by (unfold w; by rewrite Hat, Hs, Hown).
  assert (Hc : sql_count w (t_outbox d) = 1%nat) by (eapply keyed_count; eauto; unfold w; intros x ?; bool_split; done).
  assert (E : RebindControlOutboxSessionOwned 0 op ty (se_owner s) d = Ok (tt, set_outbox d (sql_update w (ob_rebind (ow_SessionID (se_owner s)) 0) (t_outbox d)))).
  { unfold RebindControlOutboxSessionOwned. rewrite fenced_valid by done. unfold sql_bind, sql_read, sql_write. cbv zeta. fold w. by rewrite Hc. }
  eexists. split; [exact E|]. split; [|done]. apply live_update; try done. by eapply resp_rebind_owned.
Qed.

(** Only the outbox of the store changed, and no frame was sent. *)
Definition only_outbox (hs hs' : hstate) (t : list OutboxRow) : Prop :=
  hs' = on_store hs (set_outbox (h_store hs).1 t, (h_store hs).2) [].

(** The step of each state. *)
Lemma ack_step_live op ty hs r k :
  h_env hs = [] → live op ty (h_store hs).1 r → distance r (S k) → ci_OperationID (item_of r) = op → ci_MessageType (item_of r) = ty →
  ∃ t r' hs', ack_step s (item_of r) hs = (Ok (Some (Ok tt)), hs') ∧ only_outbox hs hs' t ∧ live op ty (h_store hs').1 r' ∧ distance r' k ∧
    ob_promise r' = ob_promise r.
Proof.
  intros He L Hd Hop Hty. unfold ack_step. rewrite Hop, Hty. cbn [ci_State item_of].
  assert (Hgo : ∀ (m : Z → ct unit) r', advances op ty (m 0) (h_store hs).1 r r' → distance r' k →
    ∃ t r' hs', (hub! r := store_call m in hret (Some r)) hs = (Ok (Some (Ok tt)), hs') ∧ only_outbox hs hs' t ∧ live op ty (h_store hs').1 r' ∧ distance r' k ∧
      ob_promise r' = ob_promise r).
  { intros m r' (t & Hm & L' & Hp) Hdist. exists t, r'. eexists. unfold hbind. rewrite (call_quiet _ _ _ _ He Hm). split; [reflexivity|]. split_and!; done. }
  inversion Hd as [|r0 Hs Hb|r0 Hs Hb|r0 Hs]; subst; rewrite Hs; cbn [String.eqb Ascii.eqb Bool.eqb].
  - eapply Hgo; [apply (transition_live _ _ _ _ "SENT" "SEMANTIC_ACKED"); try done; [unfold outbox_states; set_solver|constructor]|by apply dist_acked].
  - eapply Hgo; [apply (transition_live _ _ _ _ "CLAIMED" "SENT"); try done; [unfold outbox_states; set_solver|constructor]|by apply dist_sent].
  - destruct (claim_live _ _ _ _ L Hs) as (r' & Ha & Hdist). eapply Hgo; [exact Ha|exact Hdist].
Qed.

Lemma only_outbox_trans hs1 hs2 hs3 t2 t3 : only_outbox hs1 hs2 t2 → only_outbox hs2 hs3 t3 → only_outbox hs1 hs3 t3.
Proof. unfold only_outbox. intros -> ->. reflexivity. Qed.

(** The loop converges in as many attempts as the row is steps away, plus the rebind. *)
Lemma ack_loop_live op ty n : ∀ k e hs r row,
  h_env hs = [] → live op ty (h_store hs).1 r → distance r k → (k < n)%nat → ci_OperationID row = op → ci_MessageType row = ty →
  ∃ t r' hs', ack_loop n e s row hs = (Ok tt, hs') ∧ only_outbox hs hs' t ∧ live op ty (h_store hs').1 r' ∧
    ob_state r' = "SEMANTIC_ACKED"%string ∧ bound_here r' ∧ ob_promise r' = ob_promise r.
Proof.
  induction n as [|n IH]; intros k e hs r row He L Hd Hk Hop Hty; [lia|]. cbn [ack_loop]. unfold hbind at 1. rewrite read_quiet by done.
  unfold ControlOutboxItemByOperation. rewrite Hop, Hty. pose proof (lv_row _ _ _ _ L) as Hrow. unfold outbox_row in Hrow. rewrite Hrow.
  pose proof (live_at _ _ _ _ L) as Hat. apply ob_at_key in Hat. injection Hat as Hro Hrt. unfold hbind at 1. destruct k as [|k].
  - inversion Hd as [r0 Hs| | |]; subst r0. destruct (rebind_live _ _ _ _ L Hs) as (t & Hm & L' & Hp).
    exists t, (ob_rebind (ow_SessionID (se_owner s)) 0 r). eexists. unfold ack_step, hbind. cbn [ci_State ci_OperationID ci_MessageType item_of].
    rewrite Hs, Hro, Hrt. cbn [String.eqb Ascii.eqb Bool.eqb]. rewrite (call_quiet _ _ _ _ He Hm). split; [reflexivity|]. split_and!; done.
  - destruct (ack_step_live op ty hs r k He L Hd Hro Hrt) as (t & r' & hs1 & -> & Ho & L' & Hd' & Hp).
    destruct (IH k None hs1 r' row) as (t2 & r2 & hs2 & -> & Ho2 & L2 & Hs2 & Hb2 & Hp2); [by rewrite Ho|done|done|lia|done|done|].
    exists t2, r2, hs2. split; [reflexivity|]. split_and!; try done; [by eapply only_outbox_trans|congruence].
Qed.

(** *** A result, received for the first time *)

Definition new_row (item : ControlInboxItem) (d : db) : InboxRow :=
  mkInbox (t_seq_inbox d + 1) (ii_MessageID item) (ii_NodeID item) (ii_MessageType item) (ii_SemanticPayload item) ControlInboxReceived
    (Some (ii_OperationID item)) 0.

Lemma record_new item d :
  ii_NodeID item = ow_NodeID (se_owner s) → owns (se_owner s) (ow_NodeID (se_owner s)) d = true → inbox_row d (ii_MessageID item) = None →
  RecordControlInboxOwned 0 (se_owner s) item d = Ok (false, insert_inbox d (new_row item d)).
Proof.
  intros Hn Ho Hnone. unfold RecordControlInboxOwned, withControlOwnerImmediate. rewrite Hvalid, Hn, String.eqb_refl. cbn [negb]. rewrite fenced_valid by done.
  unfold sql_bind, sql_read. rewrite Ho. cbn [negb]. unfold record_inbox, sql_bind, sql_read. unfold inbox_row in Hnone. rewrite Hnone. reflexivity.
Qed.

Lemma new_row_state item d : inbox_row d (ii_MessageID item) = None → ControlInboxState (insert_inbox d (new_row item d)) (ii_MessageID item) = Ok ControlInboxReceived.
Proof.
  intros Hnone. unfold ControlInboxState. cbn. unfold inbox_row in Hnone. rewrite sql_row_app, Hnone. unfold sql_row, ib_at. cbn. by rewrite String.eqb_refl.
Qed.

Lemma record_bound_new b item hs :
  h_env hs = [] → ii_NodeID item = ow_NodeID (se_owner s) → owns (se_owner s) (ow_NodeID (se_owner s)) (h_store hs).1 = true →
  inbox_row (h_store hs).1 (ii_MessageID item) = None →
  record_bound b s item hs = (Ok tt, on_store hs (insert_inbox (h_store hs).1 (new_row item (h_store hs).1), (h_store hs).2) []).
Proof. intros He Hn Ho Hnone. unfold record_bound, hbind. rewrite (call_quiet _ _ _ _ He (record_new _ _ Hn Ho Hnone)). reflexivity. Qed.

Lemma live_insert op ty d r item :
  live op ty d r → inbox_row d (ii_MessageID item) = None → live op ty (insert_inbox d (new_row item d)) r.
Proof. intros [H1 H2 H3] Hn. split; [|done|done]. apply (gd_ok d). by apply good_inbox_insert. Qed.

End Live.

Section Result.
Context {crypto : Crypto} {json : HubJson} (h : HubConfig) (sink : option Sink).

(** C18: a result converges.  For the node's current owner, without interference and with
    writes to the agent that succeed, an [operation_complete] that arrives for the first time
    and correlates with a row of this session in any live state (PENDING, CLAIMED, SENT or
    SEMANTIC_ACKED; not a [probe_arm]) is recorded in the inbox bound to its operation, brings
    the row to SEMANTIC_ACKED bound to this session within the eight attempts, and is answered
    with its receipt.  (With interference it need not: [pump_race_closes_session].) *)
Theorem result_converges (s : ControlSession) (env : Envelope) (hs : hstate) (r : OutboxRow) (k : nat) (frame : bytes) :
  let d := (h_store hs).1 in let id := ph_MessageID (env_Header env) in
  let agentOp := hex_of (MessageID (ob_operation r) (ob_type r)) in
  let receipt := out_header h s ((h_outSeq hs + 1) mod 2 ^ 64) (MessageID agentOp "message_receipt") "message_receipt" in
  validateOwner (se_owner s) = Ok tt → ow_ConnectionEpoch (se_owner s) < 2 ^ 63 → se_nodeID s = ow_NodeID (se_owner s) →
  h_env hs = [] → h_writes hs = [] → db_ok d → owns (se_owner s) (ow_NodeID (se_owner s)) d = true →
  ph_MessageType (env_Header env) = "operation_complete"%string →
  outbox_row d (ob_operation r) (ob_type r) = Some r → ob_node r = se_nodeID s → ob_type r ≠ "probe_arm"%string → distance s r k →
  ControlOutboxItemByCorrelation d (se_nodeID s) (hex_of id) "operation_complete" live_states = Ok (item_of r) →
  inbox_row d (hex_of id) = None → BuildEnvelope (hc_privateKey h) receipt (receipt_payload agentOp) = Ok frame →
  ∃ hs' r', handleAgentResult h sink s env hs = (Ok tt, hs') ∧
    outbox_row (h_store hs').1 (ob_operation r) (ob_type r) = Some r' ∧ ob_state r' = "SEMANTIC_ACKED"%string ∧ bound_here s r' ∧
    ob_promise r' = ob_promise r ∧ recorded (inbox_item s env agentOp) (h_store hs').1 ∧
    h_wire hs' = h_wire hs ++ [mkSent receipt (receipt_payload agentOp)].
Proof.
  intros d id agentOp receipt Hv Hep Hnode He Hwr Hok Hown Hty Hrow Hrn Hpa Hdist Hmatch Hnone Hbuild.
  unfold handleAgentResult, matchOutboxRow. rewrite Hty, String.eqb_refl. unfold hbind at 1 2. rewrite read_quiet by done. fold d id. rewrite Hmatch.
  cbn [hret]. cbn [ci_OperationID ci_MessageType item_of]. fold agentOp. set (item := inbox_item s env agentOp).
  assert (Hk : distance s r k → (k < 8)%nat) by (intros []; lia). specialize (Hk Hdist).
  unfold hbind at 1. rewrite (record_bound_new s Hv Hep false item hs He Hnode Hown Hnone). cbn [fst snd on_store h_store]. fold d.
  set (hs1 := on_store hs (insert_inbox d (new_row item d), (h_store hs).2) []). unfold hbind at 1. rewrite (read_quiet _ hs1) by done.
  change (h_store hs1).1 with (insert_inbox d (new_row item d)). change (hex_of id) with (ii_MessageID item).
  rewrite (new_row_state item d Hnone). cbn [String.eqb].
  change (String.eqb ControlInboxReceived ControlInboxNacked) with false. change (String.eqb ControlInboxReceived ControlInboxReceived) with true. cbn [negb andb].
  apply String.eqb_neq in Hpa. rewrite Hpa. cbn [andb]. unfold hbind at 1. cbn [hret]. unfold advanceResultRow, hbind. unfold ensureOutboxSemanticACKed.
  assert (L : live s (ob_operation r) (ob_type r) (h_store hs1).1 r).
  { apply live_insert; [|done]. split; [done|done|]. by rewrite Hrn, Hnode. }
  destruct (ack_loop_live s Hv Hep (ob_operation r) (ob_type r) 8 k None hs1 r (item_of r) eq_refl L Hdist Hk eq_refl eq_refl)
    as (t & r' & hs2 & -> & Ho & L2 & Hs2 & Hb2 & Hp2).
  unfold writeReceipt, writeEnvelope. assert (Hseq : h_outSeq hs2 = h_outSeq hs ∧ h_writes hs2 = [] ∧ h_wire hs2 = h_wire hs) by by rewrite Ho.
  destruct Hseq as (-> & -> & ->). fold receipt. rewrite Hbuild. cbn. eexists _, r'. split; [reflexivity|]. cbn. split_and!; try done; [apply L2|].
  rewrite Ho. exact (record_owned_recorded 0 (se_owner s) item d false _ (record_new s Hv Hep item d Hnode Hown Hnone)).
Qed.
End Result.

(** * Concrete executions of the agent hub *)

#[local] Existing Instance toy_crypto.

(** Decoders for the payloads of these runs. *)
Definition toy_json : HubJson := {|
  json_receipt b := if bytes_eqb b [] then None else Some (string_of b);
  json_nack _ := None;
  json_notice _ := None;
  go_quote s := Byte.x22 :: bytes_of s ++ [Byte.x22]
|}.
#[local] Existing Instance toy_json.

Definition whub : HubConfig := mkHub (repeat Byte.x01 16) "key-1" (repeat Byte.x02 64).
Definition wsession : ControlSession := mkSession "n1" 1 "s1" wowner (repeat Byte.x07 32) false.
Definition wcommand : ControlOutboxItem := mkItem "op1" "desired" "n1" "payload" "" 0.

(** A node whose command was sent by the current session. *)
Definition whubdb : db := Eval vm_compute in
  (crun [EvCmd (KCreateNode true 1 wnode); EvCmd (KAcquire 2 "n1" 0 "s1"); EvCmd (KEnqueue 3 wcommand);
         EvCmd (KClaimOwned 4 4 wowner 10)] wstart).1.
Definition whs : hstate := mkH (whubdb, open_cursor) [] [] 4 0 [] [].

Lemma whubdb_ok : db_ok whubdb.
Proof.
  change whubdb with (crun [EvCmd (KCreateNode true 1 wnode); EvCmd (KAcquire 2 "n1" 0 "s1"); EvCmd (KEnqueue 3 wcommand);
    EvCmd (KClaimOwned 4 4 wowner 10)] wstart).1. apply crun_ok, wstart_ok.
Qed.

Definition wresult_id : bytes := Eval vm_compute in MessageID (hex_of (MessageID "op1" "desired")) "operation_complete".
Definition wheader : ProtectedHeader :=
  mkHeader ProtocolDomain (repeat Byte.x01 16) (nodeIDBytes wsession) "key-1" 1 1 "s1" DirectionA2C 1 wresult_id "operation_complete" 1 0 (repeat Byte.x00 32).
Definition wframe : bytes := Eval vm_compute in match BuildEnvelope (repeat Byte.x07 64) wheader (bytes_of "done") with Ok f => f | Err _ => [] end.
Definition wenv : Envelope := Eval vm_compute in
  match ParseEnvelope wframe (repeat Byte.x07 32) with Ok e => e | Err _ => mkEnvelope 0 0 wheader [] [] [] end.
Definition wobrow : OutboxRow := Eval vm_compute in match t_outbox whubdb with r :: _ => r | [] => mkOutbox 0 "" "" "" "" "" None 0 None None None 0 end.

(** The real frame of the result is accepted and answered. *)
Example wframe_accepted : (handleInboundFrame whub None wsession wframe whs).1 = Ok tt.
Proof. vm_compute. reflexivity. Qed.

(** The pump marks the row sent between the handler's read and its own transition:
    the benign race ends the session. *)
Definition wrace : hstate :=
  mkH (whubdb, open_cursor) [(5, []); (5, []); (5, []); (5, []); (5, []); (6, [EvCmd (KSentOwned 6 "op1" "desired" wowner)])] [] 4 0 [] [].
Example pump_race_closes_session : (handleInboundFrame whub None wsession wframe wrace).1 = Err (HStore CsStaleControlOwner).
Proof. vm_compute. reflexivity. Qed.

(** ** Witnesses *)

(** A sink that accepts everything and changes nothing. *)
Definition idle_sink : Sink := mkSink (λ _ _ _ d, (SinkOk, d)) None.
Lemma idle_sink_laws : SinkLaws idle_sink.
Proof. split; [intros; by apply good_refl|done]. Qed.
Lemma idle_only k : Some idle_sink = Some k → SinkLaws k.
Proof. intros [= <-]. exact idle_sink_laws. Qed.

Lemma whs_ok : st_ok (h_store whs).
Proof. split; [exact whubdb_ok|by intros ?]. Qed.

Lemma hub_refines_outbox_witness :
  outbox_le (h_store whs) (h_store (hrun whub (Some idle_sink) wsession [DoPump 9; DoFrame wframe] whs)).
Proof. apply (hub_refines_outbox whub (Some idle_sink)); [exact idle_only|exact whs_ok]. Defined.

(** The node was taken over by another session before the frame arrived. *)
Definition wtaken : hstate := mkH (whubdb, open_cursor) [(7, [EvCmd (KAcquire 7 "n1" 1 "s2")])] [] 4 0 [] [].

Lemma wtaken_superseded : superseded (se_owner wsession) (first_store wtaken).1.
Proof. eexists. split; [vm_compute; reflexivity|vm_compute; reflexivity]. Qed.
Lemma superseded_session_rejected_witness :
  let hs' := hrun whub None wsession [DoFrame wframe; DoPump 9] wtaken in
  (∃ es, h_store hs' = crun es (h_store wtaken)) ∧ h_wire hs' = h_wire wtaken ∧ h_sunk hs' = h_sunk wtaken ∧ h_inSeq hs' = h_inSeq wtaken ∧
  ∀ frame, is_ok (handleInboundFrame whub None wsession frame hs').1 = false.
Proof. apply (superseded_session_rejected whub None wsession [DoFrame wframe; DoPump 9] wtaken); [exact whs_ok|exact wtaken_superseded]. Defined.

Lemma receipt_after_durable_result_witness :
  length (h_wire (handleInboundFrame whub None wsession wframe whs).2) = 1%nat ∧
  receipted whub wsession wenv (h_wire whs) (handleInboundFrame whub None wsession wframe whs).2.
Proof.
  split; [vm_compute; reflexivity|]. pose proof (receipt_after_durable_result whub None ltac:(done) wsession wframe whs) as H.
  assert (E : ParseEnvelope wframe (se_agentPub wsession) = Ok wenv) by (vm_compute; reflexivity). rewrite E in H. apply H. split; [exact whs_ok|constructor].
Defined.

Lemma result_converges_witness :
  ∃ hs' r', handleAgentResult whub None wsession wenv whs = (Ok tt, hs') ∧
    outbox_row (h_store hs').1 "op1" "desired" = Some r' ∧ ob_state r' = "SEMANTIC_ACKED"%string ∧ bound_here wsession r' ∧
    ob_promise r' = ob_promise wobrow ∧ recorded (inbox_item wsession wenv (hex_of (MessageID "op1" "desired"))) (h_store hs').1 ∧
    h_wire hs' = h_wire whs ++ [mkSent (out_header whub wsession ((h_outSeq whs + 1) mod 2 ^ 64) (MessageID (hex_of (MessageID "op1" "desired")) "message_receipt") "message_receipt")
      (receipt_payload (hex_of (MessageID "op1" "desired")))].
Proof.
  set (op := hex_of (MessageID "op1" "desired")).
  destruct (BuildEnvelope (hc_privateKey whub) (out_header whub wsession ((h_outSeq whs + 1) mod 2 ^ 64) (MessageID op "message_receipt") "message_receipt") (receipt_payload op)) as [f|e] eqn:E;
    [|exfalso; vm_compute in E; discriminate].
  apply (result_converges whub None wsession wenv whs wobrow 2 f); try (vm_compute; reflexivity).
  - exact whubdb_ok.
  - cbn. discriminate.
  - apply dist_claimed; vm_compute; reflexivity.
  - exact E.
Defined.
