(* ===== verification/CtlDb.v ===== *)
(** * The Controller's remaining tables

    The database of [src/internal/controller/store] beyond the control tables:
    enrollment, key rotation, web sessions, idempotency keys, Forwards and deletion
    operations, after the schema of [src/migrations].  Identifiers from the random
    source are arguments of the operations that draw them. *)

From Stdlib Require Import ZArith Lia Strings.Byte.
From stdpp Require Import base tactics list sets strings option.
From S2P Require Import Prelude GoStd Frame Sql Control.

Open Scope Z_scope.

(** ** Errors *)

Inductive XError : Type :=
  | XStore (e : CsError)
  | XTokenNotFound | XTokenExpired | XTokenConsumed | XTokenNode | XResultNotFound
  | XProbeIllegal | XProbeTerminal | XProbeExpired | XProbeDuplicate | XProbeIncomplete | XProbeJoinRequired | XProbeChallenge
  | XProbeBudget | XProbeAmbiguous | XProbeCorrupt
  | XCleanupConflict | XIdempotencyConflict | XForwardNotFound | XForwardName | XPermanentDeletion | XPhaseRefused
  | XInvalid.              (* rejected arguments *)

(** ** Rows *)

Record TokenRow : Type := mkToken {
  tk_id : string; tk_hash : string; tk_node : option string; tk_status : string; tk_expires : option Z; tk_created : Z; tk_consumed : option Z
}.
Record CredRow : Type := mkCred { cd_id : string; cd_node : string; cd_type : string; cd_hash : string; cd_version : Z; cd_created : Z }.
Record EnrolledRow : Type := mkEnrolled {
  en_id : string; en_node : string; en_result : string; en_hash : string; en_version : Z; en_key : string; en_capability : string; en_expiry : Z; en_created : Z
}.
Record RotationRow : Type := mkRotation {
  kr_id : string; kr_scope : string; kr_old_id : string; kr_old_gen : Z; kr_new_id : string; kr_new_key : string; kr_new_gen : Z; kr_phase : string;
  kr_not_before : Z; kr_deadline : Z; kr_certificate : string; kr_created : Z; kr_updated : Z
}.
Record AckRow : Type := mkAck { ka_operation : string; ka_node : string; ka_at : Z }.
Record WebRow : Type := mkWeb { ws_id : string; ws_user : string; ws_hash : string; ws_expires : Z; ws_revoked : option Z }.
Record ForwardRow : Type := mkForward {
  fw_id : string; fw_node : string; fw_name : string; fw_protocol : string; fw_activation : option string; fw_revision : Z; fw_created : Z; fw_updated : Z
}.
Record SpecRow : Type := mkSpec { sp_id : string; sp_forward : string; sp_revision : Z; sp_json : string; sp_created : Z }.
Record IdemRow : Type := mkIdem {
  ik_key : string; ik_route : string; ik_principal : string; ik_request : string; ik_status : Z; ik_body : string; ik_created : Z; ik_expires : Z
}.
Record NodeDelRow : Type := mkNodeDel { xd_id : string; xd_node : string; xd_status : string; xd_mode : string; xd_created : Z; xd_completed : option Z }.

Record ProviderRow : Type := mkProviderRow {
  pv_id : string; pv_name : string; pv_key : string; pv_egress : string; pv_endpoint : string; pv_enabled : bool; pv_independent : bool;
  pv_created : Z; pv_updated : Z
}.
Record ActivationRow : Type := mkActivationRow { av_id : string; av_forward : string; av_activation : string; av_revision : Z; av_created : Z }.
Record RuntimeRow : Type := mkRuntime { rt_forward : string; rt_activation : option string; rt_snapshot : string; rt_updated : Z }.

(** The audit events, by the fields of their payload. *)
Inductive AdminEvent : Type :=
  | EvRebindRejected (node : string) (version now : Z)
  | EvBound (node result : string) (version now : Z)
  | EvKeyExpired (key route : string) (now : Z)
  | EvNodeCreated (node name : string) (now : Z)
  | EvHub (event node : string).

Record xdb : Type := mkXdb {
  x_ctl : db; x_tokens : list TokenRow; x_creds : list CredRow; x_enrolled : list EnrolledRow; x_rotations : list RotationRow; x_acks : list AckRow; x_web : list WebRow;
  x_forwards : list ForwardRow; x_specs : list SpecRow; x_activations : list ActivationRow; x_runtime : list RuntimeRow; x_providers : list ProviderRow; x_keys : list IdemRow; x_nodedels : list NodeDelRow; x_events : list AdminEvent
}.

Definition with_ctl (x : xdb) (d : db) : xdb :=
  mkXdb d (x_tokens x) (x_creds x) (x_enrolled x) (x_rotations x) (x_acks x) (x_web x) (x_forwards x)
    (x_specs x) (x_activations x) (x_runtime x) (x_providers x) (x_keys x) (x_nodedels x) (x_events x).
Definition set_tokens (x : xdb) (t : list TokenRow) : xdb :=
  mkXdb (x_ctl x) t (x_creds x) (x_enrolled x) (x_rotations x) (x_acks x) (x_web x) (x_forwards x)
    (x_specs x) (x_activations x) (x_runtime x) (x_providers x) (x_keys x) (x_nodedels x) (x_events x).
Definition set_creds (x : xdb) (t : list CredRow) : xdb :=
  mkXdb (x_ctl x) (x_tokens x) t (x_enrolled x) (x_rotations x) (x_acks x) (x_web x) (x_forwards x)
    (x_specs x) (x_activations x) (x_runtime x) (x_providers x) (x_keys x) (x_nodedels x) (x_events x).
Definition set_enrolled (x : xdb) (t : list EnrolledRow) : xdb :=
  mkXdb (x_ctl x) (x_tokens x) (x_creds x) t (x_rotations x) (x_acks x) (x_web x) (x_forwards x)
    (x_specs x) (x_activations x) (x_runtime x) (x_providers x) (x_keys x) (x_nodedels x) (x_events x).
Definition set_rotations (x : xdb) (t : list RotationRow) : xdb :=
  mkXdb (x_ctl x) (x_tokens x) (x_creds x) (x_enrolled x) t (x_acks x) (x_web x) (x_forwards x)
    (x_specs x) (x_activations x) (x_runtime x) (x_providers x) (x_keys x) (x_nodedels x) (x_events x).
Definition set_acks (x : xdb) (t : list AckRow) : xdb :=
  mkXdb (x_ctl x) (x_tokens x) (x_creds x) (x_enrolled x) (x_rotations x) t (x_web x) (x_forwards x)
    (x_specs x) (x_activations x) (x_runtime x) (x_providers x) (x_keys x) (x_nodedels x) (x_events x).
Definition set_web (x : xdb) (t : list WebRow) : xdb :=
  mkXdb (x_ctl x) (x_tokens x) (x_creds x) (x_enrolled x) (x_rotations x) (x_acks x) t (x_forwards x)
    (x_specs x) (x_activations x) (x_runtime x) (x_providers x) (x_keys x) (x_nodedels x) (x_events x).
Definition set_forwards (x : xdb) (t : list ForwardRow) : xdb :=
  mkXdb (x_ctl x) (x_tokens x) (x_creds x) (x_enrolled x) (x_rotations x) (x_acks x) (x_web x) t
    (x_specs x) (x_activations x) (x_runtime x) (x_providers x) (x_keys x) (x_nodedels x) (x_events x).
Definition set_specs (x : xdb) (t : list SpecRow) : xdb :=
  mkXdb (x_ctl x) (x_tokens x) (x_creds x) (x_enrolled x) (x_rotations x) (x_acks x) (x_web x) (x_forwards x)
    t (x_activations x) (x_runtime x) (x_providers x) (x_keys x) (x_nodedels x) (x_events x).
Definition set_activations (x : xdb) (t : list ActivationRow) : xdb :=
  mkXdb (x_ctl x) (x_tokens x) (x_creds x) (x_enrolled x) (x_rotations x) (x_acks x) (x_web x) (x_forwards x)
    (x_specs x) t (x_runtime x) (x_providers x) (x_keys x) (x_nodedels x) (x_events x).
Definition set_runtime (x : xdb) (t : list RuntimeRow) : xdb :=
  mkXdb (x_ctl x) (x_tokens x) (x_creds x) (x_enrolled x) (x_rotations x) (x_acks x) (x_web x) (x_forwards x)
    (x_specs x) (x_activations x) t (x_providers x) (x_keys x) (x_nodedels x) (x_events x).
Definition set_providers (x : xdb) (t : list ProviderRow) : xdb :=
  mkXdb (x_ctl x) (x_tokens x) (x_creds x) (x_enrolled x) (x_rotations x) (x_acks x) (x_web x) (x_forwards x)
    (x_specs x) (x_activations x) (x_runtime x) t (x_keys x) (x_nodedels x) (x_events x).
Definition set_keys (x : xdb) (t : list IdemRow) : xdb :=
  mkXdb (x_ctl x) (x_tokens x) (x_creds x) (x_enrolled x) (x_rotations x) (x_acks x) (x_web x) (x_forwards x)
    (x_specs x) (x_activations x) (x_runtime x) (x_providers x) t (x_nodedels x) (x_events x).
Definition set_nodedels (x : xdb) (t : list NodeDelRow) : xdb :=
  mkXdb (x_ctl x) (x_tokens x) (x_creds x) (x_enrolled x) (x_rotations x) (x_acks x) (x_web x) (x_forwards x)
    (x_specs x) (x_activations x) (x_runtime x) (x_providers x) (x_keys x) t (x_events x).
Definition set_events (x : xdb) (t : list AdminEvent) : xdb :=
  mkXdb (x_ctl x) (x_tokens x) (x_creds x) (x_enrolled x) (x_rotations x) (x_acks x) (x_web x) (x_forwards x)
    (x_specs x) (x_activations x) (x_runtime x) (x_providers x) (x_keys x) (x_nodedels x) t.

(** ** Transactions over both parts *)

Definition xt (A : Type) : Type := stx xdb XError A.

(** A transaction on the control tables. *)
Definition on_ctl {A} (m : ct A) : xt A := λ x,
  match m (x_ctl x) with Ok (a, d) => Ok (a, with_ctl x d) | Err e => Err (XStore e) end.
Definition of_read {A} (f : db → result CsError A) : xt A :=
  sql_check (λ x, match f (x_ctl x) with Ok a => Ok a | Err e => Err (XStore e) end).

(** [INSERT INTO admin_events]. *)
Definition audit (e : AdminEvent) : xt unit := sql_write (λ x, set_events x (x_events x ++ [e])).

Definition node_exists (x : xdb) (id : string) : bool := sql_exists (λ n, String.eqb (nd_id n) id) (t_nodes (x_ctl x)).

(** A [uint64] bound as an SQL argument. *)
Definition binds (v : Z) : bool := v <? 2 ^ 63.
