(* ===== verification/EnrollStore.v ===== *)
(** * Enrollment at the Controller

    [src/internal/controller/store/enrollment.go]: one-time tokens, the binding of an
    agent key to a node and the durable result; and the two HTTP handlers of
    [src/internal/controller/agenthub/enroll.go] over it and the challenge cache. *)

From Stdlib Require Import ZArith Lia Strings.Byte.
From stdpp Require Import base tactics list sets strings option gmap.
From S2P Require Import Prelude GoStd Frame Enrollment Session Sql Control CtlDb.

Open Scope Z_scope.

(** ** base64.RawURLEncoding *)

Definition base64_alphabet : bytes := bytes_of "ABCDEFGHIJKLMNOPQRSTUVWXYZabcdefghijklmnopqrstuvwxyz0123456789-_".
Definition base64_digit (v : Z) : byte := nth (Z.to_nat (v mod 64)) base64_alphabet Byte.x00.
Fixpoint base64_rawurl (b : bytes) : bytes :=
  match b with
  | [] => []
  | [x] => [base64_digit (Z.shiftr (b2z x) 2); base64_digit (Z.shiftl (b2z x) 4)]
  | [x; y] =>
      [base64_digit (Z.shiftr (b2z x) 2); base64_digit (Z.lor (Z.shiftl (b2z x) 4) (Z.shiftr (b2z y) 4)); base64_digit (Z.shiftl (b2z y) 2)]
  | x :: y :: z :: b' =>
      base64_digit (Z.shiftr (b2z x) 2) :: base64_digit (Z.lor (Z.shiftl (b2z x) 4) (Z.shiftr (b2z y) 4)) ::
      base64_digit (Z.lor (Z.shiftl (b2z y) 2) (Z.shiftr (b2z z) 6)) :: base64_digit (b2z z) :: base64_rawurl b'
  end.

(** ** The store *)

Record EnrollmentRequest : Type := mkERequest {
  rq_NodeID : string; rq_TokenHash : string; rq_AgentPublicKeyHash : string; rq_CredentialVersion : Z; rq_CapabilityHash : string;
  rq_ControllerKeyID : string; rq_ResultID : string; rq_ResultExpiryUnix : Z
}.
Record EnrollmentResult : Type := mkEnrollment {
  el_ResultID : string; el_NodeID : string; el_AgentPublicKeyHash : string; el_CredentialVersion : Z; el_ControllerKeyID : string;
  el_CapabilityHash : string; el_ExpiryUnix : Z; el_CreatedAt : Z
}.

Section Tokens.
Context `{Crypto}.

(** The plaintext token of the random bytes [raw]; the row keeps its hash. *)
Definition CreateEnrollmentToken (capacity : bool) (now : Z) (raw : bytes) (id nodeID : string) (ttlSeconds : Z) : xt string :=
  sql_fail_if negb capacity with XStore CsRefused ;;
  let plain := base64_rawurl raw in
  let hash := hex_of (sha256 plain) in
  sql! known := sql_read (λ x, node_exists x nodeID) in
  sql! clash := sql_read (λ x, sql_exists (λ t, String.eqb (tk_id t) id || String.eqb (tk_hash t) hash) (x_tokens x)) in
  sql_fail_if negb known || clash with XStore CsConstraint ;;
  sql! _ := sql_write (λ x, set_tokens x (x_tokens x ++ [mkToken id hash (Some nodeID) "PENDING" (Some (wrap_i64 (now + ttlSeconds))) now None])) in
  sql_ret (string_of plain).
End Tokens.

Definition nodeCredentialTx (nodeID : string) (x : xdb) : option CredRow := sql_row (λ c, String.eqb (cd_node c) nodeID) (x_creds x).

Definition scanEnrollmentResult (r : EnrolledRow) : EnrollmentResult :=
  mkEnrollment (en_result r) (en_node r) (en_hash r) (en_version r) (en_key r) (en_capability r) (en_expiry r) (en_created r).
Definition enrolled_at (nodeID pubKeyHash : string) (version : Z) (r : EnrolledRow) : bool :=
  String.eqb (en_node r) nodeID && String.eqb (en_hash r) pubKeyHash && (en_version r =? version).
Definition enrollmentResultTx (nodeID pubKeyHash : string) (version : Z) (x : xdb) : result XError EnrollmentResult :=
  match sql_row (enrolled_at nodeID pubKeyHash version) (x_enrolled x) with Some r => Ok (scanEnrollmentResult r) | None => Err XResultNotFound end.

Definition NodeCredentialByNode (nodeID : string) (x : xdb) : result XError CredRow :=
  match nodeCredentialTx nodeID x with Some c => Ok c | None => Err (XStore CsNodeNotFound) end.
Definition EnrollmentResultByNodeAndKey (nodeID pubKeyHash : string) (version : Z) (x : xdb) : result XError EnrollmentResult :=
  enrollmentResultTx nodeID pubKeyHash version x.

Definition tk_consume (now : Z) (t : TokenRow) : TokenRow :=
  mkToken (tk_id t) (tk_hash t) (tk_node t) "CONSUMED" (tk_expires t) (tk_created t) (Some now).

(** The checks on the presented token. *)
Definition check_token (now : Z) (req : EnrollmentRequest) (x : xdb) : result XError unit :=
  match sql_row (λ t, String.eqb (tk_hash t) (rq_TokenHash req)) (x_tokens x) with
  | None => Err XTokenNotFound
  | Some t =>
      match tk_expires t, tk_node t with
      | Some expiresAt, Some tokenNode =>
          fail_if negb (String.eqb tokenNode (rq_NodeID req)) with XTokenNode ;;
          fail_if String.eqb (tk_status t) "CONSUMED" with XTokenConsumed ;;
          fail_if expiresAt <=? now with XTokenExpired ;;
          Ok tt
      | _, _ => Err (XStore CsNullScan)
      end
  end.

(** The two inserts of a binding, with their UNIQUE and FOREIGN KEY constraints. *)
Definition bind_credential (ts : Z) (credID : string) (req : EnrollmentRequest) : xt unit :=
  sql! known := sql_read (λ x, node_exists x (rq_NodeID req)) in
  sql! clash := sql_read (λ x, sql_exists (λ c, String.eqb (cd_id c) credID ||
    (String.eqb (cd_node c) (rq_NodeID req) && (cd_version c =? rq_CredentialVersion req))) (x_creds x)) in
  sql_fail_if negb known || clash with XStore CsConstraint ;;
  sql_write (λ x, set_creds x (x_creds x ++
    [mkCred credID (rq_NodeID req) "ed25519" (rq_AgentPublicKeyHash req) (rq_CredentialVersion req) ts])).
Definition record_result (ts : Z) (resID : string) (req : EnrollmentRequest) : xt unit :=
  sql! known := sql_read (λ x, node_exists x (rq_NodeID req)) in
  sql! clash := sql_read (λ x, sql_exists (λ r, String.eqb (en_id r) resID ||
    enrolled_at (rq_NodeID req) (rq_AgentPublicKeyHash req) (rq_CredentialVersion req) r) (x_enrolled x)) in
  sql_fail_if negb known || clash with XStore CsConstraint ;;
  sql_write (λ x, set_enrolled x (x_enrolled x ++
    [mkEnrolled resID (rq_NodeID req) (rq_ResultID req) (rq_AgentPublicKeyHash req) (rq_CredentialVersion req) (rq_ControllerKeyID req)
       (rq_CapabilityHash req) (rq_ResultExpiryUnix req) ts])).

(** [None] is the committed rejection of another key ([ErrNodeCredentialConflict]); the
    flag tells a replayed result.  [t1], [t2] and [ts] are successive clock readings. *)
Definition ConsumeEnrollmentToken (t1 t2 ts : Z) (credID resID : string) (req : EnrollmentRequest) : xt (option (EnrollmentResult * bool)) :=
  sql! existing := sql_read (nodeCredentialTx (rq_NodeID req)) in
  match existing with
  | Some c =>
      if String.eqb (cd_hash c) (rq_AgentPublicKeyHash req) && (cd_version c =? rq_CredentialVersion req) then
        sql! r := sql_check (enrollmentResultTx (rq_NodeID req) (rq_AgentPublicKeyHash req) (rq_CredentialVersion req)) in sql_ret (Some (r, true))
      else sql! _ := audit (EvRebindRejected (rq_NodeID req) (rq_CredentialVersion req) t1) in sql_ret None
  | None =>
      sql! _ := sql_check (check_token t1 req) in
      sql! _ := sql_write (λ x, set_tokens x (sql_update (λ t, String.eqb (tk_hash t) (rq_TokenHash req) && String.eqb (tk_status t) "PENDING")
        (tk_consume t2) (x_tokens x))) in
      sql! _ := bind_credential ts credID req in
      sql! _ := record_result ts resID req in
      sql! _ := audit (EvBound (rq_NodeID req) (rq_ResultID req) (rq_CredentialVersion req) ts) in
      sql_ret (Some (mkEnrollment (rq_ResultID req) (rq_NodeID req) (rq_AgentPublicKeyHash req) (rq_CredentialVersion req)
        (rq_ControllerKeyID req) (rq_CapabilityHash req) (rq_ResultExpiryUnix req) ts, false))
  end.

(** ** The handlers *)

(** A response: the body of 200, an error status with its stable code, or the aborted
    connection of a handler that panicked. *)
Inductive HttpResponse : Type := HttpOK (body : bytes) | HttpError (status : Z) (code : string) | HttpAbort.

Definition nodeIDFromBody (body : option bytes) : option string :=
  match body with
  | None => None
  | Some b => let b := take 17 b in if bool_decide (length b = 0%nat) || bool_decide (16 < length b)%nat then None else Some (string_of b)
  end.

(** [hex.DecodeString] of the stored instance id, zeros unless it is 16 bytes. *)
Definition instanceID (stored : string) : bytes :=
  match hex_decode stored with Some b => if bool_decide (length b = 16%nat) then b else repeat Byte.x00 16 | None => repeat Byte.x00 16 end.
(** [copy(dst[:], src)] into a zeroed array. *)
Definition copy_into (n : nat) (b : bytes) : bytes := let t := take n b in t ++ repeat Byte.x00 (n - length t).

Definition challengeHashOf (raw : bytes) : option bytes :=
  if bool_decide (length raw < 64)%nat then None
  else
    let fields := take (length raw - 64) raw in
    if bool_decide (length fields < 4)%nat then None
    else
      let l := be_get (take 4 fields) in
      if negb (l =? 32) || (zlen fields - 4 <? l) then None else Some (take 32 (drop 4 fields)).

Section Handlers.
Context `{Crypto}.

(** The hub's keys and settings; [hb_instance] is the stored instance id, [None] when it
    cannot be read. *)
Record EnrollHub : Type := mkEHub { hb_keyID : string; hb_privateKey : bytes; hb_instance : option string; hb_maxBody : Z; hb_resultTTL : Z }.
Context (h : EnrollHub).

Definition hub_sign (m : bytes) : option bytes := match Sign (hb_privateKey h) m with Ok s => Some s | Err _ => None end.

(** A request: whether plaintext enrollment is allowed from its address, its method and
    its body, [None] when it cannot be read. *)
Record HttpRequest : Type := mkHttp { ht_allowed : bool; ht_post : bool; ht_body : option bytes }.

Definition hstate2 : Type := ChallengeManager * xdb.

Definition handleEnrollChallenge (t1 t2 t3 : Z) (nonce : bytes) (r : HttpRequest) (s : hstate2) : HttpResponse * hstate2 :=
  if negb (ht_allowed r) then (HttpError 403 "ENROLL_PLAINTEXT_PUBLIC_REFUSED", s)
  else if negb (ht_post r) then (HttpError 405 "ENROLL_MALFORMED", s)
  else match nodeIDFromBody (ht_body r) with
  | None => (HttpError 400 "ENROLL_MALFORMED", s)
  | Some nodeID =>
      match GetNode (x_ctl s.2) nodeID with
      | Err _ => (HttpError 404 "ENROLL_NODE_UNKNOWN", s)
      | Ok _ =>
          match hb_instance h with
          | None => (HttpError 500 "ENROLL_INTERNAL", s)
          | Some stored =>
              match Issue hub_sign t1 t2 t3 nonce (instanceID stored) (hb_keyID h) nodeID s.1 with
              | (Ok (_, raw), m') => (HttpOK raw, (m', s.2))
              | (Err _, m') => (HttpError 503 "ENROLL_INTERNAL", (m', s.2))
              end
          end
      end
  end.

Definition enroll_request_of (nodeID : string) (req : EnrollRequest) (now : Z) (resultID : bytes) : EnrollmentRequest :=
  mkERequest nodeID (hex_of (sha256 (bytes_of (er_Token req)))) (hex_of (sha256 (request_PublicKey req))) (er_AgentCredentialVersion req)
    (hex_of (er_CapabilityHash req)) (hb_keyID h) (hex_of resultID) (wrap_i64 (now + hb_resultTTL h)).

(** The response of a store error. *)
Definition enroll_error (e : XError) : HttpResponse :=
  match e with
  | XTokenNotFound => HttpError 404 "ENROLL_TOKEN_NOT_FOUND"
  | XTokenExpired => HttpError 403 "ENROLL_TOKEN_EXPIRED"
  | XTokenConsumed => HttpError 409 "ENROLL_TOKEN_CONSUMED"
  | XTokenNode => HttpError 403 "ENROLL_TOKEN_NODE_MISMATCH"
  | _ => HttpError 500 "ENROLL_INTERNAL"
  end.

(** The signed [EnrollResult] of a durable binding. *)
Definition result_message (stored : string) (resID : bytes) (r : EnrollmentResult) : EnrollResult :=
  mkEResult (instanceID stored) (el_ControllerKeyID r) (copy_into 16 (bytes_of (el_NodeID r)))
    (match hex_decode (el_AgentPublicKeyHash r) with Some b => if bool_decide (length b = 32%nat) then b else repeat Byte.x00 32 | None => repeat Byte.x00 32 end)
    (el_CredentialVersion r) resID (el_ExpiryUnix r mod 2 ^ 64).

Definition answer_result (r : EnrollmentResult) : HttpResponse :=
  match hex_decode (el_ResultID r) with
  | None => HttpError 500 "ENROLL_INTERNAL"
  | Some resID =>
      if negb (bool_decide (length resID = 16%nat)) then HttpError 500 "ENROLL_INTERNAL"
      else match hb_instance h with
      | None => HttpError 500 "ENROLL_INTERNAL"
      | Some stored =>
          let res := result_message stored resID r in
          match result_SigningBytes res, result_Canonical res with
          | Some m, Some c => match hub_sign m with Some sig => HttpOK (c ++ sig) | None => HttpError 500 "ENROLL_INTERNAL" end
          | _, _ => HttpAbort
          end
      end
  end.

(** [now] is the challenge cache's clock and [hubNow] the hub's, in seconds; [resultID]
    are the random bytes; the other arguments as in [ConsumeEnrollmentToken]. *)
Definition handleEnrollRequest (now hubNow t1 t2 ts : Z) (resultID : bytes) (credID resID : string) (r : HttpRequest) (s : hstate2) : HttpResponse * hstate2 :=
  if negb (ht_allowed r) then (HttpError 403 "ENROLL_PLAINTEXT_PUBLIC_REFUSED", s)
  else if negb (ht_post r) then (HttpError 405 "ENROLL_MALFORMED", s)
  else match ht_body r with
  | None => (HttpError 400 "ENROLL_MALFORMED", s)
  | Some sent =>
      let body := take (Z.to_nat (hb_maxBody h)) sent in
      match challengeHashOf body with
      | None => (HttpError 400 "ENROLL_MALFORMED", s)
      | Some hash =>
          match ValidateAndConsume now hash s.1 with
          | (Err _, m') => (HttpError 400 "ENROLL_CHALLENGE_REJECTED", (m', s.2))
          | (Ok nodeID, m') =>
              match ParseEnrollRequest body hash with
              | Err _ => (HttpError 401 "ENROLL_MALFORMED", (m', s.2))
              | Ok req =>
                  match commit_tx (ConsumeEnrollmentToken t1 t2 ts credID resID (enroll_request_of nodeID req hubNow resultID)) s.2 with
                  | (Err e, x') => (enroll_error e, (m', set_events x' (x_events x' ++ [EvHub "ENROLLMENT_REJECTED" nodeID])))
                  | (Ok None, x') => (HttpError 409 "ENROLL_NODE_CREDENTIAL_CONFLICT", (m', set_events x' (x_events x' ++ [EvHub "ENROLLMENT_REJECTED" nodeID])))
                  | (Ok (Some (result, replayed)), x') =>
                      let resp := answer_result result in
                      (resp, (m', match resp with
                                  | HttpOK _ => if replayed then set_events x' (x_events x' ++ [EvHub "ENROLLMENT_REPLAYED" nodeID]) else x'
                                  | _ => x' end))
                  end
              end
          end
      end
  end.
End Handlers.
