(* ===== verification/CtlLifecycle.v ===== *)
(** * Key rotation, restore, cleanup tombstones and node deletion

    [src/internal/controller/store/lifecycle.go], [restore.go], [node_delete_p17.go] and
    [p15_repair1_node_delete.go], and the guards of
    [src/internal/controller/lifecycle] over them.  Where the code reads in one
    statement and writes in another, the earlier reads are arguments: the databases
    they saw, which other writers may have changed since. *)

From Stdlib Require Import ZArith Lia Strings.Byte.
From stdpp Require Import base tactics list sets strings option.
From S2P Require Import Prelude GoStd Frame Sql Control CtlDb.

Open Scope Z_scope.

(** ** Cleanup tombstones *)

Definition cl_touch (now : Z) (c : CleanupRow) : CleanupRow :=
  mkCleanup (cl_id c) (cl_node c) (cl_operation c) (cl_force c) (cl_confirmed c) (cl_hashes c) (cl_versions c) (cl_created c) now.
Definition cl_confirm (now : Z) (c : CleanupRow) : CleanupRow :=
  mkCleanup (cl_id c) (cl_node c) (cl_operation c) (cl_force c) true (cl_hashes c) (cl_versions c) (cl_created c) now.
Definition cl_at (nodeID : string) (c : CleanupRow) : bool := String.eqb (cl_node c) nodeID.

Section Tombstones.
Context `{Crypto}.

Definition CreateNodeCleanupTombstone (now : Z) (ts : CleanupRow) : xt unit :=
  sql_fail_if String.eqb (cl_node ts) "" || String.eqb (cl_operation ts) "" with XInvalid ;;
  sql! existing := sql_read (λ x, sql_row (cl_at (cl_node ts)) (t_cleanup (x_ctl x))) in
  match existing with
  | Some c =>
      sql_fail_if negb (String.eqb (cl_operation c) (cl_operation ts)) with XCleanupConflict ;;
      sql_write (λ x, with_ctl x (set_cleanup (x_ctl x) (sql_update (cl_at (cl_node ts)) (cl_touch now) (t_cleanup (x_ctl x)))))
  | None =>
      let id := orDefault (cl_id ts) (deterministicMessageID (cl_operation ts) "node_cleanup_tombstone") in
      sql! clash := sql_read (λ x, sql_exists (λ c, String.eqb (cl_id c) id) (t_cleanup (x_ctl x))) in
      sql_fail_if clash with XStore CsConstraint ;;
      sql_write (λ x, with_ctl x (set_cleanup (x_ctl x) (t_cleanup (x_ctl x) ++
        [mkCleanup id (cl_node ts) (cl_operation ts) (cl_force ts) (cl_confirmed ts) (cl_hashes ts) (cl_versions ts) now now])))
  end.
End Tombstones.

Definition NodeCleanupTombstone (nodeID : string) (x : xdb) : result XError CleanupRow :=
  match sql_row (cl_at nodeID) (t_cleanup (x_ctl x)) with Some c => Ok c | None => Err (XStore CsNotFound) end.

Definition MarkCleanupRemoteConfirmed (now : Z) (nodeID : string) : xt unit :=
  sql! n := sql_read (λ x, sql_count (cl_at nodeID) (t_cleanup (x_ctl x))) in
  sql! _ := sql_write (λ x, with_ctl x (set_cleanup (x_ctl x) (sql_update (cl_at nodeID) (cl_confirm now) (t_cleanup (x_ctl x))))) in
  sql_fail_if (n =? 0)%nat with XStore CsNotFound ;; sql_ret tt.

(** ** Key rotation *)

Definition kr_at (id : string) (r : RotationRow) : bool := String.eqb (kr_id r) id.
Definition kr_live (r : RotationRow) : bool := negb (String.eqb (kr_phase r) "RETIRED").
Definition kr_advance (next : string) (now : Z) (r : RotationRow) : RotationRow :=
  mkRotation (kr_id r) (kr_scope r) (kr_old_id r) (kr_old_gen r) (kr_new_id r) (kr_new_key r) (kr_new_gen r) next (kr_not_before r) (kr_deadline r)
    (kr_certificate r) (kr_created r) now.

Definition CreateKeyRotationOperation (now : Z) (op : RotationRow) : xt unit :=
  sql_fail_if String.eqb (kr_id op) "" || String.eqb (kr_scope op) "" || String.eqb (kr_old_id op) "" || String.eqb (kr_new_id op) "" with XInvalid ;;
  let phase := orDefault (kr_phase op) "PREPARED" in
  sql! active := sql_read (λ x, sql_exists (λ r, String.eqb (kr_scope r) (kr_scope op) && kr_live r) (x_rotations x)) in
  sql_fail_if active with XStore CsCASConflict ;;
  sql_fail_if negb (binds (kr_old_gen op)) || negb (binds (kr_new_gen op)) with XStore CsBind ;;
  sql! clash := sql_read (λ x, sql_exists (kr_at (kr_id op)) (x_rotations x)) in
  sql_fail_if clash with XStore CsConstraint ;;
  sql_write (λ x, set_rotations x (x_rotations x ++
    [mkRotation (kr_id op) (kr_scope op) (kr_old_id op) (kr_old_gen op) (kr_new_id op) (kr_new_key op) (kr_new_gen op) phase (kr_not_before op)
       (kr_deadline op) (kr_certificate op) now now])).

(** The acknowledgements of a removed operation go with it. *)
Definition DeleteKeyRotationOperation (id : string) : xt unit :=
  sql_fail_if String.eqb id "" with XStore CsNotFound ;;
  let w r := kr_at id r && String.eqb (kr_phase r) "PREPARED" in
  sql! n := sql_read (λ x, sql_count w (x_rotations x)) in
  sql_fail_if (n =? 0)%nat with XStore CsNotFound ;;
  sql_write (λ x, set_acks (set_rotations x (sql_delete w (x_rotations x))) (sql_delete (λ a, String.eqb (ka_operation a) id) (x_acks x))).

Definition rotationPhaseNext (phase : string) : string :=
  if String.eqb phase "PREPARED" then "ANNOUNCED" else if String.eqb phase "ANNOUNCED" then "ACKED"
  else if String.eqb phase "ACKED" then "ACTIVE" else if String.eqb phase "ACTIVE" then "RETIRED" else "".

Definition AdvanceKeyRotationPhaseCAS (now : Z) (id expected next : string) : xt unit :=
  sql_fail_if String.eqb id "" || String.eqb expected "" || String.eqb next "" with XStore CsIllegalPhase ;;
  sql_fail_if negb (String.eqb (rotationPhaseNext expected) next) with XStore CsIllegalPhase ;;
  let w r := kr_at id r && String.eqb (kr_phase r) expected in
  sql! n := sql_read (λ x, sql_count w (x_rotations x)) in
  if (n =? 1)%nat then sql_write (λ x, set_rotations x (sql_update w (kr_advance next now) (x_rotations x)))
  else sql! current := sql_read (λ x, sql_row (kr_at id) (x_rotations x)) in
       match current with None => sql_fail (XStore CsNotFound) | Some _ => sql_fail (XStore CsCASConflict) end.

Definition AdvanceKeyRotationPhase (before : xdb) (now : Z) (id next : string) : xt unit :=
  match sql_row (kr_at id) (x_rotations before) with
  | None => sql_fail (XStore CsNotFound)
  | Some r =>
      sql_fail_if negb (String.eqb (rotationPhaseNext (kr_phase r)) next) with XStore CsIllegalPhase ;;
      AdvanceKeyRotationPhaseCAS now id (kr_phase r) next
  end.

Definition GetKeyRotationOperation (id : string) (x : xdb) : result XError RotationRow :=
  match sql_row (kr_at id) (x_rotations x) with Some r => Ok r | None => Err (XStore CsNotFound) end.

(** [INSERT OR IGNORE] skips a duplicate; a missing operation violates the foreign key. *)
Definition RecordKeyRotationAgentACK (before1 before2 : xdb) (now : Z) (operationID nodeID : string) : xt unit :=
  sql_fail_if String.eqb operationID "" || String.eqb nodeID "" with XStore CsCASConflict ;;
  match GetKeyRotationOperation operationID before1, GetNode (x_ctl before2) nodeID with
  | Err e, _ => sql_fail e
  | _, Err e => sql_fail (XStore e)
  | Ok _, Ok _ =>
      sql! seen := sql_read (λ x, sql_exists (λ a, String.eqb (ka_operation a) operationID && String.eqb (ka_node a) nodeID) (x_acks x)) in
      if seen then sql_ret tt
      else sql! parent := sql_read (λ x, sql_exists (kr_at operationID) (x_rotations x)) in
           sql_fail_if negb parent with XStore CsConstraint ;;
           sql_write (λ x, set_acks x (x_acks x ++ [mkAck operationID nodeID now]))
  end.

Definition acked (x : xdb) (operationID nodeID : string) : bool :=
  sql_exists (λ a, String.eqb (ka_operation a) operationID && String.eqb (ka_node a) nodeID) (x_acks x).
Definition AllRotationAgentsAcknowledged (operationID : string) (x : xdb) : result XError bool :=
  fail_if String.eqb operationID "" with XStore CsCASConflict ;;
  Ok (sql_count (λ n, negb (acked x operationID (nd_id n))) (t_nodes (x_ctl x)) =? 0)%nat.

Definition ForceRetireKeyRotationOperation (now : Z) (id : string) : xt unit :=
  let w r := kr_at id r && (String.eqb (kr_phase r) "ACKED" || String.eqb (kr_phase r) "ACTIVE") in
  sql! n := sql_read (λ x, sql_count w (x_rotations x)) in
  if (n =? 0)%nat then
    sql! current := sql_read (λ x, sql_row (kr_at id) (x_rotations x)) in
    match current with None => sql_fail (XStore CsNotFound) | Some _ => sql_fail (XStore CsIllegalPhase) end
  else sql_write (λ x, set_rotations x (sql_update w (kr_advance "RETIRED" now) (x_rotations x))).

Definition EnforceRotationBackupBarrier (x : xdb) : bool := negb (existsb kr_live (x_rotations x)).

(** *** The lifecycle guard *)

Definition RotationFSMSingleStep (phase next : string) : bool :=
  existsb (λ p, String.eqb p.1 phase && String.eqb p.2 next)
    [("PREPARED", "ANNOUNCED"); ("ANNOUNCED", "ACKED"); ("ACKED", "ACTIVE"); ("ACTIVE", "RETIRED")]%string.

(** [before1] is the database of the first read and [before2] that of the
    acknowledgement count; [clock] is the wall clock. *)
Definition AdvanceRotationPhase (before1 before2 : xdb) (clock now : Z) (operationID next : string) (forceRetire : bool) : xt RotationRow :=
  match GetKeyRotationOperation operationID before1 with
  | Err e => sql_fail e
  | Ok op =>
      if negb (RotationFSMSingleStep (kr_phase op) next) then
        if forceRetire && String.eqb next "RETIRED" && String.eqb (kr_phase op) "ACKED" then
          sql! _ := ForceRetireKeyRotationOperation now operationID in sql_ret (kr_advance "RETIRED" (kr_updated op) op)
        else sql_fail XPhaseRefused
      else
        match (if String.eqb next "RETIRED" && negb forceRetire then
                 fail_if negb (String.eqb (kr_phase op) "ACTIVE") with XPhaseRefused ;;
                 fail_if clock <? kr_deadline op with XPhaseRefused ;;
                 let* all := AllRotationAgentsAcknowledged operationID before2 in
                 fail_if negb all with XPhaseRefused ;; Ok tt
               else Ok tt) with
        | Err e => sql_fail e
        | Ok _ =>
            sql! _ := AdvanceKeyRotationPhaseCAS now operationID (kr_phase op) next in sql_ret (kr_advance next (kr_updated op) op)
        end
  end.

Definition ForceRetireRotatedKey (before1 before2 : xdb) (clock now : Z) (operationID : string) : xt unit :=
  sql! _ := AdvanceRotationPhase before1 before2 clock now operationID "RETIRED" true in sql_ret tt.

(** ** Restore *)

Definition rs_at (id : string) (r : RestoreRow) : bool := String.eqb (rs_id r) id.
Definition rs_advance (next : string) (now : Z) (r : RestoreRow) : RestoreRow :=
  mkRestore (rs_id r) (rs_instance r) (rs_manifest r) (rs_schema r) next (rs_created r) now.

Definition GetRestoreOperation (id : string) (x : xdb) : result XError RestoreRow :=
  match sql_row (rs_at id) (t_restores (x_ctl x)) with Some r => Ok r | None => Err (XStore CsNotFound) end.

Definition new_restore (now : Z) (op : RestoreRow) : RestoreRow :=
  mkRestore (rs_id op) (rs_instance op) (rs_manifest op) (rs_schema op) (orDefault (rs_phase op) "RESTORE_RECONCILIATION") now now.
Definition restores_push (r : RestoreRow) (x : xdb) : xdb := with_ctl x (set_restores (x_ctl x) (t_restores (x_ctl x) ++ [r])).

Definition CreateRestoreOperation (now : Z) (op : RestoreRow) : xt unit :=
  sql_fail_if String.eqb (rs_id op) "" || String.eqb (rs_manifest op) "" with XInvalid ;;
  sql! clash := sql_read (λ x, sql_exists (rs_at (rs_id op)) (t_restores (x_ctl x))) in
  sql_fail_if clash with XStore CsConstraint ;; sql_write (restores_push (new_restore now op)).

Definition restore_allowed (current next : string) : bool :=
  (String.eqb current "RESTORE_RECONCILIATION" && String.eqb next "RECONCILING")
  || (String.eqb current "RECONCILING" && String.eqb next "AUTHORIZED")
  || (String.eqb current "AUTHORIZED" && String.eqb next "AUTHORIZED")
  || (String.eqb current "RESTORE_RECONCILIATION" && String.eqb next "AUTHORIZED").

Definition AdvanceRestorePhase (before : xdb) (now : Z) (id next : string) : xt unit :=
  sql_fail_if String.eqb id "" || String.eqb next "" with XStore CsIllegalPhase ;;
  match sql_row (rs_at id) (t_restores (x_ctl before)) with
  | None => sql_fail (XStore CsNotFound)
  | Some r =>
      sql_fail_if negb (restore_allowed (rs_phase r) next) with XStore CsIllegalPhase ;;
      let w y := rs_at id y && String.eqb (rs_phase y) (rs_phase r) in
      sql! n := sql_read (λ x, sql_count w (t_restores (x_ctl x))) in
      sql_fail_if (n =? 0)%nat with XStore CsNotFound ;;
      sql_write (λ x, with_ctl x (set_restores (x_ctl x) (sql_update w (rs_advance next now) (t_restores (x_ctl x)))))
  end.

Definition ws_revoke (now : Z) (w : WebRow) : WebRow := mkWeb (ws_id w) (ws_user w) (ws_hash w) (ws_expires w) (Some now).
Definition tk_revoke (t : TokenRow) : TokenRow := mkToken (tk_id t) (tk_hash t) (tk_node t) "REVOKED" (tk_expires t) (tk_created t) (tk_consumed t).
Definition nd_quarantine (op : string) (now : Z) (n : NodeRow) : NodeRow :=
  mkNode (nd_id n) (nd_name n) (nd_epoch n) (nd_session n) (nd_control n) (nd_revision n) true op
    (if nd_quarantined n && String.eqb (nd_quarantine_op n) op then nd_quarantine_gen n else nd_quarantine_gen n + 1) (nd_created n) now.
Definition nd_release (now : Z) (n : NodeRow) : NodeRow :=
  mkNode (nd_id n) (nd_name n) (nd_epoch n) (nd_session n) (nd_control n) (nd_revision n) false (nd_quarantine_op n) (nd_quarantine_gen n) (nd_created n) now.

Definition EnterRestoreReconciliation (now : Z) (op : RestoreRow) : xt unit :=
  sql_fail_if String.eqb (rs_id op) "" || String.eqb (rs_manifest op) "" with XInvalid ;;
  sql! known := sql_read (λ x, sql_exists (rs_at (rs_id op)) (t_restores (x_ctl x))) in
  sql! _ := sql_write (λ x, if known then x else restores_push (new_restore now op) x) in
  sql! _ := sql_write (λ x, set_web x (sql_update (λ w, match ws_revoked w with None => true | Some _ => false end) (ws_revoke now) (x_web x))) in
  sql! _ := sql_write (λ x, set_tokens x (sql_update (λ t, match tk_consumed t with None => String.eqb (tk_status t) "PENDING" | Some _ => false end)
    tk_revoke (x_tokens x))) in
  sql_write (λ x, with_ctl x (set_nodes (x_ctl x) (sql_update (λ _, true) (nd_quarantine (rs_id op) now) (t_nodes (x_ctl x))))).

(** The early success on a node that is not quarantined rolls back an empty transaction. *)
Definition ReauthorizeNodeForOperation (now : Z) (nodeID restoreOperationID : string) : xt unit :=
  sql_fail_if String.eqb nodeID "" || String.eqb restoreOperationID "" with XStore CsCASConflict ;;
  sql! row := sql_read (λ x, sql_row (rs_at restoreOperationID) (t_restores (x_ctl x))) in
  match row with
  | None => sql_fail (XStore CsNotFound)
  | Some r =>
      sql_fail_if negb (String.eqb (rs_phase r) "AUTHORIZED") with XStore CsIllegalPhase ;;
      let w n := String.eqb (nd_id n) nodeID && nd_quarantined n && String.eqb (nd_quarantine_op n) restoreOperationID in
      sql! n := sql_read (λ x, sql_count w (t_nodes (x_ctl x))) in
      if (n =? 0)%nat then
        sql! node := sql_read (λ x, sql_row (λ n, String.eqb (nd_id n) nodeID) (t_nodes (x_ctl x))) in
        match node with
        | None => sql_fail (XStore CsNodeNotFound)
        | Some n => sql_fail_if nd_quarantined n with XStore CsCASConflict ;; sql_ret tt
        end
      else sql_write (λ x, with_ctl x (set_nodes (x_ctl x) (sql_update w (nd_release now) (t_nodes (x_ctl x)))))
  end.

Definition FinalizeRestore (before1 before2 : xdb) (now : Z) (operationID : string) : xt RestoreRow :=
  match GetRestoreOperation operationID before1 with
  | Err e => sql_fail e
  | Ok op =>
      if String.eqb (rs_phase op) "AUTHORIZED" then sql_ret op
      else
        sql_fail_if negb (String.eqb (rs_phase op) "RESTORE_RECONCILIATION") && negb (String.eqb (rs_phase op) "RECONCILING") with XPhaseRefused ;;
        sql! _ := AdvanceRestorePhase before2 now operationID "AUTHORIZED" in sql_ret (rs_advance "AUTHORIZED" (rs_updated op) op)
  end.

(** ** Node deletion *)

(** What [encoding/json] and the strict decoder read from the inbox payloads. *)
Record NodeAck : Type := mkNodeAck { na_NodeID : string; na_OperationID : string; na_Status : string; na_Force : bool }.
Record DeletionPayload : Type := mkDeletionPayload { dp_ForwardID : string; dp_DeletionOperationID : string; dp_Deleted : bool }.
Class CtlJson := {
  unmarshal_ack : string → option NodeAck;
  strict_deletion : string → option DeletionPayload
}.

Section NodeDeletion.
Context `{Crypto}.

(** [insertOutboxExec]: an outbox insert inside another transaction, without the enqueue
    guard. *)
Definition insertOutboxExec (now : Z) (item : ControlOutboxItem) : xt unit :=
  let commandID := deterministicMessageID (ci_OperationID item) (ci_MessageType item) in
  let resultID := deterministicMessageID commandID "operation_complete" in
  let controllerResultID := deterministicMessageID (ci_OperationID item) "operation_complete" in
  sql! clash := sql_read (λ x, sql_exists (ob_at (ci_OperationID item) (ci_MessageType item)) (t_outbox (x_ctl x))) in
  sql_fail_if clash with XStore CsConstraint ;;
  sql_write (λ x, with_ctl x (insert_outbox (x_ctl x) (mkOutbox (t_seq_outbox (x_ctl x) + 1) (ci_OperationID item) (ci_MessageType item) (ci_NodeID item)
    (ci_SemanticPayload item) "PENDING" None 0 (Some commandID) (Some resultID) (Some controllerResultID) now))).

Definition xd_at (id : string) (r : NodeDelRow) : bool := String.eqb (xd_id r) id.
Definition nodedel_insert (now : Z) (op : NodeDelRow) : xt unit :=
  sql! clash := sql_read (λ x, sql_exists (xd_at (xd_id op)) (x_nodedels x)) in
  sql_fail_if clash with XStore CsConstraint ;;
  sql_write (λ x, set_nodedels x (x_nodedels x ++ [mkNodeDel (xd_id op) (xd_node op) (xd_status op) (xd_mode op) now None])).
Definition nodedel_incomplete (op : NodeDelRow) : bool :=
  String.eqb (xd_id op) "" || String.eqb (xd_node op) "" || String.eqb (xd_status op) "" || String.eqb (xd_mode op) "".

Definition CreateNodeDeletionOperation (now : Z) (op : NodeDelRow) : xt unit :=
  sql_fail_if nodedel_incomplete op with XInvalid ;; nodedel_insert now op.

Definition DeleteNodeDeletionOperation (id : string) : xt unit :=
  sql_fail_if String.eqb id "" with XStore CsNotFound ;;
  sql! n := sql_read (λ x, sql_count (xd_at id) (x_nodedels x)) in
  sql_fail_if (n =? 0)%nat with XStore CsNotFound ;;
  sql_write (λ x, set_nodedels x (sql_delete (xd_at id) (x_nodedels x))).

(** Every branch of [classifyNodeDeleteCAS] is an error. *)
Definition classifyNodeDeleteCAS (nodeID : string) (x : xdb) : XError :=
  if negb (node_exists x nodeID) then XStore CsNodeNotFound
  else if sql_exists (cl_at nodeID) (t_cleanup (x_ctl x)) then XCleanupConflict
  else XStore CsCASConflict.

Definition deletable (nodeID : string) (revision : Z) (x : xdb) : bool :=
  sql_exists (λ n, String.eqb (nd_id n) nodeID && (nd_revision n =? revision)) (t_nodes (x_ctl x))
  && negb (sql_exists (cl_at nodeID) (t_cleanup (x_ctl x))).
Definition normal_pending (nodeID : string) (d : NodeDelRow) : bool :=
  String.eqb (xd_node d) nodeID && String.eqb (xd_mode d) "normal"
  && existsb (String.eqb (xd_status d)) ["PENDING"; "IN_PROGRESS"; "RECEIVED"; "APPLYING"; "INTENT_PERSISTED"]%string.

Definition CreateNodeDeletionOperationCAS (now : Z) (op : NodeDelRow) (expectedRevision : Z) : xt unit :=
  sql_fail_if nodedel_incomplete op with XInvalid ;;
  sql_fail_if negb (binds expectedRevision) with XStore CsBind ;;
  sql! ok := sql_read (deletable (xd_node op) expectedRevision) in
  if ok then nodedel_insert now op else sql_check (λ x, Err (classifyNodeDeleteCAS (xd_node op) x)).

Definition ApplyNodeDeleteCAS (now : Z) (op : NodeDelRow) (outbox : ControlOutboxItem) (expectedRevision : Z) : xt unit :=
  sql_fail_if nodedel_incomplete op with XInvalid ;;
  sql_fail_if negb (String.eqb (xd_mode op) "normal") with XInvalid ;;
  sql_fail_if negb (binds expectedRevision) with XStore CsBind ;;
  sql! ok := sql_read (λ x, deletable (xd_node op) expectedRevision x && negb (sql_exists (normal_pending (xd_node op)) (x_nodedels x))) in
  if ok then sql! _ := nodedel_insert now op in insertOutboxExec now outbox
  else sql_check (λ x, Err (classifyNodeDeleteCAS (xd_node op) x)).

Definition ApplyNodeDelete (now : Z) (op : NodeDelRow) (outbox : ControlOutboxItem) : xt unit :=
  sql! _ := nodedel_insert now (mkNodeDel (xd_id op) (xd_node op) (orDefault (xd_status op) "PENDING") (orDefault (xd_mode op) "normal") 0 None) in
  insertOutboxExec now outbox.

Context `{CtlJson}.

Definition xd_complete (now : Z) (d : NodeDelRow) : NodeDelRow := mkNodeDel (xd_id d) (xd_node d) "COMPLETED" (xd_mode d) (xd_created d) (Some now).

(** The inbox row of a result, marked PROCESSED unless it already is. *)
Definition dispose_result (now : Z) (messageID inboxState : string) : xt unit :=
  if String.eqb inboxState ControlInboxProcessed then sql_ret tt
  else
    let w r := ib_at messageID r && received r in
    sql! n := sql_read (λ x, sql_count w (t_inbox (x_ctl x))) in
    sql_fail_if negb (n =? 1)%nat with XStore CsCASConflict ;;
    sql_write (λ x, with_ctl x (set_inbox (x_ctl x) (sql_update w (ib_dispose ControlInboxProcessed now) (t_inbox (x_ctl x))))).

Definition check_ack (r : InboxRow) (op : NodeDelRow) : result XError NodeAck :=
  match unmarshal_ack (ib_payload r) with
  | None => Err XPermanentDeletion
  | Some ack =>
      let inboxOperation := coalesce (ib_operation r) in
      fail_if String.eqb (na_NodeID ack) "" || String.eqb (na_OperationID ack) "" with XPermanentDeletion ;;
      fail_if negb (String.eqb (na_NodeID ack) (ib_node r)) || negb (String.eqb (na_OperationID ack) inboxOperation)
              || negb (String.eqb (na_NodeID ack) (xd_node op)) || negb (String.eqb (na_OperationID ack) (xd_id op)) with XPermanentDeletion ;;
      fail_if negb (String.eqb (na_Status ack) "DECOMMISSIONED") && negb (String.eqb (na_Status ack) "DROPPED_DUE_TO_DECOMMISSION") with XPermanentDeletion ;;
      fail_if negb (Bool.eqb (na_Force ack) (String.eqb (xd_mode op) "force")) with XPermanentDeletion ;;
      Ok ack
  end.

(** [None] is the row that is not a node deletion's result. *)
Definition CompleteNodeDeletionResult (now : Z) (messageID : string) : xt (option NodeDelRow) :=
  sql_fail_if String.eqb messageID "" with XStore CsCASConflict ;;
  sql! row := sql_read (λ x, sql_row (ib_at messageID) (t_inbox (x_ctl x))) in
  match row with
  | None => sql_fail (XStore CsNotFound)
  | Some r =>
      sql_fail_if negb (String.eqb (ib_type r) "node_decommission_ack") with XStore CsNotFound ;;
      sql! found := sql_read (λ x, sql_row (xd_at (coalesce (ib_operation r))) (x_nodedels x)) in
      match found with
      | None => sql_ret None
      | Some op =>
          match check_ack r op with
          | Err e => sql_fail e
          | Ok ack =>
              sql! op' := (if String.eqb (xd_status op) "COMPLETED" then sql_ret op
                           else if String.eqb (xd_status op) "PENDING" then
                             let w d := xd_at (xd_id op) d && String.eqb (xd_node d) (xd_node op) && String.eqb (xd_status d) "PENDING" in
                             sql! n := sql_read (λ x, sql_count w (x_nodedels x)) in
                             sql_fail_if negb (n =? 1)%nat with XStore CsCASConflict ;;
                             sql! _ := sql_write (λ x, set_nodedels x (sql_update w (xd_complete now) (x_nodedels x))) in
                             sql_ret (xd_complete now op)
                           else sql_fail (XStore CsCASConflict)) in
              sql! _ := (if String.eqb (xd_mode op) "force" && String.eqb (na_Status ack) "DECOMMISSIONED" then
                           let w c := cl_at (xd_node op) c && String.eqb (cl_operation c) (xd_id op) && cl_force c in
                           sql! n := sql_read (λ x, sql_count w (t_cleanup (x_ctl x))) in
                           sql_fail_if negb (n =? 1)%nat with XStore CsCASConflict ;;
                           sql_write (λ x, with_ctl x (set_cleanup (x_ctl x) (sql_update w (cl_confirm now) (t_cleanup (x_ctl x)))))
                         else sql_ret tt) in
              sql! _ := dispose_result now messageID (ib_state r) in
              sql_ret (Some op')
          end
      end
  end.
End NodeDeletion.

(** ** Force deletion

    [terminate] are the results of the session callbacks and [payload] the marshalled
    command, [None] without an enqueue function.  The steps commit one by one. *)
Section ForceDelete.
Context `{Crypto}.

Record DecommissionRequest : Type := mkDecommission { dr_NodeID : string; dr_OperationID : string; dr_hashes : list string; dr_versions : list Z }.

Definition ForceDeleteNode (now now' : Z) (terminate : list bool) (payload : option string) (req : DecommissionRequest) (x : xdb) : result XError unit * xdb :=
  match GetNode (x_ctl x) (dr_NodeID req) with
  | Err e => (Err (XStore e), x)
  | Ok _ =>
      if String.eqb (dr_OperationID req) "" then (Err XInvalid, x)
      else match commit_tx (CreateNodeCleanupTombstone now
                  (mkCleanup "" (dr_NodeID req) (dr_OperationID req) true false (dr_hashes req) (dr_versions req) 0 0)) x with
      | (Err e, x1) => (Err e, x1)
      | (Ok _, x1) =>
          if negb (forallb id terminate) then (Err XInvalid, x1)
          else match payload with
          | None => (Ok tt, x1)
          | Some p => commit_tx (on_ctl (EnqueueControlOutbox now' (mkItem (dr_OperationID req) "node_decommission" (dr_NodeID req) p "" 0))) x1
          end
      end
  end.
End ForceDelete.
