(* ===== verification/Forwards.v ===== *)
(** * Forwards, their desired specs and deletions, and idempotent creation

    [src/internal/controller/store/forwards.go], [transactions.go], [idempotency.go],
    [node_bundle.go] and the forward and deletion transactions of [minapi.go]. *)

From Stdlib Require Import ZArith Lia Strings.Byte.
From stdpp Require Import base tactics list sets strings option.
From S2P Require Import Prelude GoStd Frame Probe Sql Control CtlDb CtlLifecycle.

Open Scope Z_scope.

(** ** Rows *)

Definition fw_at (id : string) (f : ForwardRow) : bool := String.eqb (fw_id f) id.
Definition fw_bump (activation : option string) (now : Z) (f : ForwardRow) : ForwardRow :=
  mkForward (fw_id f) (fw_node f) (fw_name f) (fw_protocol f) activation (fw_revision f + 1) (fw_created f) now.

(** The inserts, with the PRIMARY KEY, UNIQUE and FOREIGN KEY constraints of the schema;
    a name clash on the node has its own error where the caller tells it apart. *)
Definition forward_insert (name_clash : XError) (now : Z) (f : ForwardRow) : xt unit :=
  sql_fail_if negb (binds (fw_revision f)) with XStore CsBind ;;
  sql! known := sql_read (λ x, node_exists x (fw_node f)) in
  sql! dup := sql_read (λ x, sql_exists (fw_at (fw_id f)) (x_forwards x)) in
  sql! named := sql_read (λ x, sql_exists (λ g, String.eqb (fw_node g) (fw_node f) && String.eqb (fw_name g) (fw_name f)) (x_forwards x)) in
  sql_fail_if dup with XStore CsConstraint ;;
  sql_fail_if named with name_clash ;;
  sql_fail_if negb known with XStore CsConstraint ;;
  sql_write (λ x, set_forwards x (x_forwards x ++
    [mkForward (fw_id f) (fw_node f) (fw_name f) (fw_protocol f) (Some (coalesce (fw_activation f))) (fw_revision f) now now])).
Definition spec_insert (now : Z) (s : SpecRow) : xt unit :=
  sql_fail_if negb (binds (sp_revision s)) with XStore CsBind ;;
  sql! known := sql_read (λ x, sql_exists (fw_at (sp_forward s)) (x_forwards x)) in
  sql! clash := sql_read (λ x, sql_exists (λ t, String.eqb (sp_id t) (sp_id s) || (String.eqb (sp_forward t) (sp_forward s) && (sp_revision t =? sp_revision s))) (x_specs x)) in
  sql_fail_if negb known || clash with XStore CsConstraint ;;
  sql_write (λ x, set_specs x (x_specs x ++ [mkSpec (sp_id s) (sp_forward s) (sp_revision s) (sp_json s) now])).

(** [UPDATE forwards SET ..., revision = revision + 1 WHERE id AND revision]: the number
    of rows; an increment past the largest SQLite integer is rejected. *)
Definition forward_cas (activation : ForwardRow → option string) (now : Z) (id : string) (revision : Z) : xt nat :=
  sql_fail_if negb (binds revision) with XStore CsBind ;;
  let w f := fw_at id f && (fw_revision f =? revision) in
  sql! overflow := sql_read (λ x, sql_exists (λ f, w f && (2 ^ 63 - 1 <=? fw_revision f)) (x_forwards x)) in
  sql_fail_if overflow with XStore CsConstraint ;;
  sql! n := sql_read (λ x, sql_count w (x_forwards x)) in
  sql! _ := sql_write (λ x, set_forwards x (sql_update w (λ f, fw_bump (activation f) now f) (x_forwards x))) in
  sql_ret n.

Definition GetForward (id : string) (x : xdb) : result XError ForwardRow :=
  match sql_row (fw_at id) (x_forwards x) with
  | None => Err XForwardNotFound
  | Some f => match fw_activation f with Some _ => Ok f | None => Err (XStore CsNullScan) end
  end.

Definition CreateForward (capacity : bool) (now : Z) (f : ForwardRow) : xt ForwardRow :=
  sql_fail_if negb capacity with XStore CsRefused ;;
  sql! _ := forward_insert (XStore CsConstraint) now f in
  sql_check (GetForward (fw_id f)).

Definition CASForwardActivation (now : Z) (id : string) (expectedRevision : Z) (newActivationID : string) : xt unit :=
  sql! n := forward_cas (λ _, Some newActivationID) now id expectedRevision in
  sql_fail_if negb (n =? 1)%nat with XStore CsCASConflict ;; sql_ret tt.

(** The specs, activation records and runtime status cascade with their Forward. *)
Definition DeleteForwardRow (id : string) : xt unit :=
  sql! n := sql_read (λ x, sql_count (fw_at id) (x_forwards x)) in
  sql_fail_if negb (n =? 1)%nat with XForwardNotFound ;;
  sql_write (λ x, set_runtime (set_activations (set_specs (set_forwards x (sql_delete (fw_at id) (x_forwards x)))
      (sql_delete (λ s, String.eqb (sp_forward s) id) (x_specs x))) (sql_delete (λ a, String.eqb (av_forward a) id) (x_activations x)))
    (sql_delete (λ r, String.eqb (rt_forward r) id) (x_runtime x))).

Definition CreateForwardSpec (now : Z) (s : SpecRow) : xt unit := spec_insert now s.
Definition ForwardSpecCount (forwardID : string) (x : xdb) : nat := sql_count (λ s, String.eqb (sp_forward s) forwardID) (x_specs x).

(** The spec of the highest revision. *)
Definition higher_spec (a : option SpecRow) (s : SpecRow) : option SpecRow :=
  match a with Some t => if sp_revision t <? sp_revision s then Some s else Some t | None => Some s end.
Definition LatestForwardSpec (forwardID : string) (x : xdb) : result XError SpecRow :=
  match foldl higher_spec None (sql_select (λ s, String.eqb (sp_forward s) forwardID) (x_specs x)) with
  | Some s => Ok s | None => Err (XStore CsNotFound) end.

(** ** Deletion operations *)

Definition dl_at (id : string) (o : DeletionRow) : bool := String.eqb (dl_id o) id.
Definition deletion_insert (now : Z) (op : DeletionRow) : xt unit :=
  sql_fail_if negb (binds (dl_revision op)) with XStore CsBind ;;
  sql! clash := sql_read (λ x, sql_exists (dl_at (dl_id op)) (t_deletions (x_ctl x))) in
  sql_fail_if clash with XStore CsConstraint ;;
  sql_write (λ x, with_ctl x (set_deletions (x_ctl x) (t_deletions (x_ctl x) ++
    [mkDeletion (dl_id op) (dl_forward op) (orDefault (dl_status op) "PENDING") (dl_revision op) now None]))).
Definition CreateForwardDeletionOperation (now : Z) (op : DeletionRow) : xt unit := deletion_insert now op.
Definition GetForwardDeletionOperation (id : string) (x : xdb) : result XError DeletionRow :=
  match sql_row (dl_at id) (t_deletions (x_ctl x)) with Some o => Ok o | None => Err (XStore CsNotFound) end.

Definition dl_complete (now : Z) (o : DeletionRow) : DeletionRow :=
  mkDeletion (dl_id o) (dl_forward o) "COMPLETED" (dl_revision o) (dl_created o) (Some now).
Definition CompleteForwardDeletionOperation (now : Z) (id : string) : xt unit :=
  sql! n := sql_read (λ x, sql_count (dl_at id) (t_deletions (x_ctl x))) in
  sql_fail_if negb (n =? 1)%nat with XStore CsNotFound ;;
  sql_write (λ x, with_ctl x (set_deletions (x_ctl x) (sql_update (dl_at id) (dl_complete now) (t_deletions (x_ctl x))))).

(** [ORDER BY created_at DESC, id DESC LIMIT 1]. *)
Definition later_deletion (a : option DeletionRow) (o : DeletionRow) : option DeletionRow :=
  match a with
  | Some p => if (dl_created p <? dl_created o) || ((dl_created p =? dl_created o) && String.ltb (dl_id p) (dl_id o)) then Some o else Some p
  | None => Some o
  end.
Definition LatestForwardDeletion (forwardID : string) (x : xdb) : result XError DeletionRow :=
  match foldl later_deletion None (sql_select (λ o, String.eqb (dl_forward o) forwardID) (t_deletions (x_ctl x))) with
  | Some o => Ok o | None => Err (XStore CsNotFound) end.

(** ** Desired state and deletion, paired with their commands *)

Section Apply.
Context `{Crypto}.

(** [spec.Revision - 1] wraps at zero. *)
Definition ApplyForwardDesired (now : Z) (spec : SpecRow) (outbox : ControlOutboxItem) : xt unit :=
  sql_fail_if String.eqb (sp_forward spec) "" || String.eqb (ci_OperationID outbox) "" with XIdempotencyConflict ;;
  sql! _ := spec_insert now spec in
  sql! n := forward_cas (λ _, Some (hex_of (ActivationID (sp_forward spec) (sp_revision spec)))) now (sp_forward spec) ((sp_revision spec - 1) mod 2 ^ 64) in
  sql_fail_if negb (n =? 1)%nat with XStore CsCASConflict ;;
  insertOutboxExec now outbox.

Definition ApplyForwardDelete (now : Z) (op : DeletionRow) (outbox : ControlOutboxItem) : xt unit :=
  sql_fail_if String.eqb (dl_id op) "" || negb (String.eqb (ci_OperationID outbox) (dl_id op)) with XIdempotencyConflict ;;
  sql! existing := sql_read (λ x, sql_row (dl_at (dl_id op)) (t_deletions (x_ctl x))) in
  match existing with
  | Some o =>
      sql_fail_if negb (String.eqb (dl_forward o) (dl_forward op)) || negb (dl_revision o =? dl_revision op) with XIdempotencyConflict ;;
      sql! row := sql_read (λ x, sql_row (ob_at (ci_OperationID outbox) (ci_MessageType outbox)) (t_outbox (x_ctl x))) in
      match row with
      | None => sql_fail (XStore CsNoRows)
      | Some r =>
          sql_fail_if negb (String.eqb (ob_node r) (ci_NodeID outbox)) || negb (String.eqb (ob_payload r) (ci_SemanticPayload outbox)) with XIdempotencyConflict ;;
          sql_ret tt
      end
  | None =>
      sql! parent := sql_read (λ x, sql_row (fw_at (dl_forward op)) (x_forwards x)) in
      match parent with
      | None => sql_fail XForwardNotFound
      | Some f =>
          sql_fail_if negb (fw_revision f =? dl_revision op) with XStore CsCASConflict ;;
          sql! _ := deletion_insert now op in
          sql! n := forward_cas fw_activation now (dl_forward op) (dl_revision op) in
          sql_fail_if negb (n =? 1)%nat with XStore CsCASConflict ;;
          insertOutboxExec now outbox
      end
  end.

(** ** Idempotency keys *)

Definition IdempotencyKeyTTL : Z := 24 * 3600.
Definition ik_at (key : string) (r : IdemRow) : bool := String.eqb (ik_key r) key.
Definition ik_same (a b : IdemRow) : bool :=
  String.eqb (ik_route a) (ik_route b) && String.eqb (ik_principal a) (ik_principal b) && String.eqb (ik_request a) (ik_request b).
Definition ik_stamp (ts : Z) (r : IdemRow) : IdemRow :=
  mkIdem (ik_key r) (ik_route r) (ik_principal r) (ik_request r) (ik_status r) (ik_body r) ts
    (if ik_expires r =? 0 then wrap_i64 (ts + IdempotencyKeyTTL) else ik_expires r).

Definition key_insert (rec : IdemRow) : xt unit :=
  sql! clash := sql_read (λ x, sql_exists (ik_at (ik_key rec)) (x_keys x)) in
  sql_fail_if clash with XStore CsConstraint ;; sql_write (λ x, set_keys x (x_keys x ++ [rec])).
Definition key_drop (key : string) : xt unit := sql_write (λ x, set_keys x (sql_delete (ik_at key) (x_keys x))).
Definition key_row (key : string) (x : xdb) : option IdemRow := sql_row (ik_at key) (x_keys x).

(** The record and whether it is a replay; the conflict commits an empty transaction. *)
Definition StoreIdempotency (ts : Z) (rec0 : IdemRow) : xt (IdemRow * bool) :=
  sql_fail_if String.eqb (ik_key rec0) "" with XInvalid ;;
  let rec := ik_stamp ts rec0 in
  sql! existing := sql_read (key_row (ik_key rec0)) in
  match existing with
  | None => sql! _ := key_insert rec in sql_ret (rec, false)
  | Some e =>
      if (ts <? ik_expires e) && ik_same e rec then sql_ret (e, true)
      else if ts <? ik_expires e then sql_fail XIdempotencyConflict
      else
        sql! _ := key_drop (ik_key rec) in
        sql! _ := key_insert rec in
        sql! _ := audit (EvKeyExpired (ik_key rec) (ik_route rec) ts) in
        sql_ret (rec, false)
  end.
Definition GetIdempotency (key : string) (x : xdb) : result XError IdemRow :=
  match key_row key x with Some r => Ok r | None => Err (XStore CsNotFound) end.

Definition CreateForwardBundle (capacity : bool) (ts : Z) (f : ForwardRow) (spec : SpecRow) (outbox : ControlOutboxItem) (rec0 : IdemRow) : xt (IdemRow * bool) :=
  sql_fail_if String.eqb (ik_key rec0) "" with XInvalid ;;
  sql_fail_if String.eqb (fw_id f) "" || negb (String.eqb (sp_forward spec) (fw_id f)) || negb (String.eqb (ci_NodeID outbox) (fw_node f)) with XInvalid ;;
  sql_fail_if negb capacity with XStore CsRefused ;;
  sql! _ := of_read (λ d, EnforceCleanupOnlyEnqueue d (ci_NodeID outbox) (ci_MessageType outbox)) in
  let rec := ik_stamp ts rec0 in
  sql! existing := sql_read (key_row (ik_key rec)) in
  let write :=
    sql! _ := forward_insert XForwardName ts f in
    sql! _ := spec_insert ts spec in
    sql! _ := insertOutboxExec ts outbox in
    sql! _ := key_insert rec in
    sql_ret (rec, false) in
  match existing with
  | None => write
  | Some e =>
      if ts <? ik_expires e then
        sql_fail_if negb (ik_same e rec) with XIdempotencyConflict ;; sql_ret (e, true)
      else
        sql! _ := key_drop (ik_key rec) in
        sql! _ := audit (EvKeyExpired (ik_key rec) (ik_route rec) ts) in
        write
  end.

(** [body] is the marshalled default response. *)
Definition CreateNodeBundle (capacity : bool) (ts : Z) (body : string) (n : NodeRow) (rec0 : IdemRow) : xt (IdemRow * bool) :=
  sql_fail_if String.eqb (ik_key rec0) "" with XInvalid ;;
  sql_fail_if negb capacity with XStore CsRefused ;;
  let rec := ik_stamp ts (mkIdem (ik_key rec0) (ik_route rec0) (ik_principal rec0) (ik_request rec0) (if ik_status rec0 =? 0 then 201 else ik_status rec0)
    (if String.eqb (ik_body rec0) "" then body else ik_body rec0) 0 (ik_expires rec0)) in
  let write :=
    sql! _ := on_ctl (CreateNode true ts n) in
    sql! _ := audit (EvNodeCreated (nd_id n) (nd_name n) ts) in
    sql! _ := key_insert rec in
    sql_ret (rec, false) in
  sql! existing := sql_read (key_row (ik_key rec)) in
  match existing with
  | None => write
  | Some e =>
      if (ts <? ik_expires e) && ik_same e rec then sql_ret (e, true)
      else if ts <? ik_expires e then sql_fail XIdempotencyConflict
      else
        sql! _ := key_drop (ik_key rec) in
        sql! _ := audit (EvKeyExpired (ik_key rec) (ik_route rec) ts) in
        write
  end.
End Apply.

(** ** Deletion results *)

Section DeletionResults.
Context `{Crypto} `{CtlJson}.

(** The outbox row a result message correlates to. *)
Definition by_controller_result (node message : string) (r : OutboxRow) : bool := String.eqb (ob_node r) node && sql_eq (ob_controller_result r) message.
Definition by_result (node message : string) (r : OutboxRow) : bool := String.eqb (ob_node r) node && sql_eq (ob_result r) message.

(** The deletion operation a result message stands for; [CsNotFound] when the message is
    not a deletion's. *)
Definition resolve_deletion (messageID : string) (allowNormalResult : bool) (r : InboxRow) (d : db) : result XError string :=
  match sql_row (by_controller_result (ib_node r) messageID) (t_outbox d) with
  | Some o => Ok (ob_operation o)
  | None =>
      match (if allowNormalResult then sql_row (by_result (ib_node r) messageID) (t_outbox d) else None) with
      | Some o => Ok (ob_operation o)
      | None =>
          let inboxOperation := coalesce (ib_operation r) in
          fail_if String.eqb inboxOperation "" || negb (String.eqb messageID (deterministicMessageID inboxOperation "operation_complete")) with XStore CsNotFound ;;
          fail_if sql_exists (by_result (ib_node r) messageID) (t_outbox d) with XStore CsNotFound ;;
          Ok inboxOperation
      end
  end.

(** The payload must name the durable operation. *)
Definition check_deletion_payload (payload op forward : string) : result XError unit :=
  match strict_deletion payload with
  | None => Err XPermanentDeletion
  | Some p =>
      fail_if negb (dp_Deleted p) || String.eqb (dp_ForwardID p) "" || String.eqb (dp_DeletionOperationID p) "" with XPermanentDeletion ;;
      fail_if negb (String.eqb (dp_DeletionOperationID p) op) || negb (String.eqb (dp_ForwardID p) forward) with XPermanentDeletion ;;
      Ok tt
  end.

Definition completeForwardDeletionMessage (now : Z) (messageID : string) (allowNormalResult : bool) (expectedDeletion expectedForward : string) : xt unit :=
  sql_fail_if String.eqb messageID "" with XPermanentDeletion ;;
  sql! row := sql_read (λ x, sql_row (ib_at messageID) (t_inbox (x_ctl x))) in
  match row with
  | None => sql_fail (XStore CsNotFound)
  | Some r =>
      sql_fail_if negb (String.eqb (ib_type r) "operation_complete") with XStore CsNotFound ;;
      sql! resolved := sql_read (λ x, resolve_deletion messageID allowNormalResult r (x_ctl x)) in
      match resolved with
      | Err e => sql_fail e
      | Ok op =>
          sql! found := sql_read (λ x, sql_row (dl_at op) (t_deletions (x_ctl x))) in
          match found with
          | None => sql_fail (XStore CsNotFound)
          | Some o =>
              sql_fail_if negb (String.eqb expectedDeletion "") && negb (String.eqb expectedDeletion op) with XPermanentDeletion ;;
              sql_fail_if negb (String.eqb expectedForward "") && negb (String.eqb expectedForward (dl_forward o)) with XPermanentDeletion ;;
              match check_deletion_payload (ib_payload r) op (dl_forward o) with
              | Err e => sql_fail e
              | Ok _ =>
                  sql! parent := sql_read (λ x, sql_row (fw_at (dl_forward o)) (x_forwards x)) in
                  match parent with
                  | None => sql_fail XPermanentDeletion
                  | Some f =>
                      sql_fail_if negb (String.eqb (ib_node r) (fw_node f)) with XPermanentDeletion ;;
                      sql_fail_if negb (String.eqb (dl_status o) "PENDING") && negb (String.eqb (dl_status o) "COMPLETED") with XStore CsCASConflict ;;
                      sql! _ := (if String.eqb (dl_status o) "PENDING" then
                                   let w y := dl_at op y && String.eqb (dl_forward y) (dl_forward o) && String.eqb (dl_status y) "PENDING" in
                                   sql! n := sql_read (λ x, sql_count w (t_deletions (x_ctl x))) in
                                   sql_fail_if negb (n =? 1)%nat with XStore CsCASConflict ;;
                                   sql_write (λ x, with_ctl x (set_deletions (x_ctl x) (sql_update w (dl_complete now) (t_deletions (x_ctl x)))))
                                 else sql_ret tt) in
                      dispose_result now messageID (ib_state r)
                  end
              end
          end
      end
  end.

Definition CompleteForwardDeletionMessage (now : Z) (messageID : string) : xt unit := completeForwardDeletionMessage now messageID false "" "".
Definition CompleteForwardDeletionResult (now : Z) (messageID deletionOperationID forwardID : string) : xt unit :=
  sql_fail_if String.eqb messageID "" || String.eqb deletionOperationID "" || String.eqb forwardID "" with XPermanentDeletion ;;
  completeForwardDeletionMessage now messageID true deletionOperationID forwardID.

(** *** The watcher's scan *)

Definition deletion_candidate (x : xdb) (r : InboxRow) : bool :=
  let d := x_ctl x in
  String.eqb (ib_state r) ControlInboxReceived && String.eqb (ib_type r) "operation_complete" &&
  (if sql_exists (by_controller_result (ib_node r) (ib_message r)) (t_outbox d) then
     sql_exists (λ o, by_controller_result (ib_node r) (ib_message r) o && sql_exists (dl_at (ob_operation o)) (t_deletions d)) (t_outbox d)
   else
     let operationID := coalesce (ib_operation r) in
     negb (sql_exists (by_result (ib_node r) (ib_message r)) (t_outbox d)) && negb (String.eqb operationID "")
     && String.eqb (ib_message r) (deterministicMessageID operationID "operation_complete") && sql_exists (dl_at operationID) (t_deletions d)).

(** Examines rows until [limit] candidates are found; the last id examined. *)
Fixpoint candidate_loop (x : xdb) (limit : nat) (last : Z) (l : list InboxRow) : list InboxRow * Z :=
  match l with
  | [] => ([], last)
  | r :: l' =>
      if deletion_candidate x r then
        match limit with
        | S (S n as m) => let '(cs, z) := candidate_loop x m (ib_id r) l' in (r :: cs, z)
        | _ => ([r], ib_id r)
        end
      else candidate_loop x limit (ib_id r) l'
  end.

(** The candidates in inbox order and the advanced cursor; [None] when the store is
    closed. *)
Definition ListForwardDeletionResultCandidates (limit : Z) (c : controlInboxCleanupCursor) (x : xdb)
    : option (list InboxRow) * controlInboxCleanupCursor :=
  let limit := if limit <=? 0 then 500 else limit in
  if cc_closed c then (None, c)
  else
    let fresh := negb (cc_initialized c) || (cc_beforeID c <=? 0) in
    let highWater := if fresh then max_inbox_id (x_ctl x) else cc_highWater c in
    if fresh && (highWater =? 0) then (Some [], resetLocked c)
    else
      let beforeID := if fresh then highWater else cc_beforeID c in
      let page := cleanup_page beforeID maxControlInboxCleanupScan (x_ctl x) in
      let '(candidates, last) := candidate_loop x (Z.to_nat limit) 0 page in
      (Some (rev candidates), if last <=? 1 then resetLocked c else mkCursor highWater (last - 1) true (cc_closed c)).
End DeletionResults.
