(* ===== verification/ProbeStore.v ===== *)
(** * Probe operations, their evidence and the activation mirror

    [src/internal/controller/store/probe.go]: the provider registry, the probe operation
    journal with its status lifecycle, the recorded evidence, the publication of a join,
    the lookups by ARM1 digest, the outcome deliveries with their garbage collection, and
    the runtime status of a Forward.  JSON and Unicode case folding are the class
    [ProbeJson]; a statement that the code runs before its transaction reads its own
    database. *)

From Stdlib Require Import ZArith Lia Strings.Byte.
From stdpp Require Import base tactics list sets strings option sorting gmap.
From S2P Require Import Prelude GoStd Frame Domain Probe Sql Control CtlDb CtlLifecycle Forwards.

Open Scope list_scope.
Open Scope Z_scope.

(** ** JSON and text *)

Record storedProviderResult : Type := mkStored {
  sr_Schema : string; sr_ProbeID : string; sr_Accepted : bool; sr_ChallengeHash : string; sr_WAN1Frame : string; sr_ACK1Frame : string;
  sr_Reason : string; sr_TimestampUnix : Z; sr_Signature : string
}.

(** [DecodeStrictJSONInto] and [json.Marshal] at the types used here, the raw fields of
    an object, and the Unicode tables of [strings.ToLower] and [strings.EqualFold]. *)
Class ProbeJson := {
  decode_states : string → option ActivationStates;
  marshal_states : ActivationStates → string;
  decode_result : string → option storedProviderResult;
  unmarshal_fields : string → option (gmap string string);
  unmarshal_generation : string → option Z;
  marshal_persisted : Z → string → option string;
  marshal_outcome : string → string → Z → string → string;
  ToLower : string → string;
  EqualFold : string → string → bool
}.

(** ** Rows in order *)

(** [ORDER BY column, id], either ascending or descending. *)
Definition page_key : Type := Z * string.
Definition key_ltb (a b : page_key) : bool := (a.1 <? b.1) || ((a.1 =? b.1) && String.ltb a.2 b.2).
Definition key_le {R} (k : R → page_key) (a b : R) : Prop := key_ltb (k b) (k a) = false.
#[export] Instance key_le_dec {R} (k : R → page_key) a b : Decision (key_le k a b).
Proof. unfold key_le. apply _. Defined.
Definition order_by {R} (k : R → page_key) (t : list R) : list R := merge_sort (key_le k) t.
Definition order_desc {R} (k : R → page_key) (t : list R) : list R := merge_sort (flip (key_le k)) t.
Definition sql_limit {R} (n : Z) (t : list R) : list R := take (Z.to_nat n) t.

(** [DELETE ... WHERE id IN (SELECT id ... ORDER BY id LIMIT n)]. *)
Fixpoint sql_delete_first {R} (n : nat) (w : R → bool) (t : list R) : list R :=
  match n, t with
  | O, _ | _, [] => t
  | S n', r :: t' => if w r then sql_delete_first n' w t' else r :: sql_delete_first n w t'
  end.

(** ** Providers *)

Definition pv_at (id : string) (p : ProviderRow) : bool := String.eqb (pv_id p) id.
Definition GetProbeProvider (id : string) (x : xdb) : result XError ProviderRow :=
  match sql_row (pv_at id) (x_providers x) with Some p => Ok p | None => Err (XStore CsNotFound) end.
Definition CreateProbeProvider (now : Z) (p : ProviderRow) : xt ProviderRow :=
  sql! clash := sql_read (λ x, sql_exists (pv_at (pv_id p)) (x_providers x)) in
  sql_fail_if clash with XStore CsConstraint ;;
  sql! _ := sql_write (λ x, set_providers x (x_providers x ++
    [mkProviderRow (pv_id p) (pv_name p) (pv_key p) (pv_egress p) (pv_endpoint p) (pv_enabled p) (pv_independent p) now now])) in
  sql_check (GetProbeProvider (pv_id p)).

Definition pv_set (enabled independent : ProviderRow → bool) (now : Z) (p : ProviderRow) : ProviderRow :=
  mkProviderRow (pv_id p) (pv_name p) (pv_key p) (pv_egress p) (pv_endpoint p) (enabled p) (independent p) (pv_created p) now.
Definition SetProbeProviderEnabled (now : Z) (id : string) (enabled : bool) : xt unit :=
  sql! n := sql_read (λ x, sql_count (pv_at id) (x_providers x)) in
  sql_fail_if negb (n =? 1)%nat with XStore CsNotFound ;;
  sql_write (λ x, set_providers x (sql_update (pv_at id) (pv_set (λ _, enabled) pv_independent now) (x_providers x))).
Definition SetProbeProviderIndependentVantage (now : Z) (id : string) (independent : bool) : xt unit :=
  sql! n := sql_read (λ x, sql_count (pv_at id) (x_providers x)) in
  sql_fail_if negb (n =? 1)%nat with XStore CsNotFound ;;
  sql_write (λ x, set_providers x (sql_update (pv_at id) (pv_set pv_enabled (λ _, independent) now) (x_providers x))).
Definition ListProbeProviders (x : xdb) : list ProviderRow := order_by (λ p, (0, pv_id p)) (x_providers x).

(** ** Operations *)

Definition po_at (id : string) (o : ProbeOpRow) : bool := String.eqb (po_id o) id.
Definition po_set (status challenge : string) (now : Z) (o : ProbeOpRow) : ProbeOpRow :=
  mkProbeOp (po_id o) (po_node o) (po_forward o) (po_activation o) (po_revision o) (po_provider o) status (po_endpoint o) (po_arm o) challenge
    (po_ttl o) (po_opaque o) (po_expires o) (po_created o) now.
Definition po_advance (status : string) (now : Z) (o : ProbeOpRow) : ProbeOpRow := po_set status (po_challenge o) now o.

Definition probe_row (x : xdb) (id : string) : option ProbeOpRow := sql_row (po_at id) (t_probes (x_ctl x)).
Definition write_probes (f : list ProbeOpRow → list ProbeOpRow) : xt unit := sql_write (λ x, with_ctl x (set_probes (x_ctl x) (f (t_probes (x_ctl x))))).

Definition GetProbeOperation (id : string) (x : xdb) : result XError ProbeOpRow :=
  match probe_row x id with Some o => Ok o | None => Err (XStore CsNotFound) end.

(** [INSERT INTO probe_operations]: the key and the reference to the node. *)
Definition probe_insert (ts revision : Z) (op : ProbeOpRow) : xt unit :=
  sql_fail_if negb (binds revision) || negb (binds (po_ttl op)) with XStore CsBind ;;
  sql! clash := sql_read (λ x, sql_exists (po_at (po_id op)) (t_probes (x_ctl x))) in
  sql! known := sql_read (λ x, node_exists x (po_node op)) in
  sql_fail_if clash || negb known with XStore CsConstraint ;;
  write_probes (λ t, t ++ [mkProbeOp (po_id op) (po_node op) (po_forward op) (po_activation op) revision (po_provider op) (orDefault (po_status op) "PENDING")
    (po_endpoint op) (po_arm op) (po_challenge op) (po_ttl op) (po_opaque op) (po_expires op) ts ts]).

Definition CreateProbeOperation (before : xdb) (ts : Z) (op : ProbeOpRow) : xt ProbeOpRow :=
  let revision := if po_revision op =? 0
                  then match sql_row (fw_at (po_forward op)) (x_forwards before) with Some f => fw_revision f | None => 0 end
                  else po_revision op in
  sql! _ := probe_insert ts revision op in
  sql_check (GetProbeOperation (po_id op)).

Definition deletionIntent (forwardID : string) (x : xdb) : bool :=
  sql_exists (λ o, String.eqb (dl_forward o) forwardID && String.eqb (dl_status o) "PENDING") (t_deletions (x_ctl x)).

Definition probeTerminal (status : string) : bool :=
  existsb (String.eqb status) ["OPEN_FROM_VANTAGE"; "REJECTED"; "DROPPED"; "TIMEOUT"; "NO_INDEPENDENT_VANTAGE"; "PROBE_INFRA_UNAVAILABLE"]%string.
Definition probe_live (status : string) : bool := existsb (String.eqb status) ["PENDING"; "ARMED"; "IN_FLIGHT"]%string.

Definition probeTransitionAllowed (from to : string) : bool :=
  if String.eqb from to then true
  else if probeTerminal from then false
  else if String.eqb from "PENDING" then String.eqb to "ARMED" || probeTerminal to
  else if String.eqb from "ARMED" then String.eqb to "IN_FLIGHT" || probeTerminal to
  else if String.eqb from "IN_FLIGHT" then probeTerminal to
  else false.

Definition setProbeOperationStatusCAS (now : Z) (id expected status : string) : xt unit :=
  sql! row := sql_read (λ x, probe_row x id) in
  match row with
  | None => sql_fail (XStore CsNotFound)
  | Some o =>
      let current := po_status o in
      sql_fail_if negb (String.eqb expected "") && negb (String.eqb current expected)
        with (if probeTerminal current then XProbeTerminal else XStore CsCASConflict) ;;
      sql_fail_if probeTerminal current && negb (String.eqb current status) with XProbeTerminal ;;
      sql_fail_if String.eqb status OutcomeOpenFromVantage with XProbeJoinRequired ;;
      sql_fail_if negb (probeTransitionAllowed current status) with XProbeIllegal ;;
      if String.eqb current status then sql_ret tt
      else
        sql_fail_if (po_expires o <=? now) && negb (String.eqb status "TIMEOUT") with XProbeExpired ;;
        let w r := po_at id r && String.eqb (po_status r) current in
        sql! n := sql_read (λ x, sql_count w (t_probes (x_ctl x))) in
        sql_fail_if negb (n =? 1)%nat with XStore CsCASConflict ;;
        write_probes (sql_update w (po_advance status now))
  end.
Definition SetProbeOperationStatus (now : Z) (id status : string) : xt unit := setProbeOperationStatusCAS now id "" status.
Definition SetProbeOperationStatusCAS (now : Z) (id expected status : string) : xt unit := setProbeOperationStatusCAS now id expected status.

Definition RequeueProbeOperationForRecovery (now : Z) (id : string) : xt unit :=
  let w r := po_at id r && String.eqb (po_status r) "IN_FLIGHT" && (now <? po_expires r) in
  sql! n := sql_read (λ x, sql_count w (t_probes (x_ctl x))) in
  sql_fail_if negb (n =? 1)%nat with XStore CsCASConflict ;;
  write_probes (sql_update w (po_advance "ARMED" now)).

(** ** Pages *)

Definition defaultProbeLookupLimit : Z := 256.
Definition maxProbeLookupPages : Z := 4.
Definition defaultProbeLookupBudget : Z := maxProbeLookupPages * defaultProbeLookupLimit.
Definition probeLookupLimit (limit : Z) : Z := if limit <=? 0 then defaultProbeLookupLimit else limit.

Definition by_expiry (o : ProbeOpRow) : page_key := (po_expires o, po_id o).
Definition by_update (o : ProbeOpRow) : page_key := (po_updated o, po_id o).
Definition by_creation (o : ProbeOpRow) : page_key := (po_created o, po_id o).

Definition ListProbeOperationsByStatusLimitAtAfter (limit nowUnix afterExpires : Z) (afterID : string) (statuses : list string) (x : xdb) : list ProbeOpRow :=
  if bool_decide (statuses = []) then []
  else sql_limit (probeLookupLimit limit) (order_by by_expiry (sql_select (λ o, probe_live (po_status o) && existsb (String.eqb (po_status o)) statuses
         && (nowUnix <? po_expires o) && key_ltb (afterExpires, afterID) (by_expiry o)) (t_probes (x_ctl x)))).
Definition ListProbeOperationsByStatusLimitAt (limit nowUnix : Z) (statuses : list string) (x : xdb) : list ProbeOpRow :=
  ListProbeOperationsByStatusLimitAtAfter limit nowUnix 0 "" statuses x.
Definition listProbeOperationsByStatusLimit (limit : Z) (liveAfter : option Z) (statuses : list string) (x : xdb) : list ProbeOpRow :=
  if bool_decide (statuses = []) then []
  else sql_limit (probeLookupLimit limit) (order_by by_creation (sql_select (λ o, existsb (String.eqb (po_status o)) statuses
         && match liveAfter with Some t => t <? po_expires o | None => true end) (t_probes (x_ctl x)))).
Definition ListProbeOperationsByStatusLimit (limit : Z) (statuses : list string) (x : xdb) : list ProbeOpRow :=
  listProbeOperationsByStatusLimit limit None statuses x.
Definition ListProbeOperationsByStatus (statuses : list string) (x : xdb) : list ProbeOpRow :=
  ListProbeOperationsByStatusLimit defaultProbeLookupLimit statuses x.

(** Terminal operations, and those whose outcome is still to be delivered. *)
Definition terminal_after (afterCreated : Z) (afterID : string) (o : ProbeOpRow) : bool :=
  probeTerminal (po_status o) && key_ltb (afterCreated, afterID) (by_creation o).
Definition outcome_settled (x : xdb) (id : string) (dispositions : list string) : bool :=
  sql_exists (λ t, String.eqb (tm_probe t) id && existsb (String.eqb (tm_disposition t)) dispositions) (t_terminals (x_ctl x)).
Definition ListUndeliveredTerminalProbeOperationsPage (limit afterCreated : Z) (afterID : string) (x : xdb) : list ProbeOpRow :=
  sql_limit (probeLookupLimit limit) (order_by by_creation (sql_select (λ o, terminal_after afterCreated afterID o
    && negb (outcome_settled x (po_id o) ["STALE"; "MISSING"; "EXPIRED"; "DELIVERED"]%string)) (t_probes (x_ctl x)))).
Definition ListTerminalProbeOperationsPage (limit afterCreated : Z) (afterID : string) (x : xdb) : list ProbeOpRow :=
  sql_limit (probeLookupLimit limit) (order_by by_creation (sql_select (terminal_after afterCreated afterID) (t_probes (x_ctl x)))).

Definition CountLiveProbeOperationsAt (nowUnix : Z) (x : xdb) : nat :=
  sql_count (λ o, probe_live (po_status o) && (nowUnix <? po_expires o)) (t_probes (x_ctl x)).

(** ** Expiry and garbage collection *)

Fixpoint expire_loop (now : Z) (l : list ProbeOpRow) : xt (list ProbeOpRow) :=
  match l with
  | [] => sql_ret []
  | o :: l' =>
      let w r := po_at (po_id o) r && String.eqb (po_status r) (po_status o) && (po_expires r <=? now) in
      sql! n := sql_read (λ x, sql_count w (t_probes (x_ctl x))) in
      sql! _ := write_probes (sql_update w (po_advance "TIMEOUT" now)) in
      sql! rest := expire_loop now l' in
      sql_ret (if (n =? 1)%nat then po_advance "TIMEOUT" now o :: rest else rest)
  end.

Definition expired_page (now limit : Z) (x : xdb) : list ProbeOpRow :=
  sql_limit limit (order_by by_expiry (sql_select (λ o, probe_live (po_status o) && (po_expires o <=? now)) (t_probes (x_ctl x)))).
Definition ExpireProbeOperationsLimit (before : xdb) (now limit : Z) : xt (list ProbeOpRow) := expire_loop now (expired_page now (probeCleanupLimit limit) before).
Definition ExpireProbeOperations (before : xdb) (now : Z) : xt (list ProbeOpRow) := ExpireProbeOperationsLimit before now 0.

Definition rr_at (id kind : string) (r : ResultRow) : bool := String.eqb (rr_probe r) id && String.eqb (rr_kind r) kind.
Definition write_results (f : list ResultRow → list ResultRow) : xt unit := sql_write (λ x, with_ctl x (set_results (x_ctl x) (f (t_results (x_ctl x))))).
Definition write_terminals (f : list TerminalRow → list TerminalRow) : xt unit := sql_write (λ x, with_ctl x (set_terminals (x_ctl x) (f (t_terminals (x_ctl x))))).
Definition write_outbox (f : list OutboxRow → list OutboxRow) : xt unit := sql_write (λ x, with_ctl x (set_outbox (x_ctl x) (f (t_outbox (x_ctl x))))).

(** Results of a terminal operation, but the acknowledgement marker. *)
Definition DeleteProbeResultsBeforeLimit (cutoff limit : Z) : xt nat :=
  sql! ops := sql_read (λ x, t_probes (x_ctl x)) in
  let w r := sql_exists (λ o, po_at (rr_probe r) o && probeTerminal (po_status o) && (po_updated o <? cutoff)) ops && negb (String.eqb (rr_kind r) "outcome_acked") in
  let n := Z.to_nat (probeCleanupLimit limit) in
  sql! before := sql_read (λ x, sql_count w (t_results (x_ctl x))) in
  sql! _ := write_results (sql_delete_first n w) in
  sql_ret (Nat.min n before).
Definition DeleteProbeResultsBefore (cutoff : Z) : xt unit := sql! _ := DeleteProbeResultsBeforeLimit cutoff 0 in sql_ret tt.

Definition collectable (cutoff : Z) (x : xdb) (o : ProbeOpRow) : bool :=
  probeTerminal (po_status o) && (po_updated o <? cutoff)
  && (sql_exists (rr_at (po_id o) "outcome_acked") (t_results (x_ctl x))
      || outcome_settled x (po_id o) ["EXPIRED"; "STALE"; "MISSING"; "DELIVERED"]%string).
Definition collect (cutoff : Z) (id : string) : xt unit :=
  sql! _ := write_results (sql_delete (λ r, String.eqb (rr_probe r) id)) in
  sql! _ := write_terminals (sql_delete (λ t, String.eqb (tm_probe t) id)) in
  write_probes (sql_delete (λ o, po_at id o && probeTerminal (po_status o) && (po_updated o <? cutoff))).
Definition DeleteTerminalProbeOperationsBeforeLimit (cutoff limit : Z) : xt nat :=
  sql! ids := sql_read (λ x, po_id <$> sql_limit (probeCleanupLimit limit) (order_by by_update (sql_select (collectable cutoff x) (t_probes (x_ctl x))))) in
  sql! _ := sql_iter (collect cutoff) ids in
  sql_ret (length ids).
Definition DeleteTerminalProbeOperationsBefore (cutoff : Z) : xt unit := sql! _ := DeleteTerminalProbeOperationsBeforeLimit cutoff 0 in sql_ret tt.

Definition outcome_pending (id : string) (r : OutboxRow) : bool := ob_at id "probe_outcome" r && String.eqb (ob_state r) "PENDING".
Definition undelivered (x : xdb) (t : TerminalRow) : bool :=
  String.eqb (tm_disposition t) "ENQUEUED" && negb (sql_exists (rr_at (tm_probe t) "outcome_acked") (t_results (x_ctl x))).
Fixpoint expire_deliveries (cutoff : Z) (ids : list string) : xt nat :=
  match ids with
  | [] => sql_ret 0%nat
  | id :: ids' =>
      sql! x0 := sql_read (λ x, x) in
      let w t := String.eqb (tm_probe t) id && undelivered x0 t && sql_exists (outcome_pending (tm_probe t)) (t_outbox (x_ctl x0)) in
      if (sql_count w (t_terminals (x_ctl x0)) =? 0)%nat then expire_deliveries cutoff ids'
      else
        sql! _ := write_terminals (sql_update w (tm_dispose "EXPIRED" cutoff)) in
        sql! _ := write_outbox (sql_delete (outcome_pending id)) in
        sql! n := expire_deliveries cutoff ids' in
        sql_ret (S n)
  end.
(** The join has one row per pending [probe_outcome] command of a delivery. *)
Definition ExpireTerminalProbeDeliveriesBeforeLimit (cutoff limit : Z) : xt nat :=
  sql! ids := sql_read (λ x, sql_limit (probeCleanupLimit limit) (map tm_probe (order_by (λ t, (tm_updated t, tm_probe t))
    (concat (map (λ t, map (λ _, t) (sql_select (outcome_pending (tm_probe t)) (t_outbox (x_ctl x))))
      (sql_select (λ t, undelivered x t && (tm_updated t <? cutoff)) (t_terminals (x_ctl x)))))))) in
  expire_deliveries cutoff ids.

(** ** Evidence *)

Definition evidence_kind (kind : string) : bool := existsb (String.eqb kind) ["provider"; "wan1"; "ack1"; "rct1"]%string.
Definition evidence (x : xdb) (id kind : string) : option string := rr_payload <$> sql_row (rr_at id kind) (t_results (x_ctl x)).

Definition RecordProbeResult (now : Z) (probeID kind payloadHex : string) : xt unit :=
  sql_fail_if negb (evidence_kind kind) with XInvalid ;;
  sql_fail_if String.eqb probeID "" || String.eqb payloadHex "" with XInvalid ;;
  sql! row := sql_read (λ x, probe_row x probeID) in
  match row with
  | None => sql_fail (XStore CsNotFound)
  | Some o =>
      sql! existing := sql_read (λ x, evidence x probeID kind) in
      match existing with
      | Some payload => if String.eqb payload payloadHex then sql_ret tt else sql_fail XProbeDuplicate
      | None =>
          sql_fail_if probeTerminal (po_status o) with XProbeTerminal ;;
          sql_fail_if po_expires o <=? now with XProbeExpired ;;
          write_results (λ t, t ++ [mkResultRow probeID kind payloadHex now])
      end
  end.
Definition ListProbeResults (probeID : string) (x : xdb) : list ResultRow := sql_select (λ r, String.eqb (rr_probe r) probeID) (t_results (x_ctl x)).

(** ** The activation record of a Forward *)

(** [INSERT OR IGNORE]: a clash with either key ignores the row; a missing Forward does not. *)
Definition EnsureForwardActivation (now : Z) (a : ActivationRow) : xt unit :=
  sql_fail_if negb (binds (av_revision a)) with XStore CsBind ;;
  sql! clash := sql_read (λ x, sql_exists (λ b, String.eqb (av_id b) (av_id a)
      || (String.eqb (av_forward b) (av_forward a) && String.eqb (av_activation b) (av_activation a))) (x_activations x)) in
  sql! known := sql_read (λ x, sql_exists (fw_at (av_forward a)) (x_forwards x)) in
  if clash then sql_ret tt
  else
    sql_fail_if negb known with XStore CsConstraint ;;
    sql_write (λ x, set_activations x (x_activations x ++ [mkActivationRow (av_id a) (av_forward a) (av_activation a) (av_revision a) now])).

Definition rt_at (forwardID : string) (r : RuntimeRow) : bool := String.eqb (rt_forward r) forwardID.
Definition runtime_row (x : xdb) (forwardID : string) : option RuntimeRow := sql_row (rt_at forwardID) (x_runtime x).
(** The upsert on [forward_id]. *)
Definition runtime_put (forwardID activationID snapshot : string) (now : Z) (t : list RuntimeRow) : list RuntimeRow :=
  let r := mkRuntime forwardID (Some activationID) snapshot now in
  if sql_exists (rt_at forwardID) t then sql_update (rt_at forwardID) (λ _, r) t else t ++ [r].

Section ProbeStore.
Context `{Crypto} `{ProbeJson}.

(** ** The activation mirror *)

Definition decodeActivationSnapshot (snapshotJSON : string) : option ActivationStates :=
  match decode_states snapshotJSON with
  | Some s => if is_ok (ActivationStates_Validate s) then Some s else None
  | None => None
  end.
Definition encodePersistedForwardRuntimeStatus (snapshotJSON : string) (generation : Z) : option string :=
  match decodeActivationSnapshot snapshotJSON with Some _ => marshal_persisted generation snapshotJSON | None => None end.

(** The snapshot, the generation and whether the row has one. *)
Definition decodePersistedForwardRuntimeStatus (raw : string) : option (string * Z * bool) :=
  let legacy := match decodeActivationSnapshot raw with Some _ => Some (raw, 0, false) | None => None end in
  match unmarshal_fields raw with
  | None => legacy
  | Some fields =>
      match fields !! "snapshot"%string with
      | None => legacy
      | Some snapshotRaw =>
          match fields !! "generation"%string with
          | None => None
          | Some generationRaw =>
              match unmarshal_generation generationRaw, decodeActivationSnapshot snapshotRaw with
              | Some generation, Some _ => Some (snapshotRaw, generation, true)
              | _, _ => None
              end
          end
      end
  end.

Definition SetForwardRuntimeStatus (now : Z) (forwardID activationID : string) (expectedForwardRevision : Z) (snapshotJSON : string) : xt unit :=
  match encodePersistedForwardRuntimeStatus snapshotJSON expectedForwardRevision with
  | None => sql_fail XInvalid
  | Some persisted =>
      sql_fail_if negb (binds expectedForwardRevision) with XStore CsBind ;;
      sql! x0 := sql_read (λ x, x) in
      let at_revision f := fw_at forwardID f && (fw_revision f =? expectedForwardRevision) in
      let recorded := sql_exists (λ a, String.eqb (av_forward a) forwardID && String.eqb (av_activation a) activationID) (x_activations x0) in
      let selected := sql_exists (λ f, at_revision f && (sql_eq (fw_activation f) activationID || (String.eqb (coalesce (fw_activation f)) "" && recorded))) (x_forwards x0) in
      let written := match runtime_row x0 forwardID with
                     | None => true
                     | Some r => sql_exists (λ f, at_revision f && (sql_eq (fw_activation f) activationID
                                   || (String.eqb (coalesce (fw_activation f)) "" && sql_eq (rt_activation r) activationID))) (x_forwards x0)
                     end in
      sql_fail_if negb (selected && written) with (if sql_exists (fw_at forwardID) (x_forwards x0) then XStore CsCASConflict else XStore CsNotFound) ;;
      sql_write (λ x, set_runtime x (runtime_put forwardID activationID persisted now (x_runtime x)))
  end.

Record ForwardRuntimeStatus : Type := mkRuntimeStatus {
  frs_ForwardID : string; frs_ActivationID : string; frs_SnapshotJSON : string; frs_UpdatedAt : Z; frs_Generation : Z; frs_GenerationBound : bool
}.
Definition GetForwardRuntimeStatus (forwardID : string) (x : xdb) : result XError ForwardRuntimeStatus :=
  match runtime_row x forwardID with
  | None => Err (XStore CsNotFound)
  | Some r =>
      match rt_activation r with
      | None => Err (XStore CsNullScan)
      | Some activation =>
          match decodePersistedForwardRuntimeStatus (rt_snapshot r) with
          | None => Err XInvalid
          | Some (snapshot, generation, bound) => Ok (mkRuntimeStatus (rt_forward r) activation snapshot (rt_updated r) generation bound)
          end
      end
  end.

(** ** Arming *)

Definition CreateProbeOperationBundle (ts : Z) (op : ProbeOpRow) (outbox : ControlOutboxItem) : xt ProbeOpRow :=
  sql! parent := sql_read (λ x, sql_row (fw_at (po_forward op)) (x_forwards x)) in
  match parent with
  | None => sql_fail XForwardNotFound
  | Some f =>
      sql_fail_if negb (String.eqb (fw_node f) (po_node op)) with XStore CsCASConflict ;;
      sql_fail_if String.eqb (coalesce (fw_activation f)) "" || negb (String.eqb (coalesce (fw_activation f)) (po_activation op)) with XStore CsCASConflict ;;
      sql_fail_if (po_revision op =? 0) || negb (fw_revision f =? po_revision op) with XStore CsCASConflict ;;
      sql! deleting := sql_read (deletionIntent (po_forward op)) in
      sql_fail_if deleting with XStore CsCASConflict ;;
      sql! _ := probe_insert ts (po_revision op) op in
      sql! _ := insertOutboxExec ts outbox in
      sql_check (GetProbeOperation (po_id op))
  end.

Definition SetProbeOperationChallenge (now : Z) (id challengeHash : string) : xt unit :=
  sql! row := sql_read (λ x, probe_row x id) in
  match row with
  | None => sql_fail (XStore CsNotFound)
  | Some o =>
      sql_fail_if probeTerminal (po_status o) with XProbeTerminal ;;
      sql_fail_if po_expires o <=? now with XProbeExpired ;;
      sql_fail_if negb (String.eqb (po_challenge o) "") && negb (EqualFold (po_challenge o) challengeHash) with XProbeChallenge ;;
      sql_fail_if match hex_decode challengeHash with Some b => negb (bool_decide (length b = ProbeDigestLen)) | None => true end with XProbeIncomplete ;;
      let w r := po_at id r && probe_live (po_status r) && (now <? po_expires r) in
      sql! n := sql_read (λ x, sql_count w (t_probes (x_ctl x))) in
      sql_fail_if negb (n =? 1)%nat with XProbeTerminal ;;
      write_probes (sql_update w (λ r, po_set (po_status r) (ToLower challengeHash) now r))
  end.

(** ** The provider's result *)

Definition ProviderResultSchema : string := "antinat.provider-result/v1".
Definition decodeStoredProviderResult (payload : string) : option storedProviderResult :=
  match decode_result payload with
  | None => None
  | Some r =>
      if negb (String.eqb (sr_Schema r) ProviderResultSchema) || String.eqb (sr_ProbeID r) "" || negb (sr_Accepted r)
         || String.eqb (sr_ChallengeHash r) "" || String.eqb (sr_WAN1Frame r) "" || String.eqb (sr_ACK1Frame r) ""
         || (sr_TimestampUnix r <=? 0) || String.eqb (sr_Signature r) ""
      then None else Some r
  end.

(** [%d] and [%t]. *)
Definition format_int (n : Z) : bytes := if n <? 0 then minus_sign :: Itoa (- n) else Itoa n.
Definition format_bool (b : bool) : bytes := bytes_of (if b then "true" else "false")%string.
Fixpoint join_fields (l : list bytes) : bytes :=
  match l with [] => [] | [x] => x | x :: l' => x ++ Byte.x00 :: join_fields l' end.

Definition stored_canonical (r : storedProviderResult) : bytes :=
  join_fields [bytes_of (sr_Schema r); bytes_of (ToLower (sr_ProbeID r)); format_bool (sr_Accepted r);
    bytes_of (ToLower (sr_ChallengeHash r)); bytes_of (ToLower (sr_WAN1Frame r)); bytes_of (ToLower (sr_ACK1Frame r));
    bytes_of (sr_Reason r); format_int (sr_TimestampUnix r)].

Definition stored_verify (r : storedProviderResult) (publicKeyHex : string) : bool :=
  match hex_decode publicKeyHex, hex_decode (sr_Signature r) with
  | Some publicKey, Some signature => Verify publicKey (stored_canonical r) signature
  | _, _ => false
  end.

(** ** Publishing a join *)

(** The operation is live, bound to the arguments, to a current generation of its Forward
    and to an enabled independent provider. *)
Definition join_operation (now : Z) (operationID expectedStatus forwardID activationID : string) (x : xdb) : result XError (ProbeOpRow * ProviderRow) :=
  match probe_row x operationID with
  | None => Err (XStore CsNotFound)
  | Some op =>
      fail_if negb (String.eqb (po_status op) expectedStatus) with (if probeTerminal (po_status op) then XProbeTerminal else XStore CsCASConflict) ;;
      fail_if negb (String.eqb (po_forward op) forwardID) || negb (String.eqb (po_activation op) activationID) with XProbeIncomplete ;;
      match sql_row (pv_at (po_provider op)) (x_providers x) with
      | None => Err XProbeIncomplete
      | Some provider =>
          fail_if po_expires op <=? now with XProbeExpired ;;
          fail_if negb (probeTransitionAllowed (po_status op) OutcomeOpenFromVantage) with XProbeIllegal ;;
          match sql_row (fw_at forwardID) (x_forwards x) with
          | None => Err (XStore CsNotFound)
          | Some f =>
              fail_if String.eqb (fw_node f) "" || negb (String.eqb (po_node op) (fw_node f)) with XProbeIncomplete ;;
              fail_if String.eqb (coalesce (fw_activation f)) "" || negb (String.eqb (coalesce (fw_activation f)) activationID) with XStore CsCASConflict ;;
              fail_if (po_revision op =? 0) || negb (fw_revision f =? po_revision op) with XStore CsCASConflict ;;
              fail_if deletionIntent forwardID x with XStore CsCASConflict ;;
              fail_if negb (pv_enabled provider) || negb (pv_independent provider) with XProbeIncomplete ;;
              Ok (op, provider)
          end
      end
  end.

Definition artifact (x : xdb) (operationID kind : string) : result XError string :=
  fail_if negb (sql_count (rr_at operationID kind) (t_results (x_ctl x)) =? 1)%nat with XProbeIncomplete ;;
  match evidence x operationID kind with Some payload => Ok payload | None => Err (XStore CsNoRows) end.

Definition decoded (s : string) : result XError bytes := match hex_decode s with Some b => Ok b | None => Err XProbeIncomplete end.
Definition parsed {A} (r : result ProbeError A) : result XError A := map_err (λ _, XProbeIncomplete) r.

Record ProbeJoin : Type := mkJoin { jn_Arm : ProbeArm; jn_Frame : ProviderFrame; jn_ACK : ProbeACK; jn_Receipt : ProbeReceipt; jn_Result : storedProviderResult }.

(** The recorded artifacts, decoded, verified and bound to each other. *)
Definition join_evidence (now : Z) (nodePublicKey : bytes) (op : ProbeOpRow) (provider : ProviderRow) (x : xdb) : result XError ProbeJoin :=
  let* providerPayload := artifact x (po_id op) "provider" in
  let* wan1Payload := artifact x (po_id op) "wan1" in
  let* ack1Payload := artifact x (po_id op) "ack1" in
  let* rct1Payload := artifact x (po_id op) "rct1" in
  match decodeStoredProviderResult providerPayload with
  | None => Err XProbeIncomplete
  | Some res =>
      fail_if negb (stored_verify res (pv_key provider)) || negb (String.eqb (sr_ProbeID res) (po_id op))
              || negb (EqualFold (sr_WAN1Frame res) wan1Payload) || negb (EqualFold (sr_ACK1Frame res) ack1Payload) with XProbeIncomplete ;;
      fail_if (sr_TimestampUnix res <? wrap_i64 (po_created op - 300)) || (wrap_i64 (po_expires op + 300) <? sr_TimestampUnix res)
              || (wrap_i64 (now + 300) <? sr_TimestampUnix res) with XProbeIncomplete ;;
      let* challengeHash := decoded (sr_ChallengeHash res) in
      fail_if negb (bool_decide (length challengeHash = ProbeDigestLen)) with XProbeIncomplete ;;
      let* armBytes := decoded (po_arm op) in
      let* arm := parsed (ParseProbeArm armBytes) in
      let maxExpiry := wrap_i64 (po_created op + (pa_TTLMS arm + 999) mod 2 ^ 64 / 1000) in
      fail_if negb (String.eqb (po_endpoint op) (pa_Endpoint arm)) || negb (po_ttl op =? pa_TTLMS arm)
              || negb (EqualFold (po_opaque op) (hex_of (pa_ExpiryOpaque arm))) || (maxExpiry <? po_expires op) with XProbeIncomplete ;;
      let* wan1Bytes := decoded wan1Payload in
      let* frame := parsed (ParseProviderFrame wan1Bytes) in
      let* providerKey := decoded (pv_key provider) in
      fail_if negb (Verify providerKey (provider_SigningBytes frame) (pf_Signature frame)) with XProbeIncomplete ;;
      let frameChallenge := provider_ChallengeHash frame in
      fail_if negb (bytes_eqb (pf_ArmDigest frame) (arm_Digest arm)) || negb (bytes_eqb (pf_ProbeID frame) (pa_ProbeID arm))
              || negb (bytes_eqb (pf_ProviderID frame) (pa_ProviderID arm)) || negb (bytes_eqb (pf_Activation frame) (pa_Activation arm))
              || negb (String.eqb (pf_Endpoint frame) (pa_Endpoint arm)) || negb (bytes_eqb (pf_ExpiryOpaque frame) (pa_ExpiryOpaque arm))
              || negb (bytes_eqb frameChallenge challengeHash) with XProbeIncomplete ;;
      let* ackBytes := decoded ack1Payload in
      let* ack := parsed (ParseProbeACK ackBytes nodePublicKey) in
      fail_if negb (bytes_eqb (ak_ArmDigest ack) (pf_ArmDigest frame)) || negb (bytes_eqb (ak_ChallengeHash ack) frameChallenge) with XProbeIncomplete ;;
      let* receiptBytes := decoded rct1Payload in
      let* receipt := parsed (ParseProbeReceipt receiptBytes nodePublicKey) in
      fail_if negb (bytes_eqb (rc_ArmDigest receipt) (pf_ArmDigest frame)) || negb (bytes_eqb (rc_ChallengeHash receipt) frameChallenge)
              || negb (bytes_eqb (rc_ProviderID receipt) (pa_ProviderID arm)) with XProbeIncomplete ;;
      fail_if String.eqb (po_challenge op) "" || negb (EqualFold (po_challenge op) (sr_ChallengeHash res)) with XProbeIncomplete ;;
      Ok (mkJoin arm frame ack receipt res)
  end.

(** The WAN axes of the new snapshot on the other axes of the stored one. *)
Definition merge_states (wan previous : ActivationStates) : ActivationStates :=
  mkActivationStates (as_ControlState previous) (as_ListenerState previous) (as_MappingState previous) (as_KeepaliveState previous)
    (as_WanReachabilityState wan) (as_ReturnPathState wan) (as_TargetHealthState previous) (as_PublicationState wan) (as_DataPlaneState previous).

Definition join_mirror (forwardID activationID : string) (generation : Z) (wan : ActivationStates) (x : xdb) : result XError string :=
  match runtime_row x forwardID with
  | None => Err XProbeIncomplete
  | Some r =>
      match rt_activation r with
      | None => Err (XStore CsNullScan)
      | Some previousActivationID =>
          match decodePersistedForwardRuntimeStatus (rt_snapshot r) with
          | None => Err XProbeIncomplete
          | Some (previousJSON, previousGeneration, bound) =>
              fail_if negb (String.eqb previousActivationID activationID) || negb bound || negb (previousGeneration =? generation) with XStore CsCASConflict ;;
              match decodeActivationSnapshot previousJSON with
              | None => Err XProbeIncomplete
              | Some previous =>
                  let merged := merge_states wan previous in
                  fail_if negb (is_ok (ActivationStates_Validate merged)) with XProbeIncomplete ;;
                  match encodePersistedForwardRuntimeStatus (marshal_states merged) generation with
                  | Some persisted => Ok persisted
                  | None => Err XProbeIncomplete
                  end
              end
          end
      end
  end.

(** The condition of both writes: the Forward is at the activation and revision, with
    no pending deletion. *)
Definition at_generation (forwardID activationID : string) (revision : Z) (x : xdb) : bool :=
  sql_exists (λ f, fw_at forwardID f && sql_eq (fw_activation f) activationID && (fw_revision f =? revision) && negb (deletionIntent (fw_id f) x)) (x_forwards x).

Definition PublishProbeJoin (now : Z) (operationID expectedStatus forwardID activationID snapshotJSON : string) (nodePublicKeys : list bytes) : xt unit :=
  match decodeActivationSnapshot snapshotJSON with
  | None => sql_fail XProbeIncomplete
  | Some wan =>
      sql_fail_if negb (String.eqb expectedStatus "IN_FLIGHT") with XProbeIllegal ;;
      match nodePublicKeys with
      | [nodePublicKey] =>
          sql_fail_if negb (bool_decide (length nodePublicKey = PublicKeySize)) with XProbeIncomplete ;;
          sql! (op, provider) := sql_check (join_operation now operationID expectedStatus forwardID activationID) in
          sql! _ := sql_check (join_evidence now nodePublicKey op provider) in
          sql! persisted := sql_check (join_mirror forwardID activationID (po_revision op) wan) in
          sql! current := sql_read (at_generation forwardID activationID (po_revision op)) in
          let w r := po_at operationID r && String.eqb (po_status r) expectedStatus && (now <? po_expires r) && (po_revision r =? po_revision op) && current in
          sql! n := sql_read (λ x, sql_count w (t_probes (x_ctl x))) in
          sql_fail_if negb (n =? 1)%nat with XProbeTerminal ;;
          sql! _ := write_probes (sql_update w (po_advance OutcomeOpenFromVantage now)) in
          sql! current := sql_read (at_generation forwardID activationID (po_revision op)) in
          sql! conflict := sql_read (λ x, match runtime_row x forwardID with
            | None => false
            | Some _ => match sql_row (fw_at forwardID) (x_forwards x) with
                        | Some f => negb (sql_eq (fw_activation f) activationID && (fw_revision f =? po_revision op))
                        | None => true end
            end) in
          sql_fail_if negb current || conflict with XStore CsCASConflict ;;
          sql_write (λ x, set_runtime x (runtime_put forwardID activationID persisted now (x_runtime x)))
      | _ => sql_fail XProbeIncomplete
      end
  end.

(** ** The outcome of a probe *)

(** Whether the operation is still current. *)
Definition outcome_disposition (op : ProbeOpRow) (x : xdb) : string :=
  match sql_row (fw_at (po_forward op)) (x_forwards x) with
  | None => "MISSING"
  | Some f =>
      if negb (sql_eq (fw_activation f) (po_activation op)) || (po_revision op =? 0) || negb (fw_revision f =? po_revision op) then "STALE"
      else if deletionIntent (po_forward op) x then "STALE"
      else "ENQUEUED"
  end.
Definition QueueProbeOutcome (now : Z) (probeID outcome : string) : xt string :=
  sql_fail_if String.eqb probeID "" with XStore CsNotFound ;;
  sql! row := sql_read (λ x, probe_row x probeID) in
  match row with
  | None => sql_fail (XStore CsNotFound)
  | Some op =>
      sql_fail_if negb (probeTerminal (po_status op)) with XInvalid ;;
      sql! existing := sql_read (λ x, sql_row (λ t, String.eqb (tm_probe t) probeID) (t_terminals (x_ctl x))) in
      match existing with
      | Some t => sql_ret (tm_disposition t)
      | None =>
          sql! disposition := sql_read (outcome_disposition op) in
          let stamp := if po_updated op =? 0 then now else po_updated op in
          sql! _ := write_terminals (λ t, t ++ [mkTerminal probeID disposition outcome (po_node op) (po_forward op) (po_activation op) stamp stamp]) in
          if String.eqb disposition "ENQUEUED" then
            let item := mkItem probeID "probe_outcome" (po_node op) (marshal_outcome (po_forward op) (po_activation op) (po_revision op) outcome) "" 0 in
            sql! _ := of_read (λ d, EnforceCleanupOnlyEnqueue d (ci_NodeID item) (ci_MessageType item)) in
            sql! _ := insertOutboxExec now item in
            sql_ret disposition
          else sql_ret disposition
      end
  end.

Definition ProbeOutcomeDisposition (probeID : string) (x : xdb) : result XError string :=
  match sql_row (λ t, String.eqb (tm_probe t) probeID) (t_terminals (x_ctl x)) with Some t => Ok (tm_disposition t) | None => Err (XStore CsNotFound) end.
End ProbeStore.

(** ** Laws, and a concrete instance *)

(** The round trips of [encoding/json] ([json.RawMessage] is compacted, which keeps its
    value), and what folds to a hexadecimal digit is that digit in either case, so folded
    strings decode alike. *)
Class ProbeJsonLaws `{ProbeJson} : Prop := {
  decode_marshal_states s : ActivationStates_Validate s = Ok tt → decode_states (marshal_states s) = Some s;
  unmarshal_persisted g s e : marshal_persisted g s = Some e → ∃ fields g' s', unmarshal_fields e = Some fields ∧
    fields !! "generation"%string = Some g' ∧ fields !! "snapshot"%string = Some s' ∧ unmarshal_generation g' = Some g ∧ decode_states s' = decode_states s;
  fold_hex a b : EqualFold a b = true → hex_decode a = hex_decode b
}.

(** Fields separated by commas, an envelope by a semicolon, ASCII letters. *)
Fixpoint split_on (sep : byte) (l : bytes) : list bytes :=
  match l with
  | [] => [[]]
  | b :: l' => match split_on sep l' with
               | w :: ws => if Byte.eqb b sep then [] :: w :: ws else (b :: w) :: ws
               | [] => [[b]]
               end
  end.
Fixpoint glue (sep : byte) (l : list bytes) : bytes := match l with [] => [] | [x] => x | x :: l' => x ++ sep :: glue sep l' end.
Definition comma : byte := ",".
Definition semi : byte := ";".
Definition lower_byte (b : byte) : byte := if (65 <=? b2z b) && (b2z b <=? 90) then u8 (b2z b + 32) else b.

Definition toy_probe_json : ProbeJson := {|
  decode_states s := match map string_of (split_on comma (bytes_of s)) with
    | [a; b; c; d; e; f; g; h; i] => Some (mkActivationStates a b c d e f g h i) | _ => None end;
  marshal_states s := string_of (glue comma (map bytes_of [as_ControlState s; as_ListenerState s; as_MappingState s; as_KeepaliveState s;
    as_WanReachabilityState s; as_ReturnPathState s; as_TargetHealthState s; as_PublicationState s; as_DataPlaneState s]));
  decode_result s := match split_on comma (bytes_of s) with
    | [a; b; c; d; e; f; g; h; i] => match Atoi h with
        | Some n => Some (mkStored (string_of a) (string_of b) (bytes_eqb c (bytes_of "true")) (string_of d) (string_of e) (string_of f) (string_of g) n (string_of i))
        | None => None end
    | _ => None end;
  unmarshal_fields s := match split_on semi (bytes_of s) with
    | [g; v] => Some (<["generation"%string := string_of g]> {["snapshot"%string := string_of v]}) | _ => None end;
  unmarshal_generation s := Atoi (bytes_of s);
  marshal_persisted g s := if (0 <=? g) && (g <? 2 ^ 63) && negb (contains_byte semi (bytes_of s)) then Some (string_of (Itoa g ++ semi :: bytes_of s)) else None;
  marshal_outcome f a g o := string_of (glue comma [bytes_of f; bytes_of a; Itoa g; bytes_of o]);
  ToLower s := string_of (map lower_byte (bytes_of s));
  EqualFold a b := bytes_eqb (map lower_byte (bytes_of a)) (map lower_byte (bytes_of b))
|}.

Lemma split_on_nil (sep : byte) (l : bytes) : split_on sep l ≠ [].
Proof. destruct l as [|b l]; [done|]. cbn. destruct (split_on sep l); [done|]. by destruct (Byte.eqb b sep). Qed.
Lemma split_on_plain (sep : byte) (l : bytes) : sep ∉ l → split_on sep l = [l].
Proof.
  induction l as [|b l IH]; [done|]. intros [Hb Hl]%not_elem_of_cons. cbn. rewrite (IH Hl). destruct (Byte.eqb b sep) eqn:E; [|done].
  apply Byte.byte_dec_bl in E. congruence.
Qed.
Lemma split_on_app (sep : byte) (a b : bytes) : sep ∉ a → split_on sep (a ++ sep :: b) = a :: split_on sep b.
Proof.
  induction a as [|x a IH]; cbn.
  - intros _. destruct (split_on sep b) as [|w ws] eqn:E; [by apply split_on_nil in E|]. by rewrite (Byte.byte_dec_lb (x := sep) (y := sep) eq_refl).
  - intros [Hx Ha]%not_elem_of_cons. rewrite (IH Ha). destruct (Byte.eqb x sep) eqn:E; [|done]. apply Byte.byte_dec_bl in E. congruence.
Qed.
Lemma hex_val_lower (a b : byte) : lower_byte a = lower_byte b → hex_val a = hex_val b.
Proof.
  assert (H : forallb (λ x, forallb (λ y, if bool_decide (lower_byte x = lower_byte y) then bool_decide (hex_val x = hex_val y) else true) (map (λ n, u8 (Z.of_nat n)) (seq 0 256)))
                (map (λ n, u8 (Z.of_nat n)) (seq 0 256)) = true) by (vm_compute; reflexivity).
  rewrite forallb_forall in H. intros He.
  assert (Hin : ∀ c : byte, In c (map (λ n, u8 (Z.of_nat n)) (seq 0 256))).
  { intros c. apply in_map_iff. exists (Z.to_nat (b2z c)). pose proof (b2z_range c). split; [|apply in_seq; lia]. rewrite Z2Nat.id by lia. apply u8_b2z. }
  specialize (H a (Hin a)). rewrite forallb_forall in H. specialize (H b (Hin b)). rewrite bool_decide_true in H by done. by apply bool_decide_eq_true in H.
Qed.

Lemma hex_pairs_lower (a : bytes) : ∀ b, map lower_byte a = map lower_byte b → hex_pairs a = hex_pairs b.
Proof.
  induction a as [a IH] using (induction_ltof1 _ (@length byte)); unfold ltof in IH. intros b H.
  destruct a as [|x [|y a]], b as [|x' [|y' b]]; try done. cbn in H. injection H as Hx Hy H. cbn.
  rewrite (hex_val_lower x x'), (hex_val_lower y y') by done. by rewrite (IH a ltac:(cbn; lia) b).
Qed.

Lemma split_glue (sep : byte) (l : list bytes) : l ≠ [] → Forall (λ w, sep ∉ w) l → split_on sep (glue sep l) = l.
Proof.
  induction l as [|w l IH]; [done|]. intros _ [Hw Hl]%list.Forall_cons. destruct l as [|w' l]; [by apply split_on_plain|].
  change (glue sep (w :: w' :: l)) with (w ++ sep :: glue sep (w' :: l)). by rewrite split_on_app, IH.
Qed.

(** No axis value has a comma. *)
Lemma axis_plain name v : ValidAxisValue name v = true → comma ∉ bytes_of v.
Proof.
  unfold ValidAxisValue. destruct (List.find _ activationAxes) as [a|] eqn:E; [|done]. intros Hv%mem_true. apply List.find_some in E as [Ha _].
  assert (Hall : forallb (λ a, forallb (λ v, negb (contains_byte comma (bytes_of v))) (axis_states a)) activationAxes = true) by (vm_compute; reflexivity).
  rewrite forallb_forall in Hall. specialize (Hall a Ha). rewrite forallb_forall in Hall. apply contains_byte_false, negb_true_iff, Hall. by apply list_elem_of_In.
Qed.

Lemma toy_probe_json_laws : @ProbeJsonLaws toy_probe_json.
Proof.
  split.
  - intros s Hs. cbn [decode_states marshal_states toy_probe_json]. rewrite bytes_of_string_of, split_glue; [|done|].
    + cbn. rewrite !string_of_bytes_of. by destruct s.
    + apply ActivationStates_valid_iff in Hs as [(h1 & h2 & h3 & h4 & h5 & h6 & h7 & h8 & h9) _]. cbn [map]. repeat constructor; by eapply axis_plain.
  - intros g s e. cbn [marshal_persisted unmarshal_fields unmarshal_generation decode_states toy_probe_json]. intros H.
    destruct ((0 <=? g) && (g <? 2 ^ 63) && negb (contains_byte semi (bytes_of s))) eqn:Ec; [|done]. injection H as <-.
    apply andb_true_iff in Ec as [[Hg%Z.leb_le Hlt%Z.ltb_lt]%andb_true_iff Hn%negb_true_iff]. apply contains_byte_false in Hn. rewrite bytes_of_string_of. rewrite split_on_app, (split_on_plain _ _ Hn).
    + eexists _, _, _. split; [done|]. rewrite lookup_insert_eq, lookup_insert_ne, lookup_singleton_eq by done. split_and!; try done.
      * rewrite bytes_of_string_of. apply Atoi_Itoa. lia.
      * by rewrite string_of_bytes_of.
    + intros Hin. unfold Itoa in Hin. pose proof (dec_digits_digit 20 g ltac:(lia)) as Hd. rewrite list.Forall_forall in Hd. specialize (Hd semi Hin).
      unfold digit in Hd. by destruct Hd.
  - intros a b. cbn [EqualFold toy_probe_json]. unfold bytes_eqb. intros H%bool_decide_eq_true. by apply hex_pairs_lower.
Qed.
