(* ===== verification/ProbeLookup.v ===== *)
(** * Finding a probe operation by its ARM1 digest

    The paged scan of [src/internal/controller/store/probe.go] behind
    [ProbeOperationByArmDigest] and its variants.  Every page is its own query, so the
    database may change between two of them: [reads i] is what page [i] sees. *)

From Stdlib Require Import ZArith Lia Strings.Byte.
From stdpp Require Import base tactics list sets strings option sorting.
From S2P Require Import Prelude GoStd Frame Probe Sql Control CtlDb ProbeStore.

Open Scope list_scope.
Open Scope Z_scope.

(** ** The scan *)

Record probe_query : Type := mkQuery { q_where : ProbeOpRow → bool; q_by_expires : bool; q_limit : Z }.

Definition query_order (q : probe_query) (t : list ProbeOpRow) : list ProbeOpRow := if q_by_expires q then order_by by_expiry t else order_desc by_update t.
Definition after_cursor (q : probe_query) (cursor : option ProbeOpRow) (o : ProbeOpRow) : bool :=
  match cursor with
  | None => true
  | Some c => if q_by_expires q then key_ltb (by_expiry c) (by_expiry o) else key_ltb (by_update o) (by_update c)
  end.
Definition query_page (q : probe_query) (cursor : option ProbeOpRow) (n : Z) (x : xdb) : list ProbeOpRow :=
  sql_limit n (query_order q (sql_select (λ o, q_where q o && after_cursor q cursor o) (t_probes (x_ctl x)))).

Record lookup_scan : Type := mkLookup { lk_scanned : Z; lk_corrupt : bool; lk_matched : option ProbeOpRow; lk_matches : Z }.

Section Lookup.
Context `{Crypto}.

(** The digest of a stored frame, if it is one. *)
Definition stored_digest (o : ProbeOpRow) : option bytes := hex_decode (po_arm o) ≫= ParseProbeArmLite.

Definition scan_row (want : bytes) (limit : Z) (s : lookup_scan) (o : ProbeOpRow) : lookup_scan :=
  let scanned := lk_scanned s + 1 in
  match stored_digest o with
  | None => mkLookup scanned true (lk_matched s) (lk_matches s)
  | Some digest =>
      if String.eqb (hex_of digest) (hex_of want)
      then mkLookup scanned (lk_corrupt s) (if scanned <=? limit then Some o else lk_matched s) (lk_matches s + 1)
      else mkLookup scanned (lk_corrupt s) (lk_matched s) (lk_matches s)
  end.

(** The query is exhausted. *)
Definition lookup_done (limit : Z) (s : lookup_scan) : result XError ProbeOpRow :=
  if lk_scanned s <=? limit then
    fail_if 1 <? lk_matches s with XProbeAmbiguous ;;
    match lk_matched s with
    | Some o => if (lk_matches s =? 1) && negb (String.eqb (po_id o) "") then Ok o else Err (if lk_corrupt s then XProbeCorrupt else XStore CsNotFound)
    | None => Err (if lk_corrupt s then XProbeCorrupt else XStore CsNotFound)
    end
  else Err XProbeBudget.

(** [None]: out of fuel. *)
Fixpoint lookup_loop (fuel : nat) (reads : nat → xdb) (page : nat) (want : bytes) (q : probe_query) (cursor : option ProbeOpRow) (s : lookup_scan)
    : option (result XError ProbeOpRow) :=
  match fuel with
  | O => None
  | S fuel =>
      let scanCeiling := wrap_i64 (q_limit q + 1) in
      if scanCeiling <=? lk_scanned s then Some (Err XProbeBudget)
      else
        let pageLimit := Z.min defaultProbeLookupLimit (scanCeiling - lk_scanned s) in
        let rows := query_page q cursor pageLimit (reads page) in
        let s' := foldl (scan_row want (q_limit q)) s rows in
        if zlen rows <? pageLimit then Some (lookup_done (q_limit q) s')
        else if scanCeiling <=? lk_scanned s' then Some (Err (if 1 <? lk_matches s' then XProbeAmbiguous else XProbeBudget))
        else lookup_loop fuel reads (S page) want q (last rows) s'
  end.

Definition lookup_fuel (limit : Z) : nat := Z.to_nat (limit / defaultProbeLookupLimit + 2).

Definition findProbeOperationByArmDigest (reads : nat → xdb) (digest : bytes) (q : probe_query) : option (result XError ProbeOpRow) :=
  if q_limit q <=? 0 then Some (Err XInvalid)
  else lookup_loop (lookup_fuel (q_limit q)) reads 0 digest q None (mkLookup 0 false None 0).

Definition live_at (now : Z) (o : ProbeOpRow) : bool := probe_live (po_status o) && (now <? po_expires o).
Definition ProbeOperationByArmDigest (now : Z) (digest : bytes) (reads : nat → xdb) : option (result XError ProbeOpRow) :=
  findProbeOperationByArmDigest reads digest (mkQuery (live_at now) true defaultProbeLookupBudget).
Definition ProbeOperationByArmDigestForNodeWithLimit (digest : bytes) (nodeID : string) (nowUnix limit : Z) (reads : nat → xdb) : option (result XError ProbeOpRow) :=
  findProbeOperationByArmDigest reads digest (mkQuery (λ o, String.eqb (po_node o) nodeID && live_at nowUnix o) true (probeLookupLimit limit)).
Definition ProbeOperationByArmDigestForNode (digest : bytes) (nodeID : string) (nowUnix : Z) (reads : nat → xdb) : option (result XError ProbeOpRow) :=
  ProbeOperationByArmDigestForNodeWithLimit digest nodeID nowUnix defaultProbeLookupBudget reads.
Definition ProbeOperationByArmDigestForNodeIncludingExpiredWithLimit (digest : bytes) (nodeID : string) (limit : Z) (reads : nat → xdb) : option (result XError ProbeOpRow) :=
  findProbeOperationByArmDigest reads digest (mkQuery (λ o, String.eqb (po_node o) nodeID && probe_live (po_status o)) true (probeLookupLimit limit)).
Definition ProbeOperationByArmDigestForNodeIncludingExpired (digest : bytes) (nodeID : string) (reads : nat → xdb) : option (result XError ProbeOpRow) :=
  ProbeOperationByArmDigestForNodeIncludingExpiredWithLimit digest nodeID defaultProbeLookupBudget reads.
Definition ProbeOperationByArmDigestForNodeOpenWithinReplayWithLimit (digest : bytes) (nodeID : string) (expiresAfterUnix limit : Z) (reads : nat → xdb)
    : option (result XError ProbeOpRow) :=
  findProbeOperationByArmDigest reads digest
    (mkQuery (λ o, String.eqb (po_node o) nodeID && probeTerminal (po_status o) && String.eqb (po_status o) "OPEN_FROM_VANTAGE" && (expiresAfterUnix <? po_expires o))
       false (probeLookupLimit limit)).
End Lookup.

(** ** The order of a page *)

Lemma string_compare_trans (a b c : string) : String.compare a b = Lt → String.compare b c = Lt → String.compare a c = Lt.
Proof.
  revert b c. induction a as [|x a IH]; intros [|y b] [|z c]; cbn; try done. unfold Ascii.compare.
  destruct (N.compare_spec (Ascii.N_of_ascii x) (Ascii.N_of_ascii y)) as [Hxy|Hxy|Hxy];
    destruct (N.compare_spec (Ascii.N_of_ascii y) (Ascii.N_of_ascii z)) as [Hyz|Hyz|Hyz]; try done; intros H1 H2.
  - rewrite Hxy, Hyz, N.compare_refl. by apply (IH b c).
  - rewrite Hxy. by rewrite (proj2 (N.compare_lt_iff _ _)).
  - rewrite <- Hyz. by rewrite (proj2 (N.compare_lt_iff _ _)).
  - rewrite (proj2 (N.compare_lt_iff _ _)); [done|]. by etrans.
Qed.
Lemma string_ltb_trans (a b c : string) : String.ltb a b = true → String.ltb b c = true → String.ltb a c = true.
Proof.
  unfold String.ltb. destruct (String.compare a b) eqn:E1; try done. destruct (String.compare b c) eqn:E2; try done.
  by rewrite (string_compare_trans a b c).
Qed.
Lemma string_ltb_total (a b : string) : a = b ∨ String.ltb a b = true ∨ String.ltb b a = true.
Proof.
  unfold String.ltb. rewrite (String.compare_antisym b a). destruct (String.compare a b) eqn:E; cbn; [left|by right; left|by right; right].
  by apply String.compare_eq_iff.
Qed.
Lemma string_ltb_irrefl (a : string) : String.ltb a a = false.
Proof.
  unfold String.ltb. pose proof (String.compare_antisym a a) as H. destruct (String.compare a a); try done.
Qed.

Lemma key_ltb_spec (a b : page_key) : key_ltb a b = true ↔ a.1 < b.1 ∨ (a.1 = b.1 ∧ String.ltb a.2 b.2 = true).
Proof. unfold key_ltb. rewrite orb_true_iff, andb_true_iff, Z.ltb_lt, Z.eqb_eq. done. Qed.
Lemma key_ltb_irrefl a : key_ltb a a = false.
Proof. apply not_true_iff_false. rewrite key_ltb_spec. rewrite string_ltb_irrefl. intros [?|[? ?]]; [lia|done]. Qed.
Lemma key_ltb_trans a b c : key_ltb a b = true → key_ltb b c = true → key_ltb a c = true.
Proof.
  rewrite !key_ltb_spec. intros [?|[? ?]] [?|[? ?]]; [left; lia|left; lia|left; lia|right]. split; [lia|]. by eapply string_ltb_trans.
Qed.
Lemma key_ltb_total a b : a = b ∨ key_ltb a b = true ∨ key_ltb b a = true.
Proof.
  rewrite !key_ltb_spec. destruct (Z.lt_trichotomy a.1 b.1) as [?|[He|?]]; [auto| |auto].
  destruct (string_ltb_total a.2 b.2) as [?|[?|?]]; [left|auto|auto]. destruct a, b; cbn in *; congruence.
Qed.

#[export] Instance key_le_trans {R} (k : R → page_key) : Transitive (key_le k).
Proof.
  unfold key_le. intros a b c Hab Hbc. apply not_true_iff_false. intros Hca.
  destruct (key_ltb_total (k a) (k b)) as [He|[Hl|Hl]]; [rewrite He in Hca; congruence| |congruence].
  rewrite (key_ltb_trans _ _ _ Hca Hl) in Hbc. done.
Qed.
#[export] Instance key_le_total {R} (k : R → page_key) : Total (key_le k).
Proof.
  unfold key_le. intros a b. destruct (key_ltb_total (k a) (k b)) as [He|[Hl|Hl]].
  - left. rewrite He. apply key_ltb_irrefl.
  - left. apply not_true_iff_false. intros Hb. pose proof (key_ltb_trans _ _ _ Hl Hb). by rewrite key_ltb_irrefl in *.
  - right. apply not_true_iff_false. intros Hb. pose proof (key_ltb_trans _ _ _ Hl Hb). by rewrite key_ltb_irrefl in *.
Qed.
#[export] Instance flip_total {R} (le : relation R) : Total le → Total (flip le).
Proof. intros Ht a b. unfold flip. destruct (Ht a b); auto. Qed.

(** A filter of a table in order. *)
Section Pages.
Context {R : Type} (le : relation R) `{!∀ a b, Decision (le a b)} `{!Transitive le} `{!Total le} (lt : R → R → bool).
Hypothesis lt_le : ∀ a b, lt a b = true ↔ ¬ le b a.

Lemma sorted_filter (w : R → bool) (l : list R) : StronglySorted le l → StronglySorted le (List.filter w l).
Proof.
  induction l as [|r l IH]; [done|]. cbn. intros [Hs Hf]%StronglySorted_inv. destruct (w r); [|auto]. constructor; [auto|].
  apply list.Forall_forall. intros x [Hx _]%in_sql_select. rewrite list.Forall_forall in Hf. auto.
Qed.
Lemma filter_permutation (w : R → bool) (l1 l2 : list R) : l1 ≡ₚ l2 → List.filter w l1 ≡ₚ List.filter w l2.
Proof.
  induction 1 as [|x l1 l2 _ IH|x y l|l1 l2 l3 _ IH1 _ IH2]; cbn; [done| | |by etrans].
  - destruct (w x); [by apply Permutation_skip|done].
  - destruct (w x), (w y); try done. apply Permutation_swap.
Qed.

Variable t : list R.
Hypothesis anti : ∀ a b, a ∈ t → b ∈ t → le a b → le b a → a = b.
Hypothesis nodup : NoDup t.

Lemma in_sorted (a : R) : a ∈ merge_sort le t ↔ a ∈ t.
Proof. by rewrite (merge_sort_Permutation le t). Qed.

Lemma merge_sort_filter (w : R → bool) : merge_sort le (List.filter w t) = List.filter w (merge_sort le t).
Proof.
  apply (StronglySorted_unique_strong le).
  - intros a b Ha Hb. rewrite (merge_sort_Permutation le) in Ha. apply in_sql_select in Ha as [Ha _], Hb as [Hb _]. apply anti; [done|by apply in_sorted].
  - apply (StronglySorted_merge_sort le _).
  - apply sorted_filter, (StronglySorted_merge_sort le _).
  - rewrite (merge_sort_Permutation le). apply filter_permutation. by rewrite (merge_sort_Permutation le).
Qed.

Lemma filter_all_out (w : R → bool) (l : list R) : (∀ a, a ∈ l → w a = false) → List.filter w l = [].
Proof. induction l as [|r l IH]; [done|]. intros Hall. cbn. rewrite (Hall r) by by left. apply IH. intros a Ha. apply Hall. by right. Qed.
Lemma filter_all_in (w : R → bool) (l : list R) : (∀ a, a ∈ l → w a = true) → List.filter w l = l.
Proof. induction l as [|r l IH]; [done|]. intros Hall. cbn. rewrite (Hall r) by by left. f_equal. apply IH. intros a Ha. apply Hall. by right. Qed.

Lemma sorted_split (l1 l2 : list R) (c a : R) : StronglySorted le (l1 ++ c :: l2) → (a ∈ l1 → le a c) ∧ (a ∈ l2 → le c a).
Proof.
  induction l1 as [|x l1 IH]; cbn; intros [Hs Hf]%StronglySorted_inv; rewrite list.Forall_forall in Hf.
  - split; [by intros ?%elem_of_nil|]. apply Hf.
  - destruct (IH Hs) as [H1 H2]. split; [|done]. intros [->|Ha]%elem_of_cons; [|auto]. apply Hf. apply elem_of_app. right. by left.
Qed.

(** The rows after the last row of a page are the rest of the table. *)
Lemma page_rest (n : nat) (c : R) : last (take n (merge_sort le t)) = Some c → merge_sort le (List.filter (lt c) t) = drop n (merge_sort le t).
Proof.
  intros Hc. rewrite merge_sort_filter. apply last_Some in Hc as [l' Hl']. set (L := merge_sort le t) in *.
  assert (HL : L = l' ++ c :: drop n L) by (rewrite <- (take_drop n L) at 1; rewrite Hl', <- app_assoc; done).
  pose proof (StronglySorted_merge_sort le t) as Hs. fold L in Hs.
  assert (Hd : NoDup L) by (unfold L; by rewrite (merge_sort_Permutation le)).
  rewrite HL at 1. rewrite List.filter_app. cbn. rewrite HL in Hs, Hd. apply list.NoDup_app in Hd as (_ & _ & [Hcn _]%list.NoDup_cons).
  assert (lt c c = false) as ->.
  { apply not_true_iff_false. rewrite lt_le. intros Hn. apply Hn. by destruct (total le c c). }
  rewrite filter_all_out, filter_all_in; [done| |].
  - intros a Ha. apply lt_le. intros Hac. assert (c = a) as ->; [|done].
    apply anti; [| |by apply (sorted_split l' (drop n L) c a)|done]; apply in_sorted; fold L; rewrite HL; apply elem_of_app; right; [by left|by right].
  - intros a Ha. apply not_true_iff_false. rewrite lt_le. intros Hn. apply Hn. by apply (sorted_split l' (drop n L) c a).
Qed.
End Pages.

(** ** The scan reads the table *)

Definition query_rows (q : probe_query) (x : xdb) : list ProbeOpRow := query_order q (sql_select (q_where q) (t_probes (x_ctl x))).

Lemma sql_select_and {R} (w a : R → bool) t : sql_select (λ o, w o && a o) t = List.filter a (sql_select w t).
Proof. unfold sql_select. induction t as [|r t IH]; [done|]. cbn. destruct (w r); cbn; [|done]. by rewrite IH. Qed.

Lemma unique_NoDup {R K} (k : R → K) t : unique k t → NoDup t.
Proof. apply NoDup_fmap_1. Qed.

Lemma key_anti {R} (k : R → page_key) (t : list R) : unique k t → ∀ a b, a ∈ t → b ∈ t → key_le k a b → key_le k b a → a = b.
Proof.
  intros Hu a b Ha Hb Hab Hba. apply (unique_inj k t); try done. unfold key_le in *. destruct (key_ltb_total (k a) (k b)) as [?|[?|?]]; congruence.
Qed.

Lemma unique_page {K} (k : ProbeOpRow → K) t : unique po_id t → unique (λ o, (k o, po_id o)) t.
Proof. unfold unique. intros Hu. apply (NoDup_fmap_1 snd). by rewrite <- list_fmap_compose. Qed.

Lemma query_first q n x : query_page q None n x = sql_limit n (query_rows q x).
Proof.
  unfold query_page, query_rows. do 2 f_equal. rewrite sql_select_and. apply filter_all_in. done.
Qed.
Lemma query_next q n m c x : unique po_id (t_probes (x_ctl x)) → last (take n (query_rows q x)) = Some c →
  query_page q (Some c) m x = sql_limit m (drop n (query_rows q x)).
Proof.
  intros Hu Hc. unfold query_page. f_equal. rewrite sql_select_and. unfold query_rows, query_order, after_cursor in *.
  assert (Hu' : unique po_id (sql_select (q_where q) (t_probes (x_ctl x)))).
  { unfold unique in *. eapply sublist_NoDup; [exact Hu|]. apply fmap_sublist, sublist_filter. }
  destruct (q_by_expires q).
  - unfold order_by in *. apply (page_rest (key_le by_expiry) (λ a b, key_ltb (by_expiry a) (by_expiry b))); [intros a b; unfold key_le; by rewrite not_false_iff_true| |by eapply unique_NoDup|done].
    by apply key_anti, (unique_page po_expires).
  - unfold order_desc in *. apply (page_rest (flip (key_le by_update)) (λ a b, key_ltb (by_update b) (by_update a))); [intros a b; unfold key_le, flip; by rewrite not_false_iff_true| |by eapply unique_NoDup|done].
    intros a b Ha Hb H1 H2. eapply (key_anti by_update); try done. by apply (unique_page po_updated).
Qed.

Lemma query_rows_in q x o : o ∈ query_rows q x ↔ o ∈ t_probes (x_ctl x) ∧ q_where q o = true.
Proof.
  unfold query_rows, query_order, order_by, order_desc. rewrite <- in_sql_select. destruct (q_by_expires q); by rewrite merge_sort_Permutation.
Qed.

Section Exact.
Context {crypto : Crypto}.

Definition digest_hit (want : bytes) (o : ProbeOpRow) : bool := match stored_digest o with Some d => bytes_eqb d want | None => false end.
Definition undecodable (o : ProbeOpRow) : bool := match stored_digest o with Some _ => false | None => true end.

(** What a single scan of the first rows answers. *)
Definition lookup_reference (want : bytes) (q : probe_query) (x : xdb) : result XError ProbeOpRow :=
  let rows := query_rows q x in
  let seen := sql_limit (q_limit q + 1) rows in
  let hits := List.filter (digest_hit want) seen in
  if 1 <? zlen hits then Err XProbeAmbiguous
  else if q_limit q <? zlen rows then Err XProbeBudget
  else match hits with
       | [o] => if String.eqb (po_id o) "" then Err (if existsb undecodable seen then XProbeCorrupt else XStore CsNotFound) else Ok o
       | _ => Err (if existsb undecodable seen then XProbeCorrupt else XStore CsNotFound)
       end.

Lemma hex_eqb (a b : bytes) : String.eqb (hex_of a) (hex_of b) = bytes_eqb a b.
Proof.
  apply eq_true_iff_eq. rewrite String.eqb_eq. unfold bytes_eqb. rewrite bool_decide_eq_true. split; [apply hex_of_inj|by intros ->].
Qed.

(** The counters after the rows [l]; the match is only kept within the limit. *)
Definition scan_of (want : bytes) (l : list ProbeOpRow) : lookup_scan :=
  mkLookup (zlen l) (existsb undecodable l) (last (List.filter (digest_hit want) l)) (zlen (List.filter (digest_hit want) l)).
Lemma scan_counts want limit l : ∀ s, let s' := foldl (scan_row want limit) s l in
  lk_scanned s' = lk_scanned s + zlen l ∧ lk_matches s' = lk_matches s + zlen (List.filter (digest_hit want) l) ∧
  lk_corrupt s' = lk_corrupt s || existsb undecodable l.
Proof.
  induction l as [|o l IH]; intros s; cbn.
  { unfold zlen. cbn. rewrite orb_false_r. split_and!; [lia|lia|done]. }
  destruct (IH (scan_row want limit s o)) as (H1 & H2 & H3). rewrite H1, H2, H3. unfold scan_row, digest_hit, undecodable.
  destruct (stored_digest o) as [d|]; [rewrite hex_eqb; destruct (bytes_eqb d want)|]; unfold zlen; cbn [lk_scanned lk_matches lk_corrupt length];
    rewrite ?Nat2Z.inj_succ; cbn; rewrite ?orb_true_r; split_and!; try lia; by destruct (lk_corrupt s).
Qed.
Lemma scan_matched want limit l : ∀ s, lk_scanned s + zlen l ≤ limit →
  lk_matched (foldl (scan_row want limit) s l) = match last (List.filter (digest_hit want) l) with Some o => Some o | None => lk_matched s end.
Proof.
  induction l as [|o l IH] using rev_ind; intros s Hl; [done|]. rewrite foldl_snoc, List.filter_app. unfold zlen in *. rewrite length_app in Hl. cbn [length] in Hl.
  destruct (scan_counts want limit l s) as (H1 & _ & _). unfold zlen in H1. unfold scan_row at 1. rewrite H1. cbn [List.filter].
  rewrite (proj2 (Z.leb_le _ _)) by lia. destruct (digest_hit want o) eqn:Eh; unfold digest_hit in Eh; destruct (stored_digest o) as [d|]; try done.
  - rewrite hex_eqb, Eh. by rewrite last_snoc.
  - rewrite hex_eqb, Eh, app_nil_r. apply IH. lia.
  - rewrite app_nil_r. apply IH. lia.
Qed.

Definition lookup_start : lookup_scan := mkLookup 0 false None 0.

(** The answer of an exhausted scan and of a truncated one. *)
Lemma lookup_done_reference want q x : 0 < q_limit q → zlen (query_rows q x) ≤ q_limit q →
  lookup_done (q_limit q) (foldl (scan_row want (q_limit q)) lookup_start (query_rows q x)) = lookup_reference want q x.
Proof.
  intros Hq Hl. unfold lookup_reference, sql_limit. unfold zlen in Hl. rewrite take_ge by lia. set (L := query_rows q x) in *.
  destruct (scan_counts want (q_limit q) L lookup_start) as (H1 & H2 & H3). pose proof (scan_matched want (q_limit q) L lookup_start) as H4.
  cbn [lookup_start lk_scanned lk_matched lk_matches lk_corrupt] in *. unfold lookup_done. rewrite H1, H2, H3, H4; [|unfold zlen; lia].
  unfold zlen. rewrite (proj2 (Z.leb_le _ _)) by lia. rewrite (proj2 (Z.ltb_ge (q_limit q) _)) by lia. rewrite !Z.add_0_l, orb_false_l.
  destruct (List.filter (digest_hit want) L) as [|o [|o' l]]; [done| |].
  - cbn. by destruct (po_id o =? "")%string.
  - rewrite (proj2 (Z.ltb_lt 1 _)); [done|]. cbn. lia.
Qed.
Lemma lookup_cut_reference want q x : 0 < q_limit q → q_limit q < zlen (query_rows q x) →
  lk_matches (foldl (scan_row want (q_limit q)) lookup_start (sql_limit (q_limit q + 1) (query_rows q x))) = zlen (List.filter (digest_hit want) (sql_limit (q_limit q + 1) (query_rows q x))) ∧
  lookup_reference want q x = Err (if 1 <? zlen (List.filter (digest_hit want) (sql_limit (q_limit q + 1) (query_rows q x))) then XProbeAmbiguous else XProbeBudget).
Proof.
  intros Hq Hl. split; [|unfold lookup_reference; rewrite (proj2 (Z.ltb_lt (q_limit q) _)) by lia; by destruct (1 <? _)].
  destruct (scan_counts want (q_limit q) (sql_limit (q_limit q + 1) (query_rows q x)) lookup_start) as (_ & -> & _). done.
Qed.

Lemma lookup_loop_exact want q x : unique po_id (t_probes (x_ctl x)) → 0 < q_limit q < 2 ^ 63 - 1 → let L := query_rows q x in
  ∀ fuel n page, (n ≤ length L)%nat → Z.of_nat n ≤ q_limit q → q_limit q + 1 - Z.of_nat n < defaultProbeLookupLimit * Z.of_nat fuel →
  lookup_loop fuel (λ _, x) page want q (last (take n L)) (foldl (scan_row want (q_limit q)) lookup_start (take n L)) = Some (lookup_reference want q x).
Proof.
  intros Hu Hq L. unfold defaultProbeLookupLimit. induction fuel as [|fuel IH]; intros n page Hn Hnq Hf; [lia|]. cbn [lookup_loop].
  assert (Hscan : ∀ k, (k ≤ length L)%nat → lk_scanned (foldl (scan_row want (q_limit q)) lookup_start (take k L)) = Z.of_nat k).
  { intros k Hk. destruct (scan_counts want (q_limit q) (take k L) lookup_start) as (-> & _ & _). cbn. unfold zlen. rewrite length_take. lia. }
  rewrite wrap_i64_small by (unfold in_i64; lia). rewrite Hscan by done. rewrite (proj2 (Z.leb_gt _ _)) by lia.
  set (m := Z.min defaultProbeLookupLimit (q_limit q + 1 - Z.of_nat n)). assert (Hm : 0 < m ≤ 256) by (unfold m, defaultProbeLookupLimit; lia).
  assert (Hpage : query_page q (last (take n L)) m x = take (Z.to_nat m) (drop n L)).
  { destruct (last (take n L)) as [c|] eqn:Ec; [by apply query_next|]. rewrite query_first. unfold sql_limit.
    apply last_None in Ec. destruct n; [by rewrite drop_0|]. destruct L; cbn in *; [lia|done]. }
  rewrite Hpage. rewrite <- foldl_app. rewrite take_take_drop. unfold zlen at 1. rewrite length_take, length_drop.
  destruct (Z.ltb_spec (Z.of_nat (Z.to_nat m `min` (length L - n))) m) as [Hs|Hs].
  { f_equal. rewrite take_ge by lia. apply lookup_done_reference; [lia|]. unfold zlen. fold L. lia. }
  rewrite Hscan by lia. destruct (Z.leb_spec (q_limit q + 1) (Z.of_nat (n + Z.to_nat m))) as [Hc|Hc].
  - f_equal. assert (n + Z.to_nat m = Z.to_nat (q_limit q + 1))%nat as -> by (unfold m in *; lia).
    destruct (lookup_cut_reference want q x) as [H1 ->]; [lia|unfold zlen; fold L; lia|]. unfold sql_limit in H1. fold L in H1. rewrite H1. done.
  - assert (Hl : last (take (Z.to_nat m) (drop n L)) = last (take (n + Z.to_nat m) L)).
    { rewrite <- (take_take_drop L n). rewrite last_app. destruct (last (take (Z.to_nat m) (drop n L))) eqn:El; [done|].
      apply last_None in El. apply (f_equal length) in El. rewrite length_take, length_drop in El. cbn in El. lia. }
    rewrite Hl. apply IH; [lia|lia|]. unfold m, defaultProbeLookupLimit in *. lia.
Qed.
End Exact.

Section LookupTheorems.
Context {crypto : Crypto}.

(** A row that a page read. *)
Definition read_hit (reads : nat → xdb) (want : bytes) (q : probe_query) (o : ProbeOpRow) : Prop :=
  ∃ i, o ∈ t_probes (x_ctl (reads i)) ∧ q_where q o = true ∧ digest_hit want o = true.

Lemma query_page_in q c n x o : o ∈ query_page q c n x → o ∈ t_probes (x_ctl x) ∧ q_where q o = true.
Proof.
  unfold query_page, sql_limit, query_order, order_by, order_desc. intros Ho%subseteq_take.
  assert (Hs : o ∈ sql_select (λ o, q_where q o && after_cursor q c o) (t_probes (x_ctl x))) by (by destruct (q_by_expires q); rewrite merge_sort_Permutation in Ho).
  apply in_sql_select in Hs as [Hin [Hw _]%andb_true_iff]. done.
Qed.

Lemma scan_hits reads want q rows : (∀ o, o ∈ rows → digest_hit want o = true → read_hit reads want q o) → ∀ s,
  (∀ o, lk_matched s = Some o → read_hit reads want q o) → ∀ o, lk_matched (foldl (scan_row want (q_limit q)) s rows) = Some o → read_hit reads want q o.
Proof.
  induction rows as [|r rows IH]; intros Hr s Hs o; [apply Hs|]. cbn. apply IH; [intros; apply Hr; [by right|done]|].
  intros p. unfold scan_row. destruct (stored_digest r) as [d|] eqn:Ed; [|apply Hs]. destruct (String.eqb _ _) eqn:Ew; [|apply Hs].
  cbn. destruct (_ <=? _); [|apply Hs]. intros [= <-]. apply Hr; [by left|]. unfold digest_hit. rewrite Ed. by rewrite hex_eqb in Ew.
Qed.

Lemma query_page_length q c n x : 0 ≤ n → zlen (query_page q c n x) ≤ n.
Proof. intros Hn. unfold query_page, sql_limit, zlen. rewrite length_take. lia. Qed.

Lemma lookup_loop_sound reads want q : 0 < q_limit q < 2 ^ 63 - 1 → ∀ fuel page c s,
  0 ≤ lk_scanned s ≤ q_limit q + 1 → q_limit q + 1 - lk_scanned s < defaultProbeLookupLimit * Z.of_nat fuel →
  (∀ o, lk_matched s = Some o → read_hit reads want q o) →
  ∃ r, lookup_loop fuel reads page want q c s = Some r ∧ ∀ o, r = Ok o → read_hit reads want q o.
Proof.
  intros Hq. unfold defaultProbeLookupLimit. induction fuel as [|fuel IH]; intros page c s H0 Hf Hs.
  - lia.
  - cbn [lookup_loop]. rewrite wrap_i64_small by (unfold in_i64; lia). destruct (Z.leb_spec (q_limit q + 1) (lk_scanned s)) as [|Hlt]; [by eexists|].
    set (m := Z.min defaultProbeLookupLimit (q_limit q + 1 - lk_scanned s)). set (rows := query_page q c m (reads page)).
    assert (Hrows : ∀ o, o ∈ rows → digest_hit want o = true → read_hit reads want q o).
    { intros o Ho Hh. apply query_page_in in Ho as [Ho Hw]. by exists page. }
    pose proof (scan_hits reads want q rows Hrows s Hs) as Hs'. destruct (scan_counts want (q_limit q) rows s) as (Hsc & _ & _).
    set (s' := foldl (scan_row want (q_limit q)) s rows) in *. destruct (Z.ltb_spec (zlen rows) m) as [Hl|Hl].
    { eexists. split; [done|]. intros o. unfold lookup_done. destruct (_ <=? _); [|done]. destruct (1 <? _); [done|].
      destruct (lk_matched s') as [p|]; [|done]. destruct (_ && _); [|done]. intros [= <-]. by apply Hs'. }
    destruct (_ <=? _) eqn:Ec; [by eexists|]. apply Z.leb_gt in Ec.
    assert (Hm : m = Z.min 256 (q_limit q + 1 - lk_scanned s)) by done. pose proof (query_page_length q c m (reads page)) as Hle. fold rows in Hle.
    clearbody s' rows m. subst m. apply IH; [lia|lia|done].
Qed.

Lemma lookup_fuel_enough limit : 0 < limit → limit + 1 < defaultProbeLookupLimit * Z.of_nat (lookup_fuel limit).
Proof.
  intros Hl. unfold lookup_fuel, defaultProbeLookupLimit. pose proof (Z.div_mod limit 256 ltac:(lia)). pose proof (Z.mod_pos_bound limit 256 ltac:(lia)).
  rewrite Z2Nat.id by (pose proof (Z.div_pos limit 256 ltac:(lia) ltac:(lia)); lia). lia.
Qed.

(** C30: the paged search for an ARM1 digest is the search of the whole table.  On a
    database that no writer changes meanwhile, scanning pages of 256 rows with a keyset
    cursor gives what one scan of the ordered rows of the query gives; it answers an
    operation exactly if the query selects no more rows than the budget and that
    operation is the only one of them whose stored frame has the digest. *)
Theorem paged_lookup_exact (q : probe_query) (x : xdb) (digest : bytes) :
  unique po_id (t_probes (x_ctl x)) → 0 < q_limit q < 2 ^ 63 - 1 →
  findProbeOperationByArmDigest (λ _, x) digest q = Some (lookup_reference digest q x) ∧
  ∀ o, findProbeOperationByArmDigest (λ _, x) digest q = Some (Ok o) ↔
    Z.of_nat (sql_count (q_where q) (t_probes (x_ctl x))) ≤ q_limit q ∧
    (o ∈ t_probes (x_ctl x) ∧ q_where q o = true ∧ digest_hit digest o = true) ∧ po_id o ≠ ""%string ∧
    ∀ o', o' ∈ t_probes (x_ctl x) → q_where q o' = true → digest_hit digest o' = true → o' = o.
Proof.
  intros Hu Hq. assert (Hfind : findProbeOperationByArmDigest (λ _, x) digest q = Some (lookup_reference digest q x)).
  { unfold findProbeOperationByArmDigest. rewrite (proj2 (Z.leb_gt _ _)) by lia.
    pose proof (lookup_loop_exact digest q x Hu Hq (lookup_fuel (q_limit q)) 0 0) as Hl. cbn in Hl. apply Hl; [lia|lia|].
    pose proof (lookup_fuel_enough (q_limit q)). lia. }
  split; [done|]. rewrite Hfind. intros o.
  assert (Hlen : zlen (query_rows q x) = Z.of_nat (sql_count (q_where q) (t_probes (x_ctl x)))).
  { unfold zlen, sql_count, query_rows, query_order, order_by, order_desc. f_equal. by destruct (q_by_expires q); rewrite merge_sort_Permutation. }
  assert (Hnd : NoDup (query_rows q x)).
  { unfold query_rows, query_order, order_by, order_desc.
    destruct (q_by_expires q); rewrite merge_sort_Permutation; by eapply sublist_NoDup, sublist_filter; eapply unique_NoDup. }
  unfold lookup_reference. rewrite Hlen. split.
  - intros [= Ho]. destruct (1 <? _) eqn:E1; [done|]. destruct (Z.ltb_spec (q_limit q) (Z.of_nat (sql_count (q_where q) (t_probes (x_ctl x))))) as [|Hc]; [done|].
    unfold sql_limit in *. rewrite take_ge in * by (unfold zlen in Hlen; lia).
    destruct (List.filter (digest_hit digest) (query_rows q x)) as [|h [|h' l]] eqn:Eh; [done| |done]. destruct (String.eqb_spec (po_id h) "") as [|Hid]; [done|].
    injection Ho as ->. split; [lia|]. assert (Hin : ∀ p, p ∈ query_rows q x ∧ digest_hit digest p = true ↔ p = o).
    { intros p. rewrite <- (in_sql_select (digest_hit digest)). unfold sql_select. rewrite Eh. apply list_elem_of_singleton. }
    split; [|split; [done|]].
    + destruct (proj2 (Hin o) eq_refl) as [[Hp Hw]%query_rows_in Hh]. done.
    + intros p Hp Hw Hh. apply Hin. rewrite query_rows_in. done.
  - intros (Hc & (Hp & Hw & Hh) & Hid & Hone). unfold sql_limit. rewrite take_ge by (unfold zlen in Hlen; lia).
    assert (List.filter (digest_hit digest) (query_rows q x) = [o]) as ->.
    { apply Permutation_singleton_r. apply NoDup_Permutation; [by eapply sublist_NoDup, sublist_filter|apply NoDup_singleton|].
      intros p. rewrite list_elem_of_singleton. change (p ∈ sql_select (digest_hit digest) (query_rows q x) ↔ p = o). rewrite in_sql_select, query_rows_in. split.
      - intros [[H1 H2] H3]. by apply Hone.
      - by intros ->. }
    change (1 <? zlen [o]) with false. cbv iota. rewrite (proj2 (Z.ltb_ge _ _)) by lia. by apply String.eqb_neq in Hid as ->.
Qed.

(** The search ends and its answer was read.  Whatever other writers do between its
    page queries, it answers within its budget, and an operation it returns is a row that
    one of its pages read, selected by the query and with the digest. *)
Theorem paged_lookup_sound (reads : nat → xdb) (q : probe_query) (digest : bytes) :
  0 < q_limit q < 2 ^ 63 - 1 →
  ∃ r, findProbeOperationByArmDigest reads digest q = Some r ∧
    ∀ o, r = Ok o → ∃ i, o ∈ t_probes (x_ctl (reads i)) ∧ q_where q o = true ∧ digest_hit digest o = true.
Proof.
  intros Hq. unfold findProbeOperationByArmDigest. rewrite (proj2 (Z.leb_gt _ _)) by lia. apply lookup_loop_sound; [done|cbn; lia| |done].
  pose proof (lookup_fuel_enough (q_limit q)). cbn. lia.
Qed.
End LookupTheorems.
