(* ===== verification/CtlRun.v ===== *)
(** * Executions of the Controller's store

    Every transaction of the control store, enrollment, rotation, restore, deletion,
    forward and probe operations as one command; an execution is any sequence of them.  The
    earlier reads of a command are arbitrary databases, which covers every
    interleaving of its statements with other writers. *)

From Stdlib Require Import ZArith Lia Strings.Byte.
From stdpp Require Import base tactics list sets strings option relations.
From S2P Require Import Prelude GoStd Frame Probe Enrollment Sql Control ControlProofs CtlDb EnrollStore CtlLifecycle Forwards ProbeStore.

Open Scope Z_scope.

Inductive xcmd : Type :=
  | XCtl (c : ccmd)
  | XToken (capacity : bool) (now : Z) (raw : bytes) (id node : string) (ttl : Z)
  | XConsume (t1 t2 ts : Z) (credID resID : string) (req : EnrollmentRequest)
  | XTombstone (now : Z) (ts : CleanupRow)
  | XConfirm (now : Z) (node : string)
  | XRotate (now : Z) (op : RotationRow)
  | XUnrotate (id : string)
  | XPhaseCAS (now : Z) (id expected next : string)
  | XPhase (before : xdb) (now : Z) (id next : string)
  | XAck (before1 before2 : xdb) (now : Z) (op node : string)
  | XForceRetire (now : Z) (id : string)
  | XAdvance (before1 before2 : xdb) (clock now : Z) (op next : string) (force : bool)
  | XRestore (now : Z) (op : RestoreRow)
  | XRestorePhase (before : xdb) (now : Z) (id next : string)
  | XEnter (now : Z) (op : RestoreRow)
  | XReauthorize (now : Z) (node op : string)
  | XFinalize (before1 before2 : xdb) (now : Z) (op : string)
  | XNodeDel (now : Z) (op : NodeDelRow)
  | XNodeUndel (id : string)
  | XNodeDelCAS (now : Z) (op : NodeDelRow) (revision : Z)
  | XNodeDeleteCAS (now : Z) (op : NodeDelRow) (outbox : ControlOutboxItem) (revision : Z)
  | XNodeDelete (now : Z) (op : NodeDelRow) (outbox : ControlOutboxItem)
  | XNodeDelResult (now : Z) (message : string)
  | XForward (capacity : bool) (now : Z) (f : ForwardRow)
  | XActivate (now : Z) (id : string) (revision : Z) (activation : string)
  | XForwardGone (id : string)
  | XSpec (now : Z) (s : SpecRow)
  | XDeletion (now : Z) (op : DeletionRow)
  | XDeletionDone (now : Z) (id : string)
  | XDesired (now : Z) (spec : SpecRow) (outbox : ControlOutboxItem)
  | XDelete (now : Z) (op : DeletionRow) (outbox : ControlOutboxItem)
  | XKey (ts : Z) (rec : IdemRow)
  | XForwardBundle (capacity : bool) (ts : Z) (f : ForwardRow) (spec : SpecRow) (outbox : ControlOutboxItem) (rec : IdemRow)
  | XNodeBundle (capacity : bool) (ts : Z) (body : string) (n : NodeRow) (rec : IdemRow)
  | XDeletionMessage (now : Z) (message : string)
  | XDeletionResult (now : Z) (message op forward : string)
  | XProvider (now : Z) (p : ProviderRow)
  | XProviderEnabled (now : Z) (id : string) (enabled : bool)
  | XProviderVantage (now : Z) (id : string) (independent : bool)
  | XProbe (before : xdb) (ts : Z) (op : ProbeOpRow)
  | XProbeBundle (ts : Z) (op : ProbeOpRow) (outbox : ControlOutboxItem)
  | XProbeStatus (now : Z) (id expected status : string)
  | XProbeRequeue (now : Z) (id : string)
  | XProbeChallenge (now : Z) (id hash : string)
  | XProbeEvidence (now : Z) (id kind payload : string)
  | XProbeJoin (now : Z) (id expected forward activation snapshot : string) (keys : list bytes)
  | XProbeOutcome (now : Z) (id outcome : string)
  | XProbeExpire (before : xdb) (now limit : Z)
  | XOutcomeExpire (cutoff limit : Z)
  | XResultsGC (cutoff limit : Z)
  | XProbesGC (cutoff limit : Z)
  | XActivation (now : Z) (a : ActivationRow)
  | XMirror (now : Z) (forward activation : string) (revision : Z) (snapshot : string).

Definition xdrop {A} (m : xt A) : xt unit := sql! _ := m in sql_ret tt.

Section Run.
Context {crypto : Crypto} {json : CtlJson} {pjson : ProbeJson}.

Definition xbody (c : xcmd) : xt unit :=
  match c with
  | XCtl c => on_ctl (cbody c)
  | XToken cap now raw id node ttl => xdrop (CreateEnrollmentToken cap now raw id node ttl)
  | XConsume t1 t2 ts cid rid req => xdrop (ConsumeEnrollmentToken t1 t2 ts cid rid req)
  | XTombstone now ts => CreateNodeCleanupTombstone now ts
  | XConfirm now node => MarkCleanupRemoteConfirmed now node
  | XRotate now op => CreateKeyRotationOperation now op
  | XUnrotate id => DeleteKeyRotationOperation id
  | XPhaseCAS now id e n => AdvanceKeyRotationPhaseCAS now id e n
  | XPhase b now id n => AdvanceKeyRotationPhase b now id n
  | XAck b1 b2 now op node => RecordKeyRotationAgentACK b1 b2 now op node
  | XForceRetire now id => ForceRetireKeyRotationOperation now id
  | XAdvance b1 b2 clock now op next force => xdrop (AdvanceRotationPhase b1 b2 clock now op next force)
  | XRestore now op => CreateRestoreOperation now op
  | XRestorePhase b now id n => AdvanceRestorePhase b now id n
  | XEnter now op => EnterRestoreReconciliation now op
  | XReauthorize now node op => ReauthorizeNodeForOperation now node op
  | XFinalize b1 b2 now op => xdrop (FinalizeRestore b1 b2 now op)
  | XNodeDel now op => CreateNodeDeletionOperation now op
  | XNodeUndel id => DeleteNodeDeletionOperation id
  | XNodeDelCAS now op r => CreateNodeDeletionOperationCAS now op r
  | XNodeDeleteCAS now op o r => ApplyNodeDeleteCAS now op o r
  | XNodeDelete now op o => ApplyNodeDelete now op o
  | XNodeDelResult now m => xdrop (CompleteNodeDeletionResult now m)
  | XForward cap now f => xdrop (CreateForward cap now f)
  | XActivate now id r a => CASForwardActivation now id r a
  | XForwardGone id => DeleteForwardRow id
  | XSpec now s => CreateForwardSpec now s
  | XDeletion now op => CreateForwardDeletionOperation now op
  | XDeletionDone now id => CompleteForwardDeletionOperation now id
  | XDesired now s o => ApplyForwardDesired now s o
  | XDelete now op o => ApplyForwardDelete now op o
  | XKey ts r => xdrop (StoreIdempotency ts r)
  | XForwardBundle cap ts f s o r => xdrop (CreateForwardBundle cap ts f s o r)
  | XNodeBundle cap ts body n r => xdrop (CreateNodeBundle cap ts body n r)
  | XDeletionMessage now m => CompleteForwardDeletionMessage now m
  | XDeletionResult now m op f => CompleteForwardDeletionResult now m op f
  | XProvider now p => xdrop (CreateProbeProvider now p)
  | XProviderEnabled now id b => SetProbeProviderEnabled now id b
  | XProviderVantage now id b => SetProbeProviderIndependentVantage now id b
  | XProbe b ts op => xdrop (CreateProbeOperation b ts op)
  | XProbeBundle ts op o => xdrop (CreateProbeOperationBundle ts op o)
  | XProbeStatus now id e st => setProbeOperationStatusCAS now id e st
  | XProbeRequeue now id => RequeueProbeOperationForRecovery now id
  | XProbeChallenge now id h => SetProbeOperationChallenge now id h
  | XProbeEvidence now id k p => RecordProbeResult now id k p
  | XProbeJoin now id e f a s ks => PublishProbeJoin now id e f a s ks
  | XProbeOutcome now id o => xdrop (QueueProbeOutcome now id o)
  | XProbeExpire b now l => xdrop (ExpireProbeOperationsLimit b now l)
  | XOutcomeExpire c l => xdrop (ExpireTerminalProbeDeliveriesBeforeLimit c l)
  | XResultsGC c l => xdrop (DeleteProbeResultsBeforeLimit c l)
  | XProbesGC c l => xdrop (DeleteTerminalProbeOperationsBeforeLimit c l)
  | XActivation now a => EnsureForwardActivation now a
  | XMirror now f a r s => SetForwardRuntimeStatus now f a r s
  end.

(** A command, or a cleanup pass of the control inbox. *)
Inductive xevent : Type := XCmd (c : xcmd) | XCleanup (cutoff limit : Z).
Definition xstate : Type := xdb * controlInboxCleanupCursor.
Definition xstep (e : xevent) (s : xstate) : xstate :=
  match e with
  | XCmd c => ((commit_tx (xbody c) s.1).2, s.2)
  | XCleanup cutoff limit => let '(_, c, d) := DeleteControlInboxBeforeLimit cutoff limit s.2 (x_ctl s.1) in (with_ctl s.1 d, c)
  end.
Definition xrun (es : list xevent) (s : xstate) : xstate := foldl (λ s e, xstep e s) s es.

(** A relation on databases that the commands of an execution and every cleanup pass
    respect holds along it. *)
Lemma xrun_ind_when (P : xevent → Prop) (R : xdb → xdb → Prop) `{!PreOrder R} :
  (∀ c, P (XCmd c) → moves R (xbody c)) → (∀ cutoff limit cur x, R x (with_ctl x (DeleteControlInboxBeforeLimit cutoff limit cur (x_ctl x)).2)) →
  ∀ es s, Forall P es → R s.1 (xrun es s).1.
Proof.
  intros Hc Hd es. induction es as [|e es IH]; intros s Hp; [reflexivity|]. apply list.Forall_cons in Hp as [He Hp].
  cbn. etrans; [|by apply IH]. destruct e as [c|cutoff limit]; cbn.
  - by apply moves_commit, Hc.
  - specialize (Hd cutoff limit s.2 s.1). by destruct (DeleteControlInboxBeforeLimit _ _ _ _) as [[? ?] ?].
Qed.
Lemma xrun_ind (R : xdb → xdb → Prop) `{!PreOrder R} :
  (∀ c, moves R (xbody c)) → (∀ cutoff limit cur x, R x (with_ctl x (DeleteControlInboxBeforeLimit cutoff limit cur (x_ctl x)).2)) →
  ∀ es s, R s.1 (xrun es s).1.
Proof.
  intros Hc Hd es s. apply (xrun_ind_when (λ _, True)); auto. by apply list.Forall_true.
Qed.

Lemma xrun_app es1 es2 s : xrun (es1 ++ es2) s = xrun es2 (xrun es1 s).
Proof. apply foldl_app. Qed.
End Run.

(** ** Frames *)

(** Transactions on the control tables only. *)
Lemma moves_on_ctl {A} (R : xdb → xdb → Prop) (Q : db → db → Prop) (m : ct A) :
  moves Q m → (∀ x d, Q (x_ctl x) d → R x (with_ctl x d)) → moves R (on_ctl m).
Proof. intros Hm HR x a x' H. unfold on_ctl in H. destruct (m (x_ctl x)) as [[b d]|e] eqn:E; [|done]. injection H as <- <-. by eapply HR, Hm. Qed.

Lemma moves_off_ctl {A} (R : xdb → xdb → Prop) (m : ct A) : (∀ x d, R x (with_ctl x d)) → moves R (on_ctl m).
Proof. intros HR. by apply (moves_on_ctl R (λ _ _, True)); auto. Qed.

(** The loops of the probe sweeper. *)
Definition expire_write (now : Z) (o : ProbeOpRow) (x : xdb) : xdb :=
  with_ctl x (set_probes (x_ctl x) (sql_update (λ r, po_at (po_id o) r && String.eqb (po_status r) (po_status o) && (po_expires r <=? now))
    (po_advance "TIMEOUT" now) (t_probes (x_ctl x)))).
Lemma moves_expire_loop (R : xdb → xdb → Prop) `{!PreOrder R} now l :
  (∀ o x, o ∈ l → R x (expire_write now o x)) → moves R (expire_loop now l).
Proof.
  induction l as [|o l IH]; intros Hw; cbn [expire_loop]; [apply moves_ret; apply _|]. apply moves_all. intros x. apply moves_at_read.
  unfold write_probes. apply moves_at_write; [apply _|apply Hw; by left|]. apply moves_bind; [apply _|apply IH; intros; apply Hw; by right|].
  intros rest. apply moves_ret. apply _.
Qed.
Lemma expired_page_live now limit x o : o ∈ expired_page now limit x → probe_live (po_status o) = true.
Proof.
  unfold expired_page, sql_limit, order_by. intros Ho%subseteq_take. rewrite sorting.merge_sort_Permutation in Ho. apply in_sql_select in Ho as [_ Ho].
  by apply andb_true_iff in Ho as [Ho _].
Qed.
Lemma moves_expire (R : xdb → xdb → Prop) `{!PreOrder R} before now limit :
  (∀ o x, probe_live (po_status o) = true → R x (expire_write now o x)) → moves R (ExpireProbeOperationsLimit before now limit).
Proof. intros Hw. apply moves_expire_loop; [apply _|]. intros o x Ho%expired_page_live. auto. Qed.

Lemma moves_expire_deliveries (R : xdb → xdb → Prop) `{!PreOrder R} cutoff ids :
  (∀ w x, (∀ t, w t = true → tm_disposition t = "ENQUEUED"%string) →
     R x (with_ctl x (set_terminals (x_ctl x) (sql_update w (tm_dispose "EXPIRED" cutoff) (t_terminals (x_ctl x)))))) →
  (∀ id x, R x (with_ctl x (set_outbox (x_ctl x) (sql_delete (outcome_pending id) (t_outbox (x_ctl x)))))) →
  moves R (expire_deliveries cutoff ids).
Proof.
  intros Ht Ho. induction ids as [|id ids IH]; cbn [expire_deliveries]; [apply moves_ret; apply _|]. apply moves_all. intros x. apply moves_at_read. cbv zeta.
  destruct (_ =? 0)%nat; [by apply moves_here|]. unfold write_terminals, write_outbox. apply moves_at_write; [apply _| |].
  { apply Ht. unfold undelivered. intros t [[_ [Hd%String.eqb_eq _]%andb_true_iff]%andb_true_iff _]%andb_true_iff. done. }
  apply moves_all. intros y. apply moves_at_write; [apply _|apply Ho|]. apply moves_bind; [apply _|done|]. intros n. apply moves_ret. apply _.
Qed.

(** [mvx leaf]: the writes of a command; transactions on the control tables are left. *)
Ltac head_of t := match t with ?f _ => head_of f | _ => t end.
Ltac unfold_op leaf :=
  match goal with
  | |- moves _ (ExpireProbeOperationsLimit _ _ _) => apply moves_expire; [apply _|intros ? ? ?; unfold expire_write; leaf]
  | |- moves _ (expire_deliveries _ _) => apply moves_expire_deliveries; [apply _|intros; leaf|intros; leaf]
  | |- moves _ ?m => let h := head_of m in lazymatch h with on_ctl _ => fail | @on_ctl => fail | _ => unfold h; cbv delta [write_probes write_results write_terminals write_outbox] end
  end.
Ltac mvx leaf := repeat (progress (mv leaf) || unfold_op leaf).

(** ** The control tables *)

(** The automaton of an outbox row, with the expiry of an unsent probe outcome. *)
Inductive store_edge (ty : string) : option (string * promise) → option (string * promise) → Prop :=
  | se_control a b : ofsm a b → store_edge ty a b
  | se_expired p : ty = "probe_outcome"%string → store_edge ty (Some ("PENDING"%string, p)) None.

Record ctl_kept (d d' : db) : Prop := {
  ck_ok : db_ok d';
  ck_outbox : ∀ op ty, rtc (store_edge ty) (outbox_view d op ty) (outbox_view d' op ty);
  ck_inbox : ∀ m, rtc ifsm (inbox_view d m) (inbox_view d' m);
  ck_nodes : ∀ n, node_le (node_row d n) (node_row d' n)
}.
Lemma ctl_kept_good d d' : good d d' → ctl_kept d d'.
Proof.
  intros [h1 h2 h3 h4]. split; try done. intros op ty. eapply rtc_subrel; [|apply h2]. intros a b. apply se_control.
Qed.
Lemma ctl_kept_trans d1 d2 d3 : ctl_kept d1 d2 → ctl_kept d2 d3 → ctl_kept d1 d3.
Proof.
  intros [h1 h2 h3 h4] [k1 k2 k3 k4]. split; [done|intros; etrans; [apply h2|apply k2]|intros; etrans; [apply h3|apply k3]|].
  intros n. eapply node_le_trans; [apply h4|apply k4].
Qed.

(** Deleting the unsent outcome of a probe. *)
Lemma ctl_kept_expired d id : db_ok d → ctl_kept d (set_outbox d (sql_delete (outcome_pending id) (t_outbox d))).
Proof.
  intros [k1 [i1 j1] s1 k2 i2 s2 k3 sq]. split.
  - split; cbn; try done; [by apply unique_delete| |by apply Forall_sql_delete]. split; [by apply StronglySorted_filter|by apply Forall_sql_delete].
  - intros op ty. unfold outbox_view, outbox_row. cbn. destruct (sql_row (ob_at op ty) (t_outbox d)) as [r|] eqn:E.
    + pose proof (sql_row_Some _ _ _ E) as [Hr Ha]. destruct (outcome_pending id r) eqn:Ep.
      * assert (sql_row (ob_at op ty) (sql_delete (outcome_pending id) (t_outbox d)) = None) as ->.
        { destruct (sql_row _ (sql_delete _ _)) as [r'|] eqn:E'; [|done]. apply sql_row_Some in E' as [[Hr' Hn]%in_sql_delete Ha'].
          assert (r' = r) as ->; [|congruence]. apply (unique_inj _ _ _ _ k1 Hr' Hr). unfold ob_at in *.
          apply andb_true_iff in Ha as [->%String.eqb_eq ->%String.eqb_eq], Ha' as [->%String.eqb_eq ->%String.eqb_eq]. done. }
        unfold outcome_pending, ob_at in *. apply andb_true_iff in Ep as [[_ Et%String.eqb_eq]%andb_true_iff Es%String.eqb_eq].
        apply andb_true_iff in Ha as [_ Hty%String.eqb_eq]. cbn. rewrite Es. apply rtc_once, se_expired. congruence.
      * assert (sql_row (ob_at op ty) (sql_delete (outcome_pending id) (t_outbox d)) = Some r) as ->; [|apply rtc_refl].
        apply (sql_row_unique (λ r, (ob_operation r, ob_type r))); [by apply unique_delete| |by apply in_sql_delete].
        unfold ob_at in *. apply andb_true_iff in Ha as [Ha%String.eqb_eq Hb%String.eqb_eq]. intros y. rewrite andb_true_iff, !String.eqb_eq. rewrite Ha, Hb.
        split; [intros [-> ->]; done|by intros [= -> ->]].
    + assert (sql_row (ob_at op ty) (sql_delete (outcome_pending id) (t_outbox d)) = None) as ->; [|apply rtc_refl].
      destruct (sql_row _ (sql_delete _ _)) as [r'|] eqn:E'; [|done]. apply sql_row_Some in E' as [[Hr' Hn]%in_sql_delete Ha'].
      by rewrite (sql_row_None _ _ _ E Hr') in Ha'.
  - intros m. apply rtc_refl.
  - intros n. apply node_le_refl.
Qed.

Definition ctl_good (x x' : xdb) : Prop := db_ok (x_ctl x) → ctl_kept (x_ctl x) (x_ctl x').
#[export] Instance ctl_good_pre : PreOrder ctl_good.
Proof.
  split; [intros x Hx; by apply ctl_kept_good, good_refl|]. intros x y z Hxy Hyz Hx. eapply ctl_kept_trans; [by apply Hxy|]. apply Hyz. by eapply ck_ok, Hxy.
Qed.

Lemma ctl_good_tables x x' : control_tables (x_ctl x') = control_tables (x_ctl x) → ctl_good x x'.
Proof. intros He Hx. apply ctl_kept_good. eapply good_ext; [exact He|]. by apply good_refl. Qed.

Ltac ctl_leaf :=
  first [ apply ctl_good_tables; reflexivity
        | intros ?Hok; cbn [x_ctl with_ctl];
          first [ by apply ctl_kept_expired
                | apply ctl_kept_good; first
                  [ apply good_node_update; [done|done|intros; cbn; lia]
                  | apply good_outbox_insert; [done|done|done|assumption]
                  | apply good_dispose; [done|intros ? ?; bool_split; done|done] ] ]
        | idtac ].

Lemma cbody_good `{!Crypto} c : moves (λ d d', db_ok d → good d d') (cbody c).
Proof. intros d a d0 He Hd. by eapply cbody_respects. Qed.
Lemma create_good cap now n : moves (λ d d', db_ok d → good d d') (CreateNode cap now n).
Proof. intros d a d' H Hd. by eapply resp_create. Qed.

Lemma xbody_ctl `{!Crypto} `{!CtlJson} `{!ProbeJson} c : moves ctl_good (xbody c).
Proof.
  destruct c; mvx ctl_leaf.
  - eapply moves_on_ctl; [apply cbody_good|]. intros x d Hg Hx. by apply ctl_kept_good, Hg.
  - destruct (sql_exists _ _); [reflexivity|]. by apply ctl_good_tables.
  - eapply moves_on_ctl; [apply create_good|]. intros x d Hg Hx. by apply ctl_kept_good, Hg.
  - eapply moves_on_ctl; [apply create_good|]. intros x d Hg Hx. by apply ctl_kept_good, Hg.
Qed.

(** A cleanup pass only deletes inbox rows. *)
Lemma cleanup_loop_deletes `{!Crypto} cutoff hw limit l : ∀ removed lst d,
  ∃ w, (cleanup_loop cutoff hw limit removed lst l d).2 = set_inbox d (sql_delete w (t_inbox d)).
Proof.
  assert (Hnone : ∀ d, ∃ w, d = set_inbox d (sql_delete w (t_inbox d))).
  { intros d. exists (λ _, false). destruct d as [? t]. unfold set_inbox, sql_delete. cbn. f_equal. by induction t as [|r t IH]; cbn; [|rewrite <- IH]. }
  induction l as [|r l IH]; intros removed lst d; [apply Hnone|]. cbn [cleanup_loop]. destruct (negb _); [apply IH|]. cbv zeta.
  destruct (_ <=? _)%nat; [by eexists|]. edestruct IH as [w' ->]. cbn [t_inbox set_inbox]. rewrite sql_delete_delete. by eexists.
Qed.
Lemma cleanup_deletes `{!Crypto} cutoff limit c d :
  ∃ w, (DeleteControlInboxBeforeLimit cutoff limit c d).2 = set_inbox d (sql_delete w (t_inbox d)).
Proof.
  destruct (cleanup_loop_deletes 0 0 0 [] 0 0 d) as [w0 Hw0]. cbn in Hw0. unfold DeleteControlInboxBeforeLimit. cbv zeta.
  destruct (cc_closed c); [by exists w0|]. destruct (_ && _); [by exists w0|].
  match goal with |- context [cleanup_loop ?a ?b ?e ?f ?g ?l d] => destruct (cleanup_loop_deletes a b e l f g d) as [w Hw];
    destruct (cleanup_loop a b e f g l d) as [[? ?] d'] end.
  by exists w.
Qed.
