(* ===== verification/ProbeLife.v ===== *)
(** * The life of a probe operation

    The automaton of one operation with its evidence and its delivery decision, and the
    proof that every transaction of the Controller's store follows it. *)

From Stdlib Require Import ZArith Lia Strings.Byte.
From stdpp Require Import base tactics list sets strings option relations sorting.
From S2P Require Import Prelude GoStd Frame Domain Probe Sql Control ControlProofs ControlCleanup CtlDb EnrollStore CtlLifecycle Forwards ProbeStore CtlRun.

Open Scope list_scope.
Open Scope Z_scope.

(** ** The tables *)

Definition evidence_key (r : ResultRow) : string * string := (rr_probe r, rr_kind r).
Definition probe_known (d : db) (id : string) : Prop := ∃ o, o ∈ t_probes d ∧ po_id o = id.

(** Keys and references; one artifact of each kind. *)
Record probes_ok (d : db) : Prop := {
  pk_ops : unique po_id (t_probes d);
  pk_evidence : unique evidence_key (List.filter (λ r, evidence_kind (rr_kind r)) (t_results d));
  pk_results : ∀ r, r ∈ t_results d → probe_known d (rr_probe r);
  pk_terminals : unique tm_probe (t_terminals d);
  pk_deliveries : ∀ t, t ∈ t_terminals d → probe_known d (tm_probe t)
}.

(** What an operation is bound to for its whole life. *)
Record probe_binding : Type := mkBinding {
  pb_node : string; pb_forward : string; pb_activation : string; pb_revision : Z; pb_provider : string; pb_endpoint : string; pb_arm : string;
  pb_ttl : Z; pb_opaque : string; pb_expires : Z; pb_created : Z
}.
Definition binding_of (o : ProbeOpRow) : probe_binding :=
  mkBinding (po_node o) (po_forward o) (po_activation o) (po_revision o) (po_provider o) (po_endpoint o) (po_arm o) (po_ttl o) (po_opaque o)
    (po_expires o) (po_created o).

Definition evidence_of (d : db) (id kind : string) : option string := rr_payload <$> sql_row (rr_at id kind) (t_results d).
Definition evidence_kinds : list string := ["provider"; "wan1"; "ack1"; "rct1"]%string.
Definition decision_of (d : db) (id : string) : option string := tm_disposition <$> sql_row (λ t, String.eqb (tm_probe t) id) (t_terminals d).

(** Status, binding, the artifacts by kind and the delivery decision. *)
Record probe_state : Type := mkPS { ps_status : string; ps_binding : probe_binding; ps_evidence : list (option string); ps_decision : option string }.
Definition probe_view (d : db) (id : string) : option probe_state :=
  (λ o, mkPS (po_status o) (binding_of o) (evidence_of d id <$> evidence_kinds) (decision_of d id)) <$> sql_row (po_at id) (t_probes d).

(** ** The automaton *)

(** The store's own status changes. *)
Inductive status_step : string → string → Prop :=
  | ss_armed : status_step "PENDING" "ARMED"
  | ss_flight : status_step "ARMED" "IN_FLIGHT"
  | ss_recover : status_step "IN_FLIGHT" "ARMED"
  | ss_end a b : probe_live a = true → probeTerminal b = true → b ≠ "OPEN_FROM_VANTAGE"%string → status_step a b.

(** [opens]: whether the operation may become OPEN_FROM_VANTAGE. *)
Inductive probe_edge (opens : bool) : option probe_state → option probe_state → Prop :=
  | pe_create st b : (opens = true ∨ st ≠ "OPEN_FROM_VANTAGE"%string) → probe_edge opens None (Some (mkPS st b [None; None; None; None] None))
  | pe_status st st' b ev dec : status_step st st' → probe_edge opens (Some (mkPS st b ev dec)) (Some (mkPS st' b ev dec))
  | pe_open b ev dec : opens = true → probe_edge opens (Some (mkPS "IN_FLIGHT" b ev dec)) (Some (mkPS "OPEN_FROM_VANTAGE" b ev dec))
  | pe_record st b ev i p dec : probeTerminal st = false → ev !! i = Some None →
      probe_edge opens (Some (mkPS st b ev dec)) (Some (mkPS st b (<[i := Some p]> ev) dec))
  | pe_prune st b ev ev' dec : probeTerminal st = true → Forall2 (λ e e', e' = e ∨ e' = None) ev ev' →
      probe_edge opens (Some (mkPS st b ev dec)) (Some (mkPS st b ev' dec))
  | pe_decide st b ev dis : probeTerminal st = true → dis ∈ ["ENQUEUED"; "STALE"; "MISSING"]%string →
      probe_edge opens (Some (mkPS st b ev None)) (Some (mkPS st b ev (Some dis)))
  | pe_settle st b ev dis : dis ∈ ["DELIVERED"; "EXPIRED"]%string →
      probe_edge opens (Some (mkPS st b ev (Some "ENQUEUED"%string))) (Some (mkPS st b ev (Some dis)))
  | pe_collect st b ev dec : probeTerminal st = true → probe_edge opens (Some (mkPS st b ev dec)) None.

Definition probe_le (opens : string → bool) (d d' : db) : Prop :=
  probes_ok d → probes_ok d' ∧ ∀ id, rtc (probe_edge (opens id)) (probe_view d id) (probe_view d' id).
#[export] Instance probe_le_pre opens : PreOrder (probe_le opens).
Proof.
  split.
  - intros d Hd. split; [done|]. intros id. apply rtc_refl.
  - intros d1 d2 d3 H12 H23 Hd. destruct (H12 Hd) as [Hd2 V12]. destruct (H23 Hd2) as [Hd3 V23]. split; [done|]. intros id. etrans; [apply V12|apply V23].
Qed.

Definition probe_tables (d : db) : list ProbeOpRow * list ResultRow * list TerminalRow := (t_probes d, t_results d, t_terminals d).
Lemma probe_view_tables d d' id : probe_tables d' = probe_tables d → probe_view d' id = probe_view d id.
Proof. intros [= Hp Hr Ht]. unfold probe_view, decision_of. rewrite Hp, Ht. unfold evidence_kinds. cbn. unfold evidence_of. by rewrite Hr. Qed.
Lemma probe_same opens d d' : probe_tables d' = probe_tables d → probe_le opens d d'.
Proof.
  intros He. pose proof He as [= Hp Hr Ht]. intros [k1 k2 k3 k4 k5]. split.
  - split; unfold probe_known; rewrite ?Hp, ?Hr, ?Ht; assumption.
  - intros id. rewrite (probe_view_tables _ _ _ He). apply rtc_refl.
Qed.

Lemma po_at_iff id o : po_at id o = true ↔ po_id o = id.
Proof. unfold po_at. by rewrite String.eqb_eq. Qed.
Lemma probe_row_in d o : probes_ok d → o ∈ t_probes d → sql_row (po_at (po_id o)) (t_probes d) = Some o.
Proof. intros Hd Ho. apply (sql_row_unique po_id); [apply Hd| |done]. intros y. apply po_at_iff. Qed.

(** ** One write *)

(** An update of operations that keeps what they are bound to. *)
Lemma probe_update opens d w f :
  (∀ o, po_id (f o) = po_id o ∧ binding_of (f o) = binding_of o) →
  (∀ o, o ∈ t_probes d → w o = true → po_status (f o) = po_status o ∨ status_step (po_status o) (po_status (f o))
        ∨ (opens (po_id o) = true ∧ po_status o = "IN_FLIGHT" ∧ po_status (f o) = "OPEN_FROM_VANTAGE")) →
  probe_le opens d (set_probes d (sql_update w f (t_probes d))).
Proof.
  intros Hf Hs Hd. pose proof Hd as [k1 k2 k3 k4 k5].
  assert (Hk : ∀ id, probe_known d id → probe_known (set_probes d (sql_update w f (t_probes d))) id).
  { intros id (o & Ho & <-). exists (if w o then f o else o). split; [apply in_sql_update; by exists o|]. destruct (w o); [apply Hf|done]. }
  split; [split; cbn [t_probes t_results t_terminals set_probes]; auto|].
  - apply unique_update; [|done]. intros o. apply Hf.
  - intros id. unfold probe_view. cbn [t_probes set_probes]. rewrite sql_row_update; [|intros o _; unfold po_at; by rewrite (proj1 (Hf o))].
    destruct (sql_row (po_at id) (t_probes d)) as [o|] eqn:E; [|apply rtc_refl]. cbn. apply sql_row_Some in E as [Ho Hid%po_at_iff].
    change (evidence_of (set_probes d (sql_update w f (t_probes d))) id) with (evidence_of d id). change (decision_of (set_probes d _) id) with (decision_of d id).
    destruct (w o) eqn:Ew; [|apply rtc_refl]. rewrite (proj2 (Hf o)).
    destruct (Hs o Ho Ew) as [-> | [Hst | (Hop & -> & ->)]]; [apply rtc_refl|by apply rtc_once, pe_status|]. apply rtc_once, pe_open. by rewrite <- Hid.
Qed.

Lemma evidence_none d id kind : probes_ok d → ¬ probe_known d id → evidence_of d id kind = None.
Proof.
  intros Hd Hn. unfold evidence_of. destruct (sql_row (rr_at id kind) (t_results d)) as [r|] eqn:E; [|done].
  apply sql_row_Some in E as [Hr [He%String.eqb_eq _]%andb_true_iff]. destruct Hn. rewrite <- He. by apply pk_results.
Qed.
Lemma decision_none d id : probes_ok d → ¬ probe_known d id → decision_of d id = None.
Proof.
  intros Hd Hn. unfold decision_of. destruct (sql_row _ (t_terminals d)) as [t|] eqn:E; [|done].
  apply sql_row_Some in E as [Ht He%String.eqb_eq]. destruct Hn. rewrite <- He. by apply pk_deliveries.
Qed.
Lemma probe_unknown d id : sql_exists (po_at id) (t_probes d) = false → ¬ probe_known d id.
Proof. rewrite <- not_true_iff_false. intros Hn (o & Ho & He). apply Hn, sql_exists_true. exists o. by rewrite po_at_iff. Qed.
Lemma probe_view_Some d id v : probe_view d id = Some v → probe_known d id.
Proof. unfold probe_view. destruct (sql_row (po_at id) (t_probes d)) as [o|] eqn:E; [|done]. intros _. apply sql_row_Some in E as [Ho Hid%po_at_iff]. by exists o. Qed.
Lemma probe_view_row d id o : sql_row (po_at id) (t_probes d) = Some o →
  probe_view d id = Some (mkPS (po_status o) (binding_of o) (evidence_of d id <$> evidence_kinds) (decision_of d id)).
Proof. intros E. unfold probe_view. by rewrite E. Qed.
Lemma probe_view_none d id : sql_row (po_at id) (t_probes d) = None → probe_view d id = None.
Proof. intros E. unfold probe_view. by rewrite E. Qed.

Lemma probe_insert_le opens d o : sql_exists (po_at (po_id o)) (t_probes d) = false → (opens (po_id o) = true ∨ po_status o ≠ "OPEN_FROM_VANTAGE"%string) →
  probe_le opens d (set_probes d (t_probes d ++ [o])).
Proof.
  intros Hn Ho Hd. pose proof Hd as [k1 k2 k3 k4 k5].
  assert (Hk : ∀ id, probe_known d id → probe_known (set_probes d (t_probes d ++ [o])) id).
  { intros id (p & Hp & <-). exists p. split; [|done]. cbn. apply elem_of_app. by left. }
  split; [split; cbn [t_probes t_results t_terminals set_probes]; auto|].
  - apply unique_insert; [done|]. intros p Hp He. apply (probe_unknown _ _ Hn). by exists p.
  - intros id. unfold probe_view. cbn [t_probes set_probes]. rewrite sql_row_app.
    change (evidence_of (set_probes d (t_probes d ++ [o])) id) with (evidence_of d id). change (decision_of (set_probes d _) id) with (decision_of d id).
    destruct (sql_row (po_at id) (t_probes d)) as [p|] eqn:E; [apply rtc_refl|]. unfold sql_row. cbn [List.filter].
    destruct (po_at id o) eqn:Ea; cbn [head]; [|apply rtc_refl]. apply po_at_iff in Ea as <-. cbn.
    rewrite decision_none, !evidence_none by (try done; by apply probe_unknown). by apply rtc_once, pe_create.
Qed.

(** ** Evidence *)

Lemma rr_at_key id kind r : rr_at id kind r = true ↔ evidence_key r = (id, kind).
Proof. unfold rr_at, evidence_key. rewrite andb_true_iff, !String.eqb_eq. split; [by intros [-> ->]|by intros [= -> ->]]. Qed.
Lemma evidence_kind_iff kind : evidence_kind kind = true ↔ kind ∈ evidence_kinds.
Proof.
  unfold evidence_kind, evidence_kinds. rewrite existsb_exists. setoid_rewrite <- list_elem_of_In. split.
  - by intros (k & Hk & ->%String.eqb_eq).
  - intros Hk. exists kind. by rewrite String.eqb_refl.
Qed.

Lemma record_le opens d id kind p now o : evidence_kind kind = true → sql_row (po_at id) (t_probes d) = Some o → probeTerminal (po_status o) = false →
  evidence_of d id kind = None → probe_le opens d (set_results d (t_results d ++ [mkResultRow id kind p now])).
Proof.
  intros Hkind Ho Ht He Hd. pose proof Hd as [k1 k2 k3 k4 k5]. assert (Hrow : sql_row (rr_at id kind) (t_results d) = None).
  { unfold evidence_of in He. by destruct (sql_row (rr_at id kind) (t_results d)). }
  split; [split; cbn [t_probes t_results t_terminals set_results]; auto|].
  - rewrite List.filter_app. cbn [List.filter rr_kind]. rewrite Hkind. apply unique_insert; [done|]. intros r [Hr _]%in_sql_select Hk.
    pose proof (sql_row_None _ _ _ Hrow Hr) as Hf. rewrite (proj2 (rr_at_key id kind r)) in Hf by done. done.
  - intros r [Hr | ->%list_elem_of_singleton]%elem_of_app; [by apply k3|]. cbn. apply sql_row_Some in Ho as [Ho Hid%po_at_iff]. by exists o.
  - intros id'. assert (Hev : ∀ k, evidence_of (set_results d (t_results d ++ [mkResultRow id kind p now])) id' k
      = if String.eqb id' id && String.eqb k kind then Some p else evidence_of d id' k).
    { intros k. unfold evidence_of. cbn [t_results set_results]. rewrite sql_row_app. unfold sql_row at 2. cbn [List.filter].
      destruct (String.eqb id' id && String.eqb k kind) eqn:Eb.
      - apply andb_true_iff in Eb as [->%String.eqb_eq ->%String.eqb_eq]. rewrite Hrow. by rewrite (proj2 (rr_at_key id kind _)).
      - destruct (rr_at id' k _) eqn:Ek; [apply rr_at_key in Ek; injection Ek as -> ->; by rewrite !String.eqb_refl in Eb|]. cbn [head].
        by destruct (sql_row (rr_at id' k) (t_results d)). }
    destruct (sql_row (po_at id') (t_probes d)) as [o'|] eqn:E; [|by rewrite !probe_view_none].
    rewrite (probe_view_row d _ o' E), (probe_view_row (set_results d _) _ o' E). change (decision_of (set_results d _) id') with (decision_of d id').
    destruct (decide (id' = id)) as [->|Hne].
    + assert (o' = o) as -> by congruence. apply evidence_kind_iff, list_elem_of_lookup_1 in Hkind as [i Hi].
      assert (Hins : evidence_of (set_results d (t_results d ++ [mkResultRow id kind p now])) id <$> evidence_kinds = <[i := Some p]> (evidence_of d id <$> evidence_kinds)).
      { destruct i as [|[|[|[|i]]]]; [..|done]; injection Hi as <-; cbn; rewrite !Hev, String.eqb_refl; done. }
      rewrite Hins. apply rtc_once, pe_record; [done|]. rewrite list_lookup_fmap, Hi. cbn. by rewrite He.
    + assert (evidence_of (set_results d (t_results d ++ [mkResultRow id kind p now])) id' <$> evidence_kinds = evidence_of d id' <$> evidence_kinds) as ->; [|apply rtc_refl].
      apply list_fmap_ext. intros i k _. by rewrite Hev, (proj2 (String.eqb_neq id' id)).
Qed.

(** The marker of an acknowledged outcome is not evidence. *)
Lemma marker_le opens d id kind p now : evidence_kind kind = false → sql_exists (po_at id) (t_probes d) = true →
  probe_le opens d (set_results d (t_results d ++ [mkResultRow id kind p now])).
Proof.
  intros Hkind Hex Hd. pose proof Hd as [k1 k2 k3 k4 k5]. split; [split; cbn [t_probes t_results t_terminals set_results]; auto|].
  - rewrite List.filter_app. cbn [List.filter rr_kind]. rewrite Hkind. by rewrite app_nil_r.
  - intros r [Hr | ->%list_elem_of_singleton]%elem_of_app; [by apply k3|]. apply sql_exists_true in Hex as (o & Ho & Hid%po_at_iff). by exists o.
  - intros id'. unfold probe_view. change (t_probes (set_results d _)) with (t_probes d). change (decision_of (set_results d _) id') with (decision_of d id').
    assert (Hev : ∀ k, k ∈ evidence_kinds → evidence_of (set_results d (t_results d ++ [mkResultRow id kind p now])) id' k = evidence_of d id' k).
    { intros k Hk. unfold evidence_of. cbn [t_results set_results]. rewrite sql_row_app. unfold sql_row at 2. cbn [List.filter].
      destruct (rr_at id' k _) eqn:Ek; [|cbn [head]; by destruct (sql_row (rr_at id' k) (t_results d))]. apply rr_at_key in Ek. cbn in Ek. injection Ek as -> ->.
      apply evidence_kind_iff in Hk. congruence. }
    cbn. rewrite !Hev by (unfold evidence_kinds; set_solver). apply rtc_refl.
Qed.

Lemma filter_sublist_mono {R} (w : R → bool) (l1 l2 : list R) : l1 `sublist_of` l2 → List.filter w l1 `sublist_of` List.filter w l2.
Proof.
  induction 1 as [|r l1 l2 _ IH|r l1 l2 _ IH]; cbn; [apply sublist_nil| |]; destruct (w r); [by apply sublist_skip|exact IH|by apply sublist_cons|exact IH].
Qed.

(** Pruning the artifacts of terminal operations. *)
Lemma prune_le opens d t : t `sublist_of` t_results d →
  (∀ r, r ∈ t_results d → r ∉ t → evidence_kind (rr_kind r) = true → ∃ o, o ∈ t_probes d ∧ po_id o = rr_probe r ∧ probeTerminal (po_status o) = true) →
  probe_le opens d (set_results d t).
Proof.
  intros Hsub Hterm Hd. pose proof Hd as [k1 k2 k3 k4 k5].
  assert (Hin : ∀ r, r ∈ t → r ∈ t_results d) by (intros r Hr; eapply elem_of_submseteq; [exact Hr|by apply sublist_submseteq]).
  split; [split; cbn [t_probes t_results t_terminals set_results]; auto|].
  - unfold unique in *. eapply sublist_NoDup; [exact k2|]. by apply fmap_sublist, filter_sublist_mono.
  - intros r Hr. by apply k3, Hin.
  - intros id. destruct (sql_row (po_at id) (t_probes d)) as [o|] eqn:E; [|by rewrite !probe_view_none].
    rewrite (probe_view_row d _ o E), (probe_view_row (set_results d t) _ o E). change (decision_of (set_results d t) id) with (decision_of d id).
    assert (Hev : ∀ k, k ∈ evidence_kinds → evidence_of (set_results d t) id k = evidence_of d id k ∨ (evidence_of (set_results d t) id k = None ∧ probeTerminal (po_status o) = true)).
    { intros k Hk. apply evidence_kind_iff in Hk. unfold evidence_of. cbn [t_results set_results].
      destruct (sql_row (rr_at id k) t) as [r'|] eqn:E'.
      - left. apply sql_row_Some in E' as [Hr' Ha']. destruct (sql_row (rr_at id k) (t_results d)) as [r|] eqn:Er.
        + apply sql_row_Some in Er as [Hr Ha]. do 2 f_equal. apply (unique_inj _ _ _ _ k2); [apply in_sql_select|apply in_sql_select|].
          * split; [by apply Hin|]. apply rr_at_key in Ha'. injection Ha' as _ ->. done.
          * split; [done|]. apply rr_at_key in Ha. injection Ha as _ ->. done.
          * apply rr_at_key in Ha, Ha'. congruence.
        + by rewrite (sql_row_None _ _ _ Er (Hin _ Hr')) in Ha'.
      - destruct (sql_row (rr_at id k) (t_results d)) as [r|] eqn:Er; [right|by left]. split; [done|]. apply sql_row_Some in Er as [Hr Ha].
        destruct (Hterm r) as (o' & Ho' & Hid & Ht); [done| | |].
        + intros Hrt. by rewrite (sql_row_None _ _ _ E' Hrt) in Ha.
        + apply rr_at_key in Ha. injection Ha as _ ->. done.
        + apply rr_at_key in Ha. injection Ha as Hp _. apply sql_row_Some in E as [Ho Hoid%po_at_iff]. assert (o' = o) as <-; [|done].
          apply (unique_inj po_id _ _ _ k1); [done|done|congruence]. }
    destruct (probeTerminal (po_status o)) eqn:Eo.
    + apply rtc_once, pe_prune; [done|]. apply Forall2_fmap, Forall_Forall2_diag, list.Forall_forall. intros k Hk. destruct (Hev k Hk) as [?|[? _]]; [by left|by right].
    + assert (Hsame : evidence_of (set_results d t) id <$> evidence_kinds = evidence_of d id <$> evidence_kinds); [|rewrite Hsame; apply rtc_refl].
      apply list_fmap_ext. intros i k Hi. destruct (Hev k) as [?|[_ ?]]; [by eapply list_elem_of_lookup_2|done|done].
Qed.

(** ** Decisions *)

Definition tm_at (id : string) (t : TerminalRow) : bool := String.eqb (tm_probe t) id.

Lemma decide_le opens d t o : sql_row (po_at (tm_probe t)) (t_probes d) = Some o → probeTerminal (po_status o) = true → decision_of d (tm_probe t) = None →
  tm_disposition t ∈ ["ENQUEUED"; "STALE"; "MISSING"]%string → probe_le opens d (set_terminals d (t_terminals d ++ [t])).
Proof.
  intros Ho Ht Hn Hdis Hd. pose proof Hd as [k1 k2 k3 k4 k5].
  assert (Hrow : sql_row (tm_at (tm_probe t)) (t_terminals d) = None) by (unfold decision_of in Hn; unfold tm_at; by destruct (sql_row _ (t_terminals d))).
  split; [split; cbn [t_probes t_results t_terminals set_terminals]; auto|].
  - apply unique_insert; [done|]. intros y Hy He. pose proof (sql_row_None _ _ _ Hrow Hy) as Hf. apply String.eqb_neq in Hf. congruence.
  - intros y [Hy | ->%list_elem_of_singleton]%elem_of_app; [by apply k5|]. apply sql_row_Some in Ho as [Ho Hid%po_at_iff]. by exists o.
  - intros id. destruct (sql_row (po_at id) (t_probes d)) as [o'|] eqn:E; [|by rewrite !probe_view_none].
    rewrite (probe_view_row d _ o' E), (probe_view_row (set_terminals d _) _ o' E).
    change (evidence_of (set_terminals d (t_terminals d ++ [t])) id) with (evidence_of d id).
    assert (decision_of (set_terminals d (t_terminals d ++ [t])) id = if String.eqb (tm_probe t) id then Some (tm_disposition t) else decision_of d id) as ->.
    { unfold decision_of. cbn [t_terminals set_terminals]. rewrite sql_row_app. unfold sql_row at 2. cbn [List.filter].
      destruct (String.eqb_spec (tm_probe t) id) as [<-|Hne]; cbn [head].
      - unfold tm_at in Hrow. by rewrite Hrow.
      - by destruct (sql_row (λ t, String.eqb (tm_probe t) id) (t_terminals d)). }
    destruct (String.eqb_spec (tm_probe t) id) as [<-|Hne]; [|apply rtc_refl]. assert (o' = o) as -> by congruence. rewrite Hn. by apply rtc_once, pe_decide.
Qed.

Lemma settle_le opens d w dis now : (∀ t, t ∈ t_terminals d → w t = true → tm_disposition t = "ENQUEUED"%string) → dis ∈ ["DELIVERED"; "EXPIRED"]%string →
  probe_le opens d (set_terminals d (sql_update w (tm_dispose dis now) (t_terminals d))).
Proof.
  intros Hw Hdis Hd. pose proof Hd as [k1 k2 k3 k4 k5].
  split; [split; cbn [t_probes t_results t_terminals set_terminals]; auto|].
  - by apply unique_update.
  - intros y (y0 & Hy & ->)%in_sql_update. replace (tm_probe (if w y0 then tm_dispose dis now y0 else y0)) with (tm_probe y0) by by destruct (w y0). by apply k5.
  - intros id. destruct (sql_row (po_at id) (t_probes d)) as [o|] eqn:E; [|by rewrite !probe_view_none].
    rewrite (probe_view_row d _ o E), (probe_view_row (set_terminals d _) _ o E).
    change (evidence_of (set_terminals d _) id) with (evidence_of d id).
    unfold decision_of. cbn [t_terminals set_terminals]. rewrite sql_row_update; [|done].
    destruct (sql_row _ (t_terminals d)) as [t|] eqn:Et; [|apply rtc_refl]. cbn [fmap option_fmap option_map]. destruct (w t) eqn:Ewt; [|apply rtc_refl].
    apply sql_row_Some in Et as [Ht _]. rewrite (Hw t Ht Ewt). by apply rtc_once, pe_settle.
Qed.

(** ** Collection *)

Definition purge (ids : list string) (d : db) : db :=
  set_probes (set_terminals (set_results d (sql_delete (λ r, mem (rr_probe r) ids) (t_results d)))
    (sql_delete (λ t, mem (tm_probe t) ids) (t_terminals d))) (sql_delete (λ o, mem (po_id o) ids) (t_probes d)).

Lemma purge_purge ids1 ids2 d : purge ids2 (purge ids1 d) = purge (ids1 ++ ids2) d.
Proof.
  assert (Happ : ∀ {R} (k : R → string) t, sql_delete (λ r, mem (k r) ids2) (sql_delete (λ r, mem (k r) ids1) t) = sql_delete (λ r, mem (k r) (ids1 ++ ids2)) t).
  { intros R k t. rewrite sql_delete_delete. apply sql_delete_ext. intros r _. apply eq_true_iff_eq. rewrite orb_true_iff, !mem_true, elem_of_app. tauto. }
  unfold purge, set_probes, set_terminals, set_results. cbn [t_outbox t_inbox t_nodes t_deletions t_probes t_terminals t_results t_cleanup t_restores t_seq_outbox t_seq_inbox].
  by rewrite !Happ.
Qed.
Lemma purge_nil d : purge [] d = d.
Proof.
  assert (Hnil : ∀ {R} (k : R → string) t, sql_delete (λ r, mem (k r) []) t = t) by (intros R k t; induction t as [|r t IH]; [done|]; cbn; by f_equal).
  unfold purge, set_probes, set_terminals, set_results. rewrite !Hnil. by destruct d.
Qed.

(** Operations that are all terminal are purged. *)
Lemma purge_le opens ids d : (∀ o, o ∈ t_probes d → po_id o ∈ ids → probeTerminal (po_status o) = true) → probe_le opens d (purge ids d).
Proof.
  intros Hids Hd. pose proof Hd as [k1 k2 k3 k4 k5].
  assert (Hk : ∀ id, mem id ids = false → probe_known d id → probe_known (purge ids d) id).
  { intros id Hn (o & Ho & <-). exists o. split; [|done]. apply in_sql_delete. done. }
  split; [split|].
  - by apply unique_delete.
  - unfold unique in *. eapply sublist_NoDup; [exact k2|]. apply fmap_sublist, filter_sublist_mono, sublist_filter.
  - intros r [Hr Hn]%in_sql_delete. apply Hk; auto.
  - by apply unique_delete.
  - intros t [Ht Hn]%in_sql_delete. apply Hk; auto.
  - intros id. destruct (sql_row (po_at id) (t_probes d)) as [o|] eqn:E.
    + pose proof (sql_row_Some _ _ _ E) as [Ho Hid%po_at_iff]. destruct (mem id ids) eqn:Em.
      * rewrite (probe_view_row d _ o E), (probe_view_none (purge ids d)).
        -- apply rtc_once, pe_collect. apply Hids; [done|]. rewrite Hid. by apply mem_true.
        -- destruct (sql_row (po_at id) (t_probes (purge ids d))) as [o'|] eqn:E'; [|done]. apply sql_row_Some in E' as [[_ Hn]%in_sql_delete Hid'%po_at_iff].
           rewrite Hid' in Hn. congruence.
      * assert (E' : sql_row (po_at id) (t_probes (purge ids d)) = Some o).
        { cbn. rewrite sql_row_delete; [done|]. intros y _ Hy. apply not_true_iff_false. intros Hy'%po_at_iff. congruence. }
        rewrite (probe_view_row d _ o E), (probe_view_row _ _ o E'). unfold decision_of. cbn [purge t_terminals set_probes set_terminals set_results].
        assert (evidence_of (purge ids d) id <$> evidence_kinds = evidence_of d id <$> evidence_kinds) as ->.
        { apply list_fmap_ext. intros i k _. unfold evidence_of. cbn [purge t_results set_probes set_terminals set_results]. rewrite sql_row_delete; [done|].
          intros r _ Hr. apply not_true_iff_false. intros [He%String.eqb_eq _]%andb_true_iff. congruence. }
        rewrite sql_row_delete; [apply rtc_refl|]. intros t _ Ht. apply String.eqb_neq. congruence.
    + rewrite !probe_view_none; [apply rtc_refl| |done]. destruct (sql_row (po_at id) (t_probes (purge ids d))) as [o'|] eqn:E'; [|done].
      apply sql_row_Some in E' as [[Ho _]%in_sql_delete Ha]. by rewrite (sql_row_None _ _ _ E Ho) in Ha.
Qed.

(** The collecting loop purges. *)
Lemma collect_purges cutoff ids : ∀ x, (∀ o, o ∈ t_probes (x_ctl x) → po_id o ∈ ids → probeTerminal (po_status o) && (po_updated o <? cutoff) = true) →
  sql_iter (collect cutoff) ids x = Ok (tt, with_ctl x (purge ids (x_ctl x))).
Proof.
  induction ids as [|id ids IH]; intros x Hx.
  - cbn. unfold sql_ret. rewrite purge_nil. by destruct x.
  - cbn [sql_iter]. unfold sql_bind at 1.
    assert (collect cutoff id x = Ok (tt, with_ctl x (purge [id] (x_ctl x)))) as ->.
    { assert (Hone : ∀ {R} (k : R → string) t, sql_delete (λ r, mem (k r) [id]) t = sql_delete (λ r, String.eqb (k r) id) t).
      { intros R k t. apply sql_delete_ext. intros r _. unfold mem. cbn [existsb]. by rewrite orb_false_r. }
      assert (Hops : sql_delete (λ o, po_at id o && probeTerminal (po_status o) && (po_updated o <? cutoff)) (t_probes (x_ctl x)) = sql_delete (λ r, String.eqb (po_id r) id) (t_probes (x_ctl x))).
      { apply sql_delete_ext. intros o Ho. unfold po_at. destruct (String.eqb_spec (po_id o) id) as [He|]; [|done]. cbn [andb]. apply Hx; [done|]. rewrite He. by left. }
      unfold purge. rewrite !Hone, <- Hops. reflexivity. }
    rewrite IH.
    + cbn [x_ctl with_ctl]. rewrite purge_purge. done.
    + intros o [Ho _]%in_sql_delete Hid. apply Hx; [done|by right].
Qed.

(** ** Every transaction *)

Ltac cprobe_leaf :=
  first
  [ apply probe_same; reflexivity
  | match goal with
    | |- probe_le _ ?d (if ?b then _ else _) =>
        destruct b eqn:?; [|reflexivity]; apply marker_le; [reflexivity|];
        match goal with Hf : _ && negb _ = false |- _ => first [ exact (proj1 (negb_false_iff _) Hf) | rewrite andb_false_iff, negb_false_iff in Hf; destruct Hf; congruence ] end
    | |- probe_le _ _ (set_terminals _ (sql_update _ (tm_dispose _ _) _)) =>
        apply settle_le; [intros ? _ ?; bool_split; str_eqs; done|by left]
    end
  | idtac ].

Lemma enqueue_probe `{!Crypto} opens now item : moves (probe_le opens) (EnqueueControlOutbox now item).
Proof.
  intros d a d' He. unfold EnqueueControlOutbox in He. destruct (EnforceCleanupOnlyEnqueue _ _ _); [|done]. cbv zeta in He.
  destruct (sql_exists _ _); [done|]. injection He as _ <-. by apply probe_same.
Qed.
Lemma create_probe opens cap now n : moves (probe_le opens) (CreateNode cap now n).
Proof. unfold CreateNode. mv cprobe_leaf. Qed.

Lemma cbody_probe `{!Crypto} opens c : moves (probe_le opens) (cbody c).
Proof.
  destruct c; cbn [cbody]; try apply enqueue_probe; try apply create_probe.
  all: mvx cprobe_leaf.
Qed.

Definition xprobe_le (opens : string → bool) (x x' : xdb) : Prop := probe_le opens (x_ctl x) (x_ctl x').
#[export] Instance xprobe_le_pre opens : PreOrder (xprobe_le opens).
Proof. unfold xprobe_le. split; [intros x; reflexivity|]. intros x y z H1 H2. by etrans. Qed.

(** The command that may bring an operation to OPEN_FROM_VANTAGE: its join, or an insert
    with that status. *)
Definition opens_by (c : xcmd) (id : string) : Prop :=
  match c with
  | XProbe _ _ op | XProbeBundle _ op _ => po_id op = id ∧ po_status op = "OPEN_FROM_VANTAGE"%string
  | XProbeJoin _ i _ _ _ _ _ => i = id
  | _ => False
  end.

Lemma probe_insert_moves opens ts revision op : (po_status op = "OPEN_FROM_VANTAGE"%string → opens (po_id op) = true) → moves (xprobe_le opens) (probe_insert ts revision op).
Proof.
  intros Ho. unfold probe_insert, write_probes. mv idtac. match goal with E : _ || _ = false |- _ => apply orb_false_iff in E as [En _] end.
  apply probe_insert_le; [done|]. cbn [po_id po_status]. unfold orDefault. destruct (String.eqb_spec (po_status op) ""); [by right|].
  destruct (decide (po_status op = "OPEN_FROM_VANTAGE"%string)); [left; auto|by right].
Qed.

Lemma gc_probes_moves opens cutoff limit : moves (xprobe_le opens) (xdrop (DeleteTerminalProbeOperationsBeforeLimit cutoff limit)).
Proof.
  intros x u x' H Hok. unfold xdrop, DeleteTerminalProbeOperationsBeforeLimit in H. unfold sql_bind, sql_read in H.
  set (ids := po_id <$> _) in H.
  assert (Hids : ∀ o, o ∈ t_probes (x_ctl x) → po_id o ∈ ids → probeTerminal (po_status o) && (po_updated o <? cutoff) = true).
  { intros o Ho (o' & He & Ho')%list_elem_of_fmap. unfold sql_limit, order_by in Ho'. apply subseteq_take in Ho'. rewrite merge_sort_Permutation in Ho'.
    apply in_sql_select in Ho' as [Ho' Hc]. assert (o' = o) as -> by (apply (unique_inj po_id (t_probes (x_ctl x))); [apply Hok|done..]).
    unfold collectable in Hc. by apply andb_true_iff in Hc as [Hc _]. }
  rewrite (collect_purges cutoff ids x Hids) in H. injection H as _ <-. apply purge_le; [|done]. intros o Ho Hid. specialize (Hids o Ho Hid). by apply andb_true_iff in Hids as [? _].
Qed.

Lemma in_delete_first {R} (w : R → bool) t : ∀ n, sql_delete_first n w t `sublist_of` t ∧ ∀ r, r ∈ t → r ∉ sql_delete_first n w t → w r = true.
Proof.
  induction t as [|r t IH]; intros [|n]; cbn; try (split; [done|]; by intros ?).
  destruct (w r) eqn:E.
  - destruct (IH n) as [H1 H2]. split; [by apply sublist_cons|]. intros y [->|Hy]%elem_of_cons; [done|]. by apply H2.
  - destruct (IH (S n)) as [H1 H2]. split; [by apply sublist_skip|]. intros y [->|Hy]%elem_of_cons Hn; [destruct Hn; by left|]. apply H2; [done|].
    intros Hin. apply Hn. by right.
Qed.

Lemma gc_results_le opens cutoff n d : probe_le opens d (set_results d (sql_delete_first n
  (λ r, sql_exists (λ o, po_at (rr_probe r) o && probeTerminal (po_status o) && (po_updated o <? cutoff)) (t_probes d) && negb (String.eqb (rr_kind r) "outcome_acked")) (t_results d))).
Proof.
  match goal with |- probe_le _ _ (set_results _ (sql_delete_first _ ?w ?t)) => destruct (in_delete_first w t n) as [H1 H2] end.
  apply prune_le; [done|]. intros r Hr Hn _. specialize (H2 r Hr Hn). apply andb_true_iff in H2 as [(o & Ho & [[Hid%po_at_iff Ht]%andb_true_iff _]%andb_true_iff)%sql_exists_true _].
  by exists o.
Qed.

Lemma status_allowed a b : probeTransitionAllowed a b = true → a ≠ b → b ≠ "OPEN_FROM_VANTAGE"%string → status_step a b.
Proof.
  unfold probeTransitionAllowed. intros H Hne Ho. apply String.eqb_neq in Hne. rewrite Hne in H. destruct (probeTerminal a); [done|].
  destruct (String.eqb_spec a "PENDING") as [->|]; [|destruct (String.eqb_spec a "ARMED") as [->|]; [|destruct (String.eqb_spec a "IN_FLIGHT") as [->|]; [|done]]].
  1,2: apply orb_true_iff in H as [->%String.eqb_eq | H]; [constructor|by apply ss_end].
  by apply ss_end.
Qed.

Lemma insert_op_le opens (d : db) (o : ProbeOpRow) (st : string) :
  po_status o = orDefault st "PENDING" → (st = "OPEN_FROM_VANTAGE"%string → opens (po_id o) = true) → sql_exists (po_at (po_id o)) (t_probes d) = false →
  probe_le opens d (set_probes d (t_probes d ++ [o])).
Proof.
  intros Hst Ho Hn. apply probe_insert_le; [done|]. rewrite Hst. unfold orDefault. destruct (String.eqb_spec st ""); [by right|].
  destruct (decide (st = "OPEN_FROM_VANTAGE"%string)); [left; auto|by right].
Qed.

Ltac probe_leaf :=
  first
  [ apply probe_same; reflexivity
  | match goal with |- xprobe_le _ ?x (if ?b then ?x else _) => destruct b; [reflexivity|apply probe_same; reflexivity] end
  | match goal with |- xprobe_le _ _ (with_ctl _ (set_probes _ (_ ++ [_]))) =>
      repeat match goal with E : _ || _ = false |- _ => apply orb_false_iff in E as [? ?] end;
      eapply insert_op_le; [reflexivity|cbn [po_id]; by auto|assumption] end
  | apply settle_le; [by auto|set_solver]
  | apply gc_results_le
  | idtac ].

Lemma xbody_probe `{!Crypto} `{!CtlJson} `{!ProbeJson} opens c : (∀ id, opens_by c id → opens id = true) → moves (xprobe_le opens) (xbody c).
Proof.
  intros Hop. destruct c; cbn [opens_by] in Hop; cbn [xbody]; try apply gc_probes_moves; mvx probe_leaf.
  1: eapply moves_on_ctl; [apply cbody_probe|by intros x d Hg].
  1, 2: eapply moves_on_ctl; [apply (create_probe opens)|by intros x d Hg].
  - apply probe_update; [done|]. intros o Ho [_ Hs%String.eqb_eq]%andb_true_iff. right. left. cbn [po_status po_advance po_set]. rewrite Hs.
    apply status_allowed; [by apply negb_false_iff|by apply String.eqb_neq|by apply String.eqb_neq].
  - apply probe_update; [done|]. intros o Ho [[_ ->%String.eqb_eq]%andb_true_iff _]%andb_true_iff. right. left. constructor.
  - apply probe_update; [done|]. intros o Ho _. by left.
  - match goal with Hr : probe_row _ _ = Some ?o, Ht : probeTerminal (po_status ?o) = false |- _ => eapply (record_le _ _ _ _ _ _ o) end; try eassumption.
    by apply negb_false_iff.
  - apply probe_update; [done|]. intros o Ho [[[[Hid%po_at_iff Hs%String.eqb_eq]%andb_true_iff _]%andb_true_iff _]%andb_true_iff _]%andb_true_iff. right. right. split_and!; [|rewrite Hs; by apply String.eqb_eq, negb_false_iff|done].
    rewrite Hid. by apply Hop.
  - match goal with Hr : probe_row _ _ = Some ?o |- _ => eapply (decide_le _ _ _ o) end; cbn [tm_probe tm_disposition]; [eassumption|by apply negb_false_iff| |].
    + unfold decision_of. match goal with Hn : sql_row _ _ = None |- _ => by rewrite Hn end.
    + unfold outcome_disposition. repeat match goal with |- context [match ?b with _ => _ end] => destruct b end; set_solver.
  - apply probe_update; [done|]. intros o' Ho' [[_ Hs%String.eqb_eq]%andb_true_iff _]%andb_true_iff. right. left. cbn [po_status po_advance po_set]. rewrite Hs.
    by apply ss_end.
Qed.
