(* ===== verification/EnrollProps.v ===== *)
(** * Enrollment: a node is bound once, a token binds one node

    Along every execution of the Controller's store.  The handlers' theorem composes the
    challenge cache, the parsers and the store transaction end to end. *)

From Stdlib Require Import ZArith Lia Strings.Byte.
From stdpp Require Import base tactics list sets strings option gmap relations.
From S2P Require Import Prelude GoStd Frame Probe Enrollment Session Sql Control ControlProofs CtlDb EnrollStore CtlLifecycle Forwards ProbeStore CtlRun Envelope.

Open Scope Z_scope.

(** ** The tables *)

Definition token_at (h : string) (t : TokenRow) : bool := String.eqb (tk_hash t) h.
Definition token_of (x : xdb) (h : string) : option TokenRow := sql_row (token_at h) (x_tokens x).
Definition result_of (x : xdb) (n h : string) (v : Z) : option EnrolledRow := sql_row (enrolled_at n h v) (x_enrolled x).

Record enroll_ok (x : xdb) : Prop := {
  eo_tokens : unique tk_hash (x_tokens x);
  eo_creds : unique cd_node (x_creds x);
  eo_results : ∀ c, c ∈ x_creds x → is_Some (result_of x (cd_node c) (cd_hash c) (cd_version c))
}.

(** The status of a token. *)
Inductive tfsm : string → string → Prop :=
  | tf_consume : tfsm "PENDING" "CONSUMED"
  | tf_revoke : tfsm "PENDING" "REVOKED".
Definition token_le (t t' : TokenRow) : Prop :=
  tk_hash t' = tk_hash t ∧ tk_node t' = tk_node t ∧ tk_expires t' = tk_expires t ∧ rtc tfsm (tk_status t) (tk_status t').

Record enroll_kept (x x' : xdb) : Prop := {
  ek_creds : ∀ n c, nodeCredentialTx n x = Some c → nodeCredentialTx n x' = Some c;
  ek_results : ∀ n h v r, result_of x n h v = Some r → result_of x' n h v = Some r;
  ek_tokens : ∀ h t, token_of x h = Some t → ∃ t', token_of x' h = Some t' ∧ token_le t t'
}.
Definition enroll_le (x x' : xdb) : Prop := enroll_ok x → enroll_ok x' ∧ enroll_kept x x'.

#[export] Instance enroll_le_pre : PreOrder enroll_le.
Proof.
  split.
  - intros x Hx. split; [done|]. split; [done|done|]. intros h t Ht. exists t. by repeat split.
  - intros x y z Hxy Hyz Hx. destruct (Hxy Hx) as [Hy [c1 r1 k1]]. destruct (Hyz Hy) as [Hz [c2 r2 k2]]. split; [done|]. split; [auto|auto|].
    intros h t Ht. destruct (k1 h t Ht) as (t1 & Ht1 & H1 & H2 & H3 & H4). destruct (k2 h t1 Ht1) as (t2 & Ht2 & H5 & H6 & H7 & H8).
    exists t2. split; [done|]. split_and!; [congruence..|]. etrans; eassumption.
Qed.

Definition enroll_tables (x : xdb) : list TokenRow * list CredRow * list EnrolledRow := (x_tokens x, x_creds x, x_enrolled x).
Lemma enroll_le_tables x x' : enroll_tables x' = enroll_tables x → enroll_le x x'.
Proof.
  intros [= Ht Hc Hr]. destruct x, x'. cbn in *. subst. intros Hx. split; [by destruct Hx|]. split; [done|done|].
  intros h t Hh. exists t. by repeat split.
Qed.

(** Token statements. *)
Lemma enroll_le_token_update x w f :
  (∀ t, w t = true → token_le t (f t)) → enroll_le x (set_tokens x (sql_update w f (x_tokens x))).
Proof.
  intros Hf [k1 k2 k3]. assert (Hk : ∀ t, tk_hash (if w t then f t else t) = tk_hash t) by (intros t; destruct (w t) eqn:E; [by apply Hf|done]).
  split.
  - split; cbn; [|done|done]. unfold unique, sql_update in *. change (map ?g ?t) with (g <$> t). rewrite <- list_fmap_compose.
    rewrite (list_fmap_ext _ tk_hash (x_tokens x)); [done|]. intros i t _. apply Hk.
  - split; [done|done|]. intros h t Ht. unfold token_of in *. cbn [x_tokens set_tokens].
    rewrite sql_row_update, Ht; [|intros r Hr; unfold token_at; by rewrite (proj1 (Hf r Hr))]. cbn. eexists. split; [done|].
    destruct (w t) eqn:E; [by apply Hf|]. by repeat split.
Qed.
Lemma enroll_le_token_insert x t :
  sql_exists (token_at (tk_hash t)) (x_tokens x) = false → enroll_le x (set_tokens x (x_tokens x ++ [t])).
Proof.
  intros Hn [k1 k2 k3]. split.
  - split; cbn; [|done|done]. apply unique_insert; [done|]. intros y Hy He. rewrite <- not_true_iff_false in Hn. apply Hn, sql_exists_true.
    exists y. split; [done|]. unfold token_at. by rewrite He, String.eqb_refl.
  - split; [done|done|]. intros h t0 Ht. unfold token_of in *. cbn. rewrite sql_row_app, Ht. exists t0. by repeat split.
Qed.

Lemma tk_consume_le now t : tk_status t = "PENDING"%string → token_le t (tk_consume now t).
Proof. intros Hs. repeat split. rewrite Hs. apply rtc_once. constructor. Qed.
Lemma tk_revoke_le t : tk_status t = "PENDING"%string → token_le t (tk_revoke t).
Proof. intros Hs. repeat split. rewrite Hs. apply rtc_once. constructor. Qed.

(** ** Consuming a token *)

(** A fresh binding: what was checked and what was written. *)
Lemma consume_fresh t1 t2 ts cid rid req x res x' :
  ConsumeEnrollmentToken t1 t2 ts cid rid req x = Ok (Some (res, false), x') →
  nodeCredentialTx (rq_NodeID req) x = None ∧ check_token t1 req x = Ok tt ∧
  sql_exists (enrolled_at (rq_NodeID req) (rq_AgentPublicKeyHash req) (rq_CredentialVersion req)) (x_enrolled x) = false ∧
  let c := mkCred cid (rq_NodeID req) "ed25519" (rq_AgentPublicKeyHash req) (rq_CredentialVersion req) ts in
  let r := mkEnrolled rid (rq_NodeID req) (rq_ResultID req) (rq_AgentPublicKeyHash req) (rq_CredentialVersion req) (rq_ControllerKeyID req)
             (rq_CapabilityHash req) (rq_ResultExpiryUnix req) ts in
  res = scanEnrollmentResult r ∧
  enroll_tables x' = (sql_update (λ t, String.eqb (tk_hash t) (rq_TokenHash req) && String.eqb (tk_status t) "PENDING") (tk_consume t2) (x_tokens x),
    x_creds x ++ [c], x_enrolled x ++ [r]) ∧ x_ctl x' = x_ctl x.
Proof.
  intros H. unfold ConsumeEnrollmentToken in H. sql_inv H.
  match goal with Hb : bind_credential _ _ _ _ = Ok _ |- _ => unfold bind_credential in Hb; sql_inv Hb end.
  match goal with Hb : record_result _ _ _ _ = Ok _ |- _ => unfold record_result in Hb; sql_inv Hb end.
  match goal with Hk : check_token _ _ _ = Ok ?a, E1 : _ || sql_exists _ (x_enrolled x) = false |- _ => destruct a; apply orb_false_iff in E1 as [_ E1];
    rename E1 into Hfresh end.
  split; [done|]. split; [done|]. split; [|by split].
  eapply sql_exists_weaken; [|exact Hfresh]. intros r He. cbv beta. by rewrite He, orb_true_r.
Qed.

(** The other outcomes write no binding. *)
Lemma consume_other t1 t2 ts cid rid req x o x' :
  ConsumeEnrollmentToken t1 t2 ts cid rid req x = Ok (o, x') → (∀ res, o ≠ Some (res, false)) → enroll_tables x' = enroll_tables x.
Proof.
  intros H Hn. unfold ConsumeEnrollmentToken in H. sql_inv H; try done. all: by edestruct Hn.
Qed.

Lemma unbound_node x n : nodeCredentialTx n x = None → ∀ c, c ∈ x_creds x → cd_node c ≠ n.
Proof. unfold nodeCredentialTx. intros H c Hc He. pose proof (sql_row_None _ _ _ H Hc) as Hf. cbn in Hf. by rewrite He, String.eqb_refl in Hf. Qed.

Lemma bound_node x n c : nodeCredentialTx n x = Some c → c ∈ x_creds x ∧ cd_node c = n.
Proof. unfold nodeCredentialTx. intros [Hc He]%sql_row_Some. split; [done|]. by apply String.eqb_eq. Qed.

Lemma consume_le t1 t2 ts cid rid req : moves enroll_le (ConsumeEnrollmentToken t1 t2 ts cid rid req).
Proof.
  intros x o x' H. assert (Ho : (∃ res, o = Some (res, false)) ∨ ∀ res, o ≠ Some (res, false)).
  { destruct o as [[res []]|]; [by right|left; by eexists|by right]. }
  destruct Ho as [[res ->]|Hn]; [|apply enroll_le_tables; by eapply consume_other].
  apply consume_fresh in H as (Hnone & _ & Hfr & _ & Ht & _). intros Hok.
  set (w := λ t, _ && _) in Ht.
  destruct (enroll_le_token_update x w (tk_consume t2)) as [[k1 k2 k3] [c1 r1 t1']]; [|done|].
  { intros t [_ Hs]%andb_true_iff. apply tk_consume_le. by apply String.eqb_eq. }
  injection Ht as Htok Hcred Hres. split.
  - split.
    + by rewrite Htok.
    + rewrite Hcred. apply unique_insert; [apply Hok|]. intros y Hy. by apply (unbound_node x).
    + rewrite Hcred. intros c [Hc | ->%list_elem_of_singleton]%elem_of_app; unfold result_of; rewrite Hres, sql_row_app.
      * destruct (eo_results x Hok c Hc) as [r Hr]. unfold result_of in Hr. by rewrite Hr.
      * destruct (sql_row _ (x_enrolled x)); [done|]. unfold sql_row, enrolled_at. cbn. by rewrite !String.eqb_refl, Z.eqb_refl.
  - split.
    + intros n c Hc. unfold nodeCredentialTx in *. by rewrite Hcred, sql_row_app, Hc.
    + intros n h v r Hr. unfold result_of in *. by rewrite Hres, sql_row_app, Hr.
    + intros h t Hh. unfold token_of in *. rewrite Htok. by apply t1'.
Qed.

(** ** Every command *)

Ltac enroll_leaf := first [ apply enroll_le_tables; reflexivity | idtac ].

Lemma token_le_create cap now raw id n ttl `{!Crypto} : moves enroll_le (CreateEnrollmentToken cap now raw id n ttl).
Proof.
  unfold CreateEnrollmentToken. mv enroll_leaf. apply enroll_le_token_insert.
  match goal with E : _ || sql_exists _ _ = false |- _ => apply orb_false_iff in E as [_ E]; rename E into Hc end.
  eapply sql_exists_weaken; [|exact Hc]. intros t He. unfold token_at in He. cbn in He |- *. by rewrite He, orb_true_r.
Qed.

Lemma xbody_enroll `{!Crypto} `{!CtlJson} `{!ProbeJson} c : moves enroll_le (xbody c).
Proof.
  destruct c; cbn [xbody]; unfold xdrop; try (apply moves_bind; [apply _| |intros; apply moves_ret; apply _]);
    try apply token_le_create; try apply consume_le; mvx enroll_leaf.
  all: try (apply moves_off_ctl; intros; by apply enroll_le_tables).
  - destruct (sql_exists _ _); [reflexivity|]. by apply enroll_le_tables.
  - apply enroll_le_token_update. intros t Ht. apply tk_revoke_le. destruct (tk_consumed t); [done|]. by apply String.eqb_eq.
Qed.

Lemma xrun_enroll `{!Crypto} `{!CtlJson} `{!ProbeJson} es s : enroll_ok s.1 → enroll_ok (xrun es s).1 ∧ enroll_kept s.1 (xrun es s).1.
Proof.
  apply (xrun_ind enroll_le); [intros c; apply xbody_enroll|]. intros cutoff limit cur x. by apply enroll_le_tables.
Qed.

(** ** A node is bound once *)

Section Final.
Context {crypto : Crypto} {json : CtlJson} {pjson : ProbeJson}.

Lemma fresh_bound t1 t2 ts cid rid req x res x1 :
  enroll_ok x → ConsumeEnrollmentToken t1 t2 ts cid rid req x = Ok (Some (res, false), x1) →
  enroll_ok x1 ∧ ∃ c r, nodeCredentialTx (rq_NodeID req) x1 = Some c ∧ cd_hash c = rq_AgentPublicKeyHash req ∧ cd_version c = rq_CredentialVersion req ∧
    result_of x1 (rq_NodeID req) (rq_AgentPublicKeyHash req) (rq_CredentialVersion req) = Some r ∧ scanEnrollmentResult r = res.
Proof.
  intros Hok H. split; [by eapply (consume_le t1 t2 ts cid rid req)|]. apply consume_fresh in H as (Hn & _ & Hf & -> & Ht & _).
  injection Ht as _ Hc Hr. eexists _, _. unfold nodeCredentialTx, result_of in *. rewrite Hc, Hr, !sql_row_app, Hn.
  rewrite (sql_exists_row _ _ Hf). unfold sql_row, enrolled_at. cbn. rewrite !String.eqb_refl, Z.eqb_refl. by split_and!.
Qed.

(** C35: an enrollment is final and its response can be asked for again.  Once a request
    has bound a node, and whatever the store does afterwards, every later request for
    that node with the same key and credential version gets the original result back,
    whatever token it carries, and changes nothing; a request with another key or
    version is rejected, leaving only its audit event. *)
Theorem enrollment_is_final (t1 t2 ts t1' t2' ts' : Z) (cid rid cid' rid' : string) (req req' : EnrollmentRequest) (x x1 : xdb)
    (res : EnrollmentResult) (cur : controlInboxCleanupCursor) (es : list xevent) :
  enroll_ok x → ConsumeEnrollmentToken t1 t2 ts cid rid req x = Ok (Some (res, false), x1) → rq_NodeID req' = rq_NodeID req →
  let x2 := (xrun es (x1, cur)).1 in
  ConsumeEnrollmentToken t1' t2' ts' cid' rid' req' x2
  = if String.eqb (rq_AgentPublicKeyHash req') (rq_AgentPublicKeyHash req) && (rq_CredentialVersion req' =? rq_CredentialVersion req)
    then Ok (Some (res, true), x2)
    else Ok (None, set_events x2 (x_events x2 ++ [EvRebindRejected (rq_NodeID req) (rq_CredentialVersion req') t1'])).
Proof.
  intros Hok H Hn. cbv zeta. destruct (fresh_bound _ _ _ _ _ _ _ _ _ Hok H) as (Hok1 & c & r & Hc & Hh & Hv & Hr & Hs).
  destruct (xrun_enroll es (x1, cur) Hok1) as [Hok2 [kc kr _]]. apply kc in Hc. apply kr in Hr. cbn [fst] in Hc, Hr.
  set (x2 := (xrun es (x1, cur)).1) in *. unfold ConsumeEnrollmentToken. rewrite Hn. unfold sql_bind at 1, sql_read. rewrite Hc, Hh, Hv.
  rewrite (String.eqb_sym _ (rq_AgentPublicKeyHash req')), (Z.eqb_sym _ (rq_CredentialVersion req')).
  destruct (_ && _) eqn:E; [|done]. apply andb_true_iff in E as [Eh%String.eqb_eq Ev%Z.eqb_eq]. rewrite Eh, Ev.
  unfold sql_bind, sql_check, enrollmentResultTx. unfold result_of in Hr. by rewrite Hr, Hs.
Qed.

(** A token is checked and binds one node only.  A fresh binding presents a known
    token of its node that is neither consumed nor expired, and consumes it if it was
    pending; afterwards no execution of the store lets any request bind with that
    token again. *)
Theorem token_binds_once (t1 t2 ts t1' t2' ts' : Z) (cid rid cid' rid' : string) (req req' : EnrollmentRequest) (x x1 x3 : xdb)
    (res res' : EnrollmentResult) (cur : controlInboxCleanupCursor) (es : list xevent) :
  enroll_ok x → ConsumeEnrollmentToken t1 t2 ts cid rid req x = Ok (Some (res, false), x1) →
  (∃ t e, token_of x (rq_TokenHash req) = Some t ∧ tk_node t = Some (rq_NodeID req) ∧ tk_expires t = Some e ∧ t1 < e ∧ tk_status t ≠ "CONSUMED"%string ∧
     (tk_status t = "PENDING"%string → token_of x1 (rq_TokenHash req) = Some (tk_consume t2 t))) ∧
  (rq_TokenHash req' = rq_TokenHash req → ConsumeEnrollmentToken t1' t2' ts' cid' rid' req' (xrun es (x1, cur)).1 ≠ Ok (Some (res', false), x3)).
Proof.
  intros Hok H. destruct (fresh_bound _ _ _ _ _ _ _ _ _ Hok H) as (Hok1 & c & r & Hc & _). pose proof (consume_le _ _ _ _ _ _ _ _ _ H Hok) as [_ [_ _ Hkt]].
  apply consume_fresh in H as (Hnb & Hck & _ & _ & Ht & _).
  assert (Htok : ∃ t e, token_of x (rq_TokenHash req) = Some t ∧ tk_node t = Some (rq_NodeID req) ∧ tk_expires t = Some e ∧ t1 < e ∧ tk_status t ≠ "CONSUMED"%string).
  { unfold check_token in Hck. unfold token_of, token_at. destruct (sql_row _ _) as [t|]; [|done]. destruct (tk_expires t) as [e|] eqn:Ee; [|done].
    destruct (tk_node t) as [n|] eqn:En; [|done]. go_inv Hck. bool_prop. str_eqs. exists t, e. split_and!; [done| |done|lia|done]. rewrite En. congruence. }
  destruct Htok as (t & e & Htk & Htn & Hte & Hlt & Hst). split.
  - exists t, e. split_and!; [done..|]. intros Hp. injection Ht as Ht _ _. unfold token_of in *. rewrite Ht, sql_row_update, Htk; [|by intros].
    cbn. apply sql_row_Some in Htk as [_ Hh]. unfold token_at in Hh. by rewrite Hh, Hp.
  - intros Hh H'. apply consume_fresh in H' as (Hnb' & Hck' & _). destruct (xrun_enroll es (x1, cur) Hok1) as [_ [kc _ kt]].
    destruct (Hkt _ _ Htk) as (ta & Hta & _ & Hna & _). destruct (kt _ _ Hta) as (tb & Htb & _ & Hnb2 & _). cbn [fst] in *.
    unfold check_token in Hck'. rewrite Hh in Hck'. unfold token_of, token_at in Htb. rewrite Htb in Hck'.
    destruct (tk_expires tb); [|done]. rewrite Hnb2, Hna, Htn in Hck'. go_inv Hck'. bool_prop. str_eqs.
    apply kc in Hc. congruence.
Qed.
End Final.

(** * An honest enrollment over the two handlers

    Challenge, request and result of [src/internal/controller/agenthub/enroll.go],
    through the parsers, the challenge cache and the store. *)

Section Http.
Context `{laws : CryptoLaws}.
Context (h : EnrollHub) (stored : string).

Record hub_ok : Prop := {
  ho_key : length (hb_privateKey h) = PrivateKeySize;
  ho_id : 1 ≤ slen (hb_keyID h) ≤ 255;
  ho_instance : hb_instance h = Some stored;
  ho_body : EnrollRequestMax ≤ hb_maxBody h
}.

Definition controller_pub : bytes := ed25519_public (hb_privateKey h).

Lemma length_instanceID s : length (instanceID s) = 16%nat.
Proof. unfold instanceID. destruct (hex_decode s); [|done]. case_bool_decide; [done|by rewrite repeat_length]. Qed.
Lemma length_copy_into n b : length (copy_into n b) = n.
Proof. unfold copy_into. rewrite length_app, repeat_length, length_take. lia. Qed.

Lemma sign_ok m : hub_ok → hub_sign h m = Some (ed25519_sign (hb_privateKey h) m).
Proof. intros Ho. unfold hub_sign, Sign. by rewrite (ho_key Ho). Qed.
Lemma sign_frame k fs : length k = PrivateKeySize →
  signed_frame (ed25519_public k) fs (put_fields fs ++ ed25519_sign k (bytes_of EnrollDomain ++ put_fields fs)).
Proof. intros Hk. eexists. split; [done|]. apply (Verify_Sign k). unfold Sign. by rewrite Hk. Qed.

Lemma node_bytes (n : string) : 1 ≤ slen n ≤ 16 →
  nodeIDFromBody (Some (bytes_of n)) = Some n ∧ ∃ b, nodeIDBytes16 n = Ok b ∧ length b = 16%nat ∧ b = copy_into 16 (bytes_of n).
Proof.
  unfold slen, zlen. intros Hn. split.
  - unfold nodeIDFromBody. rewrite take_ge by lia. rewrite !bool_decide_eq_false_2 by lia. cbn. by rewrite string_of_bytes_of.
  - unfold nodeIDBytes16. rewrite (proj2 (Z.ltb_ge _ _)) by (unfold zlen; lia). eexists. split; [done|].
    rewrite length_app, repeat_length. split; [lia|]. unfold copy_into. by rewrite take_ge by lia.
Qed.

(** *** The challenge *)

Definition issued_challenge (t2 : Z) (m : ChallengeManager) (nonce : bytes) (n : string) : EnrollChallenge :=
  mkChallenge (instanceID stored) (hb_keyID h) (copy_into 16 (bytes_of n)) nonce EnrollVersion (((t2 + cm_ttl m) / 1000000000) mod 2 ^ 64).

Lemma issued_ok t2 m nonce n : hub_ok → length nonce = 32%nat → challenge_ok (issued_challenge t2 m nonce n).
Proof.
  intros Ho Hn. unfold challenge_ok, issued_challenge. cbn. rewrite length_instanceID, length_copy_into. split_and!; try done; try apply Ho.
  all: apply Z.mod_pos_bound; lia.
Qed.

Lemma challenge_issued t1 t2 t3 nonce n m x nd :
  hub_ok → 1 ≤ slen n ≤ 16 → length nonce = 32%nat → GetNode (x_ctl x) n = Ok nd →
  (0 < cm_max m → Z.of_nat (size (evict t1 m)) < cm_max m) →
  let ch := issued_challenge t2 m nonce n in
  let hash := sha256 (put_fields (challenge_fields ch)) in
  ∃ raw m1, handleEnrollChallenge h t1 t2 t3 nonce (mkHttp true true (Some (bytes_of n))) (m, x) = (HttpOK raw, (m1, x)) ∧
    ParseEnrollChallenge raw controller_pub = Ok ch ∧
    cm_cache m1 !! hash = Some (mkEntry n (instanceID stored) (t3 + cm_ttl m) false).
Proof.
  intros Ho Hn Hno Hg Hroom ch hash. destruct (node_bytes n Hn) as (Hb & nb & Hnb & _ & Hnb').
  pose proof (issued_ok t2 m nonce n Ho Hno) as Hok. fold ch in Hok. pose proof (enrollEncode_ok _ (challenge_fits ch Hok)) as Henc.
  unfold handleEnrollChallenge. cbn [ht_allowed ht_post ht_body negb fst snd]. rewrite Hb, Hg, (ho_instance Ho). unfold Issue. rewrite Hnb.
  set (m1 := if 0 <? cm_max m then _ else m).
  assert (Hfull : (0 <? cm_max m) && (cm_max m <=? Z.of_nat (size (cm_cache m1))) = false).
  { unfold m1. destruct (Z.ltb_spec 0 (cm_max m)) as [Hp|]; [|done]. cbn. apply Z.leb_gt, Hroom. done. }
  rewrite Hfull. cbv zeta. subst nb. change (mkChallenge _ _ _ _ _ _) with ch.
  unfold challenge_SigningBytes, challenge_Canonical. rewrite Henc. cbn [fmap option_fmap option_map]. rewrite (sign_ok _ Ho).
  eexists _, _. split; [done|]. split; [apply ParseEnrollChallenge_complete; [done|]; by apply sign_frame, Ho|].
  cbn. fold hash. by rewrite lookup_insert, decide_True.
Qed.

(** *** The request *)

(** The frame an agent with key [ka] sends. *)
Definition request_frame (ka : bytes) (r : EnrollRequest) : bytes :=
  put_fields (request_fields r) ++ ed25519_sign ka (bytes_of EnrollDomain ++ put_fields (request_fields r)).

Lemma request_hash ka r : request_ok r → length ka = PrivateKeySize → challengeHashOf (request_frame ka r) = Some (er_ChallengeHash r).
Proof.
  intros Hr Hk. unfold challengeHashOf, request_frame. rewrite length_app, sign_length by done. rewrite bool_decide_eq_false_2 by lia.
  replace (length _ + 64 - 64)%nat with (length (put_fields (request_fields r))) by lia. rewrite take_exact by done.
  destruct Hr as (Hh & _). unfold request_fields. rewrite put_fields_cons. set (rest := put_fields _).
  assert (Hz : zlen (er_ChallengeHash r) = 32) by (unfold zlen; lia).
  assert (Hf : put_field (er_ChallengeHash r) ++ rest = be_put 4 32 ++ er_ChallengeHash r ++ rest) by (rewrite app_assoc; f_equal; rewrite <- Hz; reflexivity).
  rewrite Hf, !length_app, length_be_put, bool_decide_eq_false_2 by lia.
  rewrite take_exact, drop_exact by apply length_be_put. rewrite be_get_put_small by done. cbn [negb Z.eqb Pos.eqb orb].
  rewrite (proj2 (Z.ltb_ge _ _)); [by rewrite take_exact|]. rewrite !zlen_app, zlen_be_put, Hz. pose proof (zlen_nonneg rest). lia.
Qed.

Lemma request_bound ka r : request_ok r → length ka = PrivateKeySize → zlen (request_frame ka r) ≤ EnrollRequestMax.
Proof.
  intros (H1 & H2 & H3 & H4 & H5 & _) Hk. unfold request_frame. rewrite zlen_app, zlen_put_fields. unfold zlen at 2. rewrite sign_length by done.
  unfold request_fields. cbn. unfold enrollU32. rewrite zlen_be_put. unfold zlen, slen, zlen, EnrollRequestMax, MaxTokenBytes in *. lia.
Qed.

(** What the store must hold for a fresh binding. *)
Record enrollable (t1 : Z) (cid rid : string) (req : EnrollmentRequest) (x : xdb) : Prop := {
  eb_unbound : nodeCredentialTx (rq_NodeID req) x = None;
  eb_token : check_token t1 req x = Ok tt;
  eb_node : node_exists x (rq_NodeID req) = true;
  eb_cred : sql_exists (λ c, String.eqb (cd_id c) cid) (x_creds x) = false;
  eb_result : sql_exists (λ r, String.eqb (en_id r) rid || enrolled_at (rq_NodeID req) (rq_AgentPublicKeyHash req) (rq_CredentialVersion req) r) (x_enrolled x) = false
}.

Lemma consume_enrollable t1 t2 ts cid rid req x :
  enrollable t1 cid rid req x →
  ∃ x1, ConsumeEnrollmentToken t1 t2 ts cid rid req x
    = Ok (Some (mkEnrollment (rq_ResultID req) (rq_NodeID req) (rq_AgentPublicKeyHash req) (rq_CredentialVersion req) (rq_ControllerKeyID req)
        (rq_CapabilityHash req) (rq_ResultExpiryUnix req) ts, false), x1).
Proof.
  intros [H1 H2 H3 H4 H5]. unfold ConsumeEnrollmentToken, sql_bind, sql_read, sql_check, sql_write, bind_credential, record_result, audit, sql_ret, sql_fail.
  rewrite H1, H2. unfold node_exists in *. cbn -[sql_exists]. rewrite H3. cbn -[sql_exists].
  assert (Hc : sql_exists (λ c, String.eqb (cd_id c) cid || (String.eqb (cd_node c) (rq_NodeID req) && (cd_version c =? rq_CredentialVersion req))) (x_creds x) = false).
  { apply not_true_iff_false. intros (c & Hc & [He | [He _]%andb_true_iff]%orb_true_iff)%sql_exists_true.
    - rewrite <- not_true_iff_false in H4. apply H4, sql_exists_true. eauto.
    - apply String.eqb_eq in He. by eapply unbound_node. }
  rewrite Hc. cbn -[sql_exists]. rewrite H3, H5. by eexists.
Qed.

(** The signed result of a durable binding of a well-formed request. *)
Lemma answer_ok (n : string) (r : EnrollRequest) (now ts : Z) (resultID : bytes) res :
  hub_ok → request_ok r → 1 ≤ slen n ≤ 16 → length resultID = 16%nat →
  let req := enroll_request_of h n r now resultID in
  res = mkEnrollment (rq_ResultID req) (rq_NodeID req) (rq_AgentPublicKeyHash req) (rq_CredentialVersion req) (rq_ControllerKeyID req)
    (rq_CapabilityHash req) (rq_ResultExpiryUnix req) ts →
  ∃ raw, answer_result h res = HttpOK raw ∧
    ParseEnrollResult raw controller_pub
    = Ok (mkEResult (instanceID stored) (hb_keyID h) (copy_into 16 (bytes_of n)) (sha256 (er_AgentPublicKey r)) (er_AgentCredentialVersion r) resultID
        (wrap_i64 (now + hb_resultTTL h) mod 2 ^ 64)).
Proof.
  intros Ho Hr Hn Hid req ->. set (msg := mkEResult _ _ _ _ _ _ _).
  assert (Hok : result_ok msg).
  { unfold result_ok, msg. cbn. rewrite length_instanceID, length_copy_into, sha256_length. destruct Hr as (_ & _ & _ & _ & _ & Hv & Hv0).
    split_and!; try done; try apply Ho; try apply Hv. all: apply Z.mod_pos_bound; lia. }
  pose proof (enrollEncode_ok _ (result_fits msg Hok)) as Henc.
  unfold answer_result. cbn [el_ResultID rq_ResultID req enroll_request_of]. rewrite hex_decode_of, Hid. cbn [bool_decide decide negb].
  rewrite (ho_instance Ho). rewrite bool_decide_eq_true_2 by done. cbn [negb].
  assert (Hm : result_message stored resultID (mkEnrollment (hex_of resultID) (rq_NodeID req) (rq_AgentPublicKeyHash req) (rq_CredentialVersion req)
    (rq_ControllerKeyID req) (rq_CapabilityHash req) (rq_ResultExpiryUnix req) ts) = msg).
  { unfold result_message. cbn. rewrite hex_decode_of. by rewrite bool_decide_eq_true_2 by apply sha256_length. }
  cbv zeta. rewrite Hm. unfold result_SigningBytes, result_Canonical. rewrite Henc. cbn [fmap option_fmap option_map]. rewrite (sign_ok _ Ho).
  eexists. split; [done|]. apply ParseEnrollResult_complete; [done|]. by apply sign_frame, Ho.
Qed.

(** An honest enrollment completes.  For a known, unbound node with a valid token,
    the challenge handler answers with a challenge the agent accepts; the agent's
    signed request over it, presented before the challenge expires, is answered with a
    result the agent accepts, naming its node, its key and credential version and the
    drawn result id; and the store has then bound the node to that key. *)
Theorem enrollment_end_to_end (t1 t2 t3 now hubNow c1 c2 cts : Z) (nonce resultID ka : bytes) (n cid rid : string) (m : ChallengeManager)
    (x : xdb) (nd : NodeRow) (r : EnrollRequest) :
  let ch := issued_challenge t2 m nonce n in
  hub_ok → 1 ≤ slen n ≤ 16 → length nonce = 32%nat → GetNode (x_ctl x) n = Ok nd →
  (0 < cm_max m → Z.of_nat (size (evict t1 m)) < cm_max m) →
  length ka = PrivateKeySize → request_ok r → er_AgentPublicKey r = ed25519_public ka →
  er_ChallengeHash r = sha256 (put_fields (challenge_fields ch)) → length resultID = 16%nat → now < t3 + cm_ttl m →
  enrollable c1 cid rid (enroll_request_of h n r hubNow resultID) x →
  ∃ raw m1 raw' s2,
    handleEnrollChallenge h t1 t2 t3 nonce (mkHttp true true (Some (bytes_of n))) (m, x) = (HttpOK raw, (m1, x)) ∧
    ParseEnrollChallenge raw controller_pub = Ok ch ∧
    handleEnrollRequest h now hubNow c1 c2 cts resultID cid rid (mkHttp true true (Some (request_frame ka r))) (m1, x) = (HttpOK raw', s2) ∧
    ParseEnrollResult raw' controller_pub
    = Ok (mkEResult (instanceID stored) (hb_keyID h) (copy_into 16 (bytes_of n)) (sha256 (ed25519_public ka)) (er_AgentCredentialVersion r) resultID
        (wrap_i64 (hubNow + hb_resultTTL h) mod 2 ^ 64)) ∧
    cd_hash <$> nodeCredentialTx n s2.2 = Some (hex_of (sha256 (ed25519_public ka))).
Proof.
  intros ch Ho Hn Hno Hg Hroom Hka Hr Hpub Hhash Hid Hlive Heb.
  destruct (challenge_issued t1 t2 t3 nonce n m x nd Ho Hn Hno Hg Hroom) as (raw & m1 & Hc1 & Hc2 & Hc3). fold ch in Hc2, Hc3.
  set (req := enroll_request_of h n r hubNow resultID) in *.
  destruct (consume_enrollable c1 c2 cts cid rid req x Heb) as [x1 Hx1].
  destruct (answer_ok n r hubNow cts resultID _ Ho Hr Hn Hid eq_refl) as (raw' & Ha1 & Ha2). fold req in Ha1. rewrite Hpub in Ha2.
  pose proof (request_bound ka r Hr Hka) as Hlen. pose proof (ho_body Ho) as Hmax.
  eexists raw, m1, raw', (_, x1). split; [exact Hc1|]. split; [exact Hc2|]. split; [|split; [exact Ha2|]].
  - unfold handleEnrollRequest. cbn [ht_allowed ht_post ht_body negb fst snd]. cbv zeta.
    rewrite (take_ge (request_frame ka r)) by (unfold zlen in Hlen; lia). rewrite request_hash by done.
    unfold ValidateAndConsume. rewrite Hhash, Hc3. cbn [ce_expiry ce_used ce_nodeID ce_instance]. rewrite (proj2 (Z.ltb_lt _ _) Hlive). cbn [negb].
    rewrite (ParseEnrollRequest_complete (request_frame ka r) _ r); [|done|done|rewrite Hpub; by apply sign_frame].
    unfold commit_tx. fold req. rewrite Hx1, Ha1. reflexivity.
  - apply consume_fresh in Hx1 as (Hun & _ & _ & _ & Ht & _). injection Ht as _ Hcr _. cbn [snd]. unfold nodeCredentialTx in *.
    rewrite Hcr, sql_row_app. cbn [rq_NodeID req enroll_request_of] in Hun. rewrite Hun. unfold sql_row. cbn. rewrite String.eqb_refl. cbn.
    unfold request_PublicKey. by rewrite Hpub.
Qed.
End Http.
