(* ===== verification/RotationProps.v ===== *)
(** * Key rotation: one live operation per scope, retired only when it is safe

    Along every execution of the Controller's store. *)

From Stdlib Require Import ZArith Lia Strings.Byte.
From stdpp Require Import base tactics list sets strings option relations.
From S2P Require Import Prelude GoStd Frame Probe Sql Control ControlProofs CtlDb EnrollStore CtlLifecycle Forwards ProbeStore CtlRun.

Open Scope Z_scope.

Definition rotation_of (x : xdb) (id : string) : option RotationRow := sql_row (kr_at id) (x_rotations x).

(** The life of one operation: created, advanced one phase at a time, force-retired from
    ACKED or ACTIVE, or withdrawn while PREPARED. *)
Inductive rot_step : option RotationRow → option RotationRow → Prop :=
  | rot_create r : rot_step None (Some r)
  | rot_advance r now : rotationPhaseNext (kr_phase r) ≠ "" → rot_step (Some r) (Some (kr_advance (rotationPhaseNext (kr_phase r)) now r))
  | rot_force r now : kr_phase r = "ACKED" ∨ kr_phase r = "ACTIVE" → rot_step (Some r) (Some (kr_advance "RETIRED" now r))
  | rot_withdraw r : kr_phase r = "PREPARED" → rot_step (Some r) None.

Record rot_ok (x : xdb) : Prop := {
  ro_unique : unique kr_id (x_rotations x);
  ro_scope : ∀ r1 r2, r1 ∈ x_rotations x → r2 ∈ x_rotations x → kr_live r1 = true → kr_live r2 = true → kr_scope r1 = kr_scope r2 → kr_id r1 = kr_id r2
}.

Definition announced (x : xdb) (id : string) : Prop := ∃ r, rotation_of x id = Some r ∧ kr_phase r ≠ "PREPARED".
Record rot_kept (x x' : xdb) : Prop := {
  rk_rows : ∀ id, rtc rot_step (rotation_of x id) (rotation_of x' id);
  rk_acks : ∀ id n, announced x id → acked x id n = true → acked x' id n = true
}.
Definition rot_le (x x' : xdb) : Prop := rot_ok x → rot_ok x' ∧ rot_kept x x'.

(** What the steps of an announced operation keep. *)
Lemma next_not_prepared p : rotationPhaseNext p ≠ "PREPARED".
Proof. unfold rotationPhaseNext. repeat (case_match; [done|]). done. Qed.
Lemma announced_steps r o : kr_phase r ≠ "PREPARED" → rtc rot_step (Some r) o →
  ∃ p now, o = Some (kr_advance p now r) ∧ p ≠ "PREPARED" ∧ (kr_phase r = "RETIRED" → p = "RETIRED") ∧ (kr_phase r = "ACTIVE" → p = "ACTIVE" ∨ p = "RETIRED").
Proof.
  intros Hp H. remember (Some r) as s eqn:Es. revert r Hp Es. induction H as [s|s1 s2 s3 Hs _ IH]; intros r Hp ->.
  - exists (kr_phase r), (kr_updated r). destruct r. split_and!; auto.
  - assert (Hnext : ∃ p now, s2 = Some (kr_advance p now r) ∧ p ≠ "PREPARED" ∧ kr_phase r ≠ "RETIRED" ∧ (kr_phase r = "ACTIVE" → p = "RETIRED")).
    { inversion Hs as [|y now Hne|y now Hph|y Hph]; subst; [| |done]; eexists _, _; (split; [reflexivity|]).
      - split_and!; [apply next_not_prepared|intros He; by rewrite He in Hne|intros He; by rewrite He].
      - split_and!; [done|by destruct Hph as [-> | ->]|done]. }
    destruct Hnext as (p & now & -> & Hp' & Hnr & Ha). destruct (IH (kr_advance p now r) Hp' eq_refl) as (q & now' & -> & Hq & Hr & Hac). exists q, now'. split_and!; [done|done|done|].
    intros He. right. apply Hr. by apply Ha.
Qed.

Lemma announced_kept x x' id : (∀ i, rtc rot_step (rotation_of x i) (rotation_of x' i)) → announced x id → announced x' id.
Proof.
  intros H (r & Hr & Hp). specialize (H id). rewrite Hr in H. destruct (announced_steps r _ Hp H) as (p & now & He & Hq & _).
  eexists. split; [exact He|done].
Qed.

#[export] Instance rot_le_pre : PreOrder rot_le.
Proof.
  split.
  - intros x Hx. split; [done|]. split; [intros; apply rtc_refl|auto].
  - intros x y z Hxy Hyz Hx. destruct (Hxy Hx) as [Hy [r1 a1]]. destruct (Hyz Hy) as [Hz [r2 a2]]. split; [done|]. split.
    + intros id. etrans; [apply r1|apply r2].
    + intros id n Ha Hk. apply a2; [|by apply a1]. by apply (announced_kept x y).
Qed.

Lemma rot_le_tables x x' : (x_rotations x', x_acks x') = (x_rotations x, x_acks x) → rot_le x x'.
Proof.
  intros [= Hr Ha] Hx. split.
  - destruct Hx. split; by rewrite Hr.
  - split; [intros id; unfold rotation_of; by rewrite Hr|]. intros id n _. unfold acked. by rewrite Ha.
Qed.

Lemma rot_le_update x w p now :
  (∀ r, w r = true → kr_live r = true ∧ rot_step (Some r) (Some (kr_advance p now r))) →
  rot_le x (set_rotations x (sql_update w (kr_advance p now) (x_rotations x))).
Proof.
  intros Hw [Hu Hs]. split; [split|split].
  - by apply unique_update.
  - cbn. intros r1 r2 (a & Ha & ->)%in_sql_update (b & Hb & ->)%in_sql_update.
    assert (Hid : ∀ a, kr_id (if w a then kr_advance p now a else a) = kr_id a ∧ kr_scope (if w a then kr_advance p now a else a) = kr_scope a ∧
      (kr_live (if w a then kr_advance p now a else a) = true → kr_live a = true)).
    { intros c. destruct (w c) eqn:E; [|done]. split_and!; [done|done|]. intros _. by apply Hw. }
    destruct (Hid a) as (-> & -> & La), (Hid b) as (-> & -> & Lb). intros L1 L2. apply Hs; auto.
  - intros id. unfold rotation_of. cbn. rewrite sql_row_update; [|done]. destruct (sql_row _ _) as [r|]; [|done]. cbn.
    destruct (w r) eqn:E; [|done]. by apply rtc_once, Hw.
  - intros id n _ H. exact H.
Qed.

Lemma rot_le_insert x r :
  sql_exists (λ y, String.eqb (kr_scope y) (kr_scope r) && kr_live y) (x_rotations x) = false →
  sql_exists (kr_at (kr_id r)) (x_rotations x) = false → rot_le x (set_rotations x (x_rotations x ++ [r])).
Proof.
  intros Hsc Hid [Hu Hs]. rewrite <- not_true_iff_false in Hsc.
  assert (Hother : ∀ y, y ∈ x_rotations x → kr_live y = true → kr_scope y ≠ kr_scope r).
  { intros y Hy Hl He. apply Hsc, sql_exists_true. exists y. split; [done|]. by rewrite He, String.eqb_refl. }
  split; [split|split].
  - cbn. apply unique_insert; [done|]. intros y Hy He. rewrite <- not_true_iff_false in Hid. apply Hid, sql_exists_true.
    exists y. split; [done|]. unfold kr_at. by rewrite He, String.eqb_refl.
  - cbn. intros r1 r2 [H1 | ->%list_elem_of_singleton]%elem_of_app [H2 | ->%list_elem_of_singleton]%elem_of_app L1 L2 He; auto.
    + by destruct (Hother r1).
    + by destruct (Hother r2).
  - intros id. unfold rotation_of. cbn. rewrite sql_row_app. destruct (sql_row _ _); [done|]. unfold sql_row. cbn.
    destruct (kr_at id r); [apply rtc_once; constructor|done].
  - intros id n _ H. exact H.
Qed.

Lemma rot_le_withdraw x id :
  rot_le x (set_acks (set_rotations x (sql_delete (λ r, kr_at id r && String.eqb (kr_phase r) "PREPARED") (x_rotations x)))
    (sql_delete (λ a, String.eqb (ka_operation a) id) (x_acks x))) ∨ sql_count (λ r, kr_at id r && String.eqb (kr_phase r) "PREPARED") (x_rotations x) = 0%nat.
Proof.
  destruct (decide (sql_count (λ r, kr_at id r && String.eqb (kr_phase r) "PREPARED") (x_rotations x) = 0%nat)) as [|Hc]; [by right|left].
  intros [Hu Hs]. apply sql_count_pos in Hc as (r & Hr & [Ei%String.eqb_eq Ep%String.eqb_eq]%andb_true_iff).
  assert (Hrow : rotation_of x id = Some r).
  { apply (sql_row_unique kr_id); [done| |done]. intros y. unfold kr_at. rewrite String.eqb_eq. by rewrite Ei. }
  split; [split|split].
  - by apply unique_delete.
  - cbn. intros r1 r2 [H1 _]%in_sql_delete [H2 _]%in_sql_delete. by apply Hs.
  - intros i. unfold rotation_of. cbn. destruct (String.eqb_spec i id) as [-> | Hne].
    + fold (rotation_of x id). rewrite Hrow. apply rtc_once. destruct (sql_row _ _) as [y|] eqn:E; [|by constructor].
      apply sql_row_Some in E as [[Hy Hf]%in_sql_delete Hk]. rewrite Hk in Hf. cbn in Hf. apply String.eqb_neq in Hf.
      assert (y = r) by (apply (unique_inj kr_id (x_rotations x)); auto; unfold kr_at in Hk; apply String.eqb_eq in Hk; congruence). congruence.
    + rewrite sql_row_delete; [done|]. intros y _ [Hy _]%andb_true_iff. unfold kr_at in *. apply String.eqb_eq in Hy. apply String.eqb_neq. congruence.
  - intros i n (y & Hy & Hp). unfold acked. cbn. rewrite !sql_exists_true. intros (a & Ha & Hw). exists a. split; [|done].
    apply in_sql_delete. split; [done|]. apply String.eqb_neq. intros He. apply andb_true_iff in Hw as [Hw%String.eqb_eq _].
    assert (i = id) as -> by congruence. congruence.
Qed.

Lemma rot_le_ack x a : rot_le x (set_acks x (x_acks x ++ [a])).
Proof.
  intros Hx. split; [by destruct Hx|]. split; [intros; apply rtc_refl|]. intros id n _. unfold acked. cbn. rewrite !sql_exists_true. intros (b & Hb & Hw).
  exists b. split; [|done]. apply elem_of_app. by left.
Qed.

(** ** Every command *)

Lemma live_of_next r p : String.eqb (kr_phase r) p = true → rotationPhaseNext p ≠ "" → kr_live r = true.
Proof. intros Hp%String.eqb_eq H. unfold kr_live. rewrite Hp. destruct (String.eqb_spec p "RETIRED") as [-> | ?]; [done|done]. Qed.

Ltac rot_leaf :=
  first [ apply rot_le_tables; reflexivity
        | apply rot_le_ack
        | idtac ].

Lemma cas_rot now id e n : moves rot_le (AdvanceKeyRotationPhaseCAS now id e n).
Proof.
  unfold AdvanceKeyRotationPhaseCAS. mv rot_leaf. apply rot_le_update. intros r [_ Hp]%andb_true_iff.
  match goal with E : negb (String.eqb _ n) = false |- _ => apply negb_false_iff, String.eqb_eq in E; rename E into En end.
  assert (Hn : n ≠ ""). { intros ->. by rewrite orb_true_r in *. }
  split; [eapply live_of_next; [exact Hp|congruence]|]. apply String.eqb_eq in Hp. rewrite <- En, <- Hp. constructor. rewrite Hp. congruence.
Qed.
Lemma force_rot now id : moves rot_le (ForceRetireKeyRotationOperation now id).
Proof.
  unfold ForceRetireKeyRotationOperation. mv rot_leaf. apply rot_le_update. intros r [_ Hp]%andb_true_iff.
  assert (Hp' : kr_phase r = "ACKED" ∨ kr_phase r = "ACTIVE") by (apply orb_true_iff in Hp as [H%String.eqb_eq | H%String.eqb_eq]; auto).
  split; [unfold kr_live; by destruct Hp' as [-> | ->]|by constructor].
Qed.
Lemma create_rot now op : moves rot_le (CreateKeyRotationOperation now op).
Proof. unfold CreateKeyRotationOperation. mv rot_leaf. by apply rot_le_insert. Qed.
Lemma withdraw_rot id : moves rot_le (DeleteKeyRotationOperation id).
Proof.
  unfold DeleteKeyRotationOperation. mv rot_leaf. match goal with |- rot_le ?x _ => destruct (rot_le_withdraw x id) as [H | H]; [exact H|] end.
  match goal with E : (_ =? 0)%nat = false |- _ => by rewrite H in E end.
Qed.

Lemma xbody_rot `{!Crypto} `{!CtlJson} `{!ProbeJson} c : moves rot_le (xbody c).
Proof.
  destruct c; cbn [xbody]; unfold xdrop;
    try solve [apply cas_rot | apply force_rot | apply create_rot | apply withdraw_rot].
  all: try (unfold AdvanceKeyRotationPhase, AdvanceRotationPhase; mv rot_leaf; first [apply cas_rot | apply force_rot]; fail).
  all: mvx rot_leaf.
  all: try (apply moves_off_ctl; intros; by apply rot_le_tables).
  all: try (destruct (sql_exists _ _); [reflexivity|]; by apply rot_le_tables).
Qed.

Lemma xrun_rot `{!Crypto} `{!CtlJson} `{!ProbeJson} es s : rot_ok s.1 → rot_ok (xrun es s).1 ∧ rot_kept s.1 (xrun es s).1.
Proof. apply (xrun_ind rot_le); [intros c; apply xbody_rot|]. intros cutoff limit cur x. by apply rot_le_tables. Qed.

Section Rotation.
Context {crypto : Crypto} {json : CtlJson} {pjson : ProbeJson}.

(** C27: every execution of the store moves each rotation operation only along its life
    cycle - created, advanced by single phases, force-retired from ACKED or ACTIVE, or
    withdrawn while PREPARED - with its keys, generations, deadline and certificate
    fixed; at most one operation per scope is ever live, and a retired operation stays
    retired. *)
Theorem key_rotation_refinement (es : list xevent) (s : xstate) (id : string) :
  rot_ok s.1 →
  let x' := (xrun es s).1 in
  rot_ok x' ∧ rtc rot_step (rotation_of s.1 id) (rotation_of x' id) ∧
  (∀ r, rotation_of s.1 id = Some r → kr_phase r ≠ "PREPARED" →
     ∃ p now, rotation_of x' id = Some (kr_advance p now r) ∧ (kr_phase r = "RETIRED" → p = "RETIRED")).
Proof.
  intros Hok x'. destruct (xrun_rot es s Hok) as [Hok' [Hr _]]. split; [done|]. split; [apply Hr|]. intros r Hrow Hp.
  specialize (Hr id). rewrite Hrow in Hr. destruct (announced_steps r _ Hp Hr) as (p & now & He & _ & Hret & _). by exists p, now.
Qed.

(** A committed step of the guarded CAS. *)
Lemma cas_effect now id e n x a x' : AdvanceKeyRotationPhaseCAS now id e n x = Ok (a, x') →
  sql_count (λ r, kr_at id r && String.eqb (kr_phase r) e) (x_rotations x) = 1%nat ∧
  x' = set_rotations x (sql_update (λ r, kr_at id r && String.eqb (kr_phase r) e) (kr_advance n now) (x_rotations x)).
Proof. intros H. unfold AdvanceKeyRotationPhaseCAS in H. sql_inv H. by match goal with E : (_ =? 1)%nat = true |- _ => apply Nat.eqb_eq in E end. Qed.

(** An old key is retired only when it is safe.  When the guard retires an operation
    without force - having read the operation at one moment, counted the
    acknowledgements at a later one and written at a third, with any other transactions
    in between - the operation it writes was ACTIVE, its deadline had passed, and every
    node known at the count had acknowledged it; the write changes that operation's
    phase only. *)
Theorem rotation_retires_soundly (es1 es2 : list xevent) (s : xstate) (clock now : Z) (id : string) (x' : xdb) (ret : RotationRow) :
  let s1 := xrun es1 s in
  let x := (xrun es2 s1).1 in
  rot_ok s.1 → AdvanceRotationPhase s.1 s1.1 clock now id "RETIRED" false x = Ok (ret, x') →
  ∃ r, rotation_of x id = Some r ∧ kr_phase r = "ACTIVE" ∧ kr_deadline r ≤ clock ∧
    (∀ n, n ∈ t_nodes (x_ctl s1.1) → acked x id (nd_id n) = true) ∧
    rotation_of x' id = Some (kr_advance "RETIRED" now r) ∧ (∀ i, i ≠ id → rotation_of x' i = rotation_of x i) ∧ x_ctl x' = x_ctl x ∧ x_acks x' = x_acks x.
Proof.
  intros s1 x Hok H. destruct (xrun_rot es1 s Hok) as [Hok1 [K1 A1]]. destruct (xrun_rot es2 s1 Hok1) as [Hok2 [K2 A2]].
  fold s1 in K1, A1, Hok1. fold x in K2, A2, Hok2.
  unfold AdvanceRotationPhase, GetKeyRotationOperation in H. fold (rotation_of s.1 id) in H. destruct (rotation_of s.1 id) as [r0|] eqn:E0; [|discriminate H].
  cbn [andb] in H. destruct (negb (RotationFSMSingleStep _ _)); [discriminate H|]. cbn [String.eqb Ascii.eqb Bool.eqb negb andb] in H.
  destruct (String.eqb_spec (kr_phase r0) "ACTIVE") as [Ea|]; cbn [negb] in H; [|discriminate H].
  destruct (Z.ltb_spec clock (kr_deadline r0)) as [|Hd]; [discriminate H|]. unfold AllRotationAgentsAcknowledged in H.
  destruct (String.eqb id ""); [discriminate H|]. destruct (sql_count _ _ =? 0)%nat eqn:Ec; cbn in H; [|discriminate H].
  apply Nat.eqb_eq in Ec. rewrite sql_count_0 in Ec. apply sql_bind_Ok in H as (u & x1 & H & Hret). injection Hret as _ <-.
  apply cas_effect in H as [Hcount ->]. rewrite Ea in Hcount. rewrite Ea.
  assert (Hp : kr_phase r0 ≠ "PREPARED") by (by rewrite Ea).
  assert (H01 := K1 id). rewrite E0 in H01. destruct (announced_steps r0 _ Hp H01) as (p1 & n1 & E1 & Hp1 & _).
  assert (H02 : rtc rot_step (Some r0) (rotation_of x id)) by (rewrite <- E0; etrans; [apply K1|apply K2]).
  destruct (announced_steps r0 _ Hp H02) as (p2 & n2 & E2 & Hp2 & _ & Hact).
  assert (Hrow : kr_at id (kr_advance p2 n2 r0) = true) by by apply sql_row_Some in E2 as [_ E2].
  destruct (sql_count_pos (λ r, kr_at id r && String.eqb (kr_phase r) "ACTIVE") (x_rotations x)) as (ra & Hra & [Hia Hpa]%andb_true_iff); [lia|].
  assert (Hra' : ra = kr_advance p2 n2 r0).
  { apply sql_row_Some in E2 as [E2 _]. apply (unique_inj kr_id (x_rotations x)); [apply Hok2|done|done|]. unfold kr_at in *.
    apply String.eqb_eq in Hia, Hrow. congruence. }
  subst ra. apply String.eqb_eq in Hpa. exists (kr_advance p2 n2 r0). split_and!; [done|done|done| | | |done|done].
  - intros n Hn. apply A2; [eexists; split; [exact E1|done]|]. specialize (Ec n Hn). by apply negb_false_iff in Ec.
  - unfold rotation_of in *. cbn [x_rotations set_rotations]. rewrite sql_row_update, E2; [|by intros]. cbn [fmap option_fmap option_map].
    rewrite Hrow, Hpa. done.
  - intros i Hi. unfold rotation_of. cbn [x_rotations set_rotations]. rewrite sql_row_update by by intros.
    destruct (sql_row (kr_at i) (x_rotations x)) as [y|] eqn:Ey; [|done]. cbn. apply sql_row_Some in Ey as [_ Ey]. unfold kr_at in *.
    apply String.eqb_eq in Ey. by rewrite (proj2 (String.eqb_neq (kr_id y) id)) by congruence.
Qed.
End Rotation.
