(* ===== verification/RestoreProps.v ===== *)
(** * Quarantine and cleanup: what holds a node back until it is let go

    After a restore every node is quarantined until it is reauthorized for an authorized
    operation; a force-deleted node keeps its cleanup tombstone.  Both along every
    execution of the Controller's store. *)

From Stdlib Require Import ZArith Lia Strings.Byte.
From stdpp Require Import base tactics list sets strings option relations.
From S2P Require Import Prelude GoStd Frame Probe Sql Control ControlProofs CtlDb EnrollStore CtlLifecycle Forwards ProbeStore CtlRun.

Open Scope Z_scope.

(** ** The control transactions keep the gate's tables *)

Record gate_kept (d d' : db) : Prop := {
  gk_nodes : ∀ n r, node_row d n = Some r → ∃ r', node_row d' n = Some r' ∧ nd_quarantined r' = nd_quarantined r ∧ nd_quarantine_op r' = nd_quarantine_op r;
  gk_cleanup : t_cleanup d' = t_cleanup d;
  gk_restores : t_restores d' = t_restores d;
  gk_deletions : t_deletions d' = t_deletions d
}.
#[export] Instance gate_kept_pre : PreOrder gate_kept.
Proof.
  split.
  - intros d. split; [|done..]. intros n r H. by exists r.
  - intros d1 d2 d3 [n1 c1 r1 l1] [n2 c2 r2 l2]. split; [|congruence..]. intros n r H. destruct (n1 n r H) as (r' & H' & E1 & E2).
    destruct (n2 n r' H') as (r'' & H'' & E3 & E4). exists r''. split_and!; congruence.
Qed.

Lemma gate_same d d' : (t_nodes d', t_cleanup d', t_restores d', t_deletions d') = (t_nodes d, t_cleanup d, t_restores d, t_deletions d) → gate_kept d d'.
Proof. intros [= Hn Hc Hr Hl]. split; [|done..]. intros n r H. exists r. unfold node_row. by rewrite Hn. Qed.
Lemma gate_nodes d w f :
  (∀ r, nd_id (f r) = nd_id r ∧ nd_quarantined (f r) = nd_quarantined r ∧ nd_quarantine_op (f r) = nd_quarantine_op r) →
  gate_kept d (set_nodes d (sql_update w f (t_nodes d))).
Proof.
  intros Hf. split; [|done..]. intros n r H. unfold node_row in *. cbn. rewrite sql_row_update, H; [|intros y _; by rewrite (proj1 (Hf y))].
  cbn. eexists. split; [done|]. destruct (w r); [|done]. apply Hf.
Qed.
Lemma gate_node_insert d r : gate_kept d (set_nodes d (t_nodes d ++ [r])).
Proof. split; [|done..]. intros n y H. exists y. unfold node_row in *. cbn. by rewrite sql_row_app, H. Qed.

Ltac gate_leaf :=
  try match goal with |- gate_kept _ (if ?b then _ else _) => destruct b; [|reflexivity] end;
  first [ apply gate_same; reflexivity | apply gate_nodes; intros; split_and!; reflexivity | apply gate_node_insert | idtac ].

Lemma enqueue_gate `{!Crypto} now item : moves gate_kept (EnqueueControlOutbox now item).
Proof.
  intros d a d' He. unfold EnqueueControlOutbox in He. destruct (EnforceCleanupOnlyEnqueue _ _ _); [|done]. cbv zeta in He.
  destruct (sql_exists _ _); [done|]. injection He as _ <-. by apply gate_same.
Qed.
Lemma create_gate cap now n : moves gate_kept (CreateNode cap now n).
Proof. unfold CreateNode. mv gate_leaf. Qed.

Lemma cbody_gate `{!Crypto} c : moves gate_kept (cbody c).
Proof.
  destruct c; cbn [cbody]; try apply enqueue_gate; try apply create_gate.
  all: mvx gate_leaf.
Qed.

(** ** Quarantine *)

Definition held (x : xdb) (n : string) : Prop := ∃ r, node_row (x_ctl x) n = Some r ∧ nd_quarantined r = true.
Definition held_le (n : string) (x x' : xdb) : Prop := held x n → held x' n.
#[export] Instance held_le_pre n : PreOrder (held_le n).
Proof. unfold held_le. split; [by intros x|]. intros x y z. auto. Qed.

Lemma held_gate n x d : gate_kept (x_ctl x) d → held_le n x (with_ctl x d).
Proof. intros [Hn _ _ _] (r & Hr & Hq). destruct (Hn n r Hr) as (r' & Hr' & E & _). exists r'. split; [done|congruence]. Qed.
Lemma held_same n x x' : t_nodes (x_ctl x') = t_nodes (x_ctl x) → held_le n x x'.
Proof. intros He (r & Hr & Hq). exists r. unfold node_row in *. by rewrite He. Qed.
Lemma held_update n x w f :
  (∀ r, nd_id (f r) = nd_id r) → (∀ r, nd_id r = n → w r = true → nd_quarantined (f r) = true) →
  held_le n x (with_ctl x (set_nodes (x_ctl x) (sql_update w f (t_nodes (x_ctl x))))).
Proof.
  intros Hid Hf (r & Hr & Hq). unfold held, node_row in *. cbn. rewrite sql_row_update, Hr; [|intros y _; by rewrite Hid].
  cbn. eexists. split; [done|]. apply sql_row_Some in Hr as [_ Hr%String.eqb_eq]. destruct (w r) eqn:E; [|done]. by apply Hf.
Qed.

Ltac held_leaf :=
  first [ apply held_same; reflexivity
        | apply held_update; [reflexivity|by intros]
        | idtac ].

Definition reauthorizes (n : string) (e : xevent) : Prop := match e with XCmd (XReauthorize _ m _) => m = n | _ => False end.

Lemma xbody_held `{!Crypto} `{!CtlJson} `{!ProbeJson} n c : ¬ reauthorizes n (XCmd c) → moves (held_le n) (xbody c).
Proof.
  intros Hc. destruct c; cbn [reauthorizes] in Hc; mvx held_leaf.
  - eapply moves_on_ctl; [apply cbody_gate|]. by apply held_gate.
  - match goal with |- held_le _ ?x (if ?b then _ else _) => destruct b; [reflexivity|by apply held_same] end.
  - apply held_update; [done|]. intros y Hy [[Hw%String.eqb_eq _]%andb_true_iff _]%andb_true_iff. destruct Hc. congruence.
  - eapply moves_on_ctl; [apply create_gate|]. by apply held_gate.
  - eapply moves_on_ctl; [apply create_gate|]. by apply held_gate.
Qed.

Definition authorized (x : xdb) (op : string) : Prop := ∃ r, sql_row (rs_at op) (t_restores (x_ctl x)) = Some r ∧ rs_phase r = "AUTHORIZED".

(** One reauthorization: the node stays held, or it was held by the named operation,
    which is authorized. *)
Lemma reauthorize_releases now n op x :
  held x n → held (commit_tx (ReauthorizeNodeForOperation now n op) x).2 n
    ∨ authorized x op ∧ ∃ r, node_row (x_ctl x) n = Some r ∧ nd_quarantined r = true ∧ nd_quarantine_op r = op.
Proof.
  intros Hh. unfold commit_tx. destruct (ReauthorizeNodeForOperation now n op x) as [[u x']|e] eqn:E; [|by left]. cbn.
  unfold ReauthorizeNodeForOperation in E. sql_inv E; try by left.
  destruct Hh as (y & Hy & Hq). destruct (String.eqb_spec (nd_quarantine_op y) op) as [Ho|Ho].
  - right. split; [|by exists y]. eexists. split; [eassumption|]. by apply String.eqb_eq, negb_false_iff.
  - left. exists y. split; [|done]. unfold node_row in *. cbn. rewrite sql_row_update, Hy; [|done]. cbn.
    apply String.eqb_neq in Ho. by rewrite Ho, andb_false_r.
Qed.

Lemma xstep_held `{!Crypto} `{!CtlJson} `{!ProbeJson} n e s : ¬ reauthorizes n e → held_le n s.1 (xstep e s).1.
Proof.
  intros He. apply (xrun_ind_when (λ e, ¬ reauthorizes n e) (held_le n)) with (es := [e]); [by intros; apply xbody_held| |by repeat constructor].
  intros cutoff limit cur x. destruct (cleanup_deletes cutoff limit cur (x_ctl x)) as [w ->]. by apply held_same.
Qed.

Section Restore.
Context {crypto : Crypto} {json : CtlJson} {pjson : ProbeJson}.

Lemma held_until n es : ∀ s, held s.1 n → held (xrun es s).1 n
  ∨ ∃ es1 now op es2, es = es1 ++ XCmd (XReauthorize now n op) :: es2 ∧ let x := (xrun es1 s).1 in
      authorized x op ∧ ∃ r, node_row (x_ctl x) n = Some r ∧ nd_quarantined r = true ∧ nd_quarantine_op r = op.
Proof.
  induction es as [|e es IH]; intros s Hs; [by left|]. assert (He : held (xstep e s).1 n ∨ ∃ now op, e = XCmd (XReauthorize now n op) ∧ authorized s.1 op ∧
    ∃ r, node_row (x_ctl s.1) n = Some r ∧ nd_quarantined r = true ∧ nd_quarantine_op r = op).
  { assert (Hd : reauthorizes n e ∨ ¬ reauthorizes n e).
    { destruct e as [[]|]; cbn; try tauto. match goal with |- ?a = n ∨ _ => destruct (decide (a = n)); [by left|by right] end. }
    destruct Hd as [Hd|Hd]; [|left; by apply xstep_held]. destruct e as [[]|]; cbn in Hd; try done. subst. cbn [xstep xbody fst].
    edestruct reauthorize_releases as [Hh|Hh]; [exact Hs|left; exact Hh|]. right. eexists _, _. split; [done|]. exact Hh. }
  destruct He as [He | (now & op & -> & Ha & Hr)].
  - destruct (IH _ He) as [Hh | (es1 & now & op & es2 & -> & Hx)]; [by left|right]. by exists (e :: es1), now, op, es2.
  - right. exists [], now, op, es. by split.
Qed.

Lemma held_gates n x : n ≠ "" → held x n → ∀ ty, cleanupOnlyForbiddenTypes ty = true →
  DeliveryAllowed (x_ctl x) n ty = false ∧
  (∀ now item, ci_NodeID item = n → ci_MessageType item = ty → EnqueueControlOutbox now item (x_ctl x) = Err CsRefused).
Proof.
  intros Hn (r & Hr & Hq) ty Ht. apply String.eqb_neq in Hn.
  assert (Hqn : IsNodeQuarantined (x_ctl x) n = true) by (unfold IsNodeQuarantined; unfold node_row in Hr; by rewrite Hn, Hr).
  assert (Hty : String.eqb ty "" = false) by (apply String.eqb_neq; by intros ->).
  split.
  - unfold DeliveryAllowed. rewrite Hty, Hn, Ht, Hqn. cbn. destruct (IsCleanupOnly _ _); [|by destruct (IsRestoreReconciling _)].
    apply String.eqb_neq. by intros ->.
  - intros now item <- <-. unfold EnqueueControlOutbox, EnforceCleanupOnlyEnqueue. rewrite Hty, Ht, Hn, Hqn. cbn. by destruct (IsRestoreReconciling _).
Qed.

(** Entering a restore holds every node until its release is authorized.  After
    [EnterRestoreReconciliation] every node that existed is quarantined, and along any
    later execution of the store it stays so - with every probe, desired, deletion and
    rotation message to it neither accepted by the enqueue nor deliverable - unless the
    execution contains a reauthorization of that very node, for the operation that
    quarantines it, at a moment when that restore operation was AUTHORIZED. *)
Theorem restore_quarantine_held (now : Z) (op : RestoreRow) (x0 x : xdb) (cur : controlInboxCleanupCursor) (es : list xevent) (n : string) :
  EnterRestoreReconciliation now op x0 = Ok (tt, x) → n ≠ "" → is_Some (node_row (x_ctl x0) n) →
  let x' := (xrun es (x, cur)).1 in
  (held x' n ∧ ∀ ty, cleanupOnlyForbiddenTypes ty = true →
     DeliveryAllowed (x_ctl x') n ty = false ∧
     (∀ now' item, ci_NodeID item = n → ci_MessageType item = ty → EnqueueControlOutbox now' item (x_ctl x') = Err CsRefused))
  ∨ ∃ es1 now' op' es2, es = es1 ++ XCmd (XReauthorize now' n op') :: es2 ∧ let y := (xrun es1 (x, cur)).1 in
      authorized y op' ∧ ∃ r, node_row (x_ctl y) n = Some r ∧ nd_quarantined r = true ∧ nd_quarantine_op r = op'.
Proof.
  intros H Hn [r Hr] x'. assert (Hx : held x n).
  { unfold EnterRestoreReconciliation in H. sql_inv H. unfold held, node_row in *. cbn.
    assert (Hsame : t_nodes (x_ctl (if sql_exists (rs_at (rs_id op)) (t_restores (x_ctl x0)) then x0 else restores_push (new_restore now op) x0)) = t_nodes (x_ctl x0))
      by by destruct (sql_exists _ _).
    rewrite Hsame, sql_row_update, Hr; [|done]. by eexists. }
  destruct (held_until n es (x, cur) Hx) as [Hh|Hh]; [left|by right]. split; [done|]. by apply held_gates.
Qed.
End Restore.

(** ** Cleanup tombstones *)

Definition tombstone (x : xdb) (n : string) : option CleanupRow := sql_row (cl_at n) (t_cleanup (x_ctl x)).
Definition tomb_le (x x' : xdb) : Prop := ∀ n c, tombstone x n = Some c →
  ∃ confirmed now, tombstone x' n = Some (mkCleanup (cl_id c) n (cl_operation c) (cl_force c) confirmed (cl_hashes c) (cl_versions c) (cl_created c) now) ∧
    (cl_confirmed c = true → confirmed = true).
#[export] Instance tomb_le_pre : PreOrder tomb_le.
Proof.
  split.
  - intros x n c H. exists (cl_confirmed c), (cl_updated c). split; [|done]. rewrite H. apply sql_row_Some in H as [_ H%String.eqb_eq]. rewrite <- H. by destruct c.
  - intros x y z Hxy Hyz n c H. destruct (Hxy n c H) as (b & t & H' & Hb). destruct (Hyz n _ H') as (b' & t' & H'' & Hb'). exists b', t'. split; [done|auto].
Qed.
Lemma tomb_same x x' : t_cleanup (x_ctl x') = t_cleanup (x_ctl x) → tomb_le x x'.
Proof.
  intros He n c H. exists (cl_confirmed c), (cl_updated c). split; [|done]. unfold tombstone in *. rewrite He, H.
  apply sql_row_Some in H as [_ H%String.eqb_eq]. rewrite <- H. by destruct c.
Qed.
Lemma tomb_update x w f :
  (∀ c, cl_node (f c) = cl_node c ∧ ∃ b t, f c = mkCleanup (cl_id c) (cl_node c) (cl_operation c) (cl_force c) b (cl_hashes c) (cl_versions c) (cl_created c) t ∧ (cl_confirmed c = true → b = true)) →
  tomb_le x (with_ctl x (set_cleanup (x_ctl x) (sql_update w f (t_cleanup (x_ctl x))))).
Proof.
  intros Hf n c H. unfold tombstone in *. cbn [x_ctl with_ctl t_cleanup set_cleanup]. rewrite sql_row_update, H; [|intros y _; unfold cl_at; by rewrite (proj1 (Hf y))].
  cbn. apply sql_row_Some in H as [_ H%String.eqb_eq]. destruct (w c).
  - destruct (Hf c) as (_ & b & t & -> & Hb). exists b, t. by rewrite H.
  - exists (cl_confirmed c), (cl_updated c). rewrite <- H. by destruct c.
Qed.
Lemma tomb_insert x c : tomb_le x (with_ctl x (set_cleanup (x_ctl x) (t_cleanup (x_ctl x) ++ [c]))).
Proof.
  intros n y H. exists (cl_confirmed y), (cl_updated y). split; [|done]. unfold tombstone in *. cbn [x_ctl with_ctl t_cleanup set_cleanup].
  rewrite sql_row_app, H. apply sql_row_Some in H as [_ H%String.eqb_eq]. rewrite <- H. by destruct y.
Qed.

Ltac tomb_leaf :=
  first [ apply tomb_same; reflexivity | apply tomb_insert
        | apply tomb_update; intros; split; [reflexivity|]; eexists _, _; split; [reflexivity|by intros] | idtac ].

Lemma xbody_tomb `{!Crypto} `{!CtlJson} `{!ProbeJson} c : moves tomb_le (xbody c).
Proof.
  destruct c; mvx tomb_leaf.
  - eapply moves_on_ctl; [apply cbody_gate|]. intros x d Hg. apply tomb_same, Hg.
  - match goal with |- tomb_le ?x (if ?b then _ else _) => destruct b; [reflexivity|by apply tomb_same] end.
  - eapply moves_on_ctl; [apply create_gate|]. intros x d Hg. apply tomb_same, Hg.
  - eapply moves_on_ctl; [apply create_gate|]. intros x d Hg. apply tomb_same, Hg.
Qed.
Lemma xrun_tomb `{!Crypto} `{!CtlJson} `{!ProbeJson} es s : tomb_le s.1 (xrun es s).1.
Proof.
  apply (xrun_ind tomb_le); [intros c; apply xbody_tomb|]. intros cutoff limit cur x.
  destruct (cleanup_deletes cutoff limit cur (x_ctl x)) as [w ->]. by apply tomb_same.
Qed.

Section Cleanup.
Context {crypto : Crypto} {json : CtlJson} {pjson : ProbeJson}.

(** A force-deleted node is fenced for good.  Once a cleanup tombstone is written,
    and whatever the store does afterwards, the node's tombstone still names the same
    operation, key hashes and versions, with its confirmation only ever set; nothing but
    the decommission command is deliverable to the node; a tombstone for another
    operation and every ordinary deletion of the node are refused without a change. *)
Theorem cleanup_tombstone_final (now now' : Z) (ts ts' : CleanupRow) (x0 x : xdb) (cur : controlInboxCleanupCursor) (es : list xevent)
    (del : NodeDelRow) (out : ControlOutboxItem) (revision : Z) :
  CreateNodeCleanupTombstone now ts x0 = Ok (tt, x) → cl_node ts' = cl_node ts → xd_node del = cl_node ts →
  let n := cl_node ts in
  let x' := (xrun es (x, cur)).1 in
  (∃ c c', tombstone x n = Some c ∧ NodeCleanupTombstone n x' = Ok c' ∧ cl_operation c = cl_operation ts ∧
     (cl_operation c', cl_force c', cl_hashes c', cl_versions c', cl_created c') = (cl_operation c, cl_force c, cl_hashes c, cl_versions c, cl_created c) ∧
     (cl_confirmed c = true → cl_confirmed c' = true)) ∧
  (∀ ty, ty ≠ "" → DeliveryAllowed (x_ctl x') n ty = String.eqb ty "node_decommission") ∧
  (cl_operation ts' ≠ "" → cl_operation ts' ≠ cl_operation ts → CreateNodeCleanupTombstone now' ts' x' = Err XCleanupConflict) ∧
  is_ok (CreateNodeDeletionOperationCAS now' del revision x') = false ∧ is_ok (ApplyNodeDeleteCAS now' del out revision x') = false.
Proof.
  intros H Hn' Hd. assert (Hc : cl_node ts ≠ "" ∧ ∃ c, tombstone x (cl_node ts) = Some c ∧ cl_operation c = cl_operation ts).
  { unfold CreateNodeCleanupTombstone in H. sql_inv H.
    all: match goal with E : String.eqb _ "" || _ = false |- _ => apply orb_false_iff in E as [En%String.eqb_neq _] end; split; [exact En|]; unfold tombstone.
    - cbn [x_ctl with_ctl t_cleanup set_cleanup]. rewrite sql_row_update by done. eexists. rewrite E0. split; [reflexivity|]. cbn [fmap option_fmap option_map].
      apply negb_false_iff, String.eqb_eq in E1. by destruct (cl_at _ _).
    - cbn [x_ctl with_ctl t_cleanup set_cleanup]. rewrite sql_row_app, E0. unfold sql_row, cl_at. cbn. rewrite String.eqb_refl. by eexists. }
  intros n x'. fold n in Hc. destruct Hc as (Hn & c & Hc & Ho). destruct (xrun_tomb es (x, cur) n c Hc) as (b & t & Ht & Hb). fold x' in Ht.
  set (c' := mkCleanup _ _ _ _ _ _ _ _ _) in Ht. assert (Hex : sql_exists (cl_at n) (t_cleanup (x_ctl x')) = true).
  { apply sql_exists_true. exists c'. by apply sql_row_Some. }
  assert (Hdel : deletable (xd_node del) revision x' = false) by (unfold deletable; rewrite Hd; fold n; by rewrite Hex, andb_false_r).
  split_and!.
  - exists c, c'. unfold NodeCleanupTombstone. unfold tombstone in Ht. by rewrite Ht.
  - intros ty Hty. unfold DeliveryAllowed, IsCleanupOnly. apply String.eqb_neq in Hty, Hn. rewrite Hty, Hn.
    unfold sql_exists, cl_at in Hex. by rewrite Hex.
  - intros Ho' Hne. unfold CreateNodeCleanupTombstone. rewrite Hn'. fold n. apply String.eqb_neq in Ho', Hn. rewrite Ho', Hn. cbn [orb].
    unfold sql_bind at 1, sql_read. unfold tombstone in Ht. rewrite Ht. cbn [cl_operation c']. rewrite Ho.
    by rewrite (proj2 (String.eqb_neq (cl_operation ts) (cl_operation ts'))) by congruence.
  - unfold CreateNodeDeletionOperationCAS, sql_bind, sql_read, sql_check. destruct (nodedel_incomplete del), (negb (binds revision)); try done. by rewrite Hdel.
  - unfold ApplyNodeDeleteCAS, sql_bind, sql_read, sql_check. destruct (nodedel_incomplete del), (negb (String.eqb (xd_mode del) "normal")), (negb (binds revision)); try done. by rewrite Hdel.
Qed.
End Cleanup.
