(* ===== verification/ForwardProps.v ===== *)
(** * Forwards: one winner per revision, idempotent creation

    Along every execution of the Controller's store. *)

From Stdlib Require Import ZArith Lia Strings.Byte.
From stdpp Require Import base tactics list sets strings option relations.
From S2P Require Import Prelude GoStd Frame Probe Sql Control ControlProofs CtlDb EnrollStore CtlLifecycle Forwards ProbeStore CtlRun.

Open Scope Z_scope.

(** ** Forwards *)

Definition forward_row (x : xdb) (id : string) : option ForwardRow := sql_row (fw_at id) (x_forwards x).
Definition spec_at (id : string) (revision : Z) (s : SpecRow) : bool := String.eqb (sp_forward s) id && (sp_revision s =? revision).
Definition spec_row (x : xdb) (id : string) (revision : Z) : option SpecRow := sql_row (spec_at id revision) (x_specs x).

(** A Forward keeps its node, name and protocol, its revision only grows, and its specs
    stay as written. *)
Definition forward_le (f f' : ForwardRow) : Prop :=
  (fw_id f', fw_node f', fw_name f', fw_protocol f', fw_created f') = (fw_id f, fw_node f, fw_name f, fw_protocol f, fw_created f) ∧ fw_revision f ≤ fw_revision f'.
Record forward_kept (id : string) (x x' : xdb) : Prop := {
  fk_row : ∀ f, forward_row x id = Some f → ∃ f', forward_row x' id = Some f' ∧ forward_le f f';
  fk_specs : ∀ v s, spec_row x id v = Some s → spec_row x' id v = Some s
}.
#[export] Instance forward_le_pre : PreOrder forward_le.
Proof. split; [by intros f|]. intros f g h [E1 L1] [E2 L2]. split; [congruence|lia]. Qed.
#[export] Instance forward_kept_pre id : PreOrder (forward_kept id).
Proof.
  split.
  - intros x. split; [|done]. intros f H. by exists f.
  - intros x y z [r1 s1] [r2 s2]. split; [|auto]. intros f H. destruct (r1 f H) as (g & H' & L1). destruct (r2 g H') as (h & H'' & L2).
    exists h. split; [done|]. by etrans.
Qed.

Lemma forward_same id x x' : (x_forwards x', x_specs x') = (x_forwards x, x_specs x) → forward_kept id x x'.
Proof. intros [= Hf Hs]. split; [|intros v s; unfold spec_row; by rewrite Hs]. intros f H. exists f. unfold forward_row in *. by rewrite Hf. Qed.
Lemma forward_update id x w a now : forward_kept id x (set_forwards x (sql_update w (λ f, fw_bump (a f) now f) (x_forwards x))).
Proof.
  split; [|done]. intros f H. unfold forward_row in *. cbn. rewrite sql_row_update, H; [|done]. cbn. eexists. split; [done|].
  destruct (w f); [|done]. split; [done|]. cbn. lia.
Qed.
Lemma forward_insert_kept id x f : forward_kept id x (set_forwards x (x_forwards x ++ [f])).
Proof. split; [|done]. intros g H. exists g. unfold forward_row in *. cbn. by rewrite sql_row_app, H. Qed.
Lemma spec_insert_kept id x s : forward_kept id x (set_specs x (x_specs x ++ [s])).
Proof. split; [intros f H; by exists f|]. intros v t H. unfold spec_row in *. cbn. by rewrite sql_row_app, H. Qed.
Lemma forward_delete_kept id i x : i ≠ id →
  forward_kept id x (set_runtime (set_activations (set_specs (set_forwards x (sql_delete (fw_at i) (x_forwards x)))
      (sql_delete (λ s, String.eqb (sp_forward s) i) (x_specs x))) (sql_delete (λ a, String.eqb (av_forward a) i) (x_activations x)))
    (sql_delete (λ r, String.eqb (rt_forward r) i) (x_runtime x))).
Proof.
  intros Hi. split.
  - intros f H. exists f. split; [|done]. unfold forward_row in *. cbn. rewrite sql_row_delete; [done|]. intros y _ Hy%String.eqb_eq. apply String.eqb_neq. congruence.
  - intros v s H. unfold spec_row in *. cbn. rewrite sql_row_delete; [done|]. intros y _ Hy%String.eqb_eq. unfold spec_at.
    by rewrite (proj2 (String.eqb_neq (sp_forward y) id)) by congruence.
Qed.

Ltac fw_leaf :=
  try match goal with |- forward_kept _ _ (if ?b then _ else _) => destruct b; [reflexivity|] end;
  first [ apply forward_same; reflexivity | apply forward_insert_kept | apply spec_insert_kept
        | match goal with |- forward_kept _ ?x _ =>
            first [ apply (forward_update _ x _ (λ _, Some _)) | apply (forward_update _ x _ fw_activation) ] end
        | by apply forward_delete_kept | idtac ].

Definition removes (id : string) (e : xevent) : Prop := match e with XCmd (XForwardGone i) => i = id | _ => False end.

Lemma xbody_forward `{!Crypto} `{!CtlJson} `{!ProbeJson} id c : ¬ removes id (XCmd c) → moves (forward_kept id) (xbody c).
Proof.
  intros Hc. destruct c; cbn [removes] in Hc; mvx fw_leaf.
  all: apply moves_off_ctl; intros; by apply forward_same.
Qed.
Lemma xrun_forward `{!Crypto} `{!CtlJson} `{!ProbeJson} id es s : Forall (λ e, ¬ removes id e) es → forward_kept id s.1 (xrun es s).1.
Proof.
  apply (xrun_ind_when (λ e, ¬ removes id e) (forward_kept id)); [intros c; by apply xbody_forward|]. intros cutoff limit cur x. by apply forward_same.
Qed.

(** The PRIMARY KEY. *)
Definition forwards_ok (x : xdb) : Prop := unique fw_id (x_forwards x).
Definition keyed_le (x x' : xdb) : Prop := forwards_ok x → forwards_ok x'.
#[export] Instance keyed_le_pre : PreOrder keyed_le.
Proof. unfold keyed_le. split; [by intros x|]. intros x y z. auto. Qed.
Lemma keyed_same x x' : x_forwards x' = x_forwards x → keyed_le x x'.
Proof. intros He. unfold keyed_le, forwards_ok. by rewrite He. Qed.
Lemma keyed_insert x f : sql_exists (fw_at (fw_id f)) (x_forwards x) = false → keyed_le x (set_forwards x (x_forwards x ++ [f])).
Proof.
  intros Hn Hu. apply unique_insert; [done|]. intros y Hy He. rewrite <- not_true_iff_false in Hn. apply Hn, sql_exists_true.
  exists y. split; [done|]. unfold fw_at. by rewrite He, String.eqb_refl.
Qed.
Ltac keyed_leaf :=
  try match goal with |- keyed_le _ (if ?b then _ else _) => destruct b; [reflexivity|] end;
  first [ apply keyed_same; reflexivity | by apply keyed_insert
        | intros Hu; unfold forwards_ok; cbn [x_forwards set_forwards set_specs set_activations set_runtime]; first [ by apply unique_update | by apply unique_delete ] | idtac ].
Lemma xbody_keyed `{!Crypto} `{!CtlJson} `{!ProbeJson} c : moves keyed_le (xbody c).
Proof. destruct c; mvx keyed_leaf. all: apply moves_off_ctl; intros; by apply keyed_same. Qed.
Lemma xrun_keyed `{!Crypto} `{!CtlJson} `{!ProbeJson} es s : forwards_ok s.1 → forwards_ok (xrun es s).1.
Proof. apply (xrun_ind keyed_le); [intros c; apply xbody_keyed|]. intros cutoff limit cur x. by apply keyed_same. Qed.

Lemma forward_row_in x id f : forwards_ok x → f ∈ x_forwards x → fw_at id f = true → forward_row x id = Some f.
Proof.
  intros Hu Hf Ha. apply (sql_row_unique fw_id); [done| |done]. unfold fw_at in *. apply String.eqb_eq in Ha.
  intros y. rewrite String.eqb_eq. by rewrite Ha.
Qed.

(** A compare-and-swap that hit one row. *)
Lemma forward_cas_effect a now id v x x' : forward_cas a now id v x = Ok (1%nat, x') →
  v < 2 ^ 63 ∧ x' = set_forwards x (sql_update (λ f, fw_at id f && (fw_revision f =? v)) (λ f, fw_bump (a f) now f) (x_forwards x)) ∧
  ∃ f, f ∈ x_forwards x ∧ fw_at id f = true ∧ fw_revision f = v.
Proof.
  intros H. unfold forward_cas in H. sql_inv H. unfold binds in *. split; [apply Z.ltb_lt, negb_false_iff; done|]. split; [done|].
  match goal with Hc : _ = 1%nat |- _ => destruct (sql_count_pos (λ f, fw_at id f && (fw_revision f =? v)) (x_forwards x)) as (f & Hf & [Ha Hv]%andb_true_iff); [lia|] end.
  exists f. split_and!; [done|done|by apply Z.eqb_eq].
Qed.

(** The inserts a transaction pairs. *)
Lemma spec_insert_effect now s x u x' : spec_insert now s x = Ok (u, x') →
  x' = set_specs x (x_specs x ++ [mkSpec (sp_id s) (sp_forward s) (sp_revision s) (sp_json s) now]) ∧
  spec_row x' (sp_forward s) (sp_revision s) = Some (mkSpec (sp_id s) (sp_forward s) (sp_revision s) (sp_json s) now) ∧
  sql_exists (fw_at (sp_forward s)) (x_forwards x) = true.
Proof.
  intros H. unfold spec_insert in H. sql_inv H. match goal with E : negb _ || _ = false |- _ => apply orb_false_iff in E as [Ek%negb_false_iff Ec] end.
  split; [done|]. split; [|done]. unfold spec_row. cbn. rewrite sql_row_app, sql_exists_row.
  - unfold sql_row, spec_at. cbn. by rewrite String.eqb_refl, Z.eqb_refl.
  - eapply sql_exists_weaken; [|exact Ec]. intros r Hr. unfold spec_at in Hr. cbn. by rewrite Hr, orb_true_r.
Qed.

Lemma forward_insert_effect e now f x u x' : forward_insert e now f x = Ok (u, x') →
  x' = set_forwards x (x_forwards x ++ [mkForward (fw_id f) (fw_node f) (fw_name f) (fw_protocol f) (Some (coalesce (fw_activation f))) (fw_revision f) now now]) ∧
  forward_row x (fw_id f) = None ∧ node_exists x (fw_node f) = true ∧
  forward_row x' (fw_id f) = Some (mkForward (fw_id f) (fw_node f) (fw_name f) (fw_protocol f) (Some (coalesce (fw_activation f))) (fw_revision f) now now).
Proof.
  intros H. unfold forward_insert in H. sql_inv H. assert (Hn : forward_row x (fw_id f) = None) by (by apply sql_exists_row).
  split; [done|]. split; [done|]. split; [by apply negb_false_iff|]. unfold forward_row in *. cbn. rewrite sql_row_app, Hn.
  unfold sql_row, fw_at. cbn. by rewrite String.eqb_refl.
Qed.

Section Outbox.
Context {crypto : Crypto}.
Lemma outbox_exec_effect now item x u x' : insertOutboxExec now item x = Ok (u, x') →
  ∃ r, x' = with_ctl x (insert_outbox (x_ctl x) r) ∧ outbox_row (x_ctl x') (ci_OperationID item) (ci_MessageType item) = Some r ∧
    ob_node r = ci_NodeID item ∧ ob_payload r = ci_SemanticPayload item ∧ ob_state r = "PENDING" ∧ ob_session r = None ∧
    ob_command r = Some (deterministicMessageID (ci_OperationID item) (ci_MessageType item)).
Proof.
  intros H. unfold insertOutboxExec in H. sql_inv H. eexists. split; [done|]. split; [|done]. unfold outbox_row. cbn. rewrite sql_row_app, sql_exists_row by done.
  unfold sql_row, ob_at. cbn. by rewrite !String.eqb_refl.
Qed.
End Outbox.

Section Desired.
Context {crypto : Crypto} {json : CtlJson} {pjson : ProbeJson}.

Lemma desired_effect now spec out x x1 :
  0 ≤ sp_revision spec < 2 ^ 64 → forwards_ok x → ApplyForwardDesired now spec out x = Ok (tt, x1) →
  ∃ f r, forward_row x (sp_forward spec) = Some f ∧ sp_revision spec = fw_revision f + 1 ∧
    forward_row x1 (sp_forward spec) = Some (fw_bump (Some (hex_of (ActivationID (sp_forward spec) (sp_revision spec)))) now f) ∧
    spec_row x1 (sp_forward spec) (sp_revision spec) = Some (mkSpec (sp_id spec) (sp_forward spec) (sp_revision spec) (sp_json spec) now) ∧
    outbox_row (x_ctl x1) (ci_OperationID out) (ci_MessageType out) = Some r ∧ ob_node r = ci_NodeID out ∧ ob_payload r = ci_SemanticPayload out ∧
    ob_state r = "PENDING".
Proof.
  intros Hv Hu H. unfold ApplyForwardDesired in H. sql_inv H.
  match goal with Hs : spec_insert _ _ _ = Ok (?a, _) |- _ => apply spec_insert_effect in Hs as (-> & Hs & _) end.
  match goal with E : negb (?n =? 1)%nat = false |- _ => apply negb_false_iff, Nat.eqb_eq in E; subst n end.
  match goal with Hc : forward_cas _ _ _ _ _ = Ok _ |- _ => apply forward_cas_effect in Hc as (Hb & -> & f & Hf & Ha & Hrev) end.
  apply outbox_exec_effect in H as (r & -> & Ho & H1 & H2 & H3 & _).
  exists f, r. assert (Hrow : forward_row x (sp_forward spec) = Some f) by by apply forward_row_in. split; [done|].
  assert (Hsucc : sp_revision spec = fw_revision f + 1).
  { destruct (Z.eq_dec (sp_revision spec) 0) as [Hz|]; [rewrite Hz in Hb; vm_compute in Hb; discriminate|].
    rewrite Z.mod_small in Hrev by lia. lia. }
  split; [done|]. split; [|by split_and!]. unfold forward_row in *. cbn [x_ctl with_ctl x_forwards set_forwards set_specs].
  rewrite sql_row_update by by intros. cbn [x_forwards set_specs]. rewrite Hrow. cbn. by rewrite Ha, Hrev, Z.eqb_refl.
Qed.

(** One desired state per revision.  A committed [ApplyForwardDesired] follows the
    Forward's revision by one and atomically records the spec, moves the Forward to that
    revision and its activation id, and queues the command; and whatever the store does
    afterwards short of removing the Forward, the spec stays as written, the Forward
    keeps its identity with no smaller revision, and no desired state of the same or an
    earlier revision is ever accepted again. *)
Theorem desired_single_winner (now now' : Z) (spec spec' : SpecRow) (out out' : ControlOutboxItem) (x x1 : xdb) (cur : controlInboxCleanupCursor) (es : list xevent) :
  let F := sp_forward spec in
  let x2 := (xrun es (x1, cur)).1 in
  0 ≤ sp_revision spec < 2 ^ 64 → 0 ≤ sp_revision spec' < 2 ^ 64 → forwards_ok x → ApplyForwardDesired now spec out x = Ok (tt, x1) →
  Forall (λ e, ¬ removes F e) es →
  (∃ f r, forward_row x F = Some f ∧ sp_revision spec = fw_revision f + 1 ∧
     forward_row x1 F = Some (fw_bump (Some (hex_of (ActivationID F (sp_revision spec)))) now f) ∧
     outbox_row (x_ctl x1) (ci_OperationID out) (ci_MessageType out) = Some r ∧ ob_node r = ci_NodeID out ∧ ob_payload r = ci_SemanticPayload out ∧
     ob_state r = "PENDING" ∧
     ∃ f2, forward_row x2 F = Some f2 ∧ forward_le f f2 ∧ sp_revision spec ≤ fw_revision f2) ∧
  spec_row x2 F (sp_revision spec) = Some (mkSpec (sp_id spec) F (sp_revision spec) (sp_json spec) now) ∧
  (sp_forward spec' = F → sp_revision spec' ≤ sp_revision spec → is_ok (ApplyForwardDesired now' spec' out' x2) = false).
Proof.
  intros F x2 Hv Hv' Hok H Hes. assert (Hok1 : forwards_ok x1) by exact (xbody_keyed (XDesired now spec out) x tt x1 H Hok).
  destruct (desired_effect now spec out x x1 Hv Hok H) as (f & r & Hf & Hr & Hf1 & Hs & Ho & H1 & H2 & H3). fold F in Hf, Hf1, Hs.
  destruct (xrun_forward F es (x1, cur) Hes) as [kr ks]. destruct (kr _ Hf1) as (f2 & Hf2 & [Hk Hle]). apply ks in Hs. fold x2 in Hf2, Hs.
  assert (Hrev2 : sp_revision spec ≤ fw_revision f2) by (cbn in Hle; lia).
  split; [|split; [done|]].
  - exists f, r. split_and!; try done. exists f2. split_and!; [done| |done]. split; [exact Hk|cbn in Hle; lia].
  - intros Hf' Hle'. destruct (ApplyForwardDesired now' spec' out' x2) as [[[] x3]|e] eqn:E; [|done]. exfalso.
    apply desired_effect in E as (f3 & _ & Hf3 & Hr3 & _); [|done|by apply xrun_keyed]. rewrite Hf' in Hf3. fold F in Hf3.
    assert (f3 = f2) by congruence. subst. lia.
Qed.
End Desired.

(** ** Idempotency keys *)

(** The clock of a command that may write idempotency keys. *)
Definition key_time (e : xevent) : option Z :=
  match e with XCmd (XKey ts _) | XCmd (XForwardBundle _ ts _ _ _ _) | XCmd (XNodeBundle _ ts _ _ _) => Some ts | _ => None end.
Definition before_expiry (r : IdemRow) (e : xevent) : Prop := ∀ ts, key_time e = Some ts → ts < ik_expires r.

Definition key_kept (r : IdemRow) (x x' : xdb) : Prop := key_row (ik_key r) x = Some r → key_row (ik_key r) x' = Some r.
#[export] Instance key_kept_pre r : PreOrder (key_kept r).
Proof. unfold key_kept. split; [by intros x|]. intros x y z. auto. Qed.
Lemma key_same r x x' : x_keys x' = x_keys x → key_kept r x x'.
Proof. intros He. unfold key_kept, key_row. by rewrite He. Qed.
Lemma key_insert_kept r x y : key_kept r x (set_keys x (x_keys x ++ [y])).
Proof. unfold key_kept, key_row. cbn. intros H. by rewrite sql_row_app, H. Qed.
(** Only an expired record is dropped. *)
Lemma key_drop_kept r x k e ts : ts < ik_expires r → key_row k x = Some e → (ts <? ik_expires e) = false →
  key_kept r x (set_keys x (sql_delete (ik_at k) (x_keys x))).
Proof.
  intros Ht He Hx H. apply Z.ltb_ge in Hx. assert (Hk : k ≠ ik_key r) by (intros ->; assert (e = r) by congruence; subst; lia).
  unfold key_row in *. cbn. rewrite sql_row_delete; [done|]. intros y _ Hy%String.eqb_eq. apply String.eqb_neq. congruence.
Qed.

Ltac key_leaf :=
  try match goal with |- key_kept _ _ (if ?b then _ else _) => destruct b; [reflexivity|] end;
  first [ apply key_same; reflexivity | apply key_insert_kept
        | eapply key_drop_kept; [eassumption|eassumption|assumption] | idtac ].

Lemma xbody_key `{!Crypto} `{!CtlJson} `{!ProbeJson} r c : before_expiry r (XCmd c) → moves (key_kept r) (xbody c).
Proof.
  intros Hc. destruct c; cbn [xbody]; unfold before_expiry in Hc; cbn [key_time] in Hc; try specialize (Hc _ eq_refl);
    unfold StoreIdempotency, CreateForwardBundle, CreateNodeBundle, key_drop; mvx key_leaf.
  all: apply moves_off_ctl; intros; by apply key_same.
Qed.
Lemma xrun_key `{!Crypto} `{!CtlJson} `{!ProbeJson} r es s : Forall (before_expiry r) es → key_kept r s.1 (xrun es s).1.
Proof.
  apply (xrun_ind_when (before_expiry r) (key_kept r)); [intros c; by apply xbody_key|]. intros cutoff limit cur x. by apply key_same.
Qed.

Section Bundle.
Context {crypto : Crypto} {json : CtlJson} {pjson : ProbeJson}.

(** What a fresh create leaves. *)
Record bundle_written (ts : Z) (f : ForwardRow) (spec : SpecRow) (out : ControlOutboxItem) (rec : IdemRow) (x1 : xdb) : Prop := {
  bw_forward : ∃ g, GetForward (fw_id f) x1 = Ok g ∧ fw_node g = fw_node f ∧ fw_name g = fw_name f ∧ fw_revision g = fw_revision f;
  bw_spec : spec_row x1 (sp_forward spec) (sp_revision spec) = Some (mkSpec (sp_id spec) (sp_forward spec) (sp_revision spec) (sp_json spec) ts);
  bw_outbox : ∃ o, outbox_row (x_ctl x1) (ci_OperationID out) (ci_MessageType out) = Some o ∧ ob_node o = ci_NodeID out ∧
    ob_payload o = ci_SemanticPayload out ∧ ob_state o = "PENDING";
  bw_key : key_row (ik_key rec) x1 = Some (ik_stamp ts rec)
}.

Lemma key_insert_effect rec x u x1 : key_insert rec x = Ok (u, x1) → x1 = set_keys x (x_keys x ++ [rec]) ∧ key_row (ik_key rec) x1 = Some rec.
Proof.
  intros H. unfold key_insert in H. sql_inv H. split; [done|]. unfold key_row. cbn. rewrite sql_row_app, sql_exists_row by done.
  unfold sql_row, ik_at. cbn. by rewrite String.eqb_refl.
Qed.
Lemma bundle_write ts f spec out rec y (a : IdemRow * bool) x1 :
  (sql! _ := forward_insert XForwardName ts f in sql! _ := spec_insert ts spec in sql! _ := insertOutboxExec ts out in
   sql! _ := key_insert (ik_stamp ts rec) in sql_ret (ik_stamp ts rec, false)) y = Ok (a, x1) →
  a = (ik_stamp ts rec, false) ∧ forward_row y (fw_id f) = None ∧ bundle_written ts f spec out rec x1.
Proof.
  intros H. sql_inv H. repeat match goal with u : () |- _ => destruct u end.
  match goal with E : forward_insert _ _ _ _ = _ |- _ => apply forward_insert_effect in E as (-> & Hn & _ & Hf) end.
  match goal with E : spec_insert _ _ _ = _ |- _ => apply spec_insert_effect in E as (-> & Hs & _) end.
  match goal with E : insertOutboxExec _ _ _ = _ |- _ => apply outbox_exec_effect in E as (o & -> & Ho) end.
  match goal with E : key_insert _ _ = _ |- _ => apply key_insert_effect in E as (-> & Hk) end.
  split; [done|]. split; [done|]. split.
  - unfold GetForward. unfold forward_row in Hf. cbn in Hf |- *. rewrite Hf. by eexists.
  - exact Hs.
  - exists o. destruct Ho as (H1 & H2 & H3 & H4 & _). by split_and!.
  - exact Hk.
Qed.

(** Creating a Forward is idempotent.  A fresh create commits the Forward, its first
    spec, its command and the key's record together; and for as long as the record
    lives, whatever the store does meanwhile, every create with that key that passes the
    argument, capacity and delivery checks changes nothing: the same route, principal
    and request get the stored response back, any other request is refused. *)
Theorem forward_create_idempotent (ts ts' : Z) (f f' : ForwardRow) (spec spec' : SpecRow) (out out' : ControlOutboxItem) (rec rec' r : IdemRow)
    (x x1 : xdb) (cur : controlInboxCleanupCursor) (es : list xevent) :
  let x2 := (xrun es (x1, cur)).1 in
  CreateForwardBundle true ts f spec out rec x = Ok ((r, false), x1) → Forall (before_expiry r) es → ts' < ik_expires r → ik_key rec' = ik_key rec →
  fw_id f' ≠ "" → sp_forward spec' = fw_id f' → ci_NodeID out' = fw_node f' →
  EnforceCleanupOnlyEnqueue (x_ctl x2) (ci_NodeID out') (ci_MessageType out') = Ok tt →
  (r = ik_stamp ts rec ∧ forward_row x (fw_id f) = None ∧ sp_forward spec = fw_id f ∧ ci_NodeID out = fw_node f ∧ bundle_written ts f spec out rec x1) ∧
  GetIdempotency (ik_key rec) x2 = Ok r ∧
  CreateForwardBundle true ts' f' spec' out' rec' x2 = if ik_same r rec' then Ok ((r, true), x2) else Err XIdempotencyConflict.
Proof.
  intros x2 H Hes Ht Hkey Hid Hsp Hnode Henf.
  assert (Hw : r = ik_stamp ts rec ∧ ik_key rec ≠ "" ∧ sp_forward spec = fw_id f ∧ ci_NodeID out = fw_node f ∧ forward_row x (fw_id f) = None ∧
    bundle_written ts f spec out rec x1).
  { unfold CreateForwardBundle in H. cbn [negb] in H. destruct (String.eqb_spec (ik_key rec) "") as [|Hk]; [done|].
    destruct (_ || _) eqn:Eg in H; [done|]. apply orb_false_iff in Eg as [[_ Es%negb_false_iff%String.eqb_eq]%orb_false_iff Eo%negb_false_iff%String.eqb_eq].
    apply sql_bind_Ok in H as (u & y & Hc & H). unfold of_read in Hc. apply sql_check_Ok in Hc as [_ <-]. cbv zeta in H.
    unfold sql_bind at 1, sql_read in H. destruct (key_row (ik_key (ik_stamp ts rec)) x) as [e|].
    - destruct (ts <? ik_expires e); [by destruct (negb (ik_same e (ik_stamp ts rec)))|].
      apply sql_bind_Ok in H as (u1 & y1 & E1 & H). apply sql_bind_Ok in H as (u2 & y2 & E2 & H).
      unfold key_drop, audit, sql_write in E1, E2. simplify_eq. apply bundle_write in H as ([= ->] & Hn & Hb). by split_and!.
    - apply bundle_write in H as ([= ->] & Hn & Hb). by split_and!. }
  destruct Hw as (-> & Hk & Hs & Ho & Hn & Hb). set (r := ik_stamp ts rec) in *.
  assert (Hrow : key_row (ik_key rec) x2 = Some r) by apply (xrun_key r es (x1, cur) Hes (bw_key _ _ _ _ _ _ Hb)).
  split; [by split_and!|]. split; [unfold GetIdempotency; by rewrite Hrow|].
  unfold CreateForwardBundle. rewrite Hkey. apply String.eqb_neq in Hk, Hid. rewrite Hk, Hid, Hsp, Hnode, !String.eqb_refl. cbn [negb orb].
  unfold sql_bind, of_read, sql_check, sql_read. rewrite <- Hnode, Henf. cbn [ik_key ik_stamp]. rewrite Hkey, Hrow, (proj2 (Z.ltb_lt _ _) Ht).
  replace (ik_same r (ik_stamp ts' rec')) with (ik_same r rec') by reflexivity. by destruct (ik_same r rec').
Qed.
End Bundle.

(** * Results that complete a Forward's deletion

    What [CompleteForwardDeletionMessage] and [CompleteForwardDeletionResult] accept, what
    they write, and that a repeated result changes nothing more. *)

Definition deletion_row (x : xdb) (op : string) : option DeletionRow := sql_row (dl_at op) (t_deletions (x_ctl x)).

(** The disposition of a result's inbox row. *)
Lemma dispose_effect now m r x u x' :
  db_ok (x_ctl x) → inbox_row (x_ctl x) m = Some r → dispose_result now m (ib_state r) x = Ok (u, x') →
  ∃ r', inbox_row (x_ctl x') m = Some r' ∧ ib_state r' = ControlInboxProcessed ∧
    (ib_node r', ib_type r', ib_payload r', ib_operation r') = (ib_node r, ib_type r, ib_payload r, ib_operation r) ∧
    x' = with_ctl x (set_inbox (x_ctl x) (t_inbox (x_ctl x'))) ∧ (∀ i, i ≠ m → inbox_row (x_ctl x') i = inbox_row (x_ctl x) i).
Proof.
  intros Hok Hr H. unfold dispose_result in H. sql_inv H.
  - exists r. split_and!; [done|by apply String.eqb_eq|done| |done]. by destruct x' as [[]].
  - assert (Hw : ib_at m r = true ∧ r ∈ t_inbox (x_ctl x)) by (by apply sql_row_Some in Hr as [? ?]).
    destruct Hw as [Hm Hin]. destruct (sql_count_pos (λ r, ib_at m r && received r) (t_inbox (x_ctl x))) as (y & Hy & [Hmy Hry]%andb_true_iff).
    { match goal with E : negb (_ =? 1)%nat = false |- _ => apply negb_false_iff, Nat.eqb_eq in E; rewrite E; done end. }
    assert (y = r) as ->.
    { apply (unique_inj ib_message (t_inbox (x_ctl x))); [apply Hok|done|done|]. unfold ib_at in *. apply String.eqb_eq in Hm, Hmy. congruence. }
    exists (ib_dispose ControlInboxProcessed now r). split_and!; [|done|done|done|].
    + unfold inbox_row in *. cbn. rewrite sql_row_update, Hr; [|done]. cbn. by rewrite Hm, Hry.
    + intros i Hi. unfold inbox_row. cbn. rewrite sql_row_update by done. destruct (sql_row (ib_at i) _) as [z|] eqn:Ez; [|done]. cbn.
      apply sql_row_Some in Ez as [_ Ez]. unfold ib_at in *. apply String.eqb_eq in Ez. by rewrite (proj2 (String.eqb_neq (ib_message z) m)) by congruence.
Qed.

Section Results.
Context {crypto : Crypto} {json : CtlJson} {pjson : ProbeJson}.

(** What a completing result proves: the message is in the inbox, it correlates to a
    deletion operation, it came from the node of that operation's Forward, and its
    payload names both. *)
Record completes (m : string) (allow : bool) (ed ef : string) (x : xdb) (r : InboxRow) (op : string) (o : DeletionRow) (f : ForwardRow) : Prop := {
  ce_inbox : inbox_row (x_ctl x) m = Some r;
  ce_type : ib_type r = "operation_complete";
  ce_resolved : resolve_deletion m allow r (x_ctl x) = Ok op;
  ce_operation : deletion_row x op = Some o;
  ce_forward : forward_row x (dl_forward o) = Some f;
  ce_node : ib_node r = fw_node f;
  ce_payload : ∃ p, strict_deletion (ib_payload r) = Some p ∧ dp_Deleted p = true ∧ dp_DeletionOperationID p = op ∧ dp_ForwardID p = dl_forward o;
  ce_expected : (ed = "" ∨ ed = op) ∧ (ef = "" ∨ ef = dl_forward o);
  ce_status : dl_status o = "PENDING" ∨ dl_status o = "COMPLETED"
}.

Lemma expected_ok a b : negb (String.eqb a "") && negb (String.eqb a b) = false → a = "" ∨ a = b.
Proof. intros [H%negb_false_iff%String.eqb_eq | H%negb_false_iff%String.eqb_eq]%andb_false_iff; auto. Qed.
Lemma expected_iff a b : a = "" ∨ a = b → negb (String.eqb a "") && negb (String.eqb a b) = false.
Proof. intros [-> | ->]; [done|]. by rewrite String.eqb_refl, andb_false_r. Qed.

Lemma payload_ok payload op fwd : check_deletion_payload payload op fwd = Ok tt ↔
  ∃ p, strict_deletion payload = Some p ∧ dp_Deleted p = true ∧ dp_DeletionOperationID p = op ∧ dp_ForwardID p = fwd ∧ op ≠ "" ∧ fwd ≠ "".
Proof.
  unfold check_deletion_payload. split.
  - intros H. go_inv H. bool_prop. eexists. split; [done|]. str_eqs. split_and!; try done; congruence.
  - intros (p & -> & -> & <- & <- & Ho%String.eqb_neq & Hf%String.eqb_neq). cbn. by rewrite Ho, Hf, !String.eqb_refl.
Qed.

Definition finish_deletion (now : Z) (op : string) (o : DeletionRow) : xt unit :=
  if String.eqb (dl_status o) "PENDING" then
    let w y := dl_at op y && String.eqb (dl_forward y) (dl_forward o) && String.eqb (dl_status y) "PENDING" in
    sql! n := sql_read (λ x, sql_count w (t_deletions (x_ctl x))) in
    sql_fail_if negb (n =? 1)%nat with XStore CsCASConflict ;;
    sql_write (λ x, with_ctl x (set_deletions (x_ctl x) (sql_update w (dl_complete now) (t_deletions (x_ctl x)))))
  else sql_ret tt.

Lemma complete_inv now m allow ed ef x x' : completeForwardDeletionMessage now m allow ed ef x = Ok (tt, x') →
  m ≠ "" ∧ ∃ r op o f, completes m allow ed ef x r op o f ∧ op ≠ "" ∧ dl_forward o ≠ "".
Proof.
  intros H. unfold completeForwardDeletionMessage in H. destruct (String.eqb_spec m "") as [|Hm]; [done|]. split; [done|].
  unfold sql_bind at 1, sql_read in H. destruct (sql_row (ib_at m) _) as [r|] eqn:Er; [|done].
  destruct (String.eqb_spec (ib_type r) "operation_complete") as [Et|]; [|done]. cbn [negb] in H.
  unfold sql_bind at 1 in H. destruct (resolve_deletion m allow r (x_ctl x)) as [op|] eqn:Eo; [|done].
  unfold sql_bind at 1 in H. destruct (sql_row (dl_at op) _) as [o|] eqn:Ed; [|done].
  destruct (_ && _) eqn:E1 in H; [done|]. destruct (_ && _) eqn:E2 in H; [done|]. apply expected_ok in E1, E2.
  destruct (check_deletion_payload (ib_payload r) op (dl_forward o)) as [[]|] eqn:Ep; [|done].
  apply payload_ok in Ep as (p & Hp & H1 & H2 & H3 & H4 & H5).
  unfold sql_bind at 1 in H. destruct (sql_row (fw_at (dl_forward o)) _) as [f|] eqn:Ef; [|done].
  destruct (String.eqb_spec (ib_node r) (fw_node f)) as [En|]; [|done]. cbn [negb] in H. destruct (_ && _) eqn:E3 in H; [done|].
  exists r, op, o, f. split; [|done]. split; try done.
  - by exists p.
  - apply andb_false_iff in E3 as [E3%negb_false_iff%String.eqb_eq | E3%negb_false_iff%String.eqb_eq]; auto.
Qed.

Lemma complete_eval now m allow ed ef x r op o f : completes m allow ed ef x r op o f → m ≠ "" → op ≠ "" → dl_forward o ≠ "" →
  completeForwardDeletionMessage now m allow ed ef x = sql_bind (finish_deletion now op o) (λ _, dispose_result now m (ib_state r)) x.
Proof.
  intros [Hr Ht Ho Hd Hf Hn (p & Hp & H1 & H2 & H3) [He1 He2] Hs] Hm Hop Hfw. unfold completeForwardDeletionMessage.
  apply String.eqb_neq in Hm. rewrite Hm. unfold sql_bind at 1, sql_read at 1. unfold inbox_row in Hr. rewrite Hr, Ht. cbn [negb String.eqb Ascii.eqb Bool.eqb].
  unfold sql_bind at 1, sql_read at 1. rewrite Ho. unfold sql_bind at 1, sql_read at 1. unfold deletion_row in Hd. rewrite Hd.
  rewrite !expected_iff by done. rewrite (proj2 (payload_ok (ib_payload r) op (dl_forward o))) by (exists p; by split_and!).
  unfold sql_bind at 1, sql_read at 1. unfold forward_row in Hf. rewrite Hf, Hn, String.eqb_refl. cbn [negb].
  replace (_ && _) with false by (by destruct Hs as [-> | ->]). reflexivity.
Qed.

Lemma finish_effect now op o x u x' : deletion_row x op = Some o → dl_status o = "PENDING" ∨ dl_status o = "COMPLETED" →
  finish_deletion now op o x = Ok (u, x') →
  x' = with_ctl x (set_deletions (x_ctl x) (t_deletions (x_ctl x'))) ∧
  (∃ o', deletion_row x' op = Some o' ∧ dl_status o' = "COMPLETED" ∧ (dl_forward o', dl_revision o', dl_created o') = (dl_forward o, dl_revision o, dl_created o)) ∧
  (∀ i, i ≠ op → deletion_row x' i = deletion_row x i).
Proof.
  intros Ho Hs H. unfold finish_deletion in H. destruct (String.eqb_spec (dl_status o) "PENDING") as [Ep|Ep].
  - sql_inv H. split; [done|]. unfold deletion_row in *. cbn. split.
    + rewrite sql_row_update, Ho; [|done]. cbn. apply sql_row_Some in Ho as [_ Ho]. rewrite Ho, Ep, String.eqb_refl. by eexists.
    + intros i Hi. rewrite sql_row_update by done. destruct (sql_row (dl_at i) _) as [z|] eqn:Ez; [|done]. cbn.
      apply sql_row_Some in Ez as [_ Ez%String.eqb_eq]. unfold dl_at. by rewrite (proj2 (String.eqb_neq (dl_id z) op)) by congruence.
  - injection H as _ <-. split; [by destruct x as [[]]|]. split; [|done]. exists o. split_and!; [done| |done]. by destruct Hs.
Qed.

(** A Forward's deletion completes only on its node's own word, once.  A committed
    result message is one the inbox holds, correlating to a durable deletion operation,
    sent by the node of that operation's Forward and naming both in its payload; it
    completes that operation and marks that message processed, touching no other
    operation, message, command or Forward; and the same result delivered again succeeds
    and changes nothing. *)
Theorem deletion_result_sound (now now' : Z) (m : string) (allow : bool) (ed ef : string) (x x' : xdb) :
  db_ok (x_ctl x) → completeForwardDeletionMessage now m allow ed ef x = Ok (tt, x') →
  ∃ r op o f, completes m allow ed ef x r op o f ∧
    (∃ o', deletion_row x' op = Some o' ∧ dl_status o' = "COMPLETED" ∧ (dl_forward o', dl_revision o', dl_created o') = (dl_forward o, dl_revision o, dl_created o)) ∧
    (∃ r', inbox_row (x_ctl x') m = Some r' ∧ ib_state r' = ControlInboxProcessed ∧ ib_payload r' = ib_payload r) ∧
    (∀ i, i ≠ op → deletion_row x' i = deletion_row x i) ∧ (∀ i, i ≠ m → inbox_row (x_ctl x') i = inbox_row (x_ctl x) i) ∧
    x' = with_ctl x (set_inbox (set_deletions (x_ctl x) (t_deletions (x_ctl x'))) (t_inbox (x_ctl x'))) ∧
    completeForwardDeletionMessage now' m allow ed ef x' = Ok (tt, x').
Proof.
  intros Hok H. destruct (complete_inv _ _ _ _ _ _ _ H) as (Hm & r & op & o & f & Hc & Hop & Hfw). rewrite (complete_eval _ _ _ _ _ _ _ _ _ _ Hc Hm Hop Hfw) in H.
  apply sql_bind_Ok in H as (u & y & Hf & H). apply finish_effect in Hf as (Hy & (o' & Ho' & Hst & Hkeep) & Hoth); [|apply Hc..].
  assert (Hry : inbox_row (x_ctl y) m = Some r) by (rewrite Hy; apply Hc). assert (Hoky : db_ok (x_ctl y)) by (rewrite Hy; by destruct Hok).
  apply dispose_effect in H as (r' & Hr' & Hrs & Hrk & Hx & Hio); [|done|done]. exists r, op, o, f. split; [done|].
  assert (Hdel : ∀ i, deletion_row x' i = deletion_row y i) by (intros i; by rewrite Hx).
  assert (Hx' : x' = with_ctl x (set_inbox (set_deletions (x_ctl x) (t_deletions (x_ctl x'))) (t_inbox (x_ctl x')))).
  { assert (Hd : t_deletions (x_ctl x') = t_deletions (x_ctl y)) by by rewrite Hx.
    rewrite Hd. etrans; [exact Hx|]. generalize (t_inbox (x_ctl x')). intros t. rewrite Hy. reflexivity. }
  injection Hrk as K1 K2 K3 K4. split; [exists o'; by rewrite Hdel|]. split; [by exists r'|]. split; [intros i Hi; rewrite Hdel; by apply Hoth|].
  split; [intros i Hi; rewrite Hio by done; by rewrite Hy|]. split; [done|].
  injection Hkeep as Hfwd _ _. assert (Hc' : completes m allow ed ef x' r' op o' f).
  { destruct Hc as [Hr Ht Ho Hd Hf Hn Hp He Hs]. split; try done.
    - congruence.
    - rewrite <- Ho. unfold resolve_deletion. rewrite Hx', K1. cbn. by rewrite K4.
    - by rewrite Hdel.
    - rewrite Hfwd, Hx'. exact Hf.
    - congruence.
    - by rewrite K3, Hfwd.
    - by rewrite Hfwd.
    - by right. }
  rewrite (complete_eval _ _ _ _ _ _ _ _ _ _ Hc') by congruence. unfold finish_deletion, dispose_result. rewrite Hst, Hrs. reflexivity.
Qed.
End Results.
