(* ===== verification/ProbeProps.v ===== *)
(** * What a verified probe is worth

    The life of an operation along every execution, the evidence behind
    OPEN_FROM_VANTAGE, the delivery decision, and the generation fence of the mirror. *)

From Stdlib Require Import ZArith Lia Strings.Byte.
From stdpp Require Import base tactics list sets strings option relations.
From S2P Require Import Prelude GoStd Frame Domain Probe Sql Control ControlProofs ControlCleanup CtlDb EnrollStore CtlLifecycle Forwards ProbeStore CtlRun ProbeLife ForwardProps.

Open Scope list_scope.
Open Scope Z_scope.

(** ** The run *)

Section Life.
Context {crypto : Crypto} {json : CtlJson} {pjson : ProbeJson}.

Definition event_opens (e : xevent) (id : string) : Prop := match e with XCmd c => opens_by c id | XCleanup _ _ => False end.

Lemma xrun_probe opens es s : Forall (λ e, ∀ id, event_opens e id → opens id = true) es → xprobe_le opens s.1 (xrun es s).1.
Proof.
  apply (xrun_ind_when (λ e, ∀ id, event_opens e id → opens id = true) (xprobe_le opens)); [intros c; apply xbody_probe|].
  intros cutoff limit cur x. destruct (cleanup_deletes cutoff limit cur (x_ctl x)) as [w ->]. by apply probe_same.
Qed.
Lemma xrun_probes_ok es s : probes_ok (x_ctl s.1) → probes_ok (x_ctl (xrun es s).1).
Proof. intros Hok. apply (xrun_probe (λ _, true)); [|done]. by apply list.Forall_true. Qed.

(** C5: the life of a probe operation refines its automaton, whatever the store does.
    Along every execution, each operation is created without evidence or decision, moves
    through PENDING, ARMED, IN_FLIGHT (back to ARMED only for recovery) to one terminal
    status that it never leaves, keeps what it was armed with - node, Forward,
    activation, revision, provider, endpoint, frame, deadline -, gains each artifact at
    most once and only before it is terminal, never has one rewritten, gets one delivery
    decision after it is terminal, which changes only from ENQUEUED to DELIVERED or
    EXPIRED, and disappears only when terminal. *)
Theorem probe_lifecycle_refinement (es : list xevent) (s : xstate) :
  probes_ok (x_ctl s.1) →
  probes_ok (x_ctl (xrun es s).1) ∧
  ∀ id, rtc (probe_edge true) (probe_view (x_ctl s.1) id) (probe_view (x_ctl (xrun es s).1) id).
Proof. intros Hok. apply (xrun_probe (λ _, true)); [|done]. by apply list.Forall_true. Qed.

(** ** What the automaton keeps *)

Definition opened (d : db) (id : string) : Prop := ps_status <$> probe_view d id = Some "OPEN_FROM_VANTAGE"%string.

Lemma closed_stays v v' : rtc (probe_edge false) v v' → ps_status <$> v ≠ Some "OPEN_FROM_VANTAGE"%string → ps_status <$> v' ≠ Some "OPEN_FROM_VANTAGE"%string.
Proof.
  induction 1 as [v|v w v' He _ IH]; [done|]. intros Hv. apply IH. inversion He as [st b Ho|st st' b ev dec Hs|b ev dec Ho|st b ev i p dec Ht|st b ev ev' dec Ht|st b ev dis Ht|st b ev dis Hd|st b ev dec Ht]; subst;
    cbn [fmap option_fmap option_map ps_status] in *; try done.
  - intros [= ->]. by destruct Ho.
  - intros [= ->]. inversion Hs; subst; done.
Qed.

(** The event that opened an operation. *)
Lemma opened_by id es : ∀ s, probes_ok (x_ctl s.1) → ¬ opened (x_ctl s.1) id → opened (x_ctl (xrun es s).1) id →
  ∃ es1 e es2, es = es1 ++ e :: es2 ∧ event_opens e id ∧ let y := xrun es1 s in
    probes_ok (x_ctl y.1) ∧ ¬ opened (x_ctl y.1) id ∧ opened (x_ctl (xstep e y).1) id.
Proof.
  induction es as [|e es IH]; intros s Hok Hs Hf; [done|].
  assert (Hok' : probes_ok (x_ctl (xstep e s).1)) by apply (xrun_probes_ok [e] s Hok).
  destruct (decide (ps_status <$> probe_view (x_ctl (xstep e s).1) id = Some "OPEN_FROM_VANTAGE"%string)) as [Ho|Ho].
  - exists [], e, es. split; [done|]. split; [|done].
    assert (Hdec : event_opens e id ∨ ¬ event_opens e id).
    { destruct e as [c|? ?]; [|cbn; tauto]. destruct c; cbn [event_opens opens_by]; try tauto;
        match goal with |- ?P ∨ _ => destruct (decide P); tauto end. }
    destruct Hdec as [|Hn]; [done|]. exfalso. destruct (xrun_probe (λ i, negb (String.eqb i id)) [e] s) as [_ Hv]; [| |].
    + repeat constructor. intros i Hi. apply negb_true_iff, String.eqb_neq. by intros ->.
    + done.
    + specialize (Hv id). rewrite String.eqb_refl in Hv. exact (closed_stays _ _ Hv Hs Ho).
  - destruct (IH (xstep e s) Hok' Ho Hf) as (es1 & e' & es2 & -> & He & Hy). by exists (e :: es1), e', es2.
Qed.
End Life.

(** ** The evidence of a join *)

Section Join.
Context {crypto : Crypto} {json : CtlJson} {pjson : ProbeJson} {laws : ProbeJsonLaws}.

(** The operation and its provider, bound to the current generation of the Forward. *)
Record join_bound (now : Z) (op : ProbeOpRow) (provider : ProviderRow) (f : ForwardRow) (x : xdb) : Prop := {
  jb_op : probe_row x (po_id op) = Some op;
  jb_flight : po_status op = "IN_FLIGHT"%string;
  jb_deadline : now < po_expires op;
  jb_provider : sql_row (pv_at (po_provider op)) (x_providers x) = Some provider;
  jb_vantage : pv_enabled provider = true ∧ pv_independent provider = true;
  jb_forward : sql_row (fw_at (po_forward op)) (x_forwards x) = Some f;
  jb_generation : fw_node f = po_node op ∧ fw_activation f = Some (po_activation op) ∧ po_activation op ≠ ""%string ∧ fw_revision f = po_revision op ∧ po_revision op ≠ 0;
  jb_undeleted : ∀ o, o ∈ t_deletions (x_ctl x) → dl_forward o = po_forward op → dl_status o ≠ "PENDING"%string
}.

Lemma join_operation_sound now id expected forward activation x op provider :
  join_operation now id expected forward activation x = Ok (op, provider) → expected = "IN_FLIGHT"%string →
  po_id op = id ∧ po_forward op = forward ∧ po_activation op = activation ∧ ∃ f, join_bound now op provider f x.
Proof.
  unfold join_operation. intros H He. go_inv H. bool_prop. pose proof (sql_row_Some _ _ _ E) as [_ Hid%po_at_iff].
  subst id forward activation. split_and!; try done. exists f. split; try done.
  - destruct (fw_activation f) as [a|]; cbn in *; [|done]. split_and!; congruence.
  - intros o Ho Hf Hd. match goal with Hi : deletionIntent _ _ = false |- _ => rewrite <- not_true_iff_false in Hi; apply Hi, sql_exists_true end.
    exists o. split; [done|]. by rewrite Hd, Hf, String.eqb_refl.
Qed.

(** The recorded artifacts, one of each kind, and what they prove. *)
Record join_proved (now : Z) (nodeKey : bytes) (op : ProbeOpRow) (provider : ProviderRow) (x : xdb) (j : ProbeJoin) : Prop := {
  jp_unique : ∀ kind, kind ∈ evidence_kinds → sql_count (rr_at (po_id op) kind) (t_results (x_ctl x)) = 1%nat;
  jp_result : ∃ raw, evidence x (po_id op) "provider" = Some raw ∧ decodeStoredProviderResult raw = Some (jn_Result j) ∧
    stored_verify (jn_Result j) (pv_key provider) = true ∧ sr_ProbeID (jn_Result j) = po_id op;
  jp_window : wrap_i64 (po_created op - 300) ≤ sr_TimestampUnix (jn_Result j) ≤ wrap_i64 (po_expires op + 300) ∧ sr_TimestampUnix (jn_Result j) ≤ wrap_i64 (now + 300);
  jp_arm : ∃ raw, hex_decode (po_arm op) = Some raw ∧ ParseProbeArm raw = Ok (jn_Arm j);
  jp_armed : po_endpoint op = pa_Endpoint (jn_Arm j) ∧ po_ttl op = pa_TTLMS (jn_Arm j) ∧ hex_decode (po_opaque op) = Some (pa_ExpiryOpaque (jn_Arm j)) ∧
    po_expires op ≤ wrap_i64 (po_created op + (pa_TTLMS (jn_Arm j) + 999) mod 2 ^ 64 / 1000);
  jp_frame : ∃ text raw, evidence x (po_id op) "wan1" = Some text ∧ hex_decode text = Some raw ∧ ParseProviderFrame raw = Ok (jn_Frame j) ∧
    hex_decode (sr_WAN1Frame (jn_Result j)) = Some raw;
  jp_ack : ∃ text raw, evidence x (po_id op) "ack1" = Some text ∧ hex_decode text = Some raw ∧ ParseProbeACK raw nodeKey = Ok (jn_ACK j) ∧
    hex_decode (sr_ACK1Frame (jn_Result j)) = Some raw;
  jp_receipt : ∃ text raw, evidence x (po_id op) "rct1" = Some text ∧ hex_decode text = Some raw ∧ ParseProbeReceipt raw nodeKey = Ok (jn_Receipt j);
  jp_key : ∃ key, hex_decode (pv_key provider) = Some key ∧ Verify key (provider_SigningBytes (jn_Frame j)) (pf_Signature (jn_Frame j)) = true ∧
    (pa_ProviderPublicKey (jn_Arm j) = key → VerifyProbeJoin (jn_Arm j) (jn_Frame j) (jn_ACK j) (jn_Receipt j) nodeKey = true);
  jp_challenge : hex_decode (po_challenge op) = Some (sha256 (pf_Challenge (jn_Frame j))) ∧ hex_decode (sr_ChallengeHash (jn_Result j)) = Some (sha256 (pf_Challenge (jn_Frame j)))
}.

Lemma artifact_one x id kind payload : artifact x id kind = Ok payload → sql_count (rr_at id kind) (t_results (x_ctl x)) = 1%nat ∧ evidence x id kind = Some payload.
Proof. unfold artifact. intros H. go_inv H. split; [|done]. by apply Nat.eqb_eq, negb_false_iff. Qed.
Lemma decoded_Ok s b : decoded s = Ok b → hex_decode s = Some b.
Proof. unfold decoded. destruct (hex_decode s); [|done]. by intros [= ->]. Qed.
Lemma parsed_Ok {A} (r : result ProbeError A) a : parsed r = Ok a → r = Ok a.
Proof. unfold parsed. destruct r; [|done]. cbn. by intros [= ->]. Qed.

Lemma parsed_valid raw arm : ParseProbeArm raw = Ok arm → arm_Validate arm = Ok tt.
Proof. unfold ParseProbeArm. intros H. go_inv H. match goal with Hv : arm_Validate _ = Ok ?u |- _ => destruct u; exact Hv end. Qed.

Lemma verify_join arm frame ack receipt nodeKey : arm_Validate arm = Ok tt →
  pf_ArmDigest frame = arm_Digest arm → ak_ArmDigest ack = arm_Digest arm → rc_ArmDigest receipt = arm_Digest arm →
  (pf_ProbeID frame, pf_ProviderID frame, pf_Activation frame, pf_Endpoint frame, pf_ExpiryOpaque frame)
    = (pa_ProbeID arm, pa_ProviderID arm, pa_Activation arm, pa_Endpoint arm, pa_ExpiryOpaque arm) →
  rc_ProviderID receipt = pa_ProviderID arm → Verify (arm_ProviderKey arm) (provider_SigningBytes frame) (pf_Signature frame) = true →
  ak_ChallengeHash ack = provider_ChallengeHash frame → rc_ChallengeHash receipt = provider_ChallengeHash frame →
  Verify nodeKey (ack_SigningBytes ack) (ak_Signature ack) = true → Verify nodeKey (receipt_SigningBytes receipt) (rc_Signature receipt) = true →
  VerifyProbeJoin arm frame ack receipt nodeKey = true.
Proof.
  intros H1 H2 H3 H4 [= H5 H6 H7 H8 H9] H10 H11 H12 H13 H14 H15. unfold VerifyProbeJoin, bytes_eqb.
  rewrite H1, H2, H3, H4, H5, H6, H7, H8, H9, H10, H11, H12, H13, H14, H15. rewrite !bool_decide_eq_true_2, String.eqb_refl by done. done.
Qed.

Lemma join_evidence_sound now nodeKey op provider x j : join_evidence now nodeKey op provider x = Ok j → join_proved now nodeKey op provider x j.
Proof.
  unfold join_evidence. intros Hj. go_inv Hj. bool_prop.
  repeat match goal with
  | Ha : artifact _ _ _ = Ok _ |- _ => let Hn := fresh "Hone" in apply artifact_one in Ha as [Hn Ha]
  | Hd : decoded _ = Ok _ |- _ => apply decoded_Ok in Hd
  | Hd : parsed _ = Ok _ |- _ => apply parsed_Ok in Hd
  | Hf : EqualFold _ _ = true |- _ => apply fold_hex in Hf
  end.
  match goal with Ha : ParseProbeACK _ _ = Ok _ |- _ => pose proof (proj1 (ParseProbeACK_iff _ _ _) Ha) as (_ & _ & _ & Hva) end.
  match goal with Ha : ParseProbeReceipt _ _ = Ok _ |- _ => pose proof (proj1 (ParseProbeReceipt_iff _ _ _) Ha) as (_ & _ & _ & _ & Hvr) end.
  split; cbn [jn_Arm jn_Frame jn_ACK jn_Receipt jn_Result].
  - intros kind Hk. unfold evidence_kinds in Hk. rewrite !elem_of_cons in Hk. by destruct Hk as [->|[->|[->|[->|?%elem_of_nil]]]].
  - eexists. by split_and!.
  - by split_and!.
  - eexists. by split.
  - split_and!; try done. rewrite <- hex_decode_of. congruence.
  - eexists _, _. split_and!; try eassumption. congruence.
  - eexists _, _. split_and!; try eassumption. congruence.
  - eexists _, _. by split_and!.
  - eexists. split_and!; [eassumption|done|]. intros Hk. apply verify_join; try congruence; [by eapply parsed_valid|]. unfold arm_ProviderKey. congruence.
  - unfold provider_ChallengeHash in *. split; congruence.
Qed.

(** ** The mirror *)

#[local] Opaque ActivationStates_Validate.

(** The generation and the axes of a stored status with a generation; those of a Forward
    with their activation. *)
Definition stored_mirror (raw : string) : option (Z * ActivationStates) :=
  match decodePersistedForwardRuntimeStatus raw with
  | Some (snapshot, generation, true) => (λ s, (generation, s)) <$> decodeActivationSnapshot snapshot
  | _ => None
  end.
Definition mirror (x : xdb) (forward : string) : option (string * Z * ActivationStates) :=
  match runtime_row x forward with
  | Some r => match rt_activation r, stored_mirror (rt_snapshot r) with Some a, Some (g, s) => Some (a, g, s) | _, _ => None end
  | None => None
  end.

Lemma decodeActivationSnapshot_valid raw s : decodeActivationSnapshot raw = Some s ↔ decode_states raw = Some s ∧ ActivationStates_Validate s = Ok tt.
Proof.
  unfold decodeActivationSnapshot. destruct (decode_states raw) as [s'|]; [|split; [discriminate|intros [He _]; discriminate]].
  split.
  - destruct (ActivationStates_Validate s') as [[]|e] eqn:E; cbn [is_ok]; intros H; [|discriminate]. injection H as <-. split; [reflexivity|exact E].
  - intros [H Hv]. injection H as ->. rewrite Hv. reflexivity.
Qed.
Lemma stored_encoded snapshot generation raw s : encodePersistedForwardRuntimeStatus snapshot generation = Some raw → decodeActivationSnapshot snapshot = Some s →
  stored_mirror raw = Some (generation, s).
Proof.
  unfold encodePersistedForwardRuntimeStatus. intros He Hs. rewrite Hs in He. apply unmarshal_persisted in He as (fields & g' & s' & Hf & Hg & Hsn & Hug & Hds).
  apply decodeActivationSnapshot_valid in Hs as [Hs Hv]. assert (Hd : decodeActivationSnapshot s' = Some s) by (apply decodeActivationSnapshot_valid; split; [rewrite Hds; exact Hs|exact Hv]).
  unfold stored_mirror, decodePersistedForwardRuntimeStatus. rewrite Hf, Hsn, Hg, Hug, Hd. cbn. rewrite Hd. reflexivity.
Qed.

Lemma runtime_put_row x forward activation raw now : runtime_row (set_runtime x (runtime_put forward activation raw now (x_runtime x))) forward
  = Some (mkRuntime forward (Some activation) raw now).
Proof.
  unfold runtime_row, runtime_put. cbn [x_runtime set_runtime]. destruct (sql_exists (rt_at forward) (x_runtime x)) eqn:E.
  - rewrite sql_row_update; [|intros r Hr; unfold rt_at in *; cbn; by rewrite Hr, String.eqb_refl]. apply sql_exists_true in E as (r & Hr & Ha).
    destruct (sql_row (rt_at forward) (x_runtime x)) as [r'|] eqn:Er; [|by rewrite (sql_row_None _ _ _ Er Hr) in Ha]. apply sql_row_Some in Er as [_ Ha']. cbn. by rewrite Ha'.
  - rewrite sql_row_app, (sql_exists_row _ _ E). unfold sql_row, rt_at. cbn. by rewrite String.eqb_refl.
Qed.
Lemma runtime_put_other x forward activation raw now g : g ≠ forward →
  runtime_row (set_runtime x (runtime_put forward activation raw now (x_runtime x))) g = runtime_row x g.
Proof.
  intros Hg. unfold runtime_row, runtime_put. cbn [x_runtime set_runtime]. destruct (sql_exists (rt_at forward) (x_runtime x)).
  - unfold sql_row. rewrite sql_filter_update; [done|]. intros r _ Hr%String.eqb_eq. unfold rt_at. cbn. rewrite Hr. by rewrite (proj2 (String.eqb_neq forward g)).
  - rewrite sql_row_app. destruct (sql_row _ _); [done|]. unfold sql_row, rt_at. cbn. by rewrite (proj2 (String.eqb_neq forward g)).
Qed.

Lemma join_mirror_sound forward activation generation wan x persisted : join_mirror forward activation generation wan x = Ok persisted →
  ∃ previous, mirror x forward = Some (activation, generation, previous) ∧ ActivationStates_Validate (merge_states wan previous) = Ok tt ∧
    stored_mirror persisted = Some (generation, merge_states wan previous).
Proof.
  unfold join_mirror, mirror. intros H. destruct (runtime_row x forward) as [r|]; [|discriminate]. destruct (rt_activation r) as [a|]; [|discriminate].
  unfold stored_mirror at 1. destruct (decodePersistedForwardRuntimeStatus (rt_snapshot r)) as [[[snap g] bound]|]; [|discriminate].
  destruct (negb _ || negb bound || negb (g =? generation)) eqn:Ec; [discriminate|]. bool_prop. subst a bound g.
  destruct (decodeActivationSnapshot snap) as [previous|]; [|discriminate]. exists previous. split; [reflexivity|].
  destruct (ActivationStates_Validate (merge_states wan previous)) as [[]|e] eqn:Em; cbn [is_ok negb] in H; [|discriminate]. split; [reflexivity|].
  destruct (encodePersistedForwardRuntimeStatus _ generation) as [p|] eqn:Ee; [|discriminate]. injection H as <-.
  apply (stored_encoded _ _ _ _ Ee), decodeActivationSnapshot_valid. split; [apply decode_marshal_states; exact Em|exact Em].
Qed.

(** ** Publication *)

Definition join_publishes (now : Z) (id forward activation persisted : string) (op : ProbeOpRow) (x : xdb) : xdb :=
  let y := with_ctl x (set_probes (x_ctl x) (sql_update (λ r, po_at id r && String.eqb (po_status r) "IN_FLIGHT" && (now <? po_expires r) && (po_revision r =? po_revision op) && true)
    (po_advance OutcomeOpenFromVantage now) (t_probes (x_ctl x)))) in
  set_runtime y (runtime_put forward activation persisted now (x_runtime y)).

Lemma publish_inv now id expected forward activation snapshot keys x u x' :
  PublishProbeJoin now id expected forward activation snapshot keys x = Ok (u, x') →
  ∃ nodeKey wan op provider j persisted, expected = "IN_FLIGHT"%string ∧ keys = [nodeKey] ∧ decodeActivationSnapshot snapshot = Some wan ∧
    join_operation now id expected forward activation x = Ok (op, provider) ∧ join_evidence now nodeKey op provider x = Ok j ∧
    join_mirror forward activation (po_revision op) wan x = Ok persisted ∧ x' = join_publishes now id forward activation persisted op x.
Proof.
  unfold PublishProbeJoin. intros H. destruct (decodeActivationSnapshot snapshot) as [wan|] eqn:Ew; [|discriminate H].
  destruct (String.eqb_spec expected "IN_FLIGHT") as [->|]; [|discriminate H]. cbn [negb] in H. destruct keys as [|nodeKey [|? ?]]; [discriminate H| |discriminate H].
  destruct (negb (bool_decide _)); [discriminate H|].
  apply sql_bind_Ok in H as ([op provider] & s1 & Hm & H). apply sql_check_Ok in Hm as [Hop <-].
  apply sql_bind_Ok in H as (j & s1 & Hm & H). apply sql_check_Ok in Hm as [Hj <-].
  apply sql_bind_Ok in H as (persisted & s1 & Hm & H). apply sql_check_Ok in Hm as [Hp <-].
  exists nodeKey, wan, op, provider, j, persisted. split_and!; try reflexivity; try assumption.
  unfold sql_bind at 1, sql_read at 1 in H. destruct (at_generation forward activation (po_revision op) x) eqn:Eg.
  - unfold write_probes in H. unfold sql_bind, sql_read, sql_write in H. destruct (negb (_ =? 1)%nat); [discriminate H|]. destruct (negb _ || _); [discriminate H|].
    injection H as _ <-. reflexivity.
  - exfalso. unfold sql_bind at 1, sql_read at 1 in H. assert (Hc : ∀ t, sql_count (λ r, po_at id r && (po_status r =? "IN_FLIGHT")%string && (now <? po_expires r) && (po_revision r =? po_revision op) && false) t = 0%nat).
    { intros t. apply sql_count_0. intros r _. apply andb_false_r. }
    rewrite Hc in H. discriminate H.
Qed.

(** C3: OPEN_FROM_VANTAGE is published on complete evidence only, and publishes nothing
    else.  If [PublishProbeJoin] commits, the operation was IN_FLIGHT before its deadline,
    for the Forward's node at exactly its activation and revision with no deletion
    pending, through an enabled independent provider; each of the four artifacts was
    recorded once; the provider's result is signed with its registered key for this
    probe within the time window; the frame decodes from the artifact and is signed with
    that key, ACK and receipt are signed by the node key, and all are bound to the digest
    of the ARM1 frame of the operation and to one challenge (so that [VerifyProbeJoin]
    accepts them when the registered key is the one in the frame); the mirror was at that
    activation and revision.  Afterwards the operation is OPEN_FROM_VANTAGE, the mirror
    carries the new WAN axes over its other axes at the same generation, in a legal
    combination, and every other operation, mirror and table is as before. *)
Theorem publish_join_sound (now : Z) (id expected forward activation snapshot : string) (keys : list bytes) (x x' : xdb) (u : unit) :
  PublishProbeJoin now id expected forward activation snapshot keys x = Ok (u, x') →
  ∃ nodeKey op provider f j wan previous,
    keys = [nodeKey] ∧ (po_id op, po_forward op, po_activation op) = (id, forward, activation) ∧
    join_bound now op provider f x ∧ join_proved now nodeKey op provider x j ∧
    decodeActivationSnapshot snapshot = Some wan ∧ mirror x forward = Some (activation, po_revision op, previous) ∧
    ActivationStates_Validate (merge_states wan previous) = Ok tt ∧
    probe_row x' id = Some (po_advance "OPEN_FROM_VANTAGE" now op) ∧ mirror x' forward = Some (activation, po_revision op, merge_states wan previous) ∧
    (∀ i, i ≠ id → probe_row x' i = probe_row x i) ∧ (∀ g, g ≠ forward → runtime_row x' g = runtime_row x g) ∧
    set_runtime (with_ctl x' (set_probes (x_ctl x') (t_probes (x_ctl x)))) (x_runtime x) = x.
Proof.
  intros H. apply publish_inv in H as (nodeKey & wan & op & provider & j & persisted & -> & -> & Hw & Hop & Hj & Hp & ->).
  apply join_operation_sound in Hop as (<- & <- & <- & f & Hb); [|done]. apply join_evidence_sound in Hj. apply join_mirror_sound in Hp as (previous & Hm & Hv & Hs).
  exists nodeKey, op, provider, f, j, wan, previous. split_and!; try assumption; try reflexivity.
  - unfold probe_row, join_publishes. cbn [x_ctl set_runtime with_ctl t_probes set_probes]. rewrite sql_row_update; [|done].
    pose proof (jb_op _ _ _ _ _ Hb) as Ho. unfold probe_row in Ho. rewrite Ho. cbn. unfold po_at. rewrite String.eqb_refl, (jb_flight _ _ _ _ _ Hb), Z.eqb_refl.
    rewrite (proj2 (Z.ltb_lt _ _) (jb_deadline _ _ _ _ _ Hb)). reflexivity.
  - unfold mirror, join_publishes. rewrite runtime_put_row. cbn [rt_activation rt_snapshot]. rewrite Hs. reflexivity.
  - intros i Hi. unfold probe_row, join_publishes. cbn [x_ctl set_runtime with_ctl t_probes set_probes]. unfold sql_row. rewrite sql_filter_update; [reflexivity|].
    intros r _ Hr. apply andb_true_iff in Hr as [Hr _]. bool_prop. match goal with Ha : po_at _ r = true |- _ => apply po_at_iff in Ha as Hid end.
    unfold po_at. cbn. rewrite Hid. rewrite (proj2 (String.eqb_neq (po_id op) i) (λ E, Hi (eq_sym E))). split; reflexivity.
  - intros g Hg. unfold join_publishes. rewrite runtime_put_other by exact Hg. reflexivity.
  - unfold join_publishes. destruct x as [[]]. reflexivity.
Qed.

(** C7: no other way leads to OPEN_FROM_VANTAGE.  If an operation is OPEN_FROM_VANTAGE
    after an execution and was not before, then the execution contains the committed
    join of that operation, at a database where its evidence was complete - or the
    insertion of the operation with that status. *)
Theorem open_requires_join (es : list xevent) (s : xstate) (id : string) :
  probes_ok (x_ctl s.1) → po_status <$> probe_row s.1 id ≠ Some "OPEN_FROM_VANTAGE"%string →
  po_status <$> probe_row (xrun es s).1 id = Some "OPEN_FROM_VANTAGE"%string →
  ∃ es1 e es2, es = es1 ++ e :: es2 ∧ let y := (xrun es1 s).1 in
    (∃ now expected forward activation snapshot nodeKey op provider f j,
       e = XCmd (XProbeJoin now id expected forward activation snapshot [nodeKey]) ∧ po_id op = id ∧
       join_bound now op provider f y ∧ join_proved now nodeKey op provider y j)
    ∨ (∃ before ts op, e = XCmd (XProbe before ts op) ∧ po_id op = id ∧ po_status op = "OPEN_FROM_VANTAGE"%string)
    ∨ (∃ ts op outbox, e = XCmd (XProbeBundle ts op outbox) ∧ po_id op = id ∧ po_status op = "OPEN_FROM_VANTAGE"%string).
Proof.
  assert (Hview : ∀ x, ps_status <$> probe_view (x_ctl x) id = po_status <$> probe_row x id).
  { intros x. unfold probe_view, probe_row. by destruct (sql_row _ _). }
  intros Hok Hs Hf. destruct (opened_by id es s Hok) as (es1 & e & es2 & -> & He & Hy & Hn & Ho); [unfold opened; by rewrite Hview|unfold opened; by rewrite Hview|].
  exists es1, e, es2. split; [done|]. cbv zeta. destruct e as [c|? ?]; [|done]. destruct c; cbn [event_opens opens_by] in He; try done.
  - right. left. eexists _, _, _. split; [reflexivity|]. exact He.
  - right. right. eexists _, _, _. split; [reflexivity|]. exact He.
  - left. subst id0. unfold opened in Hn, Ho. cbn [xstep fst] in Ho. unfold commit_tx in Ho. cbn [xbody] in Ho.
    destruct (PublishProbeJoin _ _ _ _ _ _ _ _) as [[u x']|err] eqn:E; [|exfalso; exact (Hn Ho)]. apply publish_inv in E as (nodeKey & wan & op & provider & j & persisted & -> & -> & _ & Hop & Hj & _ & _).
    apply join_operation_sound in Hop as (<- & _ & _ & f & Hb); [|done]. apply join_evidence_sound in Hj.
    eexists _, _, _, _, _, nodeKey, op, provider, f, j. split_and!; try reflexivity; assumption.
Qed.

(** ** The outcome *)

Lemma disposition_range op x : outcome_disposition op x ∈ ["ENQUEUED"; "STALE"; "MISSING"]%string.
Proof. unfold outcome_disposition. repeat match goal with |- context [match ?b with _ => _ end] => destruct b end; set_solver. Qed.

Lemma disposition_enqueued op x : outcome_disposition op x = "ENQUEUED"%string ↔
  ∃ f, sql_row (fw_at (po_forward op)) (x_forwards x) = Some f ∧ fw_activation f = Some (po_activation op) ∧
    fw_revision f = po_revision op ∧ po_revision op ≠ 0 ∧ deletionIntent (po_forward op) x = false.
Proof.
  unfold outcome_disposition. destruct (sql_row (fw_at (po_forward op)) (x_forwards x)) as [f|]; [|split; [discriminate|by intros (? & ? & _)]].
  destruct (negb (sql_eq _ _) || _ || _) eqn:Ec.
  - split; [discriminate|]. intros (f' & [= <-] & Ha & Hr & Hz & _). exfalso. rewrite Ha, Hr in Ec. unfold sql_eq in Ec. rewrite String.eqb_refl, Z.eqb_refl in Ec.
    cbn in Ec. rewrite orb_false_r in Ec. apply Z.eqb_eq in Ec. contradiction.
  - bool_prop. destruct (deletionIntent (po_forward op) x); split; try discriminate; try (by intros (? & _ & _ & _ & _ & ?)).
    intros _. exists f. split_and!; try reflexivity; try assumption. unfold sql_eq in *. destruct (fw_activation f); [|discriminate]. bool_prop. by subst.
Qed.

(** The delivery row and, if enqueued, the command. *)
Definition decided (now : Z) (op : ProbeOpRow) (outcome : string) (x : xdb) : xdb :=
  let stamp := if po_updated op =? 0 then now else po_updated op in
  with_ctl x (set_terminals (x_ctl x) (t_terminals (x_ctl x) ++
    [mkTerminal (po_id op) (outcome_disposition op x) outcome (po_node op) (po_forward op) (po_activation op) stamp stamp])).
Definition outcome_item (op : ProbeOpRow) (outcome : string) : ControlOutboxItem :=
  mkItem (po_id op) "probe_outcome" (po_node op) (marshal_outcome (po_forward op) (po_activation op) (po_revision op) outcome) "" 0.

Lemma queue_inv now id outcome x d x' : decision_of (x_ctl x) id = None → QueueProbeOutcome now id outcome x = Ok (d, x') →
  ∃ op, probe_row x id = Some op ∧ po_id op = id ∧ id ≠ ""%string ∧ probeTerminal (po_status op) = true ∧ d = outcome_disposition op x ∧
    (if String.eqb d "ENQUEUED" then EnforceCleanupOnlyEnqueue (x_ctl x) (po_node op) "probe_outcome" = Ok tt ∧
       ∃ u, insertOutboxExec now (outcome_item op outcome) (decided now op outcome x) = Ok (u, x')
     else x' = decided now op outcome x).
Proof.
  intros Hn H. unfold decision_of in Hn. unfold QueueProbeOutcome in H. destruct (String.eqb_spec id "") as [|Hid]; [discriminate H|].
  unfold sql_bind at 1, sql_read at 1 in H. destruct (probe_row x id) as [op|] eqn:Eo; [|discriminate H].
  destruct (probeTerminal (po_status op)) eqn:Et; [|discriminate H]. cbn [negb] in H.
  unfold sql_bind at 1, sql_read at 1 in H. destruct (sql_row _ (t_terminals (x_ctl x))) as [t|]; [discriminate Hn|].
  unfold sql_bind at 1, sql_read at 1 in H. unfold write_terminals in H. unfold sql_bind at 1, sql_write at 1 in H. cbv beta in H.
  pose proof (sql_row_Some _ _ _ Eo) as [_ Ho%po_at_iff]. subst id. exists op. split_and!; try reflexivity; try assumption.
  - destruct (String.eqb (outcome_disposition op x) "ENQUEUED"); [|injection H as <- _; reflexivity].
    apply sql_bind_Ok in H as (? & s1 & _ & H). apply sql_bind_Ok in H as (? & s2 & _ & H). injection H as <- _. reflexivity.
  - destruct (String.eqb (outcome_disposition op x) "ENQUEUED") eqn:Ed; [|injection H as <- <-; rewrite Ed; reflexivity].
    apply sql_bind_Ok in H as ([] & s1 & Hm & H). unfold of_read in Hm. apply sql_check_Ok in Hm as [Hg <-].
    apply sql_bind_Ok in H as (u & s2 & Hm & H). injection H as <- <-. rewrite Ed. split; [|by exists u].
    change (match EnforceCleanupOnlyEnqueue (x_ctl x) (po_node op) "probe_outcome" with Ok a => Ok a | Err e => Err (XStore e) end = Ok ()) in Hg.
    destruct (EnforceCleanupOnlyEnqueue (x_ctl x) (po_node op) "probe_outcome") as [[]|]; [reflexivity|discriminate Hg].
Qed.

(** Asking again. *)
Lemma queue_again now' now op outcome outcome' x z : po_id op ≠ ""%string → probe_row x (po_id op) = Some op → probeTerminal (po_status op) = true →
  decision_of (x_ctl x) (po_id op) = None → t_terminals (x_ctl z) = t_terminals (x_ctl (decided now op outcome x)) → t_probes (x_ctl z) = t_probes (x_ctl x) →
  decision_of (x_ctl z) (po_id op) = Some (outcome_disposition op x) ∧ QueueProbeOutcome now' (po_id op) outcome' z = Ok (outcome_disposition op x, z).
Proof.
  intros Hid Eo Et Hn Hz Hp. unfold decision_of in *. set (t := mkTerminal (po_id op) (outcome_disposition op x) outcome (po_node op) (po_forward op) (po_activation op)
    (if po_updated op =? 0 then now else po_updated op) (if po_updated op =? 0 then now else po_updated op)).
  assert (Hrow : sql_row (λ t, String.eqb (tm_probe t) (po_id op)) (t_terminals (x_ctl z)) = Some t).
  { rewrite Hz. unfold decided. cbn [x_ctl with_ctl t_terminals set_terminals]. rewrite sql_row_app.
    destruct (sql_row _ (t_terminals (x_ctl x))); [discriminate Hn|]. unfold sql_row. cbn [List.filter tm_probe]. rewrite String.eqb_refl. reflexivity. }
  rewrite Hrow. split; [reflexivity|]. unfold QueueProbeOutcome. rewrite (proj2 (String.eqb_neq _ _) Hid).
  unfold sql_bind, sql_read. unfold probe_row in *. rewrite Hp, Eo, Et. cbn [negb]. rewrite Hrow. reflexivity.
Qed.

Lemma outbox_exec_fresh now item x u x' : insertOutboxExec now item x = Ok (u, x') → outbox_row (x_ctl x) (ci_OperationID item) (ci_MessageType item) = None.
Proof. unfold insertOutboxExec. intros H. sql_inv H. by apply sql_exists_row. Qed.

(** C29: a probe outcome is decided once, and enqueued only for the current generation.
    The first decision is ENQUEUED exactly if the Forward is at the activation and
    revision the operation was armed for, with no deletion pending; it is committed
    together with the one [probe_outcome] command, unsent, of that node with that
    generation in its payload, and otherwise (STALE, MISSING) without any command.
    Asking again, for whatever outcome and at whatever time, answers the decision and
    changes nothing. *)
Theorem outcome_decided_once (now now' : Z) (id outcome outcome' : string) (x x' : xdb) (d : string) :
  decision_of (x_ctl x) id = None → QueueProbeOutcome now id outcome x = Ok (d, x') →
  ∃ op, probe_row x id = Some op ∧ probeTerminal (po_status op) = true ∧
    decision_of (x_ctl x') id = Some d ∧ d ∈ ["ENQUEUED"; "STALE"; "MISSING"]%string ∧
    (d = "ENQUEUED"%string ↔ ∃ f, sql_row (fw_at (po_forward op)) (x_forwards x) = Some f ∧ fw_activation f = Some (po_activation op) ∧
       fw_revision f = po_revision op ∧ po_revision op ≠ 0 ∧ deletionIntent (po_forward op) x = false) ∧
    (if String.eqb d "ENQUEUED" then
       outbox_row (x_ctl x) id "probe_outcome" = None ∧ EnforceCleanupOnlyEnqueue (x_ctl x) (po_node op) "probe_outcome" = Ok tt ∧
       ∃ r, t_outbox (x_ctl x') = t_outbox (x_ctl x) ++ [r] ∧ outbox_row (x_ctl x') id "probe_outcome" = Some r ∧ ob_state r = "PENDING"%string ∧ ob_node r = po_node op ∧
         ob_payload r = marshal_outcome (po_forward op) (po_activation op) (po_revision op) outcome
     else t_outbox (x_ctl x') = t_outbox (x_ctl x)) ∧
    QueueProbeOutcome now' id outcome' x' = Ok (d, x').
Proof.
  intros Hn H. destruct (queue_inv _ _ _ _ _ _ Hn H) as (op & Eo & <- & Hid & Et & -> & Hd). exists op. split; [exact Eo|]. split; [exact Et|].
  assert (Ht : t_terminals (x_ctl x') = t_terminals (x_ctl (decided now op outcome x)) ∧ t_probes (x_ctl x') = t_probes (x_ctl x)).
  { destruct (String.eqb _ "ENQUEUED"); [|subst x'; split; reflexivity]. destruct Hd as (_ & u & Hu). apply outbox_exec_effect in Hu as (r & -> & _). split; reflexivity. }
  destruct (queue_again now' now op outcome outcome' x x' Hid Eo Et Hn (proj1 Ht) (proj2 Ht)) as [H1 H2].
  split; [exact H1|]. split; [apply disposition_range|]. split; [apply disposition_enqueued|]. split; [|exact H2].
  destruct (String.eqb _ "ENQUEUED"); [|subst x'; reflexivity]. destruct Hd as (Hg & u & Hu). split; [exact (outbox_exec_fresh _ _ _ _ _ Hu)|]. split; [exact Hg|].
  apply outbox_exec_effect in Hu as (r & -> & Ho & Hnode & Hpay & Hst & _). exists r. split; [reflexivity|]. split_and!; assumption.
Qed.

(** ** Expiry *)

Lemma expire_loop_length now l x r x' : expire_loop now l x = Ok (r, x') → (length r ≤ length l)%nat.
Proof.
  revert x r x'. induction l as [|o l IH]; intros x r x' H; cbn [expire_loop] in H.
  - injection H as <- _. reflexivity.
  - unfold sql_bind at 1, sql_read in H. unfold sql_bind at 1, write_probes, sql_write in H. unfold sql_bind in H.
    destruct (expire_loop now l _) as [[rest x2]|e] eqn:E; [|discriminate]. apply IH in E. injection H as <- _. destruct (_ =? 1)%nat; cbn; lia.
Qed.

(** One call expires one batch, however long the backlog is. *)
Theorem expiry_one_batch (before : xdb) (now : Z) (x x' : xdb) (l : list ProbeOpRow) :
  ExpireProbeOperations before now x = Ok (l, x') → (length l ≤ 256)%nat.
Proof.
  unfold ExpireProbeOperations, ExpireProbeOperationsLimit. intros H%expire_loop_length. unfold expired_page, sql_limit in H. rewrite length_take in H.
  change (Z.to_nat (probeCleanupLimit 0)) with 256%nat in H. lia.
Qed.

(** ** The mirror is fenced by the generation *)

(** C31: a runtime status is written for the Forward's current generation or not at all.
    A write that commits named the revision the Forward has, and its current activation
    (or, before the Forward has one, a recorded activation or the mirror's own); the
    mirror then reads back as that activation, generation and exactly the written,
    legal axes, and no other mirror and no other table changes.  A write that names
    another revision is refused without a change, whatever it carries. *)
Theorem mirror_write_fenced (now : Z) (forward activation : string) (revision : Z) (snapshot : string) (x : xdb) :
  forwards_ok x →
  (∀ u x', SetForwardRuntimeStatus now forward activation revision snapshot x = Ok (u, x') →
     ∃ f states, sql_row (fw_at forward) (x_forwards x) = Some f ∧ fw_revision f = revision ∧
       (fw_activation f = Some activation ∨ coalesce (fw_activation f) = ""%string) ∧
       decodeActivationSnapshot snapshot = Some states ∧ ActivationStates_Validate states = Ok tt ∧
       mirror x' forward = Some (activation, revision, states) ∧
       (∀ g, g ≠ forward → runtime_row x' g = runtime_row x g) ∧ set_runtime x' (x_runtime x) = x) ∧
  (∀ f, sql_row (fw_at forward) (x_forwards x) = Some f → fw_revision f ≠ revision →
     (commit_tx (SetForwardRuntimeStatus now forward activation revision snapshot) x).2 = x ∧
     is_ok (SetForwardRuntimeStatus now forward activation revision snapshot x) = false).
Proof.
  intros Hok. split.
  - intros u x' H. unfold SetForwardRuntimeStatus in H. destruct (encodePersistedForwardRuntimeStatus snapshot revision) as [raw|] eqn:Ee; [|discriminate H].
    destruct (negb (binds revision)); [discriminate H|]. unfold sql_bind at 1, sql_read at 1 in H. cbv zeta in H.
    destruct (negb _) eqn:Ec; [discriminate H|]. unfold sql_write in H. injection H as _ <-. apply negb_false_iff, andb_true_iff in Ec as [Hsel _].
    apply sql_exists_true in Hsel as (f & Hf & [[Ha Hr%Z.eqb_eq]%andb_true_iff Hact]%andb_true_iff).
    assert (Hs : ∃ states, decodeActivationSnapshot snapshot = Some states).
    { unfold encodePersistedForwardRuntimeStatus in Ee. destruct (decodeActivationSnapshot snapshot) as [st|]; [by exists st|discriminate Ee]. }
    destruct Hs as [states Hs]. exists f, states. split; [by apply forward_row_in|]. split; [exact Hr|]. split.
    { apply orb_true_iff in Hact as [Hact|Hact]; [left|right; by apply andb_true_iff in Hact as [?%String.eqb_eq _]].
      unfold sql_eq in Hact. destruct (fw_activation f); [|discriminate]. apply String.eqb_eq in Hact. by subst. }
    split; [exact Hs|]. split; [exact (proj2 (proj1 (decodeActivationSnapshot_valid _ _) Hs))|]. split; [|split].
    + unfold mirror. rewrite runtime_put_row. cbn [rt_activation rt_snapshot]. rewrite (stored_encoded _ _ _ _ Ee Hs). reflexivity.
    + intros g Hg. by apply runtime_put_other.
    + destruct x. reflexivity.
  - intros f Hf Hr. assert (Hno : is_ok (SetForwardRuntimeStatus now forward activation revision snapshot x) = false).
    { unfold SetForwardRuntimeStatus. destruct (encodePersistedForwardRuntimeStatus snapshot revision); [|reflexivity]. destruct (negb (binds revision)); [reflexivity|].
      unfold sql_bind at 1, sql_read at 1. cbv zeta. destruct (sql_exists _ (x_forwards x)) eqn:Es; [|reflexivity]. exfalso.
      apply sql_exists_true in Es as (f' & Hf' & [[Ha Hr'%Z.eqb_eq]%andb_true_iff _]%andb_true_iff). apply Hr.
      assert (Hff : forward_row x forward = Some f') by by apply forward_row_in. unfold forward_row in Hff. congruence. }
    split; [|exact Hno]. unfold commit_tx. destruct (SetForwardRuntimeStatus _ _ _ _ _ x) as [[? ?]|]; [discriminate Hno|reflexivity].
Qed.
End Join.
