(* ===== verification/CtlProps.v ===== *)
(** * The control tables under every transaction of the store

    The outbox, inbox and node guarantees of the control transactions, with enrollment,
    rotation, restore, deletion, Forward and probe transactions running beside them. *)

From Stdlib Require Import ZArith Lia Strings.Byte.
From stdpp Require Import base tactics list sets strings option relations.
From S2P Require Import Prelude GoStd Frame Probe Sql Control ControlProofs ControlCleanup ControlProps CtlDb EnrollStore CtlLifecycle Forwards ProbeStore CtlRun.

Open Scope Z_scope.

Section Store.
Context {crypto : Crypto} {json : CtlJson} {pjson : ProbeJson}.

(** What also a cleanup pass keeps: everything of [good] but the inbox. *)
Record kept_through (d d' : db) : Prop := {
  kt_ok : db_ok d';
  kt_outbox : ∀ op ty, rtc (store_edge ty) (outbox_view d op ty) (outbox_view d' op ty);
  kt_nodes : ∀ n, node_le (node_row d n) (node_row d' n)
}.
Definition store_le (x x' : xdb) : Prop := db_ok (x_ctl x) → kept_through (x_ctl x) (x_ctl x').
#[local] Instance store_le_pre : PreOrder store_le.
Proof.
  split.
  - intros x Hx. split; [done|intros; apply rtc_refl|intros; apply node_le_refl].
  - intros x y z Hxy Hyz Hx. destruct (Hxy Hx) as [Hy o1 n1]. destruct (Hyz Hy) as [Hz o2 n2].
    split; [done|intros op ty; etrans; [apply o1|apply o2]|intros n; eapply node_le_trans; [apply n1|apply n2]].
Qed.

Lemma xrun_store es s : db_ok (x_ctl s.1) → kept_through (x_ctl s.1) (x_ctl (xrun es s).1).
Proof.
  intros Hok. revert Hok. change (store_le s.1 (xrun es s).1). apply (xrun_ind store_le).
  - intros c x a x' H Hx. destruct (xbody_ctl c x a x' H Hx). by split.
  - intros cutoff limit cur x Hx. destruct (cleanup_deletes cutoff limit cur (x_ctl x)) as [w ->]. cbn [x_ctl with_ctl].
    split; [by apply ok_inbox_delete|intros; apply rtc_refl|intros; apply node_le_refl].
Qed.

(** C2: the Controller's whole store keeps its promises to the outbox.  Whatever
    transactions run - control, enrollment, rotation, restore, node and Forward
    deletion, desired state, idempotent creates, probe operations and inbox cleanup, in
    any order, with any arguments and stale reads - the control tables stay well formed, no node
    disappears and no connection epoch decreases, and each outbox row (operation,
    message type) is queued as PENDING, moves PENDING, CLAIMED, SENT, SEMANTIC_ACKED in
    that order, returns to PENDING only from CLAIMED or SENT, disappears only from
    SEMANTIC_ACKED (its receipt) or, for a probe outcome, unsent from PENDING (its
    expiry), and keeps its id, node, payload and correlation ids all that time. *)
Theorem store_outbox_refinement (es : list xevent) (s : xstate) :
  db_ok (x_ctl s.1) →
  let x' := (xrun es s).1 in
  db_ok (x_ctl x') ∧ (∀ n, node_le (node_row (x_ctl s.1) n) (node_row (x_ctl x') n)) ∧
  (∀ op ty, rtc (store_edge ty) (outbox_view (x_ctl s.1) op ty) (outbox_view (x_ctl x') op ty)).
Proof.
  intros Hok. by destruct (xrun_store es s Hok).
Qed.
End Store.
