(* ===== verification/CtlWitness.v ===== *)
(** * Concrete executions of the Controller's store *)

From Stdlib Require Import ZArith Lia Strings.Byte.
From stdpp Require Import base tactics list sets strings option relations gmap.
From S2P Require Import Prelude GoStd Frame Envelope Probe Enrollment Session Sql Control ControlProofs ControlCleanup ControlProps CtlDb EnrollStore CtlLifecycle Forwards ProbeStore CtlRun EnrollProps RotationProps RestoreProps ForwardProps CtlProps.

Open Scope Z_scope.

#[local] Existing Instance toy_crypto.

(** One deletion payload and one acknowledgement. *)
Definition toy_ctl_json : CtlJson := {|
  unmarshal_ack s := if String.eqb s "ack" then Some (mkNodeAck "n1" "nd1" "DECOMMISSIONED" false) else None;
  strict_deletion s := if String.eqb s "deleted" then Some (mkDeletionPayload "f1" "d1" true) else None
|}.
#[local] Existing Instance toy_ctl_json.
#[local] Existing Instance toy_probe_json.

Definition empty_xdb : xdb := mkXdb empty_db [] [] [] [] [] [] [] [] [] [] [] [] [] [].
Definition xstart : xstate := (empty_xdb, mkCursor 0 0 false false).

(** A node with a token. *)
Definition wtoken : string := string_of (base64_rawurl (repeat Byte.x11 32)).
Definition wseed : list xevent :=
  [XCmd (XCtl (KCreateNode true 1 (mkNode "n1" "node one" 0 None "" 1 false "" 0 0 0))); XCmd (XToken true 1 (repeat Byte.x11 32) "t1" "n1" 600)].
Definition wx : xdb := Eval vm_compute in (xrun wseed xstart).1.

Lemma empty_enroll_ok : enroll_ok empty_xdb.
Proof. split; [constructor|constructor|]. by intros c ?%elem_of_nil. Qed.
Lemma wx_enroll_ok : enroll_ok wx.
Proof. change wx with (xrun wseed xstart).1. apply (xrun_enroll wseed xstart empty_enroll_ok). Qed.

Definition wreq (hash : string) (version : Z) : EnrollmentRequest :=
  mkERequest "n1" (hex_of (sha256 (bytes_of wtoken))) hash version "cap" "key" "result" 999.
Definition wbound : xdb := Eval vm_compute in match ConsumeEnrollmentToken 2 2 2 "c1" "r1" (wreq "pk" 1) wx with Ok (_, x) => x | Err _ => wx end.
Definition wresult : EnrollmentResult := mkEnrollment "result" "n1" "pk" 1 "key" "cap" 999 2.
(** Meanwhile a restore. *)
Definition wrestore : RestoreRow := mkRestore "rs1" "" "manifest" 0 "" 0 0.
Definition wmeanwhile : list xevent := [XCmd (XEnter 5 wrestore); XCmd (XReauthorize 6 "n1" "rs1")].

Lemma enrollment_is_final_witness :
  ConsumeEnrollmentToken 50 50 50 "c2" "r2" (wreq "pk" 1) (xrun wmeanwhile (wbound, xstart.2)).1 = Ok (Some (wresult, true), (xrun wmeanwhile (wbound, xstart.2)).1) ∧
  is_ok (ConsumeEnrollmentToken 50 50 50 "c2" "r2" (wreq "other" 1) (xrun wmeanwhile (wbound, xstart.2)).1) = true.
Proof.
  split.
  - refine (enrollment_is_final 2 2 2 50 50 50 "c1" "r1" "c2" "r2" (wreq "pk" 1) (wreq "pk" 1) wx wbound wresult xstart.2 wmeanwhile wx_enroll_ok _ _);
      vm_compute; reflexivity.
  - rewrite (enrollment_is_final 2 2 2 50 50 50 "c1" "r1" "c2" "r2" (wreq "pk" 1) (wreq "other" 1) wx wbound wresult xstart.2 wmeanwhile wx_enroll_ok);
      vm_compute; reflexivity.
Defined.

Lemma token_binds_once_witness :
  token_of wbound (hex_of (sha256 (bytes_of wtoken))) ≠ token_of wx (hex_of (sha256 (bytes_of wtoken))) ∧
  ∀ x3 res', ConsumeEnrollmentToken 50 50 50 "c2" "r2" (wreq "other" 2) (xrun wmeanwhile (wbound, xstart.2)).1 ≠ Ok (Some (res', false), x3).
Proof.
  split.
  - destruct (token_binds_once 2 2 2 50 50 50 "c1" "r1" "c2" "r2" (wreq "pk" 1) (wreq "other" 2) wx wbound wx wresult wresult xstart.2 wmeanwhile wx_enroll_ok
      ltac:(vm_compute; reflexivity)) as [_ _]. vm_compute. congruence.
  - intros x3 res'. refine (proj2 (token_binds_once 2 2 2 50 50 50 "c1" "r1" "c2" "r2" (wreq "pk" 1) (wreq "other" 2) wx wbound x3 wresult res' xstart.2 wmeanwhile
      wx_enroll_ok _) _); vm_compute; reflexivity.
Defined.

(** A revoked token still enrolls: the restore revokes the pending token, the request
    that presents it afterwards is bound, and the token stays REVOKED. *)
Example revoked_token_enrolls :
  let x := (xrun [XCmd (XEnter 5 wrestore)] (wx, xstart.2)).1 in
  let h := hex_of (sha256 (bytes_of wtoken)) in
  tk_status <$> token_of x h = Some "REVOKED"%string ∧
  ∃ x', ConsumeEnrollmentToken 9 9 9 "c1" "r1" (wreq "pk" 1) x = Ok (Some (mkEnrollment "result" "n1" "pk" 1 "key" "cap" 999 9, false), x') ∧
    tk_status <$> token_of x' h = Some "REVOKED"%string.
Proof. vm_compute. split; [reflexivity|]. eexists. split; reflexivity. Qed.

(** ** The handlers *)

Definition whub : EnrollHub := mkEHub "key" sample_key (Some "00000000000000000000000000000001"%string) 4096 300.
Definition wcache : ChallengeManager := mkManager 60000000000 16 ∅.
Definition wch : EnrollChallenge := issued_challenge whub "00000000000000000000000000000001" 0 wcache (repeat Byte.x05 32) "n1".
Definition wrequest : EnrollRequest :=
  mkRequest (sha256 (put_fields (challenge_fields wch))) (repeat Byte.x09 32) (ed25519_public sample_key) 1 wtoken (repeat Byte.x0a 32).

Lemma enrollment_end_to_end_witness :
  ∃ raw m1 raw' s2,
    handleEnrollChallenge whub 0 0 0 (repeat Byte.x05 32) (mkHttp true true (Some (bytes_of "n1"))) (wcache, wx) = (HttpOK raw, (m1, wx)) ∧
    handleEnrollRequest whub 5 5 5 5 5 (repeat Byte.x0c 16) "c1" "r1" (mkHttp true true (Some (request_frame sample_key wrequest))) (m1, wx) = (HttpOK raw', s2) ∧
    cd_hash <$> nodeCredentialTx "n1" s2.2 = Some (hex_of (sha256 (ed25519_public sample_key))).
Proof.
  destruct (@enrollment_end_to_end toy_crypto toy_crypto_laws whub "00000000000000000000000000000001" 0 0 0 5 5 5 5 5 (repeat Byte.x05 32) (repeat Byte.x0c 16)
    sample_key "n1" "c1" "r1" wcache wx (mkNode "n1" "node one" 0 (Some ""%string) "OFFLINE" 1 false "" 0 1 1) wrequest) as (raw & m1 & raw' & s2 & H1 & _ & H2 & _ & H3).
  - split; vm_compute; intuition congruence.
  - vm_compute; intuition congruence.
  - reflexivity.
  - vm_compute. reflexivity.
  - intros _. vm_compute. reflexivity.
  - reflexivity.
  - unfold request_ok. split_and!; vm_compute; intuition congruence.
  - reflexivity.
  - reflexivity.
  - reflexivity.
  - reflexivity.
  - split; vm_compute; reflexivity.
  - exists raw, m1, raw', s2. split; [exact H1|]. split; [exact H2|exact H3].
Defined.

(** ** Rotation *)

Definition wrotation : RotationRow := mkRotation "k1" "agent" "old" 1 "new" "newkey" 2 "" 0 100 "cert" 0 0.
Definition wrotate : list xevent :=
  [XCmd (XRotate 2 wrotation); XCmd (XPhaseCAS 3 "k1" "PREPARED" "ANNOUNCED"); XCmd (XAck wx wx 3 "k1" "n1"); XCmd (XPhaseCAS 4 "k1" "ANNOUNCED" "ACKED");
   XCmd (XPhaseCAS 5 "k1" "ACKED" "ACTIVE")].
Definition wacking : list xevent := [XCmd (XAck (xrun wrotate (wx, xstart.2)).1 wx 6 "k1" "n1")].

Lemma wx_rot_ok : rot_ok wx.
Proof. split; [constructor|]. by intros r1 r2 ?%elem_of_nil. Qed.
Definition wrotating : xstate := Eval vm_compute in xrun wrotate (wx, xstart.2).
Lemma wrotating_ok : rot_ok wrotating.1.
Proof. change wrotating with (xrun wrotate (wx, xstart.2)). apply (xrun_rot wrotate (wx, xstart.2) wx_rot_ok). Qed.

Lemma key_rotation_refinement_witness :
  (∃ r, rotation_of (xrun wrotate (wx, xstart.2)).1 "k1" = Some r ∧ kr_phase r = "ACTIVE"%string) ∧
  rtc rot_step (rotation_of wx "k1") (rotation_of (xrun wrotate (wx, xstart.2)).1 "k1").
Proof. split; [eexists; vm_compute; split; reflexivity|]. apply (key_rotation_refinement wrotate (wx, xstart.2) "k1" wx_rot_ok). Defined.

Definition wactive : RotationRow := mkRotation "k1" "agent" "old" 1 "new" "newkey" 2 "ACTIVE" 0 100 "cert" 2 5.
Lemma rotation_retires_soundly_witness :
  ∃ ret x', AdvanceRotationPhase wrotating.1 (xrun wacking wrotating).1 100 101 "k1" "RETIRED" false (xrun [] (xrun wacking wrotating)).1 = Ok (ret, x') ∧ rotation_of x' "k1" = Some (kr_advance "RETIRED" 101 wactive).
Proof.
  destruct (AdvanceRotationPhase wrotating.1 (xrun wacking wrotating).1 100 101 "k1" "RETIRED" false (xrun [] (xrun wacking wrotating)).1) as [[ret x']|e] eqn:E;
    [|vm_compute in E; discriminate].
  destruct (rotation_retires_soundly wacking [] wrotating 100 101 "k1" x' ret wrotating_ok E) as (r & Hr & _ & _ & _ & Hret & _).
  exists ret, x'. vm_compute in Hr. injection Hr as <-. split; [reflexivity|exact Hret].
Defined.

(** ** Restore and cleanup *)

Definition wrestored : xdb := Eval vm_compute in match EnterRestoreReconciliation 5 wrestore wx with Ok (_, x) => x | Err _ => wx end.

Lemma restore_quarantine_held_witness :
  held (xrun [XCmd (XReauthorize 6 "n1" "rs1")] (wrestored, xstart.2)).1 "n1".
Proof.
  destruct (restore_quarantine_held 5 wrestore wx wrestored xstart.2 [XCmd (XReauthorize 6 "n1" "rs1")] "n1") as [[H _] | (es1 & now' & op' & es2 & He & Ha & _)].
  - vm_compute. reflexivity.
  - discriminate.
  - vm_compute. eexists. reflexivity.
  - exact H.
  - destruct es1 as [|e es1]; [|by destruct es1]. injection He as <- <- <-. destruct Ha as (r & Hr & Hp). vm_compute in Hr. injection Hr as <-. discriminate Hp.
Defined.

Definition wtombstone : CleanupRow := mkCleanup "" "n1" "op-d" true false [] [] 0 0.
Definition wdead : xdb := Eval vm_compute in match CreateNodeCleanupTombstone 3 wtombstone wx with Ok (_, x) => x | Err _ => wx end.
Lemma cleanup_tombstone_final_witness :
  DeliveryAllowed (x_ctl (xrun wmeanwhile (wdead, xstart.2)).1) "n1" "probe_arm" = false ∧
  CreateNodeCleanupTombstone 9 (mkCleanup "" "n1" "op-e" true false [] [] 0 0) (xrun wmeanwhile (wdead, xstart.2)).1 = Err XCleanupConflict.
Proof.
  destruct (cleanup_tombstone_final 3 9 wtombstone (mkCleanup "" "n1" "op-e" true false [] [] 0 0) wx wdead xstart.2 wmeanwhile
    (mkNodeDel "d" "n1" "PENDING" "normal" 0 None) (mkItem "d" "node_decommission" "n1" "" "" 0) 1) as (_ & Hd & Hc & _).
  - vm_compute. reflexivity.
  - reflexivity.
  - reflexivity.
  - split; [apply (Hd "probe_arm"%string); discriminate|]. apply Hc; discriminate.
Defined.

(** ** Forwards *)

Definition wforward : ForwardRow := mkForward "f1" "n1" "web" "tcp" None 1 0 0.
Definition wout (op ty : string) : ControlOutboxItem := mkItem op ty "n1" "payload" "" 0.
Definition wrec : IdemRow := mkIdem "key1" "POST /forwards" "admin" "body-hash" 201 "body" 0 0.
Definition wcreated : xdb := Eval vm_compute in
  match CreateForwardBundle true 10 wforward (mkSpec "s1" "f1" 1 "{}" 0) (wout "o1" "desired") wrec wx with Ok (_, x) => x | Err _ => wx end.
Definition wdesired : xdb := Eval vm_compute in
  match ApplyForwardDesired 11 (mkSpec "s2" "f1" 2 "{}" 0) (wout "o2" "desired") wcreated with Ok (_, x) => x | Err _ => wx end.

Lemma wcreated_ok : forwards_ok wcreated.
Proof. apply NoDup_singleton. Qed.

Lemma desired_single_winner_witness :
  is_ok (ApplyForwardDesired 13 (mkSpec "s3" "f1" 2 "{...}" 0) (wout "o3" "desired") (xrun [XCmd (XActivate 12 "f1" 2 "a")] (wdesired, xstart.2)).1) = false.
Proof.
  apply (desired_single_winner 11 13 (mkSpec "s2" "f1" 2 "{}" 0) (mkSpec "s3" "f1" 2 "{...}" 0) (wout "o2" "desired") (wout "o3" "desired") wcreated wdesired xstart.2
    [XCmd (XActivate 12 "f1" 2 "a")]); [cbn; lia..|exact wcreated_ok|vm_compute; reflexivity|by constructor; [intros []|]|reflexivity|cbn; lia].
Defined.

Lemma forward_create_idempotent_witness :
  GetIdempotency "key1" (xrun wmeanwhile (wcreated, xstart.2)).1 = Ok (ik_stamp 10 wrec) ∧
  CreateForwardBundle true 99 wforward (mkSpec "s9" "f1" 1 "{}" 0) (wout "o9" "node_decommission") wrec (xrun wmeanwhile (wcreated, xstart.2)).1
  = Ok ((ik_stamp 10 wrec, true), (xrun wmeanwhile (wcreated, xstart.2)).1).
Proof.
  destruct (forward_create_idempotent 10 99 wforward wforward (mkSpec "s1" "f1" 1 "{}" 0) (mkSpec "s9" "f1" 1 "{}" 0) (wout "o1" "desired")
    (wout "o9" "node_decommission") wrec wrec (ik_stamp 10 wrec) wx wcreated xstart.2 wmeanwhile) as (_ & Hg & Hr).
  - vm_compute. reflexivity.
  - repeat constructor; by intros.
  - vm_compute. reflexivity.
  - reflexivity.
  - discriminate.
  - reflexivity.
  - reflexivity.
  - vm_compute. reflexivity.
  - split; [exact Hg|]. etrans; [exact Hr|reflexivity].
Defined.

(** A deletion and its two result messages. *)
Definition wresult_id : string := deterministicMessageID "d1" "operation_complete".
Definition wdeleting : list xevent :=
  [XCmd (XDelete 20 (mkDeletion "d1" "f1" "" 2 0 None) (wout "d1" "forward_delete"));
   XCmd (XCtl (KRecord 21 (mkInboxItem wresult_id "n1" "operation_complete" "d1" "deleted" "")))].
Definition wreported : xdb := Eval vm_compute in (xrun wdeleting (wdesired, xstart.2)).1.
Definition wdeleted : xdb := Eval vm_compute in match CompleteForwardDeletionMessage 22 wresult_id wreported with Ok (_, x) => x | Err _ => wx end.

Lemma wx_ctl_ok : db_ok (x_ctl wx).
Proof. change wx with (xrun wseed xstart).1. apply (kt_ok _ _ (xrun_store wseed xstart empty_db_ok)). Qed.

Lemma store_outbox_refinement_witness :
  (∃ p, outbox_view (x_ctl (xrun wdeleting (wdesired, xstart.2)).1) "d1" "forward_delete" = Some ("PENDING"%string, p)) ∧
  rtc (store_edge "u") (outbox_view (x_ctl wx) "t" "u") (outbox_view (x_ctl (xrun wmeanwhile (wx, xstart.2)).1) "t" "u").
Proof. split; [eexists; vm_compute; reflexivity|]. apply (store_outbox_refinement wmeanwhile (wx, xstart.2) wx_ctl_ok). Defined.

Lemma wreported_ok : db_ok (x_ctl wreported).
Proof.
  assert (E : wreported = (xrun (wseed ++ [XCmd (XForwardBundle true 10 wforward (mkSpec "s1" "f1" 1 "{}" 0) (wout "o1" "desired") wrec);
    XCmd (XDesired 11 (mkSpec "s2" "f1" 2 "{}" 0) (wout "o2" "desired"))] ++ wdeleting) xstart).1) by (vm_compute; reflexivity).
  rewrite E. exact (kt_ok _ _ (xrun_store _ xstart empty_db_ok)).
Qed.

Lemma deletion_result_sound_witness :
  (∃ o, deletion_row wdeleted "d1" = Some o ∧ dl_status o = "COMPLETED"%string) ∧
  completeForwardDeletionMessage 30 wresult_id false "" "" wdeleted = Ok (tt, wdeleted).
Proof.
  destruct (deletion_result_sound 22 30 wresult_id false "" "" wreported wdeleted wreported_ok) as (r & op & o & f & Hc & _ & _ & _ & _ & _ & Ha).
  - vm_compute. reflexivity.
  - split; [eexists; vm_compute; split; reflexivity|exact Ha].
Defined.
