(* ===== verification/ProbeWitness.v ===== *)
(** * A verified probe, from arming to its outcome *)

From Stdlib Require Import ZArith Lia Strings.Byte.
From stdpp Require Import base tactics list sets strings option relations gmap.
From S2P Require Import Prelude GoStd Frame Envelope Domain Probe Sql Control ControlProofs ControlCleanup CtlDb EnrollStore CtlLifecycle Forwards ProbeStore ProbeLookup CtlRun ProbeLife ForwardProps ProbeProps CtlWitness.

Open Scope Z_scope.

#[local] Existing Instance toy_crypto.
#[local] Existing Instance toy_ctl_json.
#[local] Existing Instance toy_probe_json.
#[local] Existing Instance toy_probe_json_laws.

Definition wpub : bytes := drop 32 sample_key.
Definition warm : ProbeArm := sample_arm 60000.
Definition wwan : ProviderFrame := sample_wan 60000.
Definition wwan_hex : string := hex_of (provider_SigningBytes wwan ++ pf_Signature wwan).
Definition wack_hex : string := hex_of (let a := reply_ack sample_key warm wwan in ack_SigningBytes a ++ ak_Signature a).
Definition wreceipt_hex : string := hex_of (let r := reply_receipt sample_key warm wwan in receipt_SigningBytes r ++ rc_Signature r).

(** The provider's result, signed. *)
Definition wresult_of (signature : string) : storedProviderResult :=
  mkStored ProviderResultSchema "p1" true (hex_of (provider_ChallengeHash wwan)) wwan_hex wack_hex "" 20 signature.
Definition wsigned : string := hex_of (ed25519_sign sample_key (stored_canonical (wresult_of ""))).
Definition wstored : string :=
  string_of (glue comma (map bytes_of [ProviderResultSchema; "p1"; "true"; hex_of (provider_ChallengeHash wwan); wwan_hex; wack_hex; ""; "20"; wsigned]%string)).

Definition wprobe (id : string) : ProbeOpRow :=
  mkProbeOp id "n1" "f1" "a" 3 "v1" "" (pa_Endpoint warm) (hex_of (arm_Canonical warm)) "" 60000 (hex_of (pa_ExpiryOpaque warm)) 70 0 0.
Definition wmirror : string := "ONLINE,READY,PUBLIC_CANDIDATE,HEALTHY,PROBING,NOT_TESTED,PASS,NONE,READY".
Definition wopen : string := "ONLINE,READY,PUBLIC_CANDIDATE,HEALTHY,OPEN_FROM_VANTAGE,VERIFIED,PASS,PUBLISHED_VERIFIED,READY".

(** The operation is armed, dispatched, and its evidence recorded. *)
Definition wprobing : list xevent := map XCmd
  [XActivate 12 "f1" 2 "a"; XProvider 12 (mkProviderRow "v1" "vantage" (hex_of wpub) "9.9.9.9" "https://v1" true true 0 0); XMirror 13 "f1" "a" 3 wmirror;
   XProbeBundle 14 (wprobe "p1") (wout "p1" "probe_arm"); XProbeStatus 15 "p1" "PENDING" "ARMED"; XProbeStatus 16 "p1" "ARMED" "IN_FLIGHT";
   XProbeChallenge 20 "p1" (hex_of (provider_ChallengeHash wwan)); XProbeEvidence 21 "p1" "wan1" wwan_hex; XProbeEvidence 21 "p1" "ack1" wack_hex;
   XProbeEvidence 22 "p1" "rct1" wreceipt_hex; XProbeEvidence 22 "p1" "provider" wstored].
Definition wevidence : xdb := Eval vm_compute in (xrun wprobing (wdesired, xstart.2)).1.
Definition wverified : xdb := Eval vm_compute in match PublishProbeJoin 25 "p1" "IN_FLIGHT" "f1" "a" wopen [wpub] wevidence with Ok (_, x) => x | Err _ => wevidence end.
Definition wjoin : list xevent := [XCmd (XProbeJoin 25 "p1" "IN_FLIGHT" "f1" "a" wopen [wpub])].
Definition wdecided : xdb := Eval vm_compute in match QueueProbeOutcome 26 "p1" "open" wverified with Ok (_, x) => x | Err _ => wverified end.

Lemma wdesired_probes : probes_ok (x_ctl wdesired).
Proof. split; [constructor|constructor|by intros ? ?%elem_of_nil|constructor|by intros ? ?%elem_of_nil]. Qed.
Lemma wevidence_probes : probes_ok (x_ctl wevidence).
Proof.
  split.
  - apply NoDup_singleton.
  - apply (bool_decide_eq_true_1 (NoDup (evidence_key <$> t_results (x_ctl wevidence)))). vm_compute. reflexivity.
  - intros r Hr. assert (Hall : forallb (λ r, String.eqb (rr_probe r) "p1") (t_results (x_ctl wevidence)) = true) by reflexivity.
    rewrite forallb_forall in Hall. apply list_elem_of_In, Hall, String.eqb_eq in Hr. rewrite Hr.
    destruct (sql_row (po_at "p1") (t_probes (x_ctl wevidence))) as [o|] eqn:E; [|discriminate]. apply sql_row_Some in E as [Ho Hid%po_at_iff]. by exists o.
  - constructor.
  - by intros ? ?%elem_of_nil.
Qed.
Lemma wjoined : PublishProbeJoin 25 "p1" "IN_FLIGHT" "f1" "a" wopen [wpub] wevidence = Ok (tt, wverified).
Proof. vm_compute. reflexivity. Qed.
Lemma wjoin_run c : xrun wjoin (wevidence, c) = (wverified, c).
Proof. unfold xrun, wjoin. cbn [foldl xstep fst snd xbody]. unfold commit_tx. rewrite wjoined. reflexivity. Qed.

Lemma probe_lifecycle_refinement_witness :
  ps_status <$> probe_view (x_ctl wevidence) "p1" = Some "IN_FLIGHT"%string ∧
  ps_status <$> probe_view (x_ctl (xrun wjoin (wevidence, xstart.2)).1) "p1" = Some "OPEN_FROM_VANTAGE"%string ∧
  ∀ id, rtc (probe_edge true) (probe_view (x_ctl wevidence) id) (probe_view (x_ctl (xrun wjoin (wevidence, xstart.2)).1) id).
Proof.
  split; [reflexivity|]. split; [rewrite wjoin_run; reflexivity|].
  exact (proj2 (probe_lifecycle_refinement wjoin (wevidence, xstart.2) wevidence_probes)).
Defined.

Lemma publish_join_sound_witness :
  po_status <$> probe_row wevidence "p1" = Some "IN_FLIGHT"%string ∧ po_status <$> probe_row wverified "p1" = Some "OPEN_FROM_VANTAGE"%string ∧
  ∃ previous wan, mirror wevidence "f1" = Some ("a"%string, 3, previous) ∧ decodeActivationSnapshot wopen = Some wan ∧
    mirror wverified "f1" = Some ("a"%string, 3, merge_states wan previous).
Proof.
  destruct (publish_join_sound 25 "p1" "IN_FLIGHT" "f1" "a" wopen [wpub] wevidence wverified tt wjoined)
    as (nodeKey & op & provider & f & j & wan & previous & _ & Hid & Hb & _ & Hw & Hm & _ & Hp & Hm' & _).
  assert (Hop : probe_row wevidence "p1" = Some op) by (injection Hid as <- _ _; exact (jb_op _ _ _ _ _ Hb)).
  assert (Hr : po_revision op = 3) by (cbv in Hop; injection Hop as <-; reflexivity).
  split; [reflexivity|]. split; [rewrite Hp; reflexivity|]. exists previous, wan. rewrite Hr in Hm, Hm'. split; [exact Hm|]. split; [exact Hw|exact Hm'].
Defined.

Lemma open_requires_join_witness :
  ∃ now expected forward activation snapshot nodeKey, In (XCmd (XProbeJoin now "p1" expected forward activation snapshot [nodeKey])) wjoin.
Proof.
  destruct (open_requires_join wjoin (wevidence, xstart.2) "p1" wevidence_probes) as (es1 & e & es2 & He & Hy);
    [discriminate|rewrite wjoin_run; reflexivity|].
  assert (Hin : In e wjoin) by (rewrite He; apply in_elt). cbv zeta in Hy.
  destruct Hy as [(now & expected & forward & activation & snapshot & nodeKey & _ & _ & _ & _ & -> & _) | [(before & ts & op & -> & _) | (ts & op & outbox & -> & _)]].
  - exists now, expected, forward, activation, snapshot, nodeKey. exact Hin.
  - exfalso. destruct Hin as [Hin|[]]. discriminate Hin.
  - exfalso. destruct Hin as [Hin|[]]. discriminate Hin.
Defined.

Lemma outcome_decided_once_witness :
  decision_of (x_ctl wdecided) "p1" = Some "ENQUEUED"%string ∧ QueueProbeOutcome 99 "p1" "closed" wdecided = Ok ("ENQUEUED"%string, wdecided).
Proof.
  assert (E : QueueProbeOutcome 26 "p1" "open" wverified = Ok ("ENQUEUED"%string, wdecided)) by (vm_compute; reflexivity).
  destruct (outcome_decided_once 26 99 "p1" "open" "closed" wverified wdecided "ENQUEUED" ltac:(vm_compute; reflexivity) E) as (op & _ & _ & Hd & _ & _ & _ & Ha).
  split; [exact Hd|exact Ha].
Defined.

Lemma wevidence_forwards : forwards_ok wevidence.
Proof. apply NoDup_singleton. Qed.
Lemma mirror_write_fenced_witness :
  is_ok (SetForwardRuntimeStatus 30 "f1" "a" 3 wmirror wevidence) = true ∧
  (commit_tx (SetForwardRuntimeStatus 30 "f1" "a" 2 wopen) wevidence).2 = wevidence ∧
  is_ok (SetForwardRuntimeStatus 30 "f1" "a" 2 wopen wevidence) = false.
Proof.
  split; [vm_compute; reflexivity|].
  destruct (sql_row (fw_at "f1") (x_forwards wevidence)) as [f|] eqn:E; [|vm_compute in E; discriminate].
  refine (proj2 (mirror_write_fenced 30 "f1" "a" 2 wopen wevidence wevidence_forwards) f E _). vm_compute in E. injection E as <-. vm_compute. discriminate.
Defined.

(** ** The lookup by digest *)

Definition wquery : probe_query := mkQuery (live_at 30) true defaultProbeLookupBudget.
Lemma paged_lookup_exact_witness :
  ∃ o, findProbeOperationByArmDigest (λ _, wevidence) (arm_Digest warm) wquery = Some (Ok o) ∧ po_id o = "p1"%string.
Proof.
  destruct (sql_row (po_at "p1") (t_probes (x_ctl wevidence))) as [o|] eqn:E; [|vm_compute in E; discriminate].
  exists o. split; [|vm_compute in E; injection E as <-; reflexivity].
  apply (proj2 (paged_lookup_exact wquery wevidence (arm_Digest warm) (pk_ops _ wevidence_probes) ltac:(vm_compute; split; reflexivity)) o).
  vm_compute in E. injection E as <-. split; [vm_compute; discriminate|]. split; [split; [by left|split; vm_compute; reflexivity]|]. split; [discriminate|].
  intros o' Ho' _ _. apply elem_of_cons in Ho' as [->|Ho']; [reflexivity|]. by apply elem_of_nil in Ho'.
Defined.

(** The operation is there for the first page only. *)
Lemma paged_lookup_sound_witness :
  ∃ r, findProbeOperationByArmDigest (λ i, if decide (i = 0%nat) then wevidence else wdesired) (arm_Digest warm) wquery = Some r ∧ is_ok r = true.
Proof.
  destruct (paged_lookup_sound (λ i, if decide (i = 0%nat) then wevidence else wdesired) wquery (arm_Digest warm)) as (r & Hr & _);
    [vm_compute; split; reflexivity|].
  exists r. split; [exact Hr|]. vm_compute in Hr. injection Hr as <-. reflexivity.
Defined.
