(* ===== verification/Float64.v ===== *)
(** * IEEE 754 binary64 as Go uses it

    The [float64] arithmetic, comparisons and integer conversions, and [strconv.ParseFloat]
    and [strconv.FormatInt] on decimal text, over the standard library's specification
    floats. *)

From Stdlib Require Import ZArith Lia Strings.Byte Floats.SpecFloat.
From stdpp Require Import base tactics list strings option.
From S2P Require Import Prelude GoStd.

Open Scope list_scope.
Open Scope Z_scope.

Definition float64 : Type := spec_float.
#[export] Instance float64_eq_dec : EqDecision float64.
Proof. unfold float64. solve_decision. Defined.

Definition f_add : float64 → float64 → float64 := SFadd 53 1024.
Definition f_sub : float64 → float64 → float64 := SFsub 53 1024.
Definition f_mul : float64 → float64 → float64 := SFmul 53 1024.
Definition f_div : float64 → float64 → float64 := SFdiv 53 1024.
Definition f_neg : float64 → float64 := SFopp.
Definition f_eqb : float64 → float64 → bool := SFeqb.
Definition f_ltb : float64 → float64 → bool := SFltb.
Definition f_leb : float64 → float64 → bool := SFleb.

(** [float64(n)]. *)
Definition f_of_int (n : Z) : float64 := binary_normalize 53 1024 n 0 false.

(** The integer part of a finite value. *)
Definition f_trunc (f : float64) : option Z :=
  match f with
  | S754_zero _ => Some 0
  | S754_finite s m e =>
      let a := if 0 <=? e then Z.pos m * 2 ^ e else Z.pos m / 2 ^ (- e) in
      Some (if s then - a else a)
  | _ => None
  end.

(** [int(f)]: the result for a value that no [int64] represents is the
    implementation's, here an argument. *)
Definition f_to_int (other : float64 → Z) (f : float64) : Z :=
  match f_trunc f with
  | Some n => if (- 2 ^ 63 <=? n) && (n <? 2 ^ 63) then n else other f
  | None => other f
  end.

(** [strconv.FormatInt(n, 10)]. *)
Definition FormatInt (n : Z) : bytes := if n <? 0 then minus_sign :: Itoa (- n) else Itoa n.

(** ** [strconv.ParseFloat]

    Decimal syntax: a sign, digits with at most one point, an exponent. *)

Definition is_digit (c : byte) : bool := (48 <=? b2z c) && (b2z c <=? 57).

(** The digits from the front, their value over [n], and how many follow the point. *)
Fixpoint read_mantissa (s : bytes) (n : Z) (digits : bool) (point : option Z) : Z * bool * option Z * bytes :=
  match s with
  | [] => (n, digits, point, [])
  | c :: s' =>
      if is_digit c then read_mantissa s' (10 * n + (b2z c - 48)) true (Z.succ <$> point)
      else if Byte.eqb c dot then match point with None => read_mantissa s' n digits (Some 0) | Some _ => (n, digits, point, s) end
      else (n, digits, point, s)
  end.
Definition read_sign (s : bytes) : bool * bytes :=
  match s with
  | c :: s' => if Byte.eqb c minus_sign then (true, s') else if Byte.eqb c plus_sign then (false, s') else (false, s)
  | [] => (false, [])
  end.
Fixpoint read_exponent (s : bytes) (e : Z) : option Z :=
  match s with
  | [] => Some e
  | c :: s' => if is_digit c then read_exponent s' (if e <? 10000 then e * 10 + (b2z c - 48) else e) else None
  end.

(** The nearest value of [n * 10 ^ e]. *)
Definition decimal_float (neg : bool) (n e : Z) : float64 :=
  match n with
  | Z.pos m =>
      if 0 <=? e then binary_normalize 53 1024 (if neg then - (n * 10 ^ e) else n * 10 ^ e) 0 false
      else let '(q, e', l) := SFdiv_core_binary 53 1024 n 0 (10 ^ (- e)) 0 in binary_round_aux 53 1024 neg q e' l
  | _ => S754_zero neg
  end.
Definition finite_only (f : float64) : option float64 := match f with S754_infinity _ | S754_nan => None | _ => Some f end.

Definition parse_decimal (s : bytes) : option float64 :=
  let '(neg, s) := read_sign s in
  let '(n, digits, point, rest) := read_mantissa s 0 false None in
  if negb digits then None
  else
    let frac := match point with Some k => k | None => 0 end in
    match rest with
    | [] => finite_only (decimal_float neg n (- frac))
    | c :: rest' =>
        if (b2z c =? 101) || (b2z c =? 69) then
          let '(eneg, ds) := read_sign rest' in
          match ds with
          | [] => None
          | _ => match read_exponent ds 0 with
                 | Some e => finite_only (decimal_float neg n ((if eneg then - e else e) - frac))
                 | None => None
                 end
          end
        else None
    end.

(** ** Examples *)

Definition float_text (s : string) : option float64 := parse_decimal (bytes_of s).
Example half : float_text "0.5" = Some (f_div (f_of_int 1) (f_of_int 2)).
Proof. vm_compute. reflexivity. Qed.
Example tenth : float_text "0.1" = Some (f_div (f_of_int 1) (f_of_int 10)) ∧ float_text "1e-1" = float_text "0.1".
Proof. vm_compute. split; reflexivity. Qed.
Example point_three : f_add (f_div (f_of_int 1) (f_of_int 10)) (f_div (f_of_int 2) (f_of_int 10)) ≠ f_div (f_of_int 3) (f_of_int 10).
Proof. vm_compute. discriminate. Qed.
Example not_numbers : float_text "1.2.3" = None ∧ float_text "." = None ∧ float_text "1e" = None ∧ float_text "1e309" = None ∧
  float_text "1e-400" = Some (S754_zero false).
Proof. vm_compute. repeat split. Qed.
