(* ===== verification/HookText.v ===== *)
(** * The text the broker signs

    RFC 3986 percent-encoding, the canonical query and the string to sign of
    [src/internal/hook/broker.go], shared by the broker and the script runtime. *)

From Stdlib Require Import ZArith Lia Strings.Byte.
From stdpp Require Import base tactics list strings option gmap sorting.
From S2P Require Import Prelude GoStd.

Open Scope string_scope.
Open Scope list_scope.
Open Scope Z_scope.

(** Bytewise order of Go strings. *)
Definition string_le (a b : string) : Prop := String.ltb b a = false.
#[export] Instance string_le_dec a b : Decision (string_le a b).
Proof. unfold string_le. apply _. Defined.
(** [sort.Strings]. *)
Definition sort_strings (l : list string) : list string := merge_sort string_le l.
(** The keys of a map, sorted. *)
Definition sorted_keys {A} (m : gmap string A) : list string := sort_strings (map_to_list m).*1.

Definition in_range (lo hi : Z) (c : byte) : bool := (lo <=? b2z c) && (b2z c <=? hi).
Definition unreserved (c : byte) : bool :=
  in_range 65 90 c || in_range 97 122 c || in_range 48 57 c || existsb (λ n, b2z c =? n) [45; 95; 46; 126].
(** [upperhex[v]]. *)
Definition upper_hex (v : Z) : byte := u8 (if v <? 10 then 48 + v else 55 + v).
Definition percent_byte (c : byte) : bytes :=
  if unreserved c then [c] else [percent; upper_hex (Z.shiftr (b2z c) 4); upper_hex (Z.land (b2z c) 15)].
Definition percent_bytes (s : bytes) : bytes := concat (map percent_byte s).
Definition PercentEncode (s : string) : string := string_of (percent_bytes (bytes_of s)).

Definition ampersand : byte := u8 38.
Definition equals : byte := u8 61.
Fixpoint join_bytes (sep : bytes) (l : list bytes) : bytes :=
  match l with [] => [] | [x] => x | x :: l' => x ++ sep ++ join_bytes sep l' end.
Definition query_pair (params : gmap string string) (k : string) : bytes :=
  percent_bytes (bytes_of k) ++ equals :: percent_bytes (bytes_of (default "" (params !! k))).
Definition canonical_bytes (params : gmap string string) : bytes := join_bytes [ampersand] (map (query_pair params) (sorted_keys params)).
Definition CanonicalQuery (params : gmap string string) : string := string_of (canonical_bytes params).

(** The Unicode tables behind [strings.ToUpper], [strings.ToLower] and [strings.EqualFold]. *)
Class UnicodeCase := { to_upper : bytes → bytes; to_lower : bytes → bytes; EqualFold : string → string → bool }.

Definition StringToSign `{UnicodeCase} (method path canonicalQuery : string) : string :=
  string_of (to_upper (bytes_of method) ++ ampersand :: percent_bytes (bytes_of path) ++ ampersand :: percent_bytes (bytes_of canonicalQuery)).

(** The tables on ASCII text, for the examples and the witnesses. *)
Definition upper_byte (c : byte) : byte := if in_range 97 122 c then u8 (b2z c - 32) else c.
Definition lower_byte (c : byte) : byte := if in_range 65 90 c then u8 (b2z c + 32) else c.
Definition ascii_case : UnicodeCase :=
  {| to_upper := map upper_byte; to_lower := map lower_byte; EqualFold a b := bytes_eqb (map lower_byte (bytes_of a)) (map lower_byte (bytes_of b)) |}.

Example canonical_example : CanonicalQuery (<["b":="2 3"]> {["a" := "x=y&z"]}) = "a=x%3Dy%26z&b=2%203".
Proof. vm_compute. reflexivity. Qed.
Example to_sign_example : @StringToSign ascii_case "post" "/a b" "k=v" = "POST&%2Fa%20b&k%3Dv".
Proof. vm_compute. reflexivity. Qed.

(** * Different requests are signed as different strings *)

(** ** Percent-encoding is a prefix code *)

Definition hex_value (c : byte) : Z := if b2z c <? 58 then b2z c - 48 else b2z c - 55.
(** The first encoded byte, and the rest. *)
Definition unpercent (l : bytes) : option (byte * bytes) :=
  match l with
  | [] => None
  | c :: l' => if Byte.eqb c percent then match l' with a :: b :: r => Some (u8 (16 * hex_value a + hex_value b), r) | _ => None end else Some (c, l')
  end.
Lemma unpercent_byte c r : unpercent (percent_byte c ++ r) = Some (c, r).
Proof. by destruct c. Qed.

Lemma percent_byte_nonempty c : percent_byte c ≠ [].
Proof. unfold percent_byte. by destruct (unreserved c). Qed.

Lemma percent_bytes_inj s1 s2 : percent_bytes s1 = percent_bytes s2 → s1 = s2.
Proof.
  unfold percent_bytes. revert s2. induction s1 as [|c s1 IH]; intros [|c2 s2]; cbn; [done|..].
  - intros H. symmetry in H. apply app_nil in H as [H _]. by apply percent_byte_nonempty in H.
  - intros H. apply app_nil in H as [H _]. by apply percent_byte_nonempty in H.
  - intros H. apply (f_equal unpercent) in H. rewrite !unpercent_byte in H. injection H as -> H. f_equal. by apply IH.
Qed.

(** Text without the separators. *)
Definition unseparated (l : bytes) : Prop := ampersand ∉ l ∧ equals ∉ l.
Lemma percent_byte_plain c : forallb (λ x, negb (Byte.eqb x ampersand || Byte.eqb x equals)) (percent_byte c) = true.
Proof. by destruct c. Qed.
Lemma percent_bytes_plain s : unseparated (percent_bytes s).
Proof.
  assert (H : ∀ x, x ∈ percent_bytes s → x ≠ ampersand ∧ x ≠ equals).
  { unfold percent_bytes. intros x Hx. apply list_elem_of_In, in_concat in Hx. destruct Hx as (l & Hl & Hx).
    apply in_map_iff in Hl as (c & <- & _). pose proof (percent_byte_plain c) as Hp. rewrite forallb_forall in Hp. specialize (Hp x Hx).
    apply negb_true_iff, orb_false_iff in Hp as [H1 H2]. by split; intros ->. }
  split; intros Hx; by destruct (H _ Hx).
Qed.

(** ** Separated text *)

Lemma cut_at (c : byte) l1 l2 r1 r2 : c ∉ l1 → c ∉ l2 → l1 ++ c :: r1 = l2 ++ c :: r2 → l1 = l2 ∧ r1 = r2.
Proof.
  revert l2. induction l1 as [|a l1 IH]; intros [|b l2]; cbn; intros H1 H2 H.
  - by injection H.
  - injection H as -> _. exfalso. apply H2. by left.
  - injection H as -> _. exfalso. apply H1. by left.
  - injection H as -> H. rewrite not_elem_of_cons in H1, H2. destruct (IH l2) as [-> ->]; by try apply H1; try apply H2.
Qed.
Lemma cut_none (c : byte) l1 l2 r2 : c ∉ l1 → l1 ≠ l2 ++ c :: r2.
Proof. intros H ->. apply H, elem_of_app. right. by left. Qed.

Lemma join_bytes_inj (sep : byte) (l1 l2 : list bytes) :
  Forall (λ s, sep ∉ s ∧ s ≠ []) l1 → Forall (λ s, sep ∉ s ∧ s ≠ []) l2 → join_bytes [sep] l1 = join_bytes [sep] l2 → l1 = l2.
Proof.
  assert (Hnil : ∀ x (l : list bytes), x ≠ [] → join_bytes [sep] (x :: l) ≠ []) by (intros x [|y l] Hx; cbn; [done|]; by destruct x).
  revert l2. induction l1 as [|x l1 IH]; intros [|y l2] H1 H2 H; [done|..].
  - apply Forall_cons in H2 as [[_ H2] _]. symmetry in H. by apply Hnil in H.
  - apply Forall_cons in H1 as [[_ H1] _]. by apply Hnil in H.
  - apply Forall_cons in H1 as [[Hx _] H1], H2 as [[Hy _] H2]. destruct l1 as [|x' l1], l2 as [|y' l2].
    + cbn in H. by subst.
    + exfalso. by apply (cut_none sep x y _ Hx) in H.
    + exfalso. symmetry in H. by apply (cut_none sep y x _ Hy) in H.
    + change (x ++ sep :: join_bytes [sep] (x' :: l1) = y ++ sep :: join_bytes [sep] (y' :: l2)) in H.
      apply cut_at in H as [-> H]; [|done..]. f_equal. by apply IH.
Qed.

(** ** Queries *)

Lemma query_pair_inj p1 p2 k1 k2 : query_pair p1 k1 = query_pair p2 k2 → k1 = k2 ∧ default "" (p1 !! k1) = default "" (p2 !! k2).
Proof.
  unfold query_pair. intros H. apply cut_at in H as [H1 H2]; [|apply percent_bytes_plain..].
  apply percent_bytes_inj, bytes_of_inj in H1. by apply percent_bytes_inj, bytes_of_inj in H2.
Qed.
Lemma query_pair_segment p k : ampersand ∉ query_pair p k ∧ query_pair p k ≠ [].
Proof.
  unfold query_pair. split; [|by destruct (percent_bytes (bytes_of k))].
  rewrite not_elem_of_app, not_elem_of_cons. split_and!; [apply percent_bytes_plain|done|apply percent_bytes_plain].
Qed.
Lemma elem_of_sorted_keys {A} (m : gmap string A) k : k ∈ sorted_keys m ↔ is_Some (m !! k).
Proof.
  unfold sorted_keys, sort_strings. rewrite (merge_sort_Permutation string_le). rewrite list_elem_of_fmap. split.
  - intros ([k' v] & -> & H). apply elem_of_map_to_list in H. by eexists.
  - intros [v H]. exists (k, v). split; [done|]. by apply elem_of_map_to_list.
Qed.

Lemma canonical_inj m1 m2 : canonical_bytes m1 = canonical_bytes m2 → m1 = m2.
Proof.
  intros H. unfold canonical_bytes in H. apply join_bytes_inj in H; [|apply Forall_forall; intros x Hx; apply list_elem_of_fmap in Hx as (k & -> & _); apply query_pair_segment..].
  assert (Hk : sorted_keys m1 = sorted_keys m2 ∧ ∀ k, k ∈ sorted_keys m1 → default "" (m1 !! k) = default "" (m2 !! k)).
  { revert H. generalize (sorted_keys m1) (sorted_keys m2). induction l as [|k l IH]; intros [|k' l']; cbn; [|done|done|].
    - intros _. split; [done|]. intros k Hk. by apply not_elem_of_nil in Hk.
    - intros [= Hp Hl]. apply query_pair_inj in Hp as [<- Hv]. destruct (IH _ Hl) as [-> Hd]. split; [done|].
      intros k2 [->|Hk2]%elem_of_cons; [done|]. by apply Hd. }
  destruct Hk as [Hk Hv]. apply map_eq. intros k.
  destruct (m1 !! k) as [v1|] eqn:E1, (m2 !! k) as [v2|] eqn:E2; try done.
  - assert (Hin : k ∈ sorted_keys m1) by (apply elem_of_sorted_keys; by eexists). specialize (Hv k Hin). rewrite E1, E2 in Hv. cbn in Hv. by rewrite Hv.
  - assert (Hin : k ∈ sorted_keys m1) by (apply elem_of_sorted_keys; by eexists). rewrite Hk in Hin. apply elem_of_sorted_keys in Hin as [? ?]. congruence.
  - assert (Hin : k ∈ sorted_keys m2) by (apply elem_of_sorted_keys; by eexists). rewrite <- Hk in Hin. apply elem_of_sorted_keys in Hin as [? ?]. congruence.
Qed.

(** C38: a signature binds the whole request line.  When two requests, with methods that hold
    no [&], have the same string to sign, they have the same method up to case, the same path,
    and the same query parameters: no parameter can be moved into another's name or value, and
    none added or left out. *)
Theorem string_to_sign_binds `{UnicodeCase} (method1 method2 path1 path2 : string) (query1 query2 : gmap string string) :
  ampersand ∉ to_upper (bytes_of method1) → ampersand ∉ to_upper (bytes_of method2) →
  StringToSign method1 path1 (CanonicalQuery query1) = StringToSign method2 path2 (CanonicalQuery query2) →
  to_upper (bytes_of method1) = to_upper (bytes_of method2) ∧ path1 = path2 ∧ query1 = query2.
Proof.
  intros H1 H2 He. unfold StringToSign in He. apply string_of_inj in He.
  apply cut_at in He as [Hm He]; [|done..]. apply cut_at in He as [Hp He]; [|apply percent_bytes_plain..].
  apply percent_bytes_inj, bytes_of_inj in Hp. apply percent_bytes_inj, bytes_of_inj in He. apply string_of_inj in He. split_and!; [done..|].
  by apply canonical_inj.
Qed.

Lemma string_to_sign_binds_witness :
  let q : gmap string string := {["a" := "1&b=2"]} in
  ampersand ∉ @to_upper ascii_case (bytes_of "post") ∧
  @to_upper ascii_case (bytes_of "post") = @to_upper ascii_case (bytes_of "POST") ∧ "/x" = "/x" ∧ q = q.
Proof.
  assert (H1 : ampersand ∉ @to_upper ascii_case (bytes_of "post")) by (apply (bool_decide_unpack _); vm_compute; exact I).
  assert (H2 : ampersand ∉ @to_upper ascii_case (bytes_of "POST")) by (apply (bool_decide_unpack _); vm_compute; exact I).
  split; [exact H1|]. apply (@string_to_sign_binds ascii_case "post" "POST" "/x" "/x" {["a" := "1&b=2"]} {["a" := "1&b=2"]} H1 H2).
  vm_compute. reflexivity.
Defined.
