(* ===== verification/ScriptSyntax.v ===== *)
(** * Hook scripts: tokens, syntax trees and the parser

    The lexer and the recursive descent parser of [src/internal/hook/runner_eval.go].  A
    position in the source or in the tokens is the rest of it; reading past the last
    token is the panic of an index out of range. *)

From Stdlib Require Import ZArith Lia Strings.Byte.
From stdpp Require Import base tactics list strings option gmap.
From S2P Require Import Prelude GoStd Float64.

Open Scope string_scope.
Open Scope list_scope.
Open Scope Z_scope.

(** ** Tokens *)

Inductive tokKind : Type :=
  | tokEOF | tokIdent | tokNumber | tokString | tokLParen | tokRParen | tokLBrace | tokRBrace | tokLBracket | tokRBracket
  | tokComma | tokSemi | tokDot | tokColon | tokAssign | tokPlus | tokMinus | tokStar | tokSlash | tokPercent
  | tokEq | tokNeq | tokStrictEq | tokStrictNeq | tokLt | tokLe | tokGt | tokGe | tokAnd | tokOr | tokBang
  | tokFunction | tokReturn | tokIf | tokElse | tokFor | tokOf | tokVar | tokLet | tokConst
  | tokTrue | tokFalse | tokNull | tokUndefined | tokDelete | tokNew.
#[export] Instance tokKind_eq_dec : EqDecision tokKind.
Proof. solve_decision. Defined.
Scheme Boolean Equality for tokKind.

Record token : Type := mkToken { tok_kind : tokKind; tok_text : string; tok_num : float64 }.
Definition zero_num : float64 := f_of_int 0.
Definition plain (k : tokKind) : token := mkToken k "" zero_num.

Definition keywords : list (string * tokKind) :=
  [("function", tokFunction); ("return", tokReturn); ("if", tokIf); ("else", tokElse); ("for", tokFor); ("of", tokOf); ("var", tokVar);
   ("let", tokLet); ("const", tokConst); ("true", tokTrue); ("false", tokFalse); ("null", tokNull); ("undefined", tokUndefined);
   ("delete", tokDelete); ("new", tokNew)]%string.
Definition keyword (text : string) : option tokKind := snd <$> List.find (λ k, String.eqb (fst k) text) keywords.

(** The errors of the lexer and the parser; those built with a format keep its argument. *)
Inductive syntax_error : Type :=
  | Syntax (msg : string)
  | InvalidNumber (text : string)
  | UnexpectedCharacter (c : byte)
  | UnexpectedToken (text : string).

(** ** The lexer *)

Definition is_byte (n : Z) (c : byte) : bool := b2z c =? n.
Definition between (lo hi : Z) (c : byte) : bool := (lo <=? b2z c) && (b2z c <=? hi).
Definition isIdentStart (c : byte) : bool := between 97 122 c || between 65 90 c || is_byte 95 c || is_byte 36 c.
Definition isIdentPart (c : byte) : bool := isIdentStart c || between 48 57 c.
Definition is_space (c : byte) : bool := is_byte 32 c || is_byte 9 c || is_byte 10 c || is_byte 13 c.

(** [for l.pos < len(l.src) && p(l.src[l.pos]) { l.pos++ }]: what is passed and what is left. *)
Fixpoint span (p : byte → bool) (s : bytes) : bytes * bytes :=
  match s with
  | c :: s' => if p c then let '(a, b) := span p s' in (c :: a, b) else ([], s)
  | [] => ([], [])
  end.

(** The end of a block comment, or of the source. *)
Fixpoint skip_block (s : bytes) : bytes :=
  match s with
  | c :: (d :: s'') as s' => if is_byte 42 c && is_byte 47 d then s'' else skip_block s'
  | _ => []
  end.

(** [None]: out of fuel. *)
Fixpoint skip_blank (fuel : nat) (s : bytes) : option bytes :=
  match fuel with
  | O => None
  | S fuel =>
      match s with
      | [] => Some []
      | c :: s' =>
          if is_space c then skip_blank fuel s'
          else if is_byte 47 c then
            match s' with
            | d :: s'' =>
                if is_byte 47 d then skip_blank fuel (span (λ c, negb (is_byte 10 c)) s).2
                else if is_byte 42 d then skip_blank fuel (skip_block s'')
                else Some s
            | [] => Some s
            end
          else Some s
      end
  end.

(** The characters of a string up to the quote; [None] if it is not closed.  A backslash
    before the end of the source stands for itself. *)
Definition unescape (c : byte) : byte := if is_byte 110 c then u8 10 else if is_byte 116 c then u8 9 else c.
Fixpoint lex_string (quote : byte) (s : bytes) : option (bytes * bytes) :=
  match s with
  | [] => None
  | c :: s' =>
      if Byte.eqb c quote then Some ([], s')
      else if is_byte 92 c then
        match s' with
        | d :: s'' => prod_map (cons (unescape d)) id <$> lex_string quote s''
        | [] => None
        end
      else prod_map (cons c) id <$> lex_string quote s'
  end.

(** A character followed by [=] or by [==]. *)
Definition lex_equals (one two three : tokKind) (s : bytes) : token * bytes :=
  match s with
  | c :: s' => if is_byte 61 c then
                 match s' with
                 | d :: s'' => if is_byte 61 d then (plain three, s'') else (plain two, s')
                 | [] => (plain two, s')
                 end
               else (plain one, s)
  | [] => (plain one, s)
  end.
Definition lex_or_equal (one two : tokKind) (s : bytes) : token * bytes :=
  match s with c :: s' => if is_byte 61 c then (plain two, s') else (plain one, s) | [] => (plain one, s) end.
Definition lex_double (n : Z) (k : tokKind) (msg : string) (s : bytes) : result syntax_error (token * bytes) :=
  match s with c :: s' => if is_byte n c then Ok (plain k, s') else Err (Syntax msg) | [] => Err (Syntax msg) end.

Definition lex_operator (c : byte) (s : bytes) : result syntax_error (token * bytes) :=
  match b2z c with
  | 40 => Ok (plain tokLParen, s) | 41 => Ok (plain tokRParen, s)
  | 123 => Ok (plain tokLBrace, s) | 125 => Ok (plain tokRBrace, s)
  | 91 => Ok (plain tokLBracket, s) | 93 => Ok (plain tokRBracket, s)
  | 44 => Ok (plain tokComma, s) | 59 => Ok (plain tokSemi, s) | 46 => Ok (plain tokDot, s) | 58 => Ok (plain tokColon, s)
  | 61 => Ok (lex_equals tokAssign tokEq tokStrictEq s)
  | 33 => Ok (lex_equals tokBang tokNeq tokStrictNeq s)
  | 43 => Ok (plain tokPlus, s) | 45 => Ok (plain tokMinus, s) | 42 => Ok (plain tokStar, s) | 47 => Ok (plain tokSlash, s) | 37 => Ok (plain tokPercent, s)
  | 60 => Ok (lex_or_equal tokLt tokLe s)
  | 62 => Ok (lex_or_equal tokGt tokGe s)
  | 38 => lex_double 38 tokAnd "syntax: single & is not supported" s
  | 124 => lex_double 124 tokOr "syntax: single | is not supported" s
  | _ => Err (UnexpectedCharacter c)
  end.

(** [next]: one token and the rest of the source. *)
Definition lex_next (s : bytes) : option (result syntax_error (token * bytes)) :=
  match skip_blank (S (length s)) s with
  | None => None
  | Some s =>
      Some match s with
      | [] => Ok (plain tokEOF, [])
      | c :: s' =>
          if isIdentStart c then
            let '(text, rest) := span isIdentPart s in
            let text := string_of text in
            Ok (mkToken (default tokIdent (keyword text)) text zero_num, rest)
          else if is_digit c then
            let '(text, rest) := span (λ c, is_digit c || is_byte 46 c) s in
            match parse_decimal text with
            | Some n => Ok (mkToken tokNumber (string_of text) n, rest)
            | None => Err (InvalidNumber (string_of text))
            end
          else if is_byte 34 c || is_byte 39 c then
            match lex_string c s' with
            | Some (text, rest) => Ok (mkToken tokString (string_of text) zero_num, rest)
            | None => Err (Syntax "syntax: unterminated string")
            end
          else lex_operator c s'
      end
  end.

Fixpoint lex_loop (fuel : nat) (s : bytes) : option (result syntax_error (list token)) :=
  match fuel with
  | O => None
  | S fuel =>
      match lex_next s with
      | None => None
      | Some (Err e) => Some (Err e)
      | Some (Ok (t, rest)) =>
          if decide (tok_kind t = tokEOF) then Some (Ok [t])
          else match lex_loop fuel rest with
               | Some (Ok l) => Some (Ok (t :: l))
               | r => r
               end
      end
  end.
Definition lex (src : bytes) : option (result syntax_error (list token)) := lex_loop (S (length src)) src.

(** ** Syntax trees

    One type for expressions and statements, as in the source; [nilStmt] is the nil
    interface that an empty statement leaves in a branch.  An object literal is a Go map:
    one expression per key. *)

Inductive expr : Type :=
  | numLit (n : float64)
  | strLit (s : string)
  | boolLit (b : bool)
  | nullLit
  | ident (name : string)
  | objLit (fields : list (string * expr))
  | arrLit (items : list expr)
  | member (obj prop : expr)
  | call (fn : expr) (args : list expr)
  | binary (op : string) (l r : expr)
  | unary (op : string) (x : expr)
  | assignExpr (target value : expr)
  | ifExpr (cond thn : expr) (els : option expr)
  | fnLit (name : string) (params : list string) (body : list expr)
  | varDecl (name : string) (init : option expr)
  | exprStmt (x : expr)
  | retStmt (value : option expr)
  | blockStmt (body : list expr)
  | ifStmt (cond thn els : expr)
  | forOfStmt (v : string) (it : expr) (body : list expr)
  | fnDecl (name : string) (params : list string) (body : list expr)
  | nilStmt.

(** [obj[key] = val]. *)
Fixpoint set_field {A} (key : string) (v : A) (l : list (string * A)) : list (string * A) :=
  match l with
  | [] => [(key, v)]
  | (k, w) :: l' => if String.eqb k key then (k, v) :: l' else (k, w) :: set_field key v l'
  end.

(** ** The parser *)

Inductive pres (A : Type) : Type :=
  | POk (a : A) (rest : list token)
  | PErr (e : syntax_error)
  | PPanic
  | PFuel.
Arguments POk {A} a rest.
Arguments PErr {A} e.
Arguments PPanic {A}.
Arguments PFuel {A}.

Definition parser (A : Type) : Type := list token → pres A.
Definition p_bind {A B} (p : parser A) (f : A → parser B) : parser B := λ ts,
  match p ts with POk a rest => f a rest | PErr e => PErr e | PPanic => PPanic | PFuel => PFuel end.
Definition p_ret {A} (a : A) : parser A := λ ts, POk a ts.
Definition p_fail {A} (msg : string) : parser A := λ _, PErr (Syntax msg).

Notation "'parse!' x ':=' p 'in' k" := (p_bind p (λ x, k)) (at level 10, x pattern, k at level 200) : go_scope.
Notation "'unless' b 'fail' msg ';;' k" := (if b then k else p_fail msg) (at level 10, b at level 99, msg at level 99, k at level 200) : go_scope.

Definition peek : parser tokKind := λ ts, match ts with t :: _ => POk (tok_kind t) ts | [] => PPanic end.
Definition peek_token : parser token := λ ts, match ts with t :: _ => POk t ts | [] => PPanic end.
Definition advance : parser token := λ ts,
  match ts with [] => PPanic | [t] => POk t [t] | t :: rest => POk t rest end.
Definition accept (k : tokKind) : parser bool := λ ts,
  match ts with [] => PPanic | t :: rest => if bool_decide (tok_kind t = k) then POk true rest else POk false ts end.

Definition binaryPrecedence (op : string) : Z :=
  match op with
  | "||" => 1 | "&&" => 2 | "==" | "!=" | "===" | "!==" => 3 | "<" | "<=" | ">" | ">=" => 4 | "+" | "-" => 5 | "*" | "/" | "%" => 6 | _ => 0
  end%string.
Definition binOp (k : tokKind) : string :=
  match k with
  | tokOr => "||" | tokAnd => "&&" | tokEq => "==" | tokNeq => "!=" | tokStrictEq => "===" | tokStrictNeq => "!=="
  | tokLt => "<" | tokLe => "<=" | tokGt => ">" | tokGe => ">=" | tokPlus => "+" | tokMinus => "-" | tokStar => "*" | tokSlash => "/"
  | tokPercent => "%" | _ => ""
  end%string.

Definition is_kind (k l : tokKind) : bool := bool_decide (k = l).
Definition ends_statement (k : tokKind) : bool := is_kind k tokRBrace || is_kind k tokEOF.

(** [eatSemi]: a missing semicolon is not an error. *)
Definition eatSemi : parser unit := parse! ok := accept tokSemi in if ok then p_ret tt else parse! _ := peek in p_ret tt.

Fixpoint params_loop (fuel : nat) (params : list string) : parser (list string) :=
  match fuel with
  | O => λ _, PFuel
  | S fuel =>
      parse! k := peek in
      if is_kind k tokRParen then p_ret params
      else
        parse! param := advance in
        unless is_kind (tok_kind param) tokIdent fail "syntax: expected parameter name" ;;
        parse! comma := accept tokComma in
        if comma then params_loop fuel (params ++ [tok_text param]) else p_ret (params ++ [tok_text param])
  end.

Fixpoint stmt (fuel : nat) : parser (option expr) :=
  match fuel with
  | O => λ _, PFuel
  | S fuel =>
      parse! k := peek in
      match k with
      | tokSemi => parse! _ := advance in p_ret None
      | tokVar | tokLet | tokConst =>
          parse! _ := advance in
          parse! name := advance in
          unless is_kind (tok_kind name) tokIdent fail "syntax: expected variable name" ;;
          parse! assigned := accept tokAssign in
          parse! init := (if assigned then parse! e := expression fuel in p_ret (Some e) else p_ret None) in
          parse! semi := accept tokSemi in
          if semi then p_ret (Some (varDecl (tok_text name) init))
          else
            parse! k := peek in
            unless ends_statement k fail "syntax: expected ; after declaration" ;;
            p_ret (Some (varDecl (tok_text name) init))
      | tokFunction =>
          parse! _ := advance in
          parse! name := advance in
          unless is_kind (tok_kind name) tokIdent fail "syntax: top-level functions must be named" ;;
          parse! (params, body) := functionBody fuel in
          p_ret (Some (fnDecl (tok_text name) params body))
      | tokIf =>
          parse! _ := advance in
          parse! ok := accept tokLParen in
          unless ok fail "syntax: expected ( after if" ;;
          parse! cond := expression fuel in
          parse! ok := accept tokRParen in
          unless ok fail "syntax: expected ) in if" ;;
          parse! thenBranch := blockOrStmt fuel in
          parse! els := accept tokElse in
          parse! elseBranch := (if els then blockOrStmt fuel else p_ret nilStmt) in
          p_ret (Some (ifStmt cond thenBranch elseBranch))
      | tokFor =>
          parse! _ := advance in
          parse! ok := accept tokLParen in
          unless ok fail "syntax: expected ( after for" ;;
          parse! v := accept tokVar in
          parse! _ := (if v then p_ret true else parse! l := accept tokLet in if l then p_ret true else accept tokConst) in
          parse! v := advance in
          unless is_kind (tok_kind v) tokIdent fail "syntax: expected loop variable" ;;
          parse! ok := accept tokOf in
          unless ok fail "syntax: only for..of is supported" ;;
          parse! it := expression fuel in
          parse! ok := accept tokRParen in
          unless ok fail "syntax: expected ) in for" ;;
          parse! branch := blockOrStmt fuel in
          match branch with
          | blockStmt body => p_ret (Some (forOfStmt (tok_text v) it body))
          | _ => p_fail "syntax: for body must be a block"
          end
      | tokReturn =>
          parse! _ := advance in
          parse! k := peek in
          parse! value := (if is_kind k tokSemi || ends_statement k then p_ret None else parse! e := expression fuel in p_ret (Some e)) in
          parse! _ := eatSemi in
          p_ret (Some (retStmt value))
      | _ =>
          parse! e := expression fuel in
          parse! _ := eatSemi in
          p_ret (Some (exprStmt e))
      end
  end
with functionBody (fuel : nat) : parser (list string * list expr) :=
  match fuel with
  | O => λ _, PFuel
  | S fuel =>
      parse! ok := accept tokLParen in
      unless ok fail "syntax: expected ( after function name" ;;
      parse! params := params_loop fuel [] in
      parse! ok := accept tokRParen in
      unless ok fail "syntax: expected ) after parameters" ;;
      parse! ok := accept tokLBrace in
      unless ok fail "syntax: expected { for function body" ;;
      parse! body := body_loop fuel "syntax: unterminated function body" [] in
      p_ret (params, body)
  end
with body_loop (fuel : nat) (unterminated : string) (body : list expr) : parser (list expr) :=
  match fuel with
  | O => λ _, PFuel
  | S fuel =>
      parse! k := peek in
      if is_kind k tokRBrace then parse! _ := advance in p_ret body
      else
        unless negb (is_kind k tokEOF) fail unterminated ;;
        parse! st := stmt fuel in
        body_loop fuel unterminated (body ++ option_list st)
  end
with blockOrStmt (fuel : nat) : parser expr :=
  match fuel with
  | O => λ _, PFuel
  | S fuel =>
      parse! k := peek in
      if is_kind k tokLBrace then
        parse! _ := advance in
        parse! body := body_loop fuel "syntax: unterminated block" [] in
        p_ret (blockStmt body)
      else parse! st := stmt fuel in p_ret (default nilStmt st)
  end
with expression (fuel : nat) : parser expr :=
  match fuel with O => λ _, PFuel | S fuel => parse_binary fuel 1 end
with parse_binary (fuel : nat) (minPrec : Z) : parser expr :=
  match fuel with
  | O => λ _, PFuel
  | S fuel => parse! x := parse_unary fuel in binary_loop fuel minPrec x
  end
with binary_loop (fuel : nat) (minPrec : Z) (x : expr) : parser expr :=
  match fuel with
  | O => λ _, PFuel
  | S fuel =>
      parse! k := peek in
      let op := binOp k in
      if String.eqb op "" then p_ret x
      else
        let prec := binaryPrecedence op in
        if prec <? minPrec then p_ret x
        else
          parse! _ := advance in
          parse! y := parse_binary fuel (prec + 1) in
          binary_loop fuel minPrec (binary op x y)
  end
with parse_unary (fuel : nat) : parser expr :=
  match fuel with
  | O => λ _, PFuel
  | S fuel =>
      parse! k := peek in
      if is_kind k tokBang then parse! _ := advance in parse! x := parse_unary fuel in p_ret (unary "!" x)
      else if is_kind k tokMinus then parse! _ := advance in parse! x := parse_unary fuel in p_ret (unary "-" x)
      else postfix fuel
  end
with postfix (fuel : nat) : parser expr :=
  match fuel with
  | O => λ _, PFuel
  | S fuel => parse! e := primary fuel in postfix_loop fuel e
  end
with postfix_loop (fuel : nat) (e : expr) : parser expr :=
  match fuel with
  | O => λ _, PFuel
  | S fuel =>
      parse! k := peek in
      match k with
      | tokDot =>
          parse! _ := advance in
          parse! prop := advance in
          unless is_kind (tok_kind prop) tokIdent fail "syntax: expected property name after ." ;;
          postfix_loop fuel (member e (strLit (tok_text prop)))
      | tokLBracket =>
          parse! _ := advance in
          parse! idx := expression fuel in
          parse! ok := accept tokRBracket in
          unless ok fail "syntax: expected ]" ;;
          postfix_loop fuel (member e idx)
      | tokLParen =>
          parse! _ := advance in
          parse! args := args_loop fuel [] in
          parse! ok := accept tokRParen in
          unless ok fail "syntax: expected ) in call" ;;
          postfix_loop fuel (call e args)
      | tokAssign =>
          parse! _ := advance in
          parse! val := expression fuel in
          p_ret (assignExpr e val)
      | _ => p_ret e
      end
  end
with args_loop (fuel : nat) (args : list expr) : parser (list expr) :=
  match fuel with
  | O => λ _, PFuel
  | S fuel =>
      parse! k := peek in
      if is_kind k tokRParen then p_ret args
      else
        parse! arg := expression fuel in
        parse! comma := accept tokComma in
        if comma then args_loop fuel (args ++ [arg]) else p_ret (args ++ [arg])
  end
with items_loop (fuel : nat) (items : list expr) : parser (list expr) :=
  match fuel with
  | O => λ _, PFuel
  | S fuel =>
      parse! k := peek in
      if is_kind k tokRBracket then p_ret items
      else
        unless negb (is_kind k tokEOF) fail "syntax: unterminated array" ;;
        parse! item := expression fuel in
        parse! comma := accept tokComma in
        if comma then items_loop fuel (items ++ [item]) else p_ret (items ++ [item])
  end
with fields_loop (fuel : nat) (fields : list (string * expr)) : parser (list (string * expr)) :=
  match fuel with
  | O => λ _, PFuel
  | S fuel =>
      parse! k := peek in
      if is_kind k tokRBrace then p_ret fields
      else
        unless negb (is_kind k tokEOF) fail "syntax: unterminated object" ;;
        unless is_kind k tokIdent || is_kind k tokString fail "syntax: object keys must be identifiers or strings" ;;
        parse! key := advance in
        parse! ok := accept tokColon in
        unless ok fail "syntax: expected : in object literal" ;;
        parse! val := expression fuel in
        parse! comma := accept tokComma in
        if comma then fields_loop fuel (set_field (tok_text key) val fields) else p_ret (set_field (tok_text key) val fields)
  end
with primary (fuel : nat) : parser expr :=
  match fuel with
  | O => λ _, PFuel
  | S fuel =>
      parse! t := peek_token in
      match tok_kind t with
      | tokNumber => parse! _ := advance in p_ret (numLit (tok_num t))
      | tokString => parse! _ := advance in p_ret (strLit (tok_text t))
      | tokTrue => parse! _ := advance in p_ret (boolLit true)
      | tokFalse => parse! _ := advance in p_ret (boolLit false)
      | tokNull | tokUndefined => parse! _ := advance in p_ret nullLit
      | tokIdent => parse! _ := advance in p_ret (ident (tok_text t))
      | tokLParen =>
          parse! _ := advance in
          parse! e := expression fuel in
          parse! ok := accept tokRParen in
          unless ok fail "syntax: expected )" ;;
          p_ret e
      | tokLBrace =>
          parse! ok := accept tokLBrace in
          unless ok fail "syntax: expected {" ;;
          parse! fields := fields_loop fuel [] in
          parse! ok := accept tokRBrace in
          unless ok fail "syntax: expected }" ;;
          p_ret (objLit fields)
      | tokLBracket =>
          parse! _ := advance in
          parse! items := items_loop fuel [] in
          parse! ok := accept tokRBracket in
          unless ok fail "syntax: expected ]" ;;
          p_ret (arrLit items)
      | tokFunction =>
          parse! _ := advance in
          parse! (params, body) := functionBody fuel in
          p_ret (fnLit "" params body)
      | tokDelete | tokNew => p_fail "syntax: delete/new are not supported"
      | _ => λ _, PErr (UnexpectedToken (tok_text t))
      end
  end.

(** [for p.peek().kind != tokEOF]: the statements of the script. *)
Fixpoint program_loop (fuel : nat) (body : list expr) : parser (list expr) :=
  match fuel with
  | O => λ _, PFuel
  | S fuel' =>
      parse! k := peek in
      if is_kind k tokEOF then p_ret body
      else parse! st := stmt fuel in program_loop fuel' (body ++ option_list st)
  end.

(** Enough for every nesting of the productions over the tokens. *)
Definition parse_fuel (ts : list token) : nat := (12 * S (length ts))%nat.
Definition parse (src : bytes) : pres (list expr) :=
  match lex src with
  | Some (Ok ts) => program_loop (parse_fuel ts) [] ts
  | Some (Err e) => PErr e
  | None => PFuel
  end.

Definition script (s : string) : pres (list expr) := parse (bytes_of s).
Example precedence_example : script "a || b && c == d + e * -f;" =
  POk [exprStmt (binary "||" (ident "a") (binary "&&" (ident "b") (binary "==" (ident "c") (binary "+" (ident "d") (binary "*" (ident "e") (unary "-" (ident "f")))))))]
    [plain tokEOF].
Proof. vm_compute. reflexivity. Qed.
Example left_associative_example : script "a - b - c" = POk [exprStmt (binary "-" (binary "-" (ident "a") (ident "b")) (ident "c"))] [plain tokEOF].
Proof. vm_compute. reflexivity. Qed.
Example comment_example : script "/* one */ var x = {k: [1, 'two']}; // three" =
  POk [varDecl "x" (Some (objLit [("k"%string, arrLit [numLit (f_of_int 1); strLit "two"])]))] [plain tokEOF].
Proof. vm_compute. reflexivity. Qed.
