(* ===== verification/ScriptParse.v ===== *)
(** * The script parser is total

    Lexing and parsing end on every source, without reading past the last token, within
    the fuel of the definitions; what is accepted is read to the end. *)

From Stdlib Require Import ZArith Lia Strings.Byte.
From stdpp Require Import base tactics list strings option.
From S2P Require Import Prelude GoStd Float64 ScriptSyntax.

Open Scope list_scope.
Open Scope nat_scope.

(** ** The lexer *)

Lemma span_length p s : length (span p s).2 ≤ length s.
Proof. induction s as [|c s IH]; cbn; [done|]. destruct (p c); [|cbn; lia]. destruct (span p s) as [a b]. cbn in *. lia. Qed.
Lemma span_consumes p c s : p c = true → length (span p (c :: s)).2 < S (length s).
Proof. intros Hp. cbn. rewrite Hp. pose proof (span_length p s). destruct (span p s) as [a b]. cbn in *. lia. Qed.
Lemma skip_block_length s : length (skip_block s) ≤ length s.
Proof.
  induction s as [|c s IH]; cbn; [done|]. destruct s as [|d s]; [cbn; lia|]. destruct (_ && _); [cbn; lia|]. cbn in *. lia.
Qed.
Lemma skip_blank_total fuel s : length s < fuel → ∃ r, skip_blank fuel s = Some r ∧ length r ≤ length s.
Proof.
  revert s. induction fuel as [|fuel IH]; intros s Hf; [lia|]. destruct s as [|c s]; cbn; [by eexists|]. cbn in Hf.
  destruct (is_space c) eqn:Ec. { destruct (IH s ltac:(lia)) as (r & -> & Hr). eexists. split; [done|lia]. }
  destruct (is_byte 47 c) eqn:Es; [|eexists; split; [done|cbn; lia]]. destruct s as [|d s]; [eexists; split; [done|cbn; lia]|].
  destruct (is_byte 47 d) eqn:Ed.
  - assert (Hc : negb (is_byte 10 c) = true) by (unfold is_byte in *; apply Z.eqb_eq in Es; rewrite Es; done).
    change (if negb (is_byte 10 c) then let '(a, b) := span (λ c, negb (is_byte 10 c)) (d :: s) in (c :: a, b) else ([], c :: d :: s))
      with (span (λ c, negb (is_byte 10 c)) (c :: d :: s)).
    pose proof (span_consumes (λ c, negb (is_byte 10 c)) c (d :: s) Hc) as Hl. cbn [length] in *.
    destruct (IH (span (λ c, negb (is_byte 10 c)) (c :: d :: s)).2 ltac:(lia)) as (r & -> & Hr). eexists. split; [done|lia].
  - destruct (is_byte 42 d); [|eexists; split; [done|cbn; lia]]. pose proof (skip_block_length s).
    destruct (IH (skip_block s) ltac:(cbn in *; lia)) as (r & -> & Hr). eexists. split; [done|cbn; lia].
Qed.

Lemma lex_string_length q s text rest : lex_string q s = Some (text, rest) → length rest < length s.
Proof.
  revert text rest. induction s as [s IH] using (induction_ltof1 _ (@length byte)); unfold ltof in IH. intros text rest.
  destruct s as [|c s]; cbn; [done|]. destruct (Byte.eqb c q); [intros [= _ <-]; cbn; lia|].
  destruct (is_byte 92 c).
  - destruct s as [|d s]; [done|]. destruct (lex_string q s) as [[a b]|] eqn:E; cbn; [|done]. intros [= _ <-]. apply IH in E; cbn in *; lia.
  - destruct (lex_string q s) as [[a b]|] eqn:E; cbn; [|done]. intros [= _ <-]. apply IH in E; cbn in *; lia.
Qed.

Lemma lex_equals_length a b c s : length (lex_equals a b c s).2 ≤ length s.
Proof. unfold lex_equals. destruct s as [|x [|y s]]; repeat case_match; cbn; lia. Qed.
Lemma lex_equals_kind a b c s : a ≠ tokEOF → b ≠ tokEOF → c ≠ tokEOF → tok_kind (lex_equals a b c s).1 ≠ tokEOF.
Proof. intros. unfold lex_equals. destruct s as [|x [|y s']]; repeat case_match; done. Qed.
Lemma lex_or_equal_length a b s : length (lex_or_equal a b s).2 ≤ length s.
Proof. unfold lex_or_equal. destruct s as [|x s']; repeat case_match; cbn; lia. Qed.
Lemma lex_or_equal_kind a b s : a ≠ tokEOF → b ≠ tokEOF → tok_kind (lex_or_equal a b s).1 ≠ tokEOF.
Proof. intros. unfold lex_or_equal. destruct s as [|x s']; repeat case_match; done. Qed.
Lemma lex_operator_length c s t rest : lex_operator c s = Ok (t, rest) → length rest ≤ length s ∧ tok_kind t ≠ tokEOF.
Proof.
  unfold lex_operator, lex_double. intros H. repeat case_match; try discriminate H; simplify_eq; try (cbn; split; [lia|done]).
  all: match goal with H : _ = (_, _) |- _ =>
    let Ht := fresh in let Hr := fresh in pose proof (f_equal fst H) as Ht; pose proof (f_equal snd H) as Hr; cbn [fst snd] in Ht, Hr; rewrite <- Ht, <- Hr end.
  all: first [split; [apply lex_equals_length|by apply lex_equals_kind]|split; [apply lex_or_equal_length|by apply lex_or_equal_kind]].
Qed.

(** A token list as the lexer builds it: [tokEOF] at the end and nowhere else. *)
Fixpoint wf (ts : list token) : Prop :=
  match ts with
  | [] => False
  | [t] => tok_kind t = tokEOF
  | t :: ts' => tok_kind t ≠ tokEOF ∧ wf ts'
  end.

Lemma wf_cons t ts : tok_kind t ≠ tokEOF → wf ts → wf (t :: ts).
Proof. intros Ht Hw. destruct ts; [done|]. by split. Qed.
Lemma wf_inv t ts : wf (t :: ts) → tok_kind t ≠ tokEOF → wf ts.
Proof. destruct ts; cbn; [congruence|]. by intros []. Qed.

Lemma lex_next_total s : ∃ r, lex_next s = Some r ∧
  match r with Ok (t, rest) => if decide (tok_kind t = tokEOF) then rest = [] else length rest < length s | Err _ => True end.
Proof.
  unfold lex_next. destruct (skip_blank_total (S (length s)) s) as (r & -> & Hr); [lia|]. eexists. split; [done|].
  destruct r as [|c r]; cbn [length] in Hr; [done|].
  destruct (isIdentStart c) eqn:Ei.
  { assert (Hp : isIdentPart c = true) by (unfold isIdentPart; by rewrite Ei). pose proof (span_consumes isIdentPart c r Hp) as Hl.
    destruct (span isIdentPart (c :: r)) as [text rest]. cbn [snd tok_kind] in *. destruct (decide _) as [He|]; [|lia]. exfalso. revert He.
    unfold keyword. destruct (List.find _ keywords) as [[k v]|] eqn:Ef; cbn; [|done]. apply List.find_some in Ef as [Hin _]. intros ->.
    unfold keywords in Hin. cbn in Hin. repeat (destruct Hin as [Hin|Hin]; [discriminate Hin|]). exact Hin. }
  destruct (is_digit c) eqn:Ed.
  { pose proof (span_consumes (λ c, is_digit c || is_byte 46 c) c r) as Hl. cbv beta in Hl. rewrite Ed in Hl. specialize (Hl eq_refl).
    destruct (span _ (c :: r)) as [text rest]. cbn [snd] in Hl. destruct (parse_decimal text); [|done]. rewrite decide_False by done. lia. }
  destruct (is_byte 34 c || is_byte 39 c).
  { destruct (lex_string c r) as [[text rest]|] eqn:El; [|done]. apply lex_string_length in El. rewrite decide_False by done. lia. }
  destruct (lex_operator c r) as [[t rest]|e] eqn:Eo; [|done]. apply lex_operator_length in Eo as [Hl Hk]. rewrite decide_False by done. lia.
Qed.

Lemma lex_loop_total fuel s : length s < fuel → ∃ r, lex_loop fuel s = Some r ∧ match r with Ok ts => wf ts ∧ length ts ≤ S (length s) | Err _ => True end.
Proof.
  revert s. induction fuel as [|fuel IH]; intros s Hf; [lia|]. cbn. destruct (lex_next_total s) as (r & -> & Hr).
  destruct r as [[t rest]|e]; [|by eexists]. destruct (decide (tok_kind t = tokEOF)) as [Ht|Ht].
  - eexists. split; [done|]. cbn. split; [done|lia].
  - destruct (IH rest ltac:(lia)) as ([ts|e] & -> & Hw); [|by eexists]. eexists. split; [done|]. destruct Hw as [Hw Hl]. split; [by apply wf_cons|]. cbn. lia.
Qed.

(** ** The parser *)

(** A safe outcome: a well-formed rest of at most [m] tokens, or a syntax error. *)
Definition upto {A} (m : nat) (r : pres A) : Prop :=
  match r with POk _ rest => wf rest ∧ length rest ≤ m | PErr _ => True | PPanic | PFuel => False end.

Section Safe.
Context {A B : Type}.
Implicit Types (ts : list token) (m : nat).

Lemma upto_mono m m' (r : pres A) : upto m r → m ≤ m' → upto m' r.
Proof. destruct r; cbn; [|done..]. intros [? ?] ?. split; [done|lia]. Qed.
Lemma upto_bind m1 m (p : parser A) (f : A → parser B) ts :
  upto m1 (p ts) → (∀ a rest, wf rest → length rest ≤ m1 → upto m (f a rest)) → upto m (p_bind p f ts).
Proof. unfold p_bind. destruct (p ts); cbn; [|done..]. intros [? ?] Hf. by apply Hf. Qed.
Lemma upto_ret m (a : A) ts : wf ts → length ts ≤ m → upto m (p_ret a ts).
Proof. by split. Qed.
Lemma upto_fail m msg ts : upto m (@p_fail A msg ts).
Proof. done. Qed.
Lemma upto_unless m b msg (p : parser A) ts : (b = true → upto m (p ts)) → upto m ((unless b fail msg ;; p) ts).
Proof. destruct b; [auto|done]. Qed.

(** The kind of the next token decides whether there is a rest. *)
Definition next_kind ts : tokKind := match ts with t :: _ => tok_kind t | [] => tokEOF end.
Lemma upto_peek m (f : tokKind → parser B) ts : wf ts → upto m (f (next_kind ts) ts) → upto m (p_bind peek f ts).
Proof. by destruct ts. Qed.
Lemma upto_peek_token m (f : token → parser B) ts : wf ts → (∀ t, tok_kind t = next_kind ts → upto m (f t ts)) → upto m (p_bind peek_token f ts).
Proof. destruct ts as [|t ts]; [done|]. intros _ Hf. by apply Hf. Qed.
Lemma upto_advance m (f : token → parser B) ts : wf ts →
  (∀ t rest, tok_kind t = next_kind ts → wf rest → length rest ≤ length ts → (tok_kind t ≠ tokEOF → S (length rest) ≤ length ts) → upto m (f t rest)) →
  upto m (p_bind advance f ts).
Proof.
  destruct ts as [|t [|t' ts]]; [done|..]; intros Hw Hf; unfold p_bind; cbn.
  - apply Hf; [done|done|done|]. intros Hk. by cbn in Hw.
  - apply Hf; [done|by destruct Hw|cbn; lia|]. intros _. cbn. lia.
Qed.
Lemma upto_accept m k (f : bool → parser B) ts : wf ts → k ≠ tokEOF →
  (∀ rest, wf rest → S (length rest) ≤ length ts → upto m (f true rest)) → upto m (f false ts) → upto m (p_bind (accept k) f ts).
Proof.
  destruct ts as [|t ts]; [done|]. intros Hw Hk Ht Hf. unfold p_bind, accept. destruct (bool_decide_reflect (tok_kind t = k)) as [He|]; [|done].
  apply Ht; [|done]. apply (wf_inv t); [done|congruence].
Qed.
End Safe.

Lemma upto_eatSemi ts : wf ts → upto (length ts) (eatSemi ts).
Proof.
  intros Hw. apply upto_accept; [done|done| |].
  - intros rest Hr Hl. apply upto_ret; [done|lia].
  - apply upto_peek; [done|]. by apply upto_ret.
Qed.

Lemma upto_next {B} m (f : token → parser B) ts : wf ts → next_kind ts ≠ tokEOF →
  (∀ t rest, wf rest → S (length rest) ≤ length ts → upto m (f t rest)) → upto m (p_bind advance f ts).
Proof. intros Hw Hk Hf. apply upto_advance; [done|]. intros t rest Ht Hr _ Hl. apply Hf; [done|]. apply Hl. congruence. Qed.
Lemma upto_name {B} m msg (f : token → parser B) ts : wf ts →
  (∀ t rest, wf rest → S (length rest) ≤ length ts → upto m (f t rest)) →
  upto m (p_bind advance (λ t, unless is_kind (tok_kind t) tokIdent fail msg ;; f t) ts).
Proof.
  intros Hw Hf. apply upto_advance; [done|]. intros t rest Ht Hr _ Hl. apply upto_unless. intros Hi%bool_decide_eq_true. apply Hf; [done|]. apply Hl. congruence.
Qed.
Lemma wf_pos ts : wf ts → 1 ≤ length ts.
Proof. destruct ts; [done|cbn; lia]. Qed.

Ltac p_finish := first [exact I|apply upto_ret; [assumption|cbn [length] in *; lia]|assumption].
Ltac p_step :=
  cbv beta zeta iota;
  lazymatch goal with
  | |- upto _ (p_bind (p_bind _ _) _ _) => fail
  | |- upto _ (p_bind peek _ _) => apply upto_peek; [assumption|]
  | |- upto _ (p_bind advance (λ t, if is_kind (tok_kind t) tokIdent then _ else p_fail _) _) => apply upto_name; [assumption|intros ? ? ? ?]
  | |- upto _ (p_bind advance _ _) => apply upto_next; [assumption|congruence|intros ? ? ? ?]
  | |- upto _ (p_bind (accept _) _ _) => apply upto_accept; [assumption|discriminate|intros ? ? ?|]
  | |- upto _ (p_bind eatSemi _ _) => eapply upto_bind; [apply upto_eatSemi; assumption|intros [] ? ? ?]
  | |- upto _ ((if _ then _ else p_fail _) _) => apply upto_unless; intros ?
  | |- upto _ (p_ret _ _) => p_finish
  | |- upto _ (p_fail _ _) => p_finish
  end.

(** What one unit of fuel below each production gives. *)
Record parses (n : nat) : Prop := {
  ps_stmt : ∀ ts, wf ts → 12 * length ts + 6 ≤ n → upto (length ts - 1) (stmt n ts);
  ps_function : ∀ ts, wf ts → 12 * length ts + 8 ≤ n → upto (length ts - 1) (functionBody n ts);
  ps_body : ∀ msg l ts, wf ts → 12 * length ts + 7 ≤ n → upto (length ts - 1) (body_loop n msg l ts);
  ps_block : ∀ ts, wf ts → 12 * length ts + 8 ≤ n → upto (length ts - 1) (blockOrStmt n ts);
  ps_expression : ∀ ts, wf ts → 12 * length ts + 5 ≤ n → upto (length ts - 1) (expression n ts);
  ps_binary : ∀ p ts, wf ts → 12 * length ts + 4 ≤ n → upto (length ts - 1) (parse_binary n p ts);
  ps_binary_loop : ∀ p e ts, wf ts → 12 * length ts + 1 ≤ n → upto (length ts) (binary_loop n p e ts);
  ps_unary : ∀ ts, wf ts → 12 * length ts + 3 ≤ n → upto (length ts - 1) (parse_unary n ts);
  ps_postfix : ∀ ts, wf ts → 12 * length ts + 2 ≤ n → upto (length ts - 1) (postfix n ts);
  ps_postfix_loop : ∀ e ts, wf ts → 12 * length ts + 1 ≤ n → upto (length ts) (postfix_loop n e ts);
  ps_args : ∀ l ts, wf ts → 12 * length ts + 6 ≤ n → upto (length ts) (args_loop n l ts);
  ps_items : ∀ l ts, wf ts → 12 * length ts + 6 ≤ n → upto (length ts) (items_loop n l ts);
  ps_fields : ∀ l ts, wf ts → 12 * length ts + 6 ≤ n → upto (length ts) (fields_loop n l ts);
  ps_primary : ∀ ts, wf ts → 12 * length ts + 1 ≤ n → upto (length ts - 1) (primary n ts)
}.

Lemma params_loop_safe n l ts : wf ts → length ts ≤ n → upto (length ts) (params_loop n l ts).
Proof.
  revert l ts. induction n as [|n IH]; intros l ts Hw Hn; [pose proof (wf_pos ts Hw); lia|]. cbn [params_loop]. p_step.
  destruct (is_kind (next_kind ts) tokRParen); [p_finish|]. p_step. p_step.
  - eapply upto_mono; [apply IH; [done|lia]|lia].
  - p_finish.
Qed.

Ltac p_call H :=
  cbv beta zeta iota;
  lazymatch goal with
  | |- upto _ (p_bind _ _ _) => eapply upto_bind; [apply H; [assumption|lia]|intros ? ? ? ?]
  | |- upto _ _ => eapply upto_mono; [apply H; [assumption|lia]|lia]
  end.

Section Step.
Context (n : nat) (IH : parses n).

Lemma binary_loop_step p e ts : wf ts → 12 * length ts + 1 ≤ S n → upto (length ts) (binary_loop (S n) p e ts).
Proof.
  intros Hw Hn. cbn [binary_loop]. p_step. destruct (String.eqb_spec (binOp (next_kind ts)) ""); [p_finish|]. cbv zeta.
  destruct (_ <? _)%Z; [p_finish|]. assert (next_kind ts ≠ tokEOF) by (intros He; by rewrite He in *). p_step. p_call (ps_binary n IH). p_call (ps_binary_loop n IH).
Qed.
Lemma unary_step ts : wf ts → 12 * length ts + 3 ≤ S n → upto (length ts - 1) (parse_unary (S n) ts).
Proof.
  intros Hw Hn. cbn [parse_unary]. p_step. unfold is_kind. destruct (bool_decide_reflect (next_kind ts = tokBang)) as [Hk|].
  - p_step. p_call (ps_unary n IH). p_step.
  - destruct (bool_decide_reflect (next_kind ts = tokMinus)) as [Hk|]; [|p_call (ps_postfix n IH)]. p_step. p_call (ps_unary n IH). p_step.
Qed.
Lemma postfix_loop_step e ts : wf ts → 12 * length ts + 1 ≤ S n → upto (length ts) (postfix_loop (S n) e ts).
Proof.
  intros Hw Hn. cbn [postfix_loop]. p_step. destruct (next_kind ts) eqn:Hk; try p_finish; p_step.
  - p_call (ps_args n IH). p_step; [|p_step]. p_call (ps_postfix_loop n IH).
  - p_call (ps_expression n IH). p_step; [|p_step]. p_call (ps_postfix_loop n IH).
  - p_step. p_call (ps_postfix_loop n IH).
  - p_call (ps_expression n IH). p_step.
Qed.
Lemma args_step l ts : wf ts → 12 * length ts + 6 ≤ S n → upto (length ts) (args_loop (S n) l ts).
Proof.
  intros Hw Hn. cbn [args_loop]. p_step. destruct (is_kind _ _); [p_finish|]. p_call (ps_expression n IH). p_step; [|p_finish]. p_call (ps_args n IH).
Qed.
Lemma items_step l ts : wf ts → 12 * length ts + 6 ≤ S n → upto (length ts) (items_loop (S n) l ts).
Proof.
  intros Hw Hn. cbn [items_loop]. p_step. destruct (is_kind _ tokRBracket); [p_finish|]. p_step. p_call (ps_expression n IH). p_step; [|p_finish].
  p_call (ps_items n IH).
Qed.
Lemma fields_step l ts : wf ts → 12 * length ts + 6 ≤ S n → upto (length ts) (fields_loop (S n) l ts).
Proof.
  intros Hw Hn. cbn [fields_loop]. p_step. destruct (is_kind _ tokRBrace); [p_finish|]. p_step. p_step.
  assert (next_kind ts ≠ tokEOF) by (intros He; by rewrite He in *). p_step. p_step; [|p_step]. p_call (ps_expression n IH). p_step; [|p_finish].
  p_call (ps_fields n IH).
Qed.
Lemma primary_step ts : wf ts → 12 * length ts + 1 ≤ S n → upto (length ts - 1) (primary (S n) ts).
Proof.
  intros Hw Hn. cbn [primary]. apply upto_peek_token; [done|]. intros t Ht. pose proof (wf_pos ts Hw).
  destruct (tok_kind t) eqn:Hk; try exact I; try (p_step; p_finish).
  - p_step. p_call (ps_expression n IH). p_step; [|p_step]. p_step.
  - p_step; [|p_step]. p_call (ps_fields n IH). p_step; [|p_step]. p_step.
  - p_step. p_call (ps_items n IH). p_step; [|p_step]. p_step.
  - p_step. eapply upto_bind; [apply (ps_function n IH); [assumption|lia]|intros [? ?] ? ? ?]. p_step.
Qed.
Lemma function_step ts : wf ts → 12 * length ts + 8 ≤ S n → upto (length ts - 1) (functionBody (S n) ts).
Proof.
  intros Hw Hn. cbn [functionBody]. p_step; [|p_step]. eapply upto_bind; [apply params_loop_safe; [assumption|lia]|intros ? ? ? ?].
  p_step; [|p_step]. p_step; [|p_step]. p_call (ps_body n IH). p_step.
Qed.
Lemma body_step msg l ts : wf ts → 12 * length ts + 7 ≤ S n → upto (length ts - 1) (body_loop (S n) msg l ts).
Proof.
  intros Hw Hn. cbn [body_loop]. p_step. unfold is_kind. destruct (bool_decide_reflect (next_kind ts = tokRBrace)) as [Hk|].
  - p_step. p_step.
  - apply upto_unless. intros _. p_call (ps_stmt n IH). pose proof (wf_pos ts Hw). p_call (ps_body n IH).
Qed.
Lemma block_step ts : wf ts → 12 * length ts + 8 ≤ S n → upto (length ts - 1) (blockOrStmt (S n) ts).
Proof.
  intros Hw Hn. cbn [blockOrStmt]. p_step. unfold is_kind. destruct (bool_decide_reflect (next_kind ts = tokLBrace)) as [Hk|].
  - p_step. p_call (ps_body n IH). p_step.
  - p_call (ps_stmt n IH). p_step.
Qed.
Lemma expression_step ts : wf ts → 12 * length ts + 5 ≤ S n → upto (length ts - 1) (expression (S n) ts).
Proof. intros Hw Hn. cbn [expression]. p_call (ps_binary n IH). Qed.
Lemma binary_step p ts : wf ts → 12 * length ts + 4 ≤ S n → upto (length ts - 1) (parse_binary (S n) p ts).
Proof. intros Hw Hn. cbn [parse_binary]. p_call (ps_unary n IH). pose proof (wf_pos ts Hw). p_call (ps_binary_loop n IH). Qed.
Lemma postfix_step ts : wf ts → 12 * length ts + 2 ≤ S n → upto (length ts - 1) (postfix (S n) ts).
Proof. intros Hw Hn. cbn [postfix]. p_call (ps_primary n IH). pose proof (wf_pos ts Hw). p_call (ps_postfix_loop n IH). Qed.


(** An optional expression. *)
Lemma option_expression_safe (b : bool) ts : wf ts → 12 * length ts + 5 ≤ n →
  upto (length ts) ((if b then p_ret None else parse! e := expression n in p_ret (Some e)) ts).
Proof. intros Hw Hn. destruct b; [p_step|]. p_call (ps_expression n IH). p_step. Qed.
Lemma option_init_safe (b : bool) ts : wf ts → 12 * length ts + 5 ≤ n →
  upto (length ts) ((if b then parse! e := expression n in p_ret (Some e) else p_ret None) ts).
Proof. destruct b; [apply (option_expression_safe false)|apply (option_expression_safe true)]. Qed.
Lemma option_block_safe (b : bool) ts : wf ts → 12 * length ts + 8 ≤ n → upto (length ts) ((if b then blockOrStmt n else p_ret nilStmt) ts).
Proof. intros Hw Hn. destruct b; [|p_step]. p_call (ps_block n IH). Qed.
Lemma loop_keyword_safe (b : bool) ts : wf ts →
  upto (length ts) ((if b then p_ret true else parse! l := accept tokLet in if l then p_ret true else accept tokConst) ts).
Proof.
  intros Hw. destruct b; [p_step|]. p_step; [p_step|]. unfold accept. destruct ts as [|t ts]; [done|]. destruct (bool_decide_reflect (tok_kind t = tokConst)); [|by split].
  split; [apply (wf_inv t); [done|congruence]|cbn; lia].
Qed.

Lemma declaration_step ts k : wf ts → 12 * length ts + 6 ≤ S n → next_kind ts = k → k = tokVar ∨ k = tokLet ∨ k = tokConst → upto (length ts - 1) (stmt (S n) ts).
Proof.
  intros Hw Hn Hk Hd. cbn [stmt]. p_step.
  assert (next_kind ts ≠ tokEOF) by (rewrite Hk; destruct Hd as [->|[->| ->]]; discriminate).
  rewrite Hk. destruct Hd as [->|[->| ->]]; p_step; p_step;
    (p_step; (eapply upto_bind; [first [apply (option_init_safe true)|apply (option_init_safe false)]; [assumption|lia]|intros ? ? ? ?; p_step; [p_step|]; p_step; p_step; p_step])).
Qed.
Lemma if_step ts : wf ts → 12 * length ts + 6 ≤ S n → next_kind ts = tokIf → upto (length ts - 1) (stmt (S n) ts).
Proof.
  intros Hw Hn Hk. cbn [stmt]. p_step. rewrite Hk. p_step. p_step; [|p_step]. p_call (ps_expression n IH). p_step; [|p_step]. p_call (ps_block n IH).
  p_step; (eapply upto_bind; [first [apply (option_block_safe true)|apply (option_block_safe false)]; [assumption|lia]|intros ? ? ? ?; p_step]).
Qed.
Lemma for_step ts : wf ts → 12 * length ts + 6 ≤ S n → next_kind ts = tokFor → upto (length ts - 1) (stmt (S n) ts).
Proof.
  intros Hw Hn Hk. cbn [stmt]. p_step. rewrite Hk. p_step. p_step; [|p_step].
  assert (Hrest : ∀ us, wf us → length us + 2 ≤ length ts → upto (length ts - 1)
    ((parse! v := advance in unless is_kind (tok_kind v) tokIdent fail "syntax: expected loop variable" ;;
      parse! ok := accept tokOf in unless ok fail "syntax: only for..of is supported" ;;
      parse! it := expression n in parse! ok := accept tokRParen in unless ok fail "syntax: expected ) in for" ;;
      parse! branch := blockOrStmt n in
      match branch with blockStmt body => p_ret (Some (forOfStmt (tok_text v) it body)) | _ => p_fail "syntax: for body must be a block" end) us)).
  { intros us Hr Hl. p_step. p_step; [|p_step]. p_call (ps_expression n IH). p_step; [|p_step]. p_call (ps_block n IH).
    match goal with |- upto _ (match ?b with _ => _ end _) => destruct b end; try exact I. p_step. }
  p_step; (eapply upto_bind; [first [apply (loop_keyword_safe true)|apply (loop_keyword_safe false)]; assumption|intros ? ? ? ?; apply Hrest; [assumption|lia]]).
Qed.

Lemma stmt_step ts : wf ts → 12 * length ts + 6 ≤ S n → upto (length ts - 1) (stmt (S n) ts).
Proof.
  intros Hw Hn. destruct (next_kind ts) eqn:Hk;
    try (cbn [stmt]; p_step; rewrite Hk; p_call (ps_expression n IH); p_step; p_step);
    try (eapply declaration_step; [done..|tauto]); try (by apply if_step); try (by apply for_step).
  - cbn [stmt]. p_step. rewrite Hk. p_step. p_step.
  - cbn [stmt]. p_step. rewrite Hk. p_step. p_step. eapply upto_bind; [apply (ps_function n IH); [assumption|lia]|intros [? ?] ? ? ?]. p_step.
  - cbn [stmt]. p_step. rewrite Hk. p_step. p_step. eapply upto_bind; [apply option_expression_safe; [assumption|lia]|intros ? ? ? ?]. p_step. p_step.
Qed.
End Step.

Lemma parses_all n : parses n.
Proof.
  induction n as [|n IH].
  - split; intros; exfalso; lia.
  - split; intros; [by apply stmt_step|by apply function_step|by apply body_step|by apply block_step|by apply expression_step|by apply binary_step|
      by apply binary_loop_step|by apply unary_step|by apply postfix_step|by apply postfix_loop_step|by apply args_step|by apply items_step|by apply fields_step|by apply primary_step].
Qed.

(** A program is read to its last token. *)
Lemma program_loop_safe n l ts : wf ts → 12 * length ts + 7 ≤ n →
  match program_loop n l ts with POk _ rest => ∃ t, rest = [t] ∧ tok_kind t = tokEOF | PErr _ => True | PPanic | PFuel => False end.
Proof.
  revert l ts. induction n as [|n IH]; intros l ts Hw Hn; [lia|]. cbn [program_loop]. unfold p_bind at 1, peek at 1. destruct ts as [|t ts]; [done|].
  destruct (bool_decide_reflect (tok_kind t = tokEOF)) as [Hk|Hk]; unfold is_kind; rewrite bool_decide_decide; [rewrite decide_True by done|rewrite decide_False by done].
  - exists t. split; [|done]. destruct ts; [done|]. by destruct Hw.
  - pose proof (stmt_step n (parses_all n) (t :: ts) Hw ltac:(lia)) as Hs. unfold p_bind at 1. destruct (stmt (S n) (t :: ts)) as [st rest|e| |]; [|done..].
    destruct Hs as [Hr Hl]. cbn [length] in *. apply IH; [done|lia].
Qed.

(** Every source gives a syntax error or statements. *)
Lemma parse_ends (src : bytes) :
  match parse src with POk _ rest => ∃ t, rest = [t] ∧ tok_kind t = tokEOF | PErr _ => True | PPanic | PFuel => False end.
Proof.
  unfold parse, lex. destruct (lex_loop_total (S (length src)) src) as ([ts|e] & -> & Hr); [lia| |done]. destruct Hr as [Hw _].
  apply program_loop_safe; [done|]. unfold parse_fuel. lia.
Qed.

(** The script front end is total.  On every source, lexing and parsing end within
    the fuel of the definitions, with a syntax error or with the statements; they never
    read past the last token, and an accepted script has been read to its end. *)
Theorem script_parse_total (src : bytes) :
  (∃ e, parse src = PErr e) ∨ (∃ body t, parse src = POk body [t] ∧ tok_kind t = tokEOF).
Proof.
  pose proof (parse_ends src) as H. destruct (parse src) as [body rest|e| |]; [|by left; exists e|done..].
  right. destruct H as (t & -> & Ht). by exists body, t.
Qed.
