(* ===== verification/ScriptEval.v ===== *)
(** * Hook scripts: the evaluator

    Values, the heap, the natives and the evaluator of
    [src/internal/hook/runner_eval.go], and [Runner.Run] of [runner.go].  Objects, arrays
    and environments are Go maps and pointers: locations of one store.  An environment is
    the list of the frames its parent pointers lead through, innermost first. *)

From Stdlib Require Import ZArith Lia Strings.Byte Floats.SpecFloat.
From stdpp Require Import base tactics list strings option gmap.
From S2P Require Import Prelude GoStd Float64 Frame HookText ScriptSyntax.

Open Scope string_scope.
Open Scope list_scope.
Open Scope Z_scope.

(** ** Values *)

Definition loc : Type := positive.
Definition env : Type := list loc.

(** The native functions; the methods of an array or of a string hold their receiver. *)
Inductive native : Type :=
  | NPush (a : loc) | NSort (a : loc) | NJoin (a : loc)
  | NUpper (s : string) | NLower (s : string) | NSplit (s : string) | NIndexOf (s : string) | NSubstring (s : string)
  | NTs | NNow | NNonce | NPercentEncode | NCanonicalQuery | NLog | NRequire | NFetch | NProcess | NKeys.

Inductive value : Type :=
  | num (f : float64)
  | str (s : string)
  | boolV (b : bool)
  | nullV
  | objV (l : loc)
  | arrV (l : loc)
  | fnV (name : string) (params : list string) (body : list expr) (e : env)
  | nfnV (n : native).

(** The values of [encoding/json] that a request and a contribution are made of. *)
Inductive any : Type :=
  | AnyNil | AnyMap (m : list (string * any)) | AnyList (l : list any) | AnyString (s : string) | AnyFloat (f : float64) | AnyInt (n : Z) | AnyBool (b : bool).

(** ** The standard library and the surroundings *)

(** The parts of [strconv], [sort] and [strings] whose definition is not needed: number
    syntax other than decimal, shortest formatting, out-of-range conversion, the stable
    sort, the Unicode case tables and the split into characters. *)
Class ScriptLib := {
  parse_special : bytes → option float64;
  format_float : float64 → bytes;
  int_other : float64 → Z;
  stable_sort : (value → value → bool) → list value → list value;
  script_case :: UnicodeCase;
  explode : bytes → list bytes
}.

(** What a run reads from outside, by the number of steps it has taken: the clock, random
    bytes, the cancellation of its context, and the order in which Go iterates over the
    fields of a map. *)
Class ScriptWorld := {
  w_ts : Z → string;
  w_now : Z → Z;
  w_random : Z → option bytes;
  w_done : Z → bool;
  w_order : Z → list string → list string
}.

Record Limits : Type := mkLimits { MaxScriptBytes : Z; MaxRequestBytes : Z; MaxOutputBytes : Z; MaxSteps : Z; MaxCallDepth : Z; Timeout : Z }.

(** ** The machine *)

Record vm : Type := mkVm {
  v_steps : Z; v_depth : Z; v_output : Z; v_logs : list string;
  v_objs : gmap loc (gmap string value); v_arrs : gmap loc (list value); v_frames : gmap loc (gmap string value); v_next : loc
}.
Definition with_steps (n : Z) (s : vm) : vm := mkVm n (v_depth s) (v_output s) (v_logs s) (v_objs s) (v_arrs s) (v_frames s) (v_next s).
Definition with_depth (n : Z) (s : vm) : vm := mkVm (v_steps s) n (v_output s) (v_logs s) (v_objs s) (v_arrs s) (v_frames s) (v_next s).
Definition with_objs o (s : vm) : vm := mkVm (v_steps s) (v_depth s) (v_output s) (v_logs s) o (v_arrs s) (v_frames s) (v_next s).
Definition with_arrs a (s : vm) : vm := mkVm (v_steps s) (v_depth s) (v_output s) (v_logs s) (v_objs s) a (v_frames s) (v_next s).
Definition with_frames f (s : vm) : vm := mkVm (v_steps s) (v_depth s) (v_output s) (v_logs s) (v_objs s) (v_arrs s) f (v_next s).
Definition with_next l (s : vm) : vm := mkVm (v_steps s) (v_depth s) (v_output s) (v_logs s) (v_objs s) (v_arrs s) (v_frames s) l.
Definition with_log (line : string) (n : Z) (s : vm) : vm :=
  mkVm (v_steps s) (v_depth s) n (v_logs s ++ [line]) (v_objs s) (v_arrs s) (v_frames s) (v_next s).

(** A runner error, the [retSignal] of a return statement, or a Go panic. *)
Inductive signal : Type := RunnerErr (kind msg : string) | RetSignal (v : value) | Panicked (msg : string).
Inductive outcome (A : Type) : Type := Done (a : A) | Stop (s : signal) | NoFuel.
Arguments Done {A} a.
Arguments Stop {A} s.
Arguments NoFuel {A}.

Definition ev (A : Type) : Type := vm → outcome A * vm.
Definition e_ret {A} (a : A) : ev A := λ s, (Done a, s).
Definition e_stop {A} (x : signal) : ev A := λ s, (Stop x, s).
Definition runErr {A} (kind msg : string) : ev A := e_stop (RunnerErr kind msg).
Definition e_bind {A B} (m : ev A) (f : A → ev B) : ev B := λ s,
  match m s with (Done a, s') => f a s' | (Stop x, s') => (Stop x, s') | (NoFuel, s') => (NoFuel, s') end.
Definition e_get {A} (f : vm → A) : ev A := λ s, (Done (f s), s).
Definition e_put (f : vm → vm) : ev unit := λ s, (Done tt, f s).
Notation "'do!' x ':=' m 'in' k" := (e_bind m (λ x, k)) (at level 10, x pattern, k at level 200) : go_scope.

Fixpoint e_iter {A} (f : A → ev unit) (l : list A) : ev unit :=
  match l with [] => e_ret tt | a :: l' => do! _ := f a in e_iter f l' end.
Fixpoint e_map {A B} (f : A → ev B) (l : list A) : ev (list B) :=
  match l with [] => e_ret [] | a :: l' => do! b := f a in do! bs := e_map f l' in e_ret (b :: bs) end.

(** ** The heap *)

Definition obj_at (s : vm) (l : loc) : gmap string value := default ∅ (v_objs s !! l).
Definition arr_at (s : vm) (l : loc) : list value := default [] (v_arrs s !! l).
Definition frame_at (s : vm) (l : loc) : gmap string value := default ∅ (v_frames s !! l).

Definition fresh : ev loc := λ s, (Done (v_next s), with_next (Pos.succ (v_next s)) s).
Definition set_obj (l : loc) (o : gmap string value) : ev unit := e_put (λ s, with_objs (<[l := o]> (v_objs s)) s).
Definition set_arr (l : loc) (a : list value) : ev unit := e_put (λ s, with_arrs (<[l := a]> (v_arrs s)) s).
Definition set_frame (l : loc) (f : gmap string value) : ev unit := e_put (λ s, with_frames (<[l := f]> (v_frames s)) s).
Definition new_obj (o : gmap string value) : ev value := do! l := fresh in do! _ := set_obj l o in e_ret (objV l).
Definition new_arr (a : list value) : ev value := do! l := fresh in do! _ := set_arr l a in e_ret (arrV l).
Definition new_frame (f : gmap string value) : ev loc := do! l := fresh in do! _ := set_frame l f in e_ret l.
(** [&env{parent: e, vars: f}]. *)
Definition child_env (e : env) (f : gmap string value) : ev env := do! l := new_frame f in e_ret (l :: e).

(** The frame that holds a name, and its value. *)
Fixpoint env_lookup (s : vm) (e : env) (name : string) : option (loc * value) :=
  match e with
  | [] => None
  | l :: e' => match frame_at s l !! name with Some v => Some (l, v) | None => env_lookup s e' name end
  end.
Definition define (e : env) (name : string) (v : value) : ev unit :=
  match e with l :: _ => do! f := e_get (λ s, frame_at s l) in set_frame l (<[name := v]> f) | [] => e_ret tt end.

(** ** Conversions *)

Section Eval.
Context {lib : ScriptLib} {world : ScriptWorld} (limits : Limits).

Definition ParseFloat (s : string) : option float64 :=
  match parse_decimal (bytes_of s) with Some f => Some f | None => parse_special (bytes_of s) end.
Definition to_int (f : float64) : Z := f_to_int int_other f.

Definition truthy (v : value) : bool :=
  match v with boolV b => b | num f => negb (f_eqb f (f_of_int 0)) | str s => negb (String.eqb s "") | nullV => false | _ => true end.
Definition toNumber (v : value) : option float64 :=
  match v with num f => Some f | boolV b => Some (f_of_int (if b then 1 else 0)) | str s => ParseFloat s | _ => None end.
Definition number_text (f : float64) : bytes :=
  if f_eqb f (f_of_int (to_int f)) && f_ltb f (f_of_int 1000000000000000) then FormatInt (to_int f) else format_float f.
Definition toString (v : value) : option string :=
  match v with
  | str s => Some s
  | num f => Some (string_of (number_text f))
  | boolV b => Some (if b then "true" else "false")
  | nullV => Some "null"
  | _ => None
  end.
Definition looseEq (a b : value) : bool :=
  match a, b with
  | str x, str y => String.eqb x y
  | num x, num y => f_eqb x y
  | boolV x, boolV y => Bool.eqb x y
  | nullV, nullV => true
  | _, _ => false
  end.

Definition length_num (n : nat) : value := num (f_of_int (Z.of_nat n)).

(** ** Budgets *)

Definition bump : ev unit := λ s,
  let s := with_steps (v_steps s + 1) s in
  if MaxSteps limits <? v_steps s then (Stop (RunnerErr "budget" "execution step budget exceeded (infinite loop?)"), s)
  else if (v_steps s mod 1024 =? 0) && w_done (v_steps s) then (Stop (RunnerErr "timeout" "execution time budget exceeded"), s)
  else (Done tt, s).

Definition logLine (line : string) : ev unit := λ s,
  let n := v_output s + Z.of_nat (String.length line) + 1 in
  if MaxOutputBytes limits <? n then (Stop (RunnerErr "budget" "output exceeds the runner bound"), s) else (Done tt, with_log line n s).

(** ** Natives *)

(** [strings.Index] and [strings.Split] for a separator that is not empty. *)
Fixpoint is_prefix (p s : bytes) : bool :=
  match p, s with [], _ => true | a :: p', b :: s' => Byte.eqb a b && is_prefix p' s' | _ :: _, [] => false end.
Fixpoint index_from (needle s : bytes) (i : Z) : Z :=
  if is_prefix needle s then i else match s with [] => -1 | _ :: s' => index_from needle s' (i + 1) end.
Fixpoint split_scan (sep : bytes) (skip : nat) (cur s : bytes) : list bytes :=
  match s with
  | [] => [rev cur]
  | c :: s' =>
      match skip with
      | S skip => split_scan sep skip cur s'
      | O => if is_prefix sep s then rev cur :: split_scan sep (length sep - 1) [] s' else split_scan sep O (c :: cur) s'
      end
  end.
Definition split_text (s sep : bytes) : list bytes := match sep with [] => explode s | _ => split_scan sep O [] s end.

Definition string_arg (args : list value) (other : string) : string :=
  match args with a :: _ => default other (toString a) | [] => other end.
Definition number_arg (n : nat) (args : list value) (other : float64) : float64 :=
  match args !! n with Some a => default other (toNumber a) | None => other end.

Definition substring (b : bytes) (args : list value) : bytes :=
  let n := zlen b in
  let s := to_int (number_arg 0 args (f_of_int 0)) in
  let e := to_int (number_arg 1 args (f_of_int n)) in
  let s := if s <? 0 then 0 else s in
  let s := if n <? s then n else s in
  let e := if e <? s then s else e in
  let e := if n <? e then n else e in
  slice b (Z.to_nat s) (Z.to_nat e).

(** [sort]'s comparison. *)
Definition sort_less (a b : value) : bool :=
  match toString a, toString b with Some x, Some y => String.ltb x y | _, _ => false end.

Definition string_params (o : gmap string value) : option (gmap string string) :=
  if forallb (λ kv, bool_decide (is_Some (toString kv.2))) (map_to_list o) then Some (omap toString o) else None.

Definition call_native (n : native) (args : list value) : ev value :=
  match n with
  | NPush a =>
      do! items := e_get (λ s, arr_at s a) in
      do! _ := set_arr a (items ++ args) in
      e_ret (length_num (length (items ++ args)))
  | NSort a =>
      do! items := e_get (λ s, arr_at s a) in
      do! _ := set_arr a (stable_sort sort_less items) in
      e_ret (arrV a)
  | NJoin a =>
      do! items := e_get (λ s, arr_at s a) in
      match mapM toString items with
      | Some parts => e_ret (str (string_of (join_bytes (bytes_of (string_arg args ",")) (map bytes_of parts))))
      | None => runErr "type" "join expects stringable items"
      end
  | NUpper b => e_ret (str (string_of (to_upper (bytes_of b))))
  | NLower b => e_ret (str (string_of (to_lower (bytes_of b))))
  | NSplit b => new_arr (map (λ p, str (string_of p)) (split_text (bytes_of b) (bytes_of (string_arg args ","))))
  | NIndexOf b =>
      match args with
      | [] => e_ret (num (f_of_int (-1)))
      | a :: _ => match toString a with
                  | Some needle => e_ret (num (f_of_int (index_from (bytes_of needle) (bytes_of b) 0)))
                  | None => runErr "type" "indexOf expects a string"
                  end
      end
  | NSubstring b => e_ret (str (string_of (substring (bytes_of b) args)))
  | NTs => do! n := e_get v_steps in e_ret (str (w_ts n))
  | NNow => do! n := e_get v_steps in e_ret (num (f_of_int (w_now n)))
  | NNonce =>
      do! n := e_get v_steps in
      match w_random n with Some b => e_ret (str (hex_of b)) | None => runErr "type" "nonce: random unavailable" end
  | NPercentEncode =>
      match args with
      | [a] => match toString a with Some s => e_ret (str (PercentEncode s)) | None => runErr "type" "percentEncode expects a string" end
      | _ => runErr "type" "percentEncode takes one argument"
      end
  | NCanonicalQuery =>
      match args with
      | [objV l] =>
          do! o := e_get (λ s, obj_at s l) in
          match string_params o with
          | Some params => e_ret (str (CanonicalQuery params))
          | None => runErr "type" "canonicalQuery param values must be strings"
          end
      | [_] => runErr "type" "canonicalQuery expects an object"
      | _ => runErr "type" "canonicalQuery takes one object"
      end
  | NLog =>
      match mapM toString args with
      | Some parts => do! _ := logLine (string_of (join_bytes (bytes_of " ") (map bytes_of parts))) in e_ret nullV
      | None => runErr "type" "log expects stringable values"
      end
  | NRequire => runErr "reference" "no bridge: require()/module loading is disabled"
  | NFetch => runErr "reference" "no bridge: network is disabled"
  | NProcess => runErr "reference" "no bridge: process is disabled"
  | NKeys =>
      match args with
      | [objV l] => do! o := e_get (λ s, obj_at s l) in new_arr (map str (sorted_keys o))
      | [arrV l] => do! a := e_get (λ s, arr_at s l) in new_arr (map (λ i, str (string_of (Itoa (Z.of_nat i)))) (seq 0 (length a)))
      | [_] => runErr "type" "Object.keys expects an object"
      | _ => runErr "type" "Object.keys takes one argument"
      end
  end.

(** ** Members and operators *)

Definition arrMember (l : loc) (key : string) : ev value :=
  do! items := e_get (λ s, arr_at s l) in
  if String.eqb key "length" then e_ret (length_num (length items))
  else if String.eqb key "push" then e_ret (nfnV (NPush l))
  else if String.eqb key "sort" then e_ret (nfnV (NSort l))
  else if String.eqb key "join" then e_ret (nfnV (NJoin l))
  else
    match Atoi (bytes_of key) with
    | Some i => match (if 0 <=? i then items !! Z.to_nat i else None) with
                | Some v => e_ret v
                | None => runErr "reference" ("array index out of range " +:+ key)
                end
    | None => runErr "reference" ("no such array member " +:+ key)
    end.
Definition strMember (b key : string) : ev value :=
  if String.eqb key "length" then e_ret (length_num (String.length b))
  else if String.eqb key "toUpperCase" then e_ret (nfnV (NUpper b))
  else if String.eqb key "toLowerCase" then e_ret (nfnV (NLower b))
  else if String.eqb key "split" then e_ret (nfnV (NSplit b))
  else if String.eqb key "indexOf" then e_ret (nfnV (NIndexOf b))
  else if String.eqb key "substring" then e_ret (nfnV (NSubstring b))
  else runErr "reference" ("no such string method " +:+ key).
Definition get_member (base : value) (key : string) : ev value :=
  match base with
  | objV l =>
      do! o := e_get (λ s, obj_at s l) in
      match o !! key with
      | Some v => e_ret v
      | None => if String.eqb key "length" then e_ret (length_num (size o)) else runErr "reference" ("no property " +:+ key +:+ " on object")
      end
  | arrV l => arrMember l key
  | str b => strMember b key
  | nfnV _ => runErr "reflection" "reflection on native functions is disabled"
  | fnV _ _ _ _ => runErr "reflection" "reflection on functions is disabled"
  | _ => runErr "type" "cannot read a property on this value"
  end.

Definition arithmetic (op : string) (x y : float64) : ev value :=
  if String.eqb op "-" then e_ret (num (f_sub x y))
  else if String.eqb op "*" then e_ret (num (f_mul x y))
  else if String.eqb op "/" then if f_eqb y (f_of_int 0) then runErr "type" "division by zero" else e_ret (num (f_div x y))
  else if f_eqb y (f_of_int 0) then runErr "type" "modulo by zero"
  else if to_int y =? 0 then e_stop (Panicked "runtime error: integer divide by zero")
  else e_ret (num (f_of_int (Z.rem (to_int x) (to_int y)))).
Definition compare_with {A} (op : string) (lt le : A → A → bool) (x y : A) : value :=
  boolV (if String.eqb op "<" then lt x y else if String.eqb op "<=" then le x y else if String.eqb op ">" then lt y x else le y x).
Definition apply_binary (op : string) (l r : value) : ev value :=
  match op with
  | "+" =>
      match toString l, toString r with
      | Some x, Some y => e_ret (str (x +:+ y))
      | _, _ => match toNumber l, toNumber r with
                | Some x, Some y => e_ret (num (f_add x y))
                | _, _ => runErr "type" "+ operands must be numbers or strings"
                end
      end
  | "-" | "*" | "/" | "%" =>
      match toNumber l, toNumber r with Some x, Some y => arithmetic op x y | _, _ => runErr "type" "arithmetic on non-numbers" end
  | "<" | "<=" | ">" | ">=" =>
      match toString l, toString r with
      | Some x, Some y => e_ret (compare_with op String.ltb (λ a b, negb (String.ltb b a)) x y)
      | _, _ => match toNumber l, toNumber r with
                | Some x, Some y => e_ret (compare_with op f_ltb f_leb x y)
                | _, _ => runErr "type" "comparison on incompatible operands"
                end
      end
  | "==" | "===" => e_ret (boolV (looseEq l r))
  | "!=" | "!==" => e_ret (boolV (negb (looseEq l r)))
  | _ => runErr "runtime" ("unsupported operator " +:+ op)
  end.
Definition apply_unary (op : string) (x : value) : ev value :=
  if String.eqb op "!" then e_ret (boolV (negb (truthy x)))
  else if String.eqb op "-" then match toNumber x with Some f => e_ret (num (f_neg f)) | None => runErr "type" "unary - on a non-number" end
  else runErr "runtime" "unsupported unary operator".

(** ** Evaluation *)

(** The fields of an object literal in the order of the iteration. *)
Fixpoint eval_fields (f : expr → ev value) (fields : list (string * expr)) (keys : list string) (o : gmap string value) : ev (gmap string value) :=
  match keys with
  | [] => e_ret o
  | k :: keys' =>
      match List.find (λ p, String.eqb p.1 k) fields with
      | Some p => do! v := f p.2 in eval_fields f fields keys' (<[k := v]> o)
      | None => eval_fields f fields keys' o
      end
  end.

Definition propKey (f : expr → ev value) (prop : expr) : ev string :=
  match prop with
  | strLit p => e_ret p
  | _ => do! v := f prop in
         match toString v with Some s => e_ret s | None => runErr "type" "property key must be a string" end
  end.

Definition assignTarget (f : expr → ev value) (e : env) (target : expr) (v : value) : ev unit :=
  match target with
  | ident name =>
      do! found := e_get (λ s, env_lookup s e name) in
      match found with
      | Some (l, _) => do! frame := e_get (λ s, frame_at s l) in set_frame l (<[name := v]> frame)
      | None => runErr "reference" ("assignment to undeclared variable " +:+ name)
      end
  | member obj prop =>
      do! base := f obj in
      match base with
      | objV l =>
          do! key := propKey f prop in
          do! o := e_get (λ s, obj_at s l) in
          set_obj l (<[key := v]> o)
      | _ => runErr "type" "cannot assign a property on a non-object"
      end
  | _ => runErr "type" "unsupported assignment target"
  end.

(** [if b, else if]: the operators that do not always evaluate their right operand. *)
Definition eval_binary (f : expr → ev value) (op : string) (l r : expr) : ev value :=
  do! x := f l in
  if String.eqb op "&&" then (if truthy x then f r else e_ret (boolV false))
  else if String.eqb op "||" then (if truthy x then e_ret (boolV true) else f r)
  else do! y := f r in apply_binary op x y.

(** The result of a function body: a return statement ends it with its value. *)
Definition returned (m : ev unit) : ev value := λ s,
  match m s with
  | (Done _, s') => (Done nullV, s')
  | (Stop (RetSignal v), s') => (Done v, s')
  | (Stop x, s') => (Stop x, s')
  | (NoFuel, s') => (NoFuel, s')
  end.
(** [v.callDepth++] with its deferred [v.callDepth--]. *)
Definition at_depth (m : ev value) : ev value := λ s,
  let s := with_depth (v_depth s + 1) s in
  if MaxCallDepth limits <? v_depth s then (Stop (RunnerErr "budget" "call depth limit exceeded"), with_depth (v_depth s - 1) s)
  else let '(r, s') := m s in (r, with_depth (v_depth s' - 1) s').

Fixpoint bind_params (params : list string) (args : list value) (f : gmap string value) : gmap string value :=
  match params, args with p :: params', a :: args' => bind_params params' args' (<[p := a]> f) | _, _ => f end.

Definition arity_error (name : string) (params : list string) (args : list value) : string :=
  "function " +:+ name +:+ " expects " +:+ string_of (Itoa (zlen params)) +:+ " arguments, got " +:+ string_of (Itoa (zlen args)).

Fixpoint eval (fuel : nat) (e : env) (node : expr) : ev value :=
  match fuel with
  | O => λ s, (NoFuel, s)
  | S fuel =>
      do! _ := bump in
      match node with
      | numLit n => e_ret (num n)
      | strLit s => e_ret (str s)
      | boolLit b => e_ret (boolV b)
      | nullLit => e_ret nullV
      | ident name =>
          do! found := e_get (λ s, env_lookup s e name) in
          match found with Some (_, v) => e_ret v | None => runErr "reference" ("undefined identifier " +:+ name) end
      | objLit fields =>
          do! keys := e_get (λ s, w_order (v_steps s) (map fst fields)) in
          do! o := eval_fields (eval fuel e) fields keys ∅ in
          new_obj o
      | arrLit items => do! vs := e_map (eval fuel e) items in new_arr vs
      | member obj prop =>
          do! base := eval fuel e obj in
          do! key := propKey (eval fuel e) prop in
          get_member base key
      | call fn args =>
          do! callee := eval fuel e fn in
          do! vs := e_map (eval fuel e) args in
          callValue fuel callee vs
      | binary op l r => eval_binary (eval fuel e) op l r
      | unary op x => do! v := eval fuel e x in apply_unary op v
      | ifExpr cond thn els =>
          do! c := eval fuel e cond in
          if truthy c then eval fuel e thn else match els with Some x => eval fuel e x | None => e_ret nullV end
      | fnLit name params body => e_ret (fnV name params body e)
      | assignExpr target val =>
          do! v := eval fuel e val in
          do! _ := assignTarget (eval fuel e) e target v in
          e_ret v
      | retStmt value => match value with Some x => eval fuel e x | None => e_ret nullV end
      | _ => runErr "runtime" "unsupported expression"
      end
  end
with execStmt (fuel : nat) (e : env) (st : expr) : ev unit :=
  match fuel with
  | O => λ s, (NoFuel, s)
  | S fuel =>
      do! _ := bump in
      match st with
      | nilStmt => e_ret tt
      | varDecl name init =>
          do! v := (match init with Some x => eval fuel e x | None => e_ret nullV end) in
          define e name v
      | exprStmt x => do! _ := eval fuel e x in e_ret tt
      | retStmt value =>
          do! v := (match value with Some x => eval fuel e x | None => e_ret nullV end) in
          e_stop (RetSignal v)
      | blockStmt body => do! child := child_env e ∅ in e_iter (execStmt fuel child) body
      | ifStmt cond thn els =>
          do! c := eval fuel e cond in
          if truthy c then execStmt fuel e thn
          else match els with nilStmt => e_ret tt | _ => execStmt fuel e els end
      | forOfStmt v it body =>
          do! iter := eval fuel e it in
          match iter with
          | arrV l => for_loop fuel e v l 0 body
          | _ => runErr "type" "for..of expects an array"
          end
      | fnDecl name params body => if String.eqb name "" then e_ret tt else define e name (fnV name params body e)
      | _ => runErr "runtime" "unsupported statement"
      end
  end
with for_loop (fuel : nat) (e : env) (v : string) (l : loc) (i : nat) (body : list expr) : ev unit :=
  match fuel with
  | O => λ s, (NoFuel, s)
  | S fuel =>
      do! items := e_get (λ s, arr_at s l) in
      match items !! i with
      | None => e_ret tt
      | Some item =>
          do! _ := bump in
          do! child := child_env e {[v := item]} in
          do! _ := e_iter (execStmt fuel child) body in
          for_loop fuel e v l (S i) body
      end
  end
with callValue (fuel : nat) (callee : value) (args : list value) : ev value :=
  match fuel with
  | O => λ s, (NoFuel, s)
  | S fuel =>
      do! _ := bump in
      match callee with
      | nfnV n => call_native n args
      | fnV name params body e =>
          if (length args <? length params)%nat then runErr "type" (arity_error name params args)
          else at_depth (
            do! callEnv := child_env e (bind_params params args ∅) in
            returned (e_iter (execStmt fuel callEnv) body))
      | _ => runErr "type" "value is not callable"
      end
  end.

(** ** Go values *)

Fixpoint goToValue (a : any) : ev value :=
  match a with
  | AnyNil => e_ret nullV
  | AnyMap m =>
      do! o := (fix fields (m : list (string * any)) (o : gmap string value) : ev (gmap string value) :=
        match m with [] => e_ret o | (k, x) :: m' => do! v := goToValue x in fields m' (<[k := v]> o) end) m ∅ in
      new_obj o
  | AnyList l =>
      do! vs := (fix items (l : list any) : ev (list value) :=
        match l with [] => e_ret [] | x :: l' => do! v := goToValue x in do! vs := items l' in e_ret (v :: vs) end) l in
      new_arr vs
  | AnyString s => e_ret (str s)
  | AnyFloat f => e_ret (num f)
  | AnyInt n => e_ret (num (f_of_int n))
  | AnyBool b => e_ret (boolV b)
  end.

Definition maxGoConvertDepth : nat := 512.
(** [levels] remain before the depth bound. *)
Fixpoint valueToGoDepth (levels : nat) (s : vm) (v : value) : option any :=
  match levels with
  | O => None
  | S levels =>
      match v with
      | str x => Some (AnyString x)
      | num f => Some (AnyFloat f)
      | boolV b => Some (AnyBool b)
      | nullV => Some AnyNil
      | objV l => AnyMap <$> mapM (λ kv, pair kv.1 <$> valueToGoDepth levels s kv.2) (map_to_list (obj_at s l))
      | arrV l => AnyList <$> mapM (valueToGoDepth levels s) (arr_at s l)
      | _ => None
      end
  end.
Definition valueToGo (s : vm) (v : value) : option any := valueToGoDepth (S maxGoConvertDepth) s v.

(** ** A run *)

Record ResultError : Type := mkResultError { re_Kind : string; re_Message : string }.
(** The envelope of a result; an error of [Run] itself is [Err]. *)
Record Result : Type := mkResult { r_OK : bool; r_Contribution : list (string * any); r_Logs : list string; r_Steps : Z; r_Err : option ResultError }.
Definition failed (kind msg : string) : Result := mkResult false [] [] 0 (Some (mkResultError kind msg)).

Definition signal_error (x : signal) : Result :=
  match x with
  | RunnerErr kind msg => failed kind (kind +:+ ": " +:+ msg)
  | RetSignal _ => failed "runtime" "hook: return"
  | Panicked msg => failed "panic" ("hook: isolated runner recovered from a panic: " +:+ msg)
  end.

Definition runtimeObject : gmap string value :=
  list_to_map [("ts", nfnV NTs); ("now", nfnV NNow); ("nonce", nfnV NNonce); ("percentEncode", nfnV NPercentEncode);
    ("canonicalQuery", nfnV NCanonicalQuery); ("log", nfnV NLog); ("require", nfnV NRequire); ("fetch", nfnV NFetch); ("process", nfnV NProcess)].
Definition objectNative : gmap string value := {["keys" := nfnV NKeys]}.

(** The part of [executeScript] after parsing; [None]: there is no [main]. *)
Definition execute (fuel : nat) (body : list expr) (request : any) : ev (option value) :=
  do! root := new_frame ∅ in
  do! rt := new_obj runtimeObject in
  do! _ := define [root] "runtime" rt in
  do! ob := new_obj objectNative in
  do! _ := define [root] "Object" ob in
  do! _ := define [root] "encodeURIComponent" (nfnV NPercentEncode) in
  do! req := goToValue request in
  do! _ := define [root] "req" req in
  do! _ := e_iter (execStmt fuel [root]) body in
  do! mainFn := e_get (λ s, env_lookup s [root] "main") in
  match mainFn with
  | None => e_ret None
  | Some (_, main) =>
      do! req := e_get (λ s, match env_lookup s [root] "req" with Some (_, v) => v | None => nullV end) in
      do! v := callValue fuel main [req] in
      e_ret (Some v)
  end.

Definition empty_vm : vm := mkVm 0 0 0 [] ∅ ∅ ∅ 1%positive.
(** One unit of fuel for every step of the budget, and two more. *)
Definition script_fuel : nat := S (S (Z.to_nat (MaxSteps limits))).

(** [executeScript]: a syntax error, or the outcome with the machine it leaves. *)
Definition executeScript (src : string) (request : any) : option (result syntax_error (outcome (option value) * vm)) :=
  match parse (bytes_of src) with
  | POk body _ => Some (Ok (execute script_fuel body request empty_vm))
  | PErr e => Some (Err e)
  | _ => None
  end.

Fixpoint any_field (k : string) (m : list (string * any)) : option any :=
  match m with [] => None | (k', v) :: m' => if String.eqb k' k then Some v else any_field k m' end.

(** What a value that a script returned makes of the run. *)
Definition contribution_of (s : vm) (v : value) : Result :=
  match valueToGo s v with
  | None => failed "type" "script returned an unconvertible value"
  | Some (AnyMap m) =>
      match any_field "canonical_query" m, any_field "string_to_sign" m with
      | None, _ => failed "type" "script return value must include canonical_query"
      | Some _, None => failed "type" "script return value must include string_to_sign"
      | Some _, Some _ => mkResult true m (v_logs s) (v_steps s) None
      end
  | Some _ => failed "type" "script must return an object with canonical_query and string_to_sign"
  end.

(** The memory of the process.  No limit bounds what a script's strings, arrays and objects
    take, nor the Go value that [valueToGo] unfolds a shared object graph into; a process that
    cannot hold them is ended by the runtime, and no [recover] sees it.  [holds_run]: it can
    hold the evaluation of the script on the request; [holds_value]: the Go value of what the
    script returned. *)
Class ScriptMemory := { holds_run : string → any → bool; holds_value : vm → value → bool }.
(** How a call of [Runner.Run] ends: it returns, or the process does not survive it. *)
Inductive run_end : Type := Returned (r : result string Result) | OutOfMemory.

(** [Runner.Run]: [decode_request] is the strict JSON decoding of the request, and
    [syntax_message] the text of a syntax error.  [None]: out of fuel. *)
Definition Run `{!Crypto, !ScriptMemory} (syntax_message : syntax_error → string) (decode_request : bytes → result string (list (string * any)))
    (scriptSHA256 script : string) (request : bytes) : option run_end :=
  if Timeout limits <=? 0 then Some (Returned (Err "hook: runner is not configured"))
  else if MaxScriptBytes limits <? Z.of_nat (String.length script) then Some (Returned (Ok (failed "schema" "script exceeds the size bound")))
  else if MaxRequestBytes limits <? zlen request then Some (Returned (Ok (failed "schema" "request exceeds the size bound")))
  else if negb (String.eqb scriptSHA256 "") && negb (String.eqb (hex_of (sha256 (bytes_of script))) scriptSHA256)
    then Some (Returned (Ok (failed "schema" "script byte-identity mismatch (pinned hash)")))
  else
    match decode_request request with
    | Err msg => Some (Returned (Ok (failed "schema" ("request schema: " +:+ msg))))
    | Ok m =>
        if negb (holds_run script (AnyMap m)) then Some OutOfMemory
        else
          match executeScript script (AnyMap m) with
          | None => None
          | Some (Err e) => Some (Returned (Ok (failed "syntax" (syntax_message e))))
          | Some (Ok (Done None, _)) => Some (Returned (Ok (failed "schema" "script must define a function named main(request)")))
          | Some (Ok (Done (Some v), s)) => Some (if holds_value s v then Returned (Ok (contribution_of s v)) else OutOfMemory)
          | Some (Ok (Stop x, _)) => Some (Returned (Ok (signal_error x)))
          | Some (Ok (NoFuel, _)) => None
          end
    end.
End Eval.

Definition DefaultLimits : Limits := mkLimits (Z.shiftl 64 10) (Z.shiftl 64 10) (Z.shiftl 64 10) 200000 64 2000000000.
(** [NewRunner]: zero or negative fields fall back to the defaults. *)
Definition NewRunner (l : Limits) : Limits :=
  let pick (f : Limits → Z) := if f l <=? 0 then f DefaultLimits else f l in
  mkLimits (pick MaxScriptBytes) (pick MaxRequestBytes) (pick MaxOutputBytes) (pick MaxSteps) (pick MaxCallDepth) (pick Timeout).
