(* ===== verification/ScriptProps.v ===== *)
(** * What the script runner guarantees

    Every run ends within its budgets, whatever the script does; what [+] and the
    comparisons do with numbers. *)

From Stdlib Require Import ZArith Lia Strings.Byte Floats.SpecFloat.
From stdpp Require Import base tactics list strings option gmap sorting.
From S2P Require Import Prelude GoStd Float64 Frame HookText ScriptSyntax ScriptParse ScriptEval.

Open Scope string_scope.
Open Scope list_scope.
Open Scope Z_scope.

Section Budget.
Context {lib : ScriptLib} {world : ScriptWorld} (limits : Limits).

(** The bytes of the log lines, with one more for each. *)
Definition log_bytes (logs : list string) : Z := foldr (λ l n, Z.of_nat (String.length l) + 1 + n) 0 logs.
Lemma log_bytes_app l1 l2 : log_bytes (l1 ++ l2) = log_bytes l1 + log_bytes l2.
Proof. unfold log_bytes. induction l1 as [|l l1 IH]; cbn; [done|]. rewrite IH. lia. Qed.

(** A machine within its budgets. *)
Record within (s : vm) : Prop := {
  wi_steps : v_steps s ≤ MaxSteps limits;
  wi_output : v_output s = log_bytes (v_logs s);
  wi_bound : v_output s ≤ MaxOutputBytes limits
}.
(** Only an error of the runner stops a run for good. *)
Definition ends {A} (r : outcome A) : bool := match r with Stop (RetSignal _) | Done _ | NoFuel => false | Stop _ => true end.
Definition after {A} (s : vm) (r : outcome A) (s' : vm) : Prop :=
  v_steps s ≤ v_steps s' ∧ v_depth s' = v_depth s ∧ v_logs s `prefix_of` v_logs s' ∧
  v_output s' = log_bytes (v_logs s') ∧ v_output s' ≤ MaxOutputBytes limits ∧ v_steps s' ≤ MaxSteps limits + (if ends r then 1 else 0).

(** With [n] units of fuel [m] ends in every machine with fewer than [n] steps left. *)
Definition good {A} (n : nat) (m : ev A) : Prop := ∀ s, within s → MaxSteps limits - v_steps s < Z.of_nat n →
  let '(r, s') := m s in (match r with NoFuel => False | _ => True end) ∧ after s r s'.

Lemma after_within {A} (s s' : vm) (r : outcome A) : within s → after s r s' → ends r = false → within s'.
Proof. intros Hs (H1 & H2 & H3 & H4 & H5 & H6) He. rewrite He in H6. split; [lia|done|done]. Qed.
Lemma after_refl {A} s (r : outcome A) : within s → after s r s.
Proof. intros []. repeat split; try done. destruct (ends r); lia. Qed.

Lemma good_ret {A} n (a : A) : good n (e_ret a).
Proof. intros s Hs _. split; [done|by apply after_refl]. Qed.
Lemma good_stop {A} n x : good (A := A) n (e_stop x).
Proof. intros s Hs _. split; [done|by apply after_refl]. Qed.
Lemma good_get {A} n (f : vm → A) : good n (e_get f).
Proof. intros s Hs _. split; [done|by apply after_refl]. Qed.
(** An update of the heap. *)
Definition heap_only (f : vm → vm) : Prop :=
  ∀ s, v_steps (f s) = v_steps s ∧ v_depth (f s) = v_depth s ∧ v_output (f s) = v_output s ∧ v_logs (f s) = v_logs s.
Lemma good_put n f : heap_only f → good n (e_put f).
Proof. intros Hf s [] _. destruct (Hf s) as (H1 & H2 & H3 & H4). split; [done|]. unfold after. rewrite H1, H2, H3, H4. cbn. repeat split; try done; lia. Qed.
Lemma good_fresh n : good n fresh.
Proof. intros s [] _. split; [done|]. repeat split; cbn; try done; lia. Qed.

Lemma good_then {A B} n (m : ev A) (f : A → ev B) : good n m → (∀ a, good n (f a)) → good n (e_bind m f).
Proof.
  intros Hm Hf s Hs Hn. unfold e_bind. specialize (Hm s Hs Hn). destruct (m s) as [r s1]. destruct Hm as [Hr Ha].
  destruct r as [a|x|]; [| |done].
  - pose proof (after_within _ _ _ Hs Ha eq_refl) as Hs1. destruct Ha as (H1 & H2 & H3 & H4 & H5 & H6). specialize (Hf a s1 Hs1 ltac:(lia)).
    destruct (f a s1) as [r2 s2]. destruct Hf as [Hr2 (G1 & G2 & G3 & G4 & G5 & G6)]. split; [done|]. repeat split; try done; try lia; try congruence. by etrans.
  - split; [done|]. exact Ha.
Qed.
Lemma good_bump {A} n (f : unit → ev A) : good n (f tt) → good (S n) (e_bind (bump limits) f).
Proof.
  intros Hm s [H1 H2 H3] Hn. unfold e_bind, bump. cbn [v_steps with_steps]. rewrite Nat2Z.inj_succ in Hn.
  assert (Hstop : ∀ k m, after (A := A) s (Stop (RunnerErr k m)) (with_steps (v_steps s + 1) s)) by (intros; repeat split; cbn; try done; lia).
  destruct (Z.ltb_spec (MaxSteps limits) (v_steps s + 1)); [by split|]. destruct (_ && _); [by split|].
  assert (Hw : within (with_steps (v_steps s + 1) s)) by (split; cbn; done).
  specialize (Hm _ Hw ltac:(cbn; lia)). destruct (f tt _) as [r s']. destruct Hm as [Hr (G1 & G2 & G3 & G4 & G5 & G6)]. cbn in *. split; [done|].
  repeat split; try done; lia.
Qed.
Lemma good_log n line : good n (logLine limits line).
Proof.
  intros s [H1 H2 H3] _. unfold logLine. destruct (Z.ltb_spec (MaxOutputBytes limits) (v_output s + Z.of_nat (String.length line) + 1)); cbn.
  - split; [done|]. repeat split; cbn; try done; lia.
  - split; [done|]. repeat split; cbn; try done; try lia; [by eexists|]. rewrite log_bytes_app, H2. cbn. lia.
Qed.

Lemma good_iter {A} n (f : A → ev unit) l : (∀ a, good n (f a)) → good n (e_iter f l).
Proof. intros Hf. induction l as [|a l IH]; [apply good_ret|]. by apply good_then. Qed.
Lemma good_map {A B} n (f : A → ev B) l : (∀ a, good n (f a)) → good n (e_map f l).
Proof. intros Hf. induction l as [|a l IH]; cbn; [apply good_ret|]. apply good_then; [done|]. intros b. apply good_then; [done|]. intros bs. apply good_ret. Qed.

Lemma good_returned n m : good n m → good n (returned m).
Proof.
  intros Hm s Hs Hn. unfold returned. specialize (Hm s Hs Hn). destruct (m s) as [[[]|[k x|v|x]|] s']; destruct Hm as [Hr Ha]; try done; by split.
Qed.
Lemma good_at_depth n m : good n m → good n (at_depth limits m).
Proof.
  intros Hm s Hs Hn. destruct Hs as [H1 H2 H3]. unfold at_depth. cbn [v_depth with_depth].
  destruct (Z.ltb_spec (MaxCallDepth limits) (v_depth s + 1)); [split; [done|]; repeat split; cbn; try done; lia|].
  assert (Hw : within (with_depth (v_depth s + 1) s)) by (split; cbn; done). specialize (Hm _ Hw ltac:(cbn; lia)).
  destruct (m _) as [r s']. destruct Hm as [Hr (G1 & G2 & G3 & G4 & G5 & G6)]. cbn in *. split; [done|]. repeat split; cbn; try done; try lia. 
Qed.

#[local] Hint Extern 1 (heap_only _) => (intros ?; repeat split) : core.

(** Through the binds, the matches and the heap updates of a definition without fuel. *)
Ltac good_step :=
  first
    [ apply good_ret | apply good_stop | apply good_get | apply good_fresh | apply good_log | assumption
    | apply good_put; intros ?; repeat split
    | apply good_then; [|intros ?]
    | match goal with |- good _ (match ?x with _ => _ end) => destruct x end ].
Ltac good_auto := cbv beta zeta; repeat (good_step; cbv beta zeta).

Lemma good_new_obj n o : good n (new_obj o).
Proof. unfold new_obj, set_obj. good_auto. Qed.
Lemma good_new_arr n a : good n (new_arr a).
Proof. unfold new_arr, set_arr. good_auto. Qed.
Lemma good_child n e f : good n (child_env e f).
Proof. unfold child_env, new_frame, set_frame. good_auto. Qed.
Lemma good_define n e x v : good n (define e x v).
Proof. unfold define, set_frame. good_auto. Qed.
Lemma good_native n f args : good n (call_native limits f args).
Proof. unfold call_native, runErr, set_arr. destruct f; good_auto; apply good_new_arr. Qed.
Lemma good_member n base key : good n (get_member base key).
Proof. unfold get_member, arrMember, strMember, runErr. good_auto. Qed.
Lemma good_apply_unary n op x : good n (apply_unary op x).
Proof. unfold apply_unary, runErr. good_auto. Qed.
Lemma good_arithmetic n op x y : good n (arithmetic op x y).
Proof. unfold arithmetic, runErr. good_auto. Qed.
Lemma good_apply_binary n op x y : good n (apply_binary op x y).
Proof.
  assert (Hfail : ∀ op, good (A := value) n (runErr "runtime" ("unsupported operator " +:+ op))) by (intros; apply good_stop).
  unfold apply_binary. repeat match goal with |- good _ (match ?s with _ => _ end) => destruct s end;
    first [apply good_ret|apply good_stop|apply good_arithmetic|apply Hfail].
Qed.

Lemma good_fields n f fields keys o : (∀ x, good n (f x)) → good n (eval_fields f fields keys o).
Proof. intros Hf. revert o. induction keys as [|k keys IH]; intros o; cbn; [apply good_ret|]. destruct (List.find _ fields); [|apply IH]. apply good_then; [done|]. intros v. apply IH. Qed.
Lemma good_propKey n f p : (∀ x, good n (f x)) → good n (propKey f p).
Proof.
  intros Hf. unfold propKey, runErr. destruct p; try (apply good_then; [done|]; intros ?; destruct (toString _); [apply good_ret|apply good_stop]).
  apply good_ret.
Qed.
Lemma good_assign n f e t v : (∀ x, good n (f x)) → good n (assignTarget f e t v).
Proof.
  intros Hf. unfold assignTarget, runErr, set_frame, set_obj. destruct t; try apply good_stop; good_auto; [apply Hf|by apply good_propKey].
Qed.
Lemma good_binary n f op l r : (∀ x, good n (f x)) → good n (eval_binary f op l r).
Proof.
  intros Hf. unfold eval_binary. apply good_then; [done|]. intros x. destruct (String.eqb op "&&"); [destruct (truthy x); [done|apply good_ret]|].
  destruct (String.eqb op "||"); [destruct (truthy x); [apply good_ret|done]|]. apply good_then; [done|]. intros y. apply good_apply_binary.
Qed.

(** The same through the helpers that take the evaluator as an argument. *)
Ltac good_eval :=
  repeat first
    [ apply good_ret | apply good_stop | apply good_get | match goal with H : _ |- _ => apply H end
    | apply good_new_obj | apply good_new_arr | apply good_child | apply good_define | apply good_member | apply good_apply_unary
    | apply good_fields; intros ? | apply good_propKey; intros ? | apply good_assign; intros ? | apply good_binary; intros ?
    | apply good_map; intros ? | apply good_iter; intros ?
    | apply good_then; [|intros ?]
    | match goal with |- good _ (match ?x with _ => _ end) => destruct x end ].

(** The budget is the fuel. *)
Lemma eval_good n : (∀ e x, good n (eval limits n e x)) ∧ (∀ e x, good n (execStmt limits n e x)) ∧
  (∀ e v l i body, good n (for_loop limits n e v l i body)) ∧ (∀ c args, good n (callValue limits n c args)).
Proof.
  induction n as [|n (IHe & IHs & IHf & IHc)].
  - assert (Hz : ∀ A (m : ev A), good 0 m) by (intros A m s [] Hn; exfalso; lia). by split_and!; intros; apply Hz.
  - split_and!.
    + intros e x. cbn [eval]. apply good_bump. destruct x; good_eval.
    + intros e x. cbn [execStmt]. apply good_bump. destruct x; good_eval.
    + intros e v l i body. cbn [for_loop]. apply good_then; [apply good_get|]. intros items. destruct (items !! i); [|apply good_ret].
      apply good_bump. good_eval.
    + intros c args. cbn [callValue]. apply good_bump. destruct c; try apply good_stop; [|apply good_native].
      destruct (_ <? _)%nat; [apply good_stop|]. apply good_at_depth. apply good_then; [apply good_child|]. intros child. apply good_returned. by apply good_iter.
Qed.

Lemma goToValue_good n : ∀ a, good n (goToValue a).
Proof.
  fix IH 1. intros [|m|l|s|f|z|b]; cbn; try apply good_ret.
  - apply good_then; [|intros o; apply good_new_obj]. generalize (∅ : gmap string value). induction m as [|[k x] m IHm]; intros o; [apply good_ret|].
    apply good_then; [apply IH|]. intros v. apply IHm.
  - apply good_then; [|intros vs; apply good_new_arr]. induction l as [|x l IHl]; [apply good_ret|].
    apply good_then; [apply IH|]. intros v. apply good_then; [apply IHl|]. intros vs. apply good_ret.
Qed.

Lemma execute_good n body request : good n (execute limits n body request).
Proof.
  destruct (eval_good n) as (_ & Hs & _ & Hc). unfold execute, new_frame, set_frame.
  apply good_then; [good_auto|]. intros root. apply good_then; [apply good_new_obj|]. intros rt. apply good_then; [apply good_define|]. intros _.
  apply good_then; [apply good_new_obj|]. intros ob. apply good_then; [apply good_define|]. intros _. apply good_then; [apply good_define|]. intros _.
  apply good_then; [apply goToValue_good|]. intros req. apply good_then; [apply good_define|]. intros _. apply good_then; [by apply good_iter|]. intros _.
  apply good_then; [apply good_get|]. intros [[? main]|]; [|apply good_ret]. apply good_then; [apply good_get|]. intros r. apply good_then; [apply Hc|]. intros w. apply good_ret.
Qed.

(** A run from the empty machine. *)
Lemma execute_ends body request : 0 ≤ MaxSteps limits → 0 ≤ MaxOutputBytes limits →
  let '(r, s) := execute limits (script_fuel limits) body request empty_vm in (match r with NoFuel => False | _ => True end) ∧ after empty_vm r s.
Proof.
  intros H1 H2. apply execute_good.
  - split; cbn; lia.
  - unfold script_fuel. cbn. lia.
Qed.
End Budget.

Lemma NewRunner_positive l : 0 < MaxSteps (NewRunner l) ∧ 0 < MaxOutputBytes (NewRunner l) ∧ 0 < MaxCallDepth (NewRunner l) ∧ 0 < Timeout (NewRunner l).
Proof. unfold NewRunner. cbn -[Z.leb DefaultLimits]. repeat split; (match goal with |- context [?x <=? 0] => destruct (Z.leb_spec x 0) end; [done|lia]). Qed.

Lemma contribution_bounds `{lib : ScriptLib} L s v : v_steps s ≤ MaxSteps L ∧ log_bytes (v_logs s) ≤ MaxOutputBytes L →
  r_OK (contribution_of s v) = true →
  r_Steps (contribution_of s v) ≤ MaxSteps L ∧ log_bytes (r_Logs (contribution_of s v)) ≤ MaxOutputBytes L ∧
  is_Some (any_field "canonical_query" (r_Contribution (contribution_of s v))) ∧ is_Some (any_field "string_to_sign" (r_Contribution (contribution_of s v))).
Proof.
  intros [Hs Hl]. unfold contribution_of. destruct (valueToGo s v) as [[]|]; try discriminate.
  destruct (any_field "canonical_query" m) eqn:E1; [|discriminate]. destruct (any_field "string_to_sign" m) eqn:E2; [|discriminate].
  intros _. cbn. rewrite E1, E2. repeat split; try done; by eexists.
Qed.

(** C37: [Runner.Run] of a runner that [NewRunner] built never runs on: on every script and
    request, whatever the limits asked for, the clock, the random bytes and the map order, the
    step, call and log budgets stop the script and the call returns a result, unless the
    process cannot hold the script's values or the value it returned (which no limit bounds).
    A run that succeeds took at most [MaxSteps] steps, logged at most [MaxOutputBytes] bytes,
    and returned an object with both fields of a contribution. *)
Theorem script_run_total `{lib : ScriptLib, world : ScriptWorld, !Crypto, !ScriptMemory} syntax_message decode_request (l : Limits) (hash script : string) (request : bytes) :
  (∃ r : Result, Run (NewRunner l) syntax_message decode_request hash script request = Some (Returned (Ok r)) ∧
    (r_OK r = true → r_Steps r ≤ MaxSteps (NewRunner l) ∧ log_bytes (r_Logs r) ≤ MaxOutputBytes (NewRunner l) ∧
      is_Some (any_field "canonical_query" (r_Contribution r)) ∧ is_Some (any_field "string_to_sign" (r_Contribution r)))) ∨
  Run (NewRunner l) syntax_message decode_request hash script request = Some OutOfMemory ∧
    ∃ m, decode_request request = Ok m ∧
      (holds_run script (AnyMap m) = false ∨
       ∃ v s, executeScript (NewRunner l) script (AnyMap m) = Some (Ok (Done (Some v), s)) ∧ holds_value s v = false).
Proof.
  destruct (NewRunner_positive l) as (Hs & Ho & _ & Ht). set (L := NewRunner l) in *. unfold Run.
  assert (Hfail : ∀ k m (P : Prop), r_OK (failed k m) = true → P) by (intros k m P HH; discriminate HH).
  destruct (Z.leb_spec (Timeout L) 0); [lia|].
  repeat match goal with |- context [if ?c then Some (Returned (Ok (failed _ _))) else _] => destruct c; [left; eexists; split; [done|apply Hfail]|] end.
  destruct (decode_request request) as [m|]; [|left; eexists; split; [done|apply Hfail]].
  destruct (holds_run script (AnyMap m)) eqn:Eh; cbn [negb]; [|right; split; [done|]; exists m; split; [done|by left]].
  unfold executeScript. pose proof (parse_ends (bytes_of script)) as Hp.
  destruct (parse (bytes_of script)) as [body rest|e| |]; [|left; eexists; split; [done|apply Hfail]|done|done].
  pose proof (execute_ends L body (AnyMap m) ltac:(lia) ltac:(lia)) as He.
  destruct (execute L (script_fuel L) body (AnyMap m) empty_vm) as [[[v|]|x|] s] eqn:Ex; destruct He as [Hf He]; [| | |done].
  - destruct (holds_value s v) eqn:Ev; [left|right; split; [done|]; exists m; split; [done|]; right; exists v, s; by rewrite Ex].
    exists (contribution_of s v). split; [done|]. apply contribution_bounds. destruct He as (_ & _ & _ & He & Hb & Hn). unfold ends in Hn. split; [rewrite Z.add_0_r in Hn; exact Hn|]. rewrite <- He. exact Hb.
  - left. eexists; split; [done|apply Hfail].
  - left. exists (signal_error x). split; [done|]. destruct x; apply Hfail.
Qed.

(** ** Returns *)

Section Returns.
Context {lib : ScriptLib} {world : ScriptWorld} (limits : Limits).

(** A computation that no return statement ends. *)
Definition quiet {A} (m : ev A) : Prop := ∀ s, match (m s).1 with Stop (RetSignal _) => False | _ => True end.
Lemma quiet_ret {A} (a : A) : quiet (e_ret a). Proof. done. Qed.
Lemma quiet_err {A} k x : quiet (A := A) (e_stop (RunnerErr k x)). Proof. done. Qed.
Lemma quiet_panic {A} x : quiet (A := A) (e_stop (Panicked x)). Proof. done. Qed.
Lemma quiet_get {A} (f : vm → A) : quiet (e_get f). Proof. done. Qed.
Lemma quiet_put f : quiet (e_put f). Proof. done. Qed.
Lemma quiet_fresh : quiet fresh. Proof. done. Qed.
Lemma quiet_bump : quiet (bump limits).
Proof. intros s. unfold bump. cbn. destruct (_ <? _); [done|]. by destruct (_ && _). Qed.
Lemma quiet_log x : quiet (logLine limits x).
Proof. intros s. unfold logLine. cbn. by destruct (_ <? _). Qed.
Lemma quiet_bind {A B} (m : ev A) (f : A → ev B) : quiet m → (∀ a, quiet (f a)) → quiet (e_bind m f).
Proof. intros Hm Hf s. unfold e_bind. specialize (Hm s). destruct (m s) as [[a|x|] s']; [apply Hf|done|done]. Qed.
Lemma quiet_map {A B} (f : A → ev B) l : (∀ a, quiet (f a)) → quiet (e_map f l).
Proof. intros Hf. induction l as [|a l IH]; cbn; [done|]. apply quiet_bind; [done|]. intros b. apply quiet_bind; [done|]. done. Qed.
Lemma quiet_at_depth m : quiet m → quiet (at_depth limits m).
Proof. intros Hm s. unfold at_depth. cbn. destruct (_ <? _); [done|]. specialize (Hm (with_depth (v_depth s + 1) s)). by destruct (m _) as [r s']. Qed.
(** The call catches the return. *)
Lemma quiet_returned m : quiet (returned m).
Proof. intros s. unfold returned. by destruct (m s) as [[|[]|] s']. Qed.

Ltac quiet_go :=
  repeat first
    [ apply quiet_ret | apply quiet_err | apply quiet_panic | apply quiet_get | apply quiet_put | apply quiet_fresh | apply quiet_bump | apply quiet_log
    | apply quiet_returned | apply quiet_at_depth | match goal with H : ∀ _, quiet _ |- _ => apply H | H : ∀ _ _, quiet _ |- _ => apply H end
    | apply quiet_map; intros ? | apply quiet_bind; [|intros ?]
    | match goal with |- quiet (match ?x with _ => _ end) => destruct x end ].

Lemma quiet_new_arr a : quiet (new_arr a). Proof. unfold new_arr, set_arr. quiet_go. Qed.
Lemma quiet_new_obj o : quiet (new_obj o). Proof. unfold new_obj, set_obj. quiet_go. Qed.
Lemma quiet_child e f : quiet (child_env e f). Proof. unfold child_env, new_frame, set_frame. quiet_go. Qed.
Lemma quiet_native n args : quiet (call_native limits n args).
Proof. unfold call_native, runErr, set_arr. destruct n; quiet_go; apply quiet_new_arr. Qed.
Lemma quiet_member base key : quiet (get_member base key).
Proof. unfold get_member, arrMember, strMember, runErr. quiet_go. Qed.
Lemma quiet_unary op x : quiet (apply_unary op x).
Proof. unfold apply_unary, runErr. quiet_go. Qed.
Lemma quiet_arithmetic op x y : quiet (arithmetic op x y).
Proof. unfold arithmetic, runErr. quiet_go. Qed.
Lemma quiet_apply_binary op x y : quiet (apply_binary op x y).
Proof.
  unfold apply_binary, runErr.
  repeat match goal with |- quiet (match ?s with _ => _ end) => destruct s end; first [apply quiet_ret|apply quiet_err|apply quiet_arithmetic].
Qed.
Lemma quiet_fields f fields keys o : (∀ x, quiet (f x)) → quiet (eval_fields f fields keys o).
Proof. intros Hf. revert o. induction keys as [|k keys IH]; intros o; cbn; [done|]. destruct (List.find _ fields); quiet_go. Qed.
Lemma quiet_propKey f p : (∀ x, quiet (f x)) → quiet (propKey f p).
Proof. intros Hf. unfold propKey, runErr. destruct p; quiet_go. Qed.
Lemma quiet_assign f e t v : (∀ x, quiet (f x)) → quiet (assignTarget f e t v).
Proof. intros Hf. unfold assignTarget, runErr, set_frame, set_obj. destruct t; quiet_go. by apply quiet_propKey. Qed.
Lemma quiet_binary f op l r : (∀ x, quiet (f x)) → quiet (eval_binary f op l r).
Proof. intros Hf. unfold eval_binary. quiet_go. apply quiet_apply_binary. Qed.

Lemma eval_quiet n : (∀ e x, quiet (eval limits n e x)) ∧ (∀ c args, quiet (callValue limits n c args)).
Proof.
  induction n as [|n (IHe & IHc)]; [by split; intros|]. split.
  - intros e x. cbn [eval]. unfold runErr. apply quiet_bind; [apply quiet_bump|]. intros _.
    destruct x; repeat first [ progress quiet_go | apply quiet_fields | apply quiet_new_obj | apply quiet_new_arr | apply quiet_member | apply quiet_propKey
      | apply quiet_binary | apply quiet_apply_binary | apply quiet_unary | apply quiet_assign ].
  - intros c args. cbn [callValue]. unfold runErr. apply quiet_bind; [apply quiet_bump|]. intros _. destruct c; try apply quiet_err; [|apply quiet_native].
    destruct (_ <? _)%nat; [apply quiet_err|]. apply quiet_at_depth. apply quiet_bind; [apply quiet_child|]. intros child. apply quiet_returned.
Qed.

(** A return statement ends the call it belongs to and nothing else.  No expression and
    no call, at any nesting of blocks, branches and loops inside the function, lets a return
    travel to its caller; and the statements of a function that was left by [return v] are
    the ones before it, the value of the call is [v]. *)
Theorem return_ends_its_call (fuel : nat) (callee : value) (args : list value) (e : env) (node : expr) (s : vm) :
  (∀ v, (callValue limits fuel callee args s).1 ≠ Stop (RetSignal v)) ∧
  (∀ v, (eval limits fuel e node s).1 ≠ Stop (RetSignal v)) ∧
  (∀ (before after : list expr) value v s1 s2,
     e_iter (execStmt limits fuel e) before s = (Done tt, s1) →
     execStmt limits fuel e (retStmt value) s1 = (Stop (RetSignal v), s2) →
     returned (e_iter (execStmt limits fuel e) (before ++ retStmt value :: after)) s = (Done v, s2)).
Proof.
  destruct (eval_quiet fuel) as [He Hc]. split; [intros v; specialize (Hc callee args s); by destruct (callValue limits fuel callee args s).1 as [|[]|]; try done; intros [= ->]|].
  split; [intros v; specialize (He e node s); by destruct (eval limits fuel e node s).1 as [|[]|]; try done; intros [= ->]|].
  intros before after value v s1 s2 Hb Hr. unfold returned.
  assert (Hi : e_iter (execStmt limits fuel e) (before ++ retStmt value :: after) s = (Stop (RetSignal v), s2)); [|by rewrite Hi].
  revert s Hb. induction before as [|b before IH]; intros s; cbn.
  - intros [= ->]. unfold e_bind. by rewrite Hr.
  - unfold e_bind. destruct (execStmt limits fuel e b s) as [[[]|x|] s']; [|done..]. apply IH.
Qed.

(** ** Numbers *)

Lemma number_is_text v f : toNumber v = Some f → is_Some (toString v).
Proof. destruct v; cbn; try done; intros _; by eexists. Qed.

(** [+] never adds and an ordering never compares quantities.  Every value that has a
    number has a text, so the text branch that [evalBinary] tries first always wins: the sum
    of two numbers is their decimals one after the other, and [<] orders decimals as text. *)
Theorem plus_never_adds (l r : value) (x y : float64) (s : vm) :
  (∀ f s', apply_binary "+" l r s ≠ (Done (num f), s')) ∧
  apply_binary "+" (num x) (num y) s = (Done (str (string_of (number_text x) +:+ string_of (number_text y))), s) ∧
  apply_binary "<" (num x) (num y) s = (Done (boolV (String.ltb (string_of (number_text x)) (string_of (number_text y)))), s).
Proof.
  split; [|done]. intros f s'. cbn. destruct (toString l) eqn:El, (toString r) eqn:Er; [done|..];
    (destruct (toNumber l) eqn:Nl; [|done]); (destruct (toNumber r) eqn:Nr; [|done]);
    apply number_is_text in Nl as [? Nl]; apply number_is_text in Nr as [? Nr]; congruence.
Qed.
End Returns.

(** * Scripts run *)

(** ASCII text, no special numbers, an insertion sort, and an idle world. *)
Fixpoint insert_stable (less : value → value → bool) (a : value) (l : list value) : list value :=
  match l with [] => [a] | b :: l' => if less a b then a :: l else b :: insert_stable less a l' end.
Definition toy_lib : ScriptLib := {|
  parse_special _ := None;
  format_float _ := bytes_of "?";
  int_other _ := - 2 ^ 63;
  stable_sort less l := foldl (λ acc a, insert_stable less a acc) [] l;
  script_case := ascii_case;
  explode s := map (λ c, [c]) s
|}.
Definition toy_world : ScriptWorld := {|
  w_ts _ := "2026-01-01T00:00Z"; w_now n := 1000 + n; w_random _ := Some (repeat Byte.x05 16); w_done _ := false; w_order _ := id
|}.
#[local] Existing Instance toy_lib.
#[local] Existing Instance toy_world.

Definition run_body (src : string) : option (outcome (option value) * (Z * list string)) :=
  match executeScript DefaultLimits src (AnyMap []) with
  | Some (Ok (r, s)) => Some (r, (v_steps s, v_logs s))
  | _ => None
  end.
(** ** What scripts compute *)

(** The sum of two numbers is text, and ten is less than two. *)
Example numbers_concatenate :
  run_body "function main(r) { return 1 + 2; }" = Some (Done (Some (str "12")), (6, [])) ∧
  run_body "function main(r) { return 10 < 2; }" = Some (Done (Some (boolV true)), (6, [])).
Proof. split; vm_compute; reflexivity. Qed.

(** The modulus truncates its operands after the test for zero. *)
Example modulo_of_a_fraction_panics :
  run_body "function main(r) { return 5 % (1/2); }" = Some (Stop (Panicked "runtime error: integer divide by zero"), (8, [])).
Proof. vm_compute. reflexivity. Qed.

(** The budget of steps does not bound the size of a value: six steps double a text. *)
Example memory_is_not_budgeted :
  run_body "function main(r) { var s = 'ab'; s = s + s; s = s + s; s = s + s; return s.length; }" = Some (Done (Some (num (f_of_int 16))), (22, [])) ∧
  run_body "function main(r) { var s = 'ab'; s = s + s; s = s + s; s = s + s; s = s + s; s = s + s; s = s + s; return s.length; }"
    = Some (Done (Some (num (f_of_int 128))), (37, [])).
Proof. split; vm_compute; reflexivity. Qed.

(** A loop over an array it extends, and a recursion without end, are stopped. *)
Example budgets_stop_scripts :
  (run_body "function f() { return f(); } function main(r) { return f(); }" = Some (Stop (RunnerErr "budget" "call depth limit exceeded"), (259, []))) ∧
  (run_body "function main(r) { return runtime.fetch('x'); }" = Some (Stop (RunnerErr "reference" "no bridge: network is disabled"), (8, []))).
Proof. split; vm_compute; reflexivity. Qed.

Example strings_and_arrays :
  run_body "function main(r) { var a = ['b','a']; a.push('c'); return a.sort().join('-') + 'x'.toUpperCase(); }" = Some (Done (Some (str "a-b-cX")), (26, [])).
Proof. vm_compute. reflexivity. Qed.

(** The fields of an object literal run in the order Go iterates over the map. *)
Definition reversed_world : ScriptWorld := {|
  w_ts _ := "2026-01-01T00:00Z"; w_now n := 1000 + n; w_random _ := Some (repeat Byte.x05 16); w_done _ := false; w_order _ := @rev string
|}.
Definition order_script : string :=
  "var n = ''; function f(c) { n = n + c; return n; } function main(r) { var o = {a: f('a'), b: f('b')}; return n; }".
Definition value_in (world : ScriptWorld) (src : string) : option value :=
  match @executeScript toy_lib world DefaultLimits src (AnyMap []) with Some (Ok (Done v, _)) => v | _ => None end.
Example field_order_is_visible :
  value_in toy_world order_script = Some (str "ab") ∧ value_in reversed_world order_script = Some (str "ba").
Proof. split; vm_compute; reflexivity. Qed.

Lemma return_ends_its_call_witness :
  let iter := e_iter (execStmt DefaultLimits 5 []) in
  let body := [exprStmt (strLit "x")] ++ retStmt (Some (strLit "v")) :: [exprStmt (ident "undefined")] in
  fst (returned (iter body) empty_vm) = Done (str "v").
Proof.
  destruct (return_ends_its_call DefaultLimits 5 nullV [] [] nullLit empty_vm) as (_ & _ & H).
  specialize (H [exprStmt (strLit "x")] [exprStmt (ident "undefined")] (Some (strLit "v")) (str "v")
    (snd (e_iter (execStmt DefaultLimits 5 []) [exprStmt (strLit "x")] empty_vm))
    (snd (execStmt DefaultLimits 5 [] (retStmt (Some (strLit "v"))) (snd (e_iter (execStmt DefaultLimits 5 []) [exprStmt (strLit "x")] empty_vm))))
    ltac:(vm_compute; reflexivity) ltac:(vm_compute; reflexivity)).
  cbv zeta. rewrite H. reflexivity.
Defined.
