(* ===== verification/HookNet.v ===== *)
(** * Where a webhook may connect

    The address gate of [src/internal/hook/ipcheck.go], the resolution and pinning of
    [client.go], and the host part of the URLs of [broker.go].  The resolver's answer is an
    argument. *)

From Stdlib Require Import ZArith Lia Strings.Byte.
From stdpp Require Import base tactics list strings option sets.
From S2P Require Import Prelude GoStd Endpoint HookText.

Open Scope string_scope.
Open Scope list_scope.
Open Scope Z_scope.

(** ** [netip.ParseAddr]: the text forms of both families, without zones *)

Definition hex_digit_value (c : byte) : option Z :=
  if in_range 48 57 c then Some (b2z c - 48)
  else if in_range 97 102 c then Some (b2z c - 87)
  else if in_range 65 70 c then Some (b2z c - 55)
  else None.

(** The digits of one group: their value and the rest; no group has more than four. *)
Fixpoint hex_group (s : bytes) (digits : nat) (acc : Z) : option (nat * Z * bytes) :=
  match s with
  | c :: s' =>
      match hex_digit_value c with
      | Some v => if (3 <? digits)%nat then None else hex_group s' (S digits) (Z.shiftl acc 4 + v)
      | None => Some (digits, acc, s)
      end
  | [] => Some (digits, acc, [])
  end.

(** Groups of two octets; [acc] are the octets so far, [ell] their number before the
    ellipsis.  The result keeps the text that no group used. *)
Fixpoint parse_groups (groups : nat) (s : bytes) (acc : bytes) (ell : option nat) : option (bytes * option nat * bytes) :=
  match groups with
  | O => Some (acc, ell, s)
  | S groups =>
      match hex_group s 0 0 with
      | None | Some (O, _, _) => None
      | Some (_, v, rest) =>
          match rest with
          | c :: _ =>
              if Byte.eqb c dot then
                if bool_decide (ell = None) && negb (length acc =? 12)%nat then None
                else if (16 <? length acc + 4)%nat then None
                else match parse_ipv4_fields [] 0 O s with Some o => Some (acc ++ o, ell, []) | None => None end
              else
                let acc := acc ++ [u8 (Z.shiftr v 8); u8 v] in
                if negb (Byte.eqb c colon) then None
                else match tl rest with
                     | [] => None
                     | d :: rest2 =>
                         if Byte.eqb d colon then
                           match ell with
                           | Some _ => None
                           | None => match rest2 with [] => Some (acc, Some (length acc), []) | _ => parse_groups groups rest2 acc (Some (length acc)) end
                           end
                         else parse_groups groups (d :: rest2) acc ell
                     end
          | [] => Some (acc ++ [u8 (Z.shiftr v 8); u8 v], ell, [])
          end
      end
  end.

Definition ParseAddr6 (s : bytes) : option bytes :=
  let finish (r : option (bytes * option nat * bytes)) :=
    match r with
    | Some (acc, ell, []) =>
        if (length acc <? 16)%nat then
          match ell with
          | Some e => Some (take e acc ++ repeat Byte.x00 (16 - length acc) ++ drop e acc)
          | None => None
          end
        else match ell with Some _ => None | None => Some acc end
    | _ => None
    end in
  match s with
  | a :: b :: s' =>
      if Byte.eqb a colon && Byte.eqb b colon then
        match s' with [] => Some (repeat Byte.x00 16) | _ => finish (parse_groups 8 s' [] (Some O)) end
      else finish (parse_groups 8 s [] None)
  | _ => finish (parse_groups 8 s [] None)
  end.

Definition ParseAddr (s : bytes) : option Addr :=
  match first_addr_sep s with
  | Some c =>
      if Byte.eqb c dot then Addr4 <$> parse_ipv4_fields [] 0 O s
      else if Byte.eqb c colon then Addr6 <$> ParseAddr6 s
      else None
  | None => None
  end.

(** ** [netip.Addr] *)

Definition IsValid (a : Addr) : bool := match a with AddrZero => false | _ => true end.
Definition IsPrivate (a : Addr) : bool :=
  match a with
  | AddrZero => false
  | Addr4 o => (oct o 0 =? 10) || ((oct o 0 =? 172) && (Z.land (oct o 1) 240 =? 16)) || ((oct o 0 =? 192) && (oct o 1 =? 168))
  | Addr6 o => Z.land (oct o 0) 254 =? 252
  end.
Definition IsLinkLocalMulticast (a : Addr) : bool :=
  match a with
  | AddrZero => false
  | Addr4 o => (oct o 0 =? 224) && (oct o 1 =? 0) && (oct o 2 =? 0)
  | Addr6 o => (oct o 0 =? 255) && (Z.land (oct o 1) 15 =? 2)
  end.

(** The bits of an address, most significant first, and [Prefix.Contains]. *)
Definition address_bits (o : bytes) : Z := be_get o.
Record Prefix : Type := mkPrefix { pf_octets : bytes; pf_len : Z }.
Definition prefix4 (a b c d len : Z) : Prefix := mkPrefix (map u8 [a; b; c; d]) len.
Definition prefix6 (a b c d len : Z) : Prefix := mkPrefix (map u8 [a; b; c; d] ++ repeat Byte.x00 12) len.
Definition Contains (p : Prefix) (o : bytes) : bool :=
  let shift := 8 * zlen (pf_octets p) - pf_len p in
  Z.shiftr (address_bits o) shift =? Z.shiftr (address_bits (pf_octets p)) shift.

(** ** [ipcheck.go] *)

Definition blockedV4Prefixes : list Prefix :=
  [prefix4 100 64 0 0 10; prefix4 169 254 0 0 16; prefix4 192 0 0 0 24; prefix4 192 0 2 0 24; prefix4 192 88 99 0 24;
   prefix4 198 18 0 0 15; prefix4 198 51 100 0 24; prefix4 203 0 113 0 24; prefix4 240 0 0 0 4].
Definition blockedV6Prefixes : list Prefix := [prefix6 32 1 13 184 32; prefix6 32 1 0 0 32; prefix6 32 2 0 0 16].

Definition addressBlocked (a : Addr) : bool :=
  if negb (IsValid a) then true
  else if Is4In6 a then true
  else if IsLoopback a || IsPrivate a || IsLinkLocalUnicast a || IsLinkLocalMulticast a || IsMulticast a || IsUnspecified a then true
  else match a with
       | Addr4 o => existsb (λ p, Contains p o) blockedV4Prefixes
       | Addr6 o => existsb (λ p, Contains p o) blockedV6Prefixes
       | AddrZero => false
       end.

Inductive HostError : Type :=
  | ErrBlockedAddress | ErrAmbiguousLiteral | ErrEmptyHost | ErrHostWhitespace | ErrTrailingDot | ErrHostZone | ErrHostTooLong
  | ErrEmptyLabel | ErrLabelTooLong | ErrNonASCIIHost | ErrHostCharacter | ErrLabelHyphen | ErrResolve.

Definition validateAddresses (addrs : list Addr) : result HostError unit :=
  if (length addrs =? 0)%nat then Err ErrBlockedAddress
  else if existsb (λ a, negb (IsValid a) || addressBlocked a) addrs then Err ErrBlockedAddress
  else Ok tt.

Definition canonicalIPLiteral (host : bytes) : option Addr :=
  match host with
  | [] => None
  | _ => if contains_byte percent host then None else ParseAddr host
  end.

Definition isDigitString (s : bytes) : bool := match s with [] => false | _ => forallb (in_range 48 57) s end.

(** [strings.Split] at a byte, and [strings.Contains]. *)
Fixpoint split_at (c : byte) (cur s : bytes) : list bytes :=
  match s with
  | [] => [rev cur]
  | b :: s' => if Byte.eqb b c then rev cur :: split_at c [] s' else split_at c (b :: cur) s'
  end.
Fixpoint has_infix (p s : bytes) : bool :=
  bool_decide (take (length p) s = p) || match s with [] => false | _ :: s' => has_infix p s' end.

(** [segs] in order; [allNumeric] so far. *)
Fixpoint ambiguous_segments (segs : list bytes) (allNumeric : bool) : bool :=
  match segs with
  | [] => allNumeric
  | s :: segs' =>
      match s with
      | [] => ambiguous_segments segs' false
      | c :: s' =>
          if negb (isDigitString s) then ambiguous_segments segs' false
          else if (1 <? length s)%nat && Byte.eqb c (u8 48) then true
          else ambiguous_segments segs' allNumeric
      end
  end.

Section Host.
Context `{UnicodeCase}.

Definition ambiguousIPLiteral (host : bytes) : bool :=
  match canonicalIPLiteral host with
  | Some _ => false
  | None =>
      let lower := to_lower host in
      if has_infix (bytes_of "0x") lower || has_infix (bytes_of "%") lower then true
      else ambiguous_segments (split_at dot [] host) true
  end.

Definition label_char (c : byte) : bool :=
  in_range 97 122 c || in_range 65 90 c || in_range 48 57 c || Byte.eqb c (u8 45) || Byte.eqb c (u8 95).
(** The first character of a label that is not allowed. *)
Definition label_issue (label : bytes) : option HostError :=
  match List.find (λ c, negb (label_char c)) label with
  | Some c => Some (if 127 <? b2z c then ErrNonASCIIHost else ErrHostCharacter)
  | None => None
  end.
Fixpoint label_issues (labels : list bytes) : result HostError unit :=
  match labels with
  | [] => Ok tt
  | label :: labels' =>
      match label with
      | [] => Err ErrEmptyLabel
      | c :: _ =>
          if (63 <? length label)%nat then Err ErrLabelTooLong
          else match label_issue label with
               | Some e => Err e
               | None => if Byte.eqb c (u8 45) || Byte.eqb (List.last label Byte.x00) (u8 45) then Err ErrLabelHyphen else label_issues labels'
               end
      end
  end.
Definition hostnameIssues (host : bytes) : result HostError unit :=
  match host with
  | [] => Err ErrEmptyHost
  | _ =>
      if existsb (λ c, existsb (λ n, b2z c =? n) [13; 10; 9; 32]) host then Err ErrHostWhitespace
      else if Byte.eqb (List.last host Byte.x00) dot then Err ErrTrailingDot
      else if contains_byte percent host then Err ErrHostZone
      else if (253 <? length host)%nat then Err ErrHostTooLong
      else label_issues (split_at dot [] host)
  end.

(** ** [client.go]: resolution and pinning *)

Definition resolveAndPin (resolve : bytes → result HostError (list Addr)) (host : bytes) : result HostError Addr :=
  match canonicalIPLiteral host with
  | Some lit => if addressBlocked lit then Err ErrBlockedAddress else Ok lit
  | None =>
      if ambiguousIPLiteral host then Err ErrAmbiguousLiteral
      else
        let* _ := hostnameIssues host in
        let* addrs := resolve host in
        let* _ := validateAddresses addrs in
        match List.find Is4 addrs with
        | Some a => Ok a
        | None => match addrs with a :: _ => Ok a | [] => Err ErrBlockedAddress end
        end
  end.
End Host.

(** ** [broker.go]: the host of a signed URL *)

Definition joinHostPort (host : bytes) (port : Z) : bytes :=
  if (port =? 80) || (port =? 443) then host
  else match ParseAddr host with
       | Some (Addr6 _) => [lbracket] ++ host ++ [rbracket; colon] ++ Itoa port
       | _ => host ++ colon :: Itoa port
       end.

(** ** Examples *)

Example parse_v6_examples :
  ParseAddr (bytes_of "2001:db8::1") = Some (Addr6 (map u8 [32;1;13;184] ++ repeat Byte.x00 11 ++ [Byte.x01])) ∧
  ParseAddr (bytes_of "::ffff:192.0.2.1") = Some (Addr6 (repeat Byte.x00 10 ++ map u8 [255;255;192;0;2;1])) ∧
  ParseAddr (bytes_of "1:2:3:4:5:6:7:8") = Some (Addr6 (map u8 [0;1;0;2;0;3;0;4;0;5;0;6;0;7;0;8])) ∧
  ParseAddr (bytes_of "::") = Some (Addr6 (repeat Byte.x00 16)) ∧ ParseAddr (bytes_of "1::2::3") = None ∧
  ParseAddr (bytes_of "12345::") = None ∧ ParseAddr (bytes_of "1:2:3:4:5:6:7::8") = None ∧ ParseAddr (bytes_of "10.0.0.1") = Some (Addr4 (map u8 [10;0;0;1])).
Proof. vm_compute. repeat split. Qed.

(** * The address gate *)

Lemma land_240 (b : byte) n : n ∈ [16; 224] → (Z.land (b2z b) 240 =? n) = (n <=? b2z b) && (b2z b <=? n + 15).
Proof.
  assert (He : ∀ b, forallb (λ n, Bool.eqb (Z.land (b2z b) 240 =? n) ((n <=? b2z b) && (b2z b <=? n + 15))) [16; 224] = true) by (intros []; reflexivity).
  intros Hn%list_elem_of_In. specialize (He b). rewrite forallb_forall in He. by apply eqb_prop, He.
Qed.

Lemma be_get_cons (b : byte) l : be_get (b :: l) = b2z b * 256 ^ zlen l + be_get l.
Proof. reflexivity. Qed.
Lemma be_get_nil : be_get [] = 0.
Proof. reflexivity. Qed.
(** Prefixes of IPv4 are the blocks of the protocol's table. *)
Lemma contains_cidr (o : bytes) a b c d len cl : length o = 4%nat → 0 ≤ a < 256 → 0 ≤ b < 256 → 0 ≤ c < 256 → 0 ≤ d < 256 → 0 ≤ len ≤ 32 →
  Contains (prefix4 a b c d len) o = cidr_has (block a b c d len cl) (ip32 o).
Proof.
  intros Hl Ha Hb Hc Hd Hn. destruct o as [|o0 [|o1 [|o2 [|o3 [|]]]]]; try discriminate.
  unfold Contains, cidr_has, prefix4, block, address_bits, ip32, oct. cbn [pf_octets pf_len cidr_base cidr_len nth map].
  change (8 * zlen [u8 a; u8 b; u8 c; u8 d]) with 32. rewrite !Z.shiftr_div_pow2 by lia.
  assert (E : ∀ x0 x1 x2 x3, be_get [x0; x1; x2; x3] = b2z x0 * 2 ^ 24 + b2z x1 * 2 ^ 16 + b2z x2 * 2 ^ 8 + b2z x3).
  { intros. rewrite !be_get_cons, be_get_nil. change (zlen [x1; x2; x3]) with 3. change (zlen [x2; x3]) with 2. change (zlen [x3]) with 1. change (zlen []) with 0. lia. }
  rewrite !E, !b2z_u8, !Z.mod_small by lia. reflexivity.
Qed.

(** The gate on four octets. *)
Lemma blocked4_octets (o : bytes) : length o = 4%nat →
  addressBlocked (Addr4 o) =
  (oct o 0 =? 127) || ((oct o 0 =? 10) || ((oct o 0 =? 172) && ((16 <=? oct o 1) && (oct o 1 <=? 31))) || ((oct o 0 =? 192) && (oct o 1 =? 168)))
  || ((oct o 0 =? 169) && (oct o 1 =? 254)) || ((oct o 0 =? 224) && (oct o 1 =? 0) && (oct o 2 =? 0)) || ((224 <=? oct o 0) && (oct o 0 <=? 239))
  || (ip32 o =? 0)
  || ((oct o 0 =? 100) && (64 <=? oct o 1) && (oct o 1 <=? 127)) || ((oct o 0 =? 169) && (oct o 1 =? 254)) || ((oct o 0 =? 192) && (oct o 1 =? 0) && (oct o 2 =? 0))
  || ((oct o 0 =? 192) && (oct o 1 =? 0) && (oct o 2 =? 2)) || ((oct o 0 =? 192) && (oct o 1 =? 88) && (oct o 2 =? 99))
  || ((oct o 0 =? 198) && (18 <=? oct o 1) && (oct o 1 <=? 19)) || ((oct o 0 =? 198) && (oct o 1 =? 51) && (oct o 2 =? 100))
  || ((oct o 0 =? 203) && (oct o 1 =? 0) && (oct o 2 =? 113)) || (240 <=? oct o 0).
Proof.
  intros Hl. unfold addressBlocked, blockedV4Prefixes. cbn [existsb IsValid negb Is4In6].
  rewrite !(contains_cidr o _ _ _ _ _ ClassReserved) by (done || lia). autorewrite with cidr.
  unfold IsLoopback, IsPrivate, IsLinkLocalUnicast, IsLinkLocalMulticast, IsMulticast, IsUnspecified. rewrite oct_all_zero by done.
  rewrite (land_240 (nth 1 o Byte.x00) 16 : _ → (Z.land (oct o 1) 240 =? 16) = (16 <=? oct o 1) && (oct o 1 <=? 31)) by set_solver.
  rewrite (land_240 (nth 0 o Byte.x00) 224 : _ → (Z.land (oct o 0) 240 =? 224) = (224 <=? oct o 0) && (oct o 0 <=? 239)) by set_solver.
  match goal with |- (if ?c then true else ?d) = _ => transitivity (c || d); [by destruct c|] end.
  rewrite !orb_false_r, !orb_assoc. reflexivity.
Qed.

(** The IPv4 blocks the gate lets through although the protocol's table reserves them. *)
Definition ungated (o : bytes) : bool :=
  ((oct o 0 =? 0) && negb (ip32 o =? 0)) ||
  ((oct o 0 =? 192) && (((oct o 1 =? 31) && (oct o 2 =? 196)) || ((oct o 1 =? 52) && (oct o 2 =? 193)) || ((oct o 1 =? 175) && (oct o 2 =? 48)))).

(** The comparisons of the octets, one by one. *)
Ltac octet_cases :=
  cbn [Z.eqb Z.leb Z.compare Pos.compare Pos.compare_cont Pos.eqb andb orb negb];
  repeat match goal with
  | |- context [Z.eqb ?x ?k] => destruct (Z.eqb_spec x k); subst; cbn [andb orb negb]
  | |- context [Z.leb ?x ?k] => destruct (Z.leb_spec x k); subst; cbn [andb orb negb]
  end; try done; try lia; try (split; [by intros|by intros []]).

(** C40: for IPv4 the webhook gate is the protocol's address classification.  A four-octet
    address is blocked exactly when the special-purpose table gives it a class other than
    global unicast, except the [ungated] ones, which it lets through: 0.0.0.0/8 other than
    0.0.0.0 itself, and three AS112 and AMT blocks. *)
Theorem hook_gate_matches_table (o : bytes) : length o = 4%nat →
  addressBlocked (Addr4 o) = true ↔ cidr_lookup cidr_table (ip32 o) ≠ ClassGlobalUnicast ∧ ungated o = false.
Proof.
  intros Hl. rewrite <- ClassifyIP_cidr by done. rewrite blocked4_octets by done. unfold ClassifyIP. cbn [Is4In6 IsUnspecified IsLoopback].
  rewrite oct_all_zero by done. unfold classifyIPv4, ungated.
  assert (Hz : (ip32 o =? 0) = true → oct o 0 = 0) by (unfold ip32; rewrite Z.eqb_eq; pose proof (oct_range o 0); pose proof (oct_range o 1); pose proof (oct_range o 2); pose proof (oct_range o 3); lia).
  destruct (ip32 o =? 0); [rewrite (Hz eq_refl); done|]. clear Hz. pose proof (oct_range o 0); pose proof (oct_range o 1); pose proof (oct_range o 2).
  generalize dependent (oct o 2). generalize dependent (oct o 1). generalize dependent (oct o 0). clear o Hl. intros b0 H0 b1 H1 b2 H2.
  repeat match goal with
  | |- context [b0 =? ?k] =>
      destruct (Z.eqb_spec b0 k) as [->|]; [octet_cases|]
  end.
  octet_cases.
Qed.

Lemma hook_gate_matches_table_witness :
  addressBlocked (Addr4 (map u8 [169; 254; 169; 254])) = true ∧ addressBlocked (Addr4 (map u8 [93; 184; 216; 34])) = false.
Proof.
  split; [|apply not_true_iff_false; intros H; apply (hook_gate_matches_table (map u8 [93; 184; 216; 34]) eq_refl) in H as [H _]; vm_compute in H; by apply H].
  apply (hook_gate_matches_table (map u8 [169; 254; 169; 254]) eq_refl). split; [intros Hc; vm_compute in Hc; discriminate|reflexivity].
Defined.

Lemma validate_ok addrs u : validateAddresses addrs = Ok u → addrs ≠ [] ∧ Forall (λ a, addressBlocked a = false) addrs.
Proof.
  unfold validateAddresses. destruct addrs as [|a addrs]; [done|]. cbn [length Nat.eqb]. destruct (existsb _ (a :: addrs)) eqn:E; [done|]. intros _.
  split; [done|]. apply Forall_forall. intros x Hx. rewrite <- not_true_iff_false in E. apply not_true_iff_false. intros Hb. apply E.
  apply existsb_exists. exists x. split; [by apply list_elem_of_In|]. by rewrite Hb, orb_true_r.
Qed.

(** C24: a webhook only ever dials an address that passed the gate.  The pinned address is the
    host itself, when it is an address in canonical form, or one of the addresses its name
    resolved to, all of which passed: one blocked record refuses the whole name.  A host that
    another parser might read as an address is never resolved. *)
Theorem pinned_address_passed_gate `{UnicodeCase} (resolve : bytes → result HostError (list Addr)) (host : bytes) (a : Addr) :
  resolveAndPin resolve host = Ok a →
  addressBlocked a = false ∧
  (canonicalIPLiteral host = Some a ∨
   ∃ addrs, canonicalIPLiteral host = None ∧ ambiguousIPLiteral host = false ∧ hostnameIssues host = Ok tt ∧ resolve host = Ok addrs ∧
     a ∈ addrs ∧ Forall (λ b, addressBlocked b = false) addrs ∧ (Is4 a = true ∨ Forall (λ b, Is4 b = false) addrs)).
Proof.
  unfold resolveAndPin. destruct (canonicalIPLiteral host) as [lit|].
  { destruct (addressBlocked lit) eqn:E; [done|]. intros [= <-]. split; [done|]. by left. }
  destruct (ambiguousIPLiteral host); [done|]. destruct (hostnameIssues host) as [[]|]; [|done]. destruct (resolve host) as [addrs|]; [|done].
  destruct (validateAddresses addrs) as [u|] eqn:Ev; [|done]. apply validate_ok in Ev as [Hne Hall].
  assert (Hin : ∀ b, b ∈ addrs → addressBlocked b = false) by (intros b Hb%list_elem_of_In; by eapply List.Forall_forall in Hall).
  destruct (List.find Is4 addrs) as [b|] eqn:Ef.
  - intros [= <-]. apply find_some in Ef as [Hb H4]. apply list_elem_of_In in Hb. split; [by apply Hin|]. right. exists addrs. split_and!; try done. by left.
  - destruct addrs as [|b addrs]; [done|]. intros [= <-]. split; [apply Hin; by left|]. right. exists (b :: addrs). split_and!; try done; [by left|].
    right. apply Forall_forall. intros x Hx. apply (find_none _ _ Ef). by apply list_elem_of_In.
Qed.

Definition example_resolver (host : bytes) : result HostError (list Addr) :=
  if bytes_eqb host (bytes_of "hooks.example.org") then Ok [Addr6 (map u8 [38; 6; 71; 0] ++ repeat Byte.x00 11 ++ [Byte.x01]); Addr4 (map u8 [93; 184; 216; 34])] else Err ErrResolve.
Lemma pinned_address_passed_gate_witness : addressBlocked (Addr4 (map u8 [93; 184; 216; 34])) = false.
Proof. apply (@pinned_address_passed_gate ascii_case example_resolver (bytes_of "hooks.example.org")). vm_compute. reflexivity. Defined.

(** Addresses that are not global and pass the gate: site-local, the NAT64 form and the
    IPv4-compatible form of a private address, and the rest of 0.0.0.0/8. *)
Example gate_lets_through :
  let blocked s := match ParseAddr (bytes_of s) with Some a => addressBlocked a | None => true end in
  blocked "fec0::1" = false ∧ blocked "64:ff9b::a9fe:a9fe" = false ∧ blocked "::127.0.0.1" = false ∧ blocked "0.0.0.8" = false ∧
  blocked "fd00::1" = true ∧ blocked "::1" = true ∧ blocked "::ffff:10.0.0.1" = true.
Proof. vm_compute. repeat split. Qed.

(** A signed URL on port 80 loses its port, and an IPv6 host on 443 its brackets. *)
Example signed_host_forms :
  joinHostPort (bytes_of "hooks.example.org") 80 = bytes_of "hooks.example.org" ∧
  joinHostPort (bytes_of "2606:4700::1") 443 = bytes_of "2606:4700::1" ∧
  joinHostPort (bytes_of "2606:4700::1") 8443 = bytes_of "[2606:4700::1]:8443".
Proof. vm_compute. repeat split. Qed.
