(* ===== verification/HookStore.v ===== *)
(** * The hook store

    Definitions, secrets, bindings and the durable delivery queue of [src/internal/hook]
    ([crud.go], [binding.go], [queue.go]), over the SQL model.  A transaction is one function
    of the database.  Where an operation reads outside its transaction, the database it reads
    is an argument ([seen] before, [later] after), so any writer may have come between. *)

From Stdlib Require Import ZArith Lia Strings.Byte.
From stdpp Require Import base tactics list sets strings option sorting.
From S2P Require Import Prelude GoStd HookText HookNet Sql.

Open Scope string_scope.
Open Scope list_scope.
Open Scope Z_scope.

(** ** Data *)

Record QueuePolicy : Type := mkPolicy { qp_Version : Z; qp_OnFull : string; qp_MaxQueue : Z; qp_MaxAttempts : Z }.
Definition OnFullCoalesce : string := "coalesce".
Definition OnFullDrop : string := "drop".
Definition OnFullDLQ : string := "dlq".
Definition defaultMaxQueue : Z := 100.
Definition defaultMaxAttempts : Z := 8.
Definition Normalized (p : QueuePolicy) : QueuePolicy :=
  mkPolicy (if qp_Version p <=? 0 then 1 else qp_Version p)
    (if negb (String.eqb (qp_OnFull p) OnFullCoalesce) && negb (String.eqb (qp_OnFull p) OnFullDrop) && negb (String.eqb (qp_OnFull p) OnFullDLQ)
     then OnFullDLQ else qp_OnFull p)
    (if qp_MaxQueue p <=? 0 then defaultMaxQueue else qp_MaxQueue p)
    (if qp_MaxAttempts p <=? 0 then defaultMaxAttempts else qp_MaxAttempts p).

(** [encoding/json] on the two columns that hold JSON, and base64. *)
Class HookJson := {
  policy_json : QueuePolicy → string;
  marshal_params : list string → string;
  unmarshal_params : string → option (list string);
  base64 : bytes → string;
  unbase64 : string → option bytes
}.

Record Event : Type := mkEvent {
  ev_HookID : string; ev_EventID : string; ev_Kind : string; ev_NodeID : string; ev_Payload : bytes;
  ev_Policy : QueuePolicy; ev_Script : bytes; ev_SecretID : string
}.

Definition DeliveryPending : string := "PENDING".
Definition DeliveryInFlight : string := "IN_FLIGHT".
Definition DeliveryDelivered : string := "DELIVERED".
Definition DeliveryFailed : string := "FAILED".
Definition DeliveryDLQed : string := "DLQED".
Definition DeliveryDroppedDecommission : string := "DROPPED_DUE_TO_DECOMMISSION".

Record Delivery : Type := mkDelivery {
  d_ID : string; d_HookID : string; d_EventID : string; d_Kind : string; d_State : string; d_AttemptCount : Z; d_MaxAttempts : Z;
  d_NextAttemptAt : Z; d_PolicyJSON : string; d_PayloadJSON : string; d_ScriptB64 : string; d_SecretID : string; d_LastError : string;
  d_NodeID : string; d_DecommissionDeadline : Z; d_CreatedAt : Z; d_UpdatedAt : Z
}.
Record DefinitionRow : Type := mkDefinition {
  hd_ID : string; hd_Name : string; hd_Kind : string; hd_URL : string; hd_Allow : string; hd_Revision : Z; hd_CreatedAt : Z; hd_UpdatedAt : Z
}.
Record SecretRow : Type := mkSecret {
  sr_ID : string; sr_SecretID : string; sr_Algorithm : string; sr_Ciphertext : bytes; sr_KeyID : string; sr_Budget : Z; sr_Issued : Z;
  sr_Revision : Z; sr_CreatedAt : Z; sr_UpdatedAt : Z
}.
Record BindingRow : Type := mkBinding { hb_HookID : string; hb_SecretID : string; hb_CreatedAt : Z }.

(** A row of [admin_events]; the payload is the text of [AppendAudit] or the quoted fields
    of a [Sprintf] of this package. *)
Inductive AuditPayload : Type := AText (s : string) | AFields (l : list (string * string)).
Record AuditRow : Type := mkAudit { au_Type : string; au_Payload : AuditPayload; au_At : Z }.
(** A row of [api_operations] that [RetryDeliveryAndRecord] inserts. *)
Record OperationRow : Type := mkOperation { op_ID : string; op_Node : option string; op_Detail : string; op_At : Z }.

Record hdb : Type := mkHdb {
  h_defs : list DefinitionRow; h_secrets : list SecretRow; h_bindings : list BindingRow; h_deliveries : list Delivery;
  h_audit : list AuditRow; h_ops : list OperationRow
}.
Definition set_defs v (s : hdb) : hdb := mkHdb v (h_secrets s) (h_bindings s) (h_deliveries s) (h_audit s) (h_ops s).
Definition set_secrets v (s : hdb) : hdb := mkHdb (h_defs s) v (h_bindings s) (h_deliveries s) (h_audit s) (h_ops s).
Definition set_bindings v (s : hdb) : hdb := mkHdb (h_defs s) (h_secrets s) v (h_deliveries s) (h_audit s) (h_ops s).
Definition set_deliveries v (s : hdb) : hdb := mkHdb (h_defs s) (h_secrets s) (h_bindings s) v (h_audit s) (h_ops s).
Definition set_audit v (s : hdb) : hdb := mkHdb (h_defs s) (h_secrets s) (h_bindings s) (h_deliveries s) v (h_ops s).
Definition set_ops v (s : hdb) : hdb := mkHdb (h_defs s) (h_secrets s) (h_bindings s) (h_deliveries s) (h_audit s) v.

Inductive HookError : Type :=
  | HNotFound | HConflict | HInvalid | HCASConflict | HQueueFull | HConstraint | HRandom | HParams
  | HSecretNotBound | HNoBudget | HBudgetExhausted | HEndpointDeviation | HNoAllowlist | HParamNotAllowlisted
  | HContributionMismatch | HCapabilityExhausted | HAlgorithm | HKeyMismatch | HDecrypt | HIntent (what : string) | HHost (e : HostError) | HURL | HQueryFragment
  | HScript | HEnvelope | HRunner (kind : string) | HRunnerUnsupported | HSchema | HStorage.

Definition hop (A : Type) : Type := hdb → result HookError A * hdb.
Definition htx (A : Type) : Type := stx hdb HookError A.

(** ** Audit *)

Definition add_audit (kind : string) (fields : list (string * string)) (ts : Z) : htx unit :=
  sql_write (λ s, set_audit (h_audit s ++ [mkAudit kind (AFields fields) ts]) s).
Definition AppendAudit (eventType payload : string) (ts : Z) : hop unit :=
  commit_tx (sql_write (λ s, set_audit (h_audit s ++ [mkAudit eventType (AText payload) ts]) s)).

(** ** Definitions ([crud.go]) *)

Section Store.
Context {json : HookJson}.

Definition definition_by (id : string) (s : hdb) : option DefinitionRow := sql_row (λ r, String.eqb (hd_ID r) id) (h_defs s).
(** [GetDefinition]: the row with its parsed allowlist. *)
Definition GetDefinition (id : string) (s : hdb) : result HookError (DefinitionRow * list string) :=
  match definition_by id s with
  | None => Err HNotFound
  | Some r => match unmarshal_params (hd_Allow r) with Some l => Ok (r, l) | None => Err HParams end
  end.

Definition CreateDefinition (later : hdb → hdb) (rid : option string) (name kind url : string) (ts : Z) : hop (DefinitionRow * list string) := λ s,
  match rid with
  | None => (Err HRandom, s)
  | Some id =>
      match commit_tx (
        sql! clash := sql_read (λ s, sql_exists (λ r, String.eqb (hd_ID r) id) (h_defs s)) in
        sql_fail_if clash with HConstraint ;;
        sql_write (λ s, set_defs (h_defs s ++ [mkDefinition id name kind url "[]" 1 ts ts]) s)) s with
      | (Err e, s) => (Err e, s)
      | (Ok _, s) => (GetDefinition id (later s), s)
      end
  end.

(** The rows by name and id. *)
Definition def_le (a b : DefinitionRow) : Prop :=
  if String.eqb (hd_Name a) (hd_Name b) then string_le (hd_ID a) (hd_ID b) else string_le (hd_Name a) (hd_Name b).
#[export] Instance def_le_dec a b : Decision (def_le a b).
Proof. unfold def_le. destruct (String.eqb _ _); apply _. Defined.
Definition ListDefinitions (s : hdb) : result HookError (list (DefinitionRow * list string)) :=
  of_option HParams (mapM (λ r, pair r <$> unmarshal_params (hd_Allow r)) (merge_sort def_le (h_defs s))).

Definition UpdateDefinition (seen : hdb) (later : hdb → hdb) (id : string) (name url : option string) (expectedRev ts : Z) : hop (DefinitionRow * list string) := λ s,
  match GetDefinition id seen with
  | Err e => (Err e, s)
  | Ok (current, _) =>
      let setName := default (hd_Name current) name in
      let setURL := default (hd_URL current) url in
      let hit r := String.eqb (hd_ID r) id && (hd_Revision r =? expectedRev) in
      let s' := set_defs (sql_update hit (λ r, mkDefinition (hd_ID r) setName (hd_Kind r) setURL (hd_Allow r) (hd_Revision r + 1) (hd_CreatedAt r) ts) (h_defs s)) s in
      if negb (sql_count hit (h_defs s) =? 1)%nat then
        match GetDefinition id (later s') with Err HNotFound => (Err HNotFound, s') | _ => (Err HCASConflict, s') end
      else (GetDefinition id (later s'), s')
  end.

(** The deletion with its cascade to the deliveries and the bindings. *)
Definition DeleteDefinition (later : hdb → hdb) (id : string) (expectedRev : Z) : hop unit := λ s,
  let hit r := String.eqb (hd_ID r) id && (hd_Revision r =? expectedRev) in
  if negb (sql_count hit (h_defs s) =? 1)%nat then
    match GetDefinition id (later s) with Err HNotFound => (Err HNotFound, s) | _ => (Err HCASConflict, s) end
  else
    (Ok tt, set_deliveries (sql_delete (λ d, String.eqb (d_HookID d) id) (h_deliveries s))
              (set_bindings (sql_delete (λ b, String.eqb (hb_HookID b) id) (h_bindings s)) (set_defs (sql_delete hit (h_defs s)) s))).

(** ** Secrets *)

Definition defaultSecretSignatureBudget : Z := 1024.
Definition secret_by (secretID : string) (s : hdb) : option SecretRow := sql_row (λ r, String.eqb (sr_SecretID r) secretID) (h_secrets s).
Definition GetSecretRow (secretID : string) (s : hdb) : result HookError SecretRow := of_option HNotFound (secret_by secretID s).
Definition GetSecretByID (id : string) (s : hdb) : result HookError SecretRow := of_option HNotFound (sql_row (λ r, String.eqb (sr_ID r) id) (h_secrets s)).
Definition secret_le (a b : SecretRow) : Prop :=
  if String.eqb (sr_SecretID a) (sr_SecretID b) then string_le (sr_ID a) (sr_ID b) else string_le (sr_SecretID a) (sr_SecretID b).
#[export] Instance secret_le_dec a b : Decision (secret_le a b).
Proof. unfold secret_le. destruct (String.eqb _ _); apply _. Defined.
Definition ListSecrets (s : hdb) : list SecretRow := merge_sort secret_le (h_secrets s).

Definition CreateSecret (later : hdb → hdb) (rid : option string) (secretID algorithm : string) (ciphertext : bytes) (keyID : string) (ts : Z) : hop SecretRow := λ s,
  match rid with
  | None => (Err HRandom, s)
  | Some id =>
      match commit_tx (
        sql! clash := sql_read (λ s, sql_exists (λ r, String.eqb (sr_ID r) id || String.eqb (sr_SecretID r) secretID) (h_secrets s)) in
        sql_fail_if clash with HConflict ;;
        sql_write (λ s, set_secrets (h_secrets s ++ [mkSecret id secretID algorithm ciphertext keyID defaultSecretSignatureBudget 0 1 ts ts]) s)) s with
      | (Err e, s) => (Err e, s)
      | (Ok _, s) => (GetSecretRow secretID (later s), s)
      end
  end.

Definition DeleteSecret (later : hdb → hdb) (id : string) (expectedRev : Z) : hop unit := λ s,
  let hit r := String.eqb (sr_ID r) id && (sr_Revision r =? expectedRev) in
  match sql_row hit (h_secrets s) with
  | None => match GetSecretByID id (later s) with Err HNotFound => (Err HNotFound, s) | _ => (Err HCASConflict, s) end
  | Some r =>
      (Ok tt, set_bindings (sql_delete (λ b, String.eqb (hb_SecretID b) (sr_SecretID r)) (h_bindings s)) (set_secrets (sql_delete hit (h_secrets s)) s))
  end.

(** ** Bindings, budgets and allowlists ([binding.go]) *)

Definition BindSecretToHook (seen : hdb) (hookID secretID : string) (ts : Z) : hop unit := λ s,
  if String.eqb hookID "" || String.eqb secretID "" then (Err HInvalid, s)
  else match GetDefinition hookID seen with
       | Err e => (Err e, s)
       | Ok _ =>
           match GetSecretRow secretID seen with
           | Err e => (Err e, s)
           | Ok _ => commit_tx (
               sql! bound := sql_read (λ s, sql_exists (λ b, String.eqb (hb_HookID b) hookID && String.eqb (hb_SecretID b) secretID) (h_bindings s)) in
               if bound then sql_ret tt
               else
                 sql! hook := sql_read (definition_by hookID) in
                 sql! secret := sql_read (secret_by secretID) in
                 match hook, secret with
                 | Some _, Some _ => sql_write (λ s, set_bindings (h_bindings s ++ [mkBinding hookID secretID ts]) s)
                 | _, _ => sql_fail HConstraint
                 end) s
           end
       end.
Definition IsSecretBoundToHook (hookID secretID : string) (s : hdb) : bool :=
  (sql_count (λ b, String.eqb (hb_HookID b) hookID && String.eqb (hb_SecretID b) secretID) (h_bindings s) =? 1)%nat.
Definition UnbindSecretFromHook (hookID secretID : string) : hop unit := λ s,
  (Ok tt, set_bindings (sql_delete (λ b, String.eqb (hb_HookID b) hookID && String.eqb (hb_SecretID b) secretID) (h_bindings s)) s).

Definition with_budget (budget ts : Z) (r : SecretRow) : SecretRow :=
  mkSecret (sr_ID r) (sr_SecretID r) (sr_Algorithm r) (sr_Ciphertext r) (sr_KeyID r) budget (sr_Issued r) (sr_Revision r) (sr_CreatedAt r) ts.
Definition with_issued (ts : Z) (r : SecretRow) : SecretRow :=
  mkSecret (sr_ID r) (sr_SecretID r) (sr_Algorithm r) (sr_Ciphertext r) (sr_KeyID r) (sr_Budget r) (sr_Issued r + 1) (sr_Revision r) (sr_CreatedAt r) ts.
Definition SetSecretSignatureBudget (secretID : string) (budget ts : Z) : hop unit := λ s,
  if String.eqb secretID "" then (Err HInvalid, s)
  else if budget <? 0 then (Err HInvalid, s)
  else
    let hit r := String.eqb (sr_SecretID r) secretID in
    (if (sql_count hit (h_secrets s) =? 1)%nat then Ok tt else Err HNotFound, set_secrets (sql_update hit (with_budget budget ts) (h_secrets s)) s).

(** The budget is read before the conditional update that consumes a unit. *)
Definition ReserveSecretSignature (seen : hdb) (secretID : string) (ts : Z) : hop unit := λ s,
  match secret_by secretID seen with
  | None => (Err HNotFound, s)
  | Some r0 =>
      if sr_Budget r0 <=? 0 then (Err HNoBudget, s)
      else
        let hit r := String.eqb (sr_SecretID r) secretID && (sr_Issued r <? sr_Budget r) in
        (if (sql_count hit (h_secrets s) =? 1)%nat then Ok tt else Err HBudgetExhausted, set_secrets (sql_update hit (with_issued ts) (h_secrets s)) s)
  end.
Definition SignatureUsage (secretID : string) (s : hdb) : result HookError (Z * Z) :=
  match secret_by secretID s with Some r => Ok (sr_Issued r, sr_Budget r) | None => Err HNotFound end.

Definition SetHookParamsAllowlist (hookID : string) (allowed : list string) (ts : Z) : hop unit := λ s,
  if String.eqb hookID "" then (Err HInvalid, s)
  else
    let hit r := String.eqb (hd_ID r) hookID in
    (if (sql_count hit (h_defs s) =? 1)%nat then Ok tt else Err HNotFound,
     set_defs (sql_update hit (λ r, mkDefinition (hd_ID r) (hd_Name r) (hd_Kind r) (hd_URL r) (marshal_params allowed) (hd_Revision r) (hd_CreatedAt r) ts) (h_defs s)) s).
Definition GetHookParamsAllowlist (hookID : string) (s : hdb) : result HookError (list string) :=
  match definition_by hookID s with
  | None => Err HNotFound
  | Some r => of_option HParams (unmarshal_params (hd_Allow r))
  end.
End Store.

(** * The delivery queue ([src/internal/hook/queue.go]) *)

(** ** Rows *)

Definition in_state (states : list string) (d : Delivery) : bool := existsb (String.eqb (d_State d)) states.
(** [state IN ('PENDING','IN_FLIGHT','FAILED')]. *)
Definition live_states : list string := [DeliveryPending; DeliveryInFlight; DeliveryFailed].
Definition has_id (id : string) (d : Delivery) : bool := String.eqb (d_ID d) id.

(** An UPDATE of a delivery: the columns that some statement sets. *)
Definition upd (d : Delivery) (state : string) (attempts next : Z) (payload script secret err : string) (deadline now : Z) : Delivery :=
  mkDelivery (d_ID d) (d_HookID d) (d_EventID d) (d_Kind d) state attempts (d_MaxAttempts d) next (d_PolicyJSON d) payload script secret err
    (d_NodeID d) deadline (d_CreatedAt d) now.
Definition set_state (state : string) (ts : Z) (d : Delivery) : Delivery :=
  upd d state (d_AttemptCount d) (d_NextAttemptAt d) (d_PayloadJSON d) (d_ScriptB64 d) (d_SecretID d) (d_LastError d) (d_DecommissionDeadline d) ts.

Definition update_deliveries (w : Delivery → bool) (f : Delivery → Delivery) : htx unit :=
  sql_write (λ s, set_deliveries (sql_update w f (h_deliveries s)) s).

(** A write of the queue: a transaction from [beginImmediate] to [Commit], or one statement on
    its own.  It may fail to begin or to commit (a lock, a full disk) and then leaves nothing;
    which writes do is any function of the database they meet. *)
Class HookDisk := { disk_commits : hdb → bool }.
Definition write_tx `{HookDisk} {A} (m : htx A) : hop A := λ s, if disk_commits s then commit_tx m s else (Err HStorage, s).
(** The disk that never fails. *)
Definition sound_disk : HookDisk := {| disk_commits _ := true |}.

Section Queue.
Context {json : HookJson} {disk : HookDisk}.

Definition GetDelivery (id : string) (s : hdb) : result HookError Delivery := of_option HNotFound (sql_row (has_id id) (h_deliveries s)).

Definition b64Str (b : bytes) : string := match b with [] => "" | _ => base64 b end.

(** ** Enqueueing *)

Definition insertDelivery (rid : option string) (evt : Event) (policy : QueuePolicy) (kind state : string) (ts next : Z) (lastError : string) : htx Delivery :=
  match rid with
  | None => sql_fail HRandom
  | Some id =>
      let d := mkDelivery id (ev_HookID evt) (ev_EventID evt) kind state 0 (qp_MaxAttempts policy) next (policy_json (Normalized policy))
                 (string_of (ev_Payload evt)) (b64Str (ev_Script evt)) (ev_SecretID evt) lastError (ev_NodeID evt) 0 ts ts in
      sql! clash := sql_read (λ s, sql_exists (has_id id) (h_deliveries s)) in
      sql! hook := sql_read (definition_by (ev_HookID evt)) in
      sql_fail_if clash || negb (bool_decide (is_Some hook)) with HConstraint ;;
      sql! _ := sql_write (λ s, set_deliveries (h_deliveries s ++ [d]) s) in
      sql_ret d
  end.

(** How a transaction of [EnqueueEvent] ends, when it does not fail. *)
Inductive enqueued : Type := Stored (d : Delivery) | Existing (id : string) | Coalesced (id : string) | Dropped.

(** [ORDER BY created_at LIMIT 1]. *)
Definition created_le (a b : Delivery) : Prop := d_CreatedAt a ≤ d_CreatedAt b.
#[export] Instance created_le_dec a b : Decision (created_le a b).
Proof. unfold created_le. apply _. Defined.
Definition coalesce_target (hookID kind : string) (s : hdb) : option Delivery :=
  head (merge_sort created_le (sql_select (λ d, String.eqb (d_HookID d) hookID && String.eqb (d_Kind d) kind && in_state [DeliveryPending; DeliveryFailed] d) (h_deliveries s))).

Definition enqueueFull (rid : option string) (evt : Event) (policy : QueuePolicy) (kind : string) (ts : Z) : htx enqueued :=
  let dead reason lastError :=
    sql! d := insertDelivery rid evt policy kind DeliveryDLQed ts ts lastError in
    sql! _ := add_audit "HOOK_DELIVERY_DLQED" [("delivery_id", d_ID d); ("hook_id", ev_HookID evt); ("event_id", ev_EventID evt); ("reason", reason)] ts in
    sql_ret (Stored d) in
  if String.eqb (qp_OnFull policy) OnFullCoalesce then
    sql! target := sql_read (coalesce_target (ev_HookID evt) kind) in
    match target with
    | Some t =>
        sql! _ := update_deliveries (has_id (d_ID t))
          (if String.eqb (d_State t) DeliveryFailed
           then λ d, upd d DeliveryPending 0 ts (string_of (ev_Payload evt)) (b64Str (ev_Script evt)) (ev_SecretID evt) (d_LastError d) (d_DecommissionDeadline d) ts
           else λ d, upd d (d_State d) (d_AttemptCount d) (d_NextAttemptAt d) (string_of (ev_Payload evt)) (b64Str (ev_Script evt)) (ev_SecretID evt) (d_LastError d) (d_DecommissionDeadline d) ts) in
        sql! _ := add_audit "HOOK_DELIVERY_COALESCED" [("delivery_id", d_ID t); ("hook_id", ev_HookID evt); ("event_id", ev_EventID evt)] ts in
        sql_ret (Coalesced (d_ID t))
    | None => dead "queue full, no coalesce target" "queue coalesce fallback to DLQ"
    end
  else if String.eqb (qp_OnFull policy) OnFullDrop then sql_ret Dropped
  else dead "queue full" "queue full (DLQ policy)".

Definition backlog (hookID : string) (s : hdb) : nat := sql_count (λ d, String.eqb (d_HookID d) hookID && in_state live_states d) (h_deliveries s).
Definition same_event (evt : Event) (d : Delivery) : bool := String.eqb (d_HookID d) (ev_HookID evt) && String.eqb (d_EventID d) (ev_EventID evt).

Definition enqueue_tx (rid : option string) (evt : Event) (policy : QueuePolicy) (kind : string) (ts : Z) : htx enqueued :=
  sql! existing := sql_read (λ s, sql_row (same_event evt) (h_deliveries s)) in
  match existing with
  | Some d => sql_ret (Existing (d_ID d))
  | None =>
      sql! n := sql_read (backlog (ev_HookID evt)) in
      if qp_MaxQueue policy <=? Z.of_nat n then enqueueFull rid evt policy kind ts
      else
        sql! d := insertDelivery rid evt policy kind DeliveryPending ts ts "" in
        sql_ret (Stored d)
  end.

(** The audit row of a dropped event has a transaction of its own, after the rollback. *)
Definition EnqueueEvent (seen : hdb) (later : hdb → hdb) (rid : option string) (evt : Event) (ts : Z) : hop Delivery := λ s,
  if String.eqb (ev_HookID evt) "" || String.eqb (ev_EventID evt) "" then (Err HInvalid, s)
  else
    let policy := Normalized (ev_Policy evt) in
    let kind := if String.eqb (ev_Kind evt) "" then "lifecycle" else ev_Kind evt in
    match GetDefinition (ev_HookID evt) seen with
    | Err e => (Err e, s)
    | Ok _ =>
        match write_tx (enqueue_tx rid evt policy kind ts) s with
        | (Err e, s) => (Err e, s)
        | (Ok (Stored d), s) => (Ok d, s)
        | (Ok (Existing id), s) | (Ok (Coalesced id), s) => (GetDelivery id (later s), s)
        | (Ok Dropped, s) =>
            match write_tx (add_audit "HOOK_DELIVERY_DROPPED" [("hook_id", ev_HookID evt); ("event_id", ev_EventID evt); ("policy", "drop")] ts) s with
            | (Ok _, s) => (Err HQueueFull, s)
            | (Err e, s) => (Err e, s)
            end
        end
    end.

(** ** Claiming *)

Definition inFlightStuckSeconds : Z := 300.
Definition claim_le (a b : Delivery) : Prop :=
  if d_NextAttemptAt a =? d_NextAttemptAt b then string_le (d_ID a) (d_ID b) else d_NextAttemptAt a < d_NextAttemptAt b.
#[export] Instance claim_le_dec a b : Decision (claim_le a b).
Proof. unfold claim_le. destruct (_ =? _); apply _. Defined.

Definition stuck (ts : Z) (d : Delivery) : bool := String.eqb (d_State d) DeliveryInFlight && (d_UpdatedAt d <? ts - inFlightStuckSeconds).
Definition requeue (ts : Z) (d : Delivery) : Delivery :=
  upd d DeliveryPending (d_AttemptCount d) ts (d_PayloadJSON d) (d_ScriptB64 d) (d_SecretID d) (d_LastError d) (d_DecommissionDeadline d) ts.
Definition expired (ts : Z) (d : Delivery) : bool :=
  (0 <? d_DecommissionDeadline d) && (d_DecommissionDeadline d <=? ts) && in_state live_states d.
Definition due (ts : Z) (d : Delivery) : bool := in_state [DeliveryPending; DeliveryFailed] d && (d_NextAttemptAt d <=? ts).

Definition claim_tx (max ts : Z) : htx (list string) :=
  sql! _ := update_deliveries (stuck ts) (requeue ts) in
  sql! drops := sql_read (λ s, sql_select (expired ts) (h_deliveries s)) in
  sql! _ := sql_iter (λ r,
    sql! _ := update_deliveries (has_id (d_ID r)) (set_state DeliveryDroppedDecommission ts) in
    add_audit "HOOK_DELIVERY_DROPPED_DUE_TO_DECOMMISSION"
      [("delivery_id", d_ID r); ("hook_id", d_HookID r); ("event_id", d_EventID r); ("node_id", d_NodeID r)] ts) drops in
  sql! ids := sql_read (λ s, d_ID <$> take (Z.to_nat max) (merge_sort claim_le (sql_select (due ts) (h_deliveries s)))) in
  sql! _ := sql_iter (λ id, update_deliveries (λ d, has_id id d && in_state [DeliveryPending; DeliveryFailed] d) (set_state DeliveryInFlight ts)) ids in
  sql_ret ids.

Definition ClaimDue (later : hdb → hdb) (max ts : Z) : hop (list Delivery) := λ s,
  if max <=? 0 then (Ok [], s)
  else match write_tx (claim_tx max ts) s with
       | (Err e, s) => (Err e, s)
       | (Ok ids, s) => (match mapM (λ id, sql_row (has_id id) (h_deliveries (later s))) ids with Some l => Ok l | None => Err HNotFound end, s)
       end.

(** ** Outcomes *)

Definition MarkDelivered (later : hdb → hdb) (id : string) (ts : Z) : hop unit := λ s,
  let hit d := has_id id d && String.eqb (d_State d) DeliveryInFlight in
  match write_tx (
    sql! n := sql_read (λ s, sql_count hit (h_deliveries s)) in
    sql! _ := update_deliveries hit (λ d, upd d DeliveryDelivered (d_AttemptCount d) (d_NextAttemptAt d) (d_PayloadJSON d) (d_ScriptB64 d) (d_SecretID d) ""
      (d_DecommissionDeadline d) ts) in
    sql_ret n) s with
  | (Err e, s) => (Err e, s)
  | (Ok n, s) => if (n =? 1)%nat then (Ok tt, s) else match GetDelivery id (later s) with Err HNotFound => (Err HNotFound, s) | _ => (Ok tt, s) end
  end.

(** [backoffSeconds] with the jitter it is given, if any, and [BackoffSeconds]. *)
Definition backoffSeconds (attempt : Z) (jitter : option (Z → Z)) : Z :=
  let attempt := if attempt <=? 0 then 1 else attempt in
  let attempt := if 8 <? attempt then 8 else attempt in
  let base := Z.shiftl 1 (attempt - 1) in
  let base := if base <? 1 then 1 else base in
  let base := if 300 <? base then 300 else base in
  let base := match jitter with Some j => base + j (Z.quot base 5) | None => base end in
  let base := if base <? 1 then 1 else base in
  if 300 <? base then 300 else base.
Definition BackoffSeconds (attempt : Z) : Z := backoffSeconds attempt None.

(** The row is read before the transaction ([seen]); the update asks again for its state,
    and the audit row of a dead letter does not depend on the update. *)
Definition MarkFailed (seen : hdb) (jitter : Z → Z) (id errMsg : string) (ts : Z) : hop unit := λ s,
  match sql_row (has_id id) (h_deliveries seen) with
  | None => (Err HNotFound, s)
  | Some d =>
      if negb (String.eqb (d_State d) DeliveryInFlight) then (Ok tt, s)
      else
        let attempt := d_AttemptCount d + 1 in
        let next := ts + backoffSeconds attempt (Some jitter) in
        let hit d := has_id id d && String.eqb (d_State d) DeliveryInFlight in
        if d_MaxAttempts d <=? attempt then
          write_tx (
            sql! _ := update_deliveries hit (λ d, upd d DeliveryDLQed attempt (d_NextAttemptAt d) (d_PayloadJSON d) (d_ScriptB64 d) (d_SecretID d) errMsg (d_DecommissionDeadline d) ts) in
            add_audit "HOOK_DELIVERY_DLQED" [("delivery_id", id); ("reason", "max attempts reached")] ts) s
        else
          write_tx (update_deliveries hit (λ d, upd d DeliveryFailed attempt next (d_PayloadJSON d) (d_ScriptB64 d) (d_SecretID d) errMsg (d_DecommissionDeadline d) ts)) s
  end.

(** ** Retries *)

(** The part that both retry operations share; [record] inserts the operation row. *)
Definition retry_tx (id : string) (ts : Z) (record : htx unit) : htx unit :=
  let hit d := has_id id d && in_state [DeliveryFailed; DeliveryDLQed] d in
  sql! n := sql_read (λ s, sql_count hit (h_deliveries s)) in
  sql! _ := update_deliveries hit (λ d, upd d DeliveryPending 0 ts (d_PayloadJSON d) (d_ScriptB64 d) (d_SecretID d) "" (d_DecommissionDeadline d) ts) in
  sql_fail_if negb (n =? 1)%nat with HInvalid ;;
  sql! _ := record in
  add_audit "HOOK_DELIVERY_RETRY" [("delivery_id", id)] ts.
Definition retry (later : hdb → hdb) (id : string) (ts : Z) (record : htx unit) : hop Delivery := λ s,
  match write_tx (retry_tx id ts record) s with
  | (Ok _, s) => (GetDelivery id (later s), s)
  | (Err HInvalid, s) => (match GetDelivery id (later s) with Err HNotFound => Err HNotFound | _ => Err HInvalid end, s)
  | (Err e, s) => (Err e, s)
  end.
Definition RetryDelivery (later : hdb → hdb) (id : string) (ts : Z) : hop Delivery := retry later id ts (sql_ret tt).

Definition insert_operation (opID nodeID detail : string) (ts : Z) : htx unit :=
  sql! clash := sql_read (λ s, sql_exists (λ o, String.eqb (op_ID o) opID) (h_ops s)) in
  sql_fail_if clash with HConstraint ;;
  sql_write (λ s, set_ops (h_ops s ++ [mkOperation opID (if String.eqb nodeID "" then None else Some nodeID) detail ts]) s).
Definition RetryDeliveryAndRecord (later : hdb → hdb) (id opID nodeID detail : string) (ts : Z) : hop Delivery := λ s,
  if String.eqb id "" || String.eqb opID "" then (Err HInvalid, s)
  else retry later id ts (insert_operation opID nodeID detail ts) s.

(** ** Decommissioning *)

Definition MarkDecommissioned (nodeID : string) (deadline ts : Z) : hop unit := λ s,
  if String.eqb nodeID "" then (Err HInvalid, s)
  else if deadline <=? 0 then (Err HInvalid, s)
  else
    let hit d := String.eqb (d_NodeID d) nodeID && in_state live_states d in
    write_tx (
      sql! n := sql_read (λ s, sql_count hit (h_deliveries s)) in
      sql! _ := update_deliveries hit (λ d, upd d (d_State d) (d_AttemptCount d) (d_NextAttemptAt d) (d_PayloadJSON d) (d_ScriptB64 d) (d_SecretID d) (d_LastError d) deadline ts) in
      add_audit "HOOK_DECOMMISSION_MARKED"
        [("node_id", nodeID); ("deadline", string_of (Itoa deadline)); ("affected", string_of (Itoa (Z.of_nat n)))] ts) s.

(** ** Listings *)

Definition listed_le (a b : Delivery) : Prop :=
  if d_CreatedAt a =? d_CreatedAt b then string_le (d_ID a) (d_ID b) else d_CreatedAt b < d_CreatedAt a.
#[export] Instance listed_le_dec a b : Decision (listed_le a b).
Proof. unfold listed_le. destruct (_ =? _); apply _. Defined.
Definition ListDeliveries (limit : Z) (s : hdb) : list Delivery :=
  take (Z.to_nat (if limit <=? 0 then 100 else limit)) (merge_sort listed_le (h_deliveries s)).
Definition AdminEvents (limit : Z) (s : hdb) : list string :=
  take (Z.to_nat (if limit <=? 0 then 100 else limit)) (rev (au_Type <$> h_audit s)).
End Queue.
