(* ===== verification/HookProofs.v ===== *)
(** * The hook store's rows over time

    [evolves]: what an operation may do to the deliveries.  Every row keeps its identity,
    moves along the life cycle, and is lost only with an audit row that names it. *)

From Stdlib Require Import ZArith Lia Strings.Byte.
From stdpp Require Import base tactics list sets strings option relations sorting.
From S2P Require Import Prelude GoStd HookText Sql HookStore.

Open Scope string_scope.
Open Scope list_scope.
Open Scope Z_scope.

(** ** The life cycle *)

(** The edges of the delivery automaton of [hook.go]. *)
Inductive life : string → string → Prop :=
  | life_claim s : s = DeliveryPending ∨ s = DeliveryFailed → life s DeliveryInFlight
  | life_requeue : life DeliveryInFlight DeliveryPending
  | life_deliver : life DeliveryInFlight DeliveryDelivered
  | life_fail : life DeliveryInFlight DeliveryFailed
  | life_dead : life DeliveryInFlight DeliveryDLQed
  | life_retry s : s = DeliveryFailed ∨ s = DeliveryDLQed → life s DeliveryPending
  | life_drop s : s = DeliveryPending ∨ s = DeliveryInFlight ∨ s = DeliveryFailed → life s DeliveryDroppedDecommission.

Definition states : list string :=
  [DeliveryPending; DeliveryInFlight; DeliveryDelivered; DeliveryFailed; DeliveryDLQed; DeliveryDroppedDecommission].
Definition is_lost (s : string) : Prop := s = DeliveryDLQed ∨ s = DeliveryDroppedDecommission.
Definition is_final (s : string) : Prop := s = DeliveryDelivered ∨ s = DeliveryDroppedDecommission.

(** The columns no statement sets. *)
Definition same_identity (d d' : Delivery) : Prop :=
  d_ID d' = d_ID d ∧ d_HookID d' = d_HookID d ∧ d_EventID d' = d_EventID d ∧ d_Kind d' = d_Kind d ∧ d_MaxAttempts d' = d_MaxAttempts d ∧
  d_PolicyJSON d' = d_PolicyJSON d ∧ d_NodeID d' = d_NodeID d ∧ d_CreatedAt d' = d_CreatedAt d.
#[export] Instance same_identity_pre : PreOrder same_identity.
Proof. split; [intros d; repeat split|]. intros a b c (?&?&?&?&?&?&?&?) (?&?&?&?&?&?&?&?). repeat split; congruence. Qed.
Lemma upd_identity d st a n p sc se e dl u : same_identity d (upd d st a n p sc se e dl u).
Proof. repeat split. Qed.
#[export] Hint Resolve upd_identity : hook.

Lemma life_states s s' : life s s' → s ∈ states ∧ s' ∈ states.
Proof. destruct 1 as [s Hs| | | | |s Hs|s Hs]; (split; [|by vm_compute; set_solver]); unfold states; set_solver. Qed.

(** An audit row that names a delivery. *)
Definition names_delivery (id : string) (a : AuditRow) : Prop :=
  match au_Payload a with AFields l => ("delivery_id", id) ∈ l | AText _ => False end.
Definition loss_kinds : list string := ["HOOK_DELIVERY_DLQED"; "HOOK_DELIVERY_DROPPED_DUE_TO_DECOMMISSION"].
Definition accounts (id : string) (a : AuditRow) : Prop := au_Type a ∈ loss_kinds ∧ names_delivery id a.

(** ** Well-formed tables *)

Definition event_key (d : Delivery) : string * string := (d_HookID d, d_EventID d).
Record wf_rows (s : hdb) : Prop := {
  wr_ids : unique d_ID (h_deliveries s);
  wr_events : unique event_key (h_deliveries s);
  wr_states d : d ∈ h_deliveries s → d_State d ∈ states;
  wr_hooks d : d ∈ h_deliveries s → ∃ r, r ∈ h_defs s ∧ hd_ID r = d_HookID d
}.

(** ** What an operation does to the rows *)

Record evolution (s s' : hdb) (f : Delivery → Delivery) (extra : list Delivery) (new : list AuditRow) : Prop := {
  ev_rows : h_deliveries s' = (f <$> h_deliveries s) ++ extra;
  ev_audit : h_audit s' = h_audit s ++ new;
  ev_identity d : d ∈ h_deliveries s → same_identity d (f d);
  ev_life d : d ∈ h_deliveries s → rtc life (d_State d) (d_State (f d));
  ev_loss d : d ∈ h_deliveries s → is_lost (d_State (f d)) → d_State (f d) = d_State d ∨ ∃ a, a ∈ new ∧ accounts (d_ID d) a;
  ev_born d : d ∈ extra → rtc life DeliveryPending (d_State d) ∧ (is_lost (d_State d) → ∃ a, a ∈ new ∧ accounts (d_ID d) a)
}.
Definition evolves (s s' : hdb) : Prop :=
  wf_rows s → wf_rows s' ∧ h_defs s' = h_defs s ∧ h_secrets s' = h_secrets s ∧ h_bindings s' = h_bindings s ∧
    (unique op_ID (h_ops s) → unique op_ID (h_ops s')) ∧ ∃ f extra new, evolution s s' f extra new.

Lemma evolves_refl s : evolves s s.
Proof.
  intros Hw. split_and!; [done..|]. exists id, [], []. split; try done.
  - by rewrite list_fmap_id, app_nil_r.
  - by rewrite app_nil_r.
  - intros d _ _. by left.
  - intros d Hd. by apply not_elem_of_nil in Hd.
Qed.

(** An update that moves every row it hits along the life cycle. *)
Definition row_step (new : list AuditRow) (d d' : Delivery) : Prop :=
  same_identity d d' ∧ rtc life (d_State d) (d_State d') ∧ (is_lost (d_State d') → d_State d' = d_State d ∨ ∃ a, a ∈ new ∧ accounts (d_ID d) a).
Lemma rtc_life_states s s' : rtc life s s' → s ∈ states → s' ∈ states.
Proof. induction 1 as [|x y z H]; [done|]. intros _. apply life_states in H as [_ H]. auto. Qed.

Lemma wf_rows_fmap s s' (f : Delivery → Delivery) :
  h_deliveries s' = f <$> h_deliveries s → h_defs s' = h_defs s →
  (∀ d, d ∈ h_deliveries s → same_identity d (f d) ∧ rtc life (d_State d) (d_State (f d))) → wf_rows s → wf_rows s'.
Proof.
  intros Hd Hh Hf [H1 H2 H3 H4].
  assert (Hk : ∀ {K} (key : Delivery → K), (∀ d d', same_identity d d' → key d' = key d) → unique key (h_deliveries s) → unique key (h_deliveries s')).
  { intros K key Hkey Hu. unfold unique in *. rewrite Hd. rewrite <- list_fmap_compose.
    erewrite (list_fmap_ext _ key); [done|]. intros i d Hi. apply Hkey, Hf. by eapply list_elem_of_lookup_2. }
  split.
  - apply Hk; [|done]. by intros d d' (?&_).
  - apply Hk; [|done]. unfold event_key. intros d d' (_&?&?&_). congruence.
  - intros d Hin. rewrite Hd in Hin. apply list_elem_of_fmap in Hin as (d0 & -> & Hin). destruct (Hf d0 Hin) as [_ Hl]. eapply rtc_life_states; eauto.
  - intros d Hin. rewrite Hd in Hin. apply list_elem_of_fmap in Hin as (d0 & -> & Hin). destruct (Hf d0 Hin) as [(_ & -> & _) _]. rewrite Hh. auto.
Qed.

Lemma evolves_update s (f : Delivery → Delivery) (new : list AuditRow) s' :
  s' = set_audit (h_audit s ++ new) (set_deliveries (f <$> h_deliveries s) s) →
  (wf_rows s → ∀ d, d ∈ h_deliveries s → row_step new d (f d)) → evolves s s'.
Proof.
  intros -> Hf Hw. specialize (Hf Hw). split_and!; [|done..|].
  - eapply (wf_rows_fmap s _ f); [done..| |done]. intros d Hd. by destruct (Hf d Hd) as (? & ? & _).
  - exists f, [], new. split; try done; try (intros d Hd; by destruct (Hf d Hd) as (? & ? & ?)).
    + cbn. by rewrite app_nil_r.
    + intros d Hd. by apply not_elem_of_nil in Hd.
Qed.

Lemma evolves_trans s1 s2 s3 : evolves s1 s2 → evolves s2 s3 → evolves s1 s3.
Proof.
  intros H1 H2 Hw. destruct (H1 Hw) as (Hw2 & D1 & S1 & B1 & O1 & f & e1 & n1 & E1). destruct (H2 Hw2) as (Hw3 & D2 & S2 & B2 & O2 & g & e2 & n2 & E2).
  split_and!; [done|congruence..|auto|]. exists (g ∘ f), ((g <$> e1) ++ e2), (n1 ++ n2).
  assert (Hin : ∀ d, d ∈ h_deliveries s1 → f d ∈ h_deliveries s2) by (intros d Hd; rewrite (ev_rows _ _ _ _ _ E1); apply elem_of_app; left; by apply list_elem_of_fmap_2).
  assert (Hex : ∀ d, d ∈ e1 → d ∈ h_deliveries s2) by (intros d Hd; rewrite (ev_rows _ _ _ _ _ E1); apply elem_of_app; by right).
  split.
  - rewrite (ev_rows _ _ _ _ _ E2), (ev_rows _ _ _ _ _ E1), fmap_app, list_fmap_compose. by rewrite app_assoc.
  - rewrite (ev_audit _ _ _ _ _ E2), (ev_audit _ _ _ _ _ E1). by rewrite app_assoc.
  - intros d Hd. etrans; [by apply (ev_identity _ _ _ _ _ E1)|]. apply (ev_identity _ _ _ _ _ E2). auto.
  - intros d Hd. etrans; [by apply (ev_life _ _ _ _ _ E1)|]. apply (ev_life _ _ _ _ _ E2). auto.
  - intros d Hd Hl. pose proof (ev_identity _ _ _ _ _ E1 d Hd) as (Hid & _). cbn in Hl.
    destruct (ev_loss _ _ _ _ _ E2 (f d) (Hin d Hd) Hl) as [He|(a & Ha & Hn)]; [|right; exists a; split; [set_solver|by rewrite <- Hid]].
    cbn. rewrite He in *. destruct (ev_loss _ _ _ _ _ E1 d Hd Hl) as [?|(a & Ha & Hn)]; [by left|]. right. exists a. set_solver.
  - intros d Hd. apply elem_of_app in Hd as [Hd|Hd].
    + apply list_elem_of_fmap in Hd as (d0 & -> & Hd0). pose proof (ev_identity _ _ _ _ _ E2 d0 (Hex d0 Hd0)) as (Hid & _).
      destruct (ev_born _ _ _ _ _ E1 d0 Hd0) as [Hb Hl]. split; [etrans; [done|]; apply (ev_life _ _ _ _ _ E2); auto|]. intros Hlost. rewrite Hid.
      destruct (ev_loss _ _ _ _ _ E2 d0 (Hex d0 Hd0) Hlost) as [He|(a & Ha & Hn)]; [|exists a; split; [set_solver|done]].
      rewrite He in Hlost. destruct (Hl Hlost) as (a & Ha & Hn). exists a. split; [set_solver|done].
    + destruct (ev_born _ _ _ _ _ E2 d Hd) as [? Hl]. split; [done|]. intros Hlost. destruct (Hl Hlost) as (a & Ha & Hn). exists a. split; [set_solver|done].
Qed.

(** ** Statements *)

Definition tx_evolves {A} (m : htx A) : Prop := ∀ s a s', m s = Ok (a, s') → evolves s s'.
Lemma tx_ret {A} (a : A) : tx_evolves (sql_ret a).
Proof. intros s b s' [= <- <-]. apply evolves_refl. Qed.
Lemma tx_fail {A} e : tx_evolves (A := A) (sql_fail e).
Proof. done. Qed.
Lemma tx_read {A} (f : hdb → A) : tx_evolves (sql_read f).
Proof. intros s b s' [= <- <-]. apply evolves_refl. Qed.
Lemma tx_bind {A B} (m : htx A) (k : A → htx B) : tx_evolves m → (∀ a, tx_evolves (k a)) → tx_evolves (sql_bind m k).
Proof. intros Hm Hk s b s' (a & s1 & H1 & H2)%sql_bind_Ok. eapply evolves_trans; [by eapply Hm|by eapply Hk]. Qed.
Lemma tx_commit {A} (m : htx A) s : tx_evolves m → evolves s (commit_tx m s).2.
Proof. intros Hm. unfold commit_tx. destruct (m s) as [[a s']|e] eqn:E; [by eapply Hm|apply evolves_refl]. Qed.

Lemma tx_audit kind fields ts : tx_evolves (add_audit kind fields ts).
Proof.
  intros s a s' [= _ <-]. eapply (evolves_update s id [mkAudit kind (AFields fields) ts]).
  - by rewrite list_fmap_id.
  - intros _ d _. split_and!; [done|done|by left].
Qed.
Lemma evolves_audit s rows : evolves s (set_audit (h_audit s ++ rows) s).
Proof.
  eapply (evolves_update s id rows); [rewrite list_fmap_id; by destruct s|]. intros _ d _. split_and!; [done|done|by left].
Qed.

(** An update that loses nothing. *)
Definition harmless (w : Delivery → bool) (f : Delivery → Delivery) : Prop :=
  ∀ d, w d = true → same_identity d (f d) ∧ rtc life (d_State d) (d_State (f d)) ∧ (is_lost (d_State (f d)) → d_State (f d) = d_State d).
Lemma evolves_rows s w f : harmless w f → evolves s (set_deliveries (sql_update w f (h_deliveries s)) s).
Proof.
  intros Hh. eapply (evolves_update s (λ d, if w d then f d else d) []).
  - unfold sql_update. rewrite app_nil_r. reflexivity.
  - intros _ d _. destruct (w d) eqn:Ew; [|split_and!; [done|done|by left]]. destruct (Hh d Ew) as (H1 & H2 & H3). split_and!; [done|done|]. intros Hl. left. auto.
Qed.
Lemma tx_rows w f : harmless w f → tx_evolves (update_deliveries w f).
Proof. intros Hh s a s' [= _ <-]. by apply evolves_rows. Qed.

(** An update with the audit rows that account for its losses. *)
Definition audited (w : Delivery → bool) (f : Delivery → Delivery) (new : list AuditRow) : Prop :=
  ∀ d, w d = true → same_identity d (f d) ∧ rtc life (d_State d) (d_State (f d)) ∧ ∃ a, a ∈ new ∧ accounts (d_ID d) a.
Lemma evolves_audited s w f new :
  (wf_rows s → ∀ d, d ∈ h_deliveries s → w d = true → same_identity d (f d) ∧ rtc life (d_State d) (d_State (f d)) ∧ ∃ a, a ∈ new ∧ accounts (d_ID d) a) →
  evolves s (set_audit (h_audit s ++ new) (set_deliveries (sql_update w f (h_deliveries s)) s)).
Proof.
  intros Hh. eapply (evolves_update s (λ d, if w d then f d else d) new); [reflexivity|].
  intros Hw d Hd. destruct (w d) eqn:Ew; [|split_and!; [done|done|by left]]. destruct (Hh Hw d Hd Ew) as (H1 & H2 & H3). split_and!; [done|done|]. intros _. by right.
Qed.

Lemma state_in d l : in_state l d = true ↔ d_State d ∈ l.
Proof. unfold in_state. rewrite existsb_exists. setoid_rewrite <- list_elem_of_In. setoid_rewrite String.eqb_eq. naive_solver. Qed.

Lemma write_evolves `{HookDisk} {A} (m : htx A) s : tx_evolves m → evolves s (write_tx m s).2.
Proof. intros Hm. unfold write_tx. destruct (disk_commits s); [by apply tx_commit|apply evolves_refl]. Qed.

Section Rows.
Context {json : HookJson} {disk : HookDisk}.

(** A new row, with the audit row of a dead letter. *)
Lemma insert_evolves rid evt policy kind st ts next err s d s1 new :
  insertDelivery rid evt policy kind st ts next err s = Ok (d, s1) → sql_row (same_event evt) (h_deliveries s) = None →
  rtc life DeliveryPending st → (is_lost st → ∃ a, a ∈ new ∧ accounts (d_ID d) a) →
  h_deliveries s1 = h_deliveries s ++ [d] ∧ d_State d = st ∧ d_HookID d = ev_HookID evt ∧ d_EventID d = ev_EventID evt ∧ h_audit s1 = h_audit s ∧
  evolves s (set_audit (h_audit s1 ++ new) s1).
Proof.
  intros Hi Hnone Hl Ha. unfold insertDelivery in Hi. destruct rid as [id|]; [|done].
  apply sql_bind_Ok in Hi as (clash & sa & [= <- <-] & Hi). apply sql_bind_Ok in Hi as (hook & sb & [= <- <-] & Hi).
  destruct (sql_exists (has_id id) (h_deliveries s)) eqn:Hc; [done|]. destruct (definition_by (ev_HookID evt) s) as [r|] eqn:Hd; [|done].
  cbn [orb negb bool_decide] in Hi. destruct (bool_decide (is_Some (Some r))) eqn:Eb; [|exfalso; apply bool_decide_eq_false in Eb; apply Eb; by eexists].
  cbn [negb] in Hi. apply sql_bind_Ok in Hi as (u & sc & [= _ <-] & [= <- <-]). cbn.
  split_and!; [done..|]. intros [H1 H2 H3 H4].
  assert (Hfresh : ∀ x, x ∈ h_deliveries s → d_ID x ≠ id).
  { intros x Hx He. rewrite <- not_true_iff_false in Hc. apply Hc, sql_exists_true. exists x. split; [done|]. unfold has_id. by apply String.eqb_eq. }
  assert (Hev : ∀ x, x ∈ h_deliveries s → event_key x ≠ (ev_HookID evt, ev_EventID evt)).
  { intros x Hx [= E1 E2]. pose proof (sql_row_None _ _ x Hnone Hx) as Hf. unfold same_event in Hf. rewrite E1, E2, !String.eqb_refl in Hf. done. }
  split_and!; [|done..|].
  - split; cbn.
    + unfold unique. rewrite fmap_app. apply NoDup_app. split_and!; [done| |apply NoDup_singleton]. intros i Hi2%list_elem_of_fmap ->%list_elem_of_singleton.
      destruct Hi2 as (x & Hx & Hin). by apply (Hfresh x).
    + unfold unique. rewrite fmap_app. apply NoDup_app. split_and!; [done| |apply NoDup_singleton]. intros i Hi2%list_elem_of_fmap ->%list_elem_of_singleton.
      destruct Hi2 as (x & Hx & Hin). by apply (Hev x).
    + intros x [Hx| ->%list_elem_of_singleton]%elem_of_app; [auto|]. cbn. eapply rtc_life_states; [exact Hl|]. unfold states. set_solver.
    + intros x [Hx| ->%list_elem_of_singleton]%elem_of_app; [auto|]. cbn. exists r. unfold definition_by in Hd. apply sql_row_Some in Hd as [Hd He].
      split; [done|]. by apply String.eqb_eq.
  - exists (λ x, x), [mkDelivery id (ev_HookID evt) (ev_EventID evt) kind st 0 (qp_MaxAttempts policy) next (policy_json (Normalized policy))
      (string_of (ev_Payload evt)) (b64Str (ev_Script evt)) (ev_SecretID evt) err (ev_NodeID evt) 0 ts ts], new. split; cbn; try done.
    + by rewrite list_fmap_id.
    + intros x _ _. by left.
    + intros x ->%list_elem_of_singleton. by split.
Qed.

Lemma born_dead : rtc life DeliveryPending DeliveryDLQed.
Proof. eapply rtc_l; [apply life_claim; by left|]. apply rtc_once, life_dead. Qed.

Lemma coalesce_target_Some hook kind s t : coalesce_target hook kind s = Some t →
  t ∈ h_deliveries s ∧ d_HookID t = hook ∧ d_Kind t = kind ∧ (d_State t = DeliveryPending ∨ d_State t = DeliveryFailed).
Proof.
  unfold coalesce_target. intros Hh. assert (Hin : t ∈ sql_select (λ d, String.eqb (d_HookID d) hook && String.eqb (d_Kind d) kind && in_state [DeliveryPending; DeliveryFailed] d) (h_deliveries s)).
  { rewrite <- (merge_sort_Permutation created_le). destruct (merge_sort _ _); [done|]. injection Hh as ->. by left. }
  apply in_sql_select in Hin as [Hin Hc]. apply andb_true_iff in Hc as [Hc Hst]. apply andb_true_iff in Hc as [H1 H2].
  apply String.eqb_eq in H1, H2. apply state_in in Hst. set_solver.
Qed.

Definition coalesced_row (evt : Event) (ts : Z) (t d : Delivery) : Delivery :=
  (if String.eqb (d_State t) DeliveryFailed
   then λ d, upd d DeliveryPending 0 ts (string_of (ev_Payload evt)) (b64Str (ev_Script evt)) (ev_SecretID evt) (d_LastError d) (d_DecommissionDeadline d) ts
   else λ d, upd d (d_State d) (d_AttemptCount d) (d_NextAttemptAt d) (string_of (ev_Payload evt)) (b64Str (ev_Script evt)) (ev_SecretID evt) (d_LastError d) (d_DecommissionDeadline d) ts) d.

(** How the transaction of an enqueue ends. *)
Inductive enqueue_end (rid : option string) (evt : Event) (policy : QueuePolicy) (kind : string) (ts : Z) (s : hdb) : enqueued → hdb → Prop :=
  | end_existing d : d ∈ h_deliveries s → same_event evt d = true → enqueue_end rid evt policy kind ts s (Existing (d_ID d)) s
  | end_stored d s' : sql_row (same_event evt) (h_deliveries s) = None → Z.of_nat (backlog (ev_HookID evt) s) < qp_MaxQueue policy →
      insertDelivery rid evt policy kind DeliveryPending ts ts "" s = Ok (d, s') → enqueue_end rid evt policy kind ts s (Stored d) s'
  | end_coalesced t : sql_row (same_event evt) (h_deliveries s) = None → qp_MaxQueue policy ≤ Z.of_nat (backlog (ev_HookID evt) s) → qp_OnFull policy = OnFullCoalesce →
      coalesce_target (ev_HookID evt) kind s = Some t →
      enqueue_end rid evt policy kind ts s (Coalesced (d_ID t))
        (set_audit (h_audit s ++ [mkAudit "HOOK_DELIVERY_COALESCED" (AFields [("delivery_id", d_ID t); ("hook_id", ev_HookID evt); ("event_id", ev_EventID evt)]) ts])
           (set_deliveries (sql_update (has_id (d_ID t)) (coalesced_row evt ts t) (h_deliveries s)) s))
  | end_dropped : sql_row (same_event evt) (h_deliveries s) = None → qp_MaxQueue policy ≤ Z.of_nat (backlog (ev_HookID evt) s) → qp_OnFull policy = OnFullDrop →
      enqueue_end rid evt policy kind ts s Dropped s
  | end_dead d s' reason lastError : sql_row (same_event evt) (h_deliveries s) = None → qp_MaxQueue policy ≤ Z.of_nat (backlog (ev_HookID evt) s) →
      insertDelivery rid evt policy kind DeliveryDLQed ts ts lastError s = Ok (d, s') →
      enqueue_end rid evt policy kind ts s (Stored d)
        (set_audit (h_audit s' ++ [mkAudit "HOOK_DELIVERY_DLQED" (AFields [("delivery_id", d_ID d); ("hook_id", ev_HookID evt); ("event_id", ev_EventID evt); ("reason", reason)]) ts]) s').

Lemma dead_end rid evt policy kind ts s (reason lastError : string) r s' :
  sql_row (same_event evt) (h_deliveries s) = None → qp_MaxQueue policy ≤ Z.of_nat (backlog (ev_HookID evt) s) →
  (sql! d := insertDelivery rid evt policy kind DeliveryDLQed ts ts lastError in
   sql! _ := add_audit "HOOK_DELIVERY_DLQED" [("delivery_id", d_ID d); ("hook_id", ev_HookID evt); ("event_id", ev_EventID evt); ("reason", reason)] ts in
   sql_ret (Stored d)) s = Ok (r, s') → enqueue_end rid evt policy kind ts s r s'.
Proof.
  intros Hn Hb H. apply sql_bind_Ok in H as (d & s1 & H1 & H). apply sql_bind_Ok in H as (u & s2 & [= _ <-] & [= <- <-]). by eapply end_dead.
Qed.

Lemma enqueue_ends rid evt policy kind ts s r s' : enqueue_tx rid evt policy kind ts s = Ok (r, s') → enqueue_end rid evt policy kind ts s r s'.
Proof.
  unfold enqueue_tx. intros H. apply sql_bind_Ok in H as (existing & s1 & [= <- <-] & H). destruct (sql_row (same_event evt) (h_deliveries s)) as [d|] eqn:Er.
  { injection H as <- <-. apply sql_row_Some in Er as [Hd He]. by apply end_existing. }
  apply sql_bind_Ok in H as (n & s1 & [= <- <-] & H). destruct (Z.leb_spec (qp_MaxQueue policy) (Z.of_nat (backlog (ev_HookID evt) s))) as [Hb|Hb].
  - unfold enqueueFull in H. destruct (String.eqb_spec (qp_OnFull policy) OnFullCoalesce) as [Ec|Ec].
    + apply sql_bind_Ok in H as (target & s1 & [= <- <-] & H). destruct (coalesce_target (ev_HookID evt) kind s) as [t|] eqn:Et.
      * apply sql_bind_Ok in H as (u & s1 & [= _ <-] & H). apply sql_bind_Ok in H as (u2 & s2 & [= _ <-] & [= <- <-]). by eapply end_coalesced.
      * by eapply dead_end.
    + destruct (String.eqb_spec (qp_OnFull policy) OnFullDrop); [injection H as <- <-; by apply end_dropped|]. by eapply dead_end.
  - apply sql_bind_Ok in H as (d & s1 & H1 & [= <- <-]). by eapply end_stored.
Qed.

Lemma enqueue_end_evolves rid evt policy kind ts s r s' : enqueue_end rid evt policy kind ts s r s' → evolves s s'.
Proof.
  destruct 1 as [d Hd He|d s' Hn Hb Hi|t Hn Hb Hp Ht|Hn Hb Hp|d s' reason lastError Hn Hb Hi].
  - apply evolves_refl.
  - destruct (insert_evolves _ _ _ _ _ _ _ _ _ _ _ [] Hi Hn) as (_ & _ & _ & _ & _ & Hev); [done|by intros [|]|].
    rewrite app_nil_r in Hev. by destruct s'.
  - apply coalesce_target_Some in Ht as (Hin & _ & _ & Hst). eapply (evolves_update s (λ d, if has_id (d_ID t) d then coalesced_row evt ts t d else d)); [reflexivity|].
    intros [Hu _ _ _] d Hd. destruct (has_id (d_ID t) d) eqn:Eh; [|split_and!; [done|done|by left]]. apply String.eqb_eq in Eh.
    assert (d = t) as -> by (eapply (unique_inj d_ID); eauto). unfold coalesced_row.
    destruct (String.eqb_spec (d_State t) DeliveryFailed) as [Ef|Ef]; cbn; rewrite ?Ef.
    + split_and!; [done|apply rtc_once, life_retry; by left|by intros [|]].
    + split_and!; [done|done|by left].
  - apply evolves_refl.
  - eapply (insert_evolves _ _ _ _ _ _ _ _ _ _ _ _ Hi Hn); [apply born_dead|]. intros _. eexists. split; [by left|]. split; cbn; [by left|]. unfold names_delivery. cbn. by left.
Qed.

Lemma EnqueueEvent_evolves seen later rid evt ts s : evolves s (EnqueueEvent seen later rid evt ts s).2.
Proof.
  unfold EnqueueEvent. destruct (_ || _); [apply evolves_refl|]. destruct (GetDefinition _ seen); [|apply evolves_refl].
  assert (Ht : ∀ policy kind, tx_evolves (enqueue_tx rid evt policy kind ts)) by (intros policy kind s1 r s2 E; apply enqueue_ends in E; by eapply enqueue_end_evolves).
  match goal with |- context [write_tx ?m s] => pose proof (write_evolves m s (Ht _ _)) as He; destruct (write_tx m s) as [[r|e] s1] end; cbn [snd] in He; [|exact He].
  destruct r; try exact He. eapply evolves_trans; [exact He|].
  match goal with |- context [write_tx ?m s1] => pose proof (write_evolves m s1 (tx_audit _ _ _)) as Ha; destruct (write_tx m s1) as [[] s2] end; exact Ha.
Qed.

(** ** Claiming *)

Lemma set_state_twice st ts d : set_state st ts (set_state st ts d) = set_state st ts d.
Proof. reflexivity. Qed.

Definition drop_audit (ts : Z) (r : Delivery) : AuditRow :=
  mkAudit "HOOK_DELIVERY_DROPPED_DUE_TO_DECOMMISSION"
    (AFields [("delivery_id", d_ID r); ("hook_id", d_HookID r); ("event_id", d_EventID r); ("node_id", d_NodeID r)]) ts.
Definition is_one_of (ids : list string) (d : Delivery) : bool := existsb (λ id, has_id id d) ids.
Lemma is_one_of_spec ids d : is_one_of ids d = true ↔ d_ID d ∈ ids.
Proof. unfold is_one_of, has_id. rewrite existsb_exists. setoid_rewrite String.eqb_eq. setoid_rewrite <- list_elem_of_In. naive_solver. Qed.

Lemma update_none {R} (f : R → R) (t : list R) : sql_update (λ _, false) f t = t.
Proof. unfold sql_update. apply List.map_id. Qed.
Lemma update_more id ids (f : Delivery → Delivery) t : (∀ d, f (f d) = f d) → (∀ d, d_ID (f d) = d_ID d) →
  sql_update (is_one_of ids) f (sql_update (has_id id) f t) = sql_update (is_one_of (id :: ids)) f t.
Proof.
  intros Hf Hi. unfold sql_update. rewrite List.map_map. apply map_ext. intros d. unfold is_one_of. cbn [existsb].
  destruct (has_id id d); cbn [orb]; [|done]. rewrite Hf. by destruct (existsb _ _).
Qed.
Lemma claim_more id ids ts t :
  sql_update (λ d, is_one_of ids d && in_state [DeliveryPending; DeliveryFailed] d) (set_state DeliveryInFlight ts)
    (sql_update (λ d, has_id id d && in_state [DeliveryPending; DeliveryFailed] d) (set_state DeliveryInFlight ts) t) =
  sql_update (λ d, is_one_of (id :: ids) d && in_state [DeliveryPending; DeliveryFailed] d) (set_state DeliveryInFlight ts) t.
Proof.
  unfold sql_update. rewrite List.map_map. apply map_ext. intros d. unfold is_one_of. cbn [existsb].
  destruct (has_id id d); cbn [orb andb]; [|done]. destruct (in_state [DeliveryPending; DeliveryFailed] d) eqn:E.
  - change (in_state [DeliveryPending; DeliveryFailed] (set_state DeliveryInFlight ts d)) with false. by rewrite andb_false_r.
  - by rewrite E, andb_false_r.
Qed.

Lemma drop_loop ts rs s :
  sql_iter (λ r,
    sql! _ := update_deliveries (has_id (d_ID r)) (set_state DeliveryDroppedDecommission ts) in
    add_audit "HOOK_DELIVERY_DROPPED_DUE_TO_DECOMMISSION"
      [("delivery_id", d_ID r); ("hook_id", d_HookID r); ("event_id", d_EventID r); ("node_id", d_NodeID r)] ts) rs s =
  Ok (tt, set_audit (h_audit s ++ map (drop_audit ts) rs)
            (set_deliveries (sql_update (is_one_of (map d_ID rs)) (set_state DeliveryDroppedDecommission ts) (h_deliveries s)) s)).
Proof.
  revert s. induction rs as [|r rs IH]; intros s; cbn [sql_iter map].
  - rewrite app_nil_r. change (is_one_of []) with (λ _ : Delivery, false). rewrite update_none. by destruct s.
  - unfold sql_bind at 1 2, update_deliveries at 1, add_audit at 1, sql_write. cbv beta iota. rewrite IH.
    cbn [h_audit h_deliveries set_audit set_deliveries h_defs h_secrets h_bindings h_ops]. rewrite <- app_assoc.
    rewrite update_more; [reflexivity|done|]. by intros d.
Qed.

Lemma claim_loop ts ids s :
  sql_iter (λ id, update_deliveries (λ d, has_id id d && in_state [DeliveryPending; DeliveryFailed] d) (set_state DeliveryInFlight ts)) ids s =
  Ok (tt, set_deliveries (sql_update (λ d, is_one_of ids d && in_state [DeliveryPending; DeliveryFailed] d) (set_state DeliveryInFlight ts) (h_deliveries s)) s).
Proof.
  revert s. induction ids as [|id ids IH]; intros s; cbn [sql_iter].
  - change (λ d, is_one_of [] d && in_state [DeliveryPending; DeliveryFailed] d) with (λ _ : Delivery, false). rewrite update_none. by destruct s.
  - unfold sql_bind at 1, update_deliveries at 1, sql_write. cbv beta iota. rewrite IH.
    cbn [h_audit h_deliveries set_audit set_deliveries h_defs h_secrets h_bindings h_ops]. rewrite claim_more. reflexivity.
Qed.

(** The three parts of a claim. *)
Definition requeued (ts : Z) (s : hdb) : hdb := set_deliveries (sql_update (stuck ts) (requeue ts) (h_deliveries s)) s.
Definition dropped (ts : Z) (s : hdb) : hdb :=
  let rs := sql_select (expired ts) (h_deliveries s) in
  set_audit (h_audit s ++ map (drop_audit ts) rs)
    (set_deliveries (sql_update (is_one_of (map d_ID rs)) (set_state DeliveryDroppedDecommission ts) (h_deliveries s)) s).
Definition due_ids (max ts : Z) (s : hdb) : list string := d_ID <$> take (Z.to_nat max) (merge_sort claim_le (sql_select (due ts) (h_deliveries s))).
Definition claimed (max ts : Z) (s : hdb) : hdb :=
  set_deliveries (sql_update (λ d, is_one_of (due_ids max ts s) d && in_state [DeliveryPending; DeliveryFailed] d) (set_state DeliveryInFlight ts) (h_deliveries s)) s.

Lemma claim_tx_eq max ts s :
  claim_tx max ts s = Ok (due_ids max ts (dropped ts (requeued ts s)), claimed max ts (dropped ts (requeued ts s))).
Proof.
  unfold claim_tx. unfold sql_bind at 1, update_deliveries at 1, sql_write. fold (requeued ts s).
  unfold sql_bind at 1, sql_read at 1. unfold sql_bind at 1. rewrite drop_loop. fold (dropped ts (requeued ts s)).
  unfold sql_bind at 1, sql_read at 1. unfold sql_bind at 1. rewrite claim_loop. reflexivity.
Qed.

Lemma requeued_evolves ts s : evolves s (requeued ts s).
Proof.
  apply evolves_rows. intros d Hd. unfold stuck in Hd. apply andb_true_iff in Hd as [Hd _]. apply String.eqb_eq in Hd.
  split_and!; [apply upd_identity| |by intros [|]]. cbn. rewrite Hd. apply rtc_once, life_requeue.
Qed.
Lemma dropped_evolves ts s : evolves s (dropped ts s).
Proof.
  apply evolves_audited. intros [Hu _ _ _] d Hd Hone. apply is_one_of_spec in Hone. apply list_elem_of_fmap in Hone as (r & Hid & Hr). apply in_sql_select in Hr as Hr2. destruct Hr2 as [Hr1 He].
  assert (d = r) as <- by (eapply (unique_inj d_ID); eauto). unfold expired in He. apply andb_true_iff in He as [_ He]. apply state_in in He.
  split_and!; [apply upd_identity| |].
  - cbn. apply rtc_once, life_drop. unfold live_states in He. set_solver.
  - exists (drop_audit ts d). split; [apply list_elem_of_fmap; by exists d|]. split; cbn; [right; by left|]. unfold names_delivery. cbn. by left.
Qed.
Lemma claimed_evolves max ts s : evolves s (claimed max ts s).
Proof.
  apply evolves_rows. intros d Hd. apply andb_true_iff in Hd as [_ Hd]. apply state_in in Hd. split_and!; [apply upd_identity| |by intros [|]].
  cbn. apply rtc_once, life_claim. set_solver.
Qed.
Lemma ClaimDue_evolves later max ts s : evolves s (ClaimDue later max ts s).2.
Proof.
  assert (Ht : tx_evolves (claim_tx max ts)).
  { intros s1 ids s2. rewrite claim_tx_eq. intros [= _ <-]. eapply evolves_trans; [apply requeued_evolves|]. eapply evolves_trans; [apply dropped_evolves|apply claimed_evolves]. }
  unfold ClaimDue. destruct (max <=? 0); [apply evolves_refl|].
  pose proof (write_evolves (claim_tx max ts) s Ht) as He. by destruct (write_tx (claim_tx max ts) s) as [[] s1].
Qed.

(** ** Outcomes, retries and deadlines *)

Lemma MarkDelivered_evolves later id ts s : evolves s (MarkDelivered later id ts s).2.
Proof.
  unfold MarkDelivered. cbv zeta.
  match goal with |- context [write_tx ?m s] => assert (He : evolves s (write_tx m s).2); [|destruct (write_tx m s) as [[n|e] s1]; [|exact He]] end.
  - apply write_evolves, tx_bind; [apply tx_read|]. intros n. apply tx_bind; [|intros; apply tx_ret]. apply tx_rows.
    intros d Hd. apply andb_true_iff in Hd as [_ Hd]. apply String.eqb_eq in Hd. split_and!; [apply upd_identity| |by intros [|]].
    cbn. rewrite Hd. apply rtc_once, life_deliver.
  - destruct (_ =? _)%nat; [exact He|]. by destruct (GetDelivery id _) as [|[]].
Qed.

(** A dead letter and its audit row are one transaction. *)
Lemma tx_dead_letter id f ts : (∀ d, d_State d = DeliveryInFlight → same_identity d (f d) ∧ d_State (f d) = DeliveryDLQed) →
  tx_evolves (sql_bind (update_deliveries (λ d, has_id id d && String.eqb (d_State d) DeliveryInFlight) f)
    (λ _, add_audit "HOOK_DELIVERY_DLQED" [("delivery_id", id); ("reason", "max attempts reached")] ts)).
Proof.
  intros Hf s a s' [= _ <-]. apply evolves_audited. intros _ d _ Hd. apply andb_true_iff in Hd as [Hi Hd]. apply String.eqb_eq in Hi, Hd.
  destruct (Hf d Hd) as [Hs Hq]. split_and!; [done| |].
  - rewrite Hq, Hd. apply rtc_once, life_dead.
  - eexists. split; [by left|]. split; cbn; [by left|]. unfold names_delivery. cbn. rewrite Hi. by left.
Qed.
Lemma MarkFailed_evolves seen jitter id msg ts s : evolves s (MarkFailed seen jitter id msg ts s).2.
Proof.
  unfold MarkFailed. destruct (sql_row _ _) as [d0|]; [|apply evolves_refl]. destruct (negb _); [apply evolves_refl|]. destruct (_ <=? _).
  - apply write_evolves, tx_dead_letter. intros d _. split; [apply upd_identity|done].
  - apply write_evolves, tx_rows. intros d Hd. apply andb_true_iff in Hd as [_ Hd]. apply String.eqb_eq in Hd. split_and!; [apply upd_identity| |by intros [|]].
    cbn. rewrite Hd. apply rtc_once, life_fail.
Qed.

Lemma retry_evolves later id ts (record : htx unit) s : tx_evolves record → evolves s (retry later id ts record s).2.
Proof.
  intros Hr. assert (H : evolves s (write_tx (retry_tx id ts record) s).2).
  { apply write_evolves. unfold retry_tx. apply tx_bind; [apply tx_read|]. intros n. apply tx_bind.
    - apply tx_rows. intros d Hd. apply andb_true_iff in Hd as [_ Hd]. apply state_in in Hd. split_and!; [apply upd_identity| |by intros [|]].
      cbn. apply rtc_once, life_retry. set_solver.
    - intros _. destruct (negb _); [apply tx_fail|]. apply tx_bind; [done|]. intros _. apply tx_audit. }
  unfold retry. destruct (write_tx (retry_tx id ts record) s) as [[u|e] s']; [done|]. by destruct e.
Qed.
Lemma tx_insert_operation opID nodeID detail ts : tx_evolves (insert_operation opID nodeID detail ts).
Proof.
  unfold insert_operation. intros s a s' (clash & s1 & [= <- <-] & H)%sql_bind_Ok Hw. destruct (sql_exists _ (h_ops s)) eqn:Ex; [done|]. injection H as _ <-.
  split_and!; [by destruct Hw|done..| |].
  { intros Hu. cbn. apply unique_insert; [done|]. intros x Hx He. rewrite <- not_true_iff_false in Ex. apply Ex, sql_exists_true. exists x. split; [done|]. cbn in He. by apply String.eqb_eq. } exists (λ d, d), [], []. split; cbn; try done.
  - by rewrite list_fmap_id, app_nil_r.
  - by rewrite app_nil_r.
  - intros d _ _. by left.
  - intros d Hd. by apply not_elem_of_nil in Hd.
Qed.
Lemma RetryDelivery_evolves later id ts s : evolves s (RetryDelivery later id ts s).2.
Proof. apply retry_evolves, tx_ret. Qed.
Lemma RetryDeliveryAndRecord_evolves later id op node detail ts s : evolves s (RetryDeliveryAndRecord later id op node detail ts s).2.
Proof. unfold RetryDeliveryAndRecord. destruct (_ || _); [apply evolves_refl|]. apply retry_evolves, tx_insert_operation. Qed.

Lemma MarkDecommissioned_evolves node deadline ts s : evolves s (MarkDecommissioned node deadline ts s).2.
Proof.
  unfold MarkDecommissioned. destruct (String.eqb _ _); [apply evolves_refl|]. destruct (_ <=? _); [apply evolves_refl|].
  apply write_evolves, tx_bind; [apply tx_read|]. intros n. apply tx_bind; [|intros _; apply tx_audit]. apply tx_rows. intros d _. by split_and!.
Qed.
Lemma row_of_id (s : hdb) d : wf_rows s → d ∈ h_deliveries s → GetDelivery (d_ID d) s = Ok d.
Proof.
  intros [Hu _ _ _] Hd. unfold GetDelivery. destruct (sql_row (has_id (d_ID d)) (h_deliveries s)) as [x|] eqn:E.
  - apply sql_row_Some in E as [Hx Hi]. apply String.eqb_eq in Hi. cbn. f_equal. by eapply (unique_inj d_ID).
  - pose proof (sql_row_None _ _ d E Hd) as Hf. unfold has_id in Hf. by rewrite String.eqb_refl in Hf.
Qed.

End Rows.
