(* ===== verification/HookRun.v ===== *)
(** * Executions of the hook store

    Every operation that writes, with what it saw before and after its transaction, and the
    two questions one asks of an execution: are the tables well formed, and what became of a
    delivery. *)

From Stdlib Require Import ZArith Lia Strings.Byte.
From stdpp Require Import base tactics list sets strings option relations sorting.
From S2P Require Import Prelude GoStd HookText Sql HookStore HookProofs.

Open Scope string_scope.
Open Scope list_scope.
Open Scope Z_scope.

Inductive hook_op : Type :=
  | OCreateDefinition (later : hdb → hdb) (rid : option string) (name kind url : string) (ts : Z)
  | OUpdateDefinition (seen : hdb) (later : hdb → hdb) (id : string) (name url : option string) (rev ts : Z)
  | ODeleteDefinition (later : hdb → hdb) (id : string) (rev : Z)
  | OCreateSecret (later : hdb → hdb) (rid : option string) (secretID algorithm : string) (ciphertext : bytes) (keyID : string) (ts : Z)
  | ODeleteSecret (later : hdb → hdb) (id : string) (rev : Z)
  | OBind (seen : hdb) (hookID secretID : string) (ts : Z)
  | OUnbind (hookID secretID : string)
  | OSetBudget (secretID : string) (budget ts : Z)
  | OReserve (seen : hdb) (secretID : string) (ts : Z)
  | OSetAllowlist (hookID : string) (allowed : list string) (ts : Z)
  | OAudit (eventType payload : string) (ts : Z)
  | OEnqueue (seen : hdb) (later : hdb → hdb) (rid : option string) (evt : Event) (ts : Z)
  | OClaim (later : hdb → hdb) (max ts : Z)
  | OMarkDelivered (later : hdb → hdb) (id : string) (ts : Z)
  | OMarkFailed (seen : hdb) (jitter : Z → Z) (id msg : string) (ts : Z)
  | ORetry (later : hdb → hdb) (id : string) (ts : Z)
  | ORetryRecord (later : hdb → hdb) (id opID nodeID detail : string) (ts : Z)
  | ODecommission (nodeID : string) (deadline ts : Z).

Section Run.
Context {json : HookJson} {disk : HookDisk}.

Definition exec_hook (op : hook_op) (s : hdb) : hdb :=
  match op with
  | OCreateDefinition later rid name kind url ts => (CreateDefinition later rid name kind url ts s).2
  | OUpdateDefinition seen later id name url rev ts => (UpdateDefinition seen later id name url rev ts s).2
  | ODeleteDefinition later id rev => (DeleteDefinition later id rev s).2
  | OCreateSecret later rid secretID algorithm ciphertext keyID ts => (CreateSecret later rid secretID algorithm ciphertext keyID ts s).2
  | ODeleteSecret later id rev => (DeleteSecret later id rev s).2
  | OBind seen hookID secretID ts => (BindSecretToHook seen hookID secretID ts s).2
  | OUnbind hookID secretID => (UnbindSecretFromHook hookID secretID s).2
  | OSetBudget secretID budget ts => (SetSecretSignatureBudget secretID budget ts s).2
  | OReserve seen secretID ts => (ReserveSecretSignature seen secretID ts s).2
  | OSetAllowlist hookID allowed ts => (SetHookParamsAllowlist hookID allowed ts s).2
  | OAudit eventType payload ts => (AppendAudit eventType payload ts s).2
  | OEnqueue seen later rid evt ts => (EnqueueEvent seen later rid evt ts s).2
  | OClaim later max ts => (ClaimDue later max ts s).2
  | OMarkDelivered later id ts => (MarkDelivered later id ts s).2
  | OMarkFailed seen jitter id msg ts => (MarkFailed seen jitter id msg ts s).2
  | ORetry later id ts => (RetryDelivery later id ts s).2
  | ORetryRecord later id opID nodeID detail ts => (RetryDeliveryAndRecord later id opID nodeID detail ts s).2
  | ODecommission nodeID deadline ts => (MarkDecommissioned nodeID deadline ts s).2
  end.
Definition run_hook (ops : list hook_op) (s : hdb) : hdb := fold_left (λ s op, exec_hook op s) ops s.

(** ** Well-formed tables *)

Definition binding_key (b : BindingRow) : string * string := (hb_HookID b, hb_SecretID b).
Record wf_hooks (s : hdb) : Prop := {
  wh_rows : wf_rows s;
  wh_defs : unique hd_ID (h_defs s);
  wh_secret_ids : unique sr_ID (h_secrets s);
  wh_secrets : unique sr_SecretID (h_secrets s);
  wh_bindings : unique binding_key (h_bindings s);
  wh_bound b : b ∈ h_bindings s → (∃ r, r ∈ h_defs s ∧ hd_ID r = hb_HookID b) ∧ (∃ r, r ∈ h_secrets s ∧ sr_SecretID r = hb_SecretID b);
  wh_issued r : r ∈ h_secrets s → 0 ≤ sr_Issued r;
  wh_ops : unique op_ID (h_ops s)
}.

(** The tables that a step leaves alone, or changes within their keys. *)
Lemma wf_evolves s s' : evolves s s' → wf_hooks s → wf_hooks s'.
Proof.
  intros He [H1 H2 H3 H4 H5 H6 H7 H8]. destruct (He H1) as (Hw & D & S & B & O & _). split; rewrite ?D, ?S, ?B; auto.
Qed.

Lemma wf_rows_defs s s' : h_deliveries s' = h_deliveries s → (∀ r, r ∈ h_defs s → ∃ r', r' ∈ h_defs s' ∧ hd_ID r' = hd_ID r) → wf_rows s → wf_rows s'.
Proof.
  intros Hd Hh [H1 H2 H3 H4]. split; rewrite ?Hd; try done. intros d Hin. destruct (H4 d Hin) as (r & Hr & <-). by apply Hh.
Qed.

Lemma wf_update_defs s w f : (∀ r, hd_ID (f r) = hd_ID r) → wf_hooks s → wf_hooks (set_defs (sql_update w f (h_defs s)) s).
Proof.
  intros Hf [H1 H2 H3 H4 H5 H6 H7 H8].
  assert (Hk : ∀ r, r ∈ h_defs s → ∃ r', r' ∈ sql_update w f (h_defs s) ∧ hd_ID r' = hd_ID r).
  { intros r Hr. exists (if w r then f r else r). split; [apply in_sql_update; by exists r|]. by destruct (w r). }
  split; cbn; try done.
  - by eapply (wf_rows_defs s).
  - by apply unique_update.
  - intros b Hb. destruct (H6 b Hb) as [(r & Hr & <-) Hs]. split; [by apply Hk|done].
Qed.
Lemma wf_update_secrets s w f : (∀ r, sr_ID (f r) = sr_ID r ∧ sr_SecretID (f r) = sr_SecretID r ∧ (0 ≤ sr_Issued r → 0 ≤ sr_Issued (f r))) →
  wf_hooks s → wf_hooks (set_secrets (sql_update w f (h_secrets s)) s).
Proof.
  intros Hf [H1 H2 H3 H4 H5 H6 H7 H8]. split; cbn; try done.
  - by destruct H1.
  - apply unique_update; [|done]. intros r. by destruct (Hf r) as (? & ? & ?).
  - apply unique_update; [|done]. intros r. by destruct (Hf r) as (? & ? & ?).
  - intros b Hb. destruct (H6 b Hb) as [Hd (r & Hr & He)]. split; [done|]. exists (if w r then f r else r). split; [apply in_sql_update; by exists r|].
    destruct (Hf r) as (? & ? & ?). destruct (w r); congruence.
  - intros r Hr. apply in_sql_update in Hr as (r0 & Hr & ->). destruct (Hf r0) as (? & ? & Hi). specialize (H7 r0 Hr). destruct (w r0); auto.
Qed.

Lemma not_exists_key {R} (w : R → bool) t x : sql_exists w t = false → x ∈ t → w x = false.
Proof. intros He Hx. apply not_true_iff_false. intros Hw. rewrite <- not_true_iff_false in He. apply He, sql_exists_true. by exists x. Qed.

Lemma wf_create_definition s later rid name kind url ts : wf_hooks s → wf_hooks (CreateDefinition later rid name kind url ts s).2.
Proof.
  intros Hw. unfold CreateDefinition. destruct rid as [id|]; [|done]. unfold commit_tx, sql_bind, sql_read, sql_write.
  destruct (sql_exists _ (h_defs s)) eqn:E; [done|]. cbn. destruct Hw as [H1 H2 H3 H4 H5 H6 H7 H8].
  assert (Hin : ∀ r, r ∈ h_defs s → ∃ r', r' ∈ h_defs s ++ [mkDefinition id name kind url "[]" 1 ts ts] ∧ hd_ID r' = hd_ID r) by (intros r Hr; exists r; split; [apply elem_of_app; by left|done]).
  split; cbn; try done.
  - by eapply (wf_rows_defs s).
  - apply unique_insert; [done|]. intros x Hx. cbn. pose proof (not_exists_key _ _ x E Hx) as Hk. by apply String.eqb_neq.
  - intros b Hb. destruct (H6 b Hb) as [(r & Hr & <-) Hs]. split; [by apply Hin|done].
Qed.
Lemma wf_create_secret s later rid secretID algorithm ciphertext keyID ts : wf_hooks s → wf_hooks (CreateSecret later rid secretID algorithm ciphertext keyID ts s).2.
Proof.
  intros Hw. unfold CreateSecret. destruct rid as [id|]; [|done]. unfold commit_tx, sql_bind, sql_read, sql_write.
  destruct (sql_exists _ (h_secrets s)) eqn:E; [done|]. cbn. destruct Hw as [H1 H2 H3 H4 H5 H6 H7 H8].
  assert (Hk : ∀ x, x ∈ h_secrets s → sr_ID x ≠ id ∧ sr_SecretID x ≠ secretID).
  { intros x Hx. pose proof (not_exists_key _ _ x E Hx) as Hk. apply orb_false_iff in Hk as [Ha Hb]. by apply String.eqb_neq in Ha, Hb. }
  split; cbn; try done.
  - by destruct H1.
  - apply unique_insert; [done|]. intros x Hx. by destruct (Hk x Hx).
  - apply unique_insert; [done|]. intros x Hx. by destruct (Hk x Hx).
  - intros b Hb. destruct (H6 b Hb) as [Hd (r & Hr & <-)]. split; [done|]. exists r. split; [apply elem_of_app; by left|done].
  - intros r [Hr| ->%list_elem_of_singleton]%elem_of_app; [auto|]. done.
Qed.
Lemma wf_delete_definition s later id rev : wf_hooks s → wf_hooks (DeleteDefinition later id rev s).2.
Proof.
  intros Hw. unfold DeleteDefinition. destruct (negb _) eqn:En; [by destruct (GetDefinition _ _) as [|[]]|]. cbn. destruct Hw as [[R1 R2 R3 R4] H2 H3 H4 H5 H6 H7 H8].
  assert (Hkeep : ∀ r h, r ∈ h_defs s → hd_ID r = h → String.eqb h id = false →
    ∃ r', r' ∈ sql_delete (λ r, String.eqb (hd_ID r) id && (hd_Revision r =? rev)) (h_defs s) ∧ hd_ID r' = h).
  { intros r h Hr <- Hn. exists r. split; [|done]. apply in_sql_delete. split; [done|]. by rewrite Hn. }
  split; cbn; try done.
  - split; cbn; [by apply unique_delete|by apply unique_delete|intros d [Hd _]%in_sql_delete; auto|].
    intros d [Hd Hn]%in_sql_delete. destruct (R4 d Hd) as (r & Hr & He). by eapply Hkeep.
  - by apply unique_delete.
  - by apply unique_delete.
  - intros b [Hb Hn]%in_sql_delete. destruct (H6 b Hb) as [(r & Hr & He) Hs]. split; [by eapply Hkeep|done].
Qed.
Lemma wf_delete_secret s later id rev : wf_hooks s → wf_hooks (DeleteSecret later id rev s).2.
Proof.
  intros Hw. unfold DeleteSecret. destruct (sql_row _ (h_secrets s)) as [r0|] eqn:Er; [|by destruct (GetSecretByID _ _) as [|[]]]. cbn.
  destruct Hw as [H1 H2 H3 H4 H5 H6 H7 H8]. apply sql_row_Some in Er as [Hr0 Hw0]. apply andb_true_iff in Hw0 as [Hi0 _]. apply String.eqb_eq in Hi0.
  split; cbn; try by apply unique_delete.
  - by destruct H1.
  - done.
  - intros b [Hb Hn]%in_sql_delete. destruct (H6 b Hb) as [Hd (r & Hr & He)]. split; [done|]. exists r. split; [|done]. apply in_sql_delete. split; [done|].
    apply not_true_iff_false. intros Hc. apply andb_true_iff in Hc as [Hc _]. apply String.eqb_eq in Hc.
    assert (r = r0) as -> by (eapply (unique_inj sr_ID); eauto; congruence). apply String.eqb_neq in Hn. congruence.
  - intros r [Hr _]%in_sql_delete. auto.
  - done.
Qed.
Lemma wf_bind s seen hookID secretID ts : wf_hooks s → wf_hooks (BindSecretToHook seen hookID secretID ts s).2.
Proof.
  intros Hw. unfold BindSecretToHook. destruct (_ || _); [done|]. destruct (GetDefinition hookID seen); [|done]. destruct (GetSecretRow secretID seen); [|done].
  unfold commit_tx, sql_bind, sql_read, sql_write. destruct (sql_exists _ (h_bindings s)) eqn:E; [done|].
  destruct (definition_by hookID s) as [hr|] eqn:Eh; [|done]. destruct (secret_by secretID s) as [sr|] eqn:Es; [|done]. cbn.
  apply sql_row_Some in Eh as [Hh Ehe], Es as [Hs Ese]. apply String.eqb_eq in Ehe, Ese. destruct Hw as [H1 H2 H3 H4 H5 H6 H7 H8]. split; cbn; try done.
  - by destruct H1.
  - apply unique_insert; [done|]. intros x Hx Hkey. injection Hkey as E1 E2. pose proof (not_exists_key _ _ x E Hx) as Hk. cbn in E1, E2, Hk. by rewrite E1, E2, !String.eqb_refl in Hk.
  - intros b [Hb| ->%list_elem_of_singleton]%elem_of_app; [auto|]. cbn. split; by eexists.
Qed.

Lemma wf_op op s : wf_hooks s → wf_hooks (exec_hook op s).
Proof.
  intros Hw.
  destruct op; cbn [exec_hook].
  - by apply wf_create_definition.
  - unfold UpdateDefinition. destruct (GetDefinition id seen) as [[cur al]|]; [|done].
    destruct (negb _); [destruct (GetDefinition id _) as [|[]]; cbn|cbn]; by apply wf_update_defs.
  - by apply wf_delete_definition.
  - by apply wf_create_secret.
  - by apply wf_delete_secret.
  - by apply wf_bind.
  - destruct Hw as [H1 H2 H3 H4 H5 H6 H7 H8]. split; cbn; try done; [by destruct H1|by apply unique_delete|]. intros b [Hb _]%in_sql_delete. auto.
  - unfold SetSecretSignatureBudget. destruct (String.eqb _ _); [done|]. destruct (_ <? _); [done|]. by apply wf_update_secrets.
  - unfold ReserveSecretSignature. destruct (secret_by _ _); [|done]. destruct (_ <=? _); [done|]. apply wf_update_secrets; [|done].
    intros r. cbn. split_and!; [done..|lia].
  - unfold SetHookParamsAllowlist. destruct (String.eqb _ _); [done|]. by apply wf_update_defs.
  - eapply wf_evolves; [|exact Hw]. unfold AppendAudit, commit_tx, sql_write. cbn. apply evolves_audit.
  - eapply wf_evolves; [apply EnqueueEvent_evolves|exact Hw].
  - eapply wf_evolves; [apply ClaimDue_evolves|exact Hw].
  - eapply wf_evolves; [apply MarkDelivered_evolves|exact Hw].
  - eapply wf_evolves; [apply MarkFailed_evolves|exact Hw].
  - eapply wf_evolves; [apply RetryDelivery_evolves|exact Hw].
  - eapply wf_evolves; [apply RetryDeliveryAndRecord_evolves|exact Hw].
  - eapply wf_evolves; [apply MarkDecommissioned_evolves|exact Hw].
Qed.

Lemma wf_run ops s : wf_hooks s → wf_hooks (run_hook ops s).
Proof. revert s. induction ops as [|op ops IH]; intros s Hw; [done|]. cbn. by apply IH, wf_op. Qed.

(** ** What became of a delivery *)

(** [d'] is [d] later in its life. *)
Definition lived (d d' : Delivery) : Prop := same_identity d d' ∧ rtc life (d_State d) (d_State d').
Record history (hooks : list string) (s s' : hdb) : Prop := {
  hi_kept d : d ∈ h_deliveries s → d_HookID d ∈ hooks ∨ ∃ d', d' ∈ h_deliveries s' ∧ lived d d';
  hi_from d' : d' ∈ h_deliveries s' → (∃ d, d ∈ h_deliveries s ∧ lived d d') ∨ rtc life DeliveryPending (d_State d');
  hi_loss : ∃ new, h_audit s' = h_audit s ++ new ∧ ∀ d', d' ∈ h_deliveries s' → is_lost (d_State d') →
    (∃ d, d ∈ h_deliveries s ∧ d_ID d = d_ID d' ∧ d_State d = d_State d') ∨ ∃ a, a ∈ new ∧ accounts (d_ID d') a
}.

Lemma lived_trans d1 d2 d3 : lived d1 d2 → lived d2 d3 → lived d1 d3.
Proof. intros [H1 H2] [H3 H4]. split; by etrans. Qed.
Lemma history_same s s' : h_deliveries s' = h_deliveries s → h_audit s' = h_audit s → history [] s s'.
Proof.
  intros Hd Ha. split; rewrite ?Hd; intros.
  - right. exists d. by repeat split.
  - left. exists d'. by repeat split.
  - exists []. rewrite Ha, app_nil_r. split; [done|]. intros d' Hin _. left. by exists d'.
Qed.
Lemma history_evolves s s' : evolves s s' → wf_rows s → history [] s s'.
Proof.
  intros He Hw. destruct (He Hw) as (_ & _ & _ & _ & _ & f & extra & new & E). split.
  - intros d Hd. right. exists (f d). split; [rewrite (ev_rows _ _ _ _ _ E); apply elem_of_app; left; by apply list_elem_of_fmap_2|].
    split; [by apply (ev_identity _ _ _ _ _ E)|by apply (ev_life _ _ _ _ _ E)].
  - intros d' Hd'. rewrite (ev_rows _ _ _ _ _ E) in Hd'. apply elem_of_app in Hd' as [Hd'|Hd']; [left|right; by apply (ev_born _ _ _ _ _ E)].
    apply list_elem_of_fmap in Hd' as (d & -> & Hd). exists d. split; [done|]. split; [by apply (ev_identity _ _ _ _ _ E)|by apply (ev_life _ _ _ _ _ E)].
  - exists new. split; [apply (ev_audit _ _ _ _ _ E)|]. intros d' Hd' Hl. rewrite (ev_rows _ _ _ _ _ E) in Hd'. apply elem_of_app in Hd' as [Hd'|Hd'].
    + apply list_elem_of_fmap in Hd' as (d & -> & Hd). destruct (ev_identity _ _ _ _ _ E d Hd) as (Hid & _).
      destruct (ev_loss _ _ _ _ _ E d Hd Hl) as [He2|Ha]; [left; by exists d|right]. by rewrite Hid.
    + right. by apply (ev_born _ _ _ _ _ E).
Qed.
Lemma history_trans hooks1 hooks2 s1 s2 s3 : history hooks1 s1 s2 → history hooks2 s2 s3 → history (hooks1 ++ hooks2) s1 s3.
Proof.
  intros [K1 F1 (n1 & A1 & L1)] [K2 F2 (n2 & A2 & L2)]. split.
  - intros d Hd. destruct (K1 d Hd) as [?|(d2 & Hd2 & Hl)]; [left; apply elem_of_app; by left|]. destruct (K2 d2 Hd2) as [Hh|(d3 & Hd3 & Hl3)].
    + left. destruct Hl as [(_ & He & _) _]. apply elem_of_app. right. by rewrite <- He.
    + right. exists d3. split; [done|by eapply lived_trans].
  - intros d3 Hd3. destruct (F2 d3 Hd3) as [(d2 & Hd2 & Hl)|?]; [|by right]. destruct (F1 d2 Hd2) as [(d & Hd & Hl1)|Hb].
    + left. exists d. split; [done|by eapply lived_trans].
    + right. etrans; [exact Hb|]. apply Hl.
  - exists (n1 ++ n2). split; [by rewrite A2, A1, app_assoc|]. intros d3 Hd3 Hlost. destruct (L2 d3 Hd3 Hlost) as [(d2 & Hd2 & Hi & Hs)|(a & Ha & Hn)]; [|right; exists a; split; [apply elem_of_app; by right|done]].
    rewrite <- Hs in Hlost. destruct (L1 d2 Hd2 Hlost) as [(d & Hd & Hi1 & Hs1)|(a & Ha & Hn)]; [left; exists d; split_and!; [done|congruence|congruence]|].
    right. exists a. rewrite <- Hi. split; [apply elem_of_app; by left|done].
Qed.
Lemma history_delete later id rev s : history [id] s (DeleteDefinition later id rev s).2.
Proof.
  assert (Hr : history [id] s s) by (destruct (history_same s s eq_refl eq_refl) as [H1 H2 H3]; split; [intros d Hd; right; destruct (H1 d Hd) as [[]%not_elem_of_nil|]; done|done|done]).
  unfold DeleteDefinition. destruct (negb _); [by destruct (GetDefinition _ _) as [|[]]|]. cbn. split; cbn.
  - intros d Hd. destruct (String.eqb_spec (d_HookID d) id); [left; by apply list_elem_of_singleton|]. right. exists d. split; [|by split].
    apply in_sql_delete. split; [done|]. by apply String.eqb_neq.
  - intros d [Hd _]%in_sql_delete. left. exists d. split; [done|by split].
  - exists []. rewrite app_nil_r. split; [done|]. intros d [Hd _]%in_sql_delete _. left. by exists d.
Qed.

(** The hooks an execution deletes. *)
Definition deleted_hooks (ops : list hook_op) : list string :=
  ops ≫= λ op, match op with ODeleteDefinition _ id _ => [id] | _ => [] end.

Lemma history_op op s : wf_rows s → history (deleted_hooks [op]) s (exec_hook op s).
Proof.
  intros Hw. destruct op; cbn [exec_hook deleted_hooks mbind list_bind]; rewrite ?app_nil_r.
  - unfold CreateDefinition. destruct rid; [|(apply history_same; reflexivity)]. unfold commit_tx, sql_bind, sql_read, sql_write. destruct (sql_exists _ _); (apply history_same; reflexivity).
  - unfold UpdateDefinition. destruct (GetDefinition id seen) as [[]|]; [|(apply history_same; reflexivity)]. destruct (negb _); [destruct (GetDefinition id _) as [|[]]|]; (apply history_same; reflexivity).
  - apply history_delete.
  - unfold CreateSecret. destruct rid; [|(apply history_same; reflexivity)]. unfold commit_tx, sql_bind, sql_read, sql_write. destruct (sql_exists _ _); (apply history_same; reflexivity).
  - unfold DeleteSecret. destruct (sql_row _ _); [(apply history_same; reflexivity)|]. destruct (GetSecretByID _ _) as [|[]]; (apply history_same; reflexivity).
  - unfold BindSecretToHook. destruct (_ || _); [(apply history_same; reflexivity)|]. destruct (GetDefinition _ seen); [|(apply history_same; reflexivity)]. destruct (GetSecretRow _ seen); [|(apply history_same; reflexivity)].
    unfold commit_tx, sql_bind, sql_read, sql_write. destruct (sql_exists _ _); [(apply history_same; reflexivity)|]. destruct (definition_by hookID s), (secret_by secretID s); (apply history_same; reflexivity).
  - (apply history_same; reflexivity).
  - unfold SetSecretSignatureBudget. destruct (String.eqb _ _); [(apply history_same; reflexivity)|]. destruct (_ <? _); (apply history_same; reflexivity).
  - unfold ReserveSecretSignature. destruct (secret_by _ _); [|(apply history_same; reflexivity)]. destruct (_ <=? _); (apply history_same; reflexivity).
  - unfold SetHookParamsAllowlist. destruct (String.eqb _ _); (apply history_same; reflexivity).
  - apply history_evolves; [|done]. unfold AppendAudit, commit_tx, sql_write. cbn. apply evolves_audit.
  - apply history_evolves; [apply EnqueueEvent_evolves|done].
  - apply history_evolves; [apply ClaimDue_evolves|done].
  - apply history_evolves; [apply MarkDelivered_evolves|done].
  - apply history_evolves; [apply MarkFailed_evolves|done].
  - apply history_evolves; [apply RetryDelivery_evolves|done].
  - apply history_evolves; [apply RetryDeliveryAndRecord_evolves|done].
  - apply history_evolves; [apply MarkDecommissioned_evolves|done].
Qed.
Lemma history_run ops s : wf_hooks s → history (deleted_hooks ops) s (run_hook ops s).
Proof.
  revert s. induction ops as [|op ops IH]; intros s Hw; [(apply history_same; reflexivity)|]. change (op :: ops) with ([op] ++ ops). unfold deleted_hooks. rewrite bind_app.
  eapply history_trans; [apply history_op; by destruct Hw|]. apply IH. by apply wf_op.
Qed.
End Run.
