(* ===== verification/HookBroker.v ===== *)
(** * The signing broker, the delivery preparer and the dispatcher

    [src/internal/hook/broker.go], [secrets.go], [preparer.go] and [dispatcher.go].  The
    broker's reads are not one transaction: the [i]-th read of a call sees the database
    [view i], and only the last one, the reservation, writes. *)

From Stdlib Require Import ZArith Lia Strings.Byte.
From stdpp Require Import base tactics list sets strings option gmap.
From S2P Require Import Prelude GoStd Frame Float64 HookText HookNet ScriptEval Sql HookStore.

Open Scope string_scope.
Open Scope list_scope.
Open Scope Z_scope.

(** ** Interfaces: [net/url], [crypto/hmac], AES-GCM, the strict JSON of the envelopes *)

Record Url : Type := mkUrl {
  u_Scheme : string; u_User : bool; u_Hostname : string; u_Port : string; u_Path : string; u_RawQuery : string; u_ForceQuery : bool;
  u_Fragment : string; u_RawFragment : string
}.
Inductive Digest : Type := SHA1 | SHA256.
Class HookLib := {
  url_parse : string → option Url;
  (** [url.URL{Scheme, Host, Path, RawQuery}.String()]. *)
  url_string : string → bytes → string → string → string;
  hmac : Digest → bytes → bytes → bytes;
  aead_seal : bytes → bytes → bytes → bytes;
  aead_open : bytes → bytes → bytes → option bytes;
  decode_object : bytes → option (list (string * any));
  encode_object : list (string * any) → bytes;
  decode_params : bytes → option (string * string * gmap string string);
  trim_space : string → string;
  (** [strings.Map] with the function that drops control characters but the tab. *)
  drop_control : bytes → bytes
}.

(** ** The secret keystore ([secrets.go]) *)

Definition secretKeyMagic : bytes := bytes_of "ANHK".
Record SecretKeystore : Type := mkKeystore { ks_KeyID : string; ks_Key : bytes }.
Definition SecretNonceSize : nat := 12.

Definition key_file (keyID : string) (key : bytes) : bytes :=
  secretKeyMagic ++ [u8 1] ++ [u8 (Z.of_nat (String.length keyID))] ++ bytes_of keyID ++ key.
Definition parseSecretKeyFile (raw : bytes) : option (string * bytes) :=
  if (length raw <? 4 + 2 + 8 + 32)%nat then None
  else if negb (bytes_eqb (take 4 raw) secretKeyMagic) then None
  else if negb (b2z (nth 4 raw Byte.x00) =? 1) then None
  else
    let idLen := Z.to_nat (b2z (nth 5 raw Byte.x00)) in
    if negb (length raw =? 4 + 2 + idLen + 32)%nat || (idLen <=? 0)%nat then None
    else Some (string_of (slice raw 6 (6 + idLen)), drop (6 + idLen) raw).
Definition newSecretKeystore (keyID : string) (key : bytes) : option SecretKeystore :=
  if (length key =? 32)%nat then Some (mkKeystore keyID key) else None.

Section Broker.
Context {lib : HookLib} {json : HookJson} {unicode : UnicodeCase} {crypto : Crypto}.

Definition Encrypt (k : SecretKeystore) (nonce : option bytes) (plaintext : bytes) : result HookError (bytes * string) :=
  match nonce with
  | None => Err HRandom
  | Some nonce => Ok (nonce ++ aead_seal (ks_Key k) nonce plaintext, ks_KeyID k)
  end.
Definition Decrypt (k : SecretKeystore) (keyID : string) (blob : bytes) : result HookError bytes :=
  if negb (String.eqb (ks_KeyID k) keyID) then Err HKeyMismatch
  else if (length blob <? SecretNonceSize)%nat then Err HDecrypt
  else match aead_open (ks_Key k) (take SecretNonceSize blob) (drop SecretNonceSize blob) with
       | Some plain => Ok plain
       | None => Err HDecrypt
       end.

(** ** Intents *)

Record SignIntent : Type := mkIntent {
  si_HookID : string; si_SecretID : string; si_Algorithm : string; si_Method : string; si_Scheme : string; si_Host : string; si_Port : Z;
  si_Path : string; si_Query : gmap string string; si_Body : bytes; si_Placement : string; si_MaxCalls : Z
}.
Record Capability : Type := mkCapability {
  cp_HookID : string; cp_SecretID : string; cp_Algorithm : string; cp_Method : string; cp_Scheme : string; cp_Host : string; cp_Port : Z;
  cp_Path : string; cp_QueryHash : string; cp_MaxCalls : Z; cp_calls : Z
}.
Record SignedRequest : Type := mkRequest { sq_Method : string; sq_URL : string; sq_Headers : gmap string (list string); sq_Body : bytes }.

Definition AlgorithmHMACSHA1 : string := "HMAC-SHA1".
Definition AlgorithmHMACSHA256 : string := "HMAC-SHA256".
Definition SignaturePlacementHeader : string := "header".
Definition SignaturePlacementQuery : string := "query".
Definition maxCapabilityCalls : Z := 8.
Definition ValidateAlgorithm (s : string) : bool := String.eqb s AlgorithmHMACSHA1 || String.eqb s AlgorithmHMACSHA256.

Definition methods : list string := ["GET"; "POST"; "PUT"; "PATCH"; "DELETE"; "HEAD"].
Definition validateIntent (i : SignIntent) : result HookError unit :=
  let host := bytes_of (si_Host i) in
  fail_if negb (existsb (String.eqb (string_of (to_upper (bytes_of (si_Method i))))) methods) with HIntent "unsupported method" ;;
  fail_if String.eqb (si_Scheme i) "http" with HIntent "http signing intent is rejected (https required)" ;;
  fail_if negb (String.eqb (si_Scheme i) "https") with HIntent "unsupported scheme" ;;
  fail_if String.eqb (si_Host i) "" with HIntent "host is required" ;;
  let* _ :=
    match canonicalIPLiteral host with
    | Some lit => if addressBlocked lit then Err (HHost ErrBlockedAddress) else Ok tt
    | None => if ambiguousIPLiteral host then Err (HHost ErrAmbiguousLiteral) else map_err HHost (hostnameIssues host)
    end in
  fail_if (si_Port i <? 1) || (65535 <? si_Port i) with HIntent "invalid port" ;;
  fail_if negb (String.prefix "/" (si_Path i)) || existsb (λ c, Byte.eqb c (u8 13) || Byte.eqb c (u8 10)) (bytes_of (si_Path i)) with HIntent "invalid path" ;;
  fail_if String.eqb (si_SecretID i) "" || String.eqb (si_HookID i) "" with HIntent "hook and secret ids are required" ;;
  fail_if negb (ValidateAlgorithm (si_Algorithm i)) with HIntent "unsupported algorithm" ;;
  fail_if negb (String.eqb (si_Placement i) SignaturePlacementQuery) && negb (String.eqb (si_Placement i) SignaturePlacementHeader) with HIntent "invalid signature placement" ;;
  fail_if maxCapabilityCalls <? si_MaxCalls i with HIntent "requested signing calls exceed the bound" ;;
  Ok tt.

(** ** Endpoints *)

Record endpoint : Type := mkEndpoint { ep_method : string; ep_scheme : string; ep_host : string; ep_port : Z; ep_path : string }.
(** [fmt.Sscanf(p, "%d", &port)]: an optional sign and the leading digits. *)
Fixpoint leading_digits (s : bytes) : bytes := match s with c :: s' => if in_range 48 57 c then c :: leading_digits s' else [] | [] => [] end.
Definition scan_int (s : bytes) : option Z :=
  match s with
  | c :: s' => if Byte.eqb c minus_sign || Byte.eqb c plus_sign then Atoi (c :: leading_digits s') else Atoi (leading_digits s)
  | [] => None
  end.
Definition portOf (u : Url) : Z :=
  let fallback := if String.eqb (u_Scheme u) "http" then 80 else 443 in
  if String.eqb (u_Port u) "" then fallback else default fallback (scan_int (bytes_of (u_Port u))).
Definition pathOf (u : Url) : string := if String.eqb (u_Path u) "" then "/" else u_Path u.
Definition endpointFromURL (u : Url) : endpoint := mkEndpoint "POST" (u_Scheme u) (u_Hostname u) (portOf u) (pathOf u).
Definition rejectURLQueryFragment (u : Url) : result HookError unit :=
  fail_if negb (String.eqb (u_RawQuery u) "") || u_ForceQuery u with HQueryFragment ;;
  fail_if negb (String.eqb (u_Fragment u) "") || negb (String.eqb (u_RawFragment u) "") with HQueryFragment ;;
  Ok tt.
Definition validateIntentEndpoint (i : SignIntent) (ep : endpoint) : result HookError unit :=
  fail_if negb (EqualFold (si_Method i) (ep_method ep)) with HEndpointDeviation ;;
  fail_if negb (String.eqb (si_Scheme i) (ep_scheme ep)) || negb (EqualFold (si_Host i) (ep_host ep)) || negb (si_Port i =? ep_port ep)
    || negb (String.eqb (si_Path i) (ep_path ep)) with HEndpointDeviation ;;
  Ok tt.
(** The endpoint of the stored definition. *)
Definition derived_endpoint (hookID : string) (s : hdb) : result HookError endpoint :=
  let* (def, _) := GetDefinition hookID s in
  match url_parse (hd_URL def) with
  | None => Err HURL
  | Some u => let* _ := rejectURLQueryFragment u in Ok (endpointFromURL u)
  end.

(** ** Signing *)

Definition digest (algorithm : string) : Digest := if String.eqb algorithm AlgorithmHMACSHA1 then SHA1 else SHA256.
Definition signBytes (algorithm : string) (secret msg : bytes) : bytes := hmac (digest algorithm) (secret ++ [ampersand]) msg.
Definition signHeaderValue (algorithm : string) (secret body : bytes) : string :=
  let name := if String.prefix "HMAC-" algorithm then String.substring 5 (String.length algorithm - 5) algorithm else algorithm in
  string_of (to_lower (bytes_of name) ++ equals :: bytes_of (hex_of (hmac (digest algorithm) secret body))).
Definition buildURL (i : SignIntent) (signature : string) : string :=
  let host := joinHostPort (bytes_of (si_Host i)) (si_Port i) in
  if String.eqb signature "" then url_string (si_Scheme i) host (si_Path i) ""
  else url_string (si_Scheme i) host (si_Path i) (CanonicalQuery (<["Signature" := signature]> (si_Query i))).

Definition check_allowlist (i : SignIntent) (s : hdb) : result HookError unit :=
  if negb (String.eqb (si_Placement i) SignaturePlacementQuery) then Ok tt
  else
    let* allowed := GetHookParamsAllowlist (si_HookID i) s in
    fail_if (length allowed =? 0)%nat with HNoAllowlist ;;
    fail_if negb (forallb (λ kv, existsb (String.eqb kv.1) allowed) (map_to_list (si_Query i))) with HParamNotAllowlisted ;;
    Ok tt.

(** The checks before the reservation, and the secret they decrypt. *)
Definition sign_checks (k : SecretKeystore) (view : nat → hdb) (i : SignIntent) : result HookError bytes :=
  let* _ := validateIntent i in
  let* ep := derived_endpoint (si_HookID i) (view 0%nat) in
  let* _ := validateIntentEndpoint i ep in
  fail_if negb (IsSecretBoundToHook (si_HookID i) (si_SecretID i) (view 1%nat)) with HSecretNotBound ;;
  let* row := GetSecretRow (si_SecretID i) (view 2%nat) in
  fail_if negb (EqualFold (sr_Algorithm row) (si_Algorithm i)) with HAlgorithm ;;
  let* secret := Decrypt k (sr_KeyID row) (sr_Ciphertext row) in
  let* _ := check_allowlist i (view 3%nat) in
  Ok secret.

(** What a signature makes of an intent. *)
Definition sign_request (i : SignIntent) (secret : bytes) : SignedRequest * Capability :=
  let canonical := CanonicalQuery (si_Query i) in
  let encoded := base64 (signBytes (si_Algorithm i) secret (bytes_of (StringToSign (si_Method i) (si_Path i) canonical))) in
  let maxCalls := if si_MaxCalls i <=? 0 then 1 else si_MaxCalls i in
  (if String.eqb (si_Placement i) SignaturePlacementQuery then mkRequest (si_Method i) (buildURL i encoded) ∅ (si_Body i)
   else mkRequest (si_Method i) (buildURL i "") {["X-Hook-Signature" := [signHeaderValue (si_Algorithm i) secret (si_Body i)]]} (si_Body i),
   mkCapability (si_HookID i) (si_SecretID i) (si_Algorithm i) (si_Method i) (si_Scheme i) (si_Host i) (si_Port i) (si_Path i)
     (hex_of (sha256 (bytes_of canonical))) maxCalls 0).

Definition Sign (k : SecretKeystore) (view : nat → hdb) (i : SignIntent) (ts : Z) : hop (SignedRequest * Capability) := λ s,
  match sign_checks k view i with
  | Err e => (Err e, s)
  | Ok secret =>
      match ReserveSecretSignature (view 4%nat) (si_SecretID i) ts s with
      | (Err e, s) => (Err e, s)
      | (Ok _, s) => (Ok (sign_request i secret), s)
      end
  end.

Definition VerifyContribution (i : SignIntent) (contribution : bytes) : result HookError unit :=
  match decode_params contribution with
  | None => Err HSchema
  | Some (canonicalQuery, stringToSign, _) =>
      let canonical := CanonicalQuery (si_Query i) in
      fail_if negb (String.eqb canonicalQuery canonical) with HContributionMismatch ;;
      fail_if negb (String.eqb stringToSign (StringToSign (si_Method i) (si_Path i) canonical)) with HContributionMismatch ;;
      Ok tt
  end.

Definition CanSign (c : Capability) : bool * Capability :=
  let max := if cp_MaxCalls c <=? 0 then 1 else cp_MaxCalls c in
  (cp_calls c + 1 <=? max,
   mkCapability (cp_HookID c) (cp_SecretID c) (cp_Algorithm c) (cp_Method c) (cp_Scheme c) (cp_Host c) (cp_Port c) (cp_Path c) (cp_QueryHash c)
     (cp_MaxCalls c) (cp_calls c + 1)).

(** ** Preparing a delivery ([preparer.go]) *)

(** [decoded[key] = value]. *)
Fixpoint set_any (k : string) (v : any) (m : list (string * any)) : list (string * any) :=
  match m with [] => [(k, v)] | (k', w) :: m' => if String.eqb k' k then (k, v) :: m' else (k', w) :: set_any k v m' end.
Definition buildRunnerRequest (payload : bytes) (ep : endpoint) : result HookError bytes :=
  let* decoded := match payload with [] => Ok [] | _ => of_option HSchema (decode_object payload) end in
  Ok (encode_object (set_any "path" (AnyString (ep_path ep)) (set_any "method" (AnyString (ep_method ep)) decoded))).

(** The strict decoding of the runner's envelope: its verdict, its contribution and its error. *)
Record envelope : Type := mkEnvelope { en_OK : bool; en_Contribution : bytes; en_Err : option string }.
Definition mergeHeaders (q : SignedRequest) (d : Delivery) : SignedRequest :=
  mkRequest (sq_Method q) (sq_URL q) (<["X-Delivery-Id" := [d_ID d]]> (<["X-Event-Id" := [d_EventID d]]> (sq_Headers q))) (sq_Body q).

(** The intent of a delivery for an endpoint. *)
Definition delivery_intent (d : Delivery) (algorithm : string) (ep : endpoint) (query : gmap string string) (placement : string) : SignIntent :=
  mkIntent (d_HookID d) (d_SecretID d) algorithm (ep_method ep) (ep_scheme ep) (ep_host ep) (ep_port ep) (ep_path ep) query
    (bytes_of (d_PayloadJSON d)) placement 1.
(** [broker.Sign] with the view of the reads after the preparer's own two, and [CanSign]. *)
Definition sign_delivery (k : SecretKeystore) (view : nat → hdb) (d : Delivery) (i : SignIntent) (ts : Z) : hop SignedRequest := λ s,
  match Sign k (λ n, view (2 + n)%nat) i ts s with
  | (Err e, s) => (Err e, s)
  | (Ok (req, capability), s) => if (CanSign capability).1 then (Ok (mergeHeaders req d), s) else (Err HCapabilityExhausted, s)
  end.

Definition Prepare (k : SecretKeystore) (runner : option (bytes → bytes → result HookError envelope)) (view : nat → hdb) (d : Delivery) (ts : Z) : hop SignedRequest := λ s,
  match derived_endpoint (d_HookID d) (view 0%nat), GetDefinition (d_HookID d) (view 0%nat) with
  | Ok ep, Ok (def, _) =>
      if String.eqb (d_SecretID d) "" && String.eqb (d_ScriptB64 d) "" then
        (Ok (mergeHeaders (mkRequest (ep_method ep) (hd_URL def) {["Content-Type" := ["application/json"]]} (bytes_of (d_PayloadJSON d))) d), s)
      else
        match GetSecretRow (d_SecretID d) (view 1%nat) with
        | Err e => (Err e, s)
        | Ok row =>
            if String.eqb (d_ScriptB64 d) "" then
              sign_delivery k view d (delivery_intent d (sr_Algorithm row) ep ∅ SignaturePlacementHeader) ts s
            else
              match unbase64 (d_ScriptB64 d), runner with
              | None, _ => (Err HScript, s)
              | Some _, None => (Err HRunnerUnsupported, s)
              | Some script, Some run =>
                  match (let* request := buildRunnerRequest (bytes_of (d_PayloadJSON d)) ep in
                         let* env := run script request in
                         fail_if negb (en_OK env) with HRunner (default "" (en_Err env)) ;;
                         let* (_, _, params) := of_option HSchema (decode_params (en_Contribution env)) in
                         fail_if (size params =? 0)%nat with HContributionMismatch ;;
                         let i := delivery_intent d (sr_Algorithm row) ep params SignaturePlacementQuery in
                         let* _ := VerifyContribution i (en_Contribution env) in
                         Ok i) with
                  | Err e => (Err e, s)
                  | Ok i => sign_delivery k view d i ts s
                  end
              end
        end
  | Err e, _ | _, Err e => (Err e, s)
  end.
End Broker.

(** ** The dispatcher ([dispatcher.go]) *)

(** [scrubError]: at most 256 bytes, without control characters. *)
Definition scrubError {lib : HookLib} (s : string) : string := string_of (drop_control (take 256 (bytes_of s))).

Section Dispatcher.
Context {lib : HookLib} {json : HookJson} {disk : HookDisk}.
(** The preparer, the sender ([None]: no response) and the text of an error; what other
    writers do between the statements is [other]. *)
Context (prepare : Delivery → Z → hop SignedRequest) (send : SignedRequest → result string (option Z)) (error_text : HookError → string)
        (jitter : Z → Z) (other : hdb → hdb).

Definition deliver (ts : Z) (d : Delivery) : hdb → hdb := λ s,
  let fail msg s := (MarkFailed s jitter (d_ID d) msg ts (other s)).2 in
  match prepare d ts s with
  | (Err e, s) => fail (scrubError (error_text e)) (other s)
  | (Ok req, s) =>
      let s := other s in
      match send req with
      | Err msg => fail (scrubError msg) s
      | Ok None => fail "webhook sender returned no response" s
      | Ok (Some code) =>
          if (code <? 200) || (300 <=? code) then fail ("webhook responded status=" +:+ string_of (Itoa code)) s
          else (MarkDelivered other (d_ID d) ts s).2
      end
  end.
Definition pumpOnce (batch ts : Z) : hdb → nat * hdb := λ s,
  match ClaimDue other batch ts s with
  | (Err _, s) => (0%nat, s)
  | (Ok claimed, s) => (length claimed, fold_left (λ s d, deliver ts d (other s)) claimed s)
  end.
End Dispatcher.

(** * The hook service ([src/internal/hook/service.go])

    The validation in front of the store: what an administrator can make of a hook. *)

Section Service.
Context {lib : HookLib} {json : HookJson}.

Definition KindWebhook : string := "webhook".
Definition validateHookName (name : string) : result HookError unit :=
  let name := trim_space name in
  fail_if String.eqb name "" || (128 <? String.length name)%nat with HInvalid ;; Ok tt.
(** [u.Host] is empty exactly when the host name and the port are. *)
Definition validateHookURL (raw : string) : result HookError unit :=
  match url_parse (trim_space raw) with
  | None => Err HInvalid
  | Some u =>
      let host := bytes_of (u_Hostname u) in
      fail_if negb (String.eqb (u_Scheme u) "https") with HInvalid ;;
      fail_if u_User u with HInvalid ;;
      fail_if String.eqb (u_Hostname u) "" && String.eqb (u_Port u) "" with HInvalid ;;
      fail_if contains_byte percent host with HInvalid ;;
      fail_if Byte.eqb (List.last host Byte.x00) dot with HInvalid ;;
      rejectURLQueryFragment u
  end.

Definition Service_CreateDefinition (later : hdb → hdb) (rid : option string) (name kind rawURL : string) (ts : Z) : hop (DefinitionRow * list string) := λ s,
  match validateHookName name with
  | Err e => (Err e, s)
  | Ok _ =>
      if negb (String.eqb kind KindWebhook) then (Err HInvalid, s)
      else match validateHookURL rawURL with
           | Err e => (Err e, s)
           | Ok _ => CreateDefinition later rid (trim_space name) kind (trim_space rawURL) ts s
           end
  end.
(** A field of the patch, checked and trimmed. *)
Definition patch_field (check : string → result HookError unit) (field : option string) : result HookError (option string) :=
  match field with None => Ok None | Some v => let* _ := check v in Ok (Some (trim_space v)) end.
Definition Service_UpdateDefinition (seen : hdb) (later : hdb → hdb) (id : string) (name url : option string) (rev ts : Z) : hop (DefinitionRow * list string) := λ s,
  match patch_field validateHookName name with
  | Err e => (Err e, s)
  | Ok name =>
      match patch_field validateHookURL url with
      | Err e => (Err e, s)
      | Ok url => UpdateDefinition seen later id name url rev ts s
      end
  end.
Definition Service_CreateSecret (k : SecretKeystore) (later : hdb → hdb) (rid : option string) (nonce : option bytes) (secretID algorithm value : string) (ts : Z) : hop SecretRow := λ s,
  let secretID := trim_space secretID in
  if String.eqb secretID "" || (128 <? String.length secretID)%nat || String.eqb value "" || negb (ValidateAlgorithm (trim_space algorithm)) then (Err HInvalid, s)
  else match Encrypt k nonce (bytes_of value) with
       | Err e => (Err e, s)
       | Ok (blob, keyID) => CreateSecret later rid secretID (trim_space algorithm) blob keyID ts s
       end.

(** ** Only deliverable hooks *)

(** A definition that a delivery can be signed for: its URL parses, is https, and has neither
    user, query nor fragment. *)
Definition deliverable (r : DefinitionRow) : Prop :=
  ∃ u, url_parse (hd_URL r) = Some u ∧ u_Scheme u = "https" ∧ u_User u = false ∧ rejectURLQueryFragment u = Ok tt.
Definition all_deliverable (s : hdb) : Prop := ∀ r, r ∈ h_defs s → deliverable r.

Lemma valid_url_parses raw : validateHookURL raw = Ok tt →
  ∃ u, url_parse (trim_space raw) = Some u ∧ u_Scheme u = "https" ∧ u_User u = false ∧ rejectURLQueryFragment u = Ok tt.
Proof.
  unfold validateHookURL. destruct (url_parse (trim_space raw)) as [u|]; [|done]. intros H. exists u. split; [done|].
  destruct (String.eqb_spec (u_Scheme u) "https"); [|done]. destruct (u_User u); [done|]. destruct (_ && _); [done|]. destruct (contains_byte _ _); [done|].
  destruct (Byte.eqb _ _); [done|]. done.
Qed.

(** Every hook made or changed through the service can be delivered to.  If every stored
    definition has an https URL without user, query and fragment, so it stays under creations
    and updates, whatever is refused, and the endpoint that the broker derives for a stored
    hook with a readable allowlist exists and is https. *)
Theorem service_hooks_deliverable (seen s : hdb) (later : hdb → hdb) (rid : option string) (name kind rawURL id : string) (newName newURL : option string) (rev ts : Z) :
  all_deliverable seen → all_deliverable s →
  all_deliverable (Service_CreateDefinition later rid name kind rawURL ts s).2 ∧
  all_deliverable (Service_UpdateDefinition seen later id newName newURL rev ts s).2 ∧
  ∀ def allow, GetDefinition id s = Ok (def, allow) → ∃ ep, derived_endpoint id s = Ok ep ∧ ep_scheme ep = "https" ∧ ep_method ep = "POST".
Proof.
  intros Hseen Hs. split_and!.
  - unfold Service_CreateDefinition. destruct (validateHookName name); [|done]. destruct (negb _); [done|]. destruct (validateHookURL rawURL) as [[]|] eqn:Eu; [|done].
    apply valid_url_parses in Eu. unfold CreateDefinition. destruct rid as [i|]; [|done]. unfold commit_tx, sql_bind, sql_read, sql_write. destruct (sql_exists _ _); [done|]. cbn.
    intros r [Hr| ->%list_elem_of_singleton]%elem_of_app; [by apply Hs|exact Eu].
  - unfold Service_UpdateDefinition. destruct (patch_field validateHookName newName) as [nm|]; [|done]. destruct (patch_field validateHookURL newURL) as [ur|] eqn:Ep; [|done].
    unfold UpdateDefinition. destruct (GetDefinition id seen) as [[cur al]|] eqn:Eg; [|done].
    assert (Hnew : ∀ r, hd_URL r = default (hd_URL cur) ur → deliverable r).
    { intros r Hr. unfold deliverable. rewrite Hr. unfold patch_field in Ep. destruct newURL as [v|].
      - destruct (validateHookURL v) as [[]|] eqn:Ev; [|done]. injection Ep as <-. by apply valid_url_parses.
      - injection Ep as <-. apply (Hseen cur). unfold GetDefinition in Eg. destruct (definition_by id seen) as [r0|] eqn:Ed; [|done].
        destruct (unmarshal_params _); [|done]. injection Eg as -> _. by apply sql_row_Some in Ed as [? _]. }
    assert (Hall : all_deliverable (set_defs (sql_update (λ r, String.eqb (hd_ID r) id && (hd_Revision r =? rev))
        (λ r, mkDefinition (hd_ID r) (default (hd_Name cur) nm) (hd_Kind r) (default (hd_URL cur) ur) (hd_Allow r) (hd_Revision r + 1) (hd_CreatedAt r) ts) (h_defs s)) s)).
    { intros r Hr. cbn in Hr. apply in_sql_update in Hr as (r0 & Hr & ->). destruct (_ && _); [by apply Hnew|by apply Hs]. }
    destruct (negb _); [|exact Hall]. destruct (GetDefinition id (later _)) as [|[]]; exact Hall.
  - intros def allow Hg. unfold derived_endpoint. rewrite Hg. unfold GetDefinition in Hg. destruct (definition_by id s) as [r0|] eqn:Ed; [|done].
    destruct (unmarshal_params _); [|done]. injection Hg as -> _. apply sql_row_Some in Ed as [Hr _]. destruct (Hs def Hr) as (u & -> & Hsc & _ & ->).
    eexists. split; [done|]. by split.
Qed.
End Service.
