(* ===== verification/HookProps.v ===== *)
(** * What the hook store promises *)

From Stdlib Require Import ZArith Lia Strings.Byte.
From stdpp Require Import base tactics list sets strings option relations sorting gmap.
From S2P Require Import Prelude GoStd HookText Sql HookStore HookProofs HookRun.

Open Scope string_scope.
Open Scope list_scope.
Open Scope Z_scope.

Section Props.
Context {json : HookJson} {disk : HookDisk}.

(** C39: the tables of the hook store stay well formed under every sequence of its operations,
    whatever each saw outside its transaction and whichever writes of the queue fail:
    definitions are unique by id, secrets by row id and by secret id, bindings by hook and
    secret, deliveries by id and by hook and event, operation rows by id; every delivery has a
    state of the life cycle and an existing hook, every binding an existing hook and secret,
    and no issue counter is negative. *)
Theorem hook_tables_well_formed (ops : list hook_op) (s : hdb) : wf_hooks s → wf_hooks (run_hook ops s).
Proof. apply wf_run. Qed.

Lemma life_not_final s s' : life s s' → ¬ is_final s.
Proof. intros [x [-> | ->]| | | | |x [-> | ->]|x [-> |[-> | ->]]] [He|He]; discriminate He. Qed.
Lemma life_final s s' : rtc life s s' → is_final s → s' = s.
Proof. intros H Hf. destruct H as [|x y z Hl _]; [done|]. by apply life_not_final in Hl. Qed.

(** C10: every execution, whichever writes fail, moves each delivery only along its life cycle.
    A delivery whose hook is not deleted is still there, under its id, with the hook, event,
    kind, node, policy and attempt bound it was queued with, in a state its automaton reaches;
    delivered and decommissioned deliveries stay as they are; and what is there later was there
    before or was queued as pending. *)
Theorem delivery_life_refinement (ops : list hook_op) (s : hdb) : wf_hooks s →
  let s' := run_hook ops s in
  (∀ d, d ∈ h_deliveries s → d_HookID d ∉ deleted_hooks ops →
     (∃ d', d' ∈ h_deliveries s' ∧ d_ID d' = d_ID d) ∧
     (∀ d', d' ∈ h_deliveries s' → d_ID d' = d_ID d →
        same_identity d d' ∧ rtc life (d_State d) (d_State d') ∧ (is_final (d_State d) → d_State d' = d_State d))) ∧
  (∀ d', d' ∈ h_deliveries s' → (∃ d, d ∈ h_deliveries s ∧ same_identity d d' ∧ rtc life (d_State d) (d_State d')) ∨ rtc life DeliveryPending (d_State d')).
Proof.
  intros Hw s'. destruct (history_run ops s Hw) as [K F _]. pose proof (wf_run ops s Hw) as Hw'. split; [|exact F].
  intros d Hd Hn. destruct (K d Hd) as [?|(d1 & Hd1 & Hl)]; [done|]. pose proof Hl as [(Hid & _) _]. split; [by exists d1|].
  intros d' Hd' He. assert (d' = d1) as -> by (eapply (unique_inj d_ID); [apply Hw'|exact Hd'|exact Hd1|congruence]).
  destruct Hl as [Hi Hr]. split_and!; [done|done|]. by apply life_final.
Qed.

(** From [s] to [s'] the audit log only grew, and every delivery that is dead-lettered or
    dropped in [s'], and was not so in [s], is named by a row it grew by. *)
Definition lost_aloud (s s' : hdb) : Prop :=
  ∃ new, h_audit s' = h_audit s ++ new ∧
    ∀ d', d' ∈ h_deliveries s' → d_State d' = DeliveryDLQed ∨ d_State d' = DeliveryDroppedDecommission →
      (∃ d, d ∈ h_deliveries s ∧ d_ID d = d_ID d' ∧ d_State d = d_State d') ∨
      ∃ a l, a ∈ new ∧ au_Payload a = AFields l ∧ ("delivery_id", d_ID d') ∈ l ∧
        (au_Type a = "HOOK_DELIVERY_DLQED" ∨ au_Type a = "HOOK_DELIVERY_DROPPED_DUE_TO_DECOMMISSION").
Lemma history_aloud hooks s s' : history hooks s s' → lost_aloud s s'.
Proof.
  intros [_ _ (new & Ha & Hl)]. exists new. split; [done|]. intros d' Hd' Hs.
  destruct (Hl d' Hd' Hs) as [?|(a & Hin & Hk & Hn)]; [by left|right]. unfold names_delivery in Hn. destruct (au_Payload a) as [|l] eqn:E; [done|].
  exists a, l. split_and!; try done. unfold loss_kinds in Hk. apply elem_of_cons in Hk as [?|Hk]; [by left|]. right. by apply list_elem_of_singleton in Hk.
Qed.

(** C11: no delivery is lost in silence, whichever writes of the queue fail to commit.  Every
    operation of an execution only appends to the audit log, and every delivery that it leaves
    dead-lettered or dropped, and that was not so just before it, is named by a row that this
    very operation appended; so is, for the whole execution, every delivery lost since its
    start.  An operation that wrote the loss and its audit row in two transactions would not
    do: the second may fail. *)
Theorem no_silent_loss (ops : list hook_op) (s : hdb) : wf_hooks s →
  lost_aloud s (run_hook ops s) ∧
  ∀ ops1 op ops2, ops = ops1 ++ op :: ops2 → lost_aloud (run_hook ops1 s) (exec_hook op (run_hook ops1 s)).
Proof.
  intros Hw. split; [by eapply history_aloud, history_run|]. intros ops1 op ops2 _.
  eapply history_aloud, history_op. apply wf_run, Hw.
Qed.

(** ** Enqueueing *)

Lemma count_app {R} (w : R → bool) t1 t2 : sql_count w (t1 ++ t2) = (sql_count w t1 + sql_count w t2)%nat.
Proof. unfold sql_count. by rewrite List.filter_app, length_app. Qed.
Lemma count_update {R} (w v : R → bool) f t : (∀ r, r ∈ t → v r = true → w (f r) = w r) → sql_count w (sql_update v f t) = sql_count w t.
Proof.
  intros H. unfold sql_count, sql_update. induction t as [|r t IH]; [done|]. cbn.
  assert (Hr : w (if v r then f r else r) = w r) by (destruct (v r) eqn:E; [apply H; [by left|done]|done]). rewrite Hr.
  assert (IH' : length (List.filter w (map (λ r, if v r then f r else r) t)) = length (List.filter w t)) by (apply IH; intros; apply H; [by right|done]).
  destruct (w r); cbn; by rewrite IH'.
Qed.

Lemma same_event_row (s : hdb) evt d : wf_rows s → d ∈ h_deliveries s → same_event evt d = true → sql_row (same_event evt) (h_deliveries s) = Some d.
Proof.
  intros [_ Hu _ _] Hd He. destruct (sql_row (same_event evt) (h_deliveries s)) as [x|] eqn:E.
  - apply sql_row_Some in E as [Hx Hi]. f_equal. unfold same_event in *. apply andb_true_iff in He as [H1 H2], Hi as [H3 H4].
    apply String.eqb_eq in H1, H2, H3, H4. eapply (unique_inj event_key); [exact Hu|done|done|]. unfold event_key. congruence.
  - by rewrite (sql_row_None _ _ d E Hd) in He.
Qed.

(** A second request for a stored event. *)
Lemma enqueue_again (s : hdb) (seen : hdb) evt d rid ts : wf_rows s → d ∈ h_deliveries s → same_event evt d = true →
  ev_HookID evt ≠ "" → ev_EventID evt ≠ "" → is_ok (GetDefinition (ev_HookID evt) seen) = true →
  EnqueueEvent seen (λ x, x) rid evt ts s = (if disk_commits s then Ok d else Err HStorage, s).
Proof.
  intros Hw Hd He Hh Hv Hg. unfold EnqueueEvent. apply String.eqb_neq in Hh, Hv. rewrite Hh, Hv. cbn [orb].
  destruct (GetDefinition _ seen); [|done]. unfold write_tx. destruct (disk_commits s); [|done]. unfold commit_tx, enqueue_tx, sql_bind, sql_read.
  rewrite (same_event_row s evt d Hw Hd He). cbn. by rewrite row_of_id.
Qed.

Lemma backlog_insert hook s d : backlog hook (set_deliveries (h_deliveries s ++ [d]) s) =
  (backlog hook s + if String.eqb (d_HookID d) hook && in_state live_states d then 1 else 0)%nat.
Proof. unfold backlog. cbn [h_deliveries set_deliveries]. rewrite count_app. unfold sql_count at 2. cbn. by destruct (_ && _). Qed.

Lemma insert_error rid evt policy kind st ts next err s e : insertDelivery rid evt policy kind st ts next err s = Err e → e ≠ HQueueFull.
Proof.
  unfold insertDelivery, sql_bind, sql_read, sql_write. destruct rid; [|by intros [= <-]]. destruct (_ || _); [by intros [= <-]|done].
Qed.
Lemma enqueue_error rid evt policy kind ts s e : enqueue_tx rid evt policy kind ts s = Err e → e ≠ HQueueFull.
Proof.
  assert (Hi : ∀ st next err {B} (k : Delivery → htx B), (∀ d s e, k d s ≠ Err e) → sql_bind (insertDelivery rid evt policy kind st ts next err) k s = Err e → e ≠ HQueueFull).
  { intros st next err B k Hk. unfold sql_bind. destruct (insertDelivery _ _ _ _ _ _ _ _ s) as [[d s1]|e1] eqn:Ei; [by intros ?%Hk|]. intros [= <-]. by eapply insert_error. }
  unfold enqueue_tx. unfold sql_bind at 1, sql_read at 1. destruct (sql_row _ _); [done|]. unfold sql_bind at 1, sql_read at 1. destruct (_ <=? _).
  - unfold enqueueFull. destruct (String.eqb _ _).
    + unfold sql_bind at 1, sql_read at 1. destruct (coalesce_target _ _ _); [done|]. by apply Hi.
    + destruct (String.eqb _ _); [done|]. by apply Hi.
  - by apply Hi.
Qed.

Lemma definition_error id s e : GetDefinition id s = Err e → e ≠ HQueueFull.
Proof. unfold GetDefinition. destruct (definition_by id s) as [r|]; [destruct (unmarshal_params (hd_Allow r)); [done|]|]; by intros [= <-]. Qed.

(** The backlog after each end of an enqueue. *)
Lemma enqueue_backlog rid evt policy kind ts s r s' : wf_rows s → enqueue_end rid evt policy kind ts s r s' →
  Z.of_nat (backlog (ev_HookID evt) s') ≤ Z.max (Z.of_nat (backlog (ev_HookID evt) s)) (qp_MaxQueue policy).
Proof.
  intros Hw. destruct 1 as [d Hd He|d s1 Hn Hb Hi|t Hn Hb Hp Ht|Hn Hb Hp|d s1 reason lastError Hn Hb Hi]; try lia.
  - destruct (insert_evolves _ _ _ _ _ _ _ _ _ _ _ [] Hi Hn) as (Hd & Hs & _); [done|by intros [|]|].
    replace (backlog (ev_HookID evt) s1) with (backlog (ev_HookID evt) (set_deliveries (h_deliveries s ++ [d]) s)) by (unfold backlog; cbn [h_deliveries set_deliveries set_audit]; by rewrite Hd).
    rewrite backlog_insert. destruct (_ && _); lia.
  - apply coalesce_target_Some in Ht as (Hin & _ & _ & Hst). unfold backlog at 1. cbn [h_deliveries set_deliveries set_audit]. rewrite count_update; [fold (backlog (ev_HookID evt) s); lia|].
    intros d Hd Hi. apply String.eqb_eq in Hi. assert (d = t) as -> by (destruct Hw; eapply (unique_inj d_ID); eauto).
    unfold coalesced_row. destruct (String.eqb_spec (d_State t) DeliveryFailed) as [Ef|Ef]; [|done]. cbn. unfold in_state. by rewrite Ef.
  - destruct (insert_evolves _ _ _ _ _ _ _ _ _ _ _ [mkAudit "HOOK_DELIVERY_DLQED" (AFields [("delivery_id", d_ID d)]) 0] Hi Hn) as (Hd & Hs & _); [apply born_dead| |].
    { intros _. eexists. split; [by left|]. split; cbn; [by left|]. unfold names_delivery. cbn. by left. }
    replace (backlog (ev_HookID evt) (set_audit _ s1)) with (backlog (ev_HookID evt) (set_deliveries (h_deliveries s ++ [d]) s)) by (unfold backlog; cbn [h_deliveries set_deliveries set_audit]; by rewrite Hd).
    rewrite backlog_insert. unfold in_state. rewrite Hs. change (existsb (String.eqb DeliveryDLQed) live_states) with false. rewrite andb_false_r. lia.
Qed.

End Props.
