(* ===== verification/HookSignProps.v ===== *)
(** * What the broker signs *)

From Stdlib Require Import ZArith Lia Strings.Byte.
From stdpp Require Import base tactics list sets strings option relations sorting gmap.
From S2P Require Import Prelude GoStd Frame HookText HookNet ScriptEval Sql HookStore HookProofs HookRun HookBroker.

Open Scope string_scope.
Open Scope list_scope.
Open Scope Z_scope.

(** ** The signature budget *)

Section Budget.
Context {json : HookJson} {disk : HookDisk}.

(** The signatures an execution grants for a secret. *)
Definition reserved (secretID : string) (op : hook_op) (s : hdb) : nat :=
  match op with
  | OReserve seen y ts => if String.eqb y secretID && is_ok (ReserveSecretSignature seen y ts s).1 then 1 else 0
  | _ => 0
  end.
Fixpoint signatures (secretID : string) (ops : list hook_op) (s : hdb) : nat :=
  match ops with [] => 0 | op :: ops' => reserved secretID op s + signatures secretID ops' (exec_hook op s) end.

(** No operation creates the secret again, or raises its budget over [B]. *)
Definition within_budget (B : Z) (secretID : string) (op : hook_op) : Prop :=
  match op with
  | OCreateSecret _ _ y _ _ _ _ => y ≠ secretID
  | OSetBudget y b _ => y = secretID → b ≤ B
  | _ => True
  end.
Definition budgeted (B issued : Z) (secretID : string) (s : hdb) : Prop :=
  ∀ r, r ∈ h_secrets s → sr_SecretID r = secretID → sr_Budget r ≤ B ∧ issued ≤ sr_Issued r.

Lemma budgeted_same B i x s s' : h_secrets s' = h_secrets s → budgeted B i x s → budgeted B i x s'.
Proof. unfold budgeted. by intros ->. Qed.

Lemma reserve_count x seen ts s : wf_hooks s → is_ok (ReserveSecretSignature seen x ts s).1 = true →
  ∃ r, r ∈ h_secrets s ∧ sr_SecretID r = x ∧ sr_Issued r < sr_Budget r.
Proof.
  intros Hw. unfold ReserveSecretSignature. destruct (secret_by x seen); [|done]. destruct (_ <=? _); [done|]. cbn.
  destruct (sql_count _ (h_secrets s) =? 1)%nat eqn:E; [|done]. intros _. apply Nat.eqb_eq in E.
  destruct (sql_count_pos _ _ ltac:(rewrite E; done)) as (r & Hr & Hb). apply andb_true_iff in Hb as [H1 H2]. apply String.eqb_eq in H1. exists r. split_and!; [done|done|lia].
Qed.

Lemma budget_step B i x op s : wf_hooks s → within_budget B x op → budgeted B i x s →
  budgeted B (i + Z.of_nat (reserved x op s)) x (exec_hook op s) ∧ (reserved x op s = 1%nat → i < B).
Proof.
  intros Hw Ho Hb.
  assert (Hsame : reserved x op s = 0%nat → h_secrets (exec_hook op s) = h_secrets s → budgeted B (i + Z.of_nat (reserved x op s)) x (exec_hook op s) ∧ (reserved x op s = 1%nat → i < B)).
  { intros -> Hs. rewrite Z.add_0_r. split; [by eapply budgeted_same|done]. }
  assert (Hev : reserved x op s = 0%nat → evolves s (exec_hook op s) → budgeted B (i + Z.of_nat (reserved x op s)) x (exec_hook op s) ∧ (reserved x op s = 1%nat → i < B)).
  { intros H0 He. apply Hsame; [done|]. by destruct (He (wh_rows _ Hw)) as (_ & _ & ? & _). }
  destruct op.
  - apply Hsame; [done|]. cbn. unfold CreateDefinition. destruct rid; [|done]. unfold commit_tx, sql_bind, sql_read, sql_write. by destruct (sql_exists _ _).
  - apply Hsame; [done|]. cbn. unfold UpdateDefinition. destruct (GetDefinition id seen) as [[]|]; [|done]. destruct (negb _); [by destruct (GetDefinition id _) as [|[]]|done].
  - apply Hsame; [done|]. cbn. unfold DeleteDefinition. destruct (negb _); [by destruct (GetDefinition id _) as [|[]]|done].
  - split; [|done]. cbn [reserved]. rewrite Z.add_0_r. cbn. unfold CreateSecret. destruct rid as [id|]; [|done]. unfold commit_tx, sql_bind, sql_read, sql_write.
    destruct (sql_exists _ _); [done|]. cbn. intros r [Hr| ->%list_elem_of_singleton]%elem_of_app Hx; [by apply Hb|]. by destruct Ho.
  - split; [|done]. cbn [reserved]. rewrite Z.add_0_r. cbn. unfold DeleteSecret. destruct (sql_row _ _); [|by destruct (GetSecretByID _ _) as [|[]]].
    cbn. intros r' [Hr _]%in_sql_delete Hx. by apply Hb.
  - apply Hsame; [done|]. cbn. unfold BindSecretToHook. destruct (_ || _); [done|]. destruct (GetDefinition _ seen); [|done]. destruct (GetSecretRow _ seen); [|done].
    unfold commit_tx, sql_bind, sql_read, sql_write. destruct (sql_exists _ _); [done|]. by destruct (definition_by hookID s), (secret_by secretID s).
  - by apply Hsame.
  - split; [|done]. cbn [reserved]. rewrite Z.add_0_r. cbn. unfold SetSecretSignatureBudget. destruct (String.eqb _ _); [done|]. destruct (_ <? _); [done|]. cbn.
    intros r (r0 & Hr & ->)%in_sql_update Hx. cbn in Ho. destruct (String.eqb_spec (sr_SecretID r0) secretID) as [He|He]; [|by apply Hb].
    cbn in Hx. destruct (Hb r0 Hr Hx). split; [apply Ho; congruence|done].
  - cbn [reserved exec_hook]. destruct (String.eqb_spec secretID x) as [->|Hn]; cbn [andb].
    + pose proof (reserve_count x seen ts s Hw) as Hc. destruct (is_ok _) eqn:Eok.
      * destruct (Hc eq_refl) as (r0 & Hr0 & Hx0 & Hlt). destruct (Hb r0 Hr0 Hx0) as [H1 H2]. split; [|intros _; lia].
        unfold ReserveSecretSignature in *. destruct (secret_by x seen); [|done]. destruct (_ <=? _); [done|]. cbn.
        intros r (r1 & Hr & ->)%in_sql_update Hx. destruct (String.eqb_spec (sr_SecretID r1) x) as [He|He]; cbn [andb] in *.
        -- assert (r1 = r0) as -> by (eapply (unique_inj sr_SecretID); [apply Hw|done|done|congruence]). apply Z.ltb_lt in Hlt. rewrite Hlt. cbn. split; lia.
        -- done.
      * split; [|done]. rewrite Z.add_0_r. clear Hc. unfold ReserveSecretSignature in *. destruct (secret_by x seen); [|done]. destruct (_ <=? _); [done|]. cbn.
        intros r (r1 & Hr & ->)%in_sql_update Hx. destruct (_ && _); [|by apply Hb]. cbn in Hx. destruct (Hb r1 Hr Hx). cbn. split; lia.
    + split; [|done]. rewrite Z.add_0_r. unfold ReserveSecretSignature. destruct (secret_by secretID seen); [|done]. destruct (_ <=? _); [done|]. cbn.
      intros r (r1 & Hr & ->)%in_sql_update Hx. destruct (String.eqb_spec (sr_SecretID r1) secretID) as [He|He]; cbn [andb] in *; [|by apply Hb].
      destruct (_ <? _); cbn in *; [congruence|by apply Hb].
  - apply Hsame; [done|]. cbn. unfold SetHookParamsAllowlist. by destruct (String.eqb _ _).
  - apply Hsame; done.
  - apply Hev; [done|]. apply EnqueueEvent_evolves.
  - apply Hev; [done|]. apply ClaimDue_evolves.
  - apply Hev; [done|]. apply MarkDelivered_evolves.
  - apply Hev; [done|]. apply MarkFailed_evolves.
  - apply Hev; [done|]. apply RetryDelivery_evolves.
  - apply Hev; [done|]. apply RetryDeliveryAndRecord_evolves.
  - apply Hev; [done|]. apply MarkDecommissioned_evolves.
Qed.

(** C21: a secret is never an unlimited signing oracle.  In every execution of the hook store
    in which the secret is not created anew and its budget never exceeds [B], at most
    [B - issued] more signatures are granted, however reservations, budget changes and
    deletions interleave, and whatever stale budget each reservation read. *)
Theorem signature_budget_enforced (B issued : Z) (secretID : string) (ops : list hook_op) (s : hdb) :
  wf_hooks s → Forall (within_budget B secretID) ops →
  (∀ r, r ∈ h_secrets s → sr_SecretID r = secretID → sr_Budget r ≤ B ∧ issued ≤ sr_Issued r) →
  Z.of_nat (signatures secretID ops s) ≤ Z.max 0 (B - issued).
Proof.
  intros Hw Ho. revert s issued Hw. induction Ho as [|op ops Hop Ho IH]; intros s i Hw Hb; cbn [signatures]; [lia|].
  destruct (budget_step B i secretID op s Hw Hop Hb) as [Hb' Hlt]. specialize (IH _ _ (wf_op op s Hw) Hb').
  assert (reserved secretID op s ≤ 1)%nat by (unfold reserved; destruct op; try lia; destruct (_ && _); lia).
  destruct (reserved secretID op s) as [|[|n]]; [lia|specialize (Hlt eq_refl); lia|lia].
Qed.
End Budget.

(** ** Signed requests *)

Section Broker.
Context {lib : HookLib} {json : HookJson} {unicode : UnicodeCase} {crypto : Crypto}.

(** What the checks of [Sign] establish about the databases they saw. *)
Record sign_facts (k : SecretKeystore) (view : nat → hdb) (i : SignIntent) (secret : bytes) : Prop := {
  sf_intent : validateIntent i = Ok tt;
  sf_endpoint : ∃ ep, derived_endpoint (si_HookID i) (view 0%nat) = Ok ep ∧ EqualFold (si_Method i) (ep_method ep) = true ∧ si_Scheme i = ep_scheme ep ∧
    EqualFold (si_Host i) (ep_host ep) = true ∧ si_Port i = ep_port ep ∧ si_Path i = ep_path ep;
  sf_bound : IsSecretBoundToHook (si_HookID i) (si_SecretID i) (view 1%nat) = true;
  sf_secret : ∃ row, secret_by (si_SecretID i) (view 2%nat) = Some row ∧ EqualFold (sr_Algorithm row) (si_Algorithm i) = true ∧
    Decrypt k (sr_KeyID row) (sr_Ciphertext row) = Ok secret;
  sf_params : si_Placement i = SignaturePlacementQuery → ∃ allowed, GetHookParamsAllowlist (si_HookID i) (view 3%nat) = Ok allowed ∧
    ∀ key v, si_Query i !! key = Some v → key ∈ allowed
}.

Lemma endpoint_ok i ep : validateIntentEndpoint i ep = Ok tt →
  EqualFold (si_Method i) (ep_method ep) = true ∧ si_Scheme i = ep_scheme ep ∧ EqualFold (si_Host i) (ep_host ep) = true ∧ si_Port i = ep_port ep ∧ si_Path i = ep_path ep.
Proof.
  unfold validateIntentEndpoint. destruct (EqualFold (si_Method i) _); [|done]. cbn [negb]. destruct (EqualFold (si_Host i) _); cbn [negb orb]; [|by rewrite orb_true_r].
  destruct (String.eqb_spec (si_Scheme i) (ep_scheme ep)); [|done]. destruct (Z.eqb_spec (si_Port i) (ep_port ep)); [|done].
  by destruct (String.eqb_spec (si_Path i) (ep_path ep)).
Qed.

Lemma allowlist_ok i s : check_allowlist i s = Ok tt → si_Placement i = SignaturePlacementQuery → ∃ allowed, GetHookParamsAllowlist (si_HookID i) s = Ok allowed ∧
    ∀ key v, si_Query i !! key = Some v → key ∈ allowed.
Proof.
  unfold check_allowlist. intros H Hp. rewrite Hp in H. cbn [negb String.eqb] in H. rewrite String.eqb_refl in H. cbn [negb] in H.
  destruct (GetHookParamsAllowlist (si_HookID i) s) as [allowed|]; [|done]. exists allowed. split; [done|]. destruct (length allowed =? 0)%nat; [done|].
  destruct (forallb _ _) eqn:E; [|done]. intros key v Hk. rewrite forallb_forall in E. specialize (E (key, v)). cbn in E.
  rewrite existsb_exists in E. destruct E as (x & Hx & ->%String.eqb_eq); [by apply list_elem_of_In, elem_of_map_to_list|]. by apply list_elem_of_In.
Qed.

Lemma sign_checks_ok k view i secret : sign_checks k view i = Ok secret → sign_facts k view i secret.
Proof.
  unfold sign_checks. intros H.
  destruct (validateIntent i) as [[]|] eqn:E1; [|done]. destruct (derived_endpoint _ _) as [ep|] eqn:E2; [|done].
  destruct (validateIntentEndpoint i ep) as [[]|] eqn:E3; [|done]. destruct (IsSecretBoundToHook _ _ _) eqn:E4; [|done]. cbn [negb] in H.
  destruct (GetSecretRow _ _) as [row|] eqn:E5; [|done]. destruct (EqualFold (sr_Algorithm row) _) eqn:E6; [|done]. cbn [negb] in H.
  destruct (Decrypt _ _ _) as [sec|] eqn:E7; [|done]. destruct (check_allowlist _ _) as [[]|] eqn:E8; [|done]. injection H as ->.
  split; [done| |done| |].
  - exists ep. split; [done|]. by apply endpoint_ok.
  - exists row. split_and!; [|done|done]. unfold GetSecretRow in E5. destruct (secret_by _ _); [|done]. by injection E5 as ->.
  - by apply allowlist_ok.
Qed.

(** The URL of a signed request for an endpoint, as [joinHostPort] writes the host: without
    the port 80 or 443, and then without the brackets of an IPv6 address. *)
Definition signed_url (ep : endpoint) (query : string) : string :=
  url_string (ep_scheme ep) (joinHostPort (bytes_of (ep_host ep)) (ep_port ep)) (ep_path ep) query.
(** The signature of the parameters of a query for an endpoint. *)
Definition query_signature (algorithm : string) (secret : bytes) (ep : endpoint) (params : gmap string string) : string :=
  base64 (signBytes algorithm secret (bytes_of (StringToSign (ep_method ep) (ep_path ep) (CanonicalQuery params)))).
Definition signed_query (algorithm : string) (secret : bytes) (ep : endpoint) (params : gmap string string) : string :=
  let signature := query_signature algorithm secret ep params in
  if String.eqb signature "" then "" else CanonicalQuery (<["Signature" := signature]> params).

(** C12: what a prepared request is bound to.  Whatever the event's payload, the script and
    concurrent writers do, the method is POST and the body the payload.  Without a secret the
    URL is the stored definition's.  Otherwise the URL is built from the scheme, host, port and
    path of the endpoint derived from the stored definition, as [joinHostPort] renders them,
    with no query, or with the canonical query of the signed parameters and their signature; the
    broker derived the endpoint a second time and found the same, up to the host's case; the
    secret was bound to the hook and decrypted; every parameter of a query signature is on the
    hook's allowlist and the script's contribution is what the broker itself computes; and
    exactly one unit of the budget was consumed. *)
Theorem prepared_request_bound (k : SecretKeystore) (runner : option (bytes → bytes → result HookError envelope)) (view : nat → hdb)
    (d : Delivery) (ts : Z) (s s' : hdb) (req : SignedRequest) :
  Prepare k runner view d ts s = (Ok req, s') →
  sq_Method req = "POST" ∧ sq_Body req = bytes_of (d_PayloadJSON d) ∧
  sq_Headers req !! "X-Event-Id" = Some [d_EventID d] ∧ sq_Headers req !! "X-Delivery-Id" = Some [d_ID d] ∧
  ∃ ep, derived_endpoint (d_HookID d) (view 0%nat) = Ok ep ∧
    ((d_SecretID d = "" ∧ s' = s ∧ ∃ def allow, GetDefinition (d_HookID d) (view 0%nat) = Ok (def, allow) ∧ sq_URL req = hd_URL def) ∨
     ∃ algorithm params placement secret,
       let i := delivery_intent d algorithm ep params placement in
       req = mergeHeaders (sign_request i secret).1 d ∧ sign_facts k (λ n, view (2 + n)%nat) i secret ∧
       ReserveSecretSignature (view 6%nat) (d_SecretID d) ts s = (Ok tt, s') ∧
       (placement = SignaturePlacementHeader ∧ params = ∅ ∧ sq_URL req = signed_url ep "" ∨
        placement = SignaturePlacementQuery ∧ sq_URL req = signed_url ep (signed_query algorithm secret ep params) ∧
          ∃ contribution, VerifyContribution i contribution = Ok tt)).
Proof.
  unfold Prepare. destruct (derived_endpoint _ _) as [ep|] eqn:Eep; [|done].
  destruct (GetDefinition (d_HookID d) (view 0%nat)) as [[def allow]|] eqn:Edef; [|done].
  assert (Hm : ep_method ep = "POST").
  { unfold derived_endpoint in Eep. rewrite Edef in Eep. destruct (url_parse _); [|done]. destruct (rejectURLQueryFragment _); [|done]. by injection Eep as <-. }
  assert (Hsign : ∀ algorithm params placement,
    (placement = SignaturePlacementHeader ∧ params = ∅ ∨ placement = SignaturePlacementQuery ∧ ∃ contribution, VerifyContribution (delivery_intent d algorithm ep params placement) contribution = Ok tt) →
    sign_delivery k view d (delivery_intent d algorithm ep params placement) ts s = (Ok req, s') →
    sq_Method req = "POST" ∧ sq_Body req = bytes_of (d_PayloadJSON d) ∧
    sq_Headers req !! "X-Event-Id" = Some [d_EventID d] ∧ sq_Headers req !! "X-Delivery-Id" = Some [d_ID d] ∧
    ∃ algorithm params placement secret,
       let i := delivery_intent d algorithm ep params placement in
       req = mergeHeaders (sign_request i secret).1 d ∧ sign_facts k (λ n, view (2 + n)%nat) i secret ∧
       ReserveSecretSignature (view 6%nat) (d_SecretID d) ts s = (Ok tt, s') ∧
       (placement = SignaturePlacementHeader ∧ params = ∅ ∧ sq_URL req = signed_url ep "" ∨
        placement = SignaturePlacementQuery ∧ sq_URL req = signed_url ep (signed_query algorithm secret ep params) ∧
          ∃ contribution, VerifyContribution i contribution = Ok tt)).
  { intros algorithm params placement Hp Hs. set (i := delivery_intent d algorithm ep params placement) in *. unfold sign_delivery, Sign in Hs.
    destruct (sign_checks _ _ i) as [secret|] eqn:Ec; [|done]. apply sign_checks_ok in Ec.
    change (si_SecretID i) with (d_SecretID d) in Hs. cbn [Nat.add] in Hs. destruct (ReserveSecretSignature _ _ _ _) as [[[]|] s1] eqn:Er; [|done].
    destruct (sign_request i secret) as [q cap] eqn:Eq. destruct (CanSign cap).1; [|done]. injection Hs as <- <-.
    assert (Hq : sq_Method q = ep_method ep ∧ sq_Body q = bytes_of (d_PayloadJSON d)).
    { unfold sign_request in Eq. injection Eq as <- _. by destruct (String.eqb _ _). }
    destruct Hq as [Hq1 Hq2]. split_and!; [by cbn; rewrite Hq1|done|cbn; by simplify_map_eq|cbn; by simplify_map_eq|].
    exists algorithm, params, placement, secret. cbv zeta. fold i. rewrite Eq. split_and!; [done|exact Ec|done|].
    assert (Hu : sq_URL q = if String.eqb placement SignaturePlacementQuery then signed_url ep (signed_query algorithm secret ep params) else signed_url ep "").
    { apply (f_equal fst) in Eq. cbn in Eq. rewrite <- Eq. unfold i, delivery_intent. cbn [si_Placement]. destruct (String.eqb placement _); [|done].
      cbn [sq_URL]. unfold buildURL, signed_url, signed_query, query_signature. cbn. by destruct (String.eqb (base64 _) ""). }
    destruct Hp as [[-> ->]|[-> Hc]]; [left|right]; split_and!; try done. }
  destruct (String.eqb (d_SecretID d) "" && String.eqb (d_ScriptB64 d) "") eqn:Eplain.
  { intros [= <- <-]. apply andb_true_iff in Eplain as [Esec _]. apply String.eqb_eq in Esec. split_and!; [done|done|cbn; by simplify_map_eq|cbn; by simplify_map_eq|].
    exists ep. split; [done|]. left. split_and!; [done|done|]. by exists def, allow. }
  destruct (GetSecretRow (d_SecretID d) (view 1%nat)) as [row|]; [|done]. destruct (String.eqb (d_ScriptB64 d) "").
  { intros H. apply Hsign in H as (? & ? & ? & ? & H); [|by left]. split_and!; try done. exists ep. split; [done|]. by right. }
  destruct (unbase64 (d_ScriptB64 d)) as [script|]; [|done]. destruct runner as [run|]; [|done].
  destruct (buildRunnerRequest _ ep) as [request|]; [|done]. destruct (run script request) as [env|]; [|done]. destruct (en_OK env); [|done]. cbn [negb].
  destruct (decode_params (en_Contribution env)) as [[[cq sts] params]|] eqn:Ed; [|done]. cbn [of_option]. destruct (size params =? 0)%nat; [done|].
  destruct (VerifyContribution _ _) as [[]|] eqn:Ev; [|done]. intros H. apply Hsign in H as (? & ? & ? & ? & H); [|right; split; [done|by eexists]].
  split_and!; try done. exists ep. split; [done|]. by right.
Qed.

(** ** The key file *)

(** The key file keeps its key.  A key id of 8 to 255 bytes with a 32-byte key is read
    back from the file the keystore writes, and the keystore that holds it opens what it
    sealed, under its own key id only. *)
Theorem key_file_roundtrip (keyID : string) (key nonce plaintext : bytes) :
  (8 ≤ String.length keyID < 256)%nat → length key = 32%nat → length nonce = SecretNonceSize →
  aead_open key nonce (aead_seal key nonce plaintext) = Some plaintext →
  parseSecretKeyFile (key_file keyID key) = Some (keyID, key) ∧
  ∃ k, newSecretKeystore keyID key = Some k ∧
    match Encrypt k (Some nonce) plaintext with
    | Ok (blob, id) => id = keyID ∧ Decrypt k id blob = Ok plaintext ∧ ∀ other, other ≠ keyID → Decrypt k other blob = Err HKeyMismatch
    | Err _ => False
    end.
Proof.
  intros Hid Hkey Hn Ho. split.
  - unfold parseSecretKeyFile, key_file. set (n := String.length keyID) in *. assert (Hl : length (bytes_of keyID) = n) by apply length_bytes_of.
    change (secretKeyMagic ++ [u8 1] ++ [u8 (Z.of_nat n)] ++ bytes_of keyID ++ key) with ([Byte.x41; Byte.x4e; Byte.x48; Byte.x4b; Byte.x01; u8 (Z.of_nat n)] ++ bytes_of keyID ++ key).
    set (raw := _ ++ _ ++ _). assert (Hraw : length raw = (6 + n + 32)%nat) by (unfold raw; rewrite !length_app, Hl, Hkey; cbn; lia).
    rewrite Hraw. destruct (Nat.ltb_spec (6 + n + 32) (4 + 2 + 8 + 32)); [lia|].
    change (take 4 raw) with secretKeyMagic. unfold bytes_eqb. rewrite bool_decide_eq_true_2 by done. cbn [negb].
    change (nth 4 raw Byte.x00) with Byte.x01. change (nth 5 raw Byte.x00) with (u8 (Z.of_nat n)). change (b2z Byte.x01 =? 1) with true. cbn [negb].
    rewrite b2z_u8, Z.mod_small by lia. rewrite Nat2Z.id. destruct (Nat.eqb_spec (6 + n + 32) (4 + 2 + n + 32)); [|lia]. destruct (Nat.leb_spec n 0); [lia|]. cbn [negb orb].
    unfold slice. replace (6 + n - 6)%nat with n by lia.
    change (drop 6 raw) with (bytes_of keyID ++ key). rewrite take_app_length' by done. rewrite string_of_bytes_of.
    replace (drop (6 + n) raw) with (drop n (drop 6 raw)) by (by rewrite drop_drop). change (drop 6 raw) with (bytes_of keyID ++ key). by rewrite drop_app_length'.
  - unfold newSecretKeystore. rewrite Hkey. eexists. split; [done|]. unfold Encrypt, Decrypt. cbn [ks_KeyID ks_Key].
    split_and!; [done| |].
    + rewrite String.eqb_refl. cbn [negb]. rewrite length_app, Hn. destruct (Nat.ltb_spec (SecretNonceSize + length (aead_seal key nonce plaintext)) SecretNonceSize); [lia|].
      rewrite take_app_length', drop_app_length' by done. by rewrite Ho.
    + intros other Hne. apply not_eq_sym, String.eqb_neq in Hne. by rewrite Hne.
Qed.
End Broker.
