(* ===== verification/HookLive.v ===== *)
(** * The queue drains

    With nobody else writing and a disk that does not fail, a dispatcher that pumps as often as a delivery may be attempted,
    with pauses longer than the longest backoff, settles every delivery, whatever the preparer
    and the sender answer. *)

From Stdlib Require Import ZArith Lia Strings.Byte.
From stdpp Require Import base tactics list sets strings option relations sorting gmap.
From S2P Require Import Prelude GoStd Frame HookText HookNet ScriptEval Sql HookStore HookProofs HookBroker.

Open Scope string_scope.
Open Scope list_scope.
Open Scope Z_scope.

(** ** Backoff *)

Lemma backoff_bounds attempt jitter : 1 ≤ backoffSeconds attempt jitter ≤ 300.
Proof.
  assert (H : ∀ e, 1 ≤ (if 300 <? (if e <? 1 then 1 else e) then 300 else if e <? 1 then 1 else e) ≤ 300)
    by (intros e; destruct (Z.ltb_spec e 1); [done|]; destruct (Z.ltb_spec 300 e); lia).
  unfold backoffSeconds. cbv zeta. apply H.
Qed.

#[local] Existing Instance sound_disk.

Section Live.
Context {lib : HookLib} {json : HookJson} {unicode : UnicodeCase} {crypto : Crypto}.

Definition settled (d : Delivery) : Prop := d_State d = DeliveryDelivered ∨ is_lost (d_State d).
(** [n] attempts are left at most. *)
Definition left_of (n : Z) (d : Delivery) : Prop := d_MaxAttempts d - d_AttemptCount d ≤ n.
(** Waiting for the pump at [t]. *)
Definition ready (t n : Z) (d : Delivery) : Prop :=
  settled d ∨ ((d_State d = DeliveryPending ∨ d_State d = DeliveryFailed ∨ d_State d = DeliveryInFlight ∧ d_UpdatedAt d < t - inFlightStuckSeconds) ∧
    d_NextAttemptAt d ≤ t ∧ left_of n d).
(** After the pump at [t]. *)
Definition tried (t n : Z) (d : Delivery) : Prop :=
  settled d ∨ (d_State d = DeliveryFailed ∧ d_NextAttemptAt d ≤ t + 300 ∧ left_of (n - 1) d ∧ d_AttemptCount d < d_MaxAttempts d).
Definition in_flight (n : Z) (ids : list string) (d : Delivery) : Prop := d_State d = DeliveryInFlight ∧ left_of n d ∧ d_ID d ∈ ids.

Lemma tried_ready t t' n d : tried t n d → t + 300 < t' → ready t' (n - 1) d.
Proof. intros [?|(? & ? & ? & ?)] Ht; [by left|right]. split_and!; [by right; left|lia|done]. Qed.
Lemma tried_last t d : tried t 1 d → settled d.
Proof. unfold tried, left_of. intros [?|(? & ? & ? & ?)]; [done|lia]. Qed.

Lemma Prepare_rows k runner view d ts s : h_deliveries (Prepare k runner view d ts s).2 = h_deliveries s ∧ h_defs (Prepare k runner view d ts s).2 = h_defs s.
Proof.
  assert (Hr : ∀ seen id, h_deliveries (ReserveSecretSignature seen id ts s).2 = h_deliveries s ∧ h_defs (ReserveSecretSignature seen id ts s).2 = h_defs s).
  { intros seen id. unfold ReserveSecretSignature. destruct (secret_by id seen); [|done]. by destruct (_ <=? _). }
  assert (Hs : ∀ i, h_deliveries (sign_delivery k view d i ts s).2 = h_deliveries s ∧ h_defs (sign_delivery k view d i ts s).2 = h_defs s).
  { intros i. unfold sign_delivery, Sign. destruct (sign_checks _ _ i); [|done]. specialize (Hr (view (2 + 4)%nat) (si_SecretID i)).
    destruct (ReserveSecretSignature _ _ _ _) as [[u|] s1]; [|done]. destruct (sign_request i a) as [q cap]. by destruct (CanSign cap).1. }
  unfold Prepare. destruct (derived_endpoint _ _); [|done]. destruct (GetDefinition _ _) as [[]|]; [|done]. destruct (_ && _); [done|].
  destruct (GetSecretRow _ _); [|done]. destruct (String.eqb _ _); [apply Hs|]. destruct (unbase64 _); [|done]. destruct runner; [|done].
  match goal with |- context [match ?c with Ok i => _ | Err e => (Err e, s) end] => destruct c end; [apply Hs|done].
Qed.

Lemma wf_rows_same s s' : h_deliveries s' = h_deliveries s → h_defs s' = h_defs s → wf_rows s → wf_rows s'.
Proof. intros Hd Hh [H1 H2 H3 H4]. split; by rewrite ?Hd, ?Hh. Qed.

(** Recording an outcome touches only the delivery it is for. *)
Lemma mark_failed_rows jitter id msg t n ids s : wf_rows s → (∀ x, x ∈ h_deliveries s → tried t n x ∨ in_flight n ids x) →
  ∀ x, x ∈ h_deliveries (MarkFailed s jitter id msg t s).2 → tried t n x ∨ (in_flight n ids x ∧ d_ID x ≠ id).
Proof.
  intros Hw Hall x Hx. unfold MarkFailed in Hx.
  assert (Hmiss : sql_row (has_id id) (h_deliveries s) = None → ∀ y, y ∈ h_deliveries s → d_ID y ≠ id).
  { intros Hn y Hy He. pose proof (sql_row_None _ _ y Hn Hy) as Hf. apply String.eqb_neq in Hf. done. }
  destruct (sql_row (has_id id) (h_deliveries s)) as [d|] eqn:Er.
  2: { cbn in Hx. destruct (Hall x Hx) as [?|?]; [by left|right]. split; [done|by apply Hmiss]. }
  clear Hmiss. apply sql_row_Some in Er as [Hd Hi]. apply String.eqb_eq in Hi.
  assert (Huniq : ∀ y, y ∈ h_deliveries s → d_ID y = id → y = d) by (intros y Hy He; destruct Hw; eapply (unique_inj d_ID); eauto; congruence).
  destruct (String.eqb_spec (d_State d) DeliveryInFlight) as [Ef|Ef]; cbn [negb] in Hx.
  2: { cbn in Hx. destruct (Hall x Hx) as [?|Hf]; [by left|right]. split; [done|]. intros He. rewrite (Huniq x Hx He) in Hf. by destruct Hf. }
  assert (Hleft : left_of n d).
  { destruct (Hall d Hd) as [[Hs|(Hs & _)]|(_ & ? & _)]; [|exfalso|done]; [|by rewrite Ef in Hs]. exfalso. unfold settled, is_lost in Hs. rewrite Ef in Hs. naive_solver. }
  set (f := if d_MaxAttempts d <=? d_AttemptCount d + 1
    then λ d0, upd d0 DeliveryDLQed (d_AttemptCount d + 1) (d_NextAttemptAt d0) (d_PayloadJSON d0) (d_ScriptB64 d0) (d_SecretID d0) msg (d_DecommissionDeadline d0) t
    else λ d0, upd d0 DeliveryFailed (d_AttemptCount d + 1) (t + backoffSeconds (d_AttemptCount d + 1) (Some jitter)) (d_PayloadJSON d0) (d_ScriptB64 d0) (d_SecretID d0) msg (d_DecommissionDeadline d0) t).
  assert (Hx2 : x ∈ sql_update (λ d0, has_id id d0 && String.eqb (d_State d0) DeliveryInFlight) f (h_deliveries s)) by (unfold f; destruct (d_MaxAttempts d <=? d_AttemptCount d + 1); exact Hx).
  clear Hx. apply in_sql_update in Hx2 as (y & Hy & ->). destruct (String.eqb_spec (d_ID y) id) as [He|He].
  - left. rewrite (Huniq y Hy He). unfold has_id. rewrite Hi, Ef, !String.eqb_refl. cbn [andb]. unfold f.
    destruct (Z.leb_spec (d_MaxAttempts d) (d_AttemptCount d + 1)); cbn; [left; right; by left|]. right. pose proof (backoff_bounds (d_AttemptCount d + 1) (Some jitter)).
    unfold left_of in *. cbn. split_and!; [done|lia|lia|lia].
  - unfold has_id. apply String.eqb_neq in He as He2. rewrite He2. cbn [andb]. destruct (Hall y Hy); [by left|by right].
Qed.

Lemma mark_delivered_rows id t n ids s : (∀ x, x ∈ h_deliveries s → tried t n x ∨ in_flight n ids x) →
  ∀ x, x ∈ h_deliveries (MarkDelivered (λ s, s) id t s).2 → tried t n x ∨ (in_flight n ids x ∧ d_ID x ≠ id).
Proof.
  intros Hall x Hx.
  assert (Hx2 : x ∈ sql_update (λ d, has_id id d && String.eqb (d_State d) DeliveryInFlight) (λ d, upd d DeliveryDelivered (d_AttemptCount d) (d_NextAttemptAt d) (d_PayloadJSON d)
    (d_ScriptB64 d) (d_SecretID d) "" (d_DecommissionDeadline d) t) (h_deliveries s)).
  { unfold MarkDelivered in Hx. cbn in Hx. destruct (_ =? _)%nat; [exact Hx|]. by destruct (GetDelivery id _) as [|[]]. }
  apply in_sql_update in Hx2 as (y & Hy & ->). destruct (has_id id y) eqn:Ei; cbn [andb].
  - destruct (String.eqb_spec (d_State y) DeliveryInFlight) as [Ef|Ef]; [left; left; by left|]. destruct (Hall y Hy) as [?|[? _]]; [by left|done].
  - apply String.eqb_neq in Ei. destruct (Hall y Hy); [by left|by right].
Qed.

Context (k : SecretKeystore) (runner : option (bytes → bytes → result HookError envelope)) (view : Delivery → Z → nat → hdb)
  (send : SignedRequest → result string (option Z)) (error_text : HookError → string) (jitter : Z → Z).
Definition sequential_deliver : Z → Delivery → hdb → hdb :=
  deliver (λ d t, Prepare k runner (view d t) d t) send error_text jitter (λ s, s).
Definition sequential_pump : Z → Z → hdb → nat * hdb :=
  pumpOnce (λ d t, Prepare k runner (view d t) d t) send error_text jitter (λ s, s).

Lemma deliver_rows t n ids d s : wf_rows s → (∀ x, x ∈ h_deliveries s → tried t n x ∨ in_flight n ids x) →
  wf_rows (sequential_deliver t d s) ∧ ∀ x, x ∈ h_deliveries (sequential_deliver t d s) → tried t n x ∨ (in_flight n ids x ∧ d_ID x ≠ d_ID d).
Proof.
  intros Hw Hall. unfold sequential_deliver, deliver. destruct (Prepare_rows k runner (view d t) d t s) as [Hp1 Hp2]. destruct (Prepare _ _ _ d t s) as [r s1]. cbn in Hp1, Hp2.
  assert (Hw1 : wf_rows s1) by by eapply wf_rows_same. rewrite <- Hp1 in Hall.
  assert (Hfail : ∀ msg, wf_rows (MarkFailed s1 jitter (d_ID d) msg t s1).2 ∧ ∀ x, x ∈ h_deliveries (MarkFailed s1 jitter (d_ID d) msg t s1).2 → tried t n x ∨ (in_flight n ids x ∧ d_ID x ≠ d_ID d)).
  { intros msg. split; [by apply (MarkFailed_evolves s1 jitter (d_ID d) msg t s1)|by apply mark_failed_rows]. }
  destruct r as [req|e]; [|apply Hfail]. destruct (send req) as [[code|]|msg]; [|apply Hfail|apply Hfail]. destruct (_ || _); [apply Hfail|].
  split; [by apply (MarkDelivered_evolves (λ s, s) (d_ID d) t s1)|by apply mark_delivered_rows].
Qed.

Lemma deliver_all t n ds s : wf_rows s → (∀ x, x ∈ h_deliveries s → tried t n x ∨ in_flight n (map d_ID ds) x) →
  let s' := fold_left (λ s d, sequential_deliver t d s) ds s in wf_rows s' ∧ ∀ x, x ∈ h_deliveries s' → tried t n x.
Proof.
  revert s. induction ds as [|d ds IH]; intros s Hw Hall; cbn.
  - split; [done|]. intros x Hx. destruct (Hall x Hx) as [?|(_ & _ & Hn)]; [done|by apply not_elem_of_nil in Hn].
  - destruct (deliver_rows t n _ d s Hw Hall) as [Hw1 H1]. apply IH; [done|].
    intros x Hx. destruct (H1 x Hx) as [?|[(H2 & H3 & H4) Hne]]; [by left|right]. split_and!; [done|done|]. cbn in H4. by apply elem_of_cons in H4 as [?|?].
Qed.

(** The claim of a pump that can take every row. *)
Lemma claim_rows t n batch s : wf_rows s → Z.of_nat (length (h_deliveries s)) ≤ batch → (∀ x, x ∈ h_deliveries s → ready t n x) →
  let s1 := dropped t (requeued t s) in ∀ x, x ∈ h_deliveries (claimed batch t s1) → tried t n x ∨ in_flight n (due_ids batch t s1) x.
Proof.
  intros Hw Hb Hall s1 x Hx.
  assert (H1 : ∀ y, y ∈ h_deliveries (requeued t s) → settled y ∨ due t y = true ∧ left_of n y).
  { intros y Hy. unfold requeued in Hy. cbn in Hy. apply in_sql_update in Hy as (z & Hz & ->). destruct (Hall z Hz) as [Hs|(Hs & Hn & Hl)].
    - left. assert (Hk : stuck t z = false) by (unfold stuck; destruct Hs as [->|[->| ->]]; reflexivity). by rewrite Hk.
    - right. unfold due, stuck. destruct Hs as [Hs|[Hs|[Hs Hu]]].
      + rewrite Hs. cbn. split; [|done]. unfold in_state. rewrite Hs. cbn. lia.
      + rewrite Hs. cbn. split; [|done]. unfold in_state. rewrite Hs. cbn. lia.
      + rewrite Hs. cbn. destruct (Z.ltb_spec (d_UpdatedAt z) (t - inFlightStuckSeconds)); [|lia]. cbn. split; [lia|done]. }
  assert (H2 : ∀ y, y ∈ h_deliveries s1 → settled y ∨ due t y = true ∧ left_of n y).
  { intros y Hy. unfold s1, dropped in Hy. cbn in Hy. apply in_sql_update in Hy as (z & Hz & ->). match goal with |- settled (if ?c then _ else _) ∨ _ => destruct c end; [left; right; by right|by apply H1]. }
  assert (Hlen : length (h_deliveries s1) = length (h_deliveries s)) by (unfold s1, dropped, requeued, sql_update; cbn; by rewrite !length_map).
  unfold claimed in Hx. cbn [h_deliveries set_deliveries] in Hx. apply in_sql_update in Hx as (y & Hy & ->). destruct (H2 y Hy) as [Hs|[Hd Hl]].
  - left. left. destruct (_ && _) eqn:E; [|done]. apply andb_true_iff in E as [_ E]. apply state_in in E. exfalso. unfold settled, is_lost in Hs.
    destruct Hs as [Hs|[Hs|Hs]]; rewrite Hs in E; apply elem_of_cons in E as [E|E]; try discriminate E; apply list_elem_of_singleton in E; discriminate E.
  - right. assert (Hin : d_ID y ∈ due_ids batch t s1).
    { unfold due_ids. rewrite take_ge; [apply list_elem_of_fmap; exists y; split; [done|]; rewrite (merge_sort_Permutation claim_le); by apply in_sql_select|].
      rewrite (Permutation_length (merge_sort_Permutation claim_le _)). etrans; [apply sublist_length, sublist_filter|]. rewrite Hlen. lia. }
    pose proof Hd as Hd2. unfold due in Hd2. apply andb_true_iff in Hd2 as [Hst _]. rewrite Hst. apply is_one_of_spec in Hin as Hone. rewrite Hone. cbn [andb].
    split_and!; [done|done|exact Hin].
Qed.

Lemma pump_rows t n batch s : wf_rows s → 0 < batch → Z.of_nat (length (h_deliveries s)) ≤ batch → (∀ x, x ∈ h_deliveries s → ready t n x) →
  let s' := (sequential_pump batch t s).2 in wf_rows s' ∧ ∀ x, x ∈ h_deliveries s' → tried t n x.
Proof.
  intros Hw Hp Hb Hall. pose proof (claim_rows t n batch s Hw Hb Hall) as Hc. unfold sequential_pump, pumpOnce, ClaimDue. destruct (Z.leb_spec batch 0); [lia|].
  unfold write_tx, commit_tx. cbn [disk_commits sound_disk]. rewrite claim_tx_eq. set (s1 := dropped t (requeued t s)) in *. set (s2 := claimed batch t s1) in *.
  assert (Hw2 : wf_rows s2) by (apply (claimed_evolves batch t s1), (dropped_evolves t (requeued t s)), (requeued_evolves t s), Hw).
  assert (Hids : ∀ ids, (∀ i, i ∈ ids → ∃ d, d ∈ h_deliveries s2 ∧ d_ID d = i) → ∃ ds, mapM (λ id, sql_row (has_id id) (h_deliveries s2)) ids = Some ds ∧ map d_ID ds = ids).
  { induction ids as [|i ids IH]; intros Hi; [by exists []|]. destruct IH as (ds & Hm & He); [intros; apply Hi; by right|].
    destruct (Hi i ltac:(by left)) as (d & Hd & Hid). pose proof (row_of_id s2 d Hw2 Hd) as Hg. unfold GetDelivery in Hg. rewrite Hid in Hg.
    destruct (sql_row (has_id i) (h_deliveries s2)) as [d1|] eqn:Er; [|done]. injection Hg as ->. exists (d :: ds). split; [|cbn; by rewrite Hid, He]. apply mapM_Some. constructor; [done|]. by apply mapM_Some. }
  destruct (Hids (due_ids batch t s1)) as (ds & Hm & He).
  { intros i Hi. unfold due_ids in Hi. apply list_elem_of_fmap in Hi as (y & -> & Hy). apply elem_of_take in Hy as (j & Hj & _). apply list_elem_of_lookup_2 in Hj.
    rewrite (merge_sort_Permutation claim_le) in Hj. apply in_sql_select in Hj as [Hj _].
    eexists. split; [unfold s2, claimed; cbn; apply in_sql_update; by exists y|]. by destruct (_ && _). }
  rewrite Hm. cbn. apply (deliver_all t n ds s2 Hw2). by rewrite He.
Qed.

(** A pump neither adds nor removes rows. *)
Lemma update_length {R} (w : R → bool) (f : R → R) l : length (sql_update w f l) = length l.
Proof. apply length_map. Qed.
Lemma deliver_length t d s : length (h_deliveries (sequential_deliver t d s)) = length (h_deliveries s).
Proof.
  unfold sequential_deliver, deliver. destruct (Prepare_rows k runner (view d t) d t s) as [Hp _]. destruct (Prepare _ _ _ d t s) as [r s1]. cbn in Hp. rewrite <- Hp.
  assert (Hfail : ∀ msg, length (h_deliveries (MarkFailed s1 jitter (d_ID d) msg t s1).2) = length (h_deliveries s1)).
  { intros msg. unfold MarkFailed. destruct (sql_row _ _); [|done]. destruct (negb _); [done|]. destruct (_ <=? _); apply update_length. }
  destruct r as [req|e]; [|apply Hfail]. destruct (send req) as [[code|]|msg]; [|apply Hfail|apply Hfail]. destruct (_ || _); [apply Hfail|].
  unfold MarkDelivered, write_tx, commit_tx, sql_bind, sql_read, update_deliveries, sql_write, sql_ret. cbn [disk_commits sound_disk].
  destruct (_ =? _)%nat; [apply update_length|]. destruct (GetDelivery _ _) as [|[]]; apply update_length.
Qed.
Lemma pump_length batch t s : length (h_deliveries (sequential_pump batch t s).2) = length (h_deliveries s).
Proof.
  unfold sequential_pump, pumpOnce, ClaimDue. destruct (batch <=? 0); [done|]. unfold write_tx, commit_tx. cbn [disk_commits sound_disk]. rewrite claim_tx_eq.
  assert (Hc : length (h_deliveries (claimed batch t (dropped t (requeued t s)))) = length (h_deliveries s)) by (unfold claimed, dropped, requeued; cbn [h_deliveries set_deliveries set_audit]; by rewrite !update_length).
  destruct (mapM _ _) as [ds|]; [|exact Hc]. cbn. rewrite <- Hc. generalize (claimed batch t (dropped t (requeued t s))). clear Hc.
  induction ds as [|d ds IH]; intros s2; cbn; [done|]. etrans; [apply IH|]. apply deliver_length.
Qed.

(** The pumps of a schedule. *)
Definition run_pumps (batch : Z) (times : list Z) (s : hdb) : hdb := fold_left (λ s t, (sequential_pump batch t s).2) times s.
Fixpoint spaced (t : Z) (times : list Z) : Prop := match times with [] => True | t' :: times' => t + 300 < t' ∧ spaced t' times' end.

(** C23: the queue drains, with no other writer and a disk that does not fail.  Take any queue
    whose deliveries are settled or waiting (pending, failed, or stuck in flight) with their
    next attempt due at [t0], and pump it at [t0] and then as often as the attempts some
    delivery still has, each time more than five minutes later, with batches that can hold the
    queue.  Then every delivery is delivered, dead-lettered or dropped, whatever the preparer,
    the broker and the receiver answer and however the jitter falls. *)
Theorem pump_settles_every_delivery (batch t0 : Z) (times : list Z) (s : hdb) :
  wf_rows s → 0 < batch → Z.of_nat (length (h_deliveries s)) ≤ batch → spaced t0 times →
  (∀ x, x ∈ h_deliveries s → settled x ∨
     ((d_State x = DeliveryPending ∨ d_State x = DeliveryFailed ∨ d_State x = DeliveryInFlight ∧ d_UpdatedAt x < t0 - inFlightStuckSeconds) ∧
      d_NextAttemptAt x ≤ t0 ∧ d_MaxAttempts x - d_AttemptCount x ≤ Z.of_nat (length (t0 :: times)))) →
  ∀ x, x ∈ h_deliveries (run_pumps batch (t0 :: times) s) →
    d_State x = DeliveryDelivered ∨ d_State x = DeliveryDLQed ∨ d_State x = DeliveryDroppedDecommission.
Proof.
  intros Hw Hp Hb Hs Hall.
  cut (∀ x, x ∈ h_deliveries (run_pumps batch (t0 :: times) s) → settled x); [intros H x Hx; exact (H x Hx)|].
  revert t0 s Hw Hb Hs Hall. induction times as [|t1 times IH]; intros t0 s Hw Hb Hs Hall x Hx.
  - destruct (pump_rows t0 1 batch s Hw Hp Hb Hall) as [_ Ht]. eapply tried_last, Ht. exact Hx.
  - destruct Hs as [Ht1 Hs]. set (n := Z.of_nat (length (t0 :: t1 :: times))) in *.
    destruct (pump_rows t0 n batch s Hw Hp Hb Hall) as [Hw1 Ht]. change (x ∈ h_deliveries (run_pumps batch (t1 :: times) (sequential_pump batch t0 s).2)) in Hx.
    eapply (IH t1 _ Hw1); [by rewrite pump_length|done| |exact Hx].
    intros y Hy. replace (Z.of_nat (length (t1 :: times))) with (n - 1) by (unfold n; cbn [length]; lia). apply (tried_ready t0); [by apply Ht|done].
Qed.
End Live.
