(* ===== verification/HookWitness.v ===== *)
(** * The hook store at work *)

From Stdlib Require Import ZArith Lia Strings.Byte.
From stdpp Require Import base tactics list sets strings option relations sorting gmap.
From S2P Require Import Prelude GoStd Frame HookText HookNet ScriptEval Sql HookStore HookProofs HookRun HookBroker HookProps HookSignProps HookLive.

Open Scope string_scope.
Open Scope list_scope.
Open Scope Z_scope.

(** ** Interfaces *)

Definition toy_json : HookJson := {|
  policy_json p := qp_OnFull p; marshal_params l := default "[]" (head l); unmarshal_params s := Some (if String.eqb s "[]" then [] else [s]);
  base64 := string_of; unbase64 s := Some (bytes_of s)
|}.
#[local] Existing Instance toy_json.
#[local] Existing Instance ascii_case.
Definition toy_query : gmap string string := {["a" := "1"]}.
Definition toy_hook : HookLib := {|
  url_parse s := if String.eqb s "https://hooks.example.org/in" then Some (mkUrl "https" false "hooks.example.org" "" "/in" "" false "" "") else None;
  url_string scheme host path query := scheme +:+ "://" +:+ string_of host +:+ path +:+ (if String.eqb query "" then "" else "?" +:+ query);
  hmac _ k m := take 3 k ++ [u8 (zlen m)];
  aead_seal _ _ p := p ++ [Byte.x00];
  aead_open _ _ c := if (length c =? 0)%nat then None else Some (take (length c - 1) c);
  decode_object _ := Some []; encode_object _ := [];
  decode_params _ := Some ("a=1", "POST&%2Fin&a%3D1", toy_query);
  trim_space s := s; drop_control b := b
|}.
#[local] Existing Instance toy_hook.
#[local] Existing Instance sound_disk.

Definition keep (s : hdb) : hdb := s.
Definition policy (onFull : string) (max : Z) : QueuePolicy := mkPolicy 1 onFull max 2.
Definition event (id node payload : string) (p : QueuePolicy) : Event := mkEvent "h1" id "state" node (bytes_of payload) p [] "".
Definition nonce : bytes := repeat Byte.x09 12.
Definition store : SecretKeystore := mkKeystore "key-0001" (repeat Byte.x07 32).
Definition empty_hooks : hdb := mkHdb [] [] [] [] [] [].

(** A hook with a bound secret and an allowlist, and two deliveries. *)
Definition setup_ops : list hook_op :=
  [OCreateDefinition keep (Some "h1") "hook" "webhook" "https://hooks.example.org/in" 100;
   OCreateSecret keep (Some "r1") "s1" "HMAC-SHA256" (nonce ++ bytes_of "pw" ++ [Byte.x00]) "key-0001" 100].
Definition db1 : hdb := run_hook setup_ops empty_hooks.
Definition db2 : hdb := run_hook [OBind db1 "h1" "s1" 101; OSetBudget "s1" 2 101; OSetAllowlist "h1" ["a"] 101] db1.
Definition db3 : hdb := run_hook [OEnqueue db2 keep (Some "d1") (event "e1" "n1" "one" (policy "dlq" 2)) 110;
   OEnqueue db2 keep (Some "d2") (event "e2" "n2" "two" (policy "dlq" 2)) 111] db2.

Lemma wf_empty : wf_hooks empty_hooks.
Proof.
  split; try apply NoDup_nil_2; try (intros x Hx; by apply not_elem_of_nil in Hx).
  split; try apply NoDup_nil_2; intros x Hx; by apply not_elem_of_nil in Hx.
Qed.
Lemma wf_db3 : wf_hooks db3.
Proof. unfold db3, db2, db1. do 3 apply wf_run. apply wf_empty. Qed.

(** The rest of the life of both: a third event is dead-lettered, both are claimed, one is
    delivered, the other fails twice. *)
Definition life_ops : list hook_op :=
  [OEnqueue db3 keep (Some "d3") (event "e3" "n1" "three" (policy "dlq" 2)) 112;
   OClaim keep 10 120; OMarkDelivered keep "d1" 121; OMarkFailed db3 (λ _, 0) "d2" "early" 121].

Example queue_run :
  map (λ d, (d_ID d, d_State d)) (h_deliveries db3) = [("d1", "PENDING"); ("d2", "PENDING")] ∧
  map (λ d, (d_ID d, d_State d)) (h_deliveries (run_hook life_ops db3)) = [("d1", "DELIVERED"); ("d2", "IN_FLIGHT"); ("d3", "DLQED")] ∧
  map au_Type (h_audit (run_hook life_ops db3)) = ["HOOK_DELIVERY_DLQED"].
Proof. vm_compute. repeat split. Qed.

(** ** Witnesses *)

Lemma hook_tables_well_formed_witness : wf_hooks (run_hook life_ops db3).
Proof. apply (hook_tables_well_formed life_ops db3). apply wf_db3. Defined.

Definition first_row (s : hdb) : Delivery := default (mkDelivery "" "" "" "" "" 0 0 0 "" "" "" "" "" "" 0 0 0) (head (h_deliveries s)).

Lemma delivery_life_refinement_witness :
  d_State (first_row db3) = "PENDING" ∧ same_identity (first_row db3) (first_row (run_hook life_ops db3)) ∧
  rtc life (d_State (first_row db3)) (d_State (first_row (run_hook life_ops db3))).
Proof.
  destruct (delivery_life_refinement life_ops db3 wf_db3) as [H _].
  assert (Hin : first_row db3 ∈ h_deliveries db3) by (vm_compute; left).
  assert (Hn : d_HookID (first_row db3) ∉ deleted_hooks life_ops) by (vm_compute; intros Hx; inversion Hx).
  destruct (H (first_row db3) Hin Hn) as [_ Hall]. split; [vm_compute; reflexivity|].
  destruct (Hall (first_row (run_hook life_ops db3))) as (H1 & H2 & _); [vm_compute; left|vm_compute; reflexivity|]. by split.
Defined.

Lemma no_silent_loss_witness :
  lost_aloud db3 (run_hook life_ops db3) ∧
  h_audit db3 = [] ∧ map au_Type (h_audit (run_hook (take 1 life_ops) db3)) = ["HOOK_DELIVERY_DLQED"] ∧
  lost_aloud db3 (run_hook (take 1 life_ops) db3).
Proof.
  destruct (no_silent_loss life_ops db3 wf_db3) as [H Hop]. split; [exact H|]. split; [vm_compute; reflexivity|]. split; [vm_compute; reflexivity|].
  exact (Hop [] _ (drop 1 life_ops) eq_refl).
Defined.


Definition sign_ops : list hook_op := [OReserve db2 "s1" 140; OReserve db2 "s1" 141; OReserve db2 "s1" 142].
Lemma signature_budget_enforced_witness : (signatures "s1" sign_ops db2 ≤ 2)%nat ∧ signatures "s1" sign_ops db2 = 2%nat.
Proof.
  assert (Hw : wf_hooks db2) by (unfold db2, db1; do 2 apply wf_run; apply wf_empty).
  assert (H : Z.of_nat (signatures "s1" sign_ops db2) ≤ Z.max 0 (2 - 0)).
  { apply (signature_budget_enforced 2 0 "s1" sign_ops db2 Hw); [repeat constructor|].
    assert (E : h_secrets db2 = [mkSecret "r1" "s1" "HMAC-SHA256" (nonce ++ bytes_of "pw" ++ [Byte.x00]) "key-0001" 2 0 1 100 101]) by (vm_compute; reflexivity).
    intros r Hr _. rewrite E in Hr. apply list_elem_of_singleton in Hr as ->. cbn. lia. }
  split; [lia|vm_compute; reflexivity].
Defined.

Definition signed_delivery : Delivery :=
  mkDelivery "d7" "h1" "e7" "state" "IN_FLIGHT" 0 2 100 "dlq" "body" "script" "s1" "" "n1" 0 100 100.
Definition toy_runner : option (bytes → bytes → result HookError envelope) := Some (λ _ _, Ok (mkEnvelope true [] None)).
#[local] Existing Instance toy_crypto.
Definition prepared : result HookError SignedRequest * hdb := Prepare store toy_runner (λ _, db2) signed_delivery 150 db2.

Lemma prepared_request_bound_witness :
  ∃ req, prepared.1 = Ok req ∧ sq_Method req = "POST" ∧ sq_Body req = bytes_of "body" ∧
    sq_URL req = "https://hooks.example.org/in?Signature=pw%26%10&a=1".
Proof.
  assert (E : ∃ req, prepared.1 = Ok req ∧ sq_URL req = "https://hooks.example.org/in?Signature=pw%26%10&a=1") by (vm_compute; eexists; split; reflexivity).
  destruct E as (req & E & Hu). exists req. split; [exact E|].
  destruct (prepared_request_bound store toy_runner (λ _, db2) signed_delivery 150 db2 prepared.2 req) as (H1 & H2 & _).
  { destruct prepared as [r s'] eqn:Ep. cbn in E. subst r. exact Ep. }
  split; [exact H1|]. split; [exact H2|exact Hu].
Defined.

Lemma key_file_roundtrip_witness : parseSecretKeyFile (key_file "key-0001" (repeat Byte.x07 32)) = Some ("key-0001", repeat Byte.x07 32).
Proof.
  apply (key_file_roundtrip "key-0001" (repeat Byte.x07 32) nonce (bytes_of "pw")); [cbn; lia|reflexivity|reflexivity|vm_compute; reflexivity].
Defined.

(** A receiver that is down. *)
Definition down : SignedRequest → result string (option Z) := λ _, Ok (Some 503).
Lemma pump_settles_every_delivery_witness :
  let s' := run_pumps store None (λ _ _ _, db3) down (λ _, "error") (λ _, 0) 10 [200; 600] db3 in
  map d_State (h_deliveries s') = ["DLQED"; "DLQED"] ∧ (d_State (first_row s') = "DELIVERED" ∨ d_State (first_row s') = "DLQED" ∨ d_State (first_row s') = "DROPPED_DUE_TO_DECOMMISSION").
Proof.
  split; [vm_compute; reflexivity|].
  apply (pump_settles_every_delivery store None (λ _ _ _, db3) down (λ _, "error") (λ _, 0) 10 200 [600] db3).
  - apply wf_db3.
  - lia.
  - assert (E : length (h_deliveries db3) = 2%nat) by (vm_compute; reflexivity). rewrite E. lia.
  - cbn. lia.
  - intros x Hx. right. assert (Hall : Forall (λ x, (d_State x, d_NextAttemptAt x <=? 200, d_MaxAttempts x - d_AttemptCount x <=? 2) = ("PENDING", true, true)) (h_deliveries db3)) by (vm_compute; repeat constructor).
    apply list_elem_of_In in Hx. rewrite List.Forall_forall in Hall. specialize (Hall x Hx). injection Hall as H1 H2 H3. split; [by left|]. split; [lia|cbn; lia].
  - vm_compute. left.
Defined.

(** ** What the comments say otherwise *)

(** An event that was merged is not remembered: asked for again it becomes a delivery. *)
Definition merged_ops : list hook_op :=
  [OEnqueue db2 keep (Some "d1") (event "e1" "n1" "one" (policy "coalesce" 1)) 110;
   OEnqueue db2 keep (Some "d2") (event "e2" "n2" "two" (policy "coalesce" 1)) 111;
   OClaim keep 10 112; OMarkDelivered keep "d1" 113;
   OEnqueue db2 keep (Some "d3") (event "e2" "n2" "two" (policy "coalesce" 1)) 114].
Example merged_event_delivered_twice :
  map (λ d, (d_ID d, d_EventID d, d_State d, d_PayloadJSON d)) (h_deliveries (run_hook merged_ops db2)) =
  [("d1", "e1", "DELIVERED", "two"); ("d3", "e2", "PENDING", "two")].
Proof. vm_compute. reflexivity. Qed.

(** An event of one node merged into a delivery of another is dropped with the other node. *)
Definition merged_drop_ops : list hook_op :=
  [OEnqueue db2 keep (Some "d1") (event "e1" "n1" "one" (policy "coalesce" 1)) 110; ODecommission "n1" 115 111;
   OEnqueue db2 keep (Some "d2") (event "e2" "n2" "two" (policy "coalesce" 1)) 112; OClaim keep 10 120].
Example merged_event_dropped_with_other_node :
  map (λ d, (d_NodeID d, d_State d, d_PayloadJSON d)) (h_deliveries (run_hook merged_drop_ops db2)) = [("n1", "DROPPED_DUE_TO_DECOMMISSION", "two")] ∧
  map au_Type (h_audit (run_hook merged_drop_ops db2)) =
    ["HOOK_DECOMMISSION_MARKED"; "HOOK_DELIVERY_COALESCED"; "HOOK_DELIVERY_DROPPED_DUE_TO_DECOMMISSION"].
Proof. vm_compute. split; reflexivity. Qed.

(** The backoff never comes near five minutes. *)
Example backoff_curve : map BackoffSeconds [1; 2; 3; 4; 5; 6; 7; 8; 9; 100] = [1; 2; 4; 8; 16; 32; 64; 128; 128; 128].
Proof. vm_compute. reflexivity. Qed.

(** A dead letter is audited although its row was dropped after the attempt was read. *)
Definition before_drop : hdb := run_hook [OEnqueue db2 keep (Some "d1") (event "e1" "n1" "one" (mkPolicy 1 "dlq" 5 1)) 110; OClaim keep 10 111; ODecommission "n1" 112 111] db2.
Definition after_drop : hdb := run_hook [OClaim keep 10 113; OMarkFailed before_drop (λ _, 0) "d1" "down" 114] before_drop.
Example dropped_row_audited_as_dead :
  map d_State (h_deliveries after_drop) = ["DROPPED_DUE_TO_DECOMMISSION"] ∧
  map au_Type (h_audit after_drop) = ["HOOK_DECOMMISSION_MARKED"; "HOOK_DELIVERY_DROPPED_DUE_TO_DECOMMISSION"; "HOOK_DELIVERY_DLQED"].
Proof. vm_compute. split; reflexivity. Qed.

Lemma service_hooks_deliverable_witness :
  all_deliverable empty_hooks ∧
  let made := (Service_CreateDefinition keep (Some "h1") "hook" "webhook" "https://hooks.example.org/in" 100 empty_hooks).2 in
  map hd_URL (h_defs made) = ["https://hooks.example.org/in"] ∧ all_deliverable made.
Proof.
  assert (H : all_deliverable empty_hooks) by (intros r Hr; by apply not_elem_of_nil in Hr).
  split; [exact H|]. split; [reflexivity|].
  exact (proj1 (service_hooks_deliverable empty_hooks empty_hooks keep (Some "h1") "hook" "webhook" "https://hooks.example.org/in" "h1" None None 1 100 H H)).
Defined.
